(* ===== verification/_CoqProject ===== *)
-Q . S2P
Prelude.v
Records.v
Ip.v
InetText.v
Rule.v
Snap.v
Json.v
Wire.v
Guard.v
Db.v
PolicyState.v
Engine.v
EngineCore.v
EnginePersist.v
Sync.v
Proto.v
Session.v
SessionWake.v
SessionPush.v
Pull.v
Report.v
ByteArray.v
ByteCodec.v
Stream.v
Breaker.v
Lb.v
UpsGroup.v
ConnPool.v
Buf.v
Body.v
Chunks.v
Str.v
HttpMsg.v
HttpParse.v
Arc.v
Router.v
RouteCache.v
Heads.v
Forward.v
RateLimit.v
Ctx.v
Mw.v
Waf.v
Auth.v
Limits.v
Ws.v
Tunnel.v
Chain.v
Conn.v
Gateway.v
Daemon.v
Conf.v
Reload.v
