(* ===== verification/Prelude.v ===== *)
(** * Bronx gateway: a verification library

    The repository is an HTTP gateway in C++20 with a separate policy hub. A gateway
    process accepts connections, filters clients by address, routes requests and
    forwards them to upstream endpoints; it reports abusive clients to the hub over a
    datagram socket. The hub turns reports and administrative edits into rules, keeps
    them in a SQLite file, and pushes every change to all gateways over a framed TCP
    session; a gateway keeps a mirror of the rules and decides by it. This library
    models the policy side (src/ipban) end to end and the parts of the gateway
    (src/gateway) that carry its own logic between the parsed request and the
    upstream socket.

    ** Parts, files and code

    Policy, on both sides of the wire:
    - [Ip] (ip.cpp): binary addresses, CIDR text, membership, the client behind
      trusted proxies; [InetText]: a concrete instance of the text form.
    - [Rule] (rule.h, judge.cpp): reports, rules, priorities, arbitration.
    - [Snap] (snap.cpp): the compiled rule list and its decision.
    - [Json], [Wire] (wire.cpp): every message body; the JSON library is a class.
    - [Guard] (guard.cpp): the gateway's ledger of static and mirrored rules.
    - [Db] (db.cpp): the three tables; [PolicyState] (changelog.h, expiry.h, store.h):
      the hub's containers; [Engine] (engine.cpp): every handler of the hub;
      [EngineCore], [EnginePersist]: what the handlers do to the store and to the
      database; [Sync]: what a push does to a gateway.
    - [Proto] (proto.cpp): message framing over cut and interrupted streams.
    - [Session] (session.cpp, waker.h): a hub session as two coroutines and other
      threads that interleave; [SessionWake], [SessionPush]: its invariants; [Pull]
      (pull.cpp): the gateway's end of the session.
    - [Report] (report.cpp, waker.h): the queue of reports of a gateway, the coroutine that
      sends them and the threads that report, start and stop, as steps that interleave.
    - [Daemon] (daemon.cpp, the registry of session.cpp): the process of the hub around
      [Engine]: acceptors, connections, sessions, the timer, starts and stops as threads
      that interleave.

    Forwarding:
    - [Breaker] (ronduan.cpp, up_ret.h): the circuit breaker of an endpoint.
    - [Lb] (lb.h): the balancers, behind the class [Balancer].
    - [UpsGroup] (ups_group.cpp): the search for a connection, which uses a breaker and
      any [Balancer]; statistics; health checks.
    - [ConnPool] (conn_pool.cpp): idle connections.
    - [Buf] (buf.cpp): the read buffer; [Body] (body.cpp): bodies read out of it.
    - [Str] (str.h): the text tools of header fields; [HttpMsg] (http_msg.cpp): requests
      and responses, whose fields are a map and a list at once; [HttpParse]
      (http_parse.cpp): what the callbacks of the generated parsers make of a head, and
      the framing of its body.
    - [Router] (router.cpp): the rules, their order and the match; [Arc] (tools/arc.h): the
      cache; [RouteCache] (rt_cache.h, arc_cache.h, router.cpp): the router with a cache
      of the class [RouteCache], with changes by other threads.
    - [Heads] (upstream.cpp, mw.cpp): what passes from a head to the one that is sent on;
      [Forward] (upstream.cpp): the whole of [Upstream::forward].

    A request in the gateway:
    - [RateLimit] (builtin.h, builtin.cpp): token buckets in binary64 arithmetic (the class
      [Arith], with the rationals as a second instance), the table of buckets and the
      counts of refusals.
    - [Ctx] (ctx.h, mw.cpp, conn.cpp): the context of a request, what answering it does to
      the client's connection, the chain as an onion of functions; the contracts [lawful]
      and [transparent] every middleware is proved to keep.
    - [Mw] (builtin.cpp, proxy.cpp, banmw.cpp): the plain middlewares; [Limits]
      (builtin.cpp): limits by route and lists of addresses; [Waf] (waf.cpp): the firewall
      and its regular expressions; [Auth] (jwt.cpp, builtin.cpp): tokens, keys and what the
      upstream is told of the client.
    - [Ws] (ws.cpp, hash.cc): the upgrade to a websocket up to the pumps; [Tunnel]
      (ws.cpp): the pumps and the request as threads that interleave.
    - [Conf] (conf.cpp): from a YAML document, whose library is a class, to the groups,
      routes, lists, keys and limits the other parts take; [Reload] (gateway.cpp): the server
      and its reloads, which interleave.
    - [Chain] (proxy.cpp, conf.cpp): the proxy middleware around [Forward], and the chain
      the configuration builds, in its order.
    - [Conn] (conn.cpp, opts.h): the request loop of a connection, for any handler of the
      class [RequestHandler]; [Gateway] (api_gw/gw.cpp): the handler that runs the chain of
      the current configuration, an instance of it.

    Under both (src/bronx):
    - [ByteArray] (bytearray.cpp): a chain of memory blocks with its pointers; [ByteCodec]
      (bytearray.cpp, _endian.h): numbers and strings in it; [Stream] (stream.cpp,
      sock_stream.cpp): exact reads and writes over a socket.

    [Prelude] holds machine integers, strings, decimal numbers, sorting and the
    tactics; [Records] the notation for record update.

    ** How state and operations correspond

    A class is a record with the fields of its members; a method is a function with the
    method's name (a prefix where two classes share one) from the record to its result
    and the record. A method that holds a mutex from start to end is one function and
    one step. Where the code interleaves (the hub session), each critical section and
    each other shared access is a step of a relation and the steps interleave freely.
    The clock, the network, the allocator, the kernel's view of a socket and other
    threads are arguments: a value, a script of what successive calls return, or a
    function. Integers are [Z] with the wrap-around written where an operation can
    leave the type. An exception or an error return is a value of an option or a sum.

    ** What the theorems show

    - Replication: the hub's pushes keep a gateway's mirror equal to the hub's store
      ([Sync.replication], [Pull.push_acknowledged]), so that it decides as the hub
      would ([Sync.mirror_decides]); a rejected push changes nothing and one
      resynchronisation is asked for ([Pull.resync_once]).
    - The hub: what a report, a deadline and a flush do ([EngineCore.onRisk_exact],
      [EngineCore.tickExpiry_exact], [EnginePersist.flush_spec]), and that a restarted
      hub has the rules worth keeping ([EnginePersist.restart_recovers],
      [Db.db_recovers]). The process around it: once it has stopped nothing edits any more
      and what it kept is recovered ([Daemon.stop_saves]); a stop is bounded and never lost
      ([Daemon.stop_finishes]).
    - Reports: none is lost unseen and the reporter comes to its end
      ([Report.report_conserves], [Report.report_ends]).
    - The session: no wake-up is lost, and what a push starts from
      ([SessionWake.no_lost_wakeup], [SessionPush.push_base], [SessionPush.ready_first]);
      waits between sessions ([Pull.backoff_bounds]); framing ([Proto.message_delivered],
      [Proto.recvMsg_safe]).
    - Decisions: the compiled list against a reference ([Snap.snap_eval_best],
      [Snap.snap_eval_reference]), the ledger's snapshot ([Guard.guard_snapshot_current],
      [Guard.guard_tick_complete], [Guard.staticRulesFromCfg_spec]), addresses
      ([Ip.parseCidr_toString], [Ip.parseCidr_canonical], [Ip.resolve_no_spoofing]),
      messages ([Wire.snap_roundtrip], [Wire.delta_roundtrip], [Wire.riskFromJson_no_forgery]).
    - Upstreams: the breaker counts its probes and its window exactly
      ([Breaker.breaker_probes], [Breaker.window_exact]); the balancers are fair
      ([Lb.wrr_fair], [Lb.least_picks_lightest]); the search ends and gives back what it
      took ([UpsGroup.tryAcquire_terminates], [UpsGroup.tryAcquire_balanced]); health
      changes on streaks ([UpsGroup.health_hysteresis]); connections are never shared
      ([ConnPool.pool_exclusive]).
    - Bytes: the buffer is a queue ([Buf.buf_refines_queue]); chunked bodies are read
      back whole ([Body.chunked_roundtrip]) and reading is bounded ([Body.body_bounded]).
    - Heads: where a body ends agrees with a reference on the fields
      ([HttpParse.request_framing], [HttpParse.response_framing]); the map and the list
      of fields agree ([HttpMsg.fields_agree]); a printed head reads back
      ([HttpMsg.head_roundtrip]); what is sent on, name by name ([Heads.request_head],
      [Heads.response_head]).
    - Routing: the match is the best matching rule ([Router.route_best]); the cache keeps
      its bounds ([Arc.arc_cache]) and does not show ([RouteCache.route_transparent]).
    - Forwarding: every exit gives the connection back and counts one result
      ([Forward.forward_accounts]); what the client has seen when it ends
      ([Forward.forward_answers]); when a request is repeated ([Forward.forward_retry]);
      it ends ([Forward.forward_ends]).
    - The chain: every request leaves it with exactly one answer ([Chain.chain_answers]).
      A route's token, key, scopes and roles are demanded ([Auth.auth_sound]) and the
      upstream is told of them by the gateway alone ([Auth.auth_identity]). The firewall
      agrees with a declarative meaning of its expressions ([Waf.waf_exact]) and encoding
      does not get past it ([Waf.waf_encoded]); so do the lists of addresses
      ([Limits.ip_filter_exact]). Clients do not use up each other's tokens
      ([RateLimit.limiter_isolated]), a bucket keeps its rate ([RateLimit.bucket_rate]) and
      reports are for refusals of one window ([RateLimit.rate_reports]).
    - Upgrades: the client is told of one only after the upstream's own answer, in order
      ([Ws.tunnel_upgrade]), and the connection is given up once ([Ws.tunnel_accounts]);
      while the pumps run nothing they use is closed and the last one clears up
      ([Tunnel.tunnel_clears_up]), no byte is reordered or invented
      ([Tunnel.tunnel_keeps_bytes]), and the tunnel ends ([Tunnel.tunnel_ends]).
    - Configurations: one that loads is sound whatever the document says, and a route that
      matches leads to a group of it ([Conf.conf_sound]). What is in force is of one document
      however reloads interleave ([Reload.reload_atomic]), and which services then work
      ([Reload.reload_services]).
    - Connections: the loop ends and every request got one answer ([Conn.conn_serves]);
      the next request begins exactly where the body of the last one ended
      ([Conn.conn_boundaries]); with the chain as its handler no request is left to the
      loop ([Gateway.gateway_serves]).

    - Byte arrays: the chain of blocks does not show ([ByteArray.bytearray_refines]); what
      is written is read back, the same on every machine ([ByteCodec.items_roundtrip]);
      exact transfers are exact ([Stream.stream_exact]).

    Examples in the files record where the code does not do what it means to:
    [SessionPush.wake_before_hello], [SessionPush.drain_forgotten],
    [SessionPush.force_undoes_closed], [Proto.recvMsg_timeout_loses_head],
    [Breaker.window_loses], [Conf.port_not_bounded], [ConnPool.idle_wraps],
    [Reload.stopped_in_service], [Reload.started_after_stop], [Body.trailer_cut],
    [HttpParse.te_twice], [HttpMsg.vary_lost], [Router.trailing_slash],
    [Router.priority_wraps], [RouteCache.key_collides], [Heads.identity_dropped],
    [Heads.old_client_chunked], [RateLimit.changed_while_full], [Ws.forged_upgrade],
    [Tunnel.stale_wake], [Conn.body_as_request], [Conn.early_error_keeps_alive],
    [Report.drained_too_late], [Report.never_woken], [Report.dropped_but_seen],
    [Daemon.malformed_report], [Daemon.start_after_stop], [Daemon.idle_submitter],
    [ByteArray.read_beyond], [ByteArray.half_grown], [ByteArray.read_directory],
    [ByteCodec.long_string], [ByteCodec.length_first], [Stream.length_is_an_int].

    ** Fuel and bounds

    Loops are structural on the script or list they consume wherever the code's are.
    [Engine.flush_loop] has the length of the queue as fuel, each round but the last
    taking operations off it; [UpsGroup.acquire_loop] one more than the number of
    endpoints, each turn but the last dropping a candidate; [Buf.grow] 64 doublings of a
    64-bit capacity ([Buf.grow_fuel]); [Body.read_all] and
    [Forward.body_blocks] one more than the bytes there are; [Conn.process] one more than
    the requests a connection may have; the loops over a chain of blocks have its length,
    each turn moving along it; [Stream.exact_loop] one more than the bytes asked for.
    That each is enough is proved with the component.

    ** Not modelled

    The coroutine runtime, its timers, sockets and logging (the rest of src/bronx) are what
    the modelled code runs on: what it relies on is an argument. The parsers under gw_parser
    are generated by Ragel; what their callbacks make of a head is [HttpParse]. The hash
    functions, the verification of a token's signature and the JSON library are third-party
    or stand behind a class. The YAML library is a class. The administration pages,
    metrics, traces and the page of the hub are text over counters that change no state
    modelled here. *)

From Stdlib Require Export ZArith Lia Ascii String.
From stdpp Require Export base numbers option list sorting gmap strings.
From Stdlib Require Import Sorting.Sorted.

#[global] Open Scope Z_scope.

(** ** Machine integers

    A [uintN_t] is a [Z] in [0, 2^N); the code's wrap-around is written with
    [wrapN] where an operation can leave the range. *)

Definition UINT32_MAX : Z := 2 ^ 32 - 1.
Definition UINT64_MAX : Z := 2 ^ 64 - 1.
Definition INT64_MAX : Z := 2 ^ 63 - 1.
Definition INT32_MAX : Z := 2 ^ 31 - 1.

Definition wrap8 (z : Z) : Z := z mod 2 ^ 8.
Definition wrap16 (z : Z) : Z := z mod 2 ^ 16.
Definition wrap32 (z : Z) : Z := z mod 2 ^ 32.
Definition wrap64 (z : Z) : Z := z mod 2 ^ 64.

Definition is_u8 (z : Z) : Prop := 0 <= z < 2 ^ 8.
Definition is_u16 (z : Z) : Prop := 0 <= z < 2 ^ 16.
Definition is_u32 (z : Z) : Prop := 0 <= z < 2 ^ 32.
Definition is_u64 (z : Z) : Prop := 0 <= z < 2 ^ 64.

Lemma wrap64_id z : is_u64 z -> wrap64 z = z.
Proof. unfold is_u64, wrap64. apply Z.mod_small. Qed.

Lemma wrap32_id z : is_u32 z -> wrap32 z = z.
Proof. unfold is_u32, wrap32. apply Z.mod_small. Qed.

Lemma wrap64_range z : is_u64 (wrap64 z).
Proof. unfold is_u64, wrap64. apply Z.mod_pos_bound. lia. Qed.

(** What a cast to [int] keeps of a number. *)
Definition wrap_int32 (z : Z) : Z := wrap32 (z + 2 ^ 31) - 2 ^ 31.

Lemma wrap_int32_id z : - 2 ^ 31 <= z < 2 ^ 31 -> wrap_int32 z = z.
Proof. intros H. unfold wrap_int32. rewrite wrap32_id by (unfold is_u32; lia). lia. Qed.

(** ** Tactics *)

(** Turns boolean tests in the context and the goal into propositions. *)
Ltac b2p :=
  repeat match goal with
  | H : _ && _ = true |- _ => apply andb_prop in H as [? ?]
  | H : _ || _ = false |- _ => apply orb_false_elim in H as [? ?]
  | H : negb _ = true |- _ => apply negb_true_iff in H
  | H : negb _ = false |- _ => apply negb_false_iff in H
  | H : (_ =? _)%Z = true |- _ => apply Z.eqb_eq in H
  | H : (_ =? _)%Z = false |- _ => apply Z.eqb_neq in H
  | H : (_ <? _)%Z = true |- _ => apply Z.ltb_lt in H
  | H : (_ <? _)%Z = false |- _ => apply Z.ltb_ge in H
  | H : (_ <=? _)%Z = true |- _ => apply Z.leb_le in H
  | H : (_ <=? _)%Z = false |- _ => apply Z.leb_gt in H
  | H : context [(_ >=? _)%Z] |- _ => rewrite Z.geb_leb in H
  | H : context [(_ >? _)%Z] |- _ => rewrite Z.gtb_ltb in H
  | H : (_ =? _)%nat = true |- _ => apply Nat.eqb_eq in H
  | H : (_ =? _)%nat = false |- _ => apply Nat.eqb_neq in H
  | H : (_ <? _)%nat = true |- _ => apply Nat.ltb_lt in H
  | H : (_ <? _)%nat = false |- _ => apply Nat.ltb_ge in H
  | H : (_ <=? _)%nat = true |- _ => apply Nat.leb_le in H
  | H : (_ <=? _)%nat = false |- _ => apply Nat.leb_gt in H
  | H : bool_decide _ = true |- _ => apply bool_decide_eq_true in H
  | H : bool_decide _ = false |- _ => apply bool_decide_eq_false in H
  end.

(** Splits on the scrutinee of every [if] and [match] in sight. *)
Ltac cases :=
  repeat (case_match; simplify_eq/=).

(** Case analysis on one boolean test, with the test as a proposition. *)
Tactic Notation "btest" constr(b) := destruct b eqn:?; b2p.

(** ** Sorting

    [std::sort] promises a sorted permutation and nothing about the order of
    equivalent elements, so it is an interface: what is proved about its
    clients holds for every implementation. *)

Class StrictWeak {A} (lt : A -> A -> bool) : Prop := {
  sw_irrefl : forall a, lt a a = false;
  sw_trans : forall a b c, lt a b = true -> lt b c = true -> lt a c = true;
  sw_cotrans : forall a b c, lt a c = true -> lt a b = true \/ lt b c = true;
}.

(** [b] does not have to come before [a]. *)
Definition not_after {A} (lt : A -> A -> bool) (a b : A) : Prop := lt b a = false.

Class StdSort := {
  std_sort : forall {A}, (A -> A -> bool) -> list A -> list A;
  std_sort_perm : forall A (lt : A -> A -> bool) l, std_sort lt l ≡ₚ l;
  std_sort_sorted : forall A (lt : A -> A -> bool) l,
    StrictWeak lt -> StronglySorted (not_after lt) (std_sort lt l);
}.

Section strict_weak.
Context {A : Type} (lt : A -> A -> bool) {SW : StrictWeak lt}.

Lemma sw_asym a b : lt a b = true -> lt b a = false.
Proof.
  intros H. destruct (lt b a) eqn:E; [|done].
  pose proof (sw_trans _ _ _ H E). by rewrite sw_irrefl in H0.
Qed.

Lemma not_after_trans a b c :
  not_after lt a b -> not_after lt b c -> not_after lt a c.
Proof.
  unfold not_after. intros H1 H2. destruct (lt c a) eqn:E; [|done].
  apply (sw_cotrans c b a) in E as [E|E]; congruence.
Qed.

Lemma not_after_refl a : not_after lt a a.
Proof. apply sw_irrefl. Qed.

Fixpoint insert_sorted (x : A) (l : list A) : list A :=
  match l with
  | [] => [x]
  | y :: l' => if lt y x then y :: insert_sorted x l' else x :: l
  end.

Definition isort (l : list A) : list A := foldr insert_sorted [] l.

Lemma insert_sorted_perm x l : insert_sorted x l ≡ₚ x :: l.
Proof.
  induction l as [|y l IH]; simpl; [done|].
  destruct (lt y x); [|done]. rewrite IH. apply perm_swap.
Qed.

Lemma isort_perm l : isort l ≡ₚ l.
Proof. induction l; simpl; [done|]. by rewrite insert_sorted_perm, IHl. Qed.

Lemma insert_sorted_ok x l :
  StronglySorted (not_after lt) l -> StronglySorted (not_after lt) (insert_sorted x l).
Proof.
  induction 1 as [|y l Hs IH Hy]; simpl; [repeat constructor|].
  destruct (lt y x) eqn:E.
  - constructor; [done|]. rewrite insert_sorted_perm.
    constructor; [by apply sw_asym|done].
  - constructor; [by constructor|]. constructor; [done|].
    eapply Forall_impl; [exact Hy|]. intros z Hz. by apply (not_after_trans x y z).
Qed.

Lemma isort_sorted l : StronglySorted (not_after lt) (isort l).
Proof. induction l; simpl; [constructor|]. by apply insert_sorted_ok. Qed.
End strict_weak.

(** A lawful instance, used by the witnesses. *)
Definition insertion_StdSort : StdSort := {|
  std_sort := fun A lt => isort lt;
  std_sort_perm := fun A lt => isort_perm lt;
  std_sort_sorted := fun A lt l SW => isort_sorted lt l;
|}.

(** [o] is an element of [P] that no other element of [P] comes before, or
    [None] when [P] is empty. *)
Definition best_in {A} (lt : A -> A -> bool) (P : A -> Prop) (o : option A) : Prop :=
  match o with
  | Some x => P x /\ (forall y, P y -> lt y x = false)
  | None => forall y, ~ P y
  end.

Section best_in.
Context {A : Type} (lt : A -> A -> bool) {SW : StrictWeak lt}.

(** A best element of a part is one of the whole when no element of the whole
    comes before every element of the part. *)
Lemma best_in_widen (P Q : A -> Prop) o :
  (forall y, P y -> Q y) -> (forall y, Q y -> exists z, P z /\ lt y z = false) ->
  best_in lt P o -> best_in lt Q o.
Proof.
  intros HPQ HQP. destruct o as [x|]; simpl.
  - intros [Hx Hb]. split; [by apply HPQ|]. intros y Hy.
    destruct (HQP y Hy) as (z & Hz & Hyz). destruct (lt y x) eqn:E; [|done].
    apply (sw_cotrans _ z) in E as [E|E]; [congruence|]. by rewrite Hb in E.
  - intros Hn y Hy. destruct (HQP y Hy) as (z & Hz & _). by apply (Hn z).
Qed.

Lemma best_in_ext (P Q : A -> Prop) o :
  (forall y, P y <-> Q y) -> best_in lt P o -> best_in lt Q o.
Proof.
  intros H. apply best_in_widen; [by intros y ?; apply H|].
  intros y Hy. exists y. split; [by apply H|apply sw_irrefl].
Qed.

(** Two best elements of the same set are a tie. *)
Lemma best_in_tie (P : A -> Prop) o o' :
  best_in lt P o -> best_in lt P o' ->
  match o, o' with
  | Some x, Some y => lt x y = false /\ lt y x = false
  | None, None => True
  | _, _ => False
  end.
Proof.
  destruct o as [x|], o' as [y|]; simpl; try done.
  - intros [Hx Hbx] [Hy Hby]. auto.
  - intros [Hx _] Hn. by apply (Hn x).
  - intros Hn [Hy _]. by apply (Hn y).
Qed.

(** A scan of a sorted list that stops at the first hit finds a best hit. *)
Lemma find_sorted_best (p : A -> bool) (l : list A) :
  StronglySorted (not_after lt) l ->
  best_in lt (fun y => y ∈ l /\ p y = true) (List.find p l).
Proof.
  induction 1 as [|a l Hs IH Ha]; simpl; [by intros y [[]%elem_of_nil _]|].
  destruct (p a) eqn:Ea.
  - split; [by split; [left|]|]. intros y [Hy Hpy].
    apply elem_of_cons in Hy as [->|Hy]; [by apply sw_irrefl|].
    rewrite Forall_forall in Ha. by apply Ha.
  - revert IH. apply best_in_ext. intros y. rewrite elem_of_cons.
    split; [tauto|]. intros [[->|Hy] Hp]; [congruence|done].
Qed.
End best_in.

Lemma elem_of_filter_bool {A} (p : A -> bool) (l : list A) x :
  x ∈ List.filter p l <-> x ∈ l /\ p x = true.
Proof. rewrite !list_elem_of_In. apply filter_In. Qed.

(** ** Strings

    [std::string] is [string]; [chars] is its content as a list. *)

Abbreviation chars := list_ascii_of_string.
Abbreviation of_chars := string_of_list_ascii.

Definition NUL : ascii := "000"%char.
Definition TAB : ascii := "009"%char.
Definition LF : ascii := "010"%char.
Definition CR : ascii := "013"%char.
Definition SP : ascii := " "%char.

Definition code (c : ascii) : Z := Z.of_N (N_of_ascii c).
Definition chr (z : Z) : ascii := ascii_of_N (Z.to_N z).

#[global] Arguments Ascii.eqb : simpl never.
#[global] Arguments code : simpl never.
#[global] Arguments chr : simpl never.

(** What a C function that takes [s.c_str()] sees of [s]. *)
Fixpoint c_str (s : string) : string :=
  match s with
  | EmptyString => EmptyString
  | String c s' => if Ascii.eqb c NUL then EmptyString else String c (c_str s')
  end.

Fixpoint has_char (c : ascii) (s : string) : bool :=
  match s with
  | EmptyString => false
  | String d s' => Ascii.eqb c d || has_char c s'
  end.

(** [i = s.find(c)] with [s.substr(0, i)] and [s.substr(i + 1)]. *)
Fixpoint break_at (c : ascii) (s : string) : option (string * string) :=
  match s with
  | EmptyString => None
  | String d s' =>
      if Ascii.eqb c d then Some (EmptyString, s')
      else match break_at c s' with
           | Some (a, b) => Some (String d a, b)
           | None => None
           end
  end.

(** [isspace] of the C locale. *)
Definition isspace (c : ascii) : bool :=
  (code c =? 32) || ((9 <=? code c) && (code c <=? 13)).

Definition isdigit (c : ascii) : bool := (48 <=? code c) && (code c <=? 57).

(** [tolower] of the C locale, and equality up to case as [strcasecmp] sees it. *)
Definition tolower (c : ascii) : ascii :=
  if (65 <=? code c) && (code c <=? 90) then chr (code c + 32) else c.

Fixpoint lower (s : string) : string :=
  match s with
  | EmptyString => EmptyString
  | String c s' => String (tolower c) (lower s')
  end.

Definition case_eqb (a b : string) : bool := String.eqb (lower (c_str a)) (lower (c_str b)).

Lemma has_char_app c s t : has_char c (s ++ t)%string = has_char c s || has_char c t.
Proof. induction s as [|d s IH]; simpl; [done|]. by rewrite IH, orb_assoc. Qed.

Lemma string_app_nil s : (s ++ "")%string = s.
Proof. induction s as [|c s IH]; [done|]. change (String c (s ++ "") = String c s)%string. by rewrite IH. Qed.

Lemma break_at_none c s : break_at c s = None <-> has_char c s = false.
Proof.
  induction s as [|d s IH]; simpl; [done|].
  destruct (Ascii.eqb c d); simpl; [done|].
  destruct (break_at c s) as [[a b]|]; [|tauto].
  split; [done|]. intros H. apply IH in H. done.
Qed.

Lemma break_at_app c s t :
  has_char c s = false -> break_at c (s ++ String c t)%string = Some (s, t).
Proof.
  induction s as [|d s IH]; simpl; intros H.
  - by rewrite Ascii.eqb_refl.
  - apply orb_false_elim in H as [-> H]. by rewrite IH.
Qed.

Lemma c_str_id s : has_char NUL s = false -> c_str s = s.
Proof.
  induction s as [|d s IH]; simpl; intros H; [done|].
  apply orb_false_elim in H as [H1 H]. rewrite Ascii.eqb_sym, H1. by rewrite IH.
Qed.

Lemma code_range c : 0 <= code c < 256.
Proof. unfold code. pose proof (N_ascii_bounded c). lia. Qed.

Lemma code_chr z : is_u8 z -> code (chr z) = z.
Proof. unfold is_u8, code, chr. intros. rewrite N_ascii_embedding by lia. lia. Qed.

(** ** Decimal numbers: [std::to_string], [strtol] and [strtoull] *)

Fixpoint dec_digits (fuel : nat) (z : Z) (acc : string) : string :=
  match fuel with
  | O => acc
  | S f =>
      let acc := String (chr (48 + z mod 10)) acc in
      if z / 10 =? 0 then acc else dec_digits f (z / 10) acc
  end.

Definition udec (z : Z) : string := dec_digits (S (Z.to_nat (Z.log2 z))) z "".

Definition to_string (z : Z) : string :=
  if z <? 0 then String "-" (udec (- z)) else udec z.

(** Reads decimal digits: the value, how many were read, and the rest. *)
Fixpoint scan_dec (s : string) (acc : Z) (n : nat) : Z * nat * string :=
  match s with
  | String c s' =>
      if isdigit c then scan_dec s' (acc * 10 + (code c - 48)) (S n) else (acc, n, s)
  | EmptyString => (acc, n, EmptyString)
  end.

Fixpoint skip_space (s : string) : string :=
  match s with
  | String c s' => if isspace c then skip_space s' else s
  | EmptyString => EmptyString
  end.

Definition clamp64 (z : Z) : Z := Z.max (- INT64_MAX - 1) (Z.min INT64_MAX z).

(** [strtol(p, &end, 10)] on a C string: the value and the text at [end];
    [None] when nothing was converted ([end == p]). *)
Definition strtol10 (p : string) : option (Z * string) :=
  let s := skip_space p in
  let '(neg, s) := match s with
                   | String "-" s' => (true, s')
                   | String "+" s' => (false, s')
                   | _ => (false, s)
                   end in
  let '(v, n, rest) := scan_dec s 0 0 in
  if (n =? 0)%nat then None else Some (clamp64 (if neg then - v else v), rest).

Lemma isdigit_digit d : 0 <= d < 10 -> isdigit (chr (48 + d)) = true.
Proof. intros H. unfold isdigit. rewrite code_chr by (unfold is_u8; lia). lia. Qed.

Lemma scan_dec_digits fuel z acc a n :
  0 <= z < 2 ^ Z.of_nat fuel ->
  exists k : nat, (fuel <> O -> k <> O) /\ scan_dec (dec_digits fuel z acc) a n = scan_dec acc (a * 10 ^ Z.of_nat k + z) (k + n)%nat.
Proof.
  revert z acc. induction fuel as [|f IH]; intros z acc Hz.
  { exists O. split; [done|]. cbn [dec_digits]. f_equal. simpl in *. lia. }
  cbn [dec_digits].
  assert (Hm : 0 <= z mod 10 < 10) by (apply Z.mod_pos_bound; lia).
  assert (Hstep : forall v m, scan_dec (String (chr (48 + z mod 10)) acc) v m
                              = scan_dec acc (v * 10 + z mod 10) (S m)).
  { intros v m. cbn [scan_dec]. rewrite isdigit_digit by done.
    rewrite code_chr by (unfold is_u8; lia). f_equal; lia. }
  destruct (z / 10 =? 0) eqn:E; b2p.
  - exists 1%nat. split; [done|]. rewrite Hstep. f_equal.
    pose proof (Z_div_mod_eq_full z 10). lia.
  - destruct (IH (z / 10) (String (chr (48 + z mod 10)) acc)) as (k & _ & ->).
    { split; [apply Z.div_pos; lia|]. apply Z.div_lt_upper_bound; [lia|].
      rewrite Nat2Z.inj_succ, Z.pow_succ_r in Hz by lia. lia. }
    exists (S k). split; [done|]. rewrite Hstep. f_equal.
    rewrite Nat2Z.inj_succ, Z.pow_succ_r by lia.
    pose proof (Z_div_mod_eq_full z 10). lia.
Qed.

Definition no_digit_head (s : string) : bool :=
  match s with String c _ => negb (isdigit c) | EmptyString => true end.

Lemma scan_dec_stop s a n : no_digit_head s = true -> scan_dec s a n = (a, n, s).
Proof. destruct s as [|c s]; [done|]. simpl. by destruct (isdigit c). Qed.

Lemma dec_digits_app fuel z a b :
  dec_digits fuel z (a ++ b)%string = (dec_digits fuel z a ++ b)%string.
Proof.
  revert z a. induction fuel as [|f IH]; intros z a; simpl; [done|].
  destruct (z / 10 =? 0); [done|].
  by rewrite <- (IH _ (String _ a)).
Qed.

(** Reading back what [std::to_string] wrote. *)
Lemma scan_dec_udec z rest :
  0 <= z -> no_digit_head rest = true ->
  exists k, k <> O /\ scan_dec (udec z ++ rest)%string 0 0 = (z, k, rest).
Proof.
  intros Hz Hr. unfold udec. rewrite <- dec_digits_app. change ("" ++ rest)%string with rest.
  destruct (scan_dec_digits (S (Z.to_nat (Z.log2 z))) z rest 0 0) as (k & Hk & ->).
  { split; [done|]. rewrite Nat2Z.inj_succ, Z2Nat.id by apply Z.log2_nonneg.
    destruct (decide (z = 0)) as [->|]; [done|]. apply Z.log2_spec. lia. }
  exists k. split; [by apply Hk|]. rewrite scan_dec_stop by done.
  by rewrite Z.mul_0_l, Nat.add_0_r.
Qed.

(** The digits contain nothing but digits. *)
Lemma udec_has_char c z : 0 <= z -> isdigit c = false -> has_char c (udec z) = false.
Proof.
  intros Hz Hc. unfold udec.
  assert (H : forall fuel z acc, 0 <= z -> has_char c acc = false ->
             has_char c (dec_digits fuel z acc) = false); [|by apply H].
  induction fuel as [|f IH]; intros y acc Hy Ha; [done|]. cbn [dec_digits].
  assert (Hd : has_char c (String (chr (48 + y mod 10)) acc) = false).
  { cbn [has_char]. rewrite Ha, orb_false_r. apply Ascii.eqb_neq. intros ->.
    rewrite isdigit_digit in Hc by (apply Z.mod_pos_bound; lia). done. }
  destruct (y / 10 =? 0); [done|]. apply IH; [|done]. apply Z.div_pos; lia.
Qed.
