(* ===== verification/Records.v ===== *)
(** * Record update

    The notation [r <| f := v |>] of coqutil for a record with one field changed. *)

From coqutil Require Export Datatypes.RecordSettersUsingExistingGetters.

#[global] Arguments RecordSettersUsingExistingGetters.const {E} newValue / _.
#[global] Arguments set {R E} getter {Setter} fieldUpdater / r.
