(* ===== verification/Ip.v ===== *)
(** * Addresses and networks (src/ipban/ip.h, src/ipban/ip.cpp)

    Binary addresses, CIDR parsing and printing, network membership and the
    resolution of the real client address behind trusted proxies. The text form
    of an address belongs to libc ([inet_pton], [inet_ntop]): it is the class
    [Inet], with the laws used as [InetLaws]. *)

From S2P Require Import Prelude.

(** ** Data *)

Inductive Fam := V4 | V6.

(** [bytes] always has 16 entries; V4 uses the first four. *)
Record Ip := mkIp { ip_fam : Fam; ip_prefix : Z; ip_bytes : list Z }.

#[global] Instance Fam_eq_dec : EqDecision Fam.
Proof. solve_decision. Defined.
#[global] Instance Ip_eq_dec : EqDecision Ip.
Proof. solve_decision. Defined.

#[global] Instance Fam_countable : Countable Fam.
Proof.
  refine (inj_countable' (fun f => match f with V4 => true | V6 => false end)
            (fun b : bool => if b then V4 else V6) _). by intros [].
Defined.
#[global] Instance Ip_countable : Countable Ip.
Proof.
  refine (inj_countable' (fun i => (ip_fam i, ip_prefix i, ip_bytes i))
            (fun '(f, p, b) => mkIp f p b) _). by intros [].
Defined.

Definition width (i : Ip) : nat := match ip_fam i with V4 => 4 | V6 => 16 end.
Definition fam_bits (f : Fam) : Z := match f with V4 => 32 | V6 => 128 end.

(** [Ip::operator==]. *)
Definition ip_eqb (a b : Ip) : bool := bool_decide (a = b).

Definition full (i : Ip) : bool :=
  match ip_fam i with V4 => ip_prefix i =? 32 | V6 => ip_prefix i =? 128 end.

Definition pad16 (l : list Z) : list Z := l ++ replicate (16 - length l) 0.

(** ** libc's text form of addresses *)

Class Inet := {
  inet_pton4 : string -> option (list Z);
  inet_pton6 : string -> option (list Z);
  inet_ntop4 : list Z -> string;
  inet_ntop6 : list Z -> string;
}.

Definition byte_list (n : nat) (l : list Z) : Prop := length l = n /\ Forall is_u8 l.

Class InetLaws `{Inet} : Prop := {
  pton4_bytes : forall s l, inet_pton4 s = Some l -> byte_list 4 l;
  pton6_bytes : forall s l, inet_pton6 s = Some l -> byte_list 16 l;
  pton4_ntop4 : forall l, byte_list 4 l -> inet_pton4 (inet_ntop4 l) = Some l;
  pton6_ntop6 : forall l, byte_list 16 l -> inet_pton6 (inet_ntop6 l) = Some l;
  pton4_ntop6 : forall l, byte_list 16 l -> inet_pton4 (inet_ntop6 l) = None;
  ntop4_chars : forall l, byte_list 4 l ->
    has_char "/" (inet_ntop4 l) = false /\ has_char NUL (inet_ntop4 l) = false;
  ntop6_chars : forall l, byte_list 16 l ->
    has_char "/" (inet_ntop6 l) = false /\ has_char NUL (inet_ntop6 l) = false;
}.

(** ** Operations *)

Definition v4mapped_pfx : list Z := [0;0;0;0;0;0;0;0;0;0;255;255].

Definition isV4Mapped (b16 : list Z) : bool := bool_decide (take 12 b16 = v4mapped_pfx).

(** What [ipFromSockaddr] reads: a null pointer, the two families, or another. *)
Inductive sockaddr :=
| SaNull
| SaInet (sin_addr : list Z)
| SaInet6 (sin6_addr : list Z)
| SaOther.

Definition ipFromSockaddr (sa : sockaddr) : option Ip :=
  match sa with
  | SaNull => None
  | SaInet a => Some (mkIp V4 32 (pad16 a))
  | SaInet6 b =>
      if isV4Mapped b then Some (mkIp V4 32 (pad16 (drop 12 b)))
      else Some (mkIp V6 128 b)
  | SaOther => None
  end.

(** [(uint8_t)(0xff << (8 - keep))]. *)
Definition keep_mask (keep : Z) : Z := wrap8 (Z.shiftl 255 (8 - keep)).

Definition mask_byte (prefix : Z) (i : nat) (b : Z) : Z :=
  let bitLo := Z.of_nat i * 8 in
  if prefix >=? bitLo + 8 then b
  else if prefix <=? bitLo then 0
  else Z.land b (keep_mask (prefix - bitLo)).

Definition maskBytes (b : list Z) (width : nat) (prefix : Z) : list Z :=
  imap (fun i x => if (i <? width)%nat then mask_byte prefix i x else x) b.

(** The loop of [inNet] over the first [width] bytes, from byte [i]. *)
Fixpoint inNet_loop (i : nat) (prefix : Z) (a n : list Z) : bool :=
  match a, n with
  | x :: a', y :: n' =>
      let bitLo := Z.of_nat i * 8 in
      if prefix >=? bitLo + 8 then
        if negb (x =? y) then false else inNet_loop (S i) prefix a' n'
      else if prefix <=? bitLo then true
      else
        let m := keep_mask (prefix - bitLo) in
        Z.land x m =? Z.land y m
  | _, _ => true
  end.

Definition inNet (addr net : Ip) : bool :=
  if negb (bool_decide (ip_fam addr = ip_fam net)) then false
  else
    let w := width net in
    inNet_loop 0 (ip_prefix net) (take w (ip_bytes addr)) (take w (ip_bytes net)).

Definition isTrustedProxy (addr : Ip) (trusted : list Ip) : bool :=
  existsb (fun t => inNet addr t) trusted.

(** FNV-1a over the family and the significant bytes. *)
Definition fnv_mix (h b : Z) : Z := wrap64 (Z.lxor h b * 1099511628211).

Definition IpHash (ip : Ip) : Z :=
  let f := match ip_fam ip with V4 => 0 | V6 => 1 end in
  fold_left fnv_mix (take (width ip) (ip_bytes ip)) (fnv_mix 1469598103934665603 f).

Section text.
Context `{Inet}.

(** The prefix of [parseCidr]: [-1] when the text has no slash. *)
Definition parse_prefix (s : string) : option (string * Z) :=
  match break_at "/" s with
  | None => Some (s, -1)
  | Some (ip, p) =>
      if String.eqb p "" then None
      else match strtol10 (c_str p) with
           | None => None
           | Some (v, rest) =>
               if negb (String.eqb rest "") || (v <? 0) || (v >? 128) then None
               else Some (ip, v)
           end
  end.

Definition parseCidr (s : string) : option Ip :=
  match parse_prefix s with
  | None => None
  | Some (ip, prefix) =>
      match inet_pton4 (c_str ip) with
      | Some a4 =>
          let prefix := if prefix <? 0 then 32 else prefix in
          if prefix >? 32 then None
          else Some (mkIp V4 (wrap8 prefix) (maskBytes (pad16 a4) 4 (wrap8 prefix)))
      | None =>
          match inet_pton6 (c_str ip) with
          | Some a6 =>
              let prefix := if prefix <? 0 then 128 else prefix in
              if isV4Mapped a6 && (prefix >=? 96) then
                let p := wrap8 (prefix - 96) in
                Some (mkIp V4 p (maskBytes (pad16 (drop 12 a6)) 4 p))
              else
                Some (mkIp V6 (wrap8 prefix) (maskBytes a6 16 (wrap8 prefix)))
          | None => None
          end
      end
  end.

Definition ip_toString (i : Ip) : string :=
  let s := match ip_fam i with
           | V4 => inet_ntop4 (take 4 (ip_bytes i))
           | V6 => inet_ntop6 (ip_bytes i)
           end in
  if full i then s else (s ++ "/" ++ to_string (ip_prefix i))%string.

(** *** The client behind trusted proxies

    [xff] is the header value; indices are positions in it. *)

Definition slice (b e : nat) (x : list ascii) : list ascii := take (e - b) (drop b x).

Definition ows (c : ascii) : bool := Ascii.eqb c SP || Ascii.eqb c TAB.

(** [while(begin < end && ows(xff[begin])) ++begin;] *)
Fixpoint skip_ows (fuel : nat) (x : list ascii) (b e : nat) : nat :=
  match fuel with
  | O => b
  | S f =>
      match x !! b with
      | Some c => if (b <? e)%nat && ows c then skip_ows f x (S b) e else b
      | None => b
      end
  end.

(** [while(end > begin && ows(xff[end - 1])) --end;] *)
Fixpoint trim_ows (x : list ascii) (b e : nat) : nat :=
  match e with
  | O => O
  | S e' =>
      match x !! e' with
      | Some c => if (b <? e)%nat && ows c then trim_ows x b e' else e
      | None => e
      end
  end.

(** [xff.find(c, begin) < end]. *)
Definition find_before (c : ascii) (b e : nat) (x : list ascii) : bool :=
  existsb (Ascii.eqb c) (slice b e x).

Definition parseXffAddr (x : list ascii) (b e : nat) : option Ip :=
  let b := skip_ows (e - b) x b e in
  let e := trim_ows x b e in
  if (b =? e)%nat || find_before "/" b e x then None
  else match parseCidr (of_chars (slice b e x)) with
       | Some out => if full out then Some out else None
       | None => None
       end.

(** [xff.rfind(c, end - 1)] for [0 < end], [npos] for [end = 0]. *)
Fixpoint rfind_below (c : ascii) (x : list ascii) (e : nat) : option nat :=
  match e with
  | O => None
  | S e' =>
      match x !! e' with
      | Some d => if Ascii.eqb c d then Some e' else rfind_below c x e'
      | None => rfind_below c x e'
      end
  end.

(** The loop of [resolveClientAddr]. [None]: a hop did not parse (the function
    returns false); [Some None]: every hop is trusted; [Some (Some ip)]: the
    rightmost untrusted hop. *)
Fixpoint resolve_loop (fuel : nat) (x : list ascii) (trusted : list Ip) (e : nat)
    : option (option Ip) :=
  match fuel with
  | O => None
  | S f =>
      let comma := rfind_below "," x e in
      let b := match comma with None => O | Some c => S c end in
      match parseXffAddr x b e with
      | None => None
      | Some cand =>
          if negb (isTrustedProxy cand trusted) then Some (Some cand)
          else match comma with
               | None => Some None
               | Some c => resolve_loop f x trusted c
               end
      end
  end.

(** The return value and [out]. *)
Definition resolveClientAddr (peer : Ip) (xff : string) (trusted : list Ip) : bool * Ip :=
  if negb (isTrustedProxy peer trusted) || String.eqb xff "" then (true, peer)
  else
    let x := chars xff in
    match resolve_loop (S (length x)) x trusted (length x) with
    | None => (false, peer)
    | Some None => (true, peer)
    | Some (Some cand) => (true, cand)
    end.

(** The three-argument overload: the peer on failure. *)
Definition resolveClientAddr_compat (peer : Ip) (xff : string) (trusted : list Ip) : Ip :=
  snd (resolveClientAddr peer xff trusted).
End text.

(** ** Bits of an address *)

(** Bit [k] of a byte string, counted from the most significant bit. *)
Definition nth_bit (l : list Z) (k : Z) : bool :=
  Z.testbit (nth (Z.to_nat (k / 8)) l 0) (7 - k mod 8).

Lemma u8_testbit_high x j : is_u8 x -> 8 <= j -> Z.testbit x j = false.
Proof.
  intros [H0 H1] Hj. destruct (decide (x = 0)) as [->|]; [apply Z.bits_0|].
  apply Z.bits_above_log2; [done|]. apply Z.log2_lt_pow2; [lia|].
  apply Z.lt_le_trans with (2 ^ 8); [done|]. by apply Z.pow_le_mono_r.
Qed.

Lemma keep_mask_testbit keep j :
  0 < keep < 8 -> 0 <= j -> Z.testbit (keep_mask keep) j = (8 - keep <=? j) && (j <? 8).
Proof.
  intros Hk Hj.
  assert (Hc : keep = 1 \/ keep = 2 \/ keep = 3 \/ keep = 4 \/ keep = 5 \/ keep = 6 \/ keep = 7)
    by lia.
  destruct (decide (8 <= j)).
  { rewrite u8_testbit_high; [lia| |done]. unfold keep_mask, wrap8, is_u8.
    apply Z.mod_pos_bound. lia. }
  assert (Hj' : j = 0 \/ j = 1 \/ j = 2 \/ j = 3 \/ j = 4 \/ j = 5 \/ j = 6 \/ j = 7) by lia.
  by repeat (destruct Hc as [->|Hc] || subst keep);
     repeat (destruct Hj' as [->|Hj'] || subst j).
Qed.

Lemma land_mask_bits keep x y :
  0 < keep < 8 -> is_u8 x -> is_u8 y ->
  (Z.land x (keep_mask keep) = Z.land y (keep_mask keep)) <->
  (forall j, 0 <= j < keep -> Z.testbit x (7 - j) = Z.testbit y (7 - j)).
Proof.
  intros Hk Hx Hy. split.
  - intros E j Hj. apply (f_equal (fun z => Z.testbit z (7 - j))) in E.
    rewrite !Z.land_spec, !keep_mask_testbit in E by lia.
    replace ((8 - keep <=? 7 - j) && (7 - j <? 8)) with true in E by lia.
    by rewrite !andb_true_r in E.
  - intros E. apply Z.bits_inj'. intros n Hn. rewrite !Z.land_spec, !keep_mask_testbit by lia.
    destruct (8 - keep <=? n) eqn:E1, (n <? 8) eqn:E2; simpl; rewrite ?andb_false_r; try done.
    rewrite !andb_true_r. b2p. replace n with (7 - (7 - n)) by lia. apply E. lia.
Qed.

Lemma u8_eq_bits x y :
  is_u8 x -> is_u8 y ->
  (x = y <-> (forall j, 0 <= j < 8 -> Z.testbit x (7 - j) = Z.testbit y (7 - j))).
Proof.
  intros Hx Hy. split; [by intros ->|]. intros E. apply Z.bits_inj'. intros n Hn.
  destruct (decide (n < 8)).
  - replace n with (7 - (7 - n)) by lia. apply E. lia.
  - rewrite !u8_testbit_high by (done || lia). done.
Qed.

Lemma nth_bit_cons x l k :
  0 <= k -> nth_bit (x :: l) k
            = if k <? 8 then Z.testbit x (7 - k) else nth_bit l (k - 8).
Proof.
  intros Hk. unfold nth_bit. destruct (k <? 8) eqn:E; b2p.
  - rewrite Z.div_small, Z.mod_small by lia. done.
  - replace (Z.to_nat (k / 8)) with (S (Z.to_nat ((k - 8) / 8))).
    + simpl. f_equal. f_equal.
      replace k with (k - 8 + 1 * 8) at 1 by lia. by rewrite Z_mod_plus_full.
    + replace (k / 8) with ((k - 8) / 8 + 1).
      * pose proof (Z.div_pos (k - 8) 8). lia.
      * replace k with (k - 8 + 1 * 8) at 2 by lia. rewrite Z_div_plus_full by lia. done.
Qed.

Lemma inNet_loop_spec i p a n :
  length a = length n -> Forall is_u8 a -> Forall is_u8 n ->
  p <= Z.of_nat (8 * (i + length n)) ->
  inNet_loop i p a n = true <->
  (forall k, 0 <= k < p - Z.of_nat (8 * i) -> nth_bit a k = nth_bit n k).
Proof.
  revert i n. induction a as [|x a IH]; intros i [|y n] Hlen Ha Hn Hp; try done; simpl in Hlen.
  inversion Ha as [|?? Hx Ha']; inversion Hn as [|?? Hy Hn']; subst.
  cbn [inNet_loop]. rewrite Z.geb_leb. simpl in Hp.
  assert (Hsplit : forall P : Z -> Prop, 0 <= p - Z.of_nat (8 * i) - 8 ->
    (forall k, 0 <= k < p - Z.of_nat (8 * i) -> P k) <->
    (forall k, 0 <= k < 8 -> P k) /\
    (forall k, 0 <= k < p - Z.of_nat (8 * S i) -> P (k + 8))).
  { intros P Hge. split; [intros H; split; intros k Hk; apply H; lia|].
    intros [H1 H2] k Hk. destruct (decide (k < 8)); [apply H1; lia|].
    replace k with (k - 8 + 8) by lia. apply H2. lia. }
  destruct (Z.of_nat i * 8 + 8 <=? p) eqn:E1; b2p.
  - rewrite Hsplit by lia. destruct (x =? y) eqn:E2; b2p; cbn [negb].
    + subst y. rewrite (IH (S i) n) by (done || lia). split.
      * intros H. split; intros k Hk; rewrite !nth_bit_cons by lia.
        -- by replace (k <? 8) with true by lia.
        -- replace (k + 8 <? 8) with false by lia. replace (k + 8 - 8) with k by lia. by apply H.
      * intros [_ H] k Hk. specialize (H k Hk). rewrite !nth_bit_cons in H by lia.
        replace (k + 8 <? 8) with false in H by lia.
        by replace (k + 8 - 8) with k in H by lia.
    + split; [done|]. intros [H _]. exfalso. apply E2. apply u8_eq_bits; [done..|].
      intros j Hj. specialize (H j Hj). rewrite !nth_bit_cons in H by lia.
      by replace (j <? 8) with true in H by lia.
  - destruct (p <=? Z.of_nat i * 8) eqn:E2; b2p.
    + split; [|done]. intros _ k Hk. lia.
    + rewrite Z.eqb_eq, land_mask_bits by (done || lia). split.
      * intros H k Hk. rewrite !nth_bit_cons by lia.
        replace (k <? 8) with true by lia. apply H. lia.
      * intros H j Hj. specialize (H j ltac:(lia)). rewrite !nth_bit_cons in H by lia.
        by replace (j <? 8) with true in H by lia.
Qed.

(** ** Well-formed addresses *)

(** What every constructor of addresses in the code establishes. *)
Definition wf_ip (i : Ip) : Prop :=
  byte_list 16 (ip_bytes i) /\ 0 <= ip_prefix i <= fam_bits (ip_fam i) /\
  match ip_fam i with
  | V4 => drop 4 (ip_bytes i) = replicate 12 0
  | V6 => isV4Mapped (ip_bytes i) = false
  end.

(** Well-formed with the host bits cleared: what [parseCidr] returns. *)
Definition canonical (i : Ip) : Prop :=
  wf_ip i /\ maskBytes (ip_bytes i) (width i) (ip_prefix i) = ip_bytes i.

#[global] Instance is_u8_dec z : Decision (is_u8 z).
Proof. unfold is_u8. apply _. Defined.
#[global] Instance byte_list_dec n l : Decision (byte_list n l).
Proof. unfold byte_list. apply _. Defined.
#[global] Instance wf_ip_dec i : Decision (wf_ip i).
Proof. unfold wf_ip. destruct (ip_fam i); apply _. Defined.
#[global] Instance canonical_dec i : Decision (canonical i).
Proof. unfold canonical. apply _. Defined.

Lemma byte_list_take n m l : byte_list n l -> (m <= n)%nat -> byte_list m (take m l).
Proof.
  intros [Hl Hf] Hm. split; [rewrite length_take; lia|]. by apply Forall_take.
Qed.

Lemma wf_width_bytes i : wf_ip i -> byte_list (width i) (take (width i) (ip_bytes i)).
Proof.
  intros [Hb _]. apply (byte_list_take 16); [done|]. unfold width. destruct (ip_fam i); lia.
Qed.

(** ** Masks *)

Lemma land_u8 x m : is_u8 x -> 0 <= m -> is_u8 (Z.land x m).
Proof.
  intros [H0 H1] Hm. split; [apply Z.land_nonneg; lia|].
  destruct (decide (Z.land x m = 0)) as [->|]; [done|].
  apply Z.log2_lt_pow2; [pose proof (Z.land_nonneg x m); lia|].
  eapply Z.le_lt_trans; [by apply Z.log2_land|].
  apply Z.lt_le_trans with 8; [|done]. apply Z.min_lt_iff. left.
  destruct (decide (x = 0)) as [->|]; [done|]. apply Z.log2_lt_pow2; lia.
Qed.

Lemma keep_mask_nonneg k : 0 <= keep_mask k.
Proof. unfold keep_mask, wrap8. apply Z.mod_pos_bound. lia. Qed.

Lemma mask_byte_u8 p i b : is_u8 b -> is_u8 (mask_byte p i b).
Proof.
  intros Hb. unfold mask_byte. repeat case_match; [done|done|].
  apply land_u8; [done|apply keep_mask_nonneg].
Qed.

Lemma mask_byte_idem p i b : mask_byte p i (mask_byte p i b) = mask_byte p i b.
Proof.
  unfold mask_byte. repeat case_match; try done.
  by rewrite <- Z.land_assoc, Z.land_diag.
Qed.

Lemma length_maskBytes b w p : length (maskBytes b w p) = length b.
Proof. apply length_imap. Qed.

Lemma maskBytes_lookup b w p i :
  maskBytes b w p !! i
  = (fun x => if (i <? w)%nat then mask_byte p i x else x) <$> b !! i.
Proof. apply list_lookup_imap. Qed.

Lemma maskBytes_idem b w p : maskBytes (maskBytes b w p) w p = maskBytes b w p.
Proof.
  apply list_eq. intros i. rewrite !maskBytes_lookup.
  destruct (b !! i) as [x|]; [|done]. simpl. destruct (i <? w)%nat; [|done].
  by rewrite mask_byte_idem.
Qed.

Lemma maskBytes_u8 b w p : Forall is_u8 b -> Forall is_u8 (maskBytes b w p).
Proof.
  intros H. apply Forall_lookup. intros i x. rewrite maskBytes_lookup.
  destruct (b !! i) as [y|] eqn:E; intros Hx; simplify_eq/=.
  eapply Forall_lookup_1 in H; [|exact E].
  destruct (i <? w)%nat; [by apply mask_byte_u8|done].
Qed.

Lemma maskBytes_16 b w p : byte_list 16 b -> byte_list 16 (maskBytes b w p).
Proof. intros [Hl Hf]. split; [by rewrite length_maskBytes|by apply maskBytes_u8]. Qed.

Lemma maskBytes_drop b w p n : (w <= n)%nat -> drop n (maskBytes b w p) = drop n b.
Proof.
  intros Hn. apply list_eq. intros i. rewrite !lookup_drop, maskBytes_lookup.
  destruct (b !! (n + i)%nat); [|done]. simpl.
  by replace (n + i <? w)%nat with false by (symmetry; apply Nat.ltb_ge; lia).
Qed.

(** Masking to at least [8 n] bits keeps the first [n] bytes. *)
Lemma maskBytes_take b w p n : Z.of_nat n * 8 <= p -> take n (maskBytes b w p) = take n b.
Proof.
  intros Hn. apply list_eq. intros i. destruct (decide (i < n)%nat).
  - rewrite !lookup_take_lt, maskBytes_lookup by lia. destruct (b !! i); [|done]. simpl.
    unfold mask_byte.
    replace (p >=? Z.of_nat i * 8 + 8) with true by lia. by destruct (i <? w)%nat.
  - by rewrite !lookup_take_ge by lia.
Qed.

Lemma length_pad16 l : (length l <= 16)%nat -> length (pad16 l) = 16%nat.
Proof. intros H. unfold pad16. rewrite length_app, length_replicate. lia. Qed.

Lemma pad16_4 l : byte_list 4 l ->
  byte_list 16 (pad16 l) /\ drop 4 (pad16 l) = replicate 12 0 /\ take 4 (pad16 l) = l.
Proof.
  intros [Hl Hf]. unfold pad16. rewrite Hl. split; [|split].
  - split; [rewrite length_app, Hl, length_replicate; done|].
    apply Forall_app. split; [done|]. by repeat constructor.
  - rewrite drop_app_ge by lia. by rewrite Hl.
  - rewrite take_app_le by lia. by rewrite take_ge by lia.
Qed.

Lemma wrap8_id z : 0 <= z < 256 -> wrap8 z = z.
Proof. intros. unfold wrap8. by apply Z.mod_small. Qed.

Lemma canonical_v4 a p :
  byte_list 4 a -> 0 <= p <= 32 -> canonical (mkIp V4 p (maskBytes (pad16 a) 4 p)).
Proof.
  intros Ha Hp. destruct (pad16_4 a Ha) as (H16 & Hd & _). split; [split_and!|].
  - by apply maskBytes_16.
  - simpl. lia.
  - simpl. lia.
  - simpl. by rewrite maskBytes_drop by lia.
  - apply maskBytes_idem.
Qed.

Lemma mapped_byte11 b : isV4Mapped b = true -> b !! 11%nat = Some 255.
Proof.
  unfold isV4Mapped. intros H. b2p. rewrite <- (lookup_take_lt b 12 11) by lia. by rewrite H.
Qed.

Lemma canonical_v6 a p :
  byte_list 16 a -> 0 <= p <= 128 -> (isV4Mapped a && (p >=? 96) = false) ->
  canonical (mkIp V6 p (maskBytes a 16 p)).
Proof.
  intros Ha Hp Hm. split; [split_and!|].
  - by apply maskBytes_16.
  - simpl. lia.
  - simpl. lia.
  - simpl. destruct (isV4Mapped (maskBytes a 16 p)) eqn:E; [exfalso|done].
    destruct (p >=? 96) eqn:Ep; rewrite ?andb_true_r in Hm.
    + unfold isV4Mapped in *. b2p. rewrite maskBytes_take in E by lia. done.
    + apply mapped_byte11 in E. rewrite maskBytes_lookup in E.
      destruct (a !! 11%nat) as [x|]; simplify_eq/=. unfold mask_byte in E.
      rewrite Z.geb_leb in E. b2p. change (Z.of_nat 11) with 11 in E.
      replace (11 * 8 + 8 <=? p) with false in E by lia.
      destruct (p <=? 11 * 8) eqn:E2; [done|]. b2p.
      apply (f_equal (fun z => Z.testbit z 0)) in E.
      rewrite Z.land_spec, keep_mask_testbit in E by lia.
      replace ((8 - (p - 11 * 8) <=? 0) && (0 <? 8)) with false in E by lia.
      by rewrite andb_false_r in E.
  - apply maskBytes_idem.
Qed.

Lemma byte_list_drop n m l : byte_list (n + m) l -> byte_list m (drop n l).
Proof. intros [Hl Hf]. split; [rewrite length_drop; lia|]. by apply Forall_drop. Qed.

(** ** Parsing and printing *)

Lemma full_wf_no_host i : wf_ip i -> full i = true -> canonical i.
Proof.
  intros Hw Hf. split; [done|]. apply list_eq. intros k. rewrite maskBytes_lookup.
  destruct (ip_bytes i !! k) eqn:E; [|done]. simpl. destruct (k <? width i)%nat eqn:Ek; [|done].
  f_equal. unfold mask_byte, full, width in *. destruct i as [f p b]; simpl in *.
  destruct f; b2p; by replace (p >=? Z.of_nat k * 8 + 8) with true by lia.
Qed.

Section parse_print.
Context `{Inet} `{!InetLaws}.

Lemma parse_prefix_range s ip p : parse_prefix s = Some (ip, p) -> -1 <= p <= 128.
Proof. unfold parse_prefix. intros E. cases; b2p; lia. Qed.

Lemma parse_prefix_plain s : has_char "/" s = false -> parse_prefix s = Some (s, -1).
Proof. unfold parse_prefix. intros Hs. apply break_at_none in Hs. by rewrite Hs. Qed.

Lemma parse_prefix_slash s p :
  has_char "/" s = false -> 0 <= p <= 128 ->
  parse_prefix (s ++ "/" ++ to_string p)%string = Some (s, p).
Proof.
  intros Hs Hp. unfold parse_prefix.
  change (s ++ "/" ++ to_string p)%string with (s ++ String "/" (to_string p))%string.
  rewrite break_at_app by done. unfold to_string. replace (p <? 0) with false by lia.
  destruct (scan_dec_udec p "" ltac:(lia) eq_refl) as (k & Hk & Hs2).
  rewrite string_app_nil in Hs2.
  destruct (String.eqb (udec p) "") eqn:Ee.
  { apply String.eqb_eq in Ee. rewrite Ee in Hs2. simpl in Hs2. congruence. }
  rewrite c_str_id by (apply udec_has_char; [lia|done]).
  unfold strtol10.
  assert (Hsk : skip_space (udec p) = udec p /\
                match udec p with
                | String "-" s' => (true, s') | String "+" s' => (false, s')
                | _ => (false, udec p) end = (false, udec p)).
  { destruct (udec p) as [|c t] eqn:Eu; [done|].
    assert (Hd : isdigit c = true).
    { simpl in Hs2. destruct (isdigit c); [done|]. congruence. }
    split.
    - simpl. destruct (isspace c) eqn:Es; [|done].
      unfold isdigit, isspace in *. lia.
    - by destruct c as [[] [] [] [] [] [] [] []]. }
  destruct Hsk as [-> ->]. rewrite Hs2.
  replace (k =? 0)%nat with false by (symmetry; apply Nat.eqb_neq; lia).
  assert (Hc : clamp64 p = p) by (unfold clamp64, INT64_MAX; lia). rewrite Hc.
  rewrite String.eqb_refl. simpl.
  by replace (p <? 0) with false by lia; replace (p >? 128) with false by lia.
Qed.

Lemma parseCidr_ok s i : parseCidr s = Some i -> canonical i.
Proof.
  unfold parseCidr. destruct (parse_prefix s) as [[t p]|] eqn:Ep; [|done].
  apply parse_prefix_range in Ep.
  destruct (inet_pton4 (c_str t)) as [a|] eqn:E4.
  { apply pton4_bytes in E4. intros E. cases; b2p;
      rewrite wrap8_id by lia; by apply canonical_v4; [|lia]. }
  destruct (inet_pton6 (c_str t)) as [a|] eqn:E6; [|done]. apply pton6_bytes in E6.
  set (q := if p <? 0 then 128 else p).
  assert (Hq : 0 <= q <= 128) by (unfold q; destruct (p <? 0) eqn:?; b2p; lia).
  destruct (isV4Mapped a && (q >=? 96)) eqn:Em; intros E; simplify_eq.
  - b2p. rewrite wrap8_id by lia. apply canonical_v4; [by apply (byte_list_drop 12 4)|lia].
  - rewrite wrap8_id by lia. by apply canonical_v6.
Qed.

(** Every address [parseCidr] returns is well-formed and canonical: 16
    bytes, a prefix within its family, the host bits cleared, and a V4-mapped
    address never left in its V6 form (unless its prefix is shorter than the
    mapping, in which case the mask has destroyed the mapping). *)
Theorem parseCidr_canonical s i : parseCidr s = Some i -> canonical i.
Proof. apply parseCidr_ok. Qed.

Lemma V4_bytes i : wf_ip i -> ip_fam i = V4 ->
  pad16 (take 4 (ip_bytes i)) = ip_bytes i.
Proof.
  intros ([Hl _] & _ & Hd) Hf. rewrite Hf in Hd. unfold pad16.
  rewrite length_take, Hl. rewrite <- (take_drop 4 (ip_bytes i)) at 2. by rewrite Hd.
Qed.

(** Reading back the text an address prints as gives the address, so the
    wire form of addresses (a CIDR string) loses nothing. *)
Theorem parseCidr_toString i : canonical i -> parseCidr (ip_toString i) = Some i.
Proof.
  intros [Hw Hm]. pose proof Hw as ([Hl Hu] & Hp & Hx).
  assert (H4 : byte_list 4 (take 4 (ip_bytes i))) by (apply (byte_list_take 16); [done|lia]).
  unfold parseCidr, ip_toString, full. unfold width in Hm.
  destruct i as [[] p b]; simpl in *.
  - destruct (ntop4_chars _ H4) as [Hs Hn].
    assert (Hpp : parse_prefix (if p =? 32 then inet_ntop4 (take 4 b)
                   else (inet_ntop4 (take 4 b) ++ "/" ++ to_string p)%string)
                  = Some (inet_ntop4 (take 4 b), if p =? 32 then -1 else p)).
    { destruct (p =? 32) eqn:E; [by apply parse_prefix_plain|].
      apply parse_prefix_slash; [done|lia]. }
    rewrite Hpp, c_str_id, pton4_ntop4 by done.
    assert (Hq : (if (if p =? 32 then -1 else p) <? 0 then 32
                  else if p =? 32 then -1 else p) = p).
    { destruct (p =? 32) eqn:E; b2p; [done|]. by replace (p <? 0) with false by lia. }
    rewrite Hq. replace (p >? 32) with false by lia. rewrite wrap8_id by lia.
    pose proof (V4_bytes (mkIp V4 p b) Hw eq_refl) as Hpad. simpl in Hpad.
    by rewrite Hpad, Hm.
  - destruct (ntop6_chars b (conj Hl Hu)) as [Hs Hn].
    assert (Hpp : parse_prefix (if p =? 128 then inet_ntop6 b
                   else (inet_ntop6 b ++ "/" ++ to_string p)%string)
                  = Some (inet_ntop6 b, if p =? 128 then -1 else p)).
    { destruct (p =? 128) eqn:E; [by apply parse_prefix_plain|].
      apply parse_prefix_slash; [done|lia]. }
    rewrite Hpp, c_str_id, pton4_ntop6, pton6_ntop6 by done.
    assert (Hq : (if (if p =? 128 then -1 else p) <? 0 then 128
                  else if p =? 128 then -1 else p) = p).
    { destruct (p =? 128) eqn:E; b2p; [done|]. by replace (p <? 0) with false by lia. }
    rewrite Hq, Hx. simpl. by rewrite wrap8_id, Hm by lia.
Qed.

Lemma ip_toString_inj i j :
  canonical i -> canonical j -> ip_toString i = ip_toString j -> i = j.
Proof.
  intros Hi Hj E. apply parseCidr_toString in Hi, Hj. congruence.
Qed.
End parse_print.

(** ** The client behind trusted proxies: a reference definition

    The header as a list of comma-separated hops, read from the right. *)

Fixpoint split_chars (c : ascii) (x : list ascii) : list (list ascii) :=
  match x with
  | [] => [[]]
  | d :: x' =>
      if Ascii.eqb c d then [] :: split_chars c x'
      else match split_chars c x' with
           | h :: t => (d :: h) :: t
           | [] => [[d]]
           end
  end.

Section resolve_reference.
Context `{Inet}.

Definition parse_hop (h : list ascii) : option Ip := parseXffAddr h 0 (length h).

(** [hs] from the right: [None] when a hop does not parse before an untrusted
    one is found. *)
Fixpoint scan_hops (trusted : list Ip) (hs : list (list ascii)) : option (option Ip) :=
  match hs with
  | [] => Some None
  | h :: hs' =>
      match parse_hop h with
      | None => None
      | Some cand =>
          if isTrustedProxy cand trusted then scan_hops trusted hs' else Some (Some cand)
      end
  end.

Lemma split_chars_ne c x : split_chars c x <> [].
Proof. destruct x as [|d x]; simpl; [done|]. repeat case_match; done. Qed.

Lemma split_chars_app c y z :
  split_chars c (y ++ c :: z) = split_chars c y ++ split_chars c z.
Proof.
  induction y as [|d y IH]; simpl.
  { by rewrite Ascii.eqb_refl. }
  destruct (Ascii.eqb c d); [by rewrite IH|]. rewrite IH.
  destruct (split_chars c y) eqn:E; [by apply split_chars_ne in E|done].
Qed.

Lemma split_chars_plain c y : existsb (Ascii.eqb c) y = false -> split_chars c y = [y].
Proof.
  induction y as [|d y IH]; simpl; [done|]. intros [-> Hy]%orb_false_elim.
  by rewrite IH.
Qed.

Lemma skip_ows_shift f p h q i :
  (i <= length h)%nat ->
  skip_ows f (p ++ h ++ q) (length p + i) (length p + length h)
  = (length p + skip_ows f h i (length h))%nat.
Proof.
  revert i. induction f as [|f IH]; intros i Hi; simpl; [done|].
  rewrite lookup_app_r by lia. replace (length p + i - length p)%nat with i by lia.
  destruct (decide (i < length h)%nat).
  - rewrite lookup_app_l by lia. destruct (h !! i) as [c|] eqn:E; [|done].
    replace (length p + i <? length p + length h)%nat with (i <? length h)%nat
      by (destruct (i <? length h)%nat eqn:E1; symmetry;
          [apply Nat.ltb_lt|apply Nat.ltb_ge]; b2p; lia).
    destruct ((i <? length h)%nat && ows c); [|done].
    rewrite <- IH by lia. f_equal. lia.
  - rewrite (lookup_ge_None_2 h) by lia.
    replace (length p + i <? length p + length h)%nat with false
      by (symmetry; apply Nat.ltb_ge; lia).
    by destruct ((h ++ q) !! i).
Qed.

Lemma trim_ows_shift p h q b e :
  (e <= length h)%nat ->
  trim_ows (p ++ h ++ q) (length p + b) (length p + e) = (length p + trim_ows h b e)%nat.
Proof.
  induction e as [|e IH]; intros He.
  - rewrite Nat.add_0_r. simpl. rewrite Nat.add_0_r.
    destruct (length p) as [|n] eqn:Ep; [done|]. cbn [trim_ows].
    replace (S n + b <? S n)%nat with false by (symmetry; apply Nat.ltb_ge; lia).
    by destruct ((p ++ h ++ q) !! n).
  - rewrite Nat.add_succ_r. cbn [trim_ows].
    rewrite lookup_app_r by lia. replace (length p + e - length p)%nat with e by lia.
    rewrite lookup_app_l by lia.
    destruct (h !! e) as [c|] eqn:E; [|apply lookup_ge_None in E; lia].
    replace (length p + b <? S (length p + e))%nat with (b <? S e)%nat
      by (destruct (b <? S e)%nat eqn:E1; symmetry;
          [apply Nat.ltb_lt|apply Nat.ltb_ge]; b2p; lia).
    destruct ((b <? S e)%nat && ows c); [by apply IH; lia|lia].
Qed.

Lemma slice_shift p h q b e :
  (b <= e)%nat -> (e <= length h)%nat ->
  slice (length p + b) (length p + e) (p ++ h ++ q) = slice b e h.
Proof.
  intros Hb He. unfold slice. replace (length p + e - (length p + b))%nat with (e - b)%nat by lia.
  rewrite drop_app_ge by lia. replace (length p + b - length p)%nat with b by lia.
  rewrite drop_app_le by lia. apply take_app_le. rewrite length_drop. lia.
Qed.

Lemma skip_ows_range f x b e : (b <= e)%nat -> (b <= skip_ows f x b e <= e)%nat.
Proof.
  revert b. induction f as [|f IH]; intros b Hb; simpl; [lia|].
  destruct (x !! b) as [c|]; [|lia].
  destruct (b <? e)%nat eqn:E; simpl; [|lia]. destruct (ows c); [|lia]. b2p.
  specialize (IH (S b)). lia.
Qed.

Lemma trim_ows_range x b e : (b <= e)%nat -> (b <= trim_ows x b e <= e)%nat.
Proof.
  induction e as [|e IH]; intros Hb; simpl; [lia|].
  destruct (x !! e) as [c|]; [|lia].
  destruct (b <? S e)%nat eqn:E; cbn [andb]; [|lia]. destruct (ows c); [|lia]. b2p.
  specialize (IH ltac:(lia)). lia.
Qed.

(** Parsing a hop in place is parsing its text. *)
Lemma parseXffAddr_slice p h q :
  parseXffAddr (p ++ h ++ q) (length p) (length p + length h) = parse_hop h.
Proof.
  unfold parse_hop, parseXffAddr. cbn zeta.
  pose proof (skip_ows_shift (length p + length h - length p) p h q 0 ltac:(lia)) as Hs.
  rewrite Nat.add_0_r in Hs. rewrite Hs. clear Hs.
  replace (length p + length h - length p)%nat with (length h) by lia.
  rewrite Nat.sub_0_r.
  pose proof (skip_ows_range (length h) h 0 (length h) ltac:(lia)) as Hb.
  set (b := skip_ows (length h) h 0 (length h)) in *.
  rewrite trim_ows_shift by lia.
  pose proof (trim_ows_range h b (length h) ltac:(lia)) as He.
  set (e := trim_ows h b (length h)) in *.
  unfold find_before. rewrite slice_shift by lia.
  by replace (length p + b =? length p + e)%nat with (b =? e)%nat
    by (destruct (b =? e)%nat eqn:E; symmetry;
        [apply Nat.eqb_eq|apply Nat.eqb_neq]; b2p; lia).
Qed.

Lemma slice_0 e x : slice 0 e x = take e x.
Proof. unfold slice. by rewrite Nat.sub_0_r. Qed.

Lemma take_slice b e x : (b <= e)%nat -> take e x = take b x ++ slice b e x.
Proof.
  intros Hb. unfold slice. rewrite take_drop_commute.
  replace (b + (e - b))%nat with e by lia.
  rewrite <- (take_drop b (take e x)) at 1. rewrite take_take. by rewrite Nat.min_l by lia.
Qed.

Lemma split_at b e x : (b <= e)%nat -> x = take b x ++ slice b e x ++ drop e x.
Proof. intros Hb. rewrite app_assoc, <- take_slice by done. symmetry. apply take_drop. Qed.

Lemma length_slice b e x : (e <= length x)%nat -> length (slice b e x) = (e - b)%nat.
Proof. intros He. unfold slice. rewrite length_take, length_drop. lia. Qed.

Lemma parseXffAddr_at x b e :
  (b <= e)%nat -> (e <= length x)%nat -> parseXffAddr x b e = parse_hop (slice b e x).
Proof.
  intros Hb He. rewrite <- (parseXffAddr_slice (take b x) (slice b e x) (drop e x)).
  rewrite <- split_at by done. f_equal.
  - rewrite length_take. lia.
  - rewrite length_take, length_slice by done. lia.
Qed.

Lemma rfind_below_spec c x e :
  (e <= length x)%nat ->
  match rfind_below c x e with
  | None => existsb (Ascii.eqb c) (take e x) = false
  | Some i => (i < e)%nat /\ x !! i = Some c /\
              existsb (Ascii.eqb c) (slice (S i) e x) = false
  end.
Proof.
  induction e as [|e IH]; intros He; [done|]. cbn [rfind_below].
  destruct (lookup_lt_is_Some_2 x e ltac:(lia)) as [d Hd]. rewrite Hd.
  destruct (Ascii.eqb c d) eqn:E.
  - apply Ascii.eqb_eq in E as ->. split_and!; [lia|done|].
    unfold slice. by rewrite Nat.sub_diag.
  - specialize (IH ltac:(lia)). destruct (rfind_below c x e) as [i|].
    + destruct IH as (Hi & Hx & Hs). split_and!; [lia|done|].
      unfold slice in *. replace (S e - S i)%nat with (S (e - S i)) by lia.
      rewrite (take_S_r _ _ d) by (rewrite lookup_drop; by replace (S i + (e - S i))%nat with e by lia).
      rewrite existsb_app, Hs. simpl. by rewrite E.
    + rewrite (take_S_r _ _ d) by done. rewrite existsb_app, IH. simpl. by rewrite E.
Qed.

(** The scan by positions is the scan of the hop list. *)
Lemma resolve_loop_hops fuel x trusted e :
  (e < fuel)%nat -> (e <= length x)%nat ->
  resolve_loop fuel x trusted e = scan_hops trusted (rev (split_chars "," (take e x))).
Proof.
  revert e. induction fuel as [|f IH]; intros e Hf He; [lia|]. cbn [resolve_loop].
  pose proof (rfind_below_spec "," x e He) as Hr.
  destruct (rfind_below "," x e) as [c|].
  - destruct Hr as (Hc & Hx & Hs). rewrite parseXffAddr_at by lia.
    assert (Ht : take e x = take c x ++ ","%char :: slice (S c) e x).
    { rewrite (take_slice (S c) e) by lia. rewrite (take_S_r _ _ ","%char) by done.
      by rewrite <- app_assoc. }
    rewrite Ht, split_chars_app, (split_chars_plain _ (slice _ _ _)) by done.
    rewrite rev_app_distr. simpl.
    destruct (parse_hop (slice (S c) e x)) as [cand|]; [|done].
    destruct (isTrustedProxy cand trusted); [|done]. apply IH; lia.
  - rewrite parseXffAddr_at, slice_0 by lia. rewrite split_chars_plain by done. simpl.
    destruct (parse_hop (take e x)) as [cand|]; [|done].
    by destruct (isTrustedProxy cand trusted).
Qed.

(** [resolveClientAddr] over the list of hops. *)
Definition resolve_ref (peer : Ip) (xff : string) (trusted : list Ip) : bool * Ip :=
  if negb (isTrustedProxy peer trusted) || String.eqb xff "" then (true, peer)
  else match scan_hops trusted (rev (split_chars "," (chars xff))) with
       | None => (false, peer)
       | Some None => (true, peer)
       | Some (Some cand) => (true, cand)
       end.

(** The backward scan over header positions computes the reference
    definition over the list of comma-separated hops, for every header. *)
Theorem resolve_equiv peer xff trusted :
  resolveClientAddr peer xff trusted = resolve_ref peer xff trusted.
Proof.
  unfold resolveClientAddr, resolve_ref. destruct (_ || _); [done|].
  rewrite resolve_loop_hops by lia. by rewrite take_ge by lia.
Qed.

Lemma scan_hops_app trusted hs hs' r :
  scan_hops trusted hs = Some (Some r) -> scan_hops trusted (hs ++ hs') = Some (Some r).
Proof.
  induction hs as [|h hs IH]; simpl; [done|].
  destruct (parse_hop h) as [c|]; [|done]. by destruct (isTrustedProxy c trusted).
Qed.

Lemma chars_app s t : chars (s ++ t)%string = chars s ++ chars t.
Proof. induction s as [|c s IH]; simpl; [done|]. by rewrite IH. Qed.

(** A client cannot choose its address: when the address resolved from the
    part of [X-Forwarded-For] that trusted proxies appended is not itself a
    trusted proxy, anything a client put in front of that part changes
    nothing. *)
Theorem resolve_no_spoofing peer junk xff trusted :
  isTrustedProxy (snd (resolveClientAddr peer xff trusted)) trusted = false ->
  resolveClientAddr peer (junk ++ "," ++ xff)%string trusted
  = resolveClientAddr peer xff trusted.
Proof.
  unfold resolveClientAddr.
  destruct (isTrustedProxy peer trusted) eqn:Hp; [|done]. cbn [negb orb].
  destruct (String.eqb xff "") eqn:Hx; [simpl; congruence|].
  rewrite !resolve_loop_hops, !take_ge by lia.
  destruct (scan_hops trusted (rev (split_chars "," (chars xff)))) as [[r|]|] eqn:E;
    simpl; [|congruence..]. intros _.
  rewrite (chars_app junk). change (chars ("," ++ xff)) with (","%char :: chars xff).
  rewrite (split_chars_app "," (chars junk) (chars xff)), rev_app_distr.
  rewrite (scan_hops_app _ _ _ _ E).
  by replace (String.eqb (junk ++ "," ++ xff) "") with false by (by destruct junk).
Qed.
End resolve_reference.

(** Membership in a network is equality of the family and of the leading
    [prefix] bits. *)
Theorem inNet_spec addr net :
  wf_ip addr -> wf_ip net ->
  inNet addr net = true <->
  ip_fam addr = ip_fam net /\
  (forall k, 0 <= k < ip_prefix net -> nth_bit (ip_bytes addr) k = nth_bit (ip_bytes net) k).
Proof.
  intros Ha Hn. unfold inNet.
  destruct (bool_decide (ip_fam addr = ip_fam net)) eqn:Ef; simpl; b2p; [|by split; [|intros []]].
  pose proof (wf_width_bytes _ Ha) as [La Fa]. pose proof (wf_width_bytes _ Hn) as [Ln Fn].
  replace (width addr) with (width net) in La, Fa by (unfold width; by rewrite Ef).
  destruct Hn as (_ & Hp & _).
  assert (Hw : ip_prefix net <= Z.of_nat (8 * width net))
    by (unfold width, fam_bits in *; destruct (ip_fam net); lia).
  rewrite inNet_loop_spec by (done || lia || congruence).
  assert (Hb : forall l k, 0 <= k < ip_prefix net ->
    nth_bit (take (width net) l) k = nth_bit l k).
  { intros l k Hk. unfold nth_bit. f_equal.
    rewrite !nth_lookup, lookup_take_lt; [done|].
    assert (k / 8 < Z.of_nat (width net)) by (apply Z.div_lt_upper_bound; lia).
    pose proof (Z.div_pos k 8). lia. }
  rewrite Z.sub_0_r. split.
  - intros H. split; [done|]. intros k Hk. specialize (H k Hk). by rewrite !Hb in H.
  - intros [_ H] k Hk. rewrite !Hb by done. by apply H.
Qed.
