(* ===== verification/InetText.v ===== *)
(** * A concrete text form for addresses

    An instance of [Inet] that satisfies [InetLaws]: dotted decimal for V4 and
    eight groups of four hexadecimal digits for V6 (a form [inet_pton] accepts).
    It shows that the laws can hold, and it is what the witnesses of the theorems
    about addresses run on. *)

From S2P Require Import Prelude Ip.

(** ** V4: dotted decimal *)

Definition ntop4 (l : list Z) : string :=
  match l with
  | [a; b; c; d] =>
      (udec a ++ String "." (udec b ++ String "." (udec c ++ String "." (udec d))))%string
  | _ => ""
  end.

(** One number, and the text after the dot that ends it. *)
Definition octet (s : string) : option (Z * string) :=
  match scan_dec s 0 0 with
  | (v, _, String "." s') => Some (v, s')
  | _ => None
  end.

Definition pton4 (s : string) : option (list Z) :=
  '(a, s1) ← octet s;
  '(b, s2) ← octet s1;
  '(c, s3) ← octet s2;
  let d := (scan_dec s3 0 0).1.1 in
  if String.eqb (ntop4 [a; b; c; d]) s && bool_decide (byte_list 4 [a; b; c; d])
  then Some [a; b; c; d] else None.

(** ** V6: eight groups of four hexadecimal digits *)

Definition hexdig (d : Z) : ascii := chr (if d <? 10 then 48 + d else 87 + d).

Definition unhex (c : ascii) : option Z :=
  if isdigit c then Some (code c - 48)
  else if (97 <=? code c) && (code c <=? 102) then Some (code c - 87)
  else None.

Definition hex2 (b : Z) (s : string) : string :=
  String (hexdig (b / 16)) (String (hexdig (b mod 16)) s).

Definition unhex2 (c d : ascii) : option Z :=
  h ← unhex c; l ← unhex d; Some (h * 16 + l).

Fixpoint ntop6 (l : list Z) : string :=
  match l with
  | a :: b :: l' =>
      hex2 a (hex2 b (match l' with [] => "" | _ => String ":" (ntop6 l') end))
  | _ => ""
  end.

Fixpoint groups (s : string) : option (list Z) :=
  match s with
  | String c1 (String c2 (String c3 (String c4 rest))) =>
      a ← unhex2 c1 c2; b ← unhex2 c3 c4;
      match rest with
      | "" => Some [a; b]
      | String _ s' => l ← groups s'; Some (a :: b :: l)
      end
  | _ => None
  end%string.

Definition pton6 (s : string) : option (list Z) :=
  l ← groups s; if bool_decide (byte_list 16 l) then Some l else None.

(** ** The laws *)

Lemma octet_udec z s : 0 <= z -> octet (udec z ++ String "." s)%string = Some (z, s).
Proof.
  intros Hz. unfold octet. by destruct (scan_dec_udec z (String "." s) Hz eq_refl) as (k & _ & ->).
Qed.

Lemma byte_list_4 l : byte_list 4 l ->
  exists a b c d, l = [a; b; c; d] /\ is_u8 a /\ is_u8 b /\ is_u8 c /\ is_u8 d.
Proof.
  intros [Hl Hf]. destruct l as [|a [|b [|c [|d [|]]]]]; try done.
  exists a, b, c, d. rewrite !Forall_cons in Hf. tauto.
Qed.

Lemma pton4_ntop4_ok l : byte_list 4 l -> pton4 (ntop4 l) = Some l.
Proof.
  intros H. destruct (byte_list_4 l H) as (a & b & c & d & -> & [Ha _] & [Hb _] & [Hc _] & [Hd _]).
  unfold pton4. simpl ntop4.
  rewrite octet_udec by done. cbn [mbind option_bind]. rewrite octet_udec by done.
  cbn [mbind option_bind]. rewrite octet_udec by done. cbn [mbind option_bind].
  destruct (scan_dec_udec d "" Hd eq_refl) as (k & _ & E). rewrite string_app_nil in E.
  rewrite E. cbn [fst]. rewrite String.eqb_refl. by rewrite bool_decide_true.
Qed.

Lemma pton4_inv s l : pton4 s = Some l -> s = ntop4 l /\ byte_list 4 l.
Proof.
  unfold pton4. destruct (octet s) as [[a s1]|]; [|done]. cbn [mbind option_bind].
  destruct (octet s1) as [[b s2]|]; [|done]. cbn [mbind option_bind].
  destruct (octet s2) as [[c s3]|]; [|done]. cbn [mbind option_bind].
  destruct (_ && _) eqn:E; [|done]. intros [= <-]. b2p. by apply String.eqb_eq in H.
Qed.

Lemma ntop4_has_char x l :
  byte_list 4 l -> isdigit x = false -> Ascii.eqb x "." = false -> has_char x (ntop4 l) = false.
Proof.
  intros H Hx Hd.
  destruct (byte_list_4 l H) as (a & b & c & d & -> & [Ha _] & [Hb _] & [Hc _] & [Hd' _]).
  simpl. repeat (rewrite !has_char_app; cbn [has_char]). rewrite Hd.
  by rewrite !udec_has_char.
Qed.

Lemma hex_cases d : 0 <= d < 16 ->
  d = 0 \/ d = 1 \/ d = 2 \/ d = 3 \/ d = 4 \/ d = 5 \/ d = 6 \/ d = 7 \/ d = 8 \/ d = 9 \/
  d = 10 \/ d = 11 \/ d = 12 \/ d = 13 \/ d = 14 \/ d = 15.
Proof. lia. Qed.

Lemma unhex_hexdig d : 0 <= d < 16 -> unhex (hexdig d) = Some d.
Proof. intros H%hex_cases. by repeat destruct H as [->|H]; try subst d. Qed.

Lemma hexdig_char x d :
  0 <= d < 16 -> unhex x = None -> Ascii.eqb x (hexdig d) = false.
Proof. intros Hd Hx. apply Ascii.eqb_neq. intros ->. by rewrite unhex_hexdig in Hx. Qed.

Lemma u8_nibbles b : is_u8 b -> 0 <= b / 16 < 16 /\ 0 <= b mod 16 < 16.
Proof.
  intros [H0 H1]. split; [split; [apply Z.div_pos|apply Z.div_lt_upper_bound]; lia|].
  by apply Z.mod_pos_bound.
Qed.

Lemma unhex2_hexdig b : is_u8 b -> unhex2 (hexdig (b / 16)) (hexdig (b mod 16)) = Some b.
Proof.
  intros H%u8_nibbles. unfold unhex2. rewrite !unhex_hexdig by apply H. simpl.
  f_equal. pose proof (Z_div_mod_eq_full b 16). lia.
Qed.

Lemma groups_ntop6 n l :
  length l = (2 * S n)%nat -> Forall is_u8 l -> groups (ntop6 l) = Some l.
Proof.
  revert l. induction n as [|n IH]; intros [|a [|b l]] Hl Hf; try done; simpl in Hl;
    inversion Hf as [|?? Ha Hf1]; inversion Hf1 as [|?? Hb Hf2]; subst.
  - destruct l; [|done]. cbn. by rewrite !unhex2_hexdig.
  - destruct l as [|c l]; [simpl in Hl; lia|].
    change (ntop6 (a :: b :: c :: l)) with (hex2 a (hex2 b (String ":" (ntop6 (c :: l))))).
    unfold hex2. cbn [groups]. rewrite !unhex2_hexdig by done. cbn [mbind option_bind].
    rewrite IH by (done || simpl in *; lia). done.
Qed.

Lemma ntop6_has_char x l :
  Forall is_u8 l -> unhex x = None -> Ascii.eqb x ":" = false -> has_char x (ntop6 l) = false.
Proof.
  intros Hf Hx Hc. remember (length l) as n eqn:Hn. revert l Hf Hn.
  induction n as [n IH] using lt_wf_ind. intros [|a [|b l]] Hf Hn; try done.
  inversion Hf as [|?? Ha Hf1]; inversion Hf1 as [|?? Hb Hf2]; subst.
  apply u8_nibbles in Ha, Hb. cbn [ntop6]. unfold hex2. cbn [has_char].
  rewrite !hexdig_char by (done || apply Ha || apply Hb). simpl.
  destruct l as [|c l]; [done|]. cbn [has_char]. rewrite Hc. eapply IH; [|done|done]. simpl in *. lia.
Qed.

#[export] Instance TextInet : Inet := {|
  inet_pton4 := pton4; inet_pton6 := pton6; inet_ntop4 := ntop4; inet_ntop6 := ntop6 |}.

#[export] Instance TextInet_laws : InetLaws.
Proof.
  split; simpl.
  - intros s l H. by apply pton4_inv in H as [_ H].
  - unfold pton6. intros s l. destruct (groups s) as [m|]; [|done]. simpl.
    intros H. destruct (bool_decide _) eqn:E; [|done]. b2p. by simplify_eq.
  - apply pton4_ntop4_ok.
  - intros l [Hl Hf]. unfold pton6. rewrite (groups_ntop6 7) by done. simpl.
    by rewrite bool_decide_true.
  - intros l [Hl Hf]. destruct (pton4 (ntop6 l)) as [m|] eqn:E; [exfalso|done].
    apply pton4_inv in E as [E Hm].
    assert (Hc : has_char ":" (ntop6 l) = false) by (rewrite E; by apply ntop4_has_char).
    destruct l as [|a [|b [|c l]]]; try done. unfold hex2 in Hc. cbn in Hc.
    rewrite !orb_false_iff in Hc. by destruct Hc as (_ & _ & _ & _ & Hc & _).
  - intros l H. split; by apply ntop4_has_char.
  - intros l [Hl Hf]. split; by apply ntop6_has_char.
Qed.

(** ** The theorems about addresses, on concrete ones *)

Definition net10 : Ip := mkIp V4 8 (pad16 [10; 0; 0; 0]).
Definition host10 : Ip := mkIp V4 32 (pad16 [10; 1; 2; 3]).
Definition host6 : Ip := mkIp V6 128 [32;1;13;184;0;0;0;0;0;0;0;0;0;0;0;1].

Lemma parseCidr_canonical_witness :
  parseCidr "10.1.2.3/8" = Some net10 /\ canonical net10.
Proof.
  assert (E : parseCidr "10.1.2.3/8" = Some net10) by (vm_compute; reflexivity).
  exact (conj E (parseCidr_canonical _ _ E)).
Defined.

Lemma parseCidr_toString_witness :
  canonical host6 /\ parseCidr (ip_toString host6) = Some host6.
Proof.
  assert (C : canonical host6) by (apply (bool_decide_unpack _); vm_compute; exact I).
  exact (conj C (parseCidr_toString _ C)).
Defined.

Lemma inNet_spec_witness : inNet host10 net10 = true /\ ip_fam host10 = ip_fam net10.
Proof.
  assert (A : wf_ip host10) by (apply (bool_decide_unpack _); vm_compute; exact I).
  assert (N : wf_ip net10) by (apply (bool_decide_unpack _); vm_compute; exact I).
  assert (E : inNet host10 net10 = true) by (vm_compute; reflexivity).
  exact (conj E (proj1 (proj1 (inNet_spec _ _ A N) E))).
Defined.

Lemma resolve_no_spoofing_witness :
  resolveClientAddr host10 "10.9.9.9, 8.8.8.8, 10.1.1.1" [net10]
  = (true, mkIp V4 32 (pad16 [8; 8; 8; 8])).
Proof.
  rewrite (resolve_no_spoofing host10 "10.9.9.9" " 8.8.8.8, 10.1.1.1" [net10]);
    vm_compute; reflexivity.
Defined.
