(* ===== verification/Rule.v ===== *)
(** * Reports, rules and their arbitration (src/ipban/rule.h, rule.cpp, judge.h, judge.cpp)

    A [Risk] is a report about an address; a [Rule] is a decision. The judge turns
    one into the other and decides whether a new rule replaces the one stored
    under the same id. *)

From S2P Require Import Prelude Ip InetText.

Inductive Src := WAF | RATE | BIZ | ADMIN | STATIC | EMERG.
Inductive Act := ALLOW | DENY.

(** The wire carries any [uint8_t] as a risk type, so [risk_type] is one; the
    enumerators of [RiskType] are its first five values. *)
Definition RATE_ABUSE : Z := 0.
Definition INJECT : Z := 1.
Definition SCAN : Z := 2.
Definition ENUM : Z := 3.
Definition OTHER : Z := 4.

Record Risk := mkRisk {
  risk_id : string;
  risk_ip : Ip;
  risk_src : Src;
  risk_type : Z;
  risk_severity : Z;
  risk_banMs : Z;
  risk_atMs : Z;
  risk_reason : string;
}.

Record Rule := mkRule {
  rule_id : string;
  rule_ip : Ip;
  rule_action : Act;
  rule_src : Src;
  rule_priority : Z;
  rule_createdAtMs : Z;
  rule_expireAtMs : Z;   (* 0: permanent *)
  rule_version : Z;
  rule_reason : string;
}.

#[global] Instance Src_eq_dec : EqDecision Src.
Proof. solve_decision. Defined.
#[global] Instance Act_eq_dec : EqDecision Act.
Proof. solve_decision. Defined.
#[global] Instance Risk_eq_dec : EqDecision Risk.
Proof. solve_decision. Defined.
#[global] Instance Rule_eq_dec : EqDecision Rule.
Proof. solve_decision. Defined.

Definition rulePriority (src : Src) (action : Act) : Z :=
  match src with
  | EMERG => 1000
  | ADMIN => if decide (action = DENY) then 900 else 800
  | STATIC => if decide (action = ALLOW) then 750 else 300
  | WAF => 600
  | BIZ => 500
  | RATE => 400
  end.

Definition srcName (s : Src) : string :=
  match s with
  | WAF => "waf" | RATE => "rate" | BIZ => "biz"
  | ADMIN => "admin" | STATIC => "static" | EMERG => "emerg"
  end.

Definition actName (a : Act) : string :=
  match a with DENY => "deny" | ALLOW => "allow" end.

Definition srcFromName (s : string) : Src :=
  if String.eqb s "waf" then WAF
  else if String.eqb s "rate" then RATE
  else if String.eqb s "biz" then BIZ
  else if String.eqb s "admin" then ADMIN
  else if String.eqb s "static" then STATIC
  else if String.eqb s "emerg" then EMERG
  else RATE.

Definition actFromName (s : string) : Act := if String.eqb s "allow" then ALLOW else DENY.

(** [rule.version = v]. *)
Definition set_version (r : Rule) (v : Z) : Rule :=
  mkRule (rule_id r) (rule_ip r) (rule_action r) (rule_src r) (rule_priority r)
         (rule_createdAtMs r) (rule_expireAtMs r) v (rule_reason r).

(** ** The judge *)

Section judge.
Context `{Inet}.

Definition ruleIdFor (src : Src) (ip : Ip) : string :=
  (srcName src ++ String ":" (ip_toString ip))%string.

(** [now + ban], saturating at [INT64_MAX]; 0 when the report asks for no time. *)
Definition ban_deadline (banMs nowMs : Z) : Z :=
  if banMs =? 0 then 0
  else if (nowMs >=? INT64_MAX) || (banMs >? INT64_MAX - nowMs) then INT64_MAX
  else wrap64 (nowMs + banMs).

Definition ruleFromRisk (r : Risk) (nowMs : Z) : Rule :=
  mkRule (ruleIdFor (risk_src r) (risk_ip r)) (risk_ip r) DENY (risk_src r)
         (rulePriority (risk_src r) DENY) nowMs (ban_deadline (risk_banMs r) nowMs) 0
         (if String.eqb (risk_reason r) "" then srcName (risk_src r) else risk_reason r).
End judge.

(** [0 = permanent], the latest deadline of all. *)
Definition deadline (r : Rule) : Z :=
  if rule_expireAtMs r =? 0 then UINT64_MAX else rule_expireAtMs r.

Definition shouldReplace (existing cand : Rule) : bool :=
  if rule_priority cand <? rule_priority existing then false
  else if rule_priority cand >? rule_priority existing then true
  else deadline cand >? deadline existing.

(** ** Properties *)

Lemma srcFromName_srcName s : srcFromName (srcName s) = s.
Proof. by destruct s. Qed.

Lemma actFromName_actName a : actFromName (actName a) = a.
Proof. by destruct a. Qed.

Lemma srcName_no_colon s : has_char ":" (srcName s) = false.
Proof. by destruct s. Qed.

Lemma srcName_inj s t : srcName s = srcName t -> s = t.
Proof. intros E. by rewrite <- (srcFromName_srcName s), E, srcFromName_srcName. Qed.

(** [a] outranks [b]. *)
Definition outranks (a b : Rule) : bool := shouldReplace b a.

Lemma outranks_spec a b :
  outranks a b = true <->
  rule_priority b < rule_priority a \/
  (rule_priority a = rule_priority b /\ deadline b < deadline a).
Proof.
  unfold outranks, shouldReplace.
  destruct (rule_priority a <? rule_priority b) eqn:E1; b2p; [split; [done|lia]|].
  destruct (rule_priority a >? rule_priority b) eqn:E2; b2p; [split; [lia|done]|].
  rewrite Z.gtb_ltb, Z.ltb_lt. lia.
Qed.

#[global] Instance outranks_StrictWeak : StrictWeak outranks.
Proof.
  split.
  - intros a. destruct (outranks a a) eqn:E; [|done]. apply outranks_spec in E. lia.
  - intros a b c. rewrite !outranks_spec. lia.
  - intros a b c. rewrite !outranks_spec. lia.
Qed.

(** What is stored under one id after the candidates [cs] arrived in order. *)
Definition settle (r : Rule) (cs : list Rule) : Rule :=
  fold_left (fun e c => if shouldReplace e c then c else e) cs r.

(** Whatever the order in which candidates for one id arrive, the one kept is
    a candidate that no other outranks: neither its priority nor, at equal
    priority, its deadline can be lowered by a later report. *)
Theorem settle_best r cs :
  settle r cs ∈ r :: cs /\ (forall c, c ∈ r :: cs -> outranks c (settle r cs) = false).
Proof.
  revert r. induction cs as [|c cs IH]; intros r; simpl.
  - split; [by left|]. intros c Hc. apply list_elem_of_singleton in Hc as ->. apply sw_irrefl.
  - destruct (shouldReplace r c) eqn:E.
    + destruct (IH c) as [Hin Hb]. split; [by right|]. intros d Hd.
      apply elem_of_cons in Hd as [->|Hd]; [|by apply Hb].
      destruct (outranks r (settle c cs)) eqn:E2; [|done].
      pose proof (Hb c (list_elem_of_here _ _)) as Hc.
      change (outranks c r = true) in E.
      by rewrite (sw_trans _ _ _ E E2) in Hc.
    + destruct (IH r) as [Hin Hb]. split.
      { apply elem_of_cons in Hin as [->|Hin]; [by left|by right; right]. }
      intros d Hd. apply elem_of_cons in Hd as [->|Hd]; [apply Hb; by left|].
      apply elem_of_cons in Hd as [->|Hd]; [|apply Hb; by right].
      destruct (outranks c (settle r cs)) eqn:E2; [|done].
      apply (sw_cotrans _ r) in E2 as [E2|E2].
      * unfold outranks in E2. congruence.
      * by rewrite (Hb r (list_elem_of_here _ _)) in E2.
Qed.

(** The deadline a report leads to never overflows: it is 0 (permanent) when
    no time is asked, and otherwise [now + ban] saturated at [INT64_MAX], at or
    after [now] for every clock value of that range. *)
Theorem ban_deadline_bounds banMs nowMs :
  is_u64 banMs -> is_u64 nowMs ->
  ban_deadline banMs nowMs = (if banMs =? 0 then 0 else Z.min (nowMs + banMs) INT64_MAX)
  /\ 0 <= ban_deadline banMs nowMs <= INT64_MAX
  /\ (banMs <> 0 -> nowMs < INT64_MAX -> nowMs < ban_deadline banMs nowMs).
Proof.
  unfold is_u64, ban_deadline. intros Hb Hn.
  assert (HI : INT64_MAX = 9223372036854775807) by done.
  destruct (banMs =? 0) eqn:E0; b2p; [lia|].
  rewrite Z.geb_leb, Z.gtb_ltb.
  destruct ((INT64_MAX <=? nowMs) || (INT64_MAX - nowMs <? banMs)) eqn:E.
  - apply orb_true_iff in E as [E|E]; b2p; lia.
  - b2p. rewrite wrap64_id by (unfold is_u64; lia). lia.
Qed.

Lemma ban_deadline_bounds_witness :
  is_u64 1000 /\ ban_deadline 1000 (INT64_MAX - 1) = INT64_MAX.
Proof.
  assert (A : is_u64 1000) by (unfold is_u64; lia).
  assert (B : is_u64 (INT64_MAX - 1)) by (unfold is_u64, INT64_MAX; lia).
  exact (conj A (proj1 (ban_deadline_bounds 1000 (INT64_MAX - 1) A B))).
Defined.

Section rule_ids.
Context `{Inet} `{!InetLaws}.

Lemma ruleIdFor_break src ip :
  break_at ":" (ruleIdFor src ip) = Some (srcName src, ip_toString ip).
Proof. apply break_at_app, srcName_no_colon. Qed.

(** Rule ids do not collide: two reports share a rule exactly when they
    share the source and the (canonical) address. *)
Theorem ruleIdFor_inj s1 s2 i1 i2 :
  canonical i1 -> canonical i2 -> ruleIdFor s1 i1 = ruleIdFor s2 i2 -> s1 = s2 /\ i1 = i2.
Proof.
  intros H1 H2 E. apply (f_equal (break_at ":")) in E. rewrite !ruleIdFor_break in E.
  simplify_eq. split; [by apply srcName_inj|by apply ip_toString_inj].
Qed.

(** A source and an address can be told from an id, so the ids of the two
    actions of one source differ only by what the caller makes of them. *)
Lemma ruleIdFor_src_ne s1 s2 i1 i2 :
  s1 <> s2 -> ruleIdFor s1 i1 <> ruleIdFor s2 i2.
Proof.
  intros Hs E. apply (f_equal (break_at ":")) in E. rewrite !ruleIdFor_break in E.
  simplify_eq. by apply Hs, srcName_inj.
Qed.
End rule_ids.

Lemma ruleIdFor_inj_witness :
  ruleIdFor WAF host10 = "waf:10.1.2.3" /\ WAF = WAF /\ host10 = host10.
Proof.
  assert (C : canonical host10) by (apply (bool_decide_unpack _); vm_compute; exact I).
  split; [vm_compute; reflexivity|].
  exact (ruleIdFor_inj WAF WAF host10 host10 C C eq_refl).
Defined.
