(* ===== verification/Snap.v ===== *)
(** * The compiled list of rules (src/ipban/snap.h, src/ipban/snap.cpp)

    Rules for single addresses go to hash tables, rules for networks to vectors,
    all sorted by [beats]; [eval] looks an address up. [std::sort] is the
    interface [StdSort], so what is proved holds whatever it does with ties. *)

From Stdlib Require Import Sorting.Sorted.
From S2P Require Import Prelude Ip InetText Rule.

(** ** Data *)

(** [Decision] of the code. *)
Record Verdict := mkVerdict {
  v_action : Act;
  v_matched : bool;
  v_ruleId : string;
  v_src : Src;
  v_expireAtMs : Z;
  v_reason : string;
}.

Record Snap := mkSnap {
  snap_version : Z;
  snap_defaultAction : Act;
  v4Exact : gmap Ip (list Rule);
  v6Exact : gmap Ip (list Rule);
  v4Cidr : list Rule;
  v6Cidr : list Rule;
}.

(** ** Operations *)

Definition beats (a b : Rule) : bool :=
  if negb (rule_priority a =? rule_priority b) then rule_priority a >? rule_priority b
  else
    let ea := deadline a in
    let eb := deadline b in
    if negb (ea =? eb) then ea >? eb
    else bool_decide (rule_action a = DENY) && negb (bool_decide (rule_action b = DENY)).

Definition expired (r : Rule) (nowMs : Z) : bool :=
  negb (rule_expireAtMs r =? 0) && negb (nowMs =? 0) && (nowMs >=? rule_expireAtMs r).

(** [map[r.ip].push_back(r)]. *)
Definition push_exact (m : gmap Ip (list Rule)) (r : Rule) : gmap Ip (list Rule) :=
  <[rule_ip r := default [] (m !! rule_ip r) ++ [r]]> m.

(** The body of the loop of [compileSnap]. *)
Definition snap_add (nowMs : Z) (s : Snap) (r : Rule) : Snap :=
  if expired r nowMs then s
  else
    let '(mkSnap v d m4 m6 c4 c6) := s in
    match full (rule_ip r), ip_fam (rule_ip r) with
    | true, V4 => mkSnap v d (push_exact m4 r) m6 c4 c6
    | true, V6 => mkSnap v d m4 (push_exact m6 r) c4 c6
    | false, V4 => mkSnap v d m4 m6 (c4 ++ [r]) c6
    | false, V6 => mkSnap v d m4 m6 c4 (c6 ++ [r])
    end.

Section compile.
Context {SS : StdSort}.

Definition sort_snap (s : Snap) : Snap :=
  mkSnap (snap_version s) (snap_defaultAction s)
         (std_sort beats <$> v4Exact s) (std_sort beats <$> v6Exact s)
         (std_sort beats (v4Cidr s)) (std_sort beats (v6Cidr s)).

Definition compileSnap (version : Z) (defaultAction : Act) (rules : list Rule) (nowMs : Z)
    : Snap :=
  sort_snap (fold_left (snap_add nowMs) rules (mkSnap version defaultAction ∅ ∅ [] [])).
End compile.

(** The scan of the networks, from the best rule so far. *)
Fixpoint scan_cidrs (ip : Ip) (nowMs : Z) (best : option Rule) (cidrs : list Rule)
    : option Rule :=
  match cidrs with
  | [] => best
  | r :: rest =>
      if match best with Some b => rule_priority r <? rule_priority b | None => false end
      then best
      else if expired r nowMs then scan_cidrs ip nowMs best rest
      else if inNet ip (rule_ip r) then
        let wins := match best with Some b => beats r b | None => true end in
        scan_cidrs ip nowMs (if wins then Some r else best) rest
      else scan_cidrs ip nowMs best rest
  end.

Definition snap_best (s : Snap) (ip : Ip) (nowMs : Z) : option Rule :=
  let exact := match ip_fam ip with V4 => v4Exact s | V6 => v6Exact s end in
  let best := l ← exact !! ip; List.find (fun r => negb (expired r nowMs)) l in
  let cidrs := match ip_fam ip with V4 => v4Cidr s | V6 => v6Cidr s end in
  scan_cidrs ip nowMs best cidrs.

Definition verdict_of (dflt : Act) (best : option Rule) : Verdict :=
  match best with
  | Some b => mkVerdict (rule_action b) true (rule_id b) (rule_src b) (rule_expireAtMs b)
                        (rule_reason b)
  | None => mkVerdict dflt false "" STATIC 0 ""
  end.

Definition snap_eval (s : Snap) (ip : Ip) (nowMs : Z) : Verdict :=
  verdict_of (snap_defaultAction s) (snap_best s ip nowMs).

Definition ruleCount (s : Snap) : nat :=
  let count (m : gmap Ip (list Rule)) := map_fold (fun _ l n => (n + length l)%nat) O m in
  (length (v4Cidr s) + length (v6Cidr s) + count (v4Exact s) + count (v6Exact s))%nat.

(** ** The order of rules *)

Definition deny_rank (a : Act) : Z := match a with DENY => 1 | ALLOW => 0 end.

Lemma beats_spec a b :
  beats a b = true <->
  rule_priority b < rule_priority a \/
  (rule_priority a = rule_priority b /\
   (deadline b < deadline a \/
    (deadline a = deadline b /\ deny_rank (rule_action b) < deny_rank (rule_action a)))).
Proof.
  unfold beats. destruct (rule_priority a =? rule_priority b) eqn:E; b2p; cbn [negb].
  - destruct (deadline a =? deadline b) eqn:E2; b2p; cbn [negb].
    + destruct (rule_action a), (rule_action b); simpl; split; (done || lia).
    + rewrite Z.gtb_ltb, Z.ltb_lt. lia.
  - rewrite Z.gtb_ltb, Z.ltb_lt. lia.
Qed.

#[export] Instance beats_StrictWeak : StrictWeak beats.
Proof.
  split.
  - intros a. destruct (beats a a) eqn:E; [|done]. apply beats_spec in E. lia.
  - intros a b c. rewrite !beats_spec. lia.
  - intros a b c. rewrite !beats_spec. lia.
Qed.

Lemma beats_false_prio a b : beats a b = false -> rule_priority a <= rule_priority b.
Proof.
  intros H. assert (N : ~ beats a b = true) by congruence. rewrite beats_spec in N. lia.
Qed.

(** Rules that do not beat each other decide alike. *)
Lemma tie_action a b :
  beats a b = false -> beats b a = false ->
  rule_action a = rule_action b /\ rule_priority a = rule_priority b /\ deadline a = deadline b.
Proof.
  intros H1 H2.
  assert (N1 : ~ beats a b = true) by congruence. assert (N2 : ~ beats b a = true) by congruence.
  rewrite beats_spec in N1, N2.
  assert (deny_rank (rule_action a) = deny_rank (rule_action b)) by lia.
  split; [by destruct (rule_action a), (rule_action b)|lia].
Qed.

(** ** What a snapshot holds *)

Definition exactOf (f : Fam) (s : Snap) : gmap Ip (list Rule) :=
  match f with V4 => v4Exact s | V6 => v6Exact s end.
Definition cidrOf (f : Fam) (s : Snap) : list Rule :=
  match f with V4 => v4Cidr s | V6 => v6Cidr s end.

(** The rules that [compileSnap] files under the address [ip], and under the
    networks of a family. *)
Definition files_exact (t0 : Z) (ip : Ip) (r : Rule) : bool :=
  negb (expired r t0) && full (rule_ip r) && bool_decide (rule_ip r = ip).
Definition files_cidr (t0 : Z) (f : Fam) (r : Rule) : bool :=
  negb (expired r t0) && negb (full (rule_ip r)) && bool_decide (ip_fam (rule_ip r) = f).

Lemma push_exact_lookup m r ip :
  default [] (push_exact m r !! ip)
  = default [] (m !! ip) ++ (if bool_decide (rule_ip r = ip) then [r] else []).
Proof.
  unfold push_exact. case_bool_decide.
  - subst. by rewrite lookup_insert_eq.
  - by rewrite lookup_insert_ne, app_nil_r.
Qed.

Lemma snap_add_exact t0 s r ip :
  default [] (exactOf (ip_fam ip) (snap_add t0 s r) !! ip)
  = default [] (exactOf (ip_fam ip) s !! ip) ++ List.filter (files_exact t0 ip) [r].
Proof.
  simpl. unfold files_exact, snap_add. destruct (expired r t0); simpl; [by rewrite app_nil_r|].
  destruct s as [v d m4 m6 c4 c6]. destruct (full (rule_ip r)); simpl.
  - destruct (ip_fam (rule_ip r)) eqn:Ef, (ip_fam ip) eqn:Eg; simpl;
      rewrite ?push_exact_lookup; try done;
      (rewrite bool_decide_false by congruence); by rewrite app_nil_r.
  - destruct (ip_fam (rule_ip r)), (ip_fam ip); simpl; by rewrite app_nil_r.
Qed.

Lemma snap_add_cidr t0 s r f :
  cidrOf f (snap_add t0 s r) = cidrOf f s ++ List.filter (files_cidr t0 f) [r].
Proof.
  simpl. unfold files_cidr, snap_add. destruct (expired r t0); simpl; [by rewrite app_nil_r|].
  destruct s as [v d m4 m6 c4 c6]. destruct (full (rule_ip r)); simpl;
    destruct (ip_fam (rule_ip r)), f; simpl; by rewrite ?app_nil_r.
Qed.

Lemma fold_snap_exact t0 rules s ip :
  default [] (exactOf (ip_fam ip) (fold_left (snap_add t0) rules s) !! ip)
  = default [] (exactOf (ip_fam ip) s !! ip) ++ List.filter (files_exact t0 ip) rules.
Proof.
  revert s. induction rules as [|r rules IH]; intros s; cbn [fold_left]; [by rewrite app_nil_r|].
  rewrite IH, snap_add_exact, <- app_assoc. f_equal. simpl. by destruct (files_exact t0 ip r).
Qed.

Lemma fold_snap_cidr t0 rules s f :
  cidrOf f (fold_left (snap_add t0) rules s) = cidrOf f s ++ List.filter (files_cidr t0 f) rules.
Proof.
  revert s. induction rules as [|r rules IH]; intros s; cbn [fold_left]; [by rewrite app_nil_r|].
  rewrite IH, snap_add_cidr, <- app_assoc. f_equal. simpl. by destruct (files_cidr t0 f r).
Qed.

Lemma fold_snap_dflt t0 rules s :
  snap_defaultAction (fold_left (snap_add t0) rules s) = snap_defaultAction s /\
  snap_version (fold_left (snap_add t0) rules s) = snap_version s.
Proof.
  revert s. induction rules as [|r rules IH]; intros s; simpl; [done|].
  destruct (IH (snap_add t0 s r)) as [-> ->]. unfold snap_add.
  destruct (expired r t0); [done|]. destruct s.
  by destruct (full (rule_ip r)), (ip_fam (rule_ip r)).
Qed.

Section compiled.
Context {SS : StdSort}.

Lemma std_sort_nil {A} (lt : A -> A -> bool) : std_sort lt [] = [].
Proof. apply Permutation_nil_r, std_sort_perm. Qed.

Lemma compile_dflt v d rules t0 : snap_defaultAction (compileSnap v d rules t0) = d.
Proof. apply (fold_snap_dflt t0 rules (mkSnap v d ∅ ∅ [] [])). Qed.

Lemma compile_version v d rules t0 : snap_version (compileSnap v d rules t0) = v.
Proof. apply (fold_snap_dflt t0 rules (mkSnap v d ∅ ∅ [] [])). Qed.

Lemma compile_exact v d rules t0 ip :
  default [] (exactOf (ip_fam ip) (compileSnap v d rules t0) !! ip)
  = std_sort beats (List.filter (files_exact t0 ip) rules).
Proof.
  pose proof (fold_snap_exact t0 rules (mkSnap v d ∅ ∅ [] []) ip) as H.
  unfold compileSnap, sort_snap.
  destruct (ip_fam ip); simpl in *; rewrite lookup_empty in H; simpl in H; rewrite <- H;
    rewrite lookup_fmap; by destruct (_ !! ip); simpl; rewrite ?std_sort_nil.
Qed.

Lemma compile_cidr v d rules t0 f :
  cidrOf f (compileSnap v d rules t0)
  = std_sort beats (List.filter (files_cidr t0 f) rules).
Proof.
  pose proof (fold_snap_cidr t0 rules (mkSnap v d ∅ ∅ [] []) f) as H.
  unfold compileSnap, sort_snap. destruct f; simpl in *; by rewrite H.
Qed.
End compiled.

(** ** What [eval] returns *)

(** The rule applies to the address at that time. *)
Definition applies (ip : Ip) (now : Z) (r : Rule) : bool :=
  negb (expired r now) && inNet ip (rule_ip r).

Lemma inNet_loop_full i p a n :
  length a = length n -> Z.of_nat (8 * (i + length n)) <= p ->
  inNet_loop i p a n = true <-> a = n.
Proof.
  revert i n. induction a as [|x a IH]; intros i [|y n] Hl Hp; try done. simpl in Hl, Hp.
  cbn [inNet_loop]. replace (p >=? Z.of_nat i * 8 + 8) with true by lia.
  destruct (x =? y) eqn:E; b2p; cbn [negb].
  - subst y. rewrite (IH (S i) n) by lia. split; [by intros ->|by intros [=]].
  - split; [done|by intros [=]].
Qed.

Lemma inNet_full ip net :
  wf_ip ip -> wf_ip net -> full ip = true -> full net = true ->
  inNet ip net = true <-> net = ip.
Proof.
  intros Hi Hn Fi Fn. unfold inNet.
  destruct (bool_decide (ip_fam ip = ip_fam net)) eqn:Ef; simpl; b2p;
    [|split; [done|by intros ->]].
  pose proof (wf_width_bytes _ Hi) as [Li _]. pose proof (wf_width_bytes _ Hn) as [Ln _].
  replace (width ip) with (width net) in Li by (unfold width; by rewrite Ef).
  assert (Hp : ip_prefix net = Z.of_nat (8 * width net))
    by (unfold full, width in *; destruct (ip_fam net); b2p; lia).
  rewrite inNet_loop_full by (congruence || lia).
  split; [|by intros ->]. intros E.
  destruct Hi as ([Hl _] & _ & Hi), Hn as ([Hl' _] & _ & Hn).
  destruct ip as [f p b], net as [f' p' b']; simpl in *; subst f'.
  unfold width, full in *; simpl in *. destruct f; b2p; subst.
  - f_equal. rewrite <- (take_drop 4 b), <- (take_drop 4 b'). congruence.
  - f_equal. rewrite !take_ge in E by lia. done.
Qed.

Lemma expired_mono r t0 t1 :
  t0 = 0 \/ 0 <= t0 <= t1 -> expired r t1 = false -> expired r t0 = false.
Proof.
  intros Ht. unfold expired. rewrite !Z.geb_leb.
  destruct (rule_expireAtMs r =? 0), (t0 =? 0) eqn:E0, (t1 =? 0) eqn:E1; simpl; try done; b2p.
  - intros _. lia.
  - intros H. b2p. apply Z.leb_gt. lia.
Qed.

(** The scan of the networks keeps a best of what it started from and of the
    networks that apply. *)
Lemma scan_cidrs_best ip now best l :
  StronglySorted (not_after beats) l ->
  best_in beats (fun y => best = Some y \/ (y ∈ l /\ applies ip now y = true))
          (scan_cidrs ip now best l).
Proof.
  intros Hs. revert best. induction Hs as [|r l Hs IH Hr]; intros best; cbn [scan_cidrs].
  { destruct best as [x|]; simpl.
    - split; [by left|]. intros y [[= <-]|[[]%elem_of_nil _]]. apply sw_irrefl.
    - by intros y [?|[[]%elem_of_nil _]]. }
  destruct (match best with Some b => rule_priority r <? rule_priority b | None => false end)
    eqn:Ep.
  { destruct best as [b|]; [|done]. b2p. split; [by left|].
    intros y [[= <-]|[Hy _]]; [apply sw_irrefl|].
    destruct (beats y b) eqn:E; [|done]. apply beats_spec in E.
    assert (rule_priority y <= rule_priority r); [|lia].
    apply elem_of_cons in Hy as [->|Hy]; [lia|].
    rewrite Forall_forall in Hr. by apply beats_false_prio, Hr. }
  destruct (applies ip now r) eqn:Ha.
  - pose proof Ha as Ha'. unfold applies in Ha'. b2p. rewrite H, H0.
    set (wins := match best with Some b => beats r b | None => true end).
    specialize (IH (if wins then Some r else best)). revert IH. apply (best_in_widen _ _ _).
    + intros y [Hy|[Hy Hp]]; [|right; by split; [right|]].
      destruct wins; [|by left]. right. simplify_eq. by split; [left|].
    + intros y Hy.
      assert (Hz : forall z, y = z -> (if wins then Some r else best) = Some z \/
        (z ∈ l /\ applies ip now z = true) -> exists z, ((if wins then Some r else best) = Some z \/
        (z ∈ l /\ applies ip now z = true)) /\ beats y z = false).
      { intros z -> Hz. exists z. split; [done|apply sw_irrefl]. }
      destruct Hy as [->|[Hy Hp]].
      * simpl in wins. destruct wins eqn:E; [|apply (Hz y); [done|by left]].
        exists r. split; [by left|]. apply (sw_asym beats). exact E.
      * apply elem_of_cons in Hy as [->|Hy]; [|apply (Hz y); [done|by right]].
        destruct wins eqn:E; [apply (Hz r); [done|by left]|].
        destruct best as [b|]; [|done]. exists b. split; [by left|exact E].
  - assert (Hskip : (if expired r now then scan_cidrs ip now best l
            else if inNet ip (rule_ip r)
                 then scan_cidrs ip now
                        (if match best with Some b => beats r b | None => true end
                         then Some r else best) l
                 else scan_cidrs ip now best l) = scan_cidrs ip now best l).
    { unfold applies in Ha. by destruct (expired r now), (inNet ip (rule_ip r)). }
    cbn zeta. rewrite Hskip. specialize (IH best). revert IH. apply (best_in_ext _).
    intros y. rewrite elem_of_cons.
    split; [tauto|]. intros [?|[[->|?] ?]]; [by left|congruence|by right].
Qed.

(** The rule that decides is a best of the rules that apply. *)
Section decision.
Context {SS : StdSort}.

Lemma snap_best_spec v d rules t0 ip now :
  wf_ip ip -> full ip = true -> Forall (fun r => wf_ip (rule_ip r)) rules ->
  t0 = 0 \/ 0 <= t0 <= now ->
  best_in beats (fun r => r ∈ rules /\ applies ip now r = true)
          (snap_best (compileSnap v d rules t0) ip now).
Proof.
  intros Hw Hf Hr Ht. rewrite Forall_forall in Hr. unfold snap_best.
  change (match ip_fam ip with V4 => v4Exact ?s | V6 => v6Exact ?s end)
    with (exactOf (ip_fam ip) s).
  change (match ip_fam ip with V4 => v4Cidr ?s | V6 => v6Cidr ?s end)
    with (cidrOf (ip_fam ip) s).
  set (s := compileSnap v d rules t0).
  assert (E : (l ← exactOf (ip_fam ip) s !! ip; List.find (fun r => negb (expired r now)) l)
              = List.find (fun r => negb (expired r now))
                  (default [] (exactOf (ip_fam ip) s !! ip))) by (by destruct (_ !! ip)).
  cbn zeta. rewrite E. unfold s. rewrite compile_exact, compile_cidr. clear E s.
  set (ex := std_sort beats (List.filter (files_exact t0 ip) rules)).
  set (ci := std_sort beats (List.filter (files_cidr t0 (ip_fam ip)) rules)).
  assert (Hex : forall y, y ∈ ex <-> y ∈ rules /\ files_exact t0 ip y = true)
    by (intros y; unfold ex; rewrite std_sort_perm; apply elem_of_filter_bool).
  assert (Hci : forall y, y ∈ ci <-> y ∈ rules /\ files_cidr t0 (ip_fam ip) y = true)
    by (intros y; unfold ci; rewrite std_sort_perm; apply elem_of_filter_bool).
  pose proof (find_sorted_best beats (fun r => negb (expired r now)) ex
                (std_sort_sorted _ _ _ _)) as He.
  set (b := List.find _ ex) in *.
  pose proof (scan_cidrs_best ip now b ci (std_sort_sorted _ _ _ _)) as Hb.
  revert Hb. apply (best_in_widen _ _ _).
  - intros y [Hy|[Hy Ha]].
    + rewrite Hy in He. destruct He as [[Hin Hn] _]. apply Hex in Hin as [Hin Hfe].
      split; [done|]. unfold files_exact in Hfe. b2p. unfold applies. rewrite Hn.
      apply inNet_full; auto.
    + by apply Hci in Hy as [Hy _].
  - intros y [Hy Ha]. pose proof Ha as Ha'. unfold applies in Ha'. b2p.
    assert (H0' : expired y t0 = false) by (by apply (expired_mono y t0 now)).
    destruct (full (rule_ip y)) eqn:Ef.
    + assert (Hyx : y ∈ ex).
      { apply Hex. split; [done|]. unfold files_exact. rewrite H0', Ef.
        apply bool_decide_true, inNet_full; auto. }
      destruct b as [x|]; simpl in He.
      * exists x. split; [by left|]. apply He. split; [done|]. by rewrite H.
      * exfalso. apply (He y). split; [done|]. by rewrite H.
    + exists y. split; [|apply sw_irrefl]. right. split; [|done].
      apply Hci. split; [done|]. unfold files_cidr. rewrite H0', Ef. simpl.
      unfold inNet in H0. apply bool_decide_true.
      destruct (bool_decide (ip_fam ip = ip_fam (rule_ip y))) eqn:E; by b2p.
Qed.

(** The verdict of a list of rules, by definition: a first best of those that
    apply. *)
Definition ref_pick (acc : option Rule) (r : Rule) : option Rule :=
  match acc with Some b => if beats r b then Some r else acc | None => Some r end.
Definition eval_ref (d : Act) (rules : list Rule) (ip : Ip) (now : Z) : Verdict :=
  verdict_of d (fold_left ref_pick (List.filter (applies ip now) rules) None).

Lemma ref_pick_best l acc :
  best_in beats (fun y => acc = Some y \/ y ∈ l) (fold_left ref_pick l acc).
Proof.
  revert acc. induction l as [|r l IH]; intros acc; simpl.
  - destruct acc as [x|]; simpl.
    + split; [by left|]. intros y [[= <-]|[]%elem_of_nil]. apply sw_irrefl.
    + by intros y [?|[]%elem_of_nil].
  - specialize (IH (ref_pick acc r)). revert IH. apply (best_in_widen _ _ _).
    + intros y [Hy|Hy]; [|right; by right]. unfold ref_pick in Hy.
      destruct acc as [b|]; [destruct (beats r b)|]; simplify_eq; set_solver.
    + intros y Hy. assert (y = r \/ acc = Some y \/ y ∈ l) as [->|[->|Hl]] by set_solver.
      * destruct acc as [b|]; simpl; [|exists r; split; [by left|apply sw_irrefl]].
        destruct (beats r b) eqn:E; [exists r|exists b];
          (split; [by left|]); [apply sw_irrefl|done].
      * simpl. destruct (beats r y) eqn:E; [exists r|exists y]; (split; [by left|]);
          [by apply (sw_asym beats)|apply sw_irrefl].
      * exists y. split; [by right|apply sw_irrefl].
Qed.

(** The verdict on an address is that of a rule in force: one of the compiled
    rules, unexpired now, whose network contains the address, and that no other
    such rule beats (priority, then the later deadline, then deny over allow);
    without any, it is the default action. *)
Theorem snap_eval_best v d rules t0 ip now :
  wf_ip ip -> full ip = true -> Forall (fun r => wf_ip (rule_ip r)) rules ->
  t0 = 0 \/ 0 <= t0 <= now ->
  exists best,
    snap_eval (compileSnap v d rules t0) ip now = verdict_of d best /\
    best_in beats (fun r => r ∈ rules /\ applies ip now r = true) best.
Proof.
  intros Hw Hf Hr Ht. exists (snap_best (compileSnap v d rules t0) ip now). split.
  - unfold snap_eval. by rewrite compile_dflt.
  - by apply snap_best_spec.
Qed.

Lemma snap_eval_ref v d rules rules' t0 ip now :
  wf_ip ip -> full ip = true -> Forall (fun r => wf_ip (rule_ip r)) rules ->
  t0 = 0 \/ 0 <= t0 <= now -> rules' ≡ₚ rules ->
  let e := snap_eval (compileSnap v d rules t0) ip now in
  let e' := eval_ref d rules' ip now in
  v_action e = v_action e' /\ v_matched e = v_matched e' /\
  (v_expireAtMs e = v_expireAtMs e' \/
   (v_expireAtMs e ∈ [0; UINT64_MAX] /\ v_expireAtMs e' ∈ [0; UINT64_MAX])).
Proof.
  intros Hw Hf Hr Ht Hp. unfold snap_eval, eval_ref. rewrite compile_dflt. cbn zeta.
  pose proof (snap_best_spec v d rules t0 ip now Hw Hf Hr Ht) as H1.
  pose proof (ref_pick_best (List.filter (applies ip now) rules') None) as H2.
  apply (best_in_ext beats _ (fun r => r ∈ rules /\ applies ip now r = true)) in H2;
    [|intros y; rewrite elem_of_filter_bool, Hp; set_solver].
  pose proof (best_in_tie _ _ _ _ H1 H2) as Ht2.
  destruct (snap_best _ ip now) as [x|], (fold_left _ _ _) as [y|]; simpl; try done.
  - destruct Ht2 as [E1 E2]. destruct (tie_action x y E1 E2) as (Ha & _ & Hd).
    split_and!; [done..|]. unfold deadline in Hd.
    destruct (rule_expireAtMs x =? 0) eqn:E3, (rule_expireAtMs y =? 0) eqn:E4; b2p;
      rewrite ?E3, ?E4, ?Hd, <- ?Hd; set_solver.
  - split_and!; [done..|]. by left.
Qed.

(** C38: the decision does not depend on the order of the rules, on how
    [std::sort] orders ties, nor on when the snapshot was compiled: action,
    match and deadline are those of the reference definition. *)
Theorem snap_eval_reference v d rules rules' t0 ip now :
  wf_ip ip -> full ip = true -> Forall (fun r => wf_ip (rule_ip r)) rules ->
  t0 = 0 \/ 0 <= t0 <= now -> rules' ≡ₚ rules ->
  let e := snap_eval (compileSnap v d rules t0) ip now in
  let e' := eval_ref d rules' ip now in
  v_action e = v_action e' /\ v_matched e = v_matched e' /\
  (v_expireAtMs e = v_expireAtMs e' \/
   (v_expireAtMs e ∈ [0; UINT64_MAX] /\ v_expireAtMs e' ∈ [0; UINT64_MAX])).
Proof. apply snap_eval_ref. Qed.
End decision.

(** A deny for a network, a stronger allow for one of its hosts that has expired,
    and a rule that does not apply. *)
Definition deny_net : Rule := mkRule "waf:10.0.0.0/8" net10 DENY WAF 600 0 0 1 "scan".
Definition allow_host : Rule := mkRule "admin:10.1.2.3" host10 ALLOW ADMIN 800 0 50 2 "ops".
Definition deny_6 : Rule := mkRule "emerg:x" host6 DENY EMERG 1000 0 0 3 "now".

Lemma witness_rules_wf :
  wf_ip host10 /\ full host10 = true /\
  Forall (fun r => wf_ip (rule_ip r)) [allow_host; deny_net; deny_6].
Proof. split; [|split]; by apply (bool_decide_unpack _); vm_compute. Qed.

Lemma snap_eval_best_witness :
  snap_eval (compileSnap (SS:=insertion_StdSort) 7 ALLOW [allow_host; deny_net; deny_6] 10) host10 60
  = mkVerdict DENY true "waf:10.0.0.0/8" WAF 0 "scan" /\
  exists best, snap_eval (compileSnap (SS:=insertion_StdSort) 7 ALLOW [allow_host; deny_net; deny_6] 10) host10 60
    = verdict_of ALLOW best.
Proof.
  split; [vm_compute; reflexivity|].
  destruct witness_rules_wf as (A & B & C).
  assert (T60 : 10 = 0 \/ 0 <= 10 <= 60) by lia.
  destruct (snap_eval_best (SS:=insertion_StdSort) 7 ALLOW _ 10 host10 60 A B C
              T60)
    as (b & Hb & _).
  exists b. exact Hb.
Defined.

Lemma snap_eval_reference_witness :
  v_action (snap_eval (compileSnap (SS:=insertion_StdSort) 7 ALLOW [allow_host; deny_net; deny_6] 10) host10 20)
  = ALLOW.
Proof.
  destruct witness_rules_wf as (A & B & C).
  assert (T20 : 10 = 0 \/ 0 <= 10 <= 20) by lia.
  destruct (snap_eval_reference (SS:=insertion_StdSort) 7 ALLOW _ _ 10 host10 20 A B C
              T20
              (Permutation_refl _)) as (E & _).
  rewrite E. vm_compute. reflexivity.
Defined.
