(* ===== verification/Json.v ===== *)
(** * The JSON library, as an interface

    jsoncpp is not part of the program. What the program builds with
    [j[key] = value] and [append] is a [Doc]; what it reads is an abstract
    [Value] behind the predicates and conversions it calls. A conversion that
    throws on the value's type is [None]. *)

From S2P Require Import Prelude.

(** A document as the code builds it. *)
Inductive Doc :=
| DStr (s : string)
| DInt (z : Z)
| DBool (b : bool)
| DArr (l : list Doc)
| DObj (l : list (string * Doc)).

Class JsonLib := {
  Value : Type;
  dump : Doc -> string;
  load : string -> option Value;
  isObject : Value -> bool;
  isArray : Value -> bool;
  isString : Value -> bool;
  isBool : Value -> bool;
  isInt : Value -> bool;
  isUInt64 : Value -> bool;
  get : Value -> string -> Value;       (* [v[key]] of an object: null when absent *)
  elements : Value -> list Value;       (* the elements of an array *)
  asString : Value -> option string;
  asBool : Value -> option bool;
  asInt : Value -> option Z;
  asUInt : Value -> option Z;
  asUInt64 : Value -> option Z;
}.

(** The value of the first pair with that key: [j[key] = v] is used once per key. *)
Fixpoint assoc {A} (k : string) (l : list (string * A)) : option A :=
  match l with
  | [] => None
  | (k', v) :: l' => if String.eqb k k' then Some v else assoc k l'
  end.

Class JsonLaws `{JsonLib} := {
  (** [reads v d]: the library sees [v] as the document [d]. *)
  reads : Value -> Doc -> Prop;
  load_dump : forall d, exists v, load (dump d) = Some v /\ reads v d;
  dump_no_nul : forall d, has_char NUL (dump d) = false;  (* control characters are escaped *)
  reads_str : forall v s, reads v (DStr s) -> isString v = true /\ asString v = Some s;
  reads_bool : forall v b, reads v (DBool b) -> isBool v = true /\ asBool v = Some b;
  reads_u64 : forall v z, reads v (DInt z) -> is_u64 z ->
    isUInt64 v = true /\ asUInt64 v = Some z;
  reads_u32 : forall v z, reads v (DInt z) -> is_u32 z -> asUInt v = Some z;
  reads_i32 : forall v z, reads v (DInt z) -> - 2 ^ 31 <= z < 2 ^ 31 ->
    isInt v = true /\ asInt v = Some z;
  reads_arr : forall v l, reads v (DArr l) -> isArray v = true /\ Forall2 reads (elements v) l;
  reads_obj : forall v l, reads v (DObj l) ->
    isObject v = true /\ (forall k d, assoc k l = Some d -> reads (get v k) d);
  asString_str : forall v, isString v = true -> is_Some (asString v);
  asBool_bool : forall v, isBool v = true -> is_Some (asBool v);
  asUInt64_u64 : forall v, isUInt64 v = true -> exists z, asUInt64 v = Some z /\ is_u64 z;
  asUInt64_range : forall v z, asUInt64 v = Some z -> is_u64 z;
  asUInt_range : forall v z, asUInt v = Some z -> is_u32 z;
}.

(** ** Decoding

    The outcome of a function that returns [bool] and fills its output: it
    returned true, it returned false, or a conversion threw. *)

Inductive parsed (A : Type) :=
| Parsed (a : A)
| Rejected
| Threw.
Arguments Parsed {A} a.
Arguments Rejected {A}.
Arguments Threw {A}.

Definition pbind {A B} (m : parsed A) (k : A -> parsed B) : parsed B :=
  match m with Parsed a => k a | Rejected => Rejected | Threw => Threw end.

(** [if(!cond) return false;]. *)
Definition need {B} (cond : bool) (k : parsed B) : parsed B := if cond then k else Rejected.

(** A conversion that throws on [None]. *)
Definition conv {A} (o : option A) : parsed A :=
  match o with Some a => Parsed a | None => Threw end.

(** A parser whose failure is [return false]. *)
Definition ask {A} (o : option A) : parsed A :=
  match o with Some a => Parsed a | None => Rejected end.

Declare Scope parsed_scope.
Delimit Scope parsed_scope with parsed.
Notation "x <- m ;; k" := (pbind m (fun x => k))
  (at level 100, m at next level, right associativity) : parsed_scope.

(** The loop over the elements of an array that returns false at the first bad one. *)
Fixpoint pmap {A B} (f : A -> parsed B) (l : list A) : parsed (list B) :=
  match l with
  | [] => Parsed []
  | x :: l' => pbind (f x) (fun y => pbind (pmap f l') (fun ys => Parsed (y :: ys)))
  end.

Lemma pmap_roundtrip {A B C} (f : A -> parsed B) (R : A -> C -> Prop) (g : B -> C) l bs :
  (forall x b, b ∈ bs -> R x (g b) -> f x = Parsed b) ->
  Forall2 R l (map g bs) -> pmap f l = Parsed bs.
Proof.
  revert l. induction bs as [|b bs IH]; intros l Hf H; inversion H; subst; simpl; [done|].
  rewrite (Hf x b) by (done || by left). simpl.
  rewrite IH; [done| |done]. intros y c Hc. apply Hf. by right.
Qed.

Lemma pmap_forall {A B} (f : A -> parsed B) (P : B -> Prop) l ys :
  (forall x y, f x = Parsed y -> P y) -> pmap f l = Parsed ys -> Forall P ys.
Proof.
  intros Hf. revert ys. induction l as [|x l IH]; simpl; intros ys E; [by simplify_eq|].
  destruct (f x) as [y| |] eqn:Ey; simplify_eq/=.
  destruct (pmap f l) as [zs| |]; simplify_eq/=. constructor; eauto.
Qed.

(** ** An instance

    Values are documents or null; the text is the binary code of the document
    (any injective text form will do). *)

Section Doc_ind.
Context (P : Doc -> Prop).
Context (HS : forall s, P (DStr s)) (HI : forall z, P (DInt z)) (HB : forall b, P (DBool b)).
Context (HA : forall l, Forall P l -> P (DArr l)).
Context (HO : forall l, Forall (fun p => P (snd p)) l -> P (DObj l)).

Fixpoint Doc_nested_ind (d : Doc) : P d :=
  match d with
  | DStr s => HS s
  | DInt z => HI z
  | DBool b => HB b
  | DArr l =>
      HA l ((fix go (l : list Doc) : Forall P l :=
               match l with
               | [] => Forall_nil_2 _
               | x :: l' => Forall_cons_2 _ _ _ (Doc_nested_ind x) (go l')
               end) l)
  | DObj l =>
      HO l ((fix go (l : list (string * Doc)) : Forall (fun p => P (snd p)) l :=
               match l with
               | [] => Forall_nil_2 _
               | x :: l' => Forall_cons_2 _ _ _ (Doc_nested_ind (snd x)) (go l')
               end) l)
  end.
End Doc_ind.

Module DocJson.
Definition leaf : Type := string + (Z + bool).

Fixpoint to_tree (d : Doc) : gen_tree leaf :=
  match d with
  | DStr s => GenLeaf (inl s)
  | DInt z => GenLeaf (inr (inl z))
  | DBool b => GenLeaf (inr (inr b))
  | DArr l => GenNode 0 (map to_tree l)
  | DObj l => GenNode 1 (map (fun p => GenNode 2 [GenLeaf (inl (fst p)); to_tree (snd p)]) l)
  end.

Fixpoint of_tree (t : gen_tree leaf) : Doc :=
  match t with
  | GenLeaf (inl s) => DStr s
  | GenLeaf (inr (inl z)) => DInt z
  | GenLeaf (inr (inr b)) => DBool b
  | GenNode 0 l => DArr (map of_tree l)
  | GenNode _ l =>
      DObj (map (fun t => match t with
                          | GenNode _ [GenLeaf (inl k); t'] => (k, of_tree t')
                          | _ => (EmptyString, DBool false)
                          end) l)
  end.

Lemma of_to_tree d : of_tree (to_tree d) = d.
Proof.
  induction d using Doc_nested_ind; simpl; [done..| |].
  - f_equal. rewrite map_map. induction H as [|x l Hx _ IH]; simpl; congruence.
  - f_equal. rewrite map_map. induction H as [|[k x] l Hx _ IH]; simpl in *; congruence.
Qed.

Fixpoint pos_text (p : positive) : string :=
  match p with
  | xH => EmptyString
  | xO q => String "0" (pos_text q)
  | xI q => String "1" (pos_text q)
  end.

Fixpoint text_pos (s : string) : positive :=
  match s with
  | EmptyString => xH
  | String c s' => if Ascii.eqb c "0" then xO (text_pos s') else xI (text_pos s')
  end.

Lemma text_pos_text p : text_pos (pos_text p) = p.
Proof. induction p; simpl; congruence. Qed.

Definition str (v : option Doc) : option string :=
  match v with Some (DStr s) => Some s | None => Some EmptyString | _ => None end.
Definition int (v : option Doc) : option Z :=
  match v with Some (DInt z) => Some z | None => Some 0 | _ => None end.
Definition in_range (lo hi : Z) (o : option Z) : option Z :=
  z ← o; if (lo <=? z) && (z <=? hi) then Some z else None.
#[local] Arguments in_range : simpl never.
Definition is_int (lo hi : Z) (v : option Doc) : bool :=
  match v with Some (DInt z) => (lo <=? z) && (z <=? hi) | _ => false end.

Lemma pos_text_no_nul p : has_char NUL (pos_text p) = false.
Proof. by induction p. Qed.

#[export] Instance lib : JsonLib := {|
  Value := option Doc;
  dump := fun d => pos_text (encode (to_tree d));
  load := fun s => (fun t => Some (of_tree t)) <$> decode (text_pos s);
  isObject := fun v => match v with Some (DObj _) => true | _ => false end;
  isArray := fun v => match v with Some (DArr _) => true | _ => false end;
  isString := fun v => match v with Some (DStr _) => true | _ => false end;
  isBool := fun v => match v with Some (DBool _) => true | _ => false end;
  isInt := is_int (- 2 ^ 31) INT32_MAX;
  isUInt64 := is_int 0 UINT64_MAX;
  get := fun v k => match v with Some (DObj l) => assoc k l | _ => None end;
  elements := fun v => match v with Some (DArr l) => map Some l | _ => [] end;
  asString := str;
  asBool := fun v => match v with Some (DBool b) => Some b | None => Some false | _ => None end;
  asInt := fun v => in_range (- 2 ^ 31) INT32_MAX (int v);
  asUInt := fun v => in_range 0 UINT32_MAX (int v);
  asUInt64 := fun v => in_range 0 UINT64_MAX (int v);
  |}.

Lemma in_range_ok lo hi z : lo <= z <= hi -> in_range lo hi (Some z) = Some z.
Proof. intros H. unfold in_range. simpl. by replace ((lo <=? z) && (z <=? hi)) with true by lia. Qed.

Lemma in_range_inv lo hi o z : in_range lo hi o = Some z -> lo <= z <= hi.
Proof.
  unfold in_range. destruct o as [y|]; simpl; [|done].
  destruct ((lo <=? y) && (y <=? hi)) eqn:E; [|done]. intros [= <-]. b2p. lia.
Qed.

#[export] Instance laws : JsonLaws.
Proof.
  refine {| reads := fun v d => v = Some d |}; simpl.
  - intros d. exists (Some d). split; [|done].
    rewrite text_pos_text, decode_encode. simpl. by rewrite of_to_tree.
  - intros d. apply pos_text_no_nul.
  - by intros v s ->.
  - by intros v b ->.
  - intros v z -> Hz. unfold is_u64, UINT64_MAX in *. cbn [int]. rewrite in_range_ok by lia.
    unfold is_int. split; [lia|done].
  - intros v z -> Hz. unfold is_u32, UINT32_MAX in *. cbn [int]. by rewrite in_range_ok by lia.
  - intros v z -> Hz. unfold INT32_MAX. cbn [int]. rewrite in_range_ok by lia.
    unfold is_int. split; [lia|done].
  - intros v l ->. split; [done|]. induction l; simpl; constructor; auto.
  - intros v l ->. split; [done|]. intros k d E. done.
  - intros [[| | | |]|]; simpl; done.
  - intros [[| | | |]|]; simpl; done.
  - intros [[|z| | |]|]; simpl; try done. intros H. exists z. b2p.
    unfold is_u64, UINT64_MAX in *. cbn [int]. rewrite in_range_ok by lia. split; [done|lia].
  - intros v z H%in_range_inv. unfold is_u64, UINT64_MAX in *. lia.
  - intros v z H%in_range_inv. unfold is_u32, UINT32_MAX in *. lia.
Defined.
End DocJson.
