(* ===== verification/Wire.v ===== *)
(** * The wire format (src/ipban/wire.h, src/ipban/wire.cpp)

    Reports, rules, snapshots, deltas and control messages as JSON documents.
    A decoder is [Parsed], [Rejected] (it returned false) or [Threw] (a jsoncpp
    conversion threw on the type of a field). *)

From S2P Require Import Prelude Ip InetText Rule Json.

#[local] Open Scope parsed_scope.

(** ** Data *)

Record DeltaOp := mkDeltaOp { op_del : bool; op_ruleId : string; op_rule : Rule }.

Record CtlPut := mkCtlPut {
  put_ip : Ip; put_action : Act; put_ttlMs : Z; put_reason : string }.

Record CtlRes := mkCtlRes {
  res_ok : bool; res_changed : bool; res_version : Z; res_id : string;
  res_error : string; res_rules : list Rule }.

(** [Ip{}] and [Rule{}]. *)
Definition no_ip : Ip := mkIp V4 32 (replicate 16 0).
Definition no_rule : Rule := mkRule "" no_ip DENY RATE 0 0 0 0 "".

Definition upsert_op (r : Rule) : DeltaOp := mkDeltaOp false (rule_id r) r.
Definition del_op (id : string) : DeltaOp := mkDeltaOp true id no_rule.

Section wire.
Context {IN : Inet} {JL : JsonLib}.

(** [ipStr] *)
Definition ipStr (ip : Ip) : string := ip_toString ip.

Definition riskSrcFromNode (j : Value) : parsed Src :=
  need (isString j) (
  s <- conv (asString j) ;;
  if String.eqb s "waf" then Parsed WAF
  else if String.eqb s "rate" then Parsed RATE
  else if String.eqb s "biz" then Parsed BIZ
  else Rejected).

Definition riskToJson (r : Risk) : string :=
  dump (DObj [("id", DStr (risk_id r)); ("ip", DStr (ipStr (risk_ip r)));
              ("src", DStr (srcName (risk_src r))); ("severity", DInt (risk_severity r));
              ("ban_ms", DInt (risk_banMs r)); ("at_ms", DInt (risk_atMs r));
              ("type", DInt (risk_type r)); ("reason", DStr (risk_reason r))]%string).

Definition riskFromJson (s : string) : parsed Risk :=
  j <- ask (load s) ;;
  need (isObject j) (
  id <- conv (asString (get j "id")) ;;
  ipt <- conv (asString (get j "ip")) ;;
  ip <- ask (parseCidr ipt) ;;
  src <- riskSrcFromNode (get j "src") ;;
  severity <- conv (asUInt (get j "severity")) ;;
  banMs <- conv (asUInt64 (get j "ban_ms")) ;;
  atMs <- conv (asUInt64 (get j "at_ms")) ;;
  type <- conv (asInt (get j "type")) ;;
  reason <- conv (asString (get j "reason")) ;;
  Parsed (mkRisk id ip src (wrap8 type) severity banMs atMs reason)).

Definition ruleToNode (r : Rule) : Doc :=
  DObj [("id", DStr (rule_id r)); ("ip", DStr (ipStr (rule_ip r)));
        ("action", DStr (actName (rule_action r))); ("src", DStr (srcName (rule_src r)));
        ("priority", DInt (rule_priority r)); ("created_ms", DInt (rule_createdAtMs r));
        ("expire_ms", DInt (rule_expireAtMs r)); ("version", DInt (rule_version r));
        ("reason", DStr (rule_reason r))]%string.

Definition actFromWire (action : string) : parsed Act :=
  if String.eqb action "allow" then Parsed ALLOW
  else if String.eqb action "deny" then Parsed DENY
  else Rejected.

Definition srcFromWire (src : string) : parsed Src :=
  if String.eqb src "waf" then Parsed WAF
  else if String.eqb src "rate" then Parsed RATE
  else if String.eqb src "biz" then Parsed BIZ
  else if String.eqb src "admin" then Parsed ADMIN
  else if String.eqb src "static" then Parsed STATIC
  else if String.eqb src "emerg" then Parsed EMERG
  else Rejected.

(** The sources that can only deny. *)
Definition deny_only (src : Src) : bool :=
  match src with WAF | RATE | BIZ | EMERG => true | ADMIN | STATIC => false end.

(** [if(!j[k].isString()) return false; ... j[k].asString()]. *)
Definition str_field (j : Value) (k : string) : parsed string :=
  need (isString (get j k)) (conv (asString (get j k))).
Definition u64_field (j : Value) (k : string) : parsed Z :=
  need (isUInt64 (get j k)) (conv (asUInt64 (get j k))).
Definition bool_field (j : Value) (k : string) : parsed bool :=
  need (isBool (get j k)) (conv (asBool (get j k))).

Definition ruleFromNode (j : Value) : parsed Rule :=
  need (isObject j) (
  id <- str_field j "id" ;;
  need (negb (String.eqb id "")) (
  ipt <- str_field j "ip" ;;
  ip <- ask (parseCidr ipt) ;;
  need (isString (get j "action") && isString (get j "src")) (
  actionName <- conv (asString (get j "action")) ;;
  source <- conv (asString (get j "src")) ;;
  action <- actFromWire actionName ;;
  src <- srcFromWire source ;;
  need (negb (deny_only src && negb (bool_decide (action = DENY)))) (
  need (isInt (get j "priority") && isUInt64 (get j "created_ms")
        && isUInt64 (get j "expire_ms") && isUInt64 (get j "version")
        && isString (get j "reason")) (
  createdAtMs <- conv (asUInt64 (get j "created_ms")) ;;
  expireAtMs <- conv (asUInt64 (get j "expire_ms")) ;;
  version <- conv (asUInt64 (get j "version")) ;;
  reason <- conv (asString (get j "reason")) ;;
  Parsed (mkRule id ip action src (rulePriority src action) createdAtMs expireAtMs
                 version reason)))))).

Definition ruleToJson (r : Rule) : string := dump (ruleToNode r).

Definition ruleFromJson (s : string) : parsed Rule :=
  j <- ask (load s) ;; ruleFromNode j.

Definition snapToJson (epoch version : Z) (rules : list Rule) : string :=
  dump (DObj [("epoch", DInt epoch); ("version", DInt version);
              ("rules", DArr (map ruleToNode rules))]%string).

(** The loop over the rules of a snapshot; [ids] holds the ids seen. *)
Fixpoint rulesFromNodes (ids : gset string) (l : list Value) : parsed (list Rule) :=
  match l with
  | [] => Parsed []
  | node :: l' =>
      r <- ruleFromNode node ;;
      need (negb (bool_decide (rule_id r ∈ ids))) (
      rs <- rulesFromNodes ({[rule_id r]} ∪ ids) l' ;;
      Parsed (r :: rs))
  end.

Definition snapFromJson (s : string) : parsed (Z * Z * list Rule) :=
  j <- ask (load s) ;;
  need (isObject j) (
  epoch <- conv (asUInt64 (get j "epoch")) ;;
  version <- conv (asUInt64 (get j "version")) ;;
  need (isArray (get j "rules")) (
  rules <- rulesFromNodes ∅ (elements (get j "rules")) ;;
  Parsed (epoch, version, rules))).

Definition helloToJson (instanceId : string) (epoch version : Z) : string :=
  dump (DObj [("instance", DStr instanceId); ("epoch", DInt epoch);
              ("version", DInt version)]%string).

Definition helloFromJson (s : string) : parsed (string * Z * Z) :=
  j <- ask (load s) ;;
  need (isObject j) (
  instanceId <- str_field j "instance" ;;
  need (negb (String.eqb instanceId "")) (
  epoch <- u64_field j "epoch" ;;
  version <- u64_field j "version" ;;
  Parsed (instanceId, epoch, version))).

Definition readyToJson (epoch version : Z) : string :=
  dump (DObj [("epoch", DInt epoch); ("version", DInt version)]%string).

Definition readyFromJson (s : string) : parsed (Z * Z) :=
  j <- ask (load s) ;;
  need (isObject j) (
  epoch <- u64_field j "epoch" ;;
  version <- u64_field j "version" ;;
  Parsed (epoch, version)).

Definition errToJson (code : string) : string := dump (DObj [("code", DStr code)]%string).

Definition errFromJson (s : string) : parsed string :=
  j <- ask (load s) ;;
  need (isObject j) (
  code <- str_field j "code" ;;
  need (negb (String.eqb code "")) (Parsed code)).

Definition opToNode (op : DeltaOp) : Doc :=
  if op_del op then DObj [("del", DBool true); ("id", DStr (op_ruleId op))]%string
  else DObj [("del", DBool false); ("rule", ruleToNode (op_rule op))]%string.

Definition deltaToJson (epoch prevVer newVer : Z) (ops : list DeltaOp) : string :=
  dump (DObj [("epoch", DInt epoch); ("prev", DInt prevVer); ("ver", DInt newVer);
              ("ops", DArr (map opToNode ops))]%string).

Definition opFromNode (o : Value) : parsed DeltaOp :=
  need (isObject o) (
  del <- bool_field o "del" ;;
  if del then
    id <- str_field o "id" ;;
    need (negb (String.eqb id "")) (Parsed (del_op id))
  else
    rule <- ruleFromNode (get o "rule") ;;
    Parsed (upsert_op rule)).

Definition deltaFromJson (s : string) : parsed (Z * Z * Z * list DeltaOp) :=
  j <- ask (load s) ;;
  need (isObject j) (
  epoch <- conv (asUInt64 (get j "epoch")) ;;
  prevVer <- conv (asUInt64 (get j "prev")) ;;
  newVer <- conv (asUInt64 (get j "ver")) ;;
  need (isArray (get j "ops")) (
  ops <- pmap opFromNode (elements (get j "ops")) ;;
  Parsed (epoch, prevVer, newVer, ops))).

Definition ctlPutToJson (p : CtlPut) : string :=
  dump (DObj [("ip", DStr (ipStr (put_ip p))); ("action", DStr (actName (put_action p)));
              ("ttl_ms", DInt (put_ttlMs p)); ("reason", DStr (put_reason p))]%string).

Definition ctlPutFromJson (s : string) : parsed CtlPut :=
  j <- ask (load s) ;;
  need (isObject j) (
  ipt <- str_field j "ip" ;;
  ip <- ask (parseCidr ipt) ;;
  actionName <- str_field j "action" ;;
  action <- actFromWire actionName ;;
  need (isUInt64 (get j "ttl_ms") && isString (get j "reason")) (
  ttlMs <- conv (asUInt64 (get j "ttl_ms")) ;;
  reason <- conv (asString (get j "reason")) ;;
  need (String.length reason <=? 256)%nat (Parsed (mkCtlPut ip action ttlMs reason)))).

Definition ctlDelToJson (id : string) : string := dump (DObj [("id", DStr id)]%string).

Definition ctlDelFromJson (s : string) : parsed string :=
  j <- ask (load s) ;;
  need (isObject j) (
  id <- str_field j "id" ;;
  need (negb (String.eqb id "") && (String.length id <=? 256)%nat) (Parsed id)).

Definition ctlResToJson (r : CtlRes) : string :=
  dump (DObj [("ok", DBool (res_ok r)); ("changed", DBool (res_changed r));
              ("version", DInt (res_version r)); ("id", DStr (res_id r));
              ("error", DStr (res_error r));
              ("rules", DArr (map ruleToNode (res_rules r)))]%string).

Definition ctlResFromJson (s : string) : parsed CtlRes :=
  j <- ask (load s) ;;
  need (isObject j) (
  need (isBool (get j "ok") && isBool (get j "changed") && isUInt64 (get j "version")
        && isString (get j "id") && isString (get j "error") && isArray (get j "rules")) (
  ok <- conv (asBool (get j "ok")) ;;
  changed <- conv (asBool (get j "changed")) ;;
  version <- conv (asUInt64 (get j "version")) ;;
  id <- conv (asString (get j "id")) ;;
  error <- conv (asString (get j "error")) ;;
  rules <- rulesFromNodes ∅ (elements (get j "rules")) ;;
  Parsed (mkCtlRes ok changed version id error rules))).
End wire.

(** ** Well-formed rules *)

(** What [ruleFromNode] lets through. *)
Definition wf_rule (r : Rule) : Prop :=
  rule_id r <> ""%string /\ canonical (rule_ip r) /\
  (deny_only (rule_src r) = true -> rule_action r = DENY) /\
  rule_priority r = rulePriority (rule_src r) (rule_action r) /\
  is_u64 (rule_createdAtMs r) /\ is_u64 (rule_expireAtMs r) /\ is_u64 (rule_version r).

#[global] Instance is_u64_dec z : Decision (is_u64 z).
Proof. unfold is_u64. apply _. Defined.
#[global] Instance wf_rule_dec r : Decision (wf_rule r).
Proof. unfold wf_rule. apply _. Defined.

(** Rules with pairwise distinct ids. *)
Definition distinct_ids (rs : list Rule) : Prop := NoDup (map rule_id rs).

(** ** Properties *)

Section wire_laws.
Context {IN : Inet} {IL : InetLaws} {JL : JsonLib} {JW : JsonLaws}.

(** Steps through the fields of an object that reads as a document [H]. *)
Ltac rd H k :=
  let F := fresh in
  pose proof (H k%string _ eq_refl) as F;
  first [ apply reads_str in F | apply reads_bool in F | apply reads_arr in F
        | apply reads_u64 in F; [|done] ];
  let A := fresh in let B := fresh in
  destruct F as [A B]; rewrite ?A, ?B; cbn [need conv ask pbind andb negb].

(** Inverts a decoder that returned. *)
Ltac undo :=
  repeat (match goal with
  | H : need ?b _ = Parsed _ |- _ =>
      let E := fresh "E" in destruct b eqn:E; cbn [need] in H; [|discriminate H]
  | H : pbind ?m _ = Parsed _ |- _ =>
      let E := fresh "E" in destruct m eqn:E; cbn [pbind] in H; [|discriminate H|discriminate H]
  | H : conv ?o = Parsed _ |- _ =>
      let E := fresh "E" in destruct o eqn:E; cbn [conv] in H; [|discriminate H]
  | H : ask ?o = Parsed _ |- _ =>
      let E := fresh "E" in destruct o eqn:E; cbn [ask] in H; [|discriminate H]
  end; simplify_eq).

Lemma ruleFromNode_wf j r : ruleFromNode j = Parsed r -> wf_rule r.
Proof.
  unfold ruleFromNode, str_field. intros H. undo.
  repeat match goal with
  | H : asUInt64 _ = Some _ |- _ => apply asUInt64_range in H
  | H : parseCidr _ = Some _ |- _ => apply parseCidr_ok in H
  end.
  b2p. unfold wf_rule; simpl. split_and!; try done.
  - match goal with H : String.eqb _ "" = false |- _ => by apply String.eqb_neq in H end.
  - intros Hd. match goal with H : deny_only _ && _ = false |- _ => rewrite Hd in H; simpl in H end.
    b2p. done.
Qed.

Lemma actFromWire_actName a : actFromWire (actName a) = Parsed a.
Proof. by destruct a. Qed.

Lemma srcFromWire_srcName s : srcFromWire (srcName s) = Parsed s.
Proof. by destruct s. Qed.

Lemma rulePriority_i32 s a : - 2 ^ 31 <= rulePriority s a < 2 ^ 31.
Proof. destruct s; simpl; try case_decide; lia. Qed.

Lemma ruleFromNode_ok j r : wf_rule r -> reads j (ruleToNode r) -> ruleFromNode j = Parsed r.
Proof.
  intros (Hid & Hip & Hda & Hp & Hc & He & Hv) Hj. apply reads_obj in Hj as [Ho Hf].
  unfold ruleFromNode, str_field. rewrite Ho. cbn [need].
  rd Hf "id". apply String.eqb_neq in Hid. rewrite Hid. cbn [need negb].
  rd Hf "ip". unfold ipStr. rewrite parseCidr_toString by done. cbn [ask pbind].
  rd Hf "action". rd Hf "src".
  rewrite actFromWire_actName, srcFromWire_srcName. cbn [pbind].
  assert (Hd : deny_only (rule_src r) && negb (bool_decide (rule_action r = DENY)) = false).
  { destruct (deny_only (rule_src r)); [|done]. by rewrite bool_decide_true by auto. }
  rewrite Hd. cbn [need negb].
  pose proof (Hf "priority"%string _ eq_refl) as Fp.
  apply reads_i32 in Fp as [Fp _]; [|rewrite Hp; apply rulePriority_i32]. rewrite Fp.
  rd Hf "created_ms". rd Hf "expire_ms". rd Hf "version". rd Hf "reason".
  rewrite <- Hp. by destruct r.
Qed.

Lemma rule_roundtrip r : wf_rule r -> ruleFromJson (ruleToJson r) = Parsed r.
Proof.
  intros Hw. unfold ruleFromJson, ruleToJson.
  destruct (load_dump (ruleToNode r)) as (j & -> & Hr). cbn [ask pbind].
  by apply ruleFromNode_ok.
Qed.

Lemma rulesFromNodes_wf ids l rs :
  rulesFromNodes ids l = Parsed rs ->
  Forall wf_rule rs /\ distinct_ids rs /\ (forall r, r ∈ rs -> rule_id r ∉ ids).
Proof.
  revert ids rs. induction l as [|x l IH]; intros ids rs H; cbn [rulesFromNodes] in H.
  - simplify_eq. split_and!; [constructor|constructor|by intros r ?%elem_of_nil].
  - undo. b2p.
    match goal with H : rulesFromNodes _ _ = _ |- _ => apply IH in H as (Hw & Hd & Hn) end.
    match goal with H : ruleFromNode _ = _ |- _ => apply ruleFromNode_wf in H end.
    split_and!.
    + by constructor.
    + unfold distinct_ids. simpl. constructor; [|done].
      intros Hin. apply list_elem_of_fmap in Hin as (r & Hr & Hin). apply (Hn r Hin). set_solver.
    + intros r Hr. apply elem_of_cons in Hr as [->|Hr]; [done|]. apply Hn in Hr. set_solver.
Qed.

Lemma rulesFromNodes_ok ids l rs :
  Forall wf_rule rs -> distinct_ids rs -> (forall r, r ∈ rs -> rule_id r ∉ ids) ->
  Forall2 reads l (map ruleToNode rs) -> rulesFromNodes ids l = Parsed rs.
Proof.
  intros Hw. revert ids l. induction Hw as [|r rs Hr Hw IH]; intros ids l Hd Hn Hl;
    inversion Hl; subst; cbn [rulesFromNodes]; [done|].
  rewrite (ruleFromNode_ok _ r) by done. cbn [pbind].
  rewrite bool_decide_false by (apply Hn; by left). cbn [need negb].
  unfold distinct_ids in Hd. simpl in Hd. apply NoDup_cons in Hd as [Hd1 Hd2].
  rewrite IH; [done|done| |done].
  intros s Hs. rewrite elem_of_union, elem_of_singleton. intros [E|E].
  - apply Hd1. rewrite <- E. by apply list_elem_of_fmap_2.
  - apply (Hn s); [by right|done].
Qed.

(** A snapshot that is accepted holds only valid rules (non-empty and
    distinct ids, canonical addresses, a deny from every source that may only
    deny, the priority of the table whatever the sender wrote) and [uint64]
    epoch and version. *)
Theorem snapFromJson_valid s epoch version rules :
  snapFromJson s = Parsed (epoch, version, rules) ->
  is_u64 epoch /\ is_u64 version /\ Forall wf_rule rules /\ distinct_ids rules.
Proof.
  unfold snapFromJson. intros H. undo.
  repeat match goal with H : asUInt64 _ = Some _ |- _ => apply asUInt64_range in H end.
  match goal with H : rulesFromNodes _ _ = _ |- _ => apply rulesFromNodes_wf in H end.
  tauto.
Qed.

(** A full snapshot survives the wire: what the gateway decodes is what the
    hub encoded. *)
Theorem snap_roundtrip epoch version rules :
  is_u64 epoch -> is_u64 version -> Forall wf_rule rules -> distinct_ids rules ->
  snapFromJson (snapToJson epoch version rules) = Parsed (epoch, version, rules).
Proof.
  intros He Hv Hw Hd. unfold snapFromJson, snapToJson.
  destruct (load_dump (DObj [("epoch", DInt epoch); ("version", DInt version);
    ("rules", DArr (map ruleToNode rules))]%string)) as (v & -> & Hr).
  cbn [ask pbind]. apply reads_obj in Hr as [Ho Hf]. rewrite Ho. cbn [need].
  rd Hf "epoch". rd Hf "version". rd Hf "rules".
  by rewrite (rulesFromNodes_ok _ _ rules) by done.
Qed.

(** The operations the hub sends: a deletion by id, or a valid rule under its id. *)
Definition wf_op (op : DeltaOp) : Prop :=
  if op_del op then op_ruleId op <> ""%string /\ op = del_op (op_ruleId op)
  else wf_rule (op_rule op) /\ op = upsert_op (op_rule op).

Lemma opFromNode_ok o op : wf_op op -> reads o (opToNode op) -> opFromNode o = Parsed op.
Proof.
  unfold wf_op, opToNode, opFromNode, bool_field, str_field.
  destruct (op_del op) eqn:E; intros [Hw Hop] Hr; apply reads_obj in Hr as [Ho Hf];
    rewrite Ho; cbn [need]; rd Hf "del".
  - rd Hf "id". apply String.eqb_neq in Hw. rewrite Hw. by rewrite Hop at 2.
  - rewrite (ruleFromNode_ok _ (op_rule op)) by (done || by apply (Hf "rule"%string)).
    cbn [pbind]. by rewrite Hop at 2.
Qed.

Lemma opFromNode_wf o op : opFromNode o = Parsed op -> wf_op op.
Proof.
  unfold opFromNode, bool_field, str_field. intros H. undo.
  match goal with H : (if ?b then _ else _) = _ |- _ => destruct b end; undo; unfold wf_op; simpl.
  - b2p. match goal with H : String.eqb _ "" = false |- _ => apply String.eqb_neq in H end. done.
  - match goal with H : ruleFromNode _ = _ |- _ => apply ruleFromNode_wf in H end. done.
Qed.

(** An increment survives the wire. *)
Theorem delta_roundtrip epoch prevVer newVer ops :
  is_u64 epoch -> is_u64 prevVer -> is_u64 newVer -> Forall wf_op ops ->
  deltaFromJson (deltaToJson epoch prevVer newVer ops) = Parsed (epoch, prevVer, newVer, ops).
Proof.
  intros He Hp Hv Hw. rewrite Forall_forall in Hw. unfold deltaFromJson, deltaToJson.
  destruct (load_dump (DObj [("epoch", DInt epoch); ("prev", DInt prevVer);
    ("ver", DInt newVer); ("ops", DArr (map opToNode ops))]%string)) as (v & -> & Hr).
  cbn [ask pbind]. apply reads_obj in Hr as [Ho Hf]. rewrite Ho. cbn [need].
  rd Hf "epoch". rd Hf "prev". rd Hf "ver". rd Hf "ops".
  rewrite (pmap_roundtrip opFromNode reads opToNode _ ops); [done| |done].
  intros x op Hop. apply opFromNode_ok. auto.
Qed.

Lemma deltaFromJson_valid s epoch prevVer newVer ops :
  deltaFromJson s = Parsed (epoch, prevVer, newVer, ops) ->
  is_u64 epoch /\ is_u64 prevVer /\ is_u64 newVer /\ Forall wf_op ops.
Proof.
  unfold deltaFromJson. intros H. undo.
  repeat match goal with H : asUInt64 _ = Some _ |- _ => apply asUInt64_range in H end.
  split_and!; [done..|]. eapply pmap_forall; [|done]. apply opFromNode_wf.
Qed.

(** The sources a report may name. *)
Definition reporter_src (s : Src) : bool :=
  match s with WAF | RATE | BIZ => true | _ => false end.

Definition wf_risk (r : Risk) : Prop :=
  canonical (risk_ip r) /\ reporter_src (risk_src r) = true /\ is_u8 (risk_type r) /\
  is_u32 (risk_severity r) /\ is_u64 (risk_banMs r) /\ is_u64 (risk_atMs r).

Lemma riskSrcFromNode_reporter j src :
  riskSrcFromNode j = Parsed src -> reporter_src src = true.
Proof. unfold riskSrcFromNode. intros H. undo. cases; done. Qed.

Lemma ctlPut_wf s p : ctlPutFromJson s = Parsed p -> canonical (put_ip p) /\ is_u64 (put_ttlMs p).
Proof.
  unfold ctlPutFromJson. intros H. undo. cbn.
  repeat match goal with
  | H : asUInt64 _ = Some _ |- _ => apply asUInt64_range in H
  | H : parseCidr _ = Some _ |- _ => apply parseCidr_ok in H
  end. done.
Qed.

(** The submit protocol cannot forge authority: a report that is accepted
    names one of the three reporting sources (never admin, static or
    emergency), a canonical address and numbers of their widths; the rule it
    leads to is a deny of a priority below every administrative one. *)
Theorem riskFromJson_no_forgery s r now :
  riskFromJson s = Parsed r ->
  wf_risk r /\ rule_action (ruleFromRisk r now) = DENY /\
  rule_priority (ruleFromRisk r now) < rulePriority STATIC ALLOW /\
  rule_priority (ruleFromRisk r now) < rulePriority ADMIN ALLOW.
Proof.
  unfold riskFromJson. intros H. undo.
  repeat match goal with
  | H : asUInt64 _ = Some _ |- _ => apply asUInt64_range in H
  | H : asUInt _ = Some _ |- _ => apply asUInt_range in H
  | H : parseCidr _ = Some _ |- _ => apply parseCidr_ok in H
  end.
  match goal with H : riskSrcFromNode _ = Parsed ?src |- _ =>
    apply riskSrcFromNode_reporter in H; rename H into Hs end.
  split.
  - unfold wf_risk; simpl. split_and!; try done; unfold wrap8; apply Z.mod_pos_bound; lia.
  - simpl. match type of Hs with reporter_src ?src = _ => by destruct src end.
Qed.

Lemma risk_roundtrip r : wf_risk r -> riskFromJson (riskToJson r) = Parsed r.
Proof.
  intros (Hc & Hs & Ht & Hsev & Hb & Ha). unfold riskFromJson, riskToJson.
  destruct (load_dump (DObj [("id", DStr (risk_id r)); ("ip", DStr (ipStr (risk_ip r)));
              ("src", DStr (srcName (risk_src r))); ("severity", DInt (risk_severity r));
              ("ban_ms", DInt (risk_banMs r)); ("at_ms", DInt (risk_atMs r));
              ("type", DInt (risk_type r)); ("reason", DStr (risk_reason r))]%string))
    as (v & -> & Hr).
  cbn [ask pbind]. apply reads_obj in Hr as [Ho Hf]. rewrite Ho. cbn [need].
  rd Hf "id". rd Hf "ip". unfold ipStr. rewrite parseCidr_toString by done. cbn [ask pbind].
  unfold riskSrcFromNode. rd Hf "src".
  assert (Hsrc : (if String.eqb (srcName (risk_src r)) "waf" then Parsed WAF
    else if String.eqb (srcName (risk_src r)) "rate" then Parsed RATE
    else if String.eqb (srcName (risk_src r)) "biz" then Parsed BIZ else Rejected)
    = Parsed (risk_src r)) by (by destruct (risk_src r)).
  rewrite Hsrc. cbn [pbind].
  pose proof (Hf "severity"%string _ eq_refl) as Fs. apply reads_u32 in Fs; [|done]. rewrite Fs.
  cbn [conv pbind]. rd Hf "ban_ms". rd Hf "at_ms".
  pose proof (Hf "type"%string _ eq_refl) as Ft.
  unfold is_u8 in Ht. apply reads_i32 in Ft as [_ Ft]; [|lia]. rewrite Ft. cbn [conv pbind].
  rd Hf "reason". unfold wrap8. rewrite Z.mod_small by lia. by destruct r.
Qed.

Lemma hello_roundtrip i e v :
  i <> ""%string -> is_u64 e -> is_u64 v -> helloFromJson (helloToJson i e v) = Parsed (i, e, v).
Proof.
  intros Hi He Hv. unfold helloFromJson, helloToJson, str_field, u64_field.
  destruct (load_dump (DObj [("instance", DStr i); ("epoch", DInt e);
              ("version", DInt v)]%string)) as (j & -> & Hr).
  cbn [ask pbind]. apply reads_obj in Hr as [Ho Hf]. rewrite Ho. cbn [need].
  rd Hf "instance". apply String.eqb_neq in Hi. rewrite Hi. cbn [need negb].
  rd Hf "epoch". by rd Hf "version".
Qed.

Lemma ready_roundtrip e v :
  is_u64 e -> is_u64 v -> readyFromJson (readyToJson e v) = Parsed (e, v).
Proof.
  intros He Hv. unfold readyFromJson, readyToJson, u64_field.
  destruct (load_dump (DObj [("epoch", DInt e); ("version", DInt v)]%string)) as (j & -> & Hr).
  cbn [ask pbind]. apply reads_obj in Hr as [Ho Hf]. rewrite Ho. cbn [need].
  rd Hf "epoch". by rd Hf "version".
Qed.

Lemma err_roundtrip c : c <> ""%string -> errFromJson (errToJson c) = Parsed c.
Proof.
  intros Hc. unfold errFromJson, errToJson, str_field.
  destruct (load_dump (DObj [("code", DStr c)]%string)) as (j & -> & Hr).
  cbn [ask pbind]. apply reads_obj in Hr as [Ho Hf]. rewrite Ho. cbn [need].
  rd Hf "code". apply String.eqb_neq in Hc. by rewrite Hc.
Qed.

Lemma ctlPut_roundtrip p :
  canonical (put_ip p) -> is_u64 (put_ttlMs p) -> (String.length (put_reason p) <= 256)%nat ->
  ctlPutFromJson (ctlPutToJson p) = Parsed p.
Proof.
  intros Hc Ht Hl. unfold ctlPutFromJson, ctlPutToJson, str_field.
  destruct (load_dump (DObj [("ip", DStr (ipStr (put_ip p)));
    ("action", DStr (actName (put_action p)));
    ("ttl_ms", DInt (put_ttlMs p)); ("reason", DStr (put_reason p))]%string)) as (j & -> & Hr).
  cbn [ask pbind]. apply reads_obj in Hr as [Ho Hf]. rewrite Ho. cbn [need].
  rd Hf "ip". unfold ipStr. rewrite parseCidr_toString by done. cbn [ask pbind].
  rd Hf "action". rewrite actFromWire_actName. cbn [pbind].
  rd Hf "ttl_ms". rd Hf "reason". apply Nat.leb_le in Hl. rewrite Hl. by destruct p.
Qed.

Lemma ctlDel_roundtrip id :
  id <> ""%string -> (String.length id <= 256)%nat -> ctlDelFromJson (ctlDelToJson id) = Parsed id.
Proof.
  intros Hi Hl. unfold ctlDelFromJson, ctlDelToJson, str_field.
  destruct (load_dump (DObj [("id", DStr id)]%string)) as (j & -> & Hr).
  cbn [ask pbind]. apply reads_obj in Hr as [Ho Hf]. rewrite Ho. cbn [need].
  rd Hf "id". apply String.eqb_neq in Hi. apply Nat.leb_le in Hl. by rewrite Hi, Hl.
Qed.

Lemma ctlRes_roundtrip r :
  is_u64 (res_version r) -> Forall wf_rule (res_rules r) -> distinct_ids (res_rules r) ->
  ctlResFromJson (ctlResToJson r) = Parsed r.
Proof.
  intros Hv Hw Hd. unfold ctlResFromJson, ctlResToJson.
  destruct (load_dump (DObj [("ok", DBool (res_ok r)); ("changed", DBool (res_changed r));
              ("version", DInt (res_version r)); ("id", DStr (res_id r));
              ("error", DStr (res_error r));
              ("rules", DArr (map ruleToNode (res_rules r)))]%string)) as (j & -> & Hr).
  cbn [ask pbind]. apply reads_obj in Hr as [Ho Hf]. rewrite Ho. cbn [need].
  rd Hf "ok". rd Hf "changed". rd Hf "version". rd Hf "id". rd Hf "error". rd Hf "rules".
  rewrite (rulesFromNodes_ok _ _ (res_rules r)) by done. by destruct r.
Qed.
End wire_laws.

(** ** On concrete messages *)

Import DocJson.

Section wire_examples.
Definition rule_a : Rule := mkRule "waf:10.0.0.0/8" net10 DENY WAF 600 5 0 1 "scan".
Definition rule_b : Rule := mkRule "admin:10.1.2.3" host10 ALLOW ADMIN 800 6 99 2 "ops".
Definition risk_a : Risk := mkRisk "r1" host10 WAF SCAN 3 60000 17 "sqli".

Lemma example_rules_wf : Forall wf_rule [rule_a; rule_b] /\ distinct_ids [rule_a; rule_b].
Proof. unfold distinct_ids. split; by apply (bool_decide_unpack _); vm_compute. Qed.

Lemma u64_small z : 0 <= z < 1000 -> is_u64 z.
Proof. unfold is_u64. lia. Qed.
End wire_examples.

Lemma snap_roundtrip_witness :
  snapFromJson (snapToJson 5 9 [rule_a; rule_b]) = Parsed (5, 9, [rule_a; rule_b]).
Proof.
  destruct example_rules_wf as [A B].
  apply snap_roundtrip; [apply u64_small; lia|apply u64_small; lia|exact A|exact B].
Defined.

Lemma snapFromJson_valid_witness :
  exists s, snapFromJson s = Parsed (5, 9, [rule_a; rule_b]) /\ Forall wf_rule [rule_a; rule_b].
Proof.
  assert (E : snapFromJson (snapToJson 5 9 [rule_a; rule_b]) = Parsed (5, 9, [rule_a; rule_b]))
    by (vm_compute; reflexivity).
  exists (snapToJson 5 9 [rule_a; rule_b]). split; [exact E|].
  exact (proj1 (proj2 (proj2 (snapFromJson_valid _ _ _ _ E)))).
Defined.

Lemma delta_roundtrip_witness :
  deltaFromJson (deltaToJson 5 8 9 [upsert_op rule_a; del_op "admin:10.1.2.3"])
  = Parsed (5, 8, 9, [upsert_op rule_a; del_op "admin:10.1.2.3"]).
Proof.
  assert (A : wf_rule rule_a) by (apply (bool_decide_unpack _); vm_compute; exact I).
  apply delta_roundtrip; [apply u64_small; lia..|].
  constructor; [split; [exact A|reflexivity]|constructor; [|constructor]].
  split; [discriminate|reflexivity].
Defined.

Lemma riskFromJson_no_forgery_witness :
  riskFromJson (riskToJson risk_a) = Parsed risk_a /\ wf_risk risk_a.
Proof.
  assert (E : riskFromJson (riskToJson risk_a) = Parsed risk_a) by (vm_compute; reflexivity).
  split; [exact E|]. exact (proj1 (riskFromJson_no_forgery _ _ 0 E)).
Defined.
