(* ===== verification/Guard.v ===== *)
(** * The gateway's ledger of rules (src/ipban/guard.h, src/ipban/guard.cpp)

    Static rules (configuration) and remote rules (the hub) are kept apart; every
    update recompiles the snapshot the request path reads. The operations hold
    the mutex from start to end, so each is one step; the clock value an
    operation reads is an argument. *)

From S2P Require Import Prelude Ip InetText Rule Snap Json Wire.

(** ** State *)

Record StaticPolicy := mkStaticPolicy {
  sp_enabled : bool; sp_def : Act; sp_rules : list Rule }.

Record Guard := mkGuard {
  g_snap : Snap;
  g_staticEnabled : bool;
  g_remoteEnabled : bool;
  g_default : Act;
  g_static : list Rule;
  g_remote : gmap string Rule;
  g_remoteVer : Z;
  g_remoteEpoch : Z;
  g_snapVer : Z;
  g_nextExpiry : Z;
}.

(** ** Operations *)

(** The remote rules in the iteration order of the hash table, which is not
    specified: any order will do, see [snap_eval_reference]. *)
Definition remote_rules (m : gmap string Rule) : list Rule := (map_to_list m).*2.

Definition g_rules (g : Guard) : list Rule := g_static g ++ remote_rules (g_remote g).

(** The deadline [exp] against the best so far, 0 being none. *)
Definition consider (best exp : Z) : Z :=
  if exp =? 0 then best
  else if (best =? 0) || (exp <? best) then exp else best.

Definition nextExpiryLocked (g : Guard) : Z :=
  fold_left consider (map rule_expireAtMs (g_rules g)) 0.

Definition with_default (g : Guard) (a : Act) : Guard :=
  mkGuard (g_snap g) (g_staticEnabled g) (g_remoteEnabled g) a (g_static g) (g_remote g)
          (g_remoteVer g) (g_remoteEpoch g) (g_snapVer g) (g_nextExpiry g).
Definition with_static (g : Guard) (rs : list Rule) : Guard :=
  mkGuard (g_snap g) (g_staticEnabled g) (g_remoteEnabled g) (g_default g) rs (g_remote g)
          (g_remoteVer g) (g_remoteEpoch g) (g_snapVer g) (g_nextExpiry g).
Definition with_remote (g : Guard) (m : gmap string Rule) (ver epoch : Z) : Guard :=
  mkGuard (g_snap g) (g_staticEnabled g) (g_remoteEnabled g) (g_default g) (g_static g) m
          ver epoch (g_snapVer g) (g_nextExpiry g).

Definition setEnabled (g : Guard) (v : bool) : Guard :=
  mkGuard (g_snap g) v (g_remoteEnabled g) (g_default g) (g_static g) (g_remote g)
          (g_remoteVer g) (g_remoteEpoch g) (g_snapVer g) (g_nextExpiry g).
Definition setRemoteEnabled (g : Guard) (v : bool) : Guard :=
  mkGuard (g_snap g) (g_staticEnabled g) v (g_default g) (g_static g) (g_remote g)
          (g_remoteVer g) (g_remoteEpoch g) (g_snapVer g) (g_nextExpiry g).
Definition enabled (g : Guard) : bool := g_staticEnabled g || g_remoteEnabled g.

Section guard.
Context {SS : StdSort}.

(** [Guard::Guard]. *)
Definition guard_init : Guard :=
  mkGuard (compileSnap 0 ALLOW [] 0) false false ALLOW [] ∅ 0 0 0 0.

Definition guard_eval (g : Guard) (ip : Ip) (nowMs : Z) : Verdict :=
  if negb (enabled g) then mkVerdict ALLOW false "" STATIC 0 ""
  else snap_eval (g_snap g) ip nowMs.

Definition rebuildLocked (nowMs : Z) (g : Guard) : Guard :=
  let ver := wrap64 (g_snapVer g + 1) in
  mkGuard (compileSnap ver (g_default g) (g_rules g) nowMs)
          (g_staticEnabled g) (g_remoteEnabled g) (g_default g) (g_static g) (g_remote g)
          (g_remoteVer g) (g_remoteEpoch g) ver (nextExpiryLocked g).

Definition setDefaultAction (nowMs : Z) (a : Act) (g : Guard) : Guard :=
  rebuildLocked nowMs (with_default g a).

Definition setStatic (nowMs : Z) (rules : list Rule) (g : Guard) : Guard :=
  rebuildLocked nowMs (with_static g rules).

Definition applyStatic (nowMs : Z) (def : Act) (rules : list Rule) (g : Guard) : Guard :=
  rebuildLocked nowMs (with_static (with_default g def) rules).

Definition applyStaticPolicy (nowMs : Z) (p : StaticPolicy) (g : Guard) : Guard :=
  setEnabled (rebuildLocked nowMs (with_static (with_default g (sp_def p)) (sp_rules p)))
             (sp_enabled p).

(** [m_remote.clear(); for(r : rules) if(!r.id.empty()) m_remote[r.id] = r;]. *)
Definition remote_of (rules : list Rule) : gmap string Rule :=
  fold_left (fun m r => if String.eqb (rule_id r) "" then m else <[rule_id r := r]> m) rules ∅.

Definition applyRemote (nowMs epoch version : Z) (rules : list Rule) (g : Guard) : bool * Guard :=
  let sameEpoch := g_remoteEpoch g =? epoch in
  if sameEpoch && (version <=? g_remoteVer g) then (false, g)
  else (true, rebuildLocked nowMs (with_remote g (remote_of rules) version epoch)).

Definition apply_op (m : gmap string Rule) (op : DeltaOp) : gmap string Rule :=
  if op_del op then delete (op_ruleId op) m else <[op_ruleId op := op_rule op]> m.

(** [applyDelta] refuses the whole increment when one operation is malformed. *)
Definition op_ok (op : DeltaOp) : bool :=
  negb (String.eqb (op_ruleId op) "")
  && (op_del op || String.eqb (rule_id (op_rule op)) (op_ruleId op)).

Definition applyDelta (nowMs epoch prevVer newVer : Z) (ops : list DeltaOp) (g : Guard)
    : bool * Guard :=
  if negb (g_remoteEpoch g =? epoch) then (false, g)
  else if negb (g_remoteVer g =? prevVer) then (false, g)
  else if newVer <=? prevVer then (false, g)
  else if negb (forallb op_ok ops) then (false, g)
  else (true, rebuildLocked nowMs
                (with_remote g (fold_left apply_op ops (g_remote g)) newVer (g_remoteEpoch g))).

Definition gone (nowMs : Z) (r : Rule) : bool :=
  negb (rule_expireAtMs r =? 0) && (rule_expireAtMs r <=? nowMs).

(** [nowMs] is the clock [tickExpiry] reads, [nowMs'] the one [rebuildLocked]
    reads after it. *)
Definition guard_tickExpiry (nowMs nowMs' : Z) (g : Guard) : bool * Guard :=
  if g_nextExpiry g =? 0 then (false, g)
  else if nowMs <? g_nextExpiry g then (false, g)
  else
    let st := List.filter (fun r => negb (gone nowMs r)) (g_static g) in
    let re := filter (fun kv => gone nowMs kv.2 = false) (g_remote g) in
    (true, rebuildLocked nowMs'
             (with_remote (with_static g st) re (g_remoteVer g) (g_remoteEpoch g))).

Definition staticCount (g : Guard) : nat := length (g_static g).
Definition remoteCount (g : Guard) : nat := size (g_remote g).
End guard.

(** ** Static rules from the configuration *)

Record StaticFilterCfg := mkStaticFilterCfg {
  sf_enabled : bool; sf_mode : string; sf_cidrs : list string }.

Section static_cfg.
Context {IN : Inet}.

Definition static_rule (allow : bool) (n : Z) (ip : Ip) : Rule :=
  let a := if allow then ALLOW else DENY in
  mkRule ("static-" ++ to_string n) ip a STATIC (rulePriority STATIC a) 0 0 0
         "static ip_filter".

(** The loop over the configured networks: the rules and how many were skipped. *)
Fixpoint static_loop (allow : bool) (n : Z) (cidrs : list string) : list Rule * nat :=
  match cidrs with
  | [] => ([], O)
  | c :: rest =>
      match parseCidr c with
      | None => let '(rs, k) := static_loop allow n rest in (rs, S k)
      | Some ip => let '(rs, k) := static_loop allow (n + 1) rest in (static_rule allow n ip :: rs, k)
      end
  end.

(** The rules, the default action and the number of skipped networks. *)
Definition staticRulesFromCfg (cfg : StaticFilterCfg) : list Rule * Act * nat :=
  if negb (sf_enabled cfg) then ([], ALLOW, O)
  else
    let allow := String.eqb (sf_mode cfg) "allowlist" in
    let '(rs, k) := static_loop allow 0 (sf_cidrs cfg) in
    (rs, if allow then DENY else ALLOW, k).
End static_cfg.

(** ** The operations as steps *)

Inductive guard_op :=
| GSetEnabled (v : bool)
| GSetRemoteEnabled (v : bool)
| GSetDefaultAction (a : Act)
| GSetStatic (rules : list Rule)
| GApplyStatic (def : Act) (rules : list Rule)
| GApplyPolicy (p : StaticPolicy)
| GApplyRemote (epoch version : Z) (rules : list Rule)
| GApplyDelta (epoch prevVer newVer : Z) (ops : list DeltaOp)
| GTick.

(** The rules an operation brings are valid: they come from [staticRulesFromCfg]
    or from the decoders of Wire.v. *)
Definition op_rules_ok (op : guard_op) : Prop :=
  match op with
  | GSetStatic rs | GApplyStatic _ rs | GApplyRemote _ _ rs => Forall (fun r => wf_ip (rule_ip r)) rs
  | GApplyPolicy p => Forall (fun r => wf_ip (rule_ip r)) (sp_rules p)
  | GApplyDelta _ _ _ ops => Forall (fun o => op_del o = false -> wf_ip (rule_ip (op_rule o))) ops
  | _ => True
  end.

Section guard_runs.
Context {SS : StdSort}.

Definition guard_do (now : Z) (op : guard_op) (g : Guard) : Guard :=
  match op with
  | GSetEnabled v => setEnabled g v
  | GSetRemoteEnabled v => setRemoteEnabled g v
  | GSetDefaultAction a => setDefaultAction now a g
  | GSetStatic rs => setStatic now rs g
  | GApplyStatic d rs => applyStatic now d rs g
  | GApplyPolicy p => applyStaticPolicy now p g
  | GApplyRemote e v rs => (applyRemote now e v rs g).2
  | GApplyDelta e p n ops => (applyDelta now e p n ops g).2
  | GTick => (guard_tickExpiry now now g).2
  end.

(** Guards reachable by time [now] with a clock that does not go back. *)
Inductive guard_reach : Z -> Guard -> Prop :=
  | gr_init now : 0 <= now -> guard_reach now guard_init
  | gr_step now now' op g :
    guard_reach now g -> now <= now' -> op_rules_ok op ->
    guard_reach now' (guard_do now' op g).
End guard_runs.

(** ** Properties *)

Lemma fold_consider l b :
  0 <= b -> Forall (fun x => 0 <= x) l ->
  let m := fold_left consider l b in
  0 <= m /\ (m = 0 <-> b = 0 /\ Forall (fun x => x = 0) l) /\
  (forall x, x <> 0 -> x = b \/ x ∈ l -> m <> 0 /\ m <= x).
Proof.
  revert b. induction l as [|x l IH]; intros b Hb Hl; simpl.
  - split; [done|]. split; [split; [by intros ->|by intros [-> _]]|].
    intros x Hx [->|[]%elem_of_nil]. lia.
  - inversion Hl as [|?? Hx Hl']; subst.
    assert (Hc : 0 <= consider b x /\ (consider b x = 0 <-> b = 0 /\ x = 0) /\
      (b <> 0 -> consider b x <= b) /\ (x <> 0 -> consider b x <= x)).
    { unfold consider. destruct (x =? 0) eqn:E1, (b =? 0) eqn:E2, (x <? b) eqn:E3; simpl; b2p; lia. }
    destruct (IH (consider b x) (proj1 Hc) Hl') as (H0 & H1 & H2). split; [done|]. split.
    + rewrite H1, Forall_cons. destruct Hc as (_ & -> & _). tauto.
    + intros y Hy Hin. rewrite elem_of_cons in Hin.
      assert (Hcase : y = b \/ y = x \/ y ∈ l) by tauto.
      destruct Hcase as [->|[->|Hin']].
      * destruct (H2 (consider b x)) as [Ha Hb']; [lia|by left|]. lia.
      * destruct (H2 (consider b x)) as [Ha Hb']; [lia|by left|]. lia.
      * apply H2; [done|by right].
Qed.

(** The rules' deadlines are [uint64]. *)
Definition deadlines_ok (g : Guard) : Prop := Forall (fun r => 0 <= rule_expireAtMs r) (g_rules g).

Lemma nextExpiry_none g now :
  deadlines_ok g -> nextExpiryLocked g = 0 \/ now < nextExpiryLocked g ->
  Forall (fun r => gone now r = false) (g_rules g).
Proof.
  intros Hd Hn. apply Forall_forall. intros r Hr. unfold gone.
  destruct (rule_expireAtMs r =? 0) eqn:E; [done|]. b2p. simpl.
  assert (Hl : Forall (fun x => 0 <= x) (map rule_expireAtMs (g_rules g)))
    by (by apply Forall_map).
  destruct (fold_consider (map rule_expireAtMs (g_rules g)) 0 ltac:(lia) Hl) as (_ & _ & H).
  fold (nextExpiryLocked g) in H.
  destruct (H (rule_expireAtMs r) E) as [H1 H2]; [right; by apply list_elem_of_fmap_2|].
  apply Z.leb_gt. lia.
Qed.

Lemma elem_of_remote_rules m r : r ∈ remote_rules m <-> exists k, m !! k = Some r.
Proof.
  unfold remote_rules. rewrite list_elem_of_fmap. split.
  - intros ([k r'] & -> & H). exists k. by apply elem_of_map_to_list.
  - intros [k H]. exists (k, r). split; [done|]. by apply elem_of_map_to_list.
Qed.

Lemma Forall_remote_rules (P : Rule -> Prop) m :
  Forall P (remote_rules m) <-> map_Forall (fun _ r => P r) m.
Proof.
  rewrite Forall_forall. unfold map_Forall. split.
  - intros H k r Hk. apply H, elem_of_remote_rules. by exists k.
  - intros H r [k Hk]%elem_of_remote_rules. by apply (H k).
Qed.

Section guard_props.
Context {SS : StdSort}.

(** The snapshot is the compilation of the current rules at some time up to
    now, and the next deadline is that of the current rules. *)
Definition guard_inv (now : Z) (g : Guard) : Prop :=
  (exists t, 0 <= t <= now /\
     g_snap g = compileSnap (g_snapVer g) (g_default g) (g_rules g) t) /\
  g_nextExpiry g = nextExpiryLocked g /\
  Forall (fun r => wf_ip (rule_ip r)) (g_rules g).

Lemma rebuild_inv now g :
  0 <= now -> Forall (fun r => wf_ip (rule_ip r)) (g_rules g) -> guard_inv now (rebuildLocked now g).
Proof. intros Hn Hw. split; [|done]. exists now. split; [lia|done]. Qed.

Lemma guard_inv_later now now' g : now <= now' -> guard_inv now g -> guard_inv now' g.
Proof. intros Hn [(t & Ht & E) H]. split; [|done]. exists t. split; [lia|done]. Qed.

Lemma remote_of_wf rules (P : Rule -> Prop) :
  Forall P rules -> map_Forall (fun _ r => P r) (remote_of rules).
Proof.
  unfold remote_of. intros H.
  assert (G : forall m : gmap string Rule, map_Forall (fun _ r => P r) m -> map_Forall (fun _ r => P r)
    (fold_left (fun m r => if String.eqb (rule_id r) "" then m else <[rule_id r := r]> m) rules m));
    [|by apply G, map_Forall_empty].
  induction H as [|r rules Hr _ IH]; intros m Hm; simpl; [done|]. apply IH.
  destruct (String.eqb (rule_id r) ""); [done|]. by apply map_Forall_insert_2.
Qed.

Lemma apply_ops_wf (P : Rule -> Prop) ops m :
  Forall (fun o => op_del o = false -> P (op_rule o)) ops -> map_Forall (fun _ r => P r) m ->
  map_Forall (fun _ r => P r) (fold_left apply_op ops m).
Proof.
  intros H. revert m. induction H as [|o ops Ho _ IH]; intros m Hm; simpl; [done|].
  apply IH. unfold apply_op. destruct (op_del o).
  - by apply map_Forall_delete.
  - apply map_Forall_insert_2; auto.
Qed.

(** Whatever the sequence of updates and ticks, the published snapshot is the
    compilation of the rules the ledger holds (static and remote) with its
    default action, and the precomputed next deadline is that of those rules. *)
Theorem guard_snapshot_current now g : guard_reach now g -> guard_inv now g.
Proof.
  induction 1 as [now Hn|now now' op g Hr IH Hle Hok].
  { split; [exists 0; split; [lia|done]|]. split; [done|]. simpl. constructor. }
  assert (Hn : 0 <= now') by (destruct IH as [(t & Ht & _) _]; lia).
  pose proof (guard_inv_later _ _ _ Hle IH) as Hi.
  destruct IH as (_ & _ & Hw). unfold g_rules in Hw. apply Forall_app in Hw as [Ws Wr].
  rewrite Forall_remote_rules in Wr.
  assert (Hre : forall g', Forall (fun r => wf_ip (rule_ip r)) (g_static g') ->
    map_Forall (fun _ r => wf_ip (rule_ip r)) (g_remote g') -> guard_inv now' (rebuildLocked now' g')).
  { intros g' H1 H2. apply rebuild_inv; [done|]. apply Forall_app.
    by rewrite Forall_remote_rules. }
  destruct op; cbn [guard_do op_rules_ok] in *.
  - exact Hi.
  - exact Hi.
  - by apply Hre.
  - by apply Hre.
  - by apply Hre.
  - by apply Hre.
  - unfold applyRemote. destruct (_ && _); [exact Hi|]. apply Hre; [done|].
    by apply remote_of_wf.
  - unfold applyDelta. repeat case_match; try exact Hi. apply Hre; [done|].
    by apply apply_ops_wf.
  - unfold guard_tickExpiry. repeat case_match; try exact Hi. apply Hre.
    + simpl. apply Forall_forall. intros r [Hr2 _]%elem_of_filter_bool.
      rewrite Forall_forall in Ws. auto.
    + simpl. intros k r [Hk _]%map_lookup_filter_Some. by apply (Wr k).
Qed.

(** A request is judged by the rules the ledger holds: with filtering on, the
    decision is the reference verdict of the static and remote rules together
    under the current default action; with both switches off every address is
    allowed. *)
Theorem guard_eval_current now g ip t :
  guard_reach now g -> wf_ip ip -> full ip = true -> now <= t ->
  let e := guard_eval g ip t in
  if enabled g then
    let r := eval_ref (g_default g) (g_rules g) ip t in
    v_action e = v_action r /\ v_matched e = v_matched r
  else v_action e = ALLOW /\ v_matched e = false.
Proof.
  intros Hr Hw Hf Ht. apply guard_snapshot_current in Hr as ((t0 & Ht0 & E) & _ & Hwf).
  unfold guard_eval. destruct (enabled g); simpl; [|done]. rewrite E.
  destruct (snap_eval_ref (g_snapVer g) (g_default g) (g_rules g) (g_rules g) t0 ip t
              Hw Hf Hwf ltac:(lia) (Permutation_refl _)) as (H1 & H2 & _).
  done.
Qed.

(** After a tick no rule whose deadline has passed is left, although the tick
    only scans the rules when the precomputed next deadline is reached, and the
    tick drops no other rule. *)
Theorem guard_tick_complete now t t' g r :
  guard_reach now g -> deadlines_ok g ->
  r ∈ g_rules (guard_tickExpiry t t' g).2 <-> r ∈ g_rules g /\ gone t r = false.
Proof.
  intros Hr Hd. apply guard_snapshot_current in Hr as (_ & Hne & _).
  unfold guard_tickExpiry. rewrite Hne.
  assert (Hkeep : nextExpiryLocked g = 0 \/ t < nextExpiryLocked g ->
    r ∈ g_rules g <-> r ∈ g_rules g /\ gone t r = false).
  { intros H. pose proof (nextExpiry_none g t Hd H) as Hf. rewrite Forall_forall in Hf.
    split; [auto|tauto]. }
  destruct (nextExpiryLocked g =? 0) eqn:E0; b2p; [apply Hkeep; by left|].
  destruct (t <? nextExpiryLocked g) eqn:E1; b2p; [apply Hkeep; by right|].
  unfold g_rules. simpl. rewrite !elem_of_app, !elem_of_remote_rules, elem_of_filter_bool.
  rewrite negb_true_iff. split.
  - intros [[H1 H2]|[k H]]; [tauto|]. apply map_lookup_filter_Some in H as [H1 H2].
    split; [right; by exists k|done].
  - intros [[H1|[k H1]] H2]; [by left|]. right. exists k. by apply map_lookup_filter_Some.
Qed.
End guard_props.

(** ** The static rules of a configuration *)

Section static_props.
Context {IN : Inet} {IL : InetLaws}.

Lemma static_loop_spec allow n cidrs :
  let '(rs, k) := static_loop allow n cidrs in
  (length rs + k = length cidrs)%nat /\
  map rule_ip rs = omap parseCidr cidrs /\ Forall wf_rule rs /\
  Forall (fun r => rule_src r = STATIC /\ rule_action r = if allow then ALLOW else DENY) rs.
Proof.
  revert n. induction cidrs as [|c cidrs IH]; intros n; simpl; [done|].
  destruct (parseCidr c) as [ip|] eqn:E.
  - specialize (IH (n + 1)). destruct (static_loop allow (n + 1) cidrs) as [rs k]. simpl.
    destruct IH as (H1 & H2 & H3 & H4). split_and!.
    + lia.
    + by rewrite H2.
    + constructor; [|done]. apply parseCidr_ok in E. unfold wf_rule, static_rule, is_u64.
      simpl. by destruct allow.
    + constructor; [by destruct allow|done].
  - specialize (IH n). destruct (static_loop allow n cidrs) as [rs k].
    destruct IH as (H1 & H2 & H3 & H4). split_and!; [lia|done..].
Qed.

(** The static filter of the configuration becomes one valid rule per network
    that parses, in order, and a count of the others; a denylist denies its
    networks and allows the rest, an allowlist the opposite. *)
Theorem staticRulesFromCfg_spec cfg rs d k :
  staticRulesFromCfg cfg = (rs, d, k) ->
  let allow := String.eqb (sf_mode cfg) "allowlist" in
  if sf_enabled cfg then
    (length rs + k = length (sf_cidrs cfg))%nat /\
    map rule_ip rs = omap parseCidr (sf_cidrs cfg) /\ Forall wf_rule rs /\
    Forall (fun r => rule_action r = if allow then ALLOW else DENY) rs /\
    d = (if allow then DENY else ALLOW)
  else rs = [] /\ d = ALLOW /\ k = O.
Proof.
  unfold staticRulesFromCfg. destruct (sf_enabled cfg); simpl; [|by intros [= <- <- <-]].
  pose proof (static_loop_spec (String.eqb (sf_mode cfg) "allowlist") 0 (sf_cidrs cfg)) as H.
  destruct (static_loop _ 0 (sf_cidrs cfg)) as [rs' k']. intros [= <- <- <-].
  destruct H as (H1 & H2 & H3 & H4). split_and!; [done..| |done].
  eapply Forall_impl; [exact H4|]. by intros r [_ ?].
Qed.
End static_props.

(** ** On a concrete run *)

Definition run_guard : Guard :=
  guard_do (SS:=insertion_StdSort) 40 (GApplyRemote 77 5 [allow_host; deny_net])
    (guard_do (SS:=insertion_StdSort) 30 (GSetRemoteEnabled true) (guard_init (SS:=insertion_StdSort))).

Lemma run_guard_reach : guard_reach (SS:=insertion_StdSort) 40 run_guard.
Proof.
  apply (gr_step 30); [|lia|].
  - apply (gr_step 0); [apply gr_init; lia|lia|exact I].
  - by apply (bool_decide_unpack _); vm_compute.
Qed.

Lemma guard_snapshot_current_witness :
  guard_inv (SS:=insertion_StdSort) 40 run_guard /\ g_nextExpiry run_guard = 50.
Proof.
  split; [exact (guard_snapshot_current (SS:=insertion_StdSort) 40 _ run_guard_reach)|].
  vm_compute. reflexivity.
Defined.

Lemma guard_eval_current_witness :
  v_action (guard_eval run_guard host10 45) = ALLOW /\
  v_action (guard_eval run_guard host10 55) = DENY.
Proof.
  destruct witness_rules_wf as (A & B & _).
  destruct (guard_eval_current (SS:=insertion_StdSort) 40 _ host10 45 run_guard_reach A B
              ltac:(lia)) as [E1 _].
  destruct (guard_eval_current (SS:=insertion_StdSort) 40 _ host10 55 run_guard_reach A B
              ltac:(lia)) as [E2 _].
  rewrite E1, E2. vm_compute. split; reflexivity.
Defined.

Lemma guard_tick_complete_witness :
  allow_host ∈ g_rules run_guard /\
  ~ allow_host ∈ g_rules (guard_tickExpiry (SS:=insertion_StdSort) 60 60 run_guard).2.
Proof.
  assert (D : deadlines_ok run_guard) by (apply (bool_decide_unpack _); vm_compute; exact I).
  split; [apply (bool_decide_unpack _); vm_compute; exact I|].
  intros H.
  apply (guard_tick_complete (SS:=insertion_StdSort) 40 60 60 run_guard allow_host run_guard_reach D)
    in H as [_ H].
  vm_compute in H. discriminate H.
Defined.

Lemma staticRulesFromCfg_spec_witness :
  let rs := [static_rule true 0 net10] in
  staticRulesFromCfg (mkStaticFilterCfg true "allowlist" ["10.0.0.0/8"; "nonsense"]) = (rs, DENY, 1%nat)
  /\ Forall wf_rule rs.
Proof.
  assert (E : staticRulesFromCfg (mkStaticFilterCfg true "allowlist" ["10.0.0.0/8"; "nonsense"])
              = ([static_rule true 0 net10], DENY, 1%nat)) by (vm_compute; reflexivity).
  pose proof (staticRulesFromCfg_spec _ _ _ _ E) as H. cbn [sf_enabled] in H.
  destruct H as (_ & _ & H & _). exact (conj E H).
Defined.
