(* ===== verification/Db.v ===== *)
(** * The durable copy of the rules (src/ipban/db.h, src/ipban/db.cpp)

    The three tables of the SQLite file as maps, and the statements of [save],
    [del] and [load] as functions on them. SQLite runs a transaction as a whole or
    not at all: [sql_ok] says whether this one committed. *)

From S2P Require Import Prelude Ip InetText Rule Json Wire.

(** ** State *)

Record Row := mkRow { row_ver : Z; row_expire : Z; row_body : string }.

Record DbState := mkDb {
  db_rules : gmap string Row;        (* rules(id, ver, expire, body) *)
  db_tombs : gmap string Z;          (* tombstones(id, ver) *)
  db_meta : option Z;                (* meta, the row last_ver *)
}.

(** The schema: empty tables and [last_ver = 0]. *)
Definition db_init : DbState := mkDb ∅ ∅ (Some 0).

Definition kSqlIntMax : Z := INT64_MAX.

(** ** Operations *)

(** [DELETE FROM tombstones WHERE id=? AND ver<?]. *)
Definition del_tomb_below (id : string) (v : Z) (t : gmap string Z) : gmap string Z :=
  match t !! id with
  | Some w => if w <? v then delete id t else t
  | None => t
  end.

(** [INSERT INTO rules SELECT ... WHERE NOT EXISTS(SELECT 1 FROM tombstones WHERE
    id=? AND ver>=?) ON CONFLICT(id) DO UPDATE ... WHERE excluded.ver>rules.ver]. *)
Definition upsert_row (id : string) (row : Row) (t : gmap string Z) (m : gmap string Row)
    : gmap string Row :=
  let blocked := match t !! id with Some w => row_ver row <=? w | None => false end in
  if blocked then m
  else match m !! id with
       | None => <[id := row]> m
       | Some old => if row_ver old <? row_ver row then <[id := row]> m else m
       end.

(** [INSERT INTO tombstones ... ON CONFLICT(id) DO UPDATE ... WHERE
    excluded.ver>tombstones.ver]. *)
Definition upsert_tomb (id : string) (v : Z) (t : gmap string Z) : gmap string Z :=
  match t !! id with
  | None => <[id := v]> t
  | Some w => if w <? v then <[id := v]> t else t
  end.

(** [DELETE FROM rules WHERE id=? AND ver<=?]. *)
Definition del_row_upto (id : string) (v : Z) (m : gmap string Row) : gmap string Row :=
  match m !! id with
  | Some row => if row_ver row <=? v then delete id m else m
  | None => m
  end.

(** [UPDATE meta SET v=? WHERE k='last_ver' AND v<?]. *)
Definition raise_meta (v : Z) (o : option Z) : option Z :=
  match o with Some w => Some (if w <? v then v else w) | None => None end.

Section db.
Context {IN : Inet} {JL : JsonLib}.

Definition save_ok (r : Rule) : bool :=
  negb (String.eqb (rule_id r) "" || has_char NUL (rule_id r)
        || (rule_version r >? kSqlIntMax) || (rule_createdAtMs r >? kSqlIntMax)
        || (rule_expireAtMs r >? kSqlIntMax)).

Definition row_of (r : Rule) : Row :=
  mkRow (rule_version r) (rule_expireAtMs r) (c_str (ruleToJson r)).

Definition db_save (sql_ok : bool) (r : Rule) (db : DbState) : bool * DbState :=
  if negb (save_ok r) then (false, db)
  else if negb sql_ok then (false, db)
  else
    let id := c_str (rule_id r) in
    let t := del_tomb_below id (rule_version r) (db_tombs db) in
    (true, mkDb (upsert_row id (row_of r) t (db_rules db)) t
                (raise_meta (rule_version r) (db_meta db))).

Definition del_ok (ruleId : string) (ver : Z) : bool :=
  negb (String.eqb ruleId "" || has_char NUL ruleId || (ver >? kSqlIntMax)).

Definition db_del (sql_ok : bool) (ruleId : string) (ver : Z) (db : DbState) : bool * DbState :=
  if negb (del_ok ruleId ver) then (false, db)
  else if negb sql_ok then (false, db)
  else
    let id := c_str ruleId in
    (true, mkDb (del_row_upto id ver (db_rules db)) (upsert_tomb id ver (db_tombs db))
                (raise_meta ver (db_meta db))).

(** [DELETE FROM rules WHERE expire != 0 AND expire <= ?], or without the bound
    when the clock is beyond what SQLite stores. *)
Definition purge (nowMs : Z) (m : gmap string Row) : gmap string Row :=
  filter (fun kv => (negb (row_expire kv.2 =? 0)
                     && ((nowMs >? kSqlIntMax) || (row_expire kv.2 <=? nowMs))) = false) m.

(** One row read back; [None] is [bad = true]. *)
Definition read_row (id : string) (row : Row) : option Rule :=
  if (row_ver row <? 0) || (row_expire row <? 0) || String.eqb id "" then None
  else match ruleFromJson (row_body row) with
       | Parsed r =>
           if String.eqb (rule_id r) id && (rule_version r =? row_ver row)
              && (rule_expireAtMs r =? row_expire row)
           then Some r else None
       | _ => None
       end.

(** The loop over the rows: stops at the first bad one, raises [lastVer]. *)
Fixpoint read_rows (rows : list (string * Row)) (out : list Rule) (lastVer : Z)
    : option (list Rule * Z) :=
  match rows with
  | [] => Some (out, lastVer)
  | (id, row) :: rest =>
      match read_row id row with
      | None => None
      | Some r => read_rows rest (out ++ [r]) (if row_ver row >? lastVer then row_ver row else lastVer)
      end
  end.

(** [load]: the result ([None]: it returned false) and the database after it. The
    rows come in the order of the table, which no statement fixes. *)
Definition db_load (sql_ok : bool) (nowMs : Z) (db : DbState) : option (list Rule * Z) * DbState :=
  match db_meta db with
  | None => (None, db)
  | Some lastVer =>
      if (lastVer <? 0) || negb sql_ok then (None, db)
      else
        let m := purge nowMs (db_rules db) in
        (read_rows (map_to_list m) [] lastVer, mkDb m (db_tombs db) (db_meta db))
  end.

(** ** Writes *)

(** A write the engine asks for. *)
Inductive db_write := WSave (r : Rule) | WDel (id : string) (ver : Z).

Definition write_id (w : db_write) : string :=
  match w with WSave r => rule_id r | WDel id _ => id end.
Definition write_ver (w : db_write) : Z :=
  match w with WSave r => rule_version r | WDel _ v => v end.

Definition db_run (w : db_write) (db : DbState) : DbState :=
  match w with
  | WSave r => (db_save true r db).2
  | WDel id v => (db_del true id v db).2
  end.

(** Writes SQLite accepts: a non-empty id without NUL, numbers it can store. *)
Definition wf_write (w : db_write) : Prop :=
  match w with
  | WSave r => wf_rule r /\ save_ok r = true
  | WDel id v => del_ok id v = true /\ 0 <= v
  end.

(** The highest version written, 0 for none. *)
Definition max_ver (ws : list db_write) : Z := fold_left Z.max (map write_ver ws) 0.

(** The database after a sequence of committed writes. *)
Definition db_after (ws : list db_write) : DbState :=
  fold_left (fun db w => db_run w db) ws db_init.
End db.

(** ** Properties *)

Definition newer (a b : db_write) : bool := write_ver a >? write_ver b.

#[export] Instance newer_StrictWeak : StrictWeak newer.
Proof.
  unfold newer. split; intros *; rewrite !Z.gtb_ltb; rewrite ?Z.ltb_lt, ?Z.ltb_irrefl; [done|lia|].
  lia.
Qed.

(** [o] is the write with the highest version on [id]. *)
Definition is_latest (id : string) (ws : list db_write) (o : option db_write) : Prop :=
  best_in newer (fun w => w ∈ ws /\ write_id w = id) o.

(** What the tables say about one id. *)
Definition tables_say {IN : Inet} {JL : JsonLib} (id : string) (db : DbState) (o : option db_write)
    : Prop :=
  match o with
  | None => db_rules db !! id = None /\ db_tombs db !! id = None
  | Some (WSave r) =>
      db_rules db !! id = Some (row_of r) /\
      (forall w, db_tombs db !! id = Some w -> w < rule_version r)
  | Some (WDel _ v) => db_rules db !! id = None /\ db_tombs db !! id = Some v
  end.

Section db_props.
Context {IN : Inet} {IL : InetLaws} {JL : JsonLib} {JW : JsonLaws}.

Lemma save_ok_inv r : save_ok r = true ->
  rule_id r <> ""%string /\ c_str (rule_id r) = rule_id r /\ rule_version r <= kSqlIntMax.
Proof.
  unfold save_ok. intros H. b2p. apply String.eqb_neq in H. split; [done|].
  split; [by apply c_str_id|lia].
Qed.

Lemma del_ok_inv id v : del_ok id v = true -> id <> ""%string /\ c_str id = id.
Proof.
  unfold del_ok. intros H. b2p. apply String.eqb_neq in H. split; [done|]. by apply c_str_id.
Qed.

Lemma db_run_save r db : save_ok r = true ->
  db_run (WSave r) db =
    let t := del_tomb_below (rule_id r) (rule_version r) (db_tombs db) in
    mkDb (upsert_row (rule_id r) (row_of r) t (db_rules db)) t
         (raise_meta (rule_version r) (db_meta db)).
Proof.
  intros H. pose proof (save_ok_inv r H) as (_ & Hc & _).
  unfold db_run, db_save. rewrite H. cbn [negb snd]. by rewrite Hc.
Qed.

Lemma db_run_del id v db : del_ok id v = true ->
  db_run (WDel id v) db =
    mkDb (del_row_upto id v (db_rules db)) (upsert_tomb id v (db_tombs db))
         (raise_meta v (db_meta db)).
Proof.
  intros H. pose proof (del_ok_inv id v H) as (_ & Hc).
  unfold db_run, db_del. rewrite H. cbn [negb snd]. by rewrite Hc.
Qed.

(** A write leaves the other ids alone. *)
Lemma db_run_other w db id :
  wf_write w -> write_id w <> id ->
  db_rules (db_run w db) !! id = db_rules db !! id /\
  db_tombs (db_run w db) !! id = db_tombs db !! id.
Proof.
  intros Hw Hne. destruct w as [r|j v]; simpl in Hne.
  - destruct Hw as [_ Hs]. rewrite db_run_save by done. simpl.
    unfold upsert_row, del_tomb_below. repeat case_match; by rewrite ?lookup_insert_ne, ?lookup_delete_ne.
  - destruct Hw as [Hd _]. rewrite db_run_del by done. simpl.
    unfold del_row_upto, upsert_tomb.
    repeat case_match; by rewrite ?lookup_insert_ne, ?lookup_delete_ne.
Qed.

(** A save on the id. *)
Lemma db_run_save_says r db o :
  save_ok r = true -> tables_say (rule_id r) db o ->
  (forall w, o = Some w -> write_ver w <> rule_version r) ->
  tables_say (rule_id r) (db_run (WSave r) db)
    (match o with
     | Some w => if write_ver w <? rule_version r then Some (WSave r) else o
     | None => Some (WSave r)
     end).
Proof.
  intros Hs Hsay Hne. rewrite db_run_save by done. cbn zeta.
  unfold upsert_row, del_tomb_below. destruct o as [[r'|j v]|]; simpl in Hsay.
  - destruct Hsay as [Hr Ht]. specialize (Hne _ eq_refl). simpl in Hne.
    cbn [write_ver]. rewrite Hr. change (row_ver (row_of ?x)) with (rule_version x).
    destruct (rule_version r' <? rule_version r) eqn:E; b2p.
    + destruct (db_tombs db !! rule_id r) as [w|] eqn:Et.
      * specialize (Ht w eq_refl). replace (w <? rule_version r) with true by lia.
        rewrite lookup_delete_eq. simpl. rewrite lookup_insert_eq, ?lookup_delete_eq. done.
      * rewrite ?Et. simpl. rewrite lookup_insert_eq, ?Et. done.
    + destruct (db_tombs db !! rule_id r) as [w|] eqn:Et.
      * destruct (w <? rule_version r) eqn:Ew; simpl.
        -- rewrite ?lookup_delete_eq, Hr. done.
        -- rewrite ?Et. b2p. replace (rule_version r <=? w) with true by lia. simpl.
           rewrite Hr. split; [done|]. rewrite ?Et. exact Ht.
      * rewrite ?Et. simpl. rewrite Hr, ?Et. done.
  - destruct Hsay as [Hr Ht]. specialize (Hne _ eq_refl). simpl in Hne. cbn [write_ver].
    rewrite Ht. change (row_ver (row_of ?x)) with (rule_version x).
    destruct (v <? rule_version r) eqn:E; b2p.
    + rewrite lookup_delete_eq, Hr. simpl. rewrite lookup_insert_eq, ?lookup_delete_eq. done.
    + rewrite Ht. replace (rule_version r <=? v) with true by lia. simpl. done.
  - destruct Hsay as [Hr Ht]. rewrite !Ht, Hr. simpl. rewrite lookup_insert_eq, ?Ht. done.
Qed.

(** A deletion on the id. *)
Lemma db_run_del_says id v db o :
  del_ok id v = true -> tables_say id db o ->
  (forall w, o = Some w -> write_ver w <> v) ->
  tables_say id (db_run (WDel id v) db)
    (match o with
     | Some w => if write_ver w <? v then Some (WDel id v) else o
     | None => Some (WDel id v)
     end).
Proof.
  intros Hs Hsay Hne. rewrite db_run_del by done.
  unfold del_row_upto, upsert_tomb. destruct o as [[r'|j w]|]; simpl in Hsay.
  - destruct Hsay as [Hr Ht]. specialize (Hne _ eq_refl). simpl in Hne. cbn [write_ver].
    rewrite Hr. change (row_ver (row_of ?x)) with (rule_version x).
    destruct (rule_version r' <? v) eqn:E; b2p; simpl.
    + replace (rule_version r' <=? v) with true by lia. rewrite lookup_delete_eq.
      destruct (db_tombs db !! id) as [w|] eqn:Et; [|by rewrite lookup_insert_eq].
      specialize (Ht w eq_refl). replace (w <? v) with true by lia. by rewrite lookup_insert_eq.
    + replace (rule_version r' <=? v) with false by lia. split; [done|].
      destruct (db_tombs db !! id) as [w|] eqn:Et.
      * destruct (w <? v) eqn:E2; b2p; intros x; rewrite ?lookup_insert_eq, ?Et;
          intros [= <-]; [lia|by apply Ht].
      * intros x. rewrite lookup_insert_eq. intros [= <-]. lia.
  - destruct Hsay as [Hr Ht]. specialize (Hne _ eq_refl). simpl in Hne. cbn [write_ver].
    rewrite Hr, Ht. destruct (w <? v) eqn:E; simpl; rewrite ?lookup_insert_eq; done.
  - destruct Hsay as [Hr Ht]. rewrite Hr, Ht. simpl. by rewrite lookup_insert_eq.
Qed.

Lemma is_latest_snoc_other id ws w o :
  write_id w <> id -> is_latest id ws o -> is_latest id (ws ++ [w]) o.
Proof.
  intros Hne. apply (best_in_ext _). intros y. rewrite elem_of_app, list_elem_of_singleton.
  split; [tauto|]. intros [[Hy| ->] Hi]; [done|congruence].
Qed.

Lemma is_latest_snoc id ws w o :
  write_id w = id -> is_latest id ws o ->
  is_latest id (ws ++ [w])
    (match o with
     | Some w' => if write_ver w' <? write_ver w then Some w else o
     | None => Some w
     end).
Proof.
  intros Hid Ho.
  assert (Hin : forall y, y ∈ ws ++ [w] /\ write_id y = id <->
    (y ∈ ws /\ write_id y = id) \/ y = w).
  { intros y. rewrite elem_of_app, list_elem_of_singleton. split; [tauto|].
    intros [?|[= ->]]; [tauto|]. split; [by right|done]. }
  unfold is_latest. apply (best_in_ext newer (fun y => (y ∈ ws /\ write_id y = id) \/ y = w));
    [intros y; by rewrite Hin|].
  destruct o as [w'|]; simpl in Ho.
  - destruct Ho as [Hw' Hb]. destruct (write_ver w' <? write_ver w) eqn:E; b2p; simpl.
    + split; [by right|]. intros y [Hy| ->]; [|apply sw_irrefl].
      specialize (Hb y Hy). unfold newer in *. rewrite Z.gtb_ltb in *. b2p. apply Z.ltb_ge. lia.
    + split; [by left|]. intros y [Hy| ->]; [by apply Hb|].
      unfold newer. rewrite Z.gtb_ltb. apply Z.ltb_ge. lia.
  - split; [by right|]. intros y [Hy| ->]; [by destruct (Ho y)|apply sw_irrefl].
Qed.

Lemma db_after_snoc ws w : db_after (ws ++ [w]) = db_run w (db_after ws).
Proof. unfold db_after. by rewrite fold_left_app. Qed.

Lemma db_after_says ws id :
  Forall wf_write ws -> NoDup (map write_ver ws) ->
  exists o, is_latest id ws o /\ tables_say id (db_after ws) o.
Proof.
  induction ws as [|w ws IH] using rev_ind; intros Hw Hn.
  { exists None. split; [by intros y [[]%elem_of_nil _]|done]. }
  apply Forall_app in Hw as [Hw Hw1]. rewrite Forall_singleton in Hw1.
  rewrite map_app in Hn. apply NoDup_app in Hn as (Hn & Hd & _).
  destruct (IH Hw Hn) as (o & Ho & Hs). rewrite db_after_snoc.
  destruct (decide (write_id w = id)) as [Hid|Hid].
  - assert (Hne : forall w', o = Some w' -> write_ver w' <> write_ver w).
    { intros w' -> E. destruct Ho as [[Hin _] _]. apply (Hd (write_ver w')).
      - by apply list_elem_of_fmap_2.
      - simpl. rewrite E. by left. }
    eexists. split; [by apply is_latest_snoc|].
    destruct w as [r|j v]; simpl in Hid; subst id.
    + apply db_run_save_says; [apply Hw1|done|done].
    + apply db_run_del_says; [apply Hw1|done|done].
  - exists o. split; [by apply is_latest_snoc_other|].
    destruct (db_run_other w (db_after ws) id Hw1 Hid) as [E1 E2].
    unfold tables_say. by rewrite E1, E2.
Qed.

Lemma max_ver_snoc ws w : max_ver (ws ++ [w]) = Z.max (max_ver ws) (write_ver w).
Proof. unfold max_ver. by rewrite map_app, fold_left_app. Qed.

Lemma max_ver_ge ws w : w ∈ ws -> write_ver w <= max_ver ws.
Proof.
  induction ws as [|x ws IH] using rev_ind; [by intros ?%elem_of_nil|].
  rewrite elem_of_app, list_elem_of_singleton, max_ver_snoc. intros [H| ->]; [|lia].
  specialize (IH H). lia.
Qed.

Lemma max_ver_in ws : max_ver ws = 0 \/ exists w, w ∈ ws /\ write_ver w = max_ver ws.
Proof.
  induction ws as [|x ws IH] using rev_ind; [by left|]. rewrite max_ver_snoc.
  destruct (Z.max_spec (max_ver ws) (write_ver x)) as [[_ ->]|[_ ->]].
  - right. exists x. split; [apply elem_of_app; right; by left|done].
  - destruct IH as [->|(w & Hin & <-)]; [by left|right]. exists w.
    split; [apply elem_of_app; by left|done].
Qed.

Lemma max_ver_nonneg ws : 0 <= max_ver ws.
Proof.
  induction ws as [|x ws IH] using rev_ind; [done|]. rewrite max_ver_snoc. lia.
Qed.

Lemma db_after_meta ws : Forall wf_write ws -> db_meta (db_after ws) = Some (max_ver ws).
Proof.
  induction ws as [|w ws IH] using rev_ind; intros Hw; [done|].
  apply Forall_app in Hw as [Hw Hw1]. rewrite Forall_singleton in Hw1.
  rewrite db_after_snoc, max_ver_snoc. specialize (IH Hw).
  assert (H : db_meta (db_run w (db_after ws)) = raise_meta (write_ver w) (db_meta (db_after ws))).
  { destruct w as [r|j v]; [rewrite db_run_save|rewrite db_run_del]; try apply Hw1; done. }
  rewrite H, IH. simpl. f_equal. destruct (max_ver ws <? write_ver w) eqn:E; b2p; lia.
Qed.

(** Every row is the encoding of a saved rule, under its id. *)
Lemma db_after_row ws id row :
  Forall wf_write ws -> NoDup (map write_ver ws) -> db_rules (db_after ws) !! id = Some row ->
  exists r, row = row_of r /\ rule_id r = id /\ is_latest id ws (Some (WSave r)).
Proof.
  intros Hw Hn Hr. destruct (db_after_says ws id Hw Hn) as (o & Ho & Hs).
  destruct o as [[r|j v]|]; simpl in Hs; destruct Hs as [Hs _]; rewrite Hs in Hr; simplify_eq.
  exists r. split; [done|]. split; [|done]. by destruct Ho as [[_ ?] _].
Qed.

Lemma is_latest_unique id ws o o' :
  NoDup (map write_ver ws) -> is_latest id ws o -> is_latest id ws o' -> o = o'.
Proof.
  intros Hn Ho Ho'. pose proof (best_in_tie newer _ _ _ Ho Ho') as Ht.
  destruct o as [w|], o' as [w'|]; try done. destruct Ht as [H1 H2].
  unfold newer in *. rewrite Z.gtb_ltb in *. b2p.
  destruct Ho as [[Hi1 _] _], Ho' as [[Hi2 _] _].
  apply list_elem_of_lookup in Hi1 as [i Hi], Hi2 as [j Hj].
  assert (i = j) as ->; [|congruence].
  apply (NoDup_lookup (map write_ver ws) i j (write_ver w) Hn).
  - by rewrite list_lookup_fmap, Hi.
  - rewrite list_lookup_fmap, Hj. simpl. f_equal. lia.
Qed.

Lemma read_row_ok r : wf_rule r -> save_ok r = true ->
  read_row (rule_id r) (row_of r) = Some r.
Proof.
  intros Hw Hs. unfold read_row, row_of. simpl.
  pose proof Hw as (Hid & _ & _ & _ & _ & [He _] & [Hv _]).
  replace (rule_version r <? 0) with false by lia.
  replace (rule_expireAtMs r <? 0) with false by lia.
  apply String.eqb_neq in Hid. rewrite Hid. simpl.
  rewrite c_str_id by (unfold ruleToJson; apply dump_no_nul). rewrite rule_roundtrip by done.
  by rewrite String.eqb_refl, !Z.eqb_refl.
Qed.

Lemma read_rows_ok (rows : list (string * Row)) out lv :
  (forall id row, (id, row) ∈ rows -> exists r, read_row id row = Some r /\ row = row_of r /\
                                                row_ver row <= lv) ->
  exists rs, read_rows rows out lv = Some (out ++ rs, lv) /\
    (forall r, r ∈ rs <-> exists id row, (id, row) ∈ rows /\ read_row id row = Some r).
Proof.
  revert out. induction rows as [|[id row] rows IH]; intros out H; cbn [read_rows].
  { exists []. rewrite app_nil_r. split; [done|]. intros r. split; [by intros ?%elem_of_nil|].
    intros (?&?&Hin&_). by apply elem_of_nil in Hin. }
  destruct (H id row) as (r & Hr & Hrow & Hv); [by left|]. rewrite Hr.
  replace (row_ver row >? lv) with false by lia.
  destruct (IH (out ++ [r])) as (rs & E & Hin); [intros; apply H; by right|].
  exists (r :: rs). rewrite E, <- app_assoc. split; [done|]. intros s. rewrite elem_of_cons, Hin.
  split.
  - intros [->|(i & rw & Hi & Hs)]; [exists id, row; split; [by left|done]|].
    exists i, rw. split; [by right|done].
  - intros (i & rw & Hi & Hs). apply elem_of_cons in Hi as [[= -> ->]|Hi]; [left; congruence|].
    right. by exists i, rw.
Qed.

Lemma db_recovers_rows ws now :
  Forall wf_write ws -> NoDup (map write_ver ws) ->
  exists rules, (db_load true now (db_after ws)).1 = Some (rules, max_ver ws) /\
    (forall r, r ∈ rules <->
       is_latest (rule_id r) ws (Some (WSave r)) /\
       (rule_expireAtMs r = 0 \/ (now <= kSqlIntMax /\ now < rule_expireAtMs r))).
Proof.
  intros Hw Hn. unfold db_load. rewrite db_after_meta by done.
  replace (max_ver ws <? 0) with false by (pose proof (max_ver_nonneg ws); lia). simpl.
  set (m := purge now (db_rules (db_after ws))).
  assert (Hm : forall id row, m !! id = Some row -> exists r, row = row_of r /\ rule_id r = id /\
    read_row id row = Some r /\ row_ver row <= max_ver ws /\ is_latest id ws (Some (WSave r)) /\
    (rule_expireAtMs r = 0 \/ (now <= kSqlIntMax /\ now < rule_expireAtMs r))).
  { intros id row Hl. apply map_lookup_filter_Some in Hl as [Hl Hp]. simpl in Hp.
    destruct (db_after_row ws id row Hw Hn Hl) as (r & -> & Hid & Hlat). exists r.
    pose proof Hlat as [[Hin _] _]. rewrite Forall_forall in Hw. pose proof (Hw _ Hin) as [Wr Sr].
    subst id. split_and!; try done.
    - by apply read_row_ok.
    - by apply (max_ver_ge ws (WSave r)).
    - simpl in Hp. destruct (rule_expireAtMs r =? 0) eqn:E; b2p; [by left|]. right.
      cbn [negb andb] in Hp. b2p. done. }
  destruct (read_rows_ok (map_to_list m) [] (max_ver ws)) as (rs & E & Hin).
  { intros id row H. apply elem_of_map_to_list in H.
    destruct (Hm id row H) as (r & -> & _ & H1 & H2 & _). by exists r. }
  exists rs. split; [done|]. intros r. rewrite Hin. split.
  - intros (id & row & H & Hr). apply elem_of_map_to_list in H.
    destruct (Hm id row H) as (r' & -> & Hid & H1 & _ & H3 & H4). subst id. by simplify_eq.
  - intros [Hlat He]. exists (rule_id r), (row_of r).
    destruct (db_after_says ws (rule_id r) Hw Hn) as (o & Ho & Hs).
    assert (o = Some (WSave r)) as -> by (by eapply is_latest_unique).
    destruct Hs as [Hs _]. split.
    + apply elem_of_map_to_list, map_lookup_filter_Some. split; [done|]. simpl.
      destruct He as [->|[H1 H2]]; [done|]. rewrite Z.gtb_ltb.
      apply andb_false_iff. right. apply orb_false_iff. split; [apply Z.ltb_ge|apply Z.leb_gt]; lia.
    + pose proof Hlat as [[Hi1 _] _]. rewrite Forall_forall in Hw.
      destruct (Hw _ Hi1) as [Wr Sr]. by apply read_row_ok.
Qed.
(** Durability: after any sequence of committed saves and deletes, in whatever
    order they reached the database, a load succeeds and gives back exactly the
    rules whose latest version (over all writes on the id) is a save and whose
    deadline has not passed, with the highest version ever written. *)
Theorem db_recovers ws now :
  Forall wf_write ws -> NoDup (map write_ver ws) ->
  exists rules, (db_load true now (db_after ws)).1 = Some (rules, max_ver ws) /\
    (forall r, r ∈ rules <->
       is_latest (rule_id r) ws (Some (WSave r)) /\
       (rule_expireAtMs r = 0 \/ (now <= kSqlIntMax /\ now < rule_expireAtMs r))).
Proof. apply db_recovers_rows. Qed.
End db_props.

(** ** A late save after the deletion *)

Import DocJson.

#[export] Instance wf_write_dec {IN : Inet} {JL : JsonLib} w : Decision (wf_write w).
Proof. destruct w; simpl; apply _. Defined.

(** Version 3 deletes the rule, then the save of version 2 arrives. *)
Definition late_writes : list db_write :=
  [WSave (set_version rule_a 1); WDel "admin:10.1.2.3" 3; WSave (set_version rule_b 2)].

Lemma db_recovers_witness :
  exists rules, (db_load true 50 (db_after late_writes)).1 = Some (rules, 3) /\
    set_version rule_b 2 ∉ rules.
Proof.
  assert (A : Forall wf_write late_writes) by (apply (bool_decide_unpack _); vm_compute; exact I).
  assert (B : NoDup (map write_ver late_writes)) by (apply (bool_decide_unpack _); vm_compute; exact I).
  destruct (db_recovers late_writes 50 A B) as (rules & E & H).
  exists rules. split; [exact E|]. intros Hin. apply H in Hin as [[_ Hb] _].
  assert (C : WDel "admin:10.1.2.3" 3 ∈ late_writes) by (right; left).
  specialize (Hb (WDel "admin:10.1.2.3" 3) (conj C eq_refl)). discriminate Hb.
Defined.
