(* ===== verification/PolicyState.v ===== *)
(** * The hub's containers (src/ipban/changelog.h, src/ipban/expiry.h, src/ipban/store.h)

    The bounded log of changes, the heap of deadlines and the store of rules. *)

From Stdlib Require Import Sorting.Sorted.
From S2P Require Import Prelude Ip InetText Rule Json Wire Guard.

(** ** ChangeLog *)

(** [Entry]: a version and the operation that made it; oldest first. *)
Abbreviation ChangeLog := (list (Z * DeltaOp)).

(** [push_back], then [while(m_log.size() > m_cap) m_log.pop_front()]. *)
Definition cl_append (cap : nat) (version : Z) (op : DeltaOp) (l : ChangeLog) : ChangeLog :=
  let l := l ++ [(version, op)] in
  drop (length l - cap) l.

Definition oldestVersion (l : ChangeLog) : Z :=
  match l with [] => 0 | (v, _) :: _ => v end.

Definition canCover (fromVer : Z) (l : ChangeLog) : bool :=
  match l with
  | [] => false
  | (v, _) :: _ => wrap64 (fromVer + 1) >=? v
  end.

Definition collect (fromVer toVer : Z) (l : ChangeLog) : list DeltaOp :=
  map snd (List.filter (fun e => (e.1 >? fromVer) && (e.1 <=? toVer)) l).

(** ** Expiry *)

Record ExpiryNode := mkNode { n_expireAtMs : Z; n_ruleId : string; n_version : Z }.

(** The heap as the multiset of its nodes. *)
Abbreviation Expiry := (list ExpiryNode).

Definition node_before (a b : ExpiryNode) : bool := n_expireAtMs a <? n_expireAtMs b.

Definition exp_push (expireAtMs : Z) (ruleId : string) (version : Z) (h : Expiry) : Expiry :=
  if expireAtMs =? 0 then h else mkNode expireAtMs ruleId version :: h.

Section expiry.
Context {SS : StdSort}.

(** The due nodes, earliest first (ties in the order the heap happens to have,
    which [StdSort] leaves open), and the heap without them. *)
Definition popDue (now : Z) (h : Expiry) : list ExpiryNode * Expiry :=
  let due := fun n => n_expireAtMs n <=? now in
  (std_sort node_before (List.filter due h), List.filter (fun n => negb (due n)) h).

Lemma popDue_in now h n :
  n ∈ (popDue now h).1 <-> n ∈ h /\ n_expireAtMs n <= now.
Proof. simpl. rewrite std_sort_perm, elem_of_filter_bool, Z.leb_le. done. Qed.

Lemma popDue_rest now h n :
  n ∈ (popDue now h).2 <-> n ∈ h /\ now < n_expireAtMs n.
Proof.
  simpl. rewrite elem_of_filter_bool, negb_true_iff, Z.leb_gt. done.
Qed.

Lemma popDue_perm now h : (popDue now h).1 ++ (popDue now h).2 ≡ₚ h.
Proof.
  simpl. rewrite std_sort_perm. induction h as [|n h IH]; simpl; [done|].
  destruct (n_expireAtMs n <=? now); simpl; [by rewrite IH|].
  rewrite <- Permutation_middle. by rewrite IH.
Qed.
End expiry.

Definition earliest (h : Expiry) : Z :=
  match h with
  | [] => 0
  | n :: h' => fold_left (fun m x => Z.min m (n_expireAtMs x)) h' (n_expireAtMs n)
  end.

(** ** MemStore *)

Abbreviation MemStore := (gmap string Rule).

Definition store_put (r : Rule) (m : MemStore) : MemStore := <[rule_id r := r]> m.
Definition store_erase (id : string) (m : MemStore) : MemStore := delete id m.
Definition store_find (id : string) (m : MemStore) : option Rule := m !! id.
Definition store_all (m : MemStore) : list Rule := (map_to_list m).*2.

(** ** The log as a history *)

(** The entries carry consecutive versions, the last one [ver]. *)
Fixpoint consecutive (first : Z) (l : ChangeLog) : Prop :=
  match l with
  | [] => True
  | (v, _) :: l' => v = first /\ consecutive (first + 1) l'
  end.

Lemma consecutive_app first l l' :
  consecutive first (l ++ l') <-> consecutive first l /\ consecutive (first + Z.of_nat (length l)) l'.
Proof.
  revert first. induction l as [|[v op] l IH]; intros first; cbn [consecutive app length].
  - replace (first + Z.of_nat 0) with first by lia. tauto.
  - rewrite IH. replace (first + 1 + Z.of_nat (length l)) with (first + Z.of_nat (S (length l))) by lia.
    tauto.
Qed.

Lemma consecutive_versions first l v op :
  consecutive first l -> (v, op) ∈ l -> first <= v < first + Z.of_nat (length l).
Proof.
  revert first. induction l as [|[w o] l IH]; intros first Hc Hin; [by apply elem_of_nil in Hin|].
  simpl in Hc. destruct Hc as [-> Hc]. apply elem_of_cons in Hin as [[= -> ->]|Hin]; simpl; [lia|].
  specialize (IH _ Hc Hin). lia.
Qed.

Lemma filter_all {A} (p : A -> bool) l : (forall x, x ∈ l -> p x = true) -> List.filter p l = l.
Proof.
  induction l as [|x l IH]; intros H; simpl; [done|].
  rewrite H by (by left). f_equal. apply IH. intros y Hy. apply H. by right.
Qed.

Lemma filter_nothing {A} (p : A -> bool) l : (forall x, x ∈ l -> p x = false) -> List.filter p l = [].
Proof.
  induction l as [|x l IH]; intros H; simpl; [done|].
  rewrite H by (by left). apply IH. intros y Hy. apply H. by right.
Qed.

(** What [collect] returns once [canCover] holds: the operations after [from]. *)
Lemma collect_suffix first l l' :
  consecutive first (l ++ l') ->
  collect (first + Z.of_nat (length l) - 1) (first + Z.of_nat (length (l ++ l')) - 1) (l ++ l')
  = map snd l'.
Proof.
  intros Hc. pose proof Hc as Hall. apply consecutive_app in Hc as [Hc Hc'].
  unfold collect. rewrite List.filter_app.
  rewrite (filter_nothing _ l), (filter_all _ l'); [done| |].
  - intros [v op] Hin. apply (consecutive_versions _ _ _ _ Hc') in Hin. simpl.
    rewrite length_app, Z.gtb_ltb. apply andb_true_intro.
    split; [apply Z.ltb_lt|apply Z.leb_le]; lia.
  - intros [v op] Hin. apply (consecutive_versions _ _ _ _ Hc) in Hin. simpl.
    rewrite Z.gtb_ltb. apply andb_false_intro1, Z.ltb_ge. lia.
Qed.
