(* ===== verification/Engine.v ===== *)
(** * The policy engine of the hub (src/ipban/engine.h, src/ipban/engine.cpp)

    Reports, administrative edits and expiry change the store; every change is one
    version and one entry of the change log, and one write queued for the
    database. The mutex-protected part of a handler is one step. Counters,
    timings and log lines are left out; the callback of a change is the version a
    handler returns. [sql] says which of the database calls of a flush commit. *)

From S2P Require Import Prelude Ip InetText Rule Snap Json Wire Guard Db PolicyState.

Definition kRiskCoolMs : Z := 60000.
Definition kRiskSeenMax : nat := Z.to_nat 10000.
Definition kDbIntMax : Z := INT64_MAX.
Definition kLogCap : nat := Z.to_nat 4096.
Definition kBatch : nat := 128.

(** ** State *)

(** What [m_mtx] guards besides the deduplication of reports. *)
Record Core := mkCore {
  c_store : MemStore;
  c_expiry : Expiry;
  c_log : ChangeLog;
  c_ver : Z;
}.

Record Seen := mkSeen { s_seen : gmap string Z; s_order : list (string * Z) }.

Record PersistOp := mkPersistOp {
  po_del : bool; po_op : Z; po_rule : Rule; po_id : string; po_version : Z }.

Record Pers := mkPers {
  p_db : option DbState;         (* [m_db], with what the file holds *)
  p_minTtl : Z;
  p_persisted : gset string;
  p_pending : list PersistOp;
  p_healthy : bool;
}.

Record Engine := mkEngine { e_core : Core; e_seen : Seen; e_pers : Pers; e_epoch : Z }.

Record EditRes := mkEditRes {
  er_changed : bool; er_durable : bool; er_version : Z; er_id : string; er_error : string }.

(** [PolicyEngine::PolicyEngine]: [e] is the random value of [rollEpoch]. *)
Definition rollEpoch (e : Z) : Z := if e =? 0 then 1 else e.

Definition engine_init (random : Z) : Engine :=
  mkEngine (mkCore ∅ [] [] 0) (mkSeen ∅ []) (mkPers None 300000 ∅ [] true) (rollEpoch random).

(** ** The core *)

(** [recordLocked]: the next version, logged. *)
Definition recordLocked (op : DeltaOp) (c : Core) : Z * Core :=
  let v := wrap64 (c_ver c + 1) in
  let op := if op_del op then op
            else mkDeltaOp false (op_ruleId op) (set_version (op_rule op) v) in
  (v, mkCore (c_store c) (c_expiry c) (cl_append kLogCap v op (c_log c)) v).

(** A new or replaced rule: recorded, stored, given its deadline. *)
Definition core_put (cand : Rule) (c : Core) : Rule * Core :=
  let '(v, c1) := recordLocked (mkDeltaOp false (rule_id cand) cand) c in
  let cand := set_version cand v in
  (cand, mkCore (store_put cand (c_store c1))
                (exp_push (rule_expireAtMs cand) (rule_id cand) v (c_expiry c1))
                (c_log c1) (c_ver c1)).

(** A rule removed from the store, and recorded. *)
Definition core_erase (id : string) (c : Core) : Z * Core :=
  recordLocked (del_op id)
    (mkCore (store_erase id (c_store c)) (c_expiry c) (c_log c) (c_ver c)).

(** ** Persistence *)

Definition dbEnabled (p : Pers) : bool := match p_db p with Some _ => true | None => false end.

Definition shouldPersist (minTtl : Z) (r : Rule) : bool :=
  if bool_decide (rule_src r = ADMIN) || bool_decide (rule_src r = EMERG) then true
  else if rule_expireAtMs r =? 0 then true
  else if rule_expireAtMs r <=? rule_createdAtMs r then false
  else rule_expireAtMs r - rule_createdAtMs r >=? minTtl.

Definition queueRuleLocked (r : Rule) (p : Pers) : Pers :=
  if negb (dbEnabled p) then p
  else
    let want := shouldPersist (p_minTtl p) r in
    let had := bool_decide (rule_id r ∈ p_persisted p) in
    if negb want && negb had then p
    else if want then
      mkPers (p_db p) (p_minTtl p) ({[rule_id r]} ∪ p_persisted p)
             (p_pending p ++ [mkPersistOp false 0 r (rule_id r) (rule_version r)]) (p_healthy p)
    else
      mkPers (p_db p) (p_minTtl p) (p_persisted p ∖ {[rule_id r]})
             (p_pending p ++ [mkPersistOp true 1 no_rule (rule_id r) (rule_version r)]) (p_healthy p).

Definition queueDelLocked (id : string) (ver : Z) (expiry : bool) (p : Pers) : Pers :=
  if negb (dbEnabled p) || negb (bool_decide (id ∈ p_persisted p)) then p
  else
    mkPers (p_db p) (p_minTtl p) (p_persisted p ∖ {[id]})
           (p_pending p ++ [mkPersistOp true (if expiry then 2 else 1) no_rule id ver]) (p_healthy p).

Section engine.
Context {IN : Inet} {JL : JsonLib} {SS : StdSort}.

Definition persist_one (sql_ok : bool) (op : PersistOp) (db : DbState) : bool * DbState :=
  if po_del op then db_del sql_ok (po_id op) (po_version op) db else db_save sql_ok (po_rule op) db.

(** The offloaded batch: how many operations succeeded before the first that
    failed, and the database. [i] counts the calls of this flush. *)
Fixpoint run_batch (sql : nat -> bool) (i : nat) (batch : list PersistOp) (db : DbState)
    : nat * DbState :=
  match batch with
  | [] => (O, db)
  | op :: rest =>
      let '(ok, db') := persist_one (sql i) op db in
      if negb ok then (O, db')
      else let '(n, db'') := run_batch sql (S i) rest db' in (S n, db'')
  end.

(** The loop of [flushPersistence]; every round but the last takes operations off
    the queue, so the length of the queue is enough fuel. *)
Fixpoint flush_loop (fuel : nat) (sql : nat -> bool) (i : nat) (p : Pers) : bool * Pers :=
  match p_pending p, fuel with
  | [], _ => (true, mkPers (p_db p) (p_minTtl p) (p_persisted p) [] true)
  | _ :: _, O => (false, p)
  | _ :: _, S f =>
      let batch := take kBatch (p_pending p) in
      match p_db p with
      | None => (false, mkPers None (p_minTtl p) (p_persisted p) (p_pending p) false)
      | Some db =>
          let '(done, db') := run_batch sql i batch db in
          let rest := drop done (p_pending p) in
          if (done =? length batch)%nat then
            flush_loop f sql (i + done) (mkPers (Some db') (p_minTtl p) (p_persisted p) rest (p_healthy p))
          else (false, mkPers (Some db') (p_minTtl p) (p_persisted p) rest false)
      end
  end.

Definition flushPersistence (sql : nat -> bool) (p : Pers) : bool * Pers :=
  flush_loop (length (p_pending p)) sql 0 p.

Definition pendingPersistence (p : Pers) : nat := length (p_pending p).

(** [setDbOwned]. *)
Definition setDb (db : option DbState) (minTtlMs : Z) (e : Engine) : Engine :=
  let p := e_pers e in
  mkEngine (e_core e) (e_seen e)
    (mkPers db minTtlMs (p_persisted p) (p_pending p)
            (match db with None => true | Some _ => p_healthy p end)) (e_epoch e).

(** ** Deduplication of reports *)

(** The loop that forgets old or excess entries. *)
Fixpoint forget (now : Z) (seen : gmap string Z) (order : list (string * Z)) : Seen :=
  match order with
  | [] => mkSeen seen []
  | (id, at_) :: rest =>
      let expired := (now >=? at_) && (now - at_ >=? kRiskCoolMs) in
      if negb expired && (size seen <=? kRiskSeenMax)%nat then mkSeen seen order
      else
        let seen' := match seen !! id with
                     | Some t => if t =? at_ then delete id seen else seen
                     | None => seen
                     end in
        forget now seen' rest
  end.

Definition seenLocked (r : Risk) (now : Z) (s : Seen) : bool * Seen :=
  if String.eqb (risk_id r) "" then (false, s)
  else
    let fresh := match s_seen s !! risk_id r with
                 | Some t => (now >=? t) && (now - t <? kRiskCoolMs)
                 | None => false
                 end in
    if fresh then (true, s)
    else (false, forget now (<[risk_id r := now]> (s_seen s)) (s_order s ++ [(risk_id r, now)])).

(** ** Handlers

    Each returns its result, the version the change callback is fired with (if it
    is) and the engine. *)

Definition onRisk (sql : nat -> bool) (now : Z) (r : Risk) (e : Engine) : bool * option Z * Engine :=
  let cand := ruleFromRisk r now in
  let '(seen, s) := seenLocked r now (e_seen e) in
  let e := mkEngine (e_core e) s (e_pers e) (e_epoch e) in
  if seen then (false, None, e)
  else
    let refuse := match store_find (rule_id cand) (c_store (e_core e)) with
                  | Some ex => negb (shouldReplace ex cand)
                  | None => false
                  end in
    if refuse then (false, None, e)
    else
      let '(rule, c) := core_put cand (e_core e) in
      let p := queueRuleLocked rule (e_pers e) in
      let '(_, p) := flushPersistence sql p in
      (true, Some (c_ver c), mkEngine c s p (e_epoch e)).

Definition admin_rule (ip : Ip) (action : Act) (ttlMs now : Z) (reason : string) : Rule :=
  mkRule (ruleIdFor ADMIN ip) ip action ADMIN (rulePriority ADMIN action) now
         (if ttlMs =? 0 then 0 else if ttlMs >? UINT64_MAX - now then UINT64_MAX else now + ttlMs)
         0 (if String.eqb reason "" then "admin" else reason).

Definition setAdmin (sql : nat -> bool) (now : Z) (ip : Ip) (action : Act) (ttlMs : Z)
    (reason : string) (e : Engine) : EditRes * option Z * Engine :=
  let id := ruleIdFor ADMIN ip in
  if negb (ttlMs =? 0) && ((now >? kDbIntMax) || (ttlMs >? kDbIntMax - now)) then
    (mkEditRes false true (c_ver (e_core e)) id "ttl_too_large", None, e)
  else
    let rule := admin_rule ip action ttlMs now reason in
    let same := match store_find (rule_id rule) (c_store (e_core e)) with
                | Some old => bool_decide (rule_action old = rule_action rule)
                              && (rule_expireAtMs old =? rule_expireAtMs rule)
                              && String.eqb (rule_reason old) (rule_reason rule)
                | None => false
                end in
    let '(c, p) := if same then (e_core e, e_pers e)
                   else let '(rule, c) := core_put rule (e_core e) in
                        (c, queueRuleLocked rule (e_pers e)) in
    let '(durable, p) := flushPersistence sql p in
    (mkEditRes (negb same) durable (c_ver c) id (if durable then "" else "persist_failed"),
     if same then None else Some (c_ver c), mkEngine c (e_seen e) p (e_epoch e)).

Definition remove (sql : nat -> bool) (id : string) (e : Engine) : EditRes * option Z * Engine :=
  let found := match store_find id (c_store (e_core e)) with Some _ => true | None => false end in
  let '(c, p) := if negb found then (e_core e, e_pers e)
                 else let '(v, c) := core_erase id (e_core e) in
                      (c, queueDelLocked id v false (e_pers e)) in
  let '(durable, p) := flushPersistence sql p in
  (mkEditRes found durable (c_ver c) id (if durable then "" else "persist_failed"),
   if found then Some (c_ver c) else None, mkEngine c (e_seen e) p (e_epoch e)).

Definition rules (e : Engine) : list Rule := store_all (c_store (e_core e)).

(** One due node: dropped unless the stored rule is still the one it was made for. *)
Definition expire_one (now : Z) (st : Core * Pers * option Z) (node : ExpiryNode)
    : Core * Pers * option Z :=
  let '(c, p, last) := st in
  match store_find (n_ruleId node) (c_store c) with
  | None => st
  | Some r =>
      if negb (rule_version r =? n_version node) then st
      else if (rule_expireAtMs r =? 0) || (now <? rule_expireAtMs r) then st
      else
        let '(v, c') := core_erase (n_ruleId node) c in
        (c', queueDelLocked (n_ruleId node) v true p, Some v)
  end.

(** [sql] answers the flush before the scan, [sql'] the one after it. *)
Definition tickExpiry (sql sql' : nat -> bool) (now : Z) (e : Engine) : option Z * Engine :=
  let '(_, p) := flushPersistence sql (e_pers e) in
  let c := e_core e in
  let '(due, heap) := popDue now (c_expiry c) in
  let '(c, p, last) :=
    fold_left (expire_one now) due (mkCore (c_store c) heap (c_log c) (c_ver c), p, None) in
  let '(_, p) := flushPersistence sql' p in
  (last, mkEngine c (e_seen e) p (e_epoch e)).

(** What [nextPush] sends: [KSnap] or [KDelta] with its body. *)
Inductive PushKind := KSnap | KDelta.

Definition nextPush (sentVer : Z) (sentOnce : bool) (e : Engine)
    : option (PushKind * string * Z) :=
  let c := e_core e in
  let cur := c_ver c in
  if sentOnce && (sentVer =? cur) then None
  else if negb sentOnce || (sentVer >? cur) || negb (canCover sentVer (c_log c)) then
    Some (KSnap, snapToJson (e_epoch e) cur (store_all (c_store c)), cur)
  else
    Some (KDelta, deltaToJson (e_epoch e) sentVer cur (collect sentVer cur (c_log c)), cur).

Definition restore_rule (st : Core * gset string) (r : Rule) : Core * gset string :=
  let '(c, persisted) := st in
  (mkCore (store_put r (c_store c))
          (exp_push (rule_expireAtMs r) (rule_id r) (rule_version r) (c_expiry c))
          (c_log c) (c_ver c), {[rule_id r]} ∪ persisted).

Definition restore (sql_ok : bool) (now : Z) (e : Engine) : bool * Engine :=
  let p := e_pers e in
  match p_db p with
  | None => (true, e)
  | Some db =>
      match db_load sql_ok now db with
      | (None, db') =>
          (false, mkEngine (e_core e) (e_seen e)
                    (mkPers (Some db') (p_minTtl p) (p_persisted p) (p_pending p) false) (e_epoch e))
      | (Some (rs, lastVer), db') =>
          let '(c, persisted) := fold_left restore_rule rs (e_core e, p_persisted p) in
          let ver := if lastVer >? c_ver c then lastVer else c_ver c in
          (true, mkEngine (mkCore (c_store c) (c_expiry c) (c_log c) ver) (e_seen e)
                   (mkPers (Some db') (p_minTtl p) persisted (p_pending p) true) (e_epoch e))
      end
  end.

Definition ruleCount_hub (e : Engine) : nat := size (c_store (e_core e)).
Definition expiryQueue (e : Engine) : nat := length (c_expiry (e_core e)).

(** ** Runs *)

Inductive eng_op :=
  | ORisk (r : Risk)
  | OAdmin (ip : Ip) (action : Act) (ttlMs : Z) (reason : string)
  | ORemove (id : string)
  | OTick
  | OFlush.

Definition eng_do (sql sql' : nat -> bool) (now : Z) (op : eng_op) (e : Engine) : Engine :=
  match op with
  | ORisk r => (onRisk sql now r e).2
  | OAdmin ip a ttl reason => (setAdmin sql now ip a ttl reason e).2
  | ORemove id => (remove sql id e).2
  | OTick => (tickExpiry sql sql' now e).2
  | OFlush => mkEngine (e_core e) (e_seen e) (flushPersistence sql (e_pers e)).2 (e_epoch e)
  end.

(** What the callers pass: reports decoded by [riskFromJson], canonical addresses,
    [uint64] times, a clock SQLite can store; and the version counter is not about
    to leave the range of the database (it never is: that takes 2^63 changes). *)
Definition eng_op_ok (now : Z) (op : eng_op) (e : Engine) : Prop :=
  0 <= now <= kDbIntMax /\
  c_ver (e_core e) + 1 + Z.of_nat (length (c_expiry (e_core e))) <= kDbIntMax /\
  match op with
  | ORisk r => wf_risk r
  | OAdmin ip _ ttl _ => canonical ip /\ is_u64 ttl
  | _ => True
  end.

(** [e'] is reached from [e] by handlers run one after the other. *)
Inductive eng_steps : Engine -> Engine -> Prop :=
  | es_refl e : eng_steps e e
  | es_step e e1 sql sql' now op :
    eng_steps e e1 -> eng_op_ok now op e1 -> eng_steps e (eng_do sql sql' now op e1).
End engine.
