(* ===== verification/EngineCore.v ===== *)
(** * The policy engine: the store, the log and the deadlines

    Every handler advances the store by the operations it logs; the log is a
    window of the history; no rule outlives its deadline. *)

From S2P Require Import Prelude Ip InetText Rule Snap Json Wire Guard Db PolicyState Engine.

(** ** Invariant *)

Definition node_of (r : Rule) : ExpiryNode := mkNode (rule_expireAtMs r) (rule_id r) (rule_version r).

(** A stored rule: valid, under its own id, not newer than the version counter, its
    deadline in the heap or among the nodes [extra] still to be processed. *)
Definition stored_ok (extra : list ExpiryNode) (c : Core) (k : string) (r : Rule) : Prop :=
  rule_id r = k /\ wf_rule r /\ rule_version r <= c_ver c /\
  (rule_expireAtMs r <> 0 -> node_of r ∈ extra ++ c_expiry c).

Definition core_inv (extra : list ExpiryNode) (c : Core) : Prop :=
  0 <= c_ver c /\
  map_Forall (stored_ok extra c) (c_store c) /\
  consecutive (c_ver c + 1 - Z.of_nat (length (c_log c))) (c_log c) /\
  Forall wf_op (map snd (c_log c)).

(** [c'] is [c] after the logged operations [ops]; its log is the end of [c]'s log
    followed by those operations. *)
Definition advances (c c' : Core) (ops : list DeltaOp) : Prop :=
  c_store c' = fold_left apply_op ops (c_store c) /\
  c_ver c' = c_ver c + Z.of_nat (length ops) /\
  exists es k, map snd es = ops /\ consecutive (c_ver c + 1) es /\
    (k <= length (c_log c ++ es))%nat /\ c_log c' = drop k (c_log c ++ es).

Lemma advances_refl c : advances c c [].
Proof.
  split; [done|]. split; [simpl; lia|]. exists [], O. simpl. rewrite app_nil_r.
  split_and!; [done|done|lia|by rewrite drop_0].
Qed.

Lemma advances_same c c' :
  c_store c' = c_store c -> c_ver c' = c_ver c -> c_log c' = c_log c -> advances c c' [].
Proof.
  intros E1 E2 E3. destruct (advances_refl c) as (H1 & H2 & H3).
  unfold advances. by rewrite E1, E2, E3.
Qed.

Lemma advances_trans c1 c2 c3 ops ops' :
  advances c1 c2 ops -> advances c2 c3 ops' -> advances c1 c3 (ops ++ ops').
Proof.
  intros (S1 & V1 & es & k & M1 & C1 & K1 & L1) (S2 & V2 & es' & k' & M2 & C2 & K2 & L2).
  split; [by rewrite fold_left_app, <- S1|]. split; [rewrite length_app; lia|].
  exists (es ++ es'), (k + k')%nat. rewrite map_app, M1, M2.
  assert (Hl : length es = length ops) by (by rewrite <- M1, length_map).
  split_and!.
  - done.
  - apply consecutive_app. split; [done|]. rewrite Hl.
    replace (c_ver c1 + 1 + Z.of_nat (length ops)) with (c_ver c2 + 1) by lia. done.
  - rewrite L1, length_app, length_drop in K2. rewrite !length_app in *. lia.
  - rewrite L2, L1, (app_assoc (c_log c1)), <- drop_drop.
    by rewrite (drop_app_le (c_log c1 ++ es)) by done.
Qed.

Lemma record_spec op c v c' :
  0 <= c_ver c < kDbIntMax -> recordLocked op c = (v, c') ->
  v = c_ver c + 1 /\ c_ver c' = v /\ c_store c' = c_store c /\ c_expiry c' = c_expiry c /\
  exists op' k, op' = (if op_del op then op
                       else mkDeltaOp false (op_ruleId op) (set_version (op_rule op) v)) /\
    (k <= length (c_log c ++ [(v, op')]))%nat /\ c_log c' = drop k (c_log c ++ [(v, op')]).
Proof.
  intros Hv. unfold recordLocked. intros [= <- <-]. unfold kDbIntMax, INT64_MAX in Hv.
  rewrite wrap64_id by (unfold is_u64; lia). simpl. split_and!; try done.
  eexists _, _. split; [reflexivity|]. unfold cl_append. split; [|reflexivity].
  rewrite length_app. simpl. lia.
Qed.

(** ** Storing a rule *)

Lemma set_version_wf r v : wf_rule r -> is_u64 v -> wf_rule (set_version r v).
Proof. intros (H1 & H2 & H3 & H4 & H5 & H6 & H7) Hv. by split_and!. Qed.

Lemma consecutive_drop first k l :
  (k <= length l)%nat -> consecutive first l -> consecutive (first + Z.of_nat k) (drop k l).
Proof.
  intros Hk Hc. rewrite <- (take_drop k l) in Hc. apply consecutive_app in Hc as [_ Hc].
  rewrite length_take in Hc. by replace (k `min` length l)%nat with k in Hc by lia.
Qed.

Lemma log_inv c op v k :
  v = c_ver c + 1 -> wf_op op -> (k <= length (c_log c ++ [(v, op)]))%nat ->
  consecutive (c_ver c + 1 - Z.of_nat (length (c_log c))) (c_log c) ->
  Forall wf_op (map snd (c_log c)) ->
  let l := drop k (c_log c ++ [(v, op)]) in
  consecutive (v + 1 - Z.of_nat (length l)) l /\ Forall wf_op (map snd l).
Proof.
  intros -> Hw Hk Hc Hf. cbn zeta. rewrite length_app in Hk. simpl in Hk. split.
  - set (first := c_ver c + 1 - Z.of_nat (length (c_log c))) in *.
    assert (Hall : consecutive first (c_log c ++ [(c_ver c + 1, op)])).
    { apply consecutive_app. split; [done|]. simpl. split; [lia|done]. }
    rewrite length_drop, length_app. cbn [length].
    replace (c_ver c + 1 + 1 - Z.of_nat (length (c_log c) + 1 - k)) with (first + Z.of_nat k) by lia.
    apply consecutive_drop; [rewrite length_app; simpl; lia|done].
  - rewrite (fmap_drop snd), (fmap_app snd). apply Forall_drop, Forall_app. split; [done|]. by constructor.
Qed.

Lemma core_put_spec extra cand c r c' :
  core_inv extra c -> wf_rule cand -> c_ver c < kDbIntMax -> core_put cand c = (r, c') ->
  r = set_version cand (c_ver c + 1) /\ wf_rule r /\ c_ver c' = c_ver c + 1 /\
  c_expiry c' = exp_push (rule_expireAtMs r) (rule_id r) (rule_version r) (c_expiry c) /\
  core_inv extra c' /\ advances c c' [upsert_op r].
Proof.
  intros (Hv0 & Hst & Hlog & Hops) Hw Hv. unfold core_put.
  destruct (recordLocked _ c) as [v c1] eqn:E. intros [= <- <-].
  apply record_spec in E as (-> & Hv1 & Hs1 & He1 & op' & k & Hop & Hk & Hl); [|lia].
  simpl in Hop. cbn [c_ver c_expiry]. rewrite Hv1, Hs1, He1.
  set (r := set_version cand (c_ver c + 1)) in *.
  assert (Hwr : wf_rule r) by (apply set_version_wf; [done|]; unfold is_u64, kDbIntMax, INT64_MAX in *; lia).
  change (mkDeltaOp false (rule_id cand) r) with (upsert_op r) in Hop. subst op'.
  destruct (log_inv c (upsert_op r) (c_ver c + 1) k eq_refl ltac:(by split) Hk Hlog Hops) as [Hc Hf].
  split_and!; try done.
  - unfold core_inv; simpl. rewrite Hl. split_and!; [lia| |done|done].
    intros j s Hj. unfold store_put in Hj. rewrite lookup_insert in Hj. case_decide; simplify_eq.
    + split_and!; [done|done|simpl; lia|]. intros Hne. simpl. unfold exp_push.
      apply elem_of_app. right. simpl in Hne. apply Z.eqb_neq in Hne. rewrite Hne. by left.
    + destruct (Hst _ _ Hj) as (H1 & H2 & H3 & H4). split_and!; [done|done|simpl; lia|].
      intros Hne. specialize (H4 Hne). simpl. apply elem_of_app in H4 as [H4|H4];
        apply elem_of_app; [by left|right]. unfold exp_push. destruct (_ =? 0); [done|by right].
  - split; [done|]. split; [simpl; lia|]. exists [(c_ver c + 1, upsert_op r)], k. by split_and!.
Qed.

Lemma core_erase_spec extra id c v c' :
  core_inv extra c -> id <> ""%string -> c_ver c < kDbIntMax -> core_erase id c = (v, c') ->
  v = c_ver c + 1 /\ c_ver c' = v /\ c_store c' = delete id (c_store c) /\
  c_expiry c' = c_expiry c /\ core_inv extra c' /\ advances c c' [del_op id].
Proof.
  intros (Hv0 & Hst & Hlog & Hops) Hid Hv. unfold core_erase. intros E.
  apply record_spec in E as (-> & Hv1 & Hs1 & He1 & op' & k & -> & Hk & Hl); [|simpl; lia].
  simpl in *.
  destruct (log_inv c (del_op id) (c_ver c + 1) k eq_refl ltac:(by split) Hk Hlog Hops) as [Hc Hf].
  split_and!; try done.
  - unfold core_inv. rewrite Hv1, Hl, Hs1. split_and!; [lia| |done|done].
    intros j s Hj. unfold store_erase in Hj. apply lookup_delete_Some in Hj as [_ Hj].
    destruct (Hst _ _ Hj) as (H1 & H2 & H3 & H4). unfold stored_ok. rewrite Hv1, He1.
    split_and!; [done|done|lia|done].
  - split; [by rewrite Hs1|]. split; [simpl; lia|].
    exists [(c_ver c + 1, del_op id)], k. by split_and!.
Qed.

(** ** Expiry *)

Section ticks.
Context {IN : Inet} {IL : InetLaws} {JL : JsonLib} {SS : StdSort}.

(** The stored rules whose deadline has passed. *)
Definition over (now : Z) (r : Rule) : bool :=
  negb (rule_expireAtMs r =? 0) && (rule_expireAtMs r <=? now).

(** What one due node does to the core. *)
Lemma expire_one_spec now extra c p last node :
  core_inv (node :: extra) c -> c_ver c < kDbIntMax -> n_expireAtMs node <= now ->
  let '(c', p', last') := expire_one now (c, p, last) node in
  core_inv extra c' /\ c_expiry c' = c_expiry c /\
  ((c' = c /\ p' = p /\ last' = last) \/
   (exists r, c_store c !! n_ruleId node = Some r /\ over now r = true /\
      c_store c' = delete (n_ruleId node) (c_store c) /\ c_ver c' = c_ver c + 1 /\
      advances c c' [del_op (n_ruleId node)] /\
      p' = queueDelLocked (n_ruleId node) (c_ver c') true p /\ last' = Some (c_ver c'))).
Proof.
  intros Hi Hv Hdue. unfold expire_one, store_find.
  assert (Hkeep : (forall r, c_store c !! n_ruleId node = Some r -> rule_expireAtMs r <> 0 ->
                             node_of r <> node) -> core_inv extra c).
  { intros Hne. destruct Hi as (H0 & Hst & Hl). split; [done|]. split; [|done].
    intros k r Hk. destruct (Hst k r Hk) as (H1 & H2 & H3 & H4). split_and!; [done..|].
    intros Hx. specialize (H4 Hx). simpl in H4. apply elem_of_cons in H4 as [H4|H4]; [|done].
    exfalso. apply (Hne r); [|done|done]. rewrite <- H4. simpl. by rewrite H1. }
  destruct (c_store c !! n_ruleId node) as [r|] eqn:Er.
  2: { split; [apply Hkeep; by intros|]. split; [done|by left]. }
  destruct (rule_version r =? n_version node) eqn:Ev; cbn [negb]; b2p.
  2: { split; [|split; [done|by left]]. apply Hkeep. intros r' [= <-] _ E.
       apply Ev. by rewrite <- E. }
  destruct ((rule_expireAtMs r =? 0) || (now <? rule_expireAtMs r)) eqn:Ex.
  { split; [|split; [done|by left]]. apply Hkeep. intros r' [= <-] Hx E.
    apply Z.eqb_neq in Hx. rewrite Hx in Ex. simpl in Ex. b2p. rewrite <- E in Hdue. simpl in Hdue. lia. }
  destruct Hi as (H0 & Hst & Hl).
  destruct (Hst _ _ Er) as (Hid & (Hne & _) & _).
  assert (Hi : core_inv (node :: extra) c) by done.
  destruct (core_erase (n_ruleId node) c) as [v c'] eqn:Ee.
  apply (core_erase_spec (node :: extra)) in Ee as (-> & Hv' & Hs' & He' & Hi' & Ha);
    [|done|by rewrite <- Hid|done].
  split; [|split; [done|]].
  - destruct Hi' as (I0 & Ist & Il). split; [done|]. split; [|done].
    intros k s Hk. destruct (Ist k s Hk) as (H1 & H2 & H3 & H4). split_and!; [done..|].
    intros Hx. specialize (H4 Hx). simpl in H4. apply elem_of_cons in H4 as [H4|H4]; [|done].
    exfalso. rewrite Hs' in Hk. apply lookup_delete_Some in Hk as [Hk _]. apply Hk.
    by rewrite <- H4.
  - right. exists r. split_and!; try done.
    + b2p. unfold over. apply Z.eqb_neq in H. rewrite H. simpl. apply Z.leb_le. lia.
    + by rewrite Hv'.
    + by rewrite Hv'.
Qed.

(** The whole scan. *)
Lemma expire_fold_spec now due c p last :
  core_inv due c -> c_ver c + Z.of_nat (length due) <= kDbIntMax ->
  Forall (fun n => n_expireAtMs n <= now) due ->
  let '(c', _, _) := fold_left (expire_one now) due (c, p, last) in
  core_inv [] c' /\ c_expiry c' = c_expiry c /\ c_ver c' <= c_ver c + Z.of_nat (length due) /\
  (exists ops, advances c c' ops) /\
  (forall k r, c_store c' !! k = Some r -> c_store c !! k = Some r) /\
  (forall k r, c_store c !! k = Some r -> over now r = false -> c_store c' !! k = Some r).
Proof.
  revert c p last. induction due as [|n due IH]; intros c p last Hi Hv Hd; cbn [fold_left].
  { split_and!; [done|done|simpl; lia|exists []; apply advances_refl|done|done]. }
  inversion Hd as [|?? Hn Hd']; subst. cbn [length] in Hv.
  pose proof (expire_one_spec now due c p last n Hi ltac:(lia) Hn) as Hone.
  destruct (expire_one now (c, p, last) n) as [[c1 p1] last1].
  destruct Hone as (Hi1 & He1 & Hcase).
  assert (Hv1 : c_ver c <= c_ver c1 <= c_ver c + 1)
    by (destruct Hcase as [(-> & _)|(r & _ & _ & _ & -> & _)]; lia).
  specialize (IH c1 p1 last1 Hi1 ltac:(lia) Hd').
  destruct (fold_left (expire_one now) due (c1, p1, last1)) as [[c' p'] last'].
  destruct IH as (Hi' & He' & Hv' & (ops & Ha) & Hsub & Hkeep). split_and!.
  - done.
  - congruence.
  - cbn [length]. lia.
  - destruct Hcase as [(-> & _)|(r & _ & _ & _ & _ & Ha1 & _)]; [by exists ops|].
    eexists. by eapply advances_trans.
  - intros k r Hk. apply Hsub in Hk.
    destruct Hcase as [(-> & _)|(r' & _ & _ & Hs & _)]; [done|].
    rewrite Hs in Hk. by apply lookup_delete_Some in Hk as [_ Hk].
  - intros k r Hk Ho. apply Hkeep; [|done].
    destruct Hcase as [(-> & _)|(r' & Hr' & Ho' & Hs & _)]; [done|].
    rewrite Hs. apply lookup_delete_Some. split; [|done]. intros E. rewrite E in Hr'. congruence.
Qed.

Definition pop_core (now : Z) (c : Core) : Core :=
  mkCore (c_store c) (popDue now (c_expiry c)).2 (c_log c) (c_ver c).

Lemma pop_core_inv now c : core_inv [] c -> core_inv (popDue now (c_expiry c)).1 (pop_core now c).
Proof.
  intros (H0 & Hst & Hl). split; [done|]. split; [|done].
  intros k r Hk. destruct (Hst k r Hk) as (H1 & H2 & H3 & H4). split_and!; [done..|].
  intros Hx. specialize (H4 Hx). simpl in H4. by rewrite <- (popDue_perm now) in H4.
Qed.

Lemma popDue_length now h : (length (popDue now h).1 <= length h)%nat.
Proof. pose proof (Permutation_length (popDue_perm now h)) as H. rewrite length_app in H. lia. Qed.

Lemma tickExpiry_core sql sql' now e :
  exists p last,
    (fold_left (expire_one now) (popDue now (c_expiry (e_core e))).1
       (pop_core now (e_core e), (flushPersistence sql (e_pers e)).2, None))
    = (e_core (tickExpiry sql sql' now e).2, p, last) /\
    (tickExpiry sql sql' now e).1 = last /\
    e_pers (tickExpiry sql sql' now e).2 = (flushPersistence sql' p).2.
Proof.
  unfold tickExpiry. destruct (flushPersistence sql (e_pers e)) as [b p1]. simpl.
  fold (pop_core now (e_core e)).
  change (mkCore (c_store (e_core e)) (List.filter _ _) (c_log (e_core e)) (c_ver (e_core e)))
    with (pop_core now (e_core e)).
  destruct (fold_left (expire_one now) _ (pop_core now (e_core e), p1, None)) as [[c p] last].
  exists p, last. by destruct (flushPersistence sql' p) as [b' p'].
Qed.

(** A tick of the hub removes exactly the rules whose deadline has passed,
    although it only looks at heap nodes and a renewed rule leaves stale nodes
    behind. *)
Theorem tickExpiry_exact sql sql' now e k r :
  core_inv [] (e_core e) ->
  c_ver (e_core e) + Z.of_nat (length (c_expiry (e_core e))) <= kDbIntMax ->
  c_store (e_core (tickExpiry sql sql' now e).2) !! k = Some r <->
  c_store (e_core e) !! k = Some r /\ over now r = false.
Proof.
  intros Hi Hv. destruct (tickExpiry_core sql sql' now e) as (p & last & E & _).
  pose proof (expire_fold_spec now (popDue now (c_expiry (e_core e))).1 (pop_core now (e_core e))
    (flushPersistence sql (e_pers e)).2 None (pop_core_inv now _ Hi)) as Hf.
  rewrite E in Hf. destruct Hf as (Hi' & He' & _ & _ & Hsub & Hkeep).
  - pose proof (popDue_length now (c_expiry (e_core e))). simpl c_ver. lia.
  - apply Forall_forall. intros n Hn. apply popDue_in in Hn as [_ Hn]. exact Hn.
  - split; [|by intros [H1 H2]; exact (Hkeep k r H1 H2)]. intros Hk. split; [exact (Hsub k r Hk)|].
    destruct Hi' as (_ & Hst & _). destruct (Hst _ _ Hk) as (_ & _ & _ & Hn).
    unfold over. destruct (rule_expireAtMs r =? 0) eqn:Ex; [done|]. b2p. simpl.
    specialize (Hn Ex). simpl in Hn. rewrite He' in Hn. apply popDue_rest in Hn as [_ Hn].
    simpl in Hn. by apply Z.leb_gt.
Qed.
End ticks.

(** ** Reports and edits *)

Section handlers.
Context {IN : Inet} {IL : InetLaws} {JL : JsonLib} {SS : StdSort}.

Lemma ruleIdFor_nonempty src ip : ruleIdFor src ip <> ""%string.
Proof. by destruct src. Qed.

Lemma ruleFromRisk_wf r now :
  wf_risk r -> 0 <= now <= kDbIntMax -> wf_rule (ruleFromRisk r now).
Proof.
  intros (Hc & Hs & _ & _ & Hb & _) Hn.
  assert (Hn' : is_u64 now) by (unfold is_u64, kDbIntMax, INT64_MAX in *; lia).
  destruct (ban_deadline_bounds (risk_banMs r) now Hb Hn') as (_ & Hd & _).
  unfold wf_rule; simpl. split_and!; try done; try apply ruleIdFor_nonempty.
  all: unfold is_u64, INT64_MAX in *; lia.
Qed.

Lemma admin_rule_wf ip action ttlMs now reason :
  canonical ip -> is_u64 ttlMs -> 0 <= now <= kDbIntMax ->
  wf_rule (admin_rule ip action ttlMs now reason).
Proof.
  intros Hc Ht Hn. unfold wf_rule; simpl. split_and!; try done; try apply ruleIdFor_nonempty.
  all: unfold is_u64, UINT64_MAX, kDbIntMax, INT64_MAX in *; try lia.
  repeat case_match; b2p; lia.
Qed.

(** A report is refused: a duplicate within the cooling time, or the stored rule is
    at least as strong. *)
Definition refused (now : Z) (r : Risk) (e : Engine) : bool :=
  (seenLocked r now (e_seen e)).1 ||
  match c_store (e_core e) !! ruleIdFor (risk_src r) (risk_ip r) with
  | Some ex => negb (outranks (ruleFromRisk r now) ex)
  | None => false
  end.

Lemma onRisk_step sql now r e :
  core_inv [] (e_core e) -> wf_risk r -> 0 <= now <= kDbIntMax -> c_ver (e_core e) < kDbIntMax ->
  let '(changed, fired, e') := onRisk sql now r e in
  changed = negb (refused now r e) /\
  if refused now r e then fired = None /\ e_core e' = e_core e
  else
    let v := c_ver (e_core e) + 1 in
    let rule := set_version (ruleFromRisk r now) v in
    fired = Some v /\ core_inv [] (e_core e') /\ c_ver (e_core e') = v /\
    c_store (e_core e') = <[rule_id rule := rule]> (c_store (e_core e)) /\
    advances (e_core e) (e_core e') [upsert_op rule].
Proof.
  intros Hi Hr Hn Hv. unfold onRisk, refused, store_find, outranks.
  destruct (seenLocked r now (e_seen e)) as [seen s]. cbn [fst orb e_core].
  destruct seen; [done|]. cbn [orb].
  change (rule_id (ruleFromRisk r now)) with (ruleIdFor (risk_src r) (risk_ip r)).
  set (refuse := match c_store (e_core e) !! ruleIdFor (risk_src r) (risk_ip r) with
                 | Some ex => negb (shouldReplace ex (ruleFromRisk r now)) | None => false end).
  destruct refuse; [done|].
  destruct (core_put (ruleFromRisk r now) (e_core e)) as [rule c] eqn:E.
  apply (core_put_spec []) in E as (-> & Hw & Hv' & _ & Hi' & Ha);
    [|done|by apply ruleFromRisk_wf|done].
  cbn [e_pers]. destruct (flushPersistence sql _) as [b p]. simpl.
  rewrite Hv'. split_and!; try done. by destruct Ha as [-> _].
Qed.

(** The same report was taken less than a minute ago. *)
Definition duplicate (now : Z) (r : Risk) (e : Engine) : Prop :=
  risk_id r <> ""%string /\ exists t, s_seen (e_seen e) !! risk_id r = Some t /\ t <= now < t + 60000.

(** One end of a ban is later than another; 0 is no end. *)
Definition outlives (a b : Z) : Prop := b <> 0 /\ (a = 0 /\ b < UINT64_MAX \/ b < a).

Definition report_end (now : Z) (r : Risk) : Z := if risk_banMs r =? 0 then 0 else Z.min INT64_MAX (now + risk_banMs r).

(** The rule a report asks for. *)
Definition report_rule (now : Z) (r : Risk) (v : Z) : Rule :=
  mkRule (srcName (risk_src r) ++ ":" ++ ip_toString (risk_ip r)) (risk_ip r) DENY (risk_src r) (rulePriority (risk_src r) DENY)
    now (report_end now r) v (if String.eqb (risk_reason r) "" then srcName (risk_src r) else risk_reason r).

(** The rule of its source and address comes before it: a higher priority, or the same one and an
    end that is not earlier. *)
Definition beaten (now : Z) (r : Risk) (e : Engine) : Prop :=
  exists ex, c_store (e_core e) !! rule_id (report_rule now r 0) = Some ex /\
    (rulePriority (risk_src r) DENY < rule_priority ex \/
     rulePriority (risk_src r) DENY = rule_priority ex /\ ~ outlives (report_end now r) (rule_expireAtMs ex)).

Lemma seenLocked_duplicate now r e : (seenLocked r now (e_seen e)).1 = true <-> duplicate now r e.
Proof.
  unfold seenLocked, duplicate, kRiskCoolMs. destruct (String.eqb (risk_id r) "") eqn:Ei.
  - apply String.eqb_eq in Ei. cbn. split; [done|]. by intros [].
  - apply String.eqb_neq in Ei. destruct (s_seen (e_seen e) !! risk_id r) as [t|]; cbn.
    + destruct (_ && _) eqn:E; cbn; (split; [try done; intros _|try done]).
      * split; [done|]. exists t. split; [done|]. b2p. lia.
      * intros (_ & t' & [= <-] & Ht). apply andb_false_iff in E as [E|E]; b2p; lia.
    + split; [done|]. by intros (_ & t' & ? & _).
Qed.

Lemma report_end_deadline now r : wf_risk r -> 0 <= now <= kDbIntMax -> rule_expireAtMs (ruleFromRisk r now) = report_end now r.
Proof.
  intros Hr Hn. cbn. unfold ban_deadline, report_end. destruct (risk_banMs r =? 0) eqn:E0; [done|].
  assert (Hb : 0 <= risk_banMs r) by apply Hr. unfold kDbIntMax in Hn. destruct (_ || _) eqn:E; b2p.
  - apply orb_true_iff in E as [E|E]; b2p; lia.
  - rewrite wrap64_id; [lia|]. unfold is_u64, UINT64_MAX, INT64_MAX in *. lia.
Qed.

Lemma report_rule_from now r v : wf_risk r -> 0 <= now <= kDbIntMax -> set_version (ruleFromRisk r now) v = report_rule now r v.
Proof. intros Hr Hn. pose proof (report_end_deadline now r Hr Hn) as E. unfold set_version, report_rule. by rewrite E. Qed.

Lemma outlives_deadline a b : rule_expireAtMs a <= INT64_MAX -> (deadline a >? deadline b) = true <-> outlives (rule_expireAtMs a) (rule_expireAtMs b).
Proof.
  intros Ha. unfold deadline, outlives, UINT64_MAX, INT64_MAX in *. rewrite Z.gtb_ltb, Z.ltb_lt.
  destruct (rule_expireAtMs a =? 0) eqn:E1, (rule_expireAtMs b =? 0) eqn:E2; b2p; lia.
Qed.

Lemma refused_spec now r e : wf_risk r -> 0 <= now <= kDbIntMax -> refused now r e = true <-> duplicate now r e \/ beaten now r e.
Proof.
  intros Hr Hn. unfold refused. rewrite orb_true_iff, seenLocked_duplicate. apply or_iff_compat_l. unfold beaten.
  change (rule_id (report_rule now r 0)) with (ruleIdFor (risk_src r) (risk_ip r)).
  destruct (c_store (e_core e) !! _) as [ex|]; [|split; [done|by intros (? & ? & _)]].
  assert (He : rule_expireAtMs (ruleFromRisk r now) <= INT64_MAX).
  { rewrite report_end_deadline by done. unfold report_end, INT64_MAX. destruct (_ =? 0); lia. }
  pose proof (outlives_deadline _ ex He) as Ho. rewrite report_end_deadline in Ho by done.
  unfold outranks, shouldReplace. cbn [ruleFromRisk rule_priority]. rewrite !Z.gtb_ltb in *. set (P := rulePriority _ _).
  rewrite negb_true_iff. destruct (P <? rule_priority ex) eqn:E1, (rule_priority ex <? P) eqn:E2; b2p; try lia; split; try done.
  - intros _. exists ex. split; [done|by left].
  - intros (ex' & [= <-] & H). lia.
  - intros H. exists ex. split; [done|]. right. split; [lia|]. rewrite <- Ho. by rewrite H.
  - intros (ex' & [= <-] & [H|[_ H]]); [lia|]. rewrite <- Ho in H. by apply not_true_is_false.
Qed.

(** Nothing but this report is new in what is remembered of reports. *)
Lemma forget_sub now seen order id t : s_seen (forget now seen order) !! id = Some t -> seen !! id = Some t.
Proof.
  revert seen. induction order as [|[k a] order IH]; intros seen; cbn [forget]; [done|]. destruct (_ && _); [done|].
  intros H%IH. destruct (seen !! k) as [t'|]; [|done]. destruct (t' =? a); [|done]. by apply lookup_delete_Some in H as [_ ?].
Qed.

Lemma seenLocked_new now r s id t : s_seen (seenLocked r now s).2 !! id = Some t -> id = risk_id r /\ t = now \/ s_seen s !! id = Some t.
Proof.
  unfold seenLocked. destruct (String.eqb _ _); [by right|]. destruct (match _ with Some _ => _ | None => _ end); [by right|].
  cbn. intros H%forget_sub. destruct (decide (risk_id r = id)) as [<-|Hne]; [rewrite lookup_insert_eq in H; left; by injection H|].
  rewrite lookup_insert_ne in H by done. by right.
Qed.

Lemma onRisk_refused sql now r e : refused now r e = true ->
  let e' := (onRisk sql now r e).2 in
  e_pers e' = e_pers e /\ e_epoch e' = e_epoch e /\ e_seen e' = (seenLocked r now (e_seen e)).2.
Proof.
  unfold refused, onRisk, store_find, outranks. destruct (seenLocked r now (e_seen e)) as [seen s]. cbn [fst orb e_core].
  destruct seen; [done|]. cbn [orb]. change (rule_id (ruleFromRisk r now)) with (ruleIdFor (risk_src r) (risk_ip r)). intros E. by rewrite E.
Qed.

Lemma onRisk_seen sql now r e : e_seen (onRisk sql now r e).2 = (seenLocked r now (e_seen e)).2.
Proof.
  unfold onRisk. destruct (seenLocked r now (e_seen e)) as [seen s]. destruct seen; [done|]. destruct (match store_find _ _ with Some _ => _ | None => _ end); [done|].
  destruct (core_put _ _) as [rule c]. by destruct (flushPersistence _ _).
Qed.

(** C12: a report becomes a rule exactly when the same report was not taken in the last minute and
    no rule of its source and address has a higher priority, or the same one and an end that is not
    earlier. It then takes the next version, which the change callback announces, for as long as
    the report asks, and replaces that rule alone. Otherwise nothing is announced, and store, log,
    version, deadlines and what is to be written stay; a duplicate changes nothing at all, and of
    reports seen no other is new. *)
Theorem onRisk_exact sql now r e :
  core_inv [] (e_core e) -> wf_risk r -> 0 <= now <= kDbIntMax -> c_ver (e_core e) < kDbIntMax ->
  let '(changed, fired, e') := onRisk sql now r e in
  (changed = true <-> ~ (duplicate now r e \/ beaten now r e)) /\
  (changed = true ->
    let v := c_ver (e_core e) + 1 in
    let rule := report_rule now r v in
    fired = Some v /\ core_inv [] (e_core e') /\ c_ver (e_core e') = v /\
    c_store (e_core e') = <[rule_id rule := rule]> (c_store (e_core e)) /\
    advances (e_core e) (e_core e') [upsert_op rule]) /\
  (changed = false -> fired = None /\ e_core e' = e_core e /\ e_pers e' = e_pers e /\ e_epoch e' = e_epoch e) /\
  (duplicate now r e -> e' = e) /\
  (forall id t, s_seen (e_seen e') !! id = Some t -> id = risk_id r /\ t = now \/ s_seen (e_seen e) !! id = Some t).
Proof.
  intros Hi Hr Hn Hv. pose proof (onRisk_step sql now r e Hi Hr Hn Hv) as H. pose proof (onRisk_refused sql now r e) as Hf.
  pose proof (onRisk_seen sql now r e) as Hs. pose proof (refused_spec now r e Hr Hn) as Hspec.
  destruct (onRisk sql now r e) as [[changed fired] e'] eqn:E. cbn [snd] in Hf, Hs. destruct H as [-> H].
  split; [rewrite <- Hspec; by destruct (refused now r e)|]. split; [|split; [|split]].
  - intros C. destruct (refused now r e); [done|]. cbv zeta in H |- *. by rewrite report_rule_from in H.
  - intros C. destruct (refused now r e); [|done]. destruct (Hf eq_refl) as (F1 & F2 & _). by destruct H.
  - intros D. apply seenLocked_duplicate in D. unfold onRisk in E. unfold seenLocked in D, E.
    destruct (String.eqb _ _); [done|]. destruct (match s_seen _ !! _ with Some _ => _ | None => _ end); [|done].
    injection E as _ _ <-. by destruct e as [? [] ? ?].
  - intros id t. rewrite Hs. apply seenLocked_new.
Qed.

Lemma setAdmin_core sql now ip action ttlMs reason e :
  core_inv [] (e_core e) -> canonical ip -> is_u64 ttlMs -> 0 <= now <= kDbIntMax ->
  c_ver (e_core e) < kDbIntMax ->
  let e' := (setAdmin sql now ip action ttlMs reason e).2 in
  core_inv [] (e_core e') /\ exists ops, advances (e_core e) (e_core e') ops.
Proof.
  intros Hi Hc Ht Hn Hv. cbn zeta. unfold setAdmin.
  destruct (_ && _); [split; [done|exists []; apply advances_refl]|].
  set (same := match store_find _ _ with Some _ => _ | None => _ end).
  destruct same.
  - destruct (flushPersistence sql (e_pers e)) as [b p]. simpl.
    split; [done|exists []; apply advances_refl].
  - destruct (core_put (admin_rule ip action ttlMs now reason) (e_core e)) as [rule c] eqn:E.
    apply (core_put_spec []) in E as (-> & Hw & Hv' & _ & Hi' & Ha);
      [|done|by apply admin_rule_wf|done].
    destruct (flushPersistence sql _) as [b p]. simpl. split; [done|by eexists].
Qed.

Lemma remove_core sql id e :
  core_inv [] (e_core e) -> c_ver (e_core e) < kDbIntMax ->
  let e' := (remove sql id e).2 in
  core_inv [] (e_core e') /\ exists ops, advances (e_core e) (e_core e') ops.
Proof.
  intros Hi Hv. cbn zeta. unfold remove, store_find.
  destruct (c_store (e_core e) !! id) as [r|] eqn:Er; cbn [negb].
  - destruct (core_erase id (e_core e)) as [v c] eqn:E.
    assert (Hid : id <> ""%string).
    { destruct Hi as (_ & Hst & _). destruct (Hst _ _ Er) as (<- & (Hne & _) & _). done. }
    apply (core_erase_spec []) in E as (-> & Hv' & Hs & _ & Hi' & Ha); [|done..].
    destruct (flushPersistence sql _) as [b p]. simpl. split; [done|by eexists].
  - destruct (flushPersistence sql (e_pers e)) as [b p]. simpl.
    split; [done|exists []; apply advances_refl].
Qed.

Lemma tickExpiry_advances sql sql' now e :
  core_inv [] (e_core e) ->
  c_ver (e_core e) + Z.of_nat (length (c_expiry (e_core e))) <= kDbIntMax ->
  let e' := (tickExpiry sql sql' now e).2 in
  core_inv [] (e_core e') /\ exists ops, advances (e_core e) (e_core e') ops.
Proof.
  intros Hi Hv. cbn zeta. destruct (tickExpiry_core sql sql' now e) as (p & last & E & _).
  pose proof (expire_fold_spec now (popDue now (c_expiry (e_core e))).1 (pop_core now (e_core e))
    (flushPersistence sql (e_pers e)).2 None (pop_core_inv now _ Hi)) as Hf.
  rewrite E in Hf. destruct Hf as (Hi' & _ & _ & (ops & Ha) & _ & _).
  - pose proof (popDue_length now (c_expiry (e_core e))). simpl c_ver. lia.
  - apply Forall_forall. intros n Hn. apply popDue_in in Hn as [_ Hn]. exact Hn.
  - split; [done|]. exists ([] ++ ops). eapply advances_trans; [|done]. by apply advances_same.
Qed.

(** Every handler keeps the invariant and advances the store by what it logs. *)
Lemma eng_do_core sql sql' now op e :
  core_inv [] (e_core e) -> eng_op_ok now op e ->
  let e' := eng_do sql sql' now op e in
  core_inv [] (e_core e') /\ exists ops, advances (e_core e) (e_core e') ops.
Proof.
  intros Hi (Hn & Hv & Hop). cbn zeta. destruct op as [r|ip a ttl reason|id| |]; cbn [eng_do].
  - pose proof (onRisk_step sql now r e Hi Hop Hn ltac:(lia)) as H.
    destruct (onRisk sql now r e) as [[b f] e']. destruct H as [_ H]. simpl.
    destruct (refused now r e).
    + destruct H as [_ ->]. split; [done|exists []; apply advances_refl].
    + destruct H as (_ & H & _ & _ & Ha). split; [done|by eexists].
  - destruct Hop. apply setAdmin_core; (done || lia).
  - apply remove_core; (done || lia).
  - apply tickExpiry_advances; (done || lia).
  - split; [done|exists []; apply advances_refl].
Qed.

Lemma eng_do_epoch sql sql' now op e : e_epoch (eng_do sql sql' now op e) = e_epoch e.
Proof.
  destruct op; cbn [eng_do]; unfold onRisk, setAdmin, remove, tickExpiry; repeat case_match; done.
Qed.

Lemma eng_steps_core e e' :
  eng_steps e e' -> core_inv [] (e_core e) ->
  core_inv [] (e_core e') /\ e_epoch e' = e_epoch e /\
  exists ops, advances (e_core e) (e_core e') ops.
Proof.
  induction 1 as [e|e e1 sql sql' now op _ IH Hok]; intros Hi.
  - split_and!; [done|done|exists []; apply advances_refl].
  - destruct (IH Hi) as (Hi1 & He1 & ops & Ha).
    destruct (eng_do_core sql sql' now op e1 Hi1 Hok) as (Hi2 & ops' & Ha').
    split_and!; [done|by rewrite eng_do_epoch|]. eexists. by eapply advances_trans.
Qed.

Lemma engine_init_core random : core_inv [] (e_core (engine_init random)).
Proof. split; [done|]. split; [apply map_Forall_empty|]. by split. Qed.
End handlers.
