(* ===== verification/EnginePersist.v ===== *)
(** * The policy engine: what reaches the database, and restarts

    The queue of writes is a suffix of the history of the rules worth keeping; a
    flush moves a prefix of it into the database; a new process that loads the
    database gets back the rules worth keeping that are still in force. *)

From S2P Require Import Prelude Ip InetText Rule Snap Json Wire Guard Db PolicyState Engine EngineCore.

Definition write_of (op : PersistOp) : db_write :=
  if po_del op then WDel (po_id op) (po_version op) else WSave (po_rule op).

(** What SQLite can store of a rule, besides its version. *)
Definition db_fit (r : Rule) : Prop :=
  has_char NUL (rule_id r) = false /\ rule_createdAtMs r <= kSqlIntMax /\
  rule_expireAtMs r <= kSqlIntMax.

#[local] Arguments is_latest : simpl never.

Section persist.
Context {IN : Inet} {IL : InetLaws} {JL : JsonLib} {JW : JsonLaws} {SS : StdSort}.

(** The rules [store] at version [ver], and the persistence state: [W] is in the
    database, [A] is that and what is queued; the ids in [m_persisted] are those
    whose latest write is the save of the stored rule, which is worth keeping. *)
Definition pers_inv (store : MemStore) (ver : Z) (p : Pers) : Prop :=
  0 <= ver /\
  exists W, p_db p = Some (db_after W) /\
    let A := W ++ map write_of (p_pending p) in
    Forall wf_write A /\ NoDup (map write_ver A) /\ (forall w, w ∈ A -> write_ver w <= ver) /\
    map_Forall (fun _ r => db_fit r) store /\
    forall id,
      if decide (id ∈ p_persisted p) then
        (exists r, store !! id = Some r /\ is_latest id A (Some (WSave r)) /\
                   shouldPersist (p_minTtl p) r = true)
      else
        (forall r, ~ is_latest id A (Some (WSave r))) /\
        (forall r, store !! id = Some r -> shouldPersist (p_minTtl p) r = false).

Lemma is_latest_top A w :
  (forall y, y ∈ A -> write_ver y < write_ver w) -> is_latest (write_id w) (A ++ [w]) (Some w).
Proof.
  intros H. split.
  - split; [|done]. apply elem_of_app. right. by left.
  - intros y [Hy _]. unfold newer. rewrite Z.gtb_ltb. apply Z.ltb_ge.
    apply elem_of_app in Hy as [Hy|Hy]; [specialize (H y Hy); lia|].
    apply list_elem_of_singleton in Hy as ->. lia.
Qed.

Lemma is_latest_snoc_ne A w id o :
  write_id w <> id -> is_latest id (A ++ [w]) o <-> is_latest id A o.
Proof.
  intros Hne. split; [|by apply is_latest_snoc_other].
  apply (best_in_ext _). intros y. rewrite elem_of_app, list_elem_of_singleton.
  split; [|tauto]. intros [[Hy| ->] Hi]; [done|congruence].
Qed.

(** Queuing one more write, with a version above all others. *)
Lemma pers_write store store' ver ver' p p' w :
  pers_inv store ver p -> ver < ver' -> write_ver w = ver' -> wf_write w ->
  p_db p' = p_db p -> p_minTtl p' = p_minTtl p ->
  map write_of (p_pending p') = map write_of (p_pending p) ++ [w] ->
  (forall id, id <> write_id w -> store' !! id = store !! id /\ (id ∈ p_persisted p' <-> id ∈ p_persisted p)) ->
  (forall r, store' !! (write_id w) = Some r -> db_fit r) ->
  match w with
  | WSave r => write_id w ∈ p_persisted p' /\ store' !! (write_id w) = Some r /\
               shouldPersist (p_minTtl p) r = true
  | WDel id _ => (id ∉ p_persisted p') /\
                 (forall r, store' !! id = Some r -> shouldPersist (p_minTtl p) r = false)
  end ->
  pers_inv store' ver' p'.
Proof.
  intros (H0 & W & Hdb & Hw & Hn & Hv & Hf & Hid) Hlt Hwv Hww Edb Ettl Ep Hother Hfit Hcase.
  split; [lia|]. exists W. rewrite Edb, Ettl, Ep, app_assoc. set (A := W ++ map write_of (p_pending p)) in *.
  assert (Hbelow : forall y, y ∈ A -> write_ver y < write_ver w)
    by (intros y Hy; specialize (Hv y Hy); lia).
  assert (Hnd : NoDup (map write_ver (A ++ [w]))).
  { rewrite map_app. apply NoDup_app. split; [done|]. split; [|apply NoDup_singleton].
    intros v Hin Hs. apply list_elem_of_singleton in Hs as ->.
    apply list_elem_of_fmap in Hin as (y & Hy & Hin). specialize (Hbelow y Hin). lia. }
  split; [done|]. cbn zeta. split_and!.
  - apply Forall_app. split; [done|]. by constructor.
  - done.
  - intros y Hy. apply elem_of_app in Hy as [Hy|Hy]; [specialize (Hv y Hy); lia|].
    apply list_elem_of_singleton in Hy as ->. lia.
  - intros k r Hk. destruct (decide (k = write_id w)) as [->|Hne]; [by apply Hfit|].
    destruct (Hother k Hne) as [E _]. rewrite E in Hk. by apply (Hf k).
  - intros id. pose proof (is_latest_top A w Hbelow) as Htop.
    destruct (decide (id = write_id w)) as [->|Hne].
    + destruct w as [r|j v]; simpl in *.
      * destruct Hcase as (H1 & H2 & H3). destruct (decide _); [|done]. by exists r.
      * destruct Hcase as (H1 & H2). destruct (decide _); [done|]. split; [|done].
        intros r Hr. apply (is_latest_unique j _ _ _ Hnd Htop) in Hr. done.
    + destruct (Hother id Hne) as [E Hp]. specialize (Hid id).
      destruct (decide (id ∈ p_persisted p')) as [Hin|Hin];
        destruct (decide (id ∈ p_persisted p)) as [Hin'|Hin']; try tauto.
      * destruct Hid as (r & H1 & H2 & H3). exists r. rewrite E.
        split_and!; [done|by apply is_latest_snoc_ne|done].
      * destruct Hid as (H1 & H2). rewrite E. split; [|done].
        intros r Hr. apply (H1 r). by apply (is_latest_snoc_ne A w).
Qed.

(** A change of a rule that is not worth keeping and never was. *)
Lemma pers_skip store store' ver ver' p id :
  pers_inv store ver p -> ver <= ver' -> id ∉ p_persisted p ->
  (forall j, j <> id -> store' !! j = store !! j) ->
  (forall r, store' !! id = Some r -> db_fit r /\ shouldPersist (p_minTtl p) r = false) ->
  pers_inv store' ver' p.
Proof.
  intros (H0 & W & Hdb & Hw & Hn & Hv & Hf & Hid) Hlt Hnp Hother Hnew.
  split; [lia|]. exists W. split; [done|]. cbn zeta. split_and!; [done|done| | |].
  - intros w Hin. specialize (Hv w Hin). lia.
  - intros k r Hk. destruct (decide (k = id)) as [->|Hne]; [by apply Hnew|].
    rewrite Hother in Hk by done. by apply (Hf k).
  - intros k. specialize (Hid k). destruct (decide (k = id)) as [->|Hne].
    + destruct (decide (id ∈ p_persisted p)); [done|]. split; [by apply Hid|]. apply Hnew.
    + rewrite Hother by done. exact Hid.
Qed.

Lemma save_ok_fit r : wf_rule r -> db_fit r -> rule_version r <= kSqlIntMax -> save_ok r = true.
Proof.
  intros (Hid & _) (Hn & Hc & He) Hv. apply String.eqb_neq in Hid.
  unfold save_ok. rewrite Hid, Hn. rewrite !Z.gtb_ltb. apply negb_true_iff. simpl.
  repeat apply orb_false_intro; apply Z.ltb_ge; lia.
Qed.

Lemma queueRule_pers store ver p r :
  pers_inv store ver p -> wf_rule r -> db_fit r -> rule_version r = ver + 1 -> ver < kDbIntMax ->
  pers_inv (<[rule_id r := r]> store) (ver + 1) (queueRuleLocked r p).
Proof.
  intros Hi Hw Hf Hv Hb. pose proof Hi as (H0 & W & Hdb & _).
  unfold queueRuleLocked, dbEnabled. rewrite Hdb. cbn [negb].
  assert (Hins : forall j, j <> rule_id r -> <[rule_id r := r]> store !! j = store !! j)
    by (intros j Hj; by rewrite lookup_insert_ne).
  destruct (shouldPersist (p_minTtl p) r) eqn:Es; cbn [negb andb].
  - eapply (pers_write store _ ver _ p _ (WSave r)); try done.
    + lia.
    + split; [done|]. apply save_ok_fit; [done|done|]. unfold kDbIntMax, kSqlIntMax in *. lia.
    + simpl. by rewrite map_app.
    + intros id Hne. split; [by apply Hins|]. simpl. set_solver.
    + simpl. intros s. rewrite lookup_insert_eq. by intros [= <-].
    + simpl. rewrite lookup_insert_eq. split_and!; [set_solver|done|done].
  - destruct (bool_decide (rule_id r ∈ p_persisted p)) eqn:Eh; b2p; cbn [negb].
    + destruct Hw as (Hid & _). destruct Hf as (Hn & Hc & He).
      eapply (pers_write store _ ver _ p _ (WDel (rule_id r) (ver + 1))); try done.
      * lia.
      * split; [|lia]. unfold del_ok. apply String.eqb_neq in Hid. rewrite Hid, Hn. simpl.
        rewrite Z.gtb_ltb. apply negb_true_iff, Z.ltb_ge. unfold kDbIntMax, kSqlIntMax in *. lia.
      * simpl. rewrite map_app, <- Hv. done.
      * intros id Hne. split; [by apply Hins|]. simpl. set_solver.
      * simpl. intros s. rewrite lookup_insert_eq. by intros [= <-].
      * simpl. split; [set_solver|]. intros s. rewrite lookup_insert_eq. by intros [= <-].
    + eapply (pers_skip store _ ver _ p (rule_id r)); try done; [lia|].
      intros s. rewrite lookup_insert_eq. by intros [= <-].
Qed.

Lemma queueDel_pers store ver p id r0 b :
  pers_inv store ver p -> store !! id = Some r0 -> rule_id r0 = id -> id <> ""%string ->
  ver < kDbIntMax -> pers_inv (delete id store) (ver + 1) (queueDelLocked id (ver + 1) b p).
Proof.
  intros Hi Hr0 Hrid Hne Hb. pose proof Hi as (H0 & W & Hdb & _ & _ & _ & Hf & _).
  unfold queueDelLocked, dbEnabled. rewrite Hdb. cbn [negb orb].
  assert (Hdel : forall j, j <> id -> delete id store !! j = store !! j)
    by (intros j Hj; by rewrite lookup_delete_ne).
  destruct (bool_decide (id ∈ p_persisted p)) eqn:Eh; b2p; cbn [negb].
  - eapply (pers_write store _ ver _ p _ (WDel id (ver + 1))); try done.
    + lia.
    + destruct (Hf _ _ Hr0) as (Hn & _). rewrite Hrid in Hn. split; [|lia].
      unfold del_ok. apply String.eqb_neq in Hne. rewrite Hne, Hn. simpl.
      rewrite Z.gtb_ltb. apply negb_true_iff, Z.ltb_ge. unfold kDbIntMax, kSqlIntMax in *. lia.
    + simpl. by rewrite map_app.
    + intros j Hj. split; [by apply Hdel|]. simpl. set_solver.
    + simpl. intros s. by rewrite lookup_delete_eq.
    + simpl. split; [set_solver|]. intros s. by rewrite lookup_delete_eq.
  - eapply (pers_skip store _ ver _ p id); try done; [lia|].
    intros s. by rewrite lookup_delete_eq.
Qed.

(** ** Flushing *)

Lemma persist_one_ok op W :
  wf_write (write_of op) ->
  persist_one true op (db_after W) = (true, db_after (W ++ [write_of op])).
Proof.
  intros Hw. rewrite db_after_snoc. unfold persist_one, write_of in *.
  destruct (po_del op).
  - destruct Hw as [Hd _]. unfold db_run, db_del. by rewrite Hd.
  - destruct Hw as [_ Hs]. unfold db_run, db_save. by rewrite Hs.
Qed.

Lemma persist_one_fail op W :
  wf_write (write_of op) -> persist_one false op (db_after W) = (false, db_after W).
Proof.
  intros Hw. unfold persist_one, write_of in *. destruct (po_del op).
  - destruct Hw as [Hd _]. unfold db_del. by rewrite Hd.
  - destruct Hw as [_ Hs]. unfold db_save. by rewrite Hs.
Qed.

Lemma run_batch_spec sql i batch W :
  Forall wf_write (map write_of batch) ->
  exists n, run_batch sql i batch (db_after W) = (n, db_after (W ++ map write_of (take n batch))) /\
    (n <= length batch)%nat /\ ((forall j, sql j = true) -> n = length batch).
Proof.
  revert i W. induction batch as [|op batch IH]; intros i W Hw; cbn [run_batch].
  { exists O. simpl. rewrite app_nil_r. split_and!; [done|lia|done]. }
  cbn [map] in Hw. inversion Hw as [|?? H1 H2]; subst. destruct (sql i) eqn:Es.
  - rewrite persist_one_ok by done. cbn [negb].
    destruct (IH (S i) (W ++ [write_of op]) H2) as (n & E & Hn & Hall). rewrite E.
    exists (S n). simpl. rewrite <- app_assoc. split; [done|]. split; [lia|].
    intros Hs. by rewrite Hall.
  - rewrite persist_one_fail by done. cbn [negb]. exists O. simpl. rewrite app_nil_r.
    split_and!; [done|lia|]. intros Hs. congruence.
Qed.

Lemma flush_loop_spec fuel sql i p store ver :
  pers_inv store ver p ->
  let '(ok, p') := flush_loop fuel sql i p in
  pers_inv store ver p' /\ p_minTtl p' = p_minTtl p /\ p_persisted p' = p_persisted p /\
  (ok = true -> p_pending p' = [] /\ p_healthy p' = true) /\
  ((length (p_pending p) <= fuel)%nat -> (forall j, sql j = true) -> ok = true).
Proof.
  revert i p. induction fuel as [|fuel IH]; intros i p Hi; cbn [flush_loop];
    destruct (p_pending p) as [|op rest] eqn:Ep.
  1, 3: split_and!; try done; destruct Hi as (H0 & W & H); split; [done|]; exists W;
    by rewrite Ep in H.
  { split_and!; try done. simpl. intros. lia. }
  rewrite <- Ep. pose proof Hi as (H0 & W & Hdb & Hw & Hrest). rewrite Hdb.
  set (batch := take kBatch (p_pending p)).
  assert (Hwb : Forall wf_write (map write_of batch)).
  { apply Forall_app in Hw as [_ Hw]. unfold batch.
    rewrite <- (take_drop kBatch (p_pending p)), map_app in Hw. by apply Forall_app in Hw as [Hw _]. }
  destruct (run_batch_spec sql i batch W Hwb) as (n & -> & Hn & Hall).
  assert (Htk : take n batch = take n (p_pending p)).
  { unfold batch in *. rewrite take_take. f_equal. rewrite length_take in Hn. lia. }
  assert (Hi' : forall h, pers_inv store ver
    (mkPers (Some (db_after (W ++ map write_of (take n batch)))) (p_minTtl p) (p_persisted p)
            (drop n (p_pending p)) h)).
  { intros h. split; [done|]. exists (W ++ map write_of (take n batch)). split; [done|].
    cbn zeta. rewrite Htk. cbn [p_pending p_minTtl p_persisted].
    rewrite <- app_assoc, <- map_app, take_drop. done. }
  destruct (n =? length batch)%nat eqn:En; b2p.
  - specialize (IH (i + n)%nat _ (Hi' (p_healthy p))).
    destruct (flush_loop fuel sql (i + n) _) as [ok p'].
    destruct IH as (I1 & I2 & I3 & I4 & I5). split_and!; try done.
    intros Hf Hs. apply I5; [|done]. simpl. rewrite length_drop, En. unfold batch.
    rewrite length_take, Ep in *. simpl in *. unfold kBatch. lia.
  - split_and!; try done. intros _ Hs. apply Hall in Hs. congruence.
Qed.

(** A flush never loses or reorders a write: what is in the database and in the
    queue together stays the history of writes; it reports success only with the
    queue empty; and it does succeed, whatever the length of the queue, when no
    call to the database fails. *)
Theorem flush_spec sql p store ver :
  pers_inv store ver p ->
  let '(ok, p') := flushPersistence sql p in
  pers_inv store ver p' /\ p_minTtl p' = p_minTtl p /\ p_persisted p' = p_persisted p /\
  (ok = true -> p_pending p' = [] /\ p_healthy p' = true) /\
  ((forall j, sql j = true) -> ok = true).
Proof.
  intros Hi. pose proof (flush_loop_spec (length (p_pending p)) sql 0 p store ver Hi) as H.
  unfold flushPersistence. destruct (flush_loop _ sql 0 p) as [ok p'].
  destruct H as (H1 & H2 & H3 & H4 & H5). split_and!; try done. auto.
Qed.

(** ** Handlers *)

Lemma to_string_no_nul z : has_char NUL (to_string z) = false.
Proof.
  unfold to_string. destruct (z <? 0) eqn:E; b2p; [|by apply udec_has_char].
  cbn [has_char]. by rewrite udec_has_char by (done || lia).
Qed.

Lemma ip_toString_no_nul ip : canonical ip -> has_char NUL (ip_toString ip) = false.
Proof.
  intros [([Hl Hu] & _) _].
  assert (Hs : has_char NUL (match ip_fam ip with
    | V4 => inet_ntop4 (take 4 (ip_bytes ip)) | V6 => inet_ntop6 (ip_bytes ip) end) = false).
  { destruct (ip_fam ip); [apply ntop4_chars|by apply ntop6_chars].
    by apply (byte_list_take 16 4); [|lia]. }
  unfold ip_toString. cbn zeta. destruct (full ip); [done|].
  rewrite !has_char_app, Hs, to_string_no_nul. done.
Qed.

Lemma ruleIdFor_no_nul src ip : canonical ip -> has_char NUL (ruleIdFor src ip) = false.
Proof.
  intros Hc. unfold ruleIdFor. rewrite has_char_app. cbn [has_char].
  rewrite ip_toString_no_nul by done. by destruct src.
Qed.

Lemma ruleFromRisk_fit r now v :
  wf_risk r -> 0 <= now <= kDbIntMax -> db_fit (set_version (ruleFromRisk r now) v).
Proof.
  intros (Hc & _ & _ & _ & Hb & _) Hn.
  assert (Hn' : is_u64 now) by (unfold is_u64, kDbIntMax, INT64_MAX in *; lia).
  destruct (ban_deadline_bounds (risk_banMs r) now Hb Hn') as (_ & Hd & _).
  split_and!; simpl; [by apply ruleIdFor_no_nul| |]; unfold kSqlIntMax, kDbIntMax in *; lia.
Qed.

Lemma admin_rule_fit ip a ttlMs now reason v :
  canonical ip -> 0 <= now <= kDbIntMax ->
  negb (ttlMs =? 0) && ((now >? kDbIntMax) || (ttlMs >? kDbIntMax - now)) = false ->
  db_fit (set_version (admin_rule ip a ttlMs now reason) v).
Proof.
  intros Hc Hn Ht. split_and!; [exact (ruleIdFor_no_nul ADMIN ip Hc)|apply Hn|]. simpl.
  destruct (ttlMs =? 0) eqn:E; [unfold kSqlIntMax, INT64_MAX; lia|].
  cbn [negb andb] in Ht. b2p. rewrite Z.gtb_ltb.
  unfold kSqlIntMax, kDbIntMax, UINT64_MAX, INT64_MAX in *.
  destruct (2 ^ 64 - 1 - now <? ttlMs) eqn:E2; b2p; lia.
Qed.

Definition eng_pers_inv (e : Engine) : Prop :=
  pers_inv (c_store (e_core e)) (c_ver (e_core e)) (e_pers e).

Lemma put_pers cand c r c' p :
  core_inv [] c -> wf_rule cand -> db_fit (set_version cand (c_ver c + 1)) ->
  c_ver c < kDbIntMax -> core_put cand c = (r, c') -> pers_inv (c_store c) (c_ver c) p ->
  pers_inv (c_store c') (c_ver c') (queueRuleLocked r p).
Proof.
  intros Hi Hw Hf Hv E Hp.
  apply (core_put_spec []) in E as (-> & Hwr & -> & _ & _ & Hs & _); [|done..].
  rewrite Hs. simpl. by apply queueRule_pers.
Qed.

Lemma flush_pers sql p store ver :
  pers_inv store ver p -> pers_inv store ver (flushPersistence sql p).2.
Proof.
  intros Hi. pose proof (flush_loop_spec (length (p_pending p)) sql 0 p store ver Hi) as H.
  unfold flushPersistence. destruct (flush_loop _ sql 0 p). apply H.
Qed.

Lemma flush_ttl sql p store ver :
  pers_inv store ver p -> p_minTtl (flushPersistence sql p).2 = p_minTtl p.
Proof.
  intros Hi. pose proof (flush_loop_spec (length (p_pending p)) sql 0 p store ver Hi) as H.
  unfold flushPersistence. destruct (flush_loop _ sql 0 p). apply H.
Qed.


Lemma queueRule_ttl r p : p_minTtl (queueRuleLocked r p) = p_minTtl p.
Proof. unfold queueRuleLocked. by repeat case_match. Qed.

Lemma queueDel_ttl id v b p : p_minTtl (queueDelLocked id v b p) = p_minTtl p.
Proof. unfold queueDelLocked. by repeat case_match. Qed.

(** The part of the invariants a handler keeps. *)
Definition keeps (e e' : Engine) : Prop :=
  eng_pers_inv e' /\ p_minTtl (e_pers e') = p_minTtl (e_pers e).

Lemma onRisk_pers sql now r e :
  core_inv [] (e_core e) -> eng_pers_inv e -> wf_risk r -> 0 <= now <= kDbIntMax ->
  c_ver (e_core e) < kDbIntMax -> keeps e (onRisk sql now r e).2.
Proof.
  intros Hi Hp Hr Hn Hv. unfold onRisk.
  destruct (seenLocked r now (e_seen e)) as [[] s]; [done|]. cbn [e_core e_pers].
  destruct (match store_find _ _ with Some _ => _ | None => _ end); [done|].
  destruct (core_put (ruleFromRisk r now) (e_core e)) as [rule c] eqn:E.
  pose proof (put_pers _ _ _ _ (e_pers e) Hi (ruleFromRisk_wf r now Hr Hn)
    (ruleFromRisk_fit r now _ Hr Hn) Hv E Hp) as H.
  destruct (flushPersistence sql (queueRuleLocked rule (e_pers e))) as [b p] eqn:Ef.
  pose proof (flush_pers sql _ _ _ H) as H1. pose proof (flush_ttl sql _ _ _ H) as H2.
  rewrite Ef in H1, H2. split; [exact H1|]. simpl in *. by rewrite H2, queueRule_ttl.
Qed.

Lemma setAdmin_pers sql now ip a ttlMs reason e :
  core_inv [] (e_core e) -> eng_pers_inv e -> canonical ip -> is_u64 ttlMs ->
  0 <= now <= kDbIntMax -> c_ver (e_core e) < kDbIntMax ->
  keeps e (setAdmin sql now ip a ttlMs reason e).2.
Proof.
  intros Hi Hp Hc Ht Hn Hv. unfold setAdmin.
  destruct (negb (ttlMs =? 0) && _) eqn:Ett; [done|].
  destruct (match store_find _ _ with Some _ => _ | None => _ end).
  - destruct (flushPersistence sql (e_pers e)) as [b p] eqn:Ef.
    pose proof (flush_pers sql _ _ _ Hp) as H1. pose proof (flush_ttl sql _ _ _ Hp) as H2.
    rewrite Ef in H1, H2. by split.
  - destruct (core_put (admin_rule ip a ttlMs now reason) (e_core e)) as [rule c] eqn:E.
    pose proof (put_pers _ _ _ _ (e_pers e) Hi (admin_rule_wf ip a ttlMs now reason Hc Ht Hn)
      (admin_rule_fit ip a ttlMs now reason _ Hc Hn Ett) Hv E Hp) as H.
    destruct (flushPersistence sql (queueRuleLocked rule (e_pers e))) as [b p] eqn:Ef.
    pose proof (flush_pers sql _ _ _ H) as H1. pose proof (flush_ttl sql _ _ _ H) as H2.
    rewrite Ef in H1, H2. split; [exact H1|]. simpl in *. by rewrite H2, queueRule_ttl.
Qed.

Lemma remove_pers sql id e :
  core_inv [] (e_core e) -> eng_pers_inv e -> c_ver (e_core e) < kDbIntMax ->
  keeps e (remove sql id e).2.
Proof.
  intros Hi Hp Hv. unfold remove, store_find.
  destruct (c_store (e_core e) !! id) as [r|] eqn:Er; cbn [negb].
  - destruct (core_erase id (e_core e)) as [v c] eqn:E.
    pose proof Hi as (_ & Hst & _). destruct (Hst _ _ Er) as (Hid & (Hne & _) & _).
    apply (core_erase_spec []) in E as (-> & Hv' & Hs & _); [|done|congruence|done].
    pose proof (queueDel_pers _ _ _ _ r false Hp Er Hid ltac:(congruence) Hv) as H.
    destruct (flushPersistence sql (queueDelLocked id _ false (e_pers e))) as [b p] eqn:Ef.
    pose proof (flush_pers sql _ _ _ H) as H1. pose proof (flush_ttl sql _ _ _ H) as H2.
    rewrite Ef in H1, H2. split.
    + unfold eng_pers_inv. simpl. by rewrite Hs, Hv'.
    + simpl in *. by rewrite H2, queueDel_ttl.
  - destruct (flushPersistence sql (e_pers e)) as [b p] eqn:Ef.
    pose proof (flush_pers sql _ _ _ Hp) as H1. pose proof (flush_ttl sql _ _ _ Hp) as H2.
    rewrite Ef in H1, H2. by split.
Qed.

Lemma expire_fold_pers now due c p last :
  core_inv due c -> c_ver c + Z.of_nat (length due) <= kDbIntMax ->
  Forall (fun n => n_expireAtMs n <= now) due -> pers_inv (c_store c) (c_ver c) p ->
  let '(c', p', _) := fold_left (expire_one now) due (c, p, last) in
  pers_inv (c_store c') (c_ver c') p' /\ p_minTtl p' = p_minTtl p.
Proof.
  revert c p last. induction due as [|n due IH]; intros c p last Hi Hv Hd Hp; cbn [fold_left]; [done|].
  inversion Hd as [|?? Hn Hd']; subst. cbn [length] in Hv.
  pose proof (expire_one_spec now due c p last n Hi ltac:(lia) Hn) as Hone.
  destruct (expire_one now (c, p, last) n) as [[c1 p1] last1].
  destruct Hone as (Hi1 & _ & [(-> & -> & _)|(r & Hr & _ & Hs & Hv1 & _ & -> & _)]).
  - apply IH; (done || lia).
  - pose proof Hi as (_ & Hst & _). destruct (Hst _ _ Hr) as (Hid & (Hne & _) & _).
    pose proof (queueDel_pers _ _ _ _ r true Hp Hr Hid ltac:(congruence) ltac:(lia)) as H.
    rewrite <- Hv1, <- Hs in H. specialize (IH c1 _ last1 Hi1 ltac:(lia) Hd' H).
    destruct (fold_left (expire_one now) due _) as [[c' p'] last'].
    by rewrite queueDel_ttl in IH.
Qed.

Lemma tickExpiry_pers sql sql' now e :
  core_inv [] (e_core e) -> eng_pers_inv e ->
  c_ver (e_core e) + Z.of_nat (length (c_expiry (e_core e))) <= kDbIntMax ->
  keeps e (tickExpiry sql sql' now e).2.
Proof.
  intros Hi Hp Hv. destruct (tickExpiry_core sql sql' now e) as (p & last & E & _ & Ep).
  pose proof (flush_pers sql _ _ _ Hp) as H1. pose proof (flush_ttl sql _ _ _ Hp) as Ht1.
  pose proof (expire_fold_pers now (popDue now (c_expiry (e_core e))).1 (pop_core now (e_core e))
    (flushPersistence sql (e_pers e)).2 None (pop_core_inv now _ Hi)) as Hf.
  rewrite E in Hf. destruct Hf as [H2 Ht2].
  - pose proof (popDue_length now (c_expiry (e_core e))). simpl c_ver. lia.
  - apply Forall_forall. intros n Hn. apply popDue_in in Hn as [_ Hn]. exact Hn.
  - exact H1.
  - split; unfold eng_pers_inv; rewrite Ep; [by apply flush_pers|].
    rewrite (flush_ttl sql' _ _ _ H2). congruence.
Qed.

Lemma eng_do_pers sql sql' now op e :
  core_inv [] (e_core e) -> eng_pers_inv e -> eng_op_ok now op e ->
  keeps e (eng_do sql sql' now op e).
Proof.
  intros Hi Hp (Hn & Hv & Hop). destruct op as [r|ip a ttl reason|id| |]; cbn [eng_do].
  - apply onRisk_pers; (done || lia).
  - destruct Hop. apply setAdmin_pers; (done || lia).
  - apply remove_pers; (done || lia).
  - apply tickExpiry_pers; (done || lia).
  - split; [by apply flush_pers|by eapply flush_ttl].
Qed.

Lemma eng_steps_pers e e' :
  eng_steps e e' -> core_inv [] (e_core e) -> eng_pers_inv e -> keeps e e'.
Proof.
  induction 1 as [e|e e1 sql sql' now op Hst IH Hok]; intros Hi Hp; [done|].
  destruct (eng_steps_core _ _ Hst Hi) as (Hi1 & _ & _).
  destruct (IH Hi Hp) as [Hp1 Ht1].
  destruct (eng_do_pers sql sql' now op e1 Hi1 Hp1 Hok) as [Hp2 Ht2].
  split; [done|congruence].
Qed.

(** ** Restart *)

(** A hub over an empty database. *)
Definition fresh_hub (random ttl : Z) : Engine := setDb (Some db_init) ttl (engine_init random).

Lemma fresh_hub_inv random ttl :
  core_inv [] (e_core (fresh_hub random ttl)) /\ eng_pers_inv (fresh_hub random ttl).
Proof.
  split; [apply engine_init_core|]. split; [done|]. exists []. split; [done|]. cbn zeta.
  split_and!; [constructor|constructor|by intros w ?%elem_of_nil|apply map_Forall_empty|].
  intros id. simpl. split; [|by intros r ?]. intros r Hr. destruct Hr as [[Hin _] _].
  by apply elem_of_nil in Hin.
Qed.

(** The rules of a store worth keeping and still in force. *)
Definition kept (ttl now : Z) (r : Rule) : Prop :=
  shouldPersist ttl r = true /\
  (rule_expireAtMs r = 0 \/ (now <= kSqlIntMax /\ now < rule_expireAtMs r)).

Lemma load_after store ver p now :
  pers_inv store ver p -> p_pending p = [] ->
  exists db rules lastVer, p_db p = Some db /\
    (db_load true now db).1 = Some (rules, lastVer) /\ 0 <= lastVer <= ver /\
    (forall r, r ∈ rules -> wf_rule r /\ 0 <= rule_version r <= lastVer) /\
    (forall r, r ∈ rules <-> store !! (rule_id r) = Some r /\ kept (p_minTtl p) now r).
Proof.
  intros (H0 & W & Hdb & Hw & Hn & Hv & _ & Hid) Hpend. rewrite Hpend in *. simpl in *.
  rewrite app_nil_r in *. destruct (db_recovers_rows W now Hw Hn) as (rules & E & Hr).
  exists (db_after W), rules, (max_ver W). split_and!; [done|done|apply max_ver_nonneg| | |].
  - destruct (max_ver_in W) as [->|(w & Hin & <-)]; [done|by apply Hv].
  - intros r Hin. apply Hr in Hin as [[[Hin _] _] _]. rewrite Forall_forall in Hw.
    destruct (Hw _ Hin) as [Wr _]. split; [done|].
    destruct Wr as (_ & _ & _ & _ & _ & _ & [Hge _]). split; [done|].
    by apply (max_ver_ge W (WSave r)).
  - intros r. rewrite Hr. specialize (Hid (rule_id r)). unfold kept.
    destruct (decide (rule_id r ∈ p_persisted p)).
    + destruct Hid as (s & Hs & Hl & Hk). split.
      * intros [Hlat He]. pose proof (is_latest_unique _ _ _ _ Hn Hlat Hl) as [= ->]. done.
      * intros [Hs' [_ He]]. rewrite Hs in Hs'. simplify_eq. done.
    + destruct Hid as (Hno & Hst). split.
      * intros [Hlat _]. by apply Hno in Hlat.
      * intros [Hs [Hk _]]. rewrite (Hst r Hs) in Hk. done.
Qed.

Lemma restore_fold rs c persisted :
  (forall r s, r ∈ rs -> s ∈ rs -> rule_id r = rule_id s -> r = s) ->
  let '(c', _) := fold_left restore_rule rs (c, persisted) in
  c_log c' = c_log c /\ c_ver c' = c_ver c /\
  (forall n, n ∈ c_expiry c -> n ∈ c_expiry c') /\
  (forall r, r ∈ rs -> c_store c' !! (rule_id r) = Some r /\
                       (rule_expireAtMs r <> 0 -> node_of r ∈ c_expiry c')) /\
  (forall k r, c_store c' !! k = Some r -> (r ∈ rs /\ rule_id r = k) \/ c_store c !! k = Some r).
Proof.
  induction rs as [|x rs IH] using rev_ind; intros Hf.
  { simpl. split_and!; try done; [by intros r ?%elem_of_nil|by right]. }
  rewrite fold_left_app. cbn [fold_left].
  destruct (fold_left restore_rule rs (c, persisted)) as [c1 q1].
  destruct IH as (I1 & I2 & I3 & I4 & I5).
  { intros r s Hr Hs. apply Hf; apply elem_of_app; by left. }
  simpl. split_and!; [done|done| | |].
  - intros n Hn. unfold exp_push. destruct (_ =? 0); [by apply I3|right; by apply I3].
  - intros r Hr. unfold store_put. destruct (decide (rule_id x = rule_id r)) as [E|E].
    + assert (x = r) as ->.
      { apply Hf; [apply elem_of_app; right; by left|done|done]. }
      rewrite lookup_insert_eq. split; [done|]. intros Hx. unfold exp_push.
      apply Z.eqb_neq in Hx. rewrite Hx. by left.
    + rewrite lookup_insert_ne by done. apply elem_of_app in Hr as [Hr|Hr].
      * destruct (I4 r Hr) as [H1 H2]. split; [done|]. intros Hx. specialize (H2 Hx).
        unfold exp_push. destruct (_ =? 0); [done|by right].
      * by apply list_elem_of_singleton in Hr as ->.
  - intros k r Hk. unfold store_put in Hk. rewrite lookup_insert in Hk. case_decide; simplify_eq.
    + left. split; [apply elem_of_app; right; by left|done].
    + destruct (I5 k r Hk) as [[H1 H2]|H1]; [left|by right].
      split; [apply elem_of_app; by left|done].
Qed.

(** A hub that is restarted loses no rule worth keeping: once its queue has been
    flushed, a new process over the same database starts with exactly the rules
    that were stored, are permanent, administrative or long enough to be kept, and
    have not expired; its state satisfies the invariant again and its version is
    not ahead of the old one. *)
Theorem restart_recovers random ttl e now random' ttl' :
  eng_steps (fresh_hub random ttl) e -> p_pending (e_pers e) = [] ->
  let '(ok, e') := restore true now (setDb (p_db (e_pers e)) ttl' (engine_init random')) in
  ok = true /\ core_inv [] (e_core e') /\ c_ver (e_core e') <= c_ver (e_core e) /\
  (forall k r, c_store (e_core e') !! k = Some r <->
     c_store (e_core e) !! k = Some r /\ kept ttl now r).
Proof.
  intros Hst Hpend. destruct (fresh_hub_inv random ttl) as [Hi0 Hp0].
  destruct (eng_steps_core _ _ Hst Hi0) as (Hi & _ & _).
  destruct (eng_steps_pers _ _ Hst Hi0 Hp0) as [Hp Httl].
  destruct (load_after _ _ _ now Hp Hpend) as (db & rules & lv & Hdb & Hload & Hlv & Hwf & Hin).
  change (p_minTtl (e_pers (fresh_hub random ttl))) with ttl in Httl. rewrite Httl in Hin.
  unfold restore. rewrite Hdb. cbn [setDb e_pers p_db e_core].
  destruct (db_load true now db) as [res db']. simpl in Hload. subst res.
  assert (Hfun : forall r s, r ∈ rules -> s ∈ rules -> rule_id r = rule_id s -> r = s).
  { intros r s Hr Hs E. apply Hin in Hr as [Hr _], Hs as [Hs _]. rewrite E in Hr. congruence. }
  pose proof (restore_fold rules (mkCore ∅ [] [] 0) ∅ Hfun) as Hf.
  cbn [engine_init e_core e_pers p_persisted].
  destruct (fold_left restore_rule rules (mkCore ∅ [] [] 0, ∅)) as [c q].
  destruct Hf as (Hlog & Hver & _ & Hput & Hget). simpl in Hlog, Hver.
  assert (Hv : (if lv >? c_ver c then lv else c_ver c) = lv).
  { rewrite Hver, Z.gtb_ltb. destruct (0 <? lv) eqn:E; b2p; lia. }
  rewrite Hv. split; [done|]. split_and!.
  - split; [simpl; lia|]. simpl. rewrite Hlog. split_and!; [|done|constructor].
    intros k r Hk. destruct (Hget k r Hk) as [[Hr <-]|Hr]; [|done].
    destruct (Hwf r Hr) as [Hw Hb]. destruct (Hput r Hr) as [_ Hn].
    split_and!; [done|done|simpl; lia|]. intros Hx. simpl. by apply Hn.
  - simpl. lia.
  - intros k r. simpl. split.
    + intros Hk. destruct (Hget k r Hk) as [[Hr <-]|Hr]; [|done]. by apply Hin.
    + intros [Hk Hkeep]. destruct Hi as (_ & Hs & _). destruct (Hs _ _ Hk) as (E & _).
      rewrite <- E in Hk. rewrite <- E. apply Hput, Hin. done.
Qed.
End persist.

(** ** A restart *)

Import DocJson.
#[local] Existing Instance insertion_StdSort.

(** A short ban and a permanent one; the database refuses the first write once. *)
Definition risk_long : Risk := mkRisk "r1" host10 WAF SCAN 3 600000 17 "sqli".
Definition risk_short : Risk := mkRisk "r2" host6 RATE RATE_ABUSE 1 5000 18 "".
Definition sql_ok : nat -> bool := fun _ => true.
Definition sql_bad : nat -> bool := fun _ => false.

Definition hub_a : Engine := eng_do sql_bad sql_ok 1000 (ORisk risk_long) (fresh_hub 77 300000).
Definition hub_b : Engine := eng_do sql_ok sql_ok 2000 (ORisk risk_short) hub_a.

Lemma hub_ab_run : eng_steps (fresh_hub 77 300000) hub_b.
Proof.
  apply es_step; [apply es_step; [apply es_refl|]|];
    (split; [unfold kDbIntMax, INT64_MAX; lia|]);
    (split; [vm_compute; congruence|]);
    unfold eng_op_ok, wf_risk; split_and!; by apply (bool_decide_unpack _); vm_compute.
Qed.

Lemma flush_spec_witness :
  length (p_pending (e_pers hub_a)) = 1%nat /\ (flushPersistence sql_ok (e_pers hub_a)).1 = true.
Proof.
  split; [vm_compute; reflexivity|].
  destruct (fresh_hub_inv 77 300000) as [Hi0 Hp0].
  assert (Hs : eng_steps (fresh_hub 77 300000) hub_a).
  { apply es_step; [apply es_refl|]. split; [unfold kDbIntMax, INT64_MAX; lia|].
    split; [vm_compute; congruence|].
    unfold wf_risk; split_and!; by apply (bool_decide_unpack _); vm_compute. }
  destruct (eng_steps_pers _ _ Hs Hi0 Hp0) as [Hp _].
  pose proof (flush_spec sql_ok _ _ _ Hp) as H.
  destruct (flushPersistence sql_ok (e_pers hub_a)) as [ok p']. apply H. reflexivity.
Defined.

Lemma restart_recovers_witness :
  let e' := (restore true 3000 (setDb (p_db (e_pers hub_b)) 300000 (engine_init 78))).2 in
  c_store (e_core e') !! "rate:2001:0db8:0000:0000:0000:0000:0000:0001"%string = None /\
  is_Some (c_store (e_core e') !! "waf:10.1.2.3"%string).
Proof.
  assert (E : p_pending (e_pers hub_b) = []) by (vm_compute; reflexivity).
  pose proof (restart_recovers 77 300000 hub_b 3000 78 300000 hub_ab_run E) as H.
  destruct (restore true 3000 _) as [ok e']. destruct H as (_ & _ & _ & H). simpl. split.
  - destruct (c_store (e_core e') !! _) as [r|] eqn:Er; [exfalso|reflexivity].
    apply H in Er as [Er [Hk _]].
    assert (K : (shouldPersist 300000 <$> c_store (e_core hub_b)
       !! "rate:2001:0db8:0000:0000:0000:0000:0000:0001"%string) = Some false)
      by (vm_compute; reflexivity).
    rewrite Er in K. injection K as K. congruence.
  - destruct (c_store (e_core hub_b) !! "waf:10.1.2.3"%string) as [r|] eqn:Er;
      [|vm_compute in Er; discriminate Er].
    exists r. apply H. split; [exact Er|].
    assert (K : ((fun r => (shouldPersist 300000 r, 3000 <? rule_expireAtMs r))
      <$> c_store (e_core hub_b) !! "waf:10.1.2.3"%string) = Some (true, true))
      by (vm_compute; reflexivity).
    rewrite Er in K. injection K as K1 K2. apply Z.ltb_lt in K2.
    split; [exact K1|right; split; [unfold kSqlIntMax, INT64_MAX; lia|exact K2]].
Defined.
