(* ===== verification/Sync.v ===== *)
(** * Replication: the hub's store and the gateway's mirror of it

    Engine.v computes what to push, Wire.v carries it, Guard.v applies it. This file
    puts the three together: what a push does to a gateway that was up to date at
    an earlier moment, and what a gateway that mirrors the hub decides. *)

From S2P Require Import Prelude Ip InetText Rule Snap Json Wire Guard Db PolicyState Engine EngineCore.

Section sync.
Context {IN : Inet} {IL : InetLaws} {JL : JsonLib} {JW : JsonLaws} {SS : StdSort}.

(** What the gateway does with a push ([SyncClient::session], pull.cpp): decode,
    check the epoch of the link, apply. *)
Definition deliver (now epoch : Z) (kind : PushKind) (body : string) (g : Guard) : bool * Guard :=
  match kind with
  | KSnap =>
      match snapFromJson body with
      | Parsed (gotEpoch, ver, rs) =>
          if negb (gotEpoch =? epoch) then (false, g) else applyRemote now gotEpoch ver rs g
      | _ => (false, g)
      end
  | KDelta =>
      match deltaFromJson body with
      | Parsed (gotEpoch, prev, ver, ops) =>
          if negb (gotEpoch =? epoch) then (false, g) else applyDelta now gotEpoch prev ver ops g
      | _ => (false, g)
      end
  end.

(** The gateway's remote rules are the hub's, up to rules whose deadline has passed
    by [now] (each side drops those on its own clock tick). *)
Definition mirrors (now : Z) (remote store : gmap string Rule) : Prop :=
  (forall k r, remote !! k = Some r -> store !! k = Some r) /\
  (forall k r, store !! k = Some r -> over now r = false -> remote !! k = Some r).

Lemma mirrors_refl now m : mirrors now m m.
Proof. by split. Qed.

Lemma over_mono r t t' : t <= t' -> over t' r = false -> over t r = false.
Proof.
  intros Ht. unfold over. destruct (rule_expireAtMs r =? 0); simpl; [done|].
  intros H. b2p. apply Z.leb_gt. lia.
Qed.

Lemma mirrors_later now now' remote store :
  now <= now' -> mirrors now remote store -> mirrors now' remote store.
Proof.
  intros Hn [H1 H2]. split; [done|]. intros k r Hk Ho. apply H2; [done|]. by eapply over_mono.
Qed.

Lemma mirrors_apply now ops remote store :
  mirrors now remote store ->
  mirrors now (fold_left apply_op ops remote) (fold_left apply_op ops store).
Proof.
  revert remote store. induction ops as [|o ops IH]; intros remote store [H1 H2]; simpl; [done|].
  apply IH. unfold apply_op. destruct (op_del o).
  - split; intros k r Hk.
    + apply lookup_delete_Some in Hk as [Hne Hk]. apply lookup_delete_Some. auto.
    + intros Ho. apply lookup_delete_Some in Hk as [Hne Hk]. apply lookup_delete_Some. auto.
  - split; intros k r Hk.
    + rewrite lookup_insert in *. case_decide; auto.
    + intros Ho. rewrite lookup_insert in *. case_decide; auto.
Qed.

(** A local tick of the gateway keeps the mirror. *)
Lemma mirrors_tick now now' g store :
  mirrors now (g_remote g) store -> now <= now' ->
  mirrors now' (g_remote (guard_tickExpiry now' now' g).2) store.
Proof.
  intros Hm Hn. apply (mirrors_later _ now') in Hm; [|done].
  unfold guard_tickExpiry. repeat case_match; try exact Hm. simpl. destruct Hm as [H1 H2].
  split.
  - intros k r Hk. apply map_lookup_filter_Some in Hk as [Hk _]. auto.
  - intros k r Hk Ho. apply map_lookup_filter_Some. split; [by apply H2|]. exact Ho.
Qed.

(** ** Full snapshots *)

Lemma store_all_wf c : core_inv [] c -> Forall wf_rule (store_all (c_store c)).
Proof.
  intros (_ & Hst & _). apply Forall_forall. intros r Hr.
  apply elem_of_remote_rules in Hr as [k Hk]. apply (Hst k r Hk).
Qed.

Lemma store_all_distinct c : core_inv [] c -> distinct_ids (store_all (c_store c)).
Proof.
  intros (_ & Hst & _). unfold distinct_ids, store_all.
  assert (E : map rule_id (map_to_list (c_store c)).*2 = (map_to_list (c_store c)).*1).
  { rewrite map_map. apply map_ext_Forall, Forall_forall. intros [k r] Hk.
    apply elem_of_map_to_list in Hk. simpl. apply (Hst k r Hk). }
  rewrite E. apply NoDup_fst_map_to_list.
Qed.

Lemma remote_of_fold rs (m0 : gmap string Rule) k :
  distinct_ids rs -> Forall (fun r => rule_id r <> ""%string) rs ->
  fold_left (fun m r => if String.eqb (rule_id r) "" then m else <[rule_id r := r]> m) rs m0 !! k
  = match List.find (fun r => String.eqb (rule_id r) k) rs with
    | Some r => Some r | None => m0 !! k end.
Proof.
  revert m0. induction rs as [|r rs IH]; intros m0 Hd Hn; cbn [fold_left List.find]; [done|].
  inversion Hn as [|?? Hr Hn']; subst. unfold distinct_ids in Hd. simpl in Hd.
  apply NoDup_cons in Hd as [Hd1 Hd2].
  apply String.eqb_neq in Hr. rewrite Hr, IH by done.
  destruct (String.eqb (rule_id r) k) eqn:E.
  - apply String.eqb_eq in E. subst k.
    destruct (List.find (fun r0 => String.eqb (rule_id r0) (rule_id r)) rs) as [r'|] eqn:Ef.
    + exfalso. apply find_some in Ef as [Hin He]. apply String.eqb_eq in He. apply Hd1.
      rewrite <- He. apply list_elem_of_fmap_2, list_elem_of_In, Hin.
    + by rewrite lookup_insert_eq.
  - apply String.eqb_neq in E. by rewrite lookup_insert_ne by done.
Qed.

(** Collecting the rules of a snapshot rebuilds the store. *)
Lemma remote_of_store c : core_inv [] c -> remote_of (store_all (c_store c)) = c_store c.
Proof.
  intros Hi. pose proof (store_all_wf c Hi) as Hw. pose proof (store_all_distinct c Hi) as Hd.
  destruct Hi as (_ & Hst & _). apply map_eq. intros k. unfold remote_of.
  rewrite remote_of_fold; [|done|eapply Forall_impl; [exact Hw|by intros r [? _]]].
  destruct (List.find _ _) as [r|] eqn:Ef.
  - apply find_some in Ef as [Hin He]. apply String.eqb_eq in He. subst k.
    apply list_elem_of_In, elem_of_remote_rules in Hin as [k Hk].
    destruct (Hst k r Hk) as (<- & _). done.
  - rewrite lookup_empty. destruct (c_store c !! k) as [r|] eqn:Ek; [exfalso|done].
    assert (Hin : r ∈ store_all (c_store c)) by (apply elem_of_remote_rules; by exists k).
    apply list_elem_of_In in Hin. pose proof (find_none _ _ Ef r Hin) as Hf. simpl in Hf.
    destruct (Hst k r Ek) as (E & _). rewrite E, String.eqb_refl in Hf. done.
Qed.

(** ** Increments *)

(** What [nextPush] collects for a gateway that was at the version of [c] is what
    happened since. *)
Lemma collect_advances c c' ops :
  core_inv [] c -> core_inv [] c' -> advances c c' ops -> c_ver c' <= kDbIntMax ->
  canCover (c_ver c) (c_log c') = true ->
  collect (c_ver c) (c_ver c') (c_log c') = ops.
Proof.
  intros Hi Hi' (_ & Hv & es & k & Hm & Hc & Hk & Hl) Hb Hcov.
  assert (Hlen : length es = length ops) by (by rewrite <- Hm, length_map).
  destruct Hi as (H0 & _ & Hlog & _), Hi' as (_ & _ & Hlog' & _).
  destruct (decide (k <= length (c_log c))%nat) as [Hkl|Hkl].
  - rewrite Hl, drop_app_le by done. rewrite Hl, drop_app_le in Hlog' by done.
    set (pre := drop k (c_log c)) in *.
    pose proof (collect_suffix _ pre es Hlog') as Hs. rewrite Hm in Hs.
    rewrite length_app in Hs, Hlog'. rewrite Hlen in Hs.
    replace (c_ver c' + 1 - Z.of_nat (length pre + length ops) + Z.of_nat (length pre) - 1)
      with (c_ver c) in Hs by lia.
    replace (c_ver c' + 1 - Z.of_nat (length pre + length ops)
             + Z.of_nat (length pre + length ops) - 1) with (c_ver c') in Hs by lia.
    done.
  - exfalso. rewrite Hl in Hcov, Hlog'. unfold canCover in Hcov.
    rewrite length_drop, length_app in Hlog'. rewrite length_app in Hk.
    destruct (drop k (c_log c ++ es)) as [|[v op] rest]; [done|].
    simpl in Hlog'. destruct Hlog' as [-> _]. rewrite Z.geb_leb in Hcov.
    rewrite wrap64_id in Hcov by (unfold is_u64, kDbIntMax, INT64_MAX in *; lia).
    b2p. lia.
Qed.

Lemma collect_wf from to l : Forall wf_op (map snd l) -> Forall wf_op (collect from to l).
Proof.
  intros H. unfold collect. rewrite Forall_forall in *. intros op Hop.
  apply list_elem_of_fmap in Hop as (e & -> & He). apply elem_of_filter_bool in He as [He _].
  apply H. by apply list_elem_of_fmap_2.
Qed.

Lemma wf_op_ok op : wf_op op -> op_ok op = true.
Proof.
  unfold wf_op, op_ok. destruct (op_del op) eqn:E; intros [H1 H2].
  - apply String.eqb_neq in H1. by rewrite H1.
  - rewrite H2. simpl. destruct H1 as (Hn & _). apply String.eqb_neq in Hn. rewrite Hn.
    by rewrite String.eqb_refl.
Qed.

(** ** The theorem *)

(** [g] holds what the hub [e] held at its version, expired rules apart. *)
Definition up_to_date (now : Z) (g : Guard) (e : Engine) : Prop :=
  g_remoteEpoch g = e_epoch e /\ g_remoteVer g = c_ver (e_core e) /\
  mirrors now (g_remote g) (c_store (e_core e)).

Lemma nextPush_none e v : nextPush v true e = None -> v = c_ver (e_core e).
Proof.
  unfold nextPush. destruct (v =? c_ver (e_core e)) eqn:E; simpl; [by b2p|].
  destruct (_ || _); done.
Qed.

Lemma push_snap now g e :
  core_inv [] (e_core e) -> is_u64 (e_epoch e) -> c_ver (e_core e) <= kDbIntMax ->
  (g_remoteEpoch g = e_epoch e -> g_remoteVer g < c_ver (e_core e)) ->
  let '(ok, g') := deliver now (e_epoch e) KSnap
      (snapToJson (e_epoch e) (c_ver (e_core e)) (store_all (c_store (e_core e)))) g in
  ok = true /\ up_to_date now g' e.
Proof.
  intros Hi He Hv Hlt. unfold deliver.
  rewrite snap_roundtrip; [|done| |by apply store_all_wf|by apply store_all_distinct].
  2: { destruct Hi as [H0 _]. unfold is_u64, kDbIntMax, INT64_MAX in *. lia. }
  rewrite Z.eqb_refl. cbn [negb]. unfold applyRemote.
  destruct ((g_remoteEpoch g =? e_epoch e) && _) eqn:E; [b2p; specialize (Hlt H); lia|].
  split; [done|]. split; [done|]. split; [done|]. cbn. rewrite remote_of_store by done.
  apply mirrors_refl.
Qed.

(** What [nextPush] sends for the version of [e1] brings [g] to [e2]. *)
Lemma push_applies now g e1 e2 kind body ver :
  core_inv [] (e_core e1) -> is_u64 (e_epoch e1) -> c_ver (e_core e2) <= kDbIntMax ->
  eng_steps e1 e2 -> up_to_date now g e1 ->
  nextPush (c_ver (e_core e1)) true e2 = Some (kind, body, ver) ->
  exists g', deliver now (e_epoch e2) kind body g = (true, g') /\ ver = c_ver (e_core e2) /\
    up_to_date now g' e2.
Proof.
  intros Hi1 He Hb Hst (Ge & Gv & Gm) En.
  destruct (eng_steps_core _ _ Hst Hi1) as (Hi2 & Ee & ops & Ha).
  pose proof Ha as (Hs & Hv & _). rewrite <- Ee in Ge, He.
  unfold nextPush in En. destruct (c_ver (e_core e1) =? c_ver (e_core e2)) eqn:E0; [done|].
  cbn [andb negb orb] in En. b2p.
  destruct ((c_ver (e_core e2) <? c_ver (e_core e1)) || negb (canCover (c_ver (e_core e1)) (c_log (e_core e2)))) eqn:Ef.
  - simplify_eq. pose proof (push_snap now g e2 Hi2 He Hb ltac:(lia)) as H.
    destruct (deliver _ _ _ _ g) as [ok g']. destruct H as [-> H]. by exists g'.
  - b2p. simplify_eq. unfold deliver.
    destruct Hi2 as (H2 & Hst2 & Hlog2 & Hops2).
    pose proof (collect_wf (c_ver (e_core e1)) (c_ver (e_core e2)) _ Hops2) as Hw.
    rewrite (collect_advances _ _ ops Hi1 (conj H2 (conj Hst2 (conj Hlog2 Hops2))) Ha Hb H0) in *.
    rewrite delta_roundtrip; [|done| | |done].
    2, 3: destruct Hi1 as [H1 _]; unfold is_u64, kDbIntMax, INT64_MAX in *; lia.
    rewrite Z.eqb_refl. cbn [negb]. unfold applyDelta.
    rewrite Ge, Gv, !Z.eqb_refl. cbn [negb].
    replace (c_ver (e_core e2) <=? c_ver (e_core e1)) with false by lia.
    assert (Hf : forallb op_ok ops = true).
    { apply forallb_forall. intros op Hin. apply wf_op_ok. rewrite Forall_forall in Hw.
      by apply Hw, list_elem_of_In. }
    rewrite Hf. cbn [negb]. eexists. split; [reflexivity|]. split; [done|]. split; [done|]. split; [done|].
    cbn. rewrite Hs. by apply mirrors_apply.
Qed.

(** C1: replication is correct: a gateway that was up to date at some moment [e1] of
    the hub, and is sent at a later moment [e2] what [nextPush] computes for its
    version (the increment when the log still covers it, the full list
    otherwise), accepts it and is up to date with [e2]; when there is nothing to
    send it already is. *)
Theorem replication now g e1 e2 :
  core_inv [] (e_core e1) -> is_u64 (e_epoch e1) -> c_ver (e_core e2) <= kDbIntMax ->
  eng_steps e1 e2 -> up_to_date now g e1 ->
  match nextPush (c_ver (e_core e1)) true e2 with
  | None => up_to_date now g e2
  | Some (kind, body, ver) =>
      let '(ok, g') := deliver now (e_epoch e2) kind body g in
      ok = true /\ ver = c_ver (e_core e2) /\ up_to_date now g' e2
  end.
Proof.
  intros Hi1 He Hb Hst G.
  destruct (nextPush (c_ver (e_core e1)) true e2) as [[[kind body] ver]|] eqn:En.
  - destruct (push_applies now g e1 e2 kind body ver Hi1 He Hb Hst G En) as (g' & -> & Hv & G').
    by split_and!.
  - destruct G as (Ge & Gv & Gm). destruct (eng_steps_core _ _ Hst Hi1) as (Hi2 & Ee & ops & Ha).
    pose proof Ha as (Hs & Hv & _). apply nextPush_none in En. destruct ops; [|simpl in Hv; lia].
    split; [congruence|]. split; [congruence|]. by rewrite Hs.
Qed.

(** A gateway that connects with another epoch, or for the first time, is up to
    date after the one full push it is sent. *)
Theorem first_push now g e v :
  core_inv [] (e_core e) -> is_u64 (e_epoch e) -> c_ver (e_core e) <= kDbIntMax ->
  g_remoteEpoch g <> e_epoch e ->
  exists body, nextPush v false e = Some (KSnap, body, c_ver (e_core e)) /\
    let '(ok, g') := deliver now (e_epoch e) KSnap body g in ok = true /\ up_to_date now g' e.
Proof.
  intros Hi He Hv Hne. eexists. split; [reflexivity|].
  apply push_snap; [done..|]. intros E. by apply Hne in E.
Qed.

(** ** Deciding by the mirror *)

Lemma over_expired r t : over t r = true -> t <> 0 -> expired r t = true.
Proof.
  unfold over, expired. intros H Ht. b2p. apply Z.eqb_neq in Ht, H. rewrite H, Ht.
  simpl. by apply Z.geb_le.
Qed.

(** A gateway that mirrors the hub decides as the hub's own rules, together with
    its static ones, would: the rules either side has already dropped are expired
    and change nothing. *)
Theorem mirror_decides now g store ip t :
  guard_reach now g -> wf_ip ip -> full ip = true -> now <= t -> 0 < t ->
  mirrors now (g_remote g) store -> enabled g = true ->
  let e := guard_eval g ip t in
  let r := eval_ref (g_default g) (g_static g ++ store_all store) ip t in
  v_action e = v_action r /\ v_matched e = v_matched r.
Proof.
  intros Hr Hw Hf Ht Ht0 [M1 M2] Hen. cbn zeta.
  pose proof (guard_eval_current now g ip t Hr Hw Hf Ht) as H. rewrite Hen in H.
  destruct H as [-> ->]. unfold eval_ref.
  pose proof (ref_pick_best (List.filter (applies ip t) (g_rules g)) None) as B1.
  pose proof (ref_pick_best (List.filter (applies ip t) (g_static g ++ store_all store)) None) as B2.
  apply (best_in_ext beats _ (fun y => None = Some y \/
    y ∈ List.filter (applies ip t) (g_rules g))) in B2.
  - pose proof (best_in_tie beats _ _ _ B1 B2) as Htie.
    destruct (fold_left ref_pick (List.filter _ (g_rules g)) None) as [x|],
      (fold_left ref_pick _ None) as [y|]; try done.
    destruct Htie as [T1 T2]. destruct (tie_action x y T1 T2) as (Ha & _). done.
  - intros y. unfold g_rules. rewrite !elem_of_filter_bool, !elem_of_app.
    unfold store_all. fold (remote_rules store). rewrite !elem_of_remote_rules.
    split; intros [Hy|[Hy Ha]]; try (by left); right; (split; [|done]).
    + destruct Hy as [Hy|[k Hk]]; [by left|right]. exists k. apply M2; [done|].
      destruct (over now y) eqn:Eo; [exfalso|done].
      assert (Ho : over t y = true).
      { destruct (over t y) eqn:E; [done|]. by rewrite (over_mono y now t Ht E) in Eo. }
      unfold applies in Ha. rewrite (over_expired y t Ho) in Ha by lia. done.
    + destruct Hy as [Hy|[k Hk]]; [by left|right]. exists k. by apply M1.
Qed.
End sync.

(** ** A hub and a gateway *)

Import DocJson.
#[local] Existing Instance insertion_StdSort.

Definition all_ok : nat -> bool := fun _ => true.
Definition risk_b : Risk := mkRisk "r2" host6 RATE RATE_ABUSE 1 5000 18 "".

Definition hub0 : Engine := engine_init 77.
Definition hub1 : Engine := eng_do all_ok all_ok 1000 (ORisk risk_a) hub0.
Definition hub2 : Engine := eng_do all_ok all_ok 2000 (ORisk risk_b) hub1.

Lemma risks_wf : wf_risk risk_a /\ wf_risk risk_b.
Proof. split; unfold wf_risk; split_and!; by apply (bool_decide_unpack _); vm_compute. Qed.

Lemma hub_run : eng_steps hub0 hub1 /\ eng_steps hub1 hub2.
Proof.
  destruct risks_wf as [A B].
  split; (apply es_step; [apply es_refl|]); (split; [unfold kDbIntMax, INT64_MAX; lia|]);
    (split; [|done]); vm_compute; congruence.
Qed.

Lemma hub_inv : core_inv [] (e_core hub0) /\ core_inv [] (e_core hub1) /\ core_inv [] (e_core hub2).
Proof.
  destruct hub_run as [R1 R2].
  assert (I0 : core_inv [] (e_core hub0)) by apply engine_init_core.
  destruct (eng_steps_core _ _ R1 I0) as (I1 & _).
  destruct (eng_steps_core _ _ R2 I1) as (I2 & _). done.
Qed.

Lemma hub_bounds :
  is_u64 (e_epoch hub1) /\ c_ver (e_core hub1) = 1 /\ c_ver (e_core hub2) = 2 /\ e_epoch hub1 = 77 /\
  c_expiry (e_core hub2) = [mkNode 7000 "rate:2001:0db8:0000:0000:0000:0000:0000:0001" 2;
                            mkNode 61000 "waf:10.1.2.3" 1].
Proof. split_and!; try (vm_compute; reflexivity). split; vm_compute; congruence. Qed.

Definition gw1 : Guard :=
  (deliver 1500 77 KSnap (snapToJson 77 1 (store_all (c_store (e_core hub1))))
     (setRemoteEnabled guard_init true)).2.

Lemma gw1_up_to_date : up_to_date 1500 gw1 hub1.
Proof.
  destruct hub_inv as (_ & I1 & _). destruct hub_bounds as (U & V1 & _ & E1 & _).
  pose proof (push_snap 1500 (setRemoteEnabled guard_init true) hub1 I1 U) as H.
  rewrite V1, E1 in H. unfold gw1.
  destruct (deliver 1500 77 KSnap _ (setRemoteEnabled guard_init true)) as [ok g'].
  apply H; [unfold kDbIntMax, INT64_MAX; lia|done].
Qed.

Lemma replication_witness :
  exists body, nextPush 1 true hub2 = Some (KDelta, body, 2) /\
    g_remoteVer (deliver 2500 77 KDelta body gw1).2 = 2.
Proof.
  destruct hub_inv as (_ & I1 & _). destruct hub_run as [_ R2].
  destruct hub_bounds as (U & V1 & V2 & E1 & _).
  assert (B : c_ver (e_core hub2) <= kDbIntMax) by (rewrite V2; unfold kDbIntMax, INT64_MAX; lia).
  pose proof (replication 2500 gw1 hub1 hub2 I1 U B R2) as H. rewrite V1 in H.
  assert (K : (fun x => x.1.1) <$> nextPush 1 true hub2 = Some KDelta) by (vm_compute; reflexivity).
  assert (E2 : e_epoch hub2 = 77) by (vm_compute; reflexivity). rewrite E2, V2 in H.
  destruct (nextPush 1 true hub2) as [[[kind body] ver]|]; [|discriminate K].
  simpl in K. injection K as ->. exists body.
  pose proof gw1_up_to_date as G.
  assert (G' : up_to_date 2500 gw1 hub1).
  { destruct G as (G1 & G2 & G3). split; [exact G1|]. split; [exact G2|].
    apply (mirrors_later 1500); [lia|exact G3]. }
  specialize (H G'). destruct (deliver 2500 77 KDelta body gw1) as [ok g'].
  destruct H as (_ & -> & _ & Hv & _). split; [reflexivity|]. simpl. rewrite Hv. exact V2.
Defined.

Lemma first_push_witness :
  exists body, nextPush 0 false hub2 = Some (KSnap, body, 2) /\
    g_remoteVer (deliver 2500 77 KSnap body guard_init).2 = 2.
Proof.
  destruct hub_inv as (_ & _ & I2). destruct hub_bounds as (_ & _ & V2 & _).
  assert (B : c_ver (e_core hub2) <= kDbIntMax) by (rewrite V2; unfold kDbIntMax, INT64_MAX; lia).
  assert (E2 : e_epoch hub2 = 77) by (vm_compute; reflexivity).
  assert (U : is_u64 (e_epoch hub2)) by (rewrite E2; unfold is_u64; lia).
  assert (N : g_remoteEpoch guard_init <> e_epoch hub2) by (rewrite E2; discriminate).
  destruct (first_push 2500 guard_init hub2 0 I2 U B N) as (body & Hp & H).
  rewrite V2 in Hp. rewrite E2 in H. exists body. split; [exact Hp|].
  destruct (deliver 2500 77 KSnap body guard_init) as [ok g']. destruct H as (_ & _ & H & _).
  simpl. rewrite H. exact V2.
Defined.

Lemma gw1_reach : guard_reach 1500 gw1.
Proof.
  assert (E : gw1 = guard_do 1500 (GApplyRemote 77 1 (store_all (c_store (e_core hub1))))
                      (guard_do 1000 (GSetRemoteEnabled true) guard_init)).
  { unfold gw1, deliver. rewrite snap_roundtrip; [reflexivity| | | |].
    - unfold is_u64; lia.
    - unfold is_u64; lia.
    - apply store_all_wf, hub_inv.
    - apply store_all_distinct, hub_inv. }
  rewrite E. apply (gr_step 1000); [apply (gr_step 0); [by apply gr_init|lia|done]|lia|].
  cbn [op_rules_ok]. destruct hub_inv as (_ & I1 & _). pose proof (store_all_wf _ I1) as H.
  eapply Forall_impl; [exact H|]. intros r (_ & [Hw _] & _). exact Hw.
Qed.

Lemma mirror_decides_witness :
  v_action (guard_eval gw1 host10 3000) = DENY /\ v_action (guard_eval gw1 host10 70000) = ALLOW.
Proof.
  pose proof gw1_up_to_date as (_ & _ & M). pose proof gw1_reach as R.
  destruct witness_rules_wf as (A & B & _).
  assert (En : enabled gw1 = true) by (vm_compute; reflexivity).
  destruct (mirror_decides 1500 gw1 _ host10 3000 R A B ltac:(lia) ltac:(lia) M En) as [E1 _].
  destruct (mirror_decides 1500 gw1 _ host10 70000 R A B ltac:(lia) ltac:(lia) M En) as [E2 _].
  rewrite E1, E2. vm_compute. split; reflexivity.
Defined.

Lemma tickExpiry_exact_witness :
  c_store (e_core (tickExpiry all_ok all_ok 8000 hub2).2) !! "waf:10.1.2.3"%string
  = c_store (e_core hub2) !! "waf:10.1.2.3"%string /\
  c_store (e_core (tickExpiry all_ok all_ok 8000 hub2).2)
    !! "rate:2001:0db8:0000:0000:0000:0000:0000:0001"%string = None.
Proof.
  destruct hub_inv as (_ & _ & I2).
  assert (B : c_ver (e_core hub2) + Z.of_nat (length (c_expiry (e_core hub2))) <= kDbIntMax)
    by (vm_compute; congruence).
  split.
  - destruct (c_store (e_core hub2) !! "waf:10.1.2.3"%string) as [r|] eqn:Er.
    + apply (tickExpiry_exact all_ok all_ok 8000 hub2 _ r I2 B). split; [exact Er|].
      assert (Er' : (over 8000 <$> c_store (e_core hub2) !! "waf:10.1.2.3"%string) = Some false)
        by (vm_compute; reflexivity).
      rewrite Er in Er'. injection Er' as Er'. exact Er'.
    + exfalso. vm_compute in Er. discriminate Er.
  - destruct (c_store _ !! _) as [r|] eqn:Er; [exfalso|reflexivity].
    apply (tickExpiry_exact all_ok all_ok 8000 hub2 _ r I2 B) in Er as [Er Ho].
    assert (Er' : (over 8000 <$> c_store (e_core hub2)
      !! "rate:2001:0db8:0000:0000:0000:0000:0000:0001"%string) = Some true) by (vm_compute; reflexivity).
    rewrite Er in Er'. injection Er' as Er'. congruence.
Defined.

Lemma onRisk_exact_witness :
  (onRisk all_ok 1000 risk_a hub0).1 = (true, Some 1) /\
  (onRisk all_ok 1001 risk_a hub1).1 = (false, None).
Proof.
  destruct hub_inv as (I0 & I1 & _). destruct risks_wf as [A _].
  assert (N : 0 <= 1000 <= kDbIntMax) by (unfold kDbIntMax, INT64_MAX; lia).
  assert (N' : 0 <= 1001 <= kDbIntMax) by (unfold kDbIntMax, INT64_MAX; lia).
  assert (V : c_ver (e_core hub0) < kDbIntMax) by (vm_compute; reflexivity).
  assert (V' : c_ver (e_core hub1) < kDbIntMax) by (vm_compute; reflexivity).
  pose proof (onRisk_exact all_ok 1000 risk_a hub0 I0 A N V) as H.
  pose proof (onRisk_exact all_ok 1001 risk_a hub1 I1 A N' V') as H'.
  destruct (onRisk all_ok 1000 risk_a hub0) as [[c f] e'].
  destruct (onRisk all_ok 1001 risk_a hub1) as [[c' f'] e''].
  assert (R : ~ (duplicate 1000 risk_a hub0 \/ beaten 1000 risk_a hub0)).
  { intros [(_ & t & Ht & _)|(ex & He & _)]; [by vm_compute in Ht|by vm_compute in He]. }
  assert (R' : duplicate 1001 risk_a hub1) by (split; [done|]; exists 1000; split; [by vm_compute|lia]).
  destruct H as (H1 & H2 & _). apply H1 in R as ->. destruct (H2 eq_refl) as (-> & _ & Hv & _).
  destruct H' as (H1' & _ & H2' & _). destruct c'; [exfalso; apply (proj1 H1' eq_refl); by left|].
  destruct (H2' eq_refl) as (-> & _). by split.
Defined.
