(* ===== verification/Proto.v ===== *)
(** * The framing of the control protocol (src/ipban/proto.h, src/ipban/proto.cpp)

    A 20-byte big-endian head and a body. A socket is the script of what its
    [recv] (or [send]) calls return; a stream may be cut into segments anywhere. *)

From S2P Require Import Prelude.

(** ** Data *)

Definition kMagic : Z := 1111576113.   (* 0x42414e31 *)
Definition kVersion : Z := 2.
Definition kMaxBody : Z := 8 * 1024 * 1024.
Definition kHeadSize : nat := 20.

Inductive Kind :=
| HELLO | RISK | SNAP_REQ | SNAP | ACK | PING | ERR | DELTA | PONG | READY | BYE
| PUT | DEL | LIST | RESULT.

#[global] Instance Kind_eq_dec : EqDecision Kind.
Proof. solve_decision. Defined.

Definition kind_code (k : Kind) : Z :=
  match k with
  | HELLO => 1 | RISK => 2 | SNAP_REQ => 3 | SNAP => 4 | ACK => 5 | PING => 6 | ERR => 7
  | DELTA => 8 | PONG => 9 | READY => 10 | BYE => 11 | PUT => 12 | DEL => 13 | LIST => 14
  | RESULT => 15
  end.

Record Head := mkHead {
  h_magic : Z; h_version : Z; h_kind : Z; h_bodyLen : Z; h_seq : Z }.

Inductive MsgRet := OK | CLOSED | BADMSG | IOERR.
Inductive IoErr := IoNone | IoClosed | IoCanceled | IoTimeout | IoSystem.
Inductive FrameErr := FrNone | SHORT_HEAD | BAD_MAGIC | BAD_VER | BAD_KIND | TOO_BIG | SHORT_BODY.

#[global] Instance FrameErr_eq_dec : EqDecision FrameErr.
Proof. solve_decision. Defined.

Record ProtoErr := mkProtoErr { pe_io : IoErr; pe_frame : FrameErr; pe_sys : Z }.
Definition no_err : ProtoErr := mkProtoErr IoNone FrNone 0.
Definition with_frame (e : ProtoErr) (f : FrameErr) : ProtoErr := mkProtoErr (pe_io e) f (pe_sys e).

Record Msg := mkMsg { msg_kind : Kind; msg_seq : Z; msg_body : list Z }.

(** ** Packing *)

Definition byte_at (v : Z) (shift : Z) : Z := Z.land (Z.shiftr v shift) 255.

Definition put32 (v : Z) : list Z := [byte_at v 24; byte_at v 16; byte_at v 8; Z.land v 255].
Definition put16 (v : Z) : list Z := [byte_at v 8; Z.land v 255].
Definition put64 (v : Z) : list Z :=
  map (fun i => byte_at v (i * 8)) [7; 6; 5; 4; 3; 2; 1; 0].

Definition get32 (a b c d : Z) : Z :=
  Z.lor (Z.lor (Z.lor (Z.shiftl a 24) (Z.shiftl b 16)) (Z.shiftl c 8)) d.
Definition get16 (a b : Z) : Z := Z.lor (Z.shiftl a 8) b.
Definition get64 (p : list Z) : Z := fold_left (fun v b => Z.lor (wrap64 (Z.shiftl v 8)) b) p 0.

Definition knownKind (kind : Z) : option Kind :=
  List.find (fun k => kind_code k =? kind)
    [HELLO; RISK; SNAP_REQ; SNAP; ACK; PING; ERR; DELTA; PONG; READY; BYE; PUT; DEL; LIST; RESULT].

Definition packHead (h : Head) : list Z :=
  put32 (h_magic h) ++ put16 (h_version h) ++ put16 (h_kind h) ++ put32 (h_bodyLen h) ++ put64 (h_seq h).

(** The head read from [buf], which has [kHeadSize] bytes. *)
Definition read_head (buf : list Z) : Head :=
  let p i := nth i buf 0 in
  mkHead (get32 (p 0%nat) (p 1%nat) (p 2%nat) (p 3%nat)) (get16 (p 4%nat) (p 5%nat))
         (get16 (p 6%nat) (p 7%nat)) (get32 (p 8%nat) (p 9%nat) (p 10%nat) (p 11%nat))
         (get64 (take 8 (drop 12 buf))).

Definition headErr (buf : list Z) : FrameErr * Head :=
  let h := read_head buf in
  (if negb (h_magic h =? kMagic) then BAD_MAGIC
   else if negb (h_version h =? kVersion) then BAD_VER
   else if negb (bool_decide (is_Some (knownKind (h_kind h)))) then BAD_KIND
   else if h_bodyLen h >? kMaxBody then TOO_BIG
   else FrNone, h).

Definition unpackHead (buf : list Z) : bool * Head :=
  let '(e, h) := headErr buf in (bool_decide (e = FrNone), h).

(** ** Sockets *)

Definition EINTR : Z := 4.
Definition EAGAIN : Z := 11.
Definition EINVAL : Z := 22.
Definition EPIPE : Z := 32.
Definition EPROTO : Z := 71.
Definition EMSGSIZE : Z := 90.
Definition ECONNRESET : Z := 104.
Definition ENOTCONN : Z := 107.
Definition ETIMEDOUT : Z := 110.
Definition ECANCELED : Z := 125.

(** [EWOULDBLOCK] is [EAGAIN] on Linux. *)
Definition ioErr (e : Z) : IoErr :=
  if e =? ECANCELED then IoCanceled
  else if (e =? ETIMEDOUT) || (e =? EAGAIN) then IoTimeout
  else if (e =? EPIPE) || (e =? ECONNRESET) || (e =? ENOTCONN) then IoClosed
  else IoSystem.

(** What arrives: a segment of at least one byte, the end of the stream, an error. *)
Inductive recv_ev := Seg (b : Z) (bs : list Z) | Eof | RErr (e : Z).

(** [readExact] for [len] bytes: the result, the bytes read, the error and the rest
    of the script. [None]: the script ends and the call still waits. A segment
    longer than what is asked for stays in the socket. *)
Fixpoint readExact (s : list recv_ev) (len : nat) (got : list Z)
    : option (MsgRet * list Z * ProtoErr * list recv_ev) :=
  match len with
  | O => Some (OK, got, no_err, s)
  | S _ =>
      match s with
      | [] => None
      | RErr e :: s' =>
          if e =? EINTR then readExact s' len got
          else Some (IOERR, got, mkProtoErr (ioErr e) FrNone e, s')
      | Eof :: s' => Some (CLOSED, got, mkProtoErr IoClosed FrNone 0, s')
      | Seg b bs :: s' =>
          if (length bs <? len)%nat then readExact s' (len - S (length bs)) (got ++ b :: bs)
          else
            let all := b :: bs in
            Some (OK, got ++ take len all, no_err,
                  match drop len all with [] => s' | c :: cs => Seg c cs :: s' end)
      end
  end.

(** What [send] returns: bytes accepted (at least one), nothing, an error. *)
Inductive send_ev := Sent (n : nat) | SentZero | SErr (e : Z).

(** [sendAll]: success, the bytes put on the wire and the error. *)
Fixpoint sendAll (s : list send_ev) (data out : list Z) : option (bool * list Z * ProtoErr) :=
  match data with
  | [] => Some (true, out, no_err)
  | _ :: _ =>
      match s with
      | [] => None
      | SErr e :: s' =>
          if e =? EINTR then sendAll s' data out
          else Some (false, out, mkProtoErr (ioErr e) FrNone e)
      | SentZero :: _ => Some (false, out, mkProtoErr IoClosed FrNone 0)
      | Sent n :: s' => sendAll s' (drop (S n) data) (out ++ take (S n) data)
      end
  end.

(** The bytes of a message. *)
Definition frame (kind : Kind) (body : list Z) (seq : Z) : list Z :=
  packHead (mkHead kMagic kVersion (kind_code kind) (Z.of_nat (length body)) seq) ++ body.

(** [knownKind] holds of every [Kind]. *)
Definition sendMsg (s : list send_ev) (kind : Kind) (body : list Z) (seq : Z)
    : option (bool * list Z * ProtoErr) :=
  if Z.of_nat (length body) >? kMaxBody then Some (false, [], mkProtoErr IoNone TOO_BIG EMSGSIZE)
  else sendAll s (frame kind body seq) [].

Definition recvMsg (s : list recv_ev) : option (MsgRet * option Msg * ProtoErr * list recv_ev) :=
  match readExact s kHeadSize [] with
  | None => None
  | Some (OK, hb, err, s1) =>
      let '(fe, h) := headErr hb in
      match fe, knownKind (h_kind h) with
      | FrNone, Some kind =>
          if h_bodyLen h >? 0 then
            match readExact s1 (Z.to_nat (h_bodyLen h)) [] with
            | None => None
            | Some (OK, body, err, s2) => Some (OK, Some (mkMsg kind (h_seq h) body), err, s2)
            | Some (r, got, err, s2) =>
                if negb (length got =? 0)%nat || match r with CLOSED => true | _ => false end
                then Some (BADMSG, None, with_frame err SHORT_BODY, s2)
                else Some (r, None, err, s2)
            end
          else Some (OK, Some (mkMsg kind (h_seq h) []), err, s1)
      | _, _ => Some (BADMSG, None, with_frame err fe, s1)
      end
  | Some (r, got, err, s1) =>
      if negb (length got =? 0)%nat then Some (BADMSG, None, with_frame err SHORT_HEAD, s1)
      else Some (r, None, err, s1)
  end.

(** ** Big-endian numbers *)

Lemma lor_shiftl_add a k b : 0 <= k -> 0 <= b < 2 ^ k -> Z.lor (Z.shiftl a k) b = a * 2 ^ k + b.
Proof.
  intros Hk Hb. rewrite Z.shiftl_mul_pow2 by done.
  rewrite <- (Z.lxor_lor (a * 2 ^ k) b), <- Z.add_nocarry_lxor; try done.
  all: apply Z.bits_inj'; intros n Hn; rewrite Z.land_spec, Z.bits_0.
  all: destruct (decide (n < k)); [rewrite Z.mul_pow2_bits_low by lia; done|].
  all: rewrite andb_comm; replace (Z.testbit b n) with false; [done|symmetry].
  all: destruct (decide (b = 0)) as [->|]; [apply Z.bits_0|].
  all: apply Z.bits_above_log2; [lia|]; apply Z.lt_le_trans with k; [apply Z.log2_lt_pow2; lia|lia].
Qed.

Lemma byte_at_div v s : 0 <= s -> byte_at v s = v / 2 ^ s mod 256.
Proof.
  intros Hs. unfold byte_at. change 255 with (Z.ones 8). rewrite Z.land_ones by lia.
  by rewrite Z.shiftr_div_pow2.
Qed.

Lemma land_255 v : Z.land v 255 = v mod 256.
Proof. change 255 with (Z.ones 8). by rewrite Z.land_ones by lia. Qed.

Lemma get16_put16 v : is_u16 v -> get16 (byte_at v 8) (Z.land v 255) = v.
Proof.
  intros Hv. unfold get16, is_u16 in *. rewrite byte_at_div, land_255 by lia.
  rewrite lor_shiftl_add by (try lia; apply Z.mod_pos_bound; lia).
  Z.to_euclidean_division_equations. lia.
Qed.

Lemma get32_put32 v : is_u32 v ->
  get32 (byte_at v 24) (byte_at v 16) (byte_at v 8) (Z.land v 255) = v.
Proof.
  intros Hv. unfold get32, is_u32 in *. rewrite !byte_at_div, land_255 by lia.
  assert (H0 : 0 <= v mod 256 < 256) by (apply Z.mod_pos_bound; lia).
  assert (H8 : 0 <= v / 2 ^ 8 mod 256 < 256) by (apply Z.mod_pos_bound; lia).
  assert (H16 : 0 <= v / 2 ^ 16 mod 256 < 256) by (apply Z.mod_pos_bound; lia).
  rewrite <- !Z.lor_assoc.
  rewrite (lor_shiftl_add (v / 2 ^ 8 mod 256) 8) by lia.
  rewrite (lor_shiftl_add (v / 2 ^ 16 mod 256) 16) by lia.
  rewrite (lor_shiftl_add (v / 2 ^ 24 mod 256) 24) by lia.
  Z.to_euclidean_division_equations. lia.
Qed.

Lemma get64_step v b : 0 <= v < 2 ^ 56 -> 0 <= b < 256 ->
  Z.lor (wrap64 (Z.shiftl v 8)) b = v * 256 + b.
Proof.
  intros Hv Hb. rewrite wrap64_id by (unfold is_u64; rewrite Z.shiftl_mul_pow2 by lia; lia).
  by rewrite lor_shiftl_add by lia.
Qed.

Lemma get64_bytes l acc k :
  0 <= acc < 2 ^ (64 - 8 * Z.of_nat (length l)) -> (length l <= k)%nat -> (k <= 8)%nat ->
  Forall is_u8 l ->
  fold_left (fun v b => Z.lor (wrap64 (Z.shiftl v 8)) b) l acc
  = fold_left (fun v b => v * 256 + b) l acc.
Proof.
  revert acc. induction l as [|b l IH]; intros acc Ha Hk H8 Hf; [done|].
  inversion Hf as [|?? Hb Hf']; subst. simpl fold_left. cbn [length] in *.
  unfold is_u8 in Hb.
  assert (Hp : 2 ^ (64 - 8 * Z.of_nat (S (length l))) <= 2 ^ 56) by (apply Z.pow_le_mono_r; lia).
  rewrite get64_step by lia. apply IH; [|lia|lia|done].
  replace (64 - 8 * Z.of_nat (length l)) with (64 - 8 * Z.of_nat (S (length l)) + 8) by lia.
  rewrite Z.pow_add_r by lia. lia.
Qed.

Lemma put64_u8 v : Forall is_u8 (put64 v).
Proof.
  apply Forall_map, Forall_forall. intros i _. unfold byte_at. change 255 with (Z.ones 8).
  rewrite Z.land_ones by lia. apply Z.mod_pos_bound. lia.
Qed.

Lemma get64_put64 v : is_u64 v -> get64 (put64 v) = v.
Proof.
  intros Hv. unfold get64. rewrite (get64_bytes _ 0 8); [| |done|lia|apply put64_u8].
  2: { simpl. lia. }
  unfold put64, is_u64 in *. cbn [map fold_left]. rewrite !byte_at_div by lia.
  simpl (7 * 8). simpl (6 * 8). simpl (5 * 8). simpl (4 * 8). simpl (3 * 8). simpl (2 * 8).
  simpl (1 * 8). simpl (0 * 8).
  Z.to_euclidean_division_equations. lia.
Qed.

(** ** Properties *)

Lemma knownKind_code k : knownKind (kind_code k) = Some k.
Proof. by destruct k. Qed.

Lemma length_packHead h : length (packHead h) = kHeadSize.
Proof. done. Qed.

Definition wf_head (h : Head) : Prop :=
  is_u32 (h_magic h) /\ is_u16 (h_version h) /\ is_u16 (h_kind h) /\ is_u32 (h_bodyLen h) /\
  is_u64 (h_seq h).

Lemma read_packHead h rest : wf_head h -> read_head (packHead h ++ rest) = h.
Proof.
  intros (H1 & H2 & H3 & H4 & H5). destruct h as [m v k l q]; simpl in *.
  unfold read_head. cbn -[get32 get16 get64 byte_at Z.land put64].
  rewrite !get32_put32, !get16_put16 by done. f_equal.
  change (get64 (put64 q) = q). by apply get64_put64.
Qed.

Lemma headErr_frame k len seq rest :
  0 <= len <= kMaxBody -> is_u64 seq ->
  let h := mkHead kMagic kVersion (kind_code k) len seq in
  headErr (packHead h ++ rest) = (FrNone, h).
Proof.
  intros Hl Hs h. unfold headErr. rewrite read_packHead.
  - cbn [h h_magic h_version h_kind h_bodyLen]. rewrite knownKind_code, bool_decide_true by by eexists.
    rewrite Z.gtb_ltb. replace (kMaxBody <? len) with false by lia. done.
  - unfold h, wf_head, is_u32, is_u16, is_u64, kMagic, kVersion, kMaxBody in *; simpl.
    destruct k; simpl; lia.
Qed.

(** The bytes of a stream that is still open: segments and interrupted calls. *)
Fixpoint stream (s : list recv_ev) : option (list Z) :=
  match s with
  | [] => Some []
  | Seg b bs :: s' => (fun d => (b :: bs) ++ d) <$> stream s'
  | RErr e :: s' => if e =? EINTR then stream s' else None
  | Eof :: _ => None
  end.

Lemma readExact_stream s len got d :
  stream s = Some d -> (len <= length d)%nat ->
  exists s', readExact s len got = Some (OK, got ++ take len d, no_err, s') /\
             stream s' = Some (drop len d).
Proof.
  revert len got d. induction s as [|[b bs| |e] s IH]; intros len got d Hs Hl; simpl in Hs.
  - simplify_eq. destruct len; [|simpl in Hl; lia]. exists []. by rewrite app_nil_r.
  - destruct (stream s) as [d'|] eqn:Es; [|done]. simpl in Hs. simplify_eq.
    destruct len as [|len].
    { exists (Seg b bs :: s). cbn [readExact take drop]. rewrite app_nil_r.
      split; [done|]. simpl. by rewrite Es. }
    cbn [readExact]. destruct (length bs <? S len)%nat eqn:E; b2p.
    + simpl in Hl. rewrite length_app in Hl.
      destruct (IH (S len - S (length bs))%nat (got ++ b :: bs) d' eq_refl ltac:(lia))
        as (s' & -> & Hs'). exists s'. split.
      * do 3 f_equal. rewrite <- app_assoc. f_equal.
        change (b :: bs ++ d') with ((b :: bs) ++ d'). rewrite take_app.
        by rewrite (take_ge (b :: bs)) by (simpl; lia).
      * rewrite Hs'. f_equal. change (b :: bs ++ d') with ((b :: bs) ++ d').
        rewrite drop_app. by rewrite (drop_ge (b :: bs)) by (simpl; lia).
    + eexists. split.
      * do 3 f_equal. change (b :: bs ++ d') with ((b :: bs) ++ d').
        by rewrite (take_app_le (b :: bs)) by (simpl; lia).
      * change (b :: bs ++ d') with ((b :: bs) ++ d').
        rewrite (drop_app_le (b :: bs)) by (simpl; lia).
        destruct (drop (S len) (b :: bs)) as [|c cs]; [done|]. simpl. by rewrite Es.
  - done.
  - destruct len as [|len].
    { exists (RErr e :: s). cbn [readExact take drop]. by rewrite app_nil_r. }
    cbn [readExact]. destruct (e =? EINTR); [|done]. by apply IH.
Qed.

Lemma recvMsg_frame s k body seq rest :
  stream s = Some (frame k body seq ++ rest) -> is_u64 seq -> Z.of_nat (length body) <= kMaxBody ->
  exists s', recvMsg s = Some (OK, Some (mkMsg k seq body), no_err, s') /\ stream s' = Some rest.
Proof.
  intros Hs Hq Hb. unfold frame in Hs.
  set (h := mkHead kMagic kVersion (kind_code k) (Z.of_nat (length body)) seq) in *.
  rewrite <- app_assoc in Hs.
  destruct (readExact_stream s kHeadSize [] _ Hs) as (s1 & E1 & Hs1).
  { rewrite length_app, length_packHead. lia. }
  rewrite app_nil_l, take_app_le, take_ge in E1 by (rewrite length_packHead; lia).
  rewrite drop_app_ge in Hs1 by (rewrite length_packHead; lia).
  rewrite length_packHead, Nat.sub_diag, drop_0 in Hs1.
  unfold recvMsg. rewrite E1.
  pose proof (headErr_frame k (Z.of_nat (length body)) seq [] ltac:(lia) Hq) as Hh.
  cbn zeta in Hh. rewrite app_nil_r in Hh. fold h in Hh. rewrite Hh.
  cbn [h h_kind h_bodyLen h_seq]. rewrite knownKind_code.
  destruct (Z.of_nat (length body) >? 0) eqn:E0; b2p.
  - rewrite Nat2Z.id.
    destruct (readExact_stream s1 (length body) [] _ Hs1) as (s2 & E2 & Hs2).
    { rewrite length_app. lia. }
    rewrite app_nil_l, take_app_le, take_ge in E2 by lia. rewrite E2.
    rewrite drop_app_ge, Nat.sub_diag, drop_0 in Hs2 by lia. by exists s2.
  - destruct body; [|simpl in E0; lia]. by exists s1.
Qed.

Lemma sendAll_true s data out out' e :
  sendAll s data out = Some (true, out', e) -> out' = out ++ data.
Proof.
  revert data out. induction s as [|ev s IH]; intros data out H; destruct data as [|x data].
  1, 3: simpl in H; destruct ev || idtac; simplify_eq; by rewrite app_nil_r.
  - done.
  - cbn [sendAll] in H. destruct ev as [n| |er].
    + apply IH in H. rewrite H, <- app_assoc. by rewrite take_drop.
    + done.
    + destruct (er =? EINTR); [by apply IH|done].
Qed.

(** C40: a message that [sendMsg] reports sent is the message [recvMsg] returns,
    however the sender's calls split the bytes, however the stream is cut into
    segments and however often calls are interrupted, and the bytes after it are
    left for the next message. *)
Theorem message_delivered es k body seq out err s rest :
  is_u64 seq -> sendMsg es k body seq = Some (true, out, err) -> stream s = Some (out ++ rest) ->
  exists s', recvMsg s = Some (OK, Some (mkMsg k seq body), no_err, s') /\ stream s' = Some rest.
Proof.
  intros Hq Hsend Hs. unfold sendMsg in Hsend.
  destruct (Z.of_nat (length body) >? kMaxBody) eqn:E; [done|]. b2p.
  apply sendAll_true in Hsend. simpl in Hsend. subst out. by apply recvMsg_frame.
Qed.

Lemma readExact_length s len got r got' err s' :
  readExact s len got = Some (r, got', err, s') ->
  (length got' <= length got + len)%nat /\ (r = OK -> length got' = (length got + len)%nat).
Proof.
  revert len got. induction s as [|[b bs| |e] s IH]; intros len got H; destruct len as [|len];
    cbn [readExact] in H; simplify_eq; try (split; [lia|done]); try (split; [|done]; lia);
    try (split; intros; lia).
  - destruct (length bs <? S len)%nat eqn:E; b2p.
    + apply IH in H as [H1 H2]. rewrite length_app in H1, H2. simpl in H1, H2.
      split; [lia|]. intros Hr. specialize (H2 Hr). lia.
    + simplify_eq. rewrite length_app, length_take. simpl. split; intros; lia.
  - destruct (e =? EINTR); [by apply IH|]. simplify_eq. split; [lia|done].
Qed.

(** Whatever arrives, a message that is accepted has a body of the announced
    length and at most [kMaxBody] bytes (the allocation is bounded), and a stream
    that ends inside a frame is reported as a broken frame, not as a close. *)
Theorem recvMsg_safe s :
  match recvMsg s with
  | Some (OK, m, _, _) => exists m', m = Some m' /\ Z.of_nat (length (msg_body m')) <= kMaxBody
  | Some (CLOSED, m, _, _) =>
      m = None /\ exists e s', readExact s kHeadSize [] = Some (CLOSED, [], e, s')
  | Some (_, m, _, _) => m = None
  | None => True
  end.
Proof.
  unfold recvMsg. destruct (readExact s kHeadSize []) as [[[[r hb] err] s1]|] eqn:E1; [|done].
  destruct r.
  - destruct (headErr hb) as [fe h] eqn:Eh.
    destruct fe; try done. destruct (knownKind (h_kind h)) as [kind|]; [|done].
    assert (Hlen : h_bodyLen h <= kMaxBody).
    { unfold headErr in Eh. injection Eh as E <-. repeat case_match; try done. b2p. done. }
    destruct (h_bodyLen h >? 0) eqn:E0; b2p.
    + destruct (readExact s1 (Z.to_nat (h_bodyLen h)) []) as [[[[r body] err'] s2]|] eqn:E2; [|done].
      apply readExact_length in E2 as [_ E2].
      destruct r; try (by destruct (length body =? 0)%nat).
      exists (mkMsg kind (h_seq h) body). split; [done|]. simpl.
      specialize (E2 eq_refl). simpl in E2. lia.
    + exists (mkMsg kind (h_seq h) []). split; [done|]. simpl. unfold kMaxBody. lia.
  - destruct hb as [|x hb]; [|done]. split; [done|]. by exists err, s1.
  - by destruct (length hb =? 0)%nat.
  - by destruct (length hb =? 0)%nat.
Qed.

Lemma message_delivered_witness :
  exists s', recvMsg [Seg 66 [65]; RErr EINTR; Seg 78 [49; 0; 2; 0; 6; 0; 0; 0; 3; 0; 0; 0; 0; 0; 0; 0];
                      Seg 9 [1]; Seg 2 [3; 66; 65]]
    = Some (OK, Some (mkMsg PING 9 [1; 2; 3]), no_err, s') /\ stream s' = Some [66; 65].
Proof.
  apply (message_delivered [Sent 5; SErr EINTR; Sent 40] PING [1; 2; 3] 9
           (frame PING [1; 2; 3] 9) no_err).
  - unfold is_u64; lia.
  - vm_compute. reflexivity.
  - vm_compute. reflexivity.
Defined.

(** A receive deadline that strikes between the head and the body is reported as
    an ordinary time-out ([frame] is [FrNone]), which the callers take for an idle
    link; the head is lost, and the next call reads the body as a head. *)
Example recvMsg_timeout_loses_head :
  let head := packHead (mkHead kMagic kVersion (kind_code ACK) 25 7) in
  let body := repeat 123 25 in
  exists s', recvMsg [Seg 66 (drop 1 head); RErr EAGAIN; Seg 123 (drop 1 body)]
             = Some (IOERR, None, mkProtoErr IoTimeout FrNone EAGAIN, s') /\
  exists s'', recvMsg s' = Some (BADMSG, None, mkProtoErr IoNone BAD_MAGIC 0, s'').
Proof. eexists. split; [vm_compute; reflexivity|]. eexists. vm_compute. reflexivity. Qed.
