(* ===== verification/Session.v ===== *)
(** * A hub session (src/ipban/session.h, src/ipban/session.cpp, src/ipban/waker.h)

    One connection of the hub, with its receiving and its sending coroutine. Both,
    and any other thread that calls [wake], [beginStop] or [forceStop], share the
    session under [m_mtx]; every critical section is one step, every access
    outside it is another, and the steps interleave freely. What the world
    answers (a receive, a send, the clock, the push function) is the label of
    the step. A [notify] or a [close] a thread still owes is counted and may run
    at any later moment. Counters and log lines are left out. *)

From S2P Require Import Prelude Records Json Wire Engine Proto.

(** ** Data *)

Inductive State := ST_NEW | ST_HELLO | ST_SYNC | ST_OPEN | ST_DRAIN | ST_CLOSING | ST_CLOSED.

Inductive StopWhy :=
| W_NONE | W_LOCAL | W_PEER | W_IO | W_FRAME | W_MSG | W_ACK_TIMEOUT | W_PONG_TIMEOUT
| W_REPLACED | W_STOP_TIMEOUT.

Inductive MsgErr := ME_NONE | BAD_JSON | BAD_FIELD | BAD_STATE | BAD_ACK | BAD_PONG | VER_GAP.

(** The comparisons of states the code makes. *)
Definition ge_drain (s : State) : bool :=
  match s with ST_DRAIN | ST_CLOSING | ST_CLOSED => true | _ => false end.
Definition ge_closing (s : State) : bool :=
  match s with ST_CLOSING | ST_CLOSED => true | _ => false end.
Definition ge_sync (s : State) : bool :=
  match s with ST_NEW | ST_HELLO => false | _ => true end.

Record SyncWait := mkSync { sw_seq : Z; sw_ver : Z; sw_due : Z }.
Record PingWait := mkPing { pw_seq : Z; pw_due : Z }.
Definition no_sync : SyncWait := mkSync 0 0 0.
Definition no_ping : PingWait := mkPing 0 0.

Record Session := mkSession {
  m_epoch : Z; m_ackMs : Z;
  m_inst : string;
  m_why : StopWhy; m_protoErr : ProtoErr; m_msgErr : MsgErr;
  m_sync : SyncWait; m_ping : PingWait;
  m_helloSeq : Z; m_targetVer : Z; m_sentVer : Z; m_nextSeq : Z;
  m_sendErr : string;
  m_ready : bool; m_sentOnce : bool; m_pushDue : bool; m_dirty : bool;
  m_forceFull : bool; m_pingDue : bool; m_forced : bool;
  m_state : State; m_acked : Z; m_sent : Z; m_loops : Z;
  m_waker : bool;     (* the event of the waker is set *)
  sock_open : bool;
  owed : nat;         (* notifications a thread is about to make *)
  owed_close : nat;   (* calls of closeNow a thread is about to make *)
}.

Definition session_new (epoch ackMs : Z) : Session :=
  mkSession epoch ackMs "" W_NONE no_err ME_NONE no_sync no_ping 0 0 0 1 ""
    false false false false false false false ST_NEW 0 0 0 false true 0 0.

(** [start] with a socket and a reactor. *)
Definition start (s : Session) : Session := s <| m_loops := 2 |> <| m_state := ST_HELLO |>.

Definition set_why (w : StopWhy) (s : Session) : Session :=
  match m_why s with W_NONE => s <| m_why := w |> | _ => s end.

Definition owe_notify (s : Session) : Session := s <| owed := S (owed s) |>.

Definition closeNow (s : Session) : Session := s <| sock_open := false |> <| m_waker := true |>.

(** ** Calls from other threads *)

Definition wake (s : Session) : Session :=
  if ge_drain (m_state s) then s
  else owe_notify (s <| m_pushDue := true |>
                     <| m_dirty := m_dirty s || negb (sw_seq (m_sync s) =? 0) |>).

(** [beginStop] and [forceStop] read the state and write it in one critical
    section, but [loopDone] writes the state outside the lock: the read
    ([stop_enter]) and the rest ([stop_leave]) are two steps. *)
Inductive Hold := H_STOP (why : StopWhy) (drain : bool) (cur : State) | H_FORCE.

Definition stop_enter (why : StopWhy) (drain : bool) (s : Session) : option Hold :=
  match m_state s with ST_CLOSED => None | cur => Some (H_STOP why drain cur) end.

Definition force_enter (s : Session) : option Hold :=
  match m_state s with ST_CLOSED => None | _ => Some H_FORCE end.

Definition stop_leave (h : Hold) (s : Session) : Session :=
  match h with
  | H_STOP why drain cur =>
      let s := set_why why s in
      if drain && ge_sync cur && negb (ge_drain cur) then owe_notify (s <| m_state := ST_DRAIN |>)
      else if negb (ge_closing cur) then
        owe_notify (s <| m_state := ST_CLOSING |> <| owed_close := S (owed_close s) |>)
      else owe_notify s
  | H_FORCE =>
      let s := set_why W_STOP_TIMEOUT s in
      s <| m_forced := true |> <| m_state := ST_CLOSING |> <| owed_close := S (owed_close s) |>
  end.

(** ** Failures *)

Definition failProto (err : ProtoErr) (s : Session) : Session :=
  let s := match pe_io (m_protoErr s), pe_frame (m_protoErr s) with
           | IoNone, FrNone => s <| m_protoErr := err |>
           | _, _ => s
           end in
  let s := set_why (match pe_frame err, pe_io err with
                    | FrNone, IoClosed => W_PEER
                    | FrNone, IoCanceled => if ge_drain (m_state s) then W_LOCAL else W_IO
                    | FrNone, _ => W_IO
                    | _, _ => W_FRAME
                    end) s in
  if ge_closing (m_state s) then s else s <| m_state := ST_CLOSING |>.

Definition failMsg (err : MsgErr) (code : string) (s : Session) : Session :=
  let s := match m_msgErr s with ME_NONE => s <| m_msgErr := err |> | _ => s end in
  let s := set_why W_MSG s in
  let s := if String.eqb (m_sendErr s) "" then s <| m_sendErr := code |> else s in
  owe_notify (if ge_closing (m_state s) then s else s <| m_state := ST_CLOSING |>).

(** ** The sending coroutine *)

(** Where [sendLoop] stands. *)
Inductive SPc :=
| S_LOOP                                   (* the loop's test *)
| S_WAIT                                   (* in [m_waker.wait] *)
| S_HEAD                                   (* woken *)
| S_ERR (code : string)                    (* about to send ERR *)
| S_READY1 | S_READY2 (seq target : Z) | S_READY3 (target : Z)
| S_CUR1 | S_CUR2 (from : Z) (once : bool) | S_CUR2N
| S_CUR3 (kind : PushKind) (body : string) (ver : Z)
| S_CUR4 (kind : PushKind) (body : string) (ver seq : Z) | S_CUR5 (ver seq : Z)
| S_PING1 | S_PING2 (seq : Z) | S_PING3 (seq : Z)
| S_BYE1 | S_BYE2                          (* the test for BYE, and its sending *)
| S_FAIL (err : ProtoErr)                  (* in [failProto] *)
| S_EXIT | S_DONE | S_LAST | S_STOPPED.    (* [closeNow], and the parts of [loopDone] *)

(** What the world answers to the step. *)
Inductive SIn :=
| I_TAU
| I_WAIT (ok : bool)                       (* [m_waker.wait()] *)
| I_SEND (failed : option ProtoErr)        (* [sendMsg] *)
| I_PUSH (r : option (PushKind * string * Z))  (* [m_pushFn] *)
| I_NOW (now : Z).

(** A frame that went out. *)
Record Frame := mkFrame { f_kind : Kind; f_seq : Z; f_body : string }.

Definition push_kind (k : PushKind) : Kind := match k with KSnap => SNAP | KDelta => DELTA end.

Definition head_step (s : Session) : SPc * Session :=
  let code := m_sendErr s in
  let s' := s <| m_sendErr := ""%string |> in
  (if negb (String.eqb code "") then S_ERR code
   else if ge_closing (m_state s) then S_EXIT
   else if m_ready s then S_READY1 else S_CUR1, s').

Definition ready1_step (s : Session) : SPc * Session :=
  if negb (m_ready s) then (S_CUR1, s)
  else (S_READY2 (m_helloSeq s) (m_targetVer s), s <| m_ready := false |>).

Definition ready3_step (target : Z) (s : Session) : SPc * Session :=
  (S_CUR1,
   if ge_drain (m_state s) then s
   else if m_sentOnce s && (m_sentVer s =? target) then s <| m_state := ST_OPEN |>
   else s <| m_state := ST_SYNC |> <| m_pushDue := true |>).

Definition cur1_step (s : Session) : SPc * Session :=
  if ge_drain (m_state s) then (S_PING1, s)
  else if negb (sw_seq (m_sync s) =? 0) then
    (S_PING1, s <| m_dirty := m_dirty s || m_pushDue s |> <| m_pushDue := false |>)
  else if negb (m_pushDue s) && negb (m_forceFull s) then (S_PING1, s)
  else
    let once := m_sentOnce s && negb (m_forceFull s) in
    (S_CUR2 (m_sentVer s) once,
     s <| m_sentOnce := once |> <| m_forceFull := false |> <| m_pushDue := false |>).

Definition cur3_step (kind : PushKind) (body : string) (ver : Z) (s : Session) : SPc * Session :=
  let seq := m_nextSeq s in
  (S_CUR4 kind body ver seq,
   s <| m_nextSeq := wrap64 (seq + 1) |> <| m_sync := mkSync seq ver UINT64_MAX |>
     <| m_sent := ver |> <| m_dirty := m_dirty s || m_pushDue s |> <| m_pushDue := false |>
     <| m_state := ST_SYNC |>).

Definition cur5_step (now ver seq : Z) (s : Session) : Session :=
  let s := if sw_seq (m_sync s) =? seq
           then s <| m_sync := mkSync (sw_seq (m_sync s)) (sw_ver (m_sync s)) (wrap64 (now + m_ackMs s)) |>
           else s in
  s <| m_sentVer := ver |> <| m_sentOnce := true |>.

Definition ping1_step (s : Session) : SPc * Session :=
  if negb (m_pingDue s) || negb (pw_seq (m_ping s) =? 0) || negb (sw_seq (m_sync s) =? 0)
     || ge_drain (m_state s) then (S_BYE1, s)
  else
    let seq := m_nextSeq s in
    (S_PING2 seq,
     s <| m_pingDue := false |> <| m_nextSeq := wrap64 (seq + 1) |> <| m_ping := mkPing seq UINT64_MAX |>).

Definition ping3_step (now seq : Z) (s : Session) : Session :=
  if pw_seq (m_ping s) =? seq
  then s <| m_ping := mkPing (pw_seq (m_ping s)) (wrap64 (now + m_ackMs s)) |> else s.

Definition bye1_step (s : Session) : SPc * Session :=
  match m_state s with
  | ST_DRAIN => if sw_seq (m_sync s) =? 0 then (S_BYE2, s <| m_state := ST_CLOSING |>) else (S_LOOP, s)
  | _ => (S_LOOP, s)
  end.

(** [loopDone] up to the test of the counter: whether this loop is the last. *)
Definition loopDone (s : Session) : bool * Session :=
  (m_loops s =? 1, s <| m_loops := m_loops s - 1 |>).

(** The rest of [loopDone], outside the lock. *)
Definition loopLast (s : Session) : Session := closeNow (s <| m_state := ST_CLOSED |>).

Section session.
Context {JL : JsonLib}.

(** [sendOne]: the frame if it went out, else [failProto]. *)
Definition sendOne (r : option ProtoErr) (f : Frame) (next : SPc) : SPc * list Frame :=
  match r with None => (next, [f]) | Some e => (S_FAIL e, []) end.

Definition send_step (i : SIn) (pc : SPc) (s : Session) : option (SPc * Session * list Frame) :=
  let quiet (r : SPc * Session) := Some (r.1, r.2, []) in
  let sent (r : SPc * list Frame) := Some (r.1, s, r.2) in
  match pc, i with
  | S_LOOP, I_TAU =>
      quiet (match m_state s with ST_CLOSED => S_EXIT | _ => S_WAIT end, s)
  | S_WAIT, I_WAIT true => if m_waker s then quiet (S_HEAD, s <| m_waker := false |>) else None
  | S_WAIT, I_WAIT false => quiet (S_EXIT, s)
  | S_HEAD, I_TAU => quiet (head_step s)
  | S_ERR code, I_SEND r => sent (sendOne r (mkFrame ERR 0 (errToJson code)) S_EXIT)
  | S_READY1, I_TAU => quiet (ready1_step s)
  | S_READY2 seq target, I_SEND r =>
      sent (sendOne r (mkFrame READY seq (readyToJson (m_epoch s) target)) (S_READY3 target))
  | S_READY3 target, I_TAU => quiet (ready3_step target s)
  | S_CUR1, I_TAU => quiet (cur1_step s)
  | S_CUR2 _ _, I_PUSH None => quiet (S_CUR2N, s)
  | S_CUR2 _ _, I_PUSH (Some (kind, body, ver)) => quiet (S_CUR3 kind body ver, s)
  | S_CUR2N, I_TAU =>
      quiet (S_PING1, if ge_drain (m_state s) then s else s <| m_state := ST_OPEN |>)
  | S_CUR3 kind body ver, I_TAU => quiet (cur3_step kind body ver s)
  | S_CUR4 kind body ver seq, I_SEND r =>
      sent (sendOne r (mkFrame (push_kind kind) seq body) (S_CUR5 ver seq))
  | S_CUR5 ver seq, I_NOW now => quiet (S_PING1, cur5_step now ver seq s)
  | S_PING1, I_TAU => quiet (ping1_step s)
  | S_PING2 seq, I_SEND r => sent (sendOne r (mkFrame PING seq "") (S_PING3 seq))
  | S_PING3 seq, I_NOW now => quiet (S_BYE1, ping3_step now seq s)
  | S_BYE1, I_TAU => quiet (bye1_step s)
  | S_BYE2, I_SEND r => sent (sendOne r (mkFrame BYE 0 "") S_EXIT)
  | S_FAIL err, I_TAU => quiet (S_EXIT, failProto err s)
  | S_EXIT, I_TAU => quiet (S_DONE, closeNow s)
  | S_DONE, I_TAU => let '(last, s) := loopDone s in quiet (if last then S_LAST else S_STOPPED, s)
  | S_LAST, I_TAU => quiet (S_STOPPED, loopLast s)
  | _, _ => None
  end.

(** The steps that are critical sections of [m_mtx]. *)
Definition s_locks (pc : SPc) : bool :=
  match pc with
  | S_HEAD | S_READY1 | S_READY3 _ | S_CUR1 | S_CUR2N | S_CUR3 _ _ _ | S_CUR5 _ _
  | S_PING1 | S_PING3 _ | S_BYE1 | S_FAIL _ => true
  | _ => false
  end.

(** ** The receiving coroutine *)

Inductive RPc :=
| R_HELLO                                              (* waiting for HELLO *)
| R_TARGET (seq : Z) (inst : string) (epoch ver : Z)   (* about to call [m_verFn] *)
| R_BIND (seq : Z) (inst : string) (epoch ver target : Z)
| R_LOOP                                               (* the loop's test *)
| R_RECV                                               (* in [recvMsg] *)
| R_MSG (kind : Kind) (seq : Z) (body : string)        (* in [onMsg] *)
| R_IDLE                                               (* in [onTimeout] *)
| R_BAD (err : MsgErr) (code : string) (stop : bool)   (* in [failMsg] *)
| R_FAIL (err : ProtoErr)                              (* in [failProto] *)
| R_CLOSE | R_DONE | R_LAST | R_STOPPED.

Inductive RIn :=
| J_TAU
| J_MSG (kind : Kind) (seq : Z) (body : string)        (* [recvMsg] gave a message *)
| J_ERR (err : ProtoErr)                               (* [recvMsg] failed *)
| J_VER (target : Z)                                   (* [m_verFn] *)
| J_NOW (now : Z).

(** The message of [recvMsg] while the session waits for HELLO. The field readers
    of [helloFromJson] test the type first: nothing throws. *)
Definition onHello (kind : Kind) (seq : Z) (body : string) : RPc :=
  match kind with
  | HELLO =>
      if seq =? 0 then R_BAD BAD_FIELD "bad_hello" true
      else match helloFromJson body with
           | Parsed (inst, epoch, ver) => R_TARGET seq inst epoch ver
           | _ => R_BAD BAD_FIELD "bad_hello" true
           end
  | _ => R_BAD BAD_STATE "bad_state" true
  end.

Definition greet (seq : Z) (inst : string) (epoch ver target : Z) (s : Session) : Session :=
  let s := s <| m_inst := inst |> <| m_helloSeq := seq |> <| m_targetVer := target |> in
  let s := if (epoch =? m_epoch s) && (ver <=? target)
           then s <| m_sentVer := ver |> <| m_sentOnce := true |> <| m_sent := ver |> <| m_acked := ver |>
           else s in
  owe_notify (s <| m_ready := true |>).

(** The critical section for an ACK that parses: whether it is accepted. *)
Definition onAck (seq : Z) (inst : string) (epoch ver : Z) (s : Session) : option Session :=
  if (sw_seq (m_sync s) =? 0) || negb (seq =? sw_seq (m_sync s)) || negb (String.eqb inst (m_inst s))
     || negb (epoch =? m_epoch s) || negb (ver =? sw_ver (m_sync s)) then None
  else
    let s := s <| m_acked := ver |> <| m_sync := no_sync |> in
    let s := if ge_drain (m_state s) then s else s <| m_state := ST_OPEN |> in
    Some (owe_notify (if m_dirty s then s <| m_dirty := false |> <| m_pushDue := true |> else s)).

Definition onSnapReq (seq : Z) (body : string) (s : Session) : option Session :=
  if (seq =? 0) && String.eqb body "" && match m_state s with ST_SYNC => true | _ => false end
  then Some (owe_notify (s <| m_sync := no_sync |> <| m_forceFull := true |> <| m_pushDue := true |>))
  else None.

Definition onPong (seq : Z) (body : string) (s : Session) : option Session :=
  if negb (pw_seq (m_ping s) =? 0) && (seq =? pw_seq (m_ping s)) && String.eqb body ""
  then Some (s <| m_ping := no_ping |>) else None.

Definition onMsg (kind : Kind) (seq : Z) (body : string) (s : Session) : RPc * Session :=
  let ok (r : option Session) (err : MsgErr) (code : string) :=
    match r with Some s' => (R_LOOP, s') | None => (R_BAD err code false, s) end in
  match kind with
  | ACK =>
      match helloFromJson body with
      | Parsed (inst, epoch, ver) => ok (onAck seq inst epoch ver s) BAD_ACK "bad_ack"%string
      | _ => (R_BAD BAD_JSON "bad_ack" false, s)
      end
  | SNAP_REQ => ok (onSnapReq seq body s) BAD_STATE "bad_state"%string
  | PONG => ok (onPong seq body s) BAD_PONG "bad_pong"%string
  | _ => (R_BAD BAD_STATE "bad_state" false, s)
  end.

Definition onTimeout (now : Z) (s : Session) : Session :=
  let late (code : string) (why : StopWhy) :=
    owe_notify (set_why why s <| m_sendErr := code |> <| m_state := ST_CLOSING |>) in
  if negb (sw_seq (m_sync s) =? 0) && (sw_due (m_sync s) <=? now) then late "ack_timeout"%string W_ACK_TIMEOUT
  else if negb (pw_seq (m_ping s) =? 0) && (pw_due (m_ping s) <=? now)
       then late "pong_timeout"%string W_PONG_TIMEOUT
  else match m_state s with
       | ST_DRAIN => owe_notify s
       | _ => if (sw_seq (m_sync s) =? 0) && (pw_seq (m_ping s) =? 0)
              then owe_notify (s <| m_pingDue := true |>) else s
       end.

Definition recv_step (i : RIn) (pc : RPc) (s : Session) : option (RPc * Session) :=
  match pc, i with
  | R_HELLO, J_MSG kind seq body => Some (onHello kind seq body, s)
  | R_HELLO, J_ERR err => Some (R_FAIL err, s)
  | R_TARGET seq inst epoch ver, J_VER target => Some (R_BIND seq inst epoch ver target, s)
  | R_BIND seq inst epoch ver target, J_TAU => Some (R_LOOP, greet seq inst epoch ver target s)
  | R_LOOP, J_TAU => Some (if ge_closing (m_state s) then R_DONE else R_RECV, s)
  | R_RECV, J_MSG kind seq body => Some (R_MSG kind seq body, s)
  | R_RECV, J_ERR err =>
      Some (match pe_io err, pe_frame err with IoTimeout, FrNone => R_IDLE | _, _ => R_FAIL err end, s)
  | R_MSG kind seq body, J_TAU => Some (onMsg kind seq body s)
  | R_IDLE, J_NOW now => Some (R_LOOP, onTimeout now s)
  | R_BAD err code stop, J_TAU => Some (if stop then R_DONE else R_LOOP, failMsg err code s)
  | R_FAIL err, J_TAU => Some (R_CLOSE, failProto err s)
  | R_CLOSE, J_TAU => Some (R_DONE, closeNow s)
  | R_DONE, J_TAU => let '(last, s) := loopDone s in Some (if last then R_LAST else R_STOPPED, s)
  | R_LAST, J_TAU => Some (R_STOPPED, loopLast s)
  | _, _ => None
  end.

Definition r_locks (pc : RPc) : bool :=
  match pc with R_BIND _ _ _ _ _ | R_MSG _ _ _ | R_IDLE | R_BAD _ _ _ | R_FAIL _ => true | _ => false end.

(** ** A connection *)

Record Link := mkLink {
  l_s : Session; l_spc : SPc; l_rpc : RPc;
  l_hold : option Hold;       (* a caller inside [beginStop] or [forceStop] *)
  l_wire : list Frame;        (* the frames sent, the latest first *)
  l_news : bool;              (* a wake after the last call of the push function *)
}.

Inductive Label :=
| L_WAKE | L_STOP (why : StopWhy) (drain : bool) | L_FORCE | L_LEAVE
| L_NOTIFY | L_CLOSE              (* a notification, a [closeNow], that was owed *)
| L_SEND (i : SIn) | L_RECV (i : RIn).

Definition link_start (epoch ackMs : Z) : Link :=
  mkLink (start (session_new epoch ackMs)) S_LOOP R_HELLO None [] false.

Definition free (l : Link) : bool := match l_hold l with None => true | Some _ => false end.

Definition enter (h : option Hold) (l : Link) : option Link :=
  if free l then Some (match h with Some _ => l <| l_hold := h |> | None => l end) else None.

Definition is_push (i : SIn) : bool := match i with I_PUSH _ => true | _ => false end.

Definition link_step (a : Label) (l : Link) : option Link :=
  let s := l_s l in
  match a with
  | L_WAKE =>
      if free l then Some (l <| l_s := wake s |> <| l_news := if ge_drain (m_state s) then l_news l else true |>)
      else None
  | L_STOP why drain => enter (stop_enter why drain s) l
  | L_FORCE => enter (force_enter s) l
  | L_LEAVE =>
      match l_hold l with Some h => Some (l <| l_s := stop_leave h s |> <| l_hold := None |>) | None => None end
  | L_NOTIFY =>
      match owed s with O => None | S n => Some (l <| l_s := s <| owed := n |> <| m_waker := true |> |>) end
  | L_CLOSE =>
      match owed_close s with
      | O => None | S n => Some (l <| l_s := closeNow (s <| owed_close := n |>) |>)
      end
  | L_SEND i =>
      if s_locks (l_spc l) && negb (free l) then None
      else match send_step i (l_spc l) s with
           | Some (pc, s', out) =>
               Some (l <| l_s := s' |> <| l_spc := pc |> <| l_wire := out ++ l_wire l |>
                       <| l_news := if is_push i then false else l_news l |>)
           | None => None
           end
  | L_RECV i =>
      if r_locks (l_rpc l) && negb (free l) then None
      else match recv_step i (l_rpc l) s with
           | Some (pc, s') => Some (l <| l_s := s' |> <| l_rpc := pc |>)
           | None => None
           end
  end.

(** Reachable in [n] steps, all of which [ok] allows. *)
Inductive reach (ok : Link -> Label -> bool) (l0 : Link) : nat -> Link -> Prop :=
| reach_start : reach ok l0 0 l0
| reach_step n l a l' :
    reach ok l0 n l -> ok l a = true -> link_step a l = Some l' -> reach ok l0 (S n) l'.

Definition any_step (_ : Link) (_ : Label) : bool := true.

(** Runs a list of labels, all of which [ok] must allow. *)
Fixpoint link_run (ok : Link -> Label -> bool) (tr : list Label) (l : Link) : option Link :=
  match tr with
  | [] => Some l
  | a :: tr' => if ok l a then l' ← link_step a l; link_run ok tr' l' else None
  end.

Lemma reach_run ok tr l0 l : link_run ok tr l0 = Some l -> reach ok l0 (length tr) l.
Proof.
  assert (K : forall tr l n l', reach ok l0 n l -> link_run ok tr l = Some l' ->
    reach ok l0 (n + length tr) l').
  { induction tr0 as [|a tr' IH]; intros m n l' R H; cbn in H; [simplify_eq; by rewrite Nat.add_0_r|].
    destruct (ok m a) eqn:Ek; [|done]. destruct (link_step a m) as [m'|] eqn:Es; [|done]. cbn in H.
    replace (n + length (a :: tr'))%nat with (S n + length tr')%nat by (simpl; lia).
    eapply IH; [|exact H]. by eapply reach_step. }
  intros H. apply (K tr l0 0%nat l); [constructor|exact H].
Qed.

Lemma reach_inv ok l0 (I : nat -> Link -> Prop) :
  I 0%nat l0 -> (forall n l a l', I n l -> ok l a = true -> link_step a l = Some l' -> I (S n) l') ->
  forall n l, reach ok l0 n l -> I n l.
Proof. intros H0 HS n l. induction 1; [done|]. by eapply HS. Qed.

(** ** Where the coroutines stand *)

Definition at_head (pc : SPc) : bool := match pc with S_HEAD => true | _ => false end.
(** The pass of the loop the sender is in ends without another wait. *)
Definition leaving (pc : SPc) : bool :=
  match pc with S_ERR _ | S_BYE2 | S_FAIL _ | S_EXIT | S_DONE | S_LAST | S_STOPPED => true | _ => false end.
Definition pre_ready (pc : SPc) : bool := match pc with S_HEAD | S_READY1 => true | _ => false end.
Definition pre_cur (pc : SPc) : bool :=
  match pc with S_HEAD | S_READY1 | S_READY2 _ _ | S_READY3 _ | S_CUR1 => true | _ => false end.
Definition asking (pc : SPc) : bool := match pc with S_CUR2 _ _ => true | _ => false end.
Definition pushing (pc : SPc) : bool :=
  match pc with S_CUR2 _ _ | S_CUR3 _ _ _ => true | _ => false end.
Definition pre_ping (pc : SPc) : bool :=
  match pc with
  | S_CUR2 _ _ | S_CUR2N | S_CUR3 _ _ _ | S_CUR4 _ _ _ _ | S_CUR5 _ _ | S_PING1 => true
  | _ => pre_cur pc
  end.
Definition in_pass (pc : SPc) : bool :=
  match pc with S_PING2 _ | S_PING3 _ | S_BYE1 => true | _ => pre_ping pc end.
Definition closing_pc (pc : RPc) : bool := match pc with R_CLOSE => true | _ => false end.
Definition draining (st : State) : bool := match st with ST_DRAIN => true | _ => false end.

(** ** The failure paths *)

(** The failure paths touch the recorded reasons and the state only. *)
Lemma set_why_eq w s : exists w', set_why w s = s <| m_why := w' |>.
Proof. destruct s as [? ? ? []]; by eexists. Qed.

Lemma failProto_eq e s : exists pe w,
  failProto e s = s <| m_protoErr := pe |> <| m_why := w |>
                    <| m_state := if ge_closing (m_state s) then m_state s else ST_CLOSING |>.
Proof.
  unfold failProto.
  set (s1 := match pe_io (m_protoErr s) with IoNone => _ | _ => _ end).
  assert (H1 : exists pe, s1 = s <| m_protoErr := pe |>).
  { unfold s1. exists (m_protoErr s1). unfold s1. destruct s as [? ? ? ? pe]; simpl.
    by destruct (pe_io pe), (pe_frame pe). }
  destruct H1 as [pe ->].
  match goal with |- context [set_why ?w ?s1] => destruct (set_why_eq w s1) as [w' ->] end.
  exists pe, w'. destruct s; simpl. by case_match.
Qed.

Lemma failMsg_eq err code s : exists me w c,
  failMsg err code s =
    owe_notify (s <| m_msgErr := me |> <| m_why := w |> <| m_sendErr := c |>
                  <| m_state := if ge_closing (m_state s) then m_state s else ST_CLOSING |>).
Proof.
  unfold failMsg. set (s1 := match m_msgErr s with ME_NONE => _ | _ => _ end).
  assert (H1 : exists me, s1 = s <| m_msgErr := me |>).
  { exists (m_msgErr s1). unfold s1. by destruct s as [? ? ? ? ? []]. }
  destruct H1 as [me ->]. destruct (set_why_eq W_MSG (s <| m_msgErr := me |>)) as [w ->].
  exists me, w, (if String.eqb (m_sendErr s) "" then code else m_sendErr s).
  destruct s; cbn. destruct (String.eqb _ _), (ge_closing _); reflexivity.
Qed.

(** What a message does: nothing but a complaint, or one of three accepted kinds. *)
Lemma onMsg_cases kind seq body s pc s' :
  onMsg kind seq body s = (pc, s') ->
  (s' = s /\ exists e c, pc = R_BAD e c false) \/
  pc = R_LOOP /\
  ((kind = ACK /\ exists inst epoch ver,
      helloFromJson body = Parsed (inst, epoch, ver) /\ onAck seq inst epoch ver s = Some s')
   \/ (kind = SNAP_REQ /\ onSnapReq seq body s = Some s')
   \/ (kind = PONG /\ onPong seq body s = Some s')).
Proof.
  unfold onMsg. destruct kind; intros H; try (injection H as <- <-; left; eauto).
  - destruct (onSnapReq seq body s) eqn:E; injection H as <- <-; eauto 6.
  - destruct (helloFromJson body) as [[[i e] v]| |]; try (injection H as <- <-; eauto).
    destruct (onAck seq i e v s) eqn:E; injection H as <- <-; eauto 10.
  - destruct (onPong seq body s) eqn:E; injection H as <- <-; eauto 7.
Qed.

Lemma onAck_eq seq inst epoch ver s s' :
  onAck seq inst epoch ver s = Some s' ->
  sw_seq (m_sync s) <> 0 /\ seq = sw_seq (m_sync s) /\ inst = m_inst s /\ epoch = m_epoch s /\
  ver = sw_ver (m_sync s) /\
  s' = owe_notify (s <| m_acked := ver |> <| m_sync := no_sync |>
         <| m_state := if ge_drain (m_state s) then m_state s else ST_OPEN |>
         <| m_pushDue := m_dirty s || m_pushDue s |> <| m_dirty := false |>).
Proof.
  unfold onAck. destruct (_ || _) eqn:E; [done|]. b2p.
  match goal with H : String.eqb _ _ = true |- _ => apply String.eqb_eq in H end.
  intros [= <-]. split_and!; try done. destruct s as [? ? ? ? ? ? ? ? ? ? ? ? ? ? ? ? [] ? ? ? st]; cbn.
  all: by destruct (ge_drain st).
Qed.

(** A time-out gives up, does nothing, wakes the sender or asks for a ping. *)
Lemma onTimeout_cases now s :
  (exists w c, onTimeout now s =
     owe_notify (s <| m_why := w |> <| m_sendErr := c |> <| m_state := ST_CLOSING |>)) \/
  onTimeout now s = s \/ onTimeout now s = owe_notify s \/
  (pw_seq (m_ping s) = 0 /\ onTimeout now s = owe_notify (s <| m_pingDue := true |>)).
Proof.
  unfold onTimeout. cbv zeta.
  destruct (negb (sw_seq (m_sync s) =? 0) && _); [|destruct (negb (pw_seq (m_ping s) =? 0) && _)].
  1, 2: match goal with |- context [set_why ?w ?s] => destruct (set_why_eq w s) as [w' ->] end; eauto.
  right. assert (K : forall b : bool, (b = true -> pw_seq (m_ping s) = 0) ->
    let s' := if b then owe_notify (s <| m_pingDue := true |>) else s in
    s' = s \/ s' = owe_notify s \/
    (pw_seq (m_ping s) = 0 /\ s' = owe_notify (s <| m_pingDue := true |>))).
  { intros [] Hb; [right; right; auto|by left]. }
  destruct (m_state s); try (apply K; intros; b2p; done). right; by left.
Qed.

(** The receiver's steps, up to the fields [signals] does not read. *)
Lemma recv_step_cases i pc s pc' s' :
  recv_step i pc s = Some (pc', s') ->
  (s' = s /\ closing_pc pc = false) \/
  (exists me pe w c o, (o = owed s \/ o = S (owed s)) /\
     s' = s <| m_msgErr := me |> <| m_protoErr := pe |> <| m_why := w |> <| m_sendErr := c |>
            <| owed := o |>
            <| m_state := if ge_closing (m_state s) then m_state s else ST_CLOSING |> /\
     (c = m_sendErr s /\ pc' = R_CLOSE \/ o = S (owed s))) \/
  (exists w c, s' = owe_notify (s <| m_why := w |> <| m_sendErr := c |> <| m_state := ST_CLOSING |>)) \/
  s' = owe_notify s \/ (pw_seq (m_ping s) = 0 /\ s' = owe_notify (s <| m_pingDue := true |>)) \/
  s' = closeNow s \/ (s' = s <| m_loops := m_loops s - 1 |> /\ closing_pc pc = false) \/ s' = loopLast s \/
  (exists seq inst epoch ver target, pc = R_BIND seq inst epoch ver target /\
     s' = greet seq inst epoch ver target s) \/
  (exists seq inst epoch ver, onAck seq inst epoch ver s = Some s') \/
  (exists seq body, onSnapReq seq body s = Some s') \/
  (s' = s <| m_ping := no_ping |> /\ closing_pc pc = false).
Proof.
  intros H. destruct pc, i; try discriminate H; cbn -[onMsg] in H.
  - injection H as <- <-. by left.
  - injection H as <- <-. by left.
  - injection H as <- <-. by left.
  - injection H as <- <-. do 8 right. left. eauto 10.
  - injection H as <- <-. by left.
  - injection H as <- <-. by left.
  - injection H as <- <-. by left.
  - injection H as H. apply onMsg_cases in H as [(-> & _)|(_ & H)]; [by left|].
    destruct H as [(_ & inst & epoch & ver & _ & H)|[(_ & H)|(_ & H)]].
    + do 9 right. left. eauto.
    + do 10 right. left. eauto.
    + unfold onPong in H. case_match; simplify_eq. do 11 right. done.
  - injection H as <- <-. destruct (onTimeout_cases now s) as [?|[->|[->|?]]].
    + do 2 right. by left.
    + by left.
    + do 3 right. by left.
    + do 4 right. by left.
  - injection H as <- <-. destruct (failMsg_eq err code s) as (me & w & c & ->).
    right. left. exists me, (m_protoErr s), w, c, (S (owed s)). split; [tauto|].
    split; [by destruct s|tauto].
  - injection H as <- <-. destruct (failProto_eq err s) as (pe & w & ->).
    right. left. exists (m_msgErr s), pe, w, (m_sendErr s), (owed s). split; [tauto|].
    split; [by destruct s|tauto].
  - injection H as <- <-. do 5 right. by left.
  - injection H as H <-. do 6 right. by left.
  - injection H as <- <-. do 7 right. by left.
Qed.

Lemma stop_leave_eq h s : exists w f oc st,
  (st = m_state s /\ oc = owed_close s \/ st = ST_DRAIN /\ oc = owed_close s \/
   st = ST_CLOSING /\ oc = S (owed_close s)) /\
  (stop_leave h s = owe_notify (s <| m_why := w |> <| m_forced := f |> <| owed_close := oc |>
                                  <| m_state := st |>) \/
   (st = ST_CLOSING /\
    stop_leave h s = s <| m_why := w |> <| m_forced := f |> <| owed_close := oc |> <| m_state := st |>)).
Proof.
  destruct h as [why drain cur|]; cbn [stop_leave].
  - destruct (set_why_eq why s) as [w ->]. exists w, (m_forced s).
    destruct (_ && _); [|destruct (negb _)].
    + exists (owed_close s), ST_DRAIN. split; [tauto|]. left. by destruct s.
    + exists (S (owed_close s)), ST_CLOSING. split; [tauto|]. left. by destruct s.
    + exists (owed_close s), (m_state s). split; [tauto|]. left. by destruct s.
  - destruct (set_why_eq W_STOP_TIMEOUT s) as [w ->]. exists w, true, (S (owed_close s)), ST_CLOSING.
    split; [tauto|]. right. by destruct s.
Qed.

End session.

(** ** Tactics *)

(** Runs one step on a session given by its fields, and turns the tests of each
    branch into facts. *)
Ltac branch_facts :=
  repeat match goal with
  | H : _ && _ = false |- _ => apply andb_false_iff in H
  | H : _ || _ = true |- _ => apply orb_true_iff in H
  | H : _ /\ _ |- _ => destruct H
  | H : _ \/ _ |- _ => destruct H
  | _ => progress b2p
  end;
  repeat match goal with
  | H : String.eqb _ _ = true |- _ => apply String.eqb_eq in H
  | H : String.eqb _ _ = false |- _ => apply String.eqb_neq in H
  | H : ?b = true |- _ => is_var b; subst b
  | H : ?b = false |- _ => is_var b; subst b
  | H : ?b = true |- _ => apply Is_true_eq_left in H
  | H : ?b = false |- _ => assert (~ Is_true b) by (rewrite H; exact id); clear H
  end.

Ltac run_step E :=
  cbn -[failProto failMsg set_why helloFromJson] in E;
  repeat match type of E with
  | context [failProto ?e ?s] =>
      let Ef := fresh in destruct (failProto_eq e s) as (? & ? & Ef); rewrite Ef in E; clear Ef
  | context [failMsg ?e ?c ?s] =>
      let Ef := fresh in destruct (failMsg_eq e c s) as (? & ? & ? & Ef); rewrite Ef in E; clear Ef
  | context [set_why ?w ?s] =>
      let Ef := fresh in destruct (set_why_eq w s) as [? Ef]; rewrite Ef in E; clear Ef
  end;
  cbn -[helloFromJson] in E;
  repeat (case_match; cbn -[helloFromJson] in E; try discriminate E);
  simplify_eq; cbn -[helloFromJson Z.of_nat Z.add Z.lt Z.le wrap64] in *;
  branch_facts; cbn -[helloFromJson Z.of_nat Z.add Z.lt Z.le wrap64] in *.

(** A session by its fields. *)
Ltac open_session s :=
  destruct s as [ep ackms inst0 why0 perr merr sy pi hseq tver sver nseq serr ready once due dirty full
                 pingd forced st acked sent loops waker sopen owe oweC].

Ltac owing s :=
  let h := fresh "Hs" in
  assert (h : (0 < S (owed s) + owed_close s)%nat) by lia; open_session s; cbn in *.
