(* ===== verification/SessionWake.v ===== *)
(** * A session loses no wake-up (src/ipban/session.cpp)

    The invariant that ties every flag of a session to a notification that is set
    or owed, or to a test its sending coroutine has still to make. *)

From S2P Require Import Prelude Records Json Wire Engine Proto Session.

Section session.
Context {JL : JsonLib}.

(** A notification is set, or some thread still owes one. *)
Definition armed (s : Session) : Prop := m_waker s \/ (0 < owed s + owed_close s)%nat.

Definition unacked (s : Session) : Prop := sw_seq (m_sync s) <> 0.

Definition signals (n : nat) (l : Link) : Prop :=
  let s := l_s l in let pc := l_spc l in
  let up := ~ ge_drain (m_state s) \/ pushing pc in
  (0 < m_nextSeq s <= Z.of_nat n + 1) /\
  (m_sendErr s <> ""%string -> armed s \/ at_head pc \/ leaving pc) /\
  (m_ready s -> armed s \/ pre_ready pc \/ leaving pc) /\
  (up -> m_pushDue s -> armed s \/ pre_cur pc \/ leaving pc) /\
  (up -> m_forceFull s -> unacked s \/ armed s \/ pre_cur pc \/ leaving pc) /\
  (up -> l_news l ->
     asking pc \/ (m_dirty s /\ unacked s) \/ (m_pushDue s /\ (armed s \/ pre_cur pc)) \/ leaving pc) /\
  (~ ge_drain (m_state s) -> m_pingDue s -> unacked s \/ armed s \/ pre_ping pc \/ leaving pc) /\
  (draining (m_state s) -> unacked s \/ armed s \/ in_pass pc \/ leaving pc) /\
  (ge_closing (m_state s) -> armed s \/ closing_pc (l_rpc l) \/ at_head pc \/ leaving pc) /\
  (m_pingDue s -> pw_seq (m_ping s) = 0).

Lemma signals_start epoch ackMs : signals 0 (link_start epoch ackMs).
Proof. unfold signals, armed; simpl. split_and!; try done; try lia; tauto. Qed.

(** One clause of [signals] at a time: the clause before the step and the facts of
    the branch give the clause after it. *)
Ltac keep_only k I2 I3 I4 I5 I6 I7 I8 I9 I10 :=
  lazymatch k with
  | 2 => clear I3 I4 I5 I6 I7 I8 I9 I10
  | 3 => clear I2 I4 I5 I6 I7 I8 I9 I10
  | 4 => clear I2 I3 I5 I6 I7 I8 I9 I10
  | 5 => clear I2 I3 I4 I6 I7 I8 I9 I10
  | 6 => clear I2 I3 I4 I5 I7 I8 I9 I10
  | 7 => clear I2 I3 I4 I5 I6 I8 I9
  | 8 => clear I2 I3 I4 I5 I6 I7 I9 I10
  | 9 => clear I2 I3 I4 I5 I6 I7 I8 I10
  | 10 => clear I2 I3 I4 I5 I6 I7 I8 I9
  end.

Ltac each_clause I2 I3 I4 I5 I6 I7 I8 I9 I10 :=
  rewrite ?wrap64_id by (unfold is_u64; lia); rewrite ?orb_True;
  let go k := solve [keep_only k I2 I3 I4 I5 I6 I7 I8 I9 I10; tauto] in
  split_and!; [lia | lia | go 2 | go 3 | go 4 | go 5 | go 6 | go 7 | go 8 | go 9 | go 10].

Lemma signals_send n i l l' :
  Z.of_nat n + 2 < 2 ^ 64 -> signals n l -> link_step (L_SEND i) l = Some l' -> signals (S n) l'.
Proof.
  intros Hn HI H. destruct l as [s pc rpc hold wire news]. open_session s.
  unfold link_step in H; cbn -[send_step] in H.
  destruct (s_locks pc && _); [done|].
  destruct (send_step i pc _) as [[[pc' s'] out]|] eqn:E; [|done]. injection H as <-.
  unfold signals, armed, unacked in *; cbn in *.
  destruct HI as (I1 & I2 & I3 & I4 & I5 & I6 & I7 & I8 & I9 & I10).
  assert (N0 : nseq <> 0) by lia.
  destruct pc, i; try discriminate E.
  all: cbn -[failProto] in E; unfold head_step, ready1_step, ready3_step, cur1_step, cur3_step, cur5_step, ping1_step,
    ping3_step, bye1_step, loopDone, loopLast, closeNow, sendOne in E; run_step E.
  all: each_clause I2 I3 I4 I5 I6 I7 I8 I9 I10.
Qed.

(** The receiver leaves the sender where it is. *)
Lemma signals_recv n i l l' :
  Z.of_nat n + 2 < 2 ^ 64 -> signals n l -> link_step (L_RECV i) l = Some l' -> signals (S n) l'.
Proof.
  intros Hn HI H. destruct l as [s pc rpc hold wire news].
  unfold link_step in H; cbn -[recv_step] in H.
  destruct (r_locks rpc && _); [done|].
  destruct (recv_step i rpc _) as [[rpc' s']|] eqn:E; [|done]. injection H as <-.
  apply recv_step_cases in E.
  unfold signals, armed, unacked in *; cbn in *.
  destruct HI as (I1 & I2 & I3 & I4 & I5 & I6 & I7 & I8 & I9 & I10).
  repeat (destruct E as [E|E]).
  - destruct E as [-> Hc]. rewrite Hc in I9; cbn in I9. each_clause I2 I3 I4 I5 I6 I7 I8 I9 I10.
  - destruct E as (me & pe & w & c & o & Ho & -> & Hc). open_session s; cbn in *.
    assert (Hs : (0 < S owe + oweC)%nat) by lia.
    destruct Hc as [[-> ->]| ->]; [destruct Ho as [->| ->]|clear Ho];
      (destruct (ge_closing st) eqn:G; [apply Is_true_eq_left in G|clear G]);
      cbn in *; each_clause I2 I3 I4 I5 I6 I7 I8 I9 I10.
  - destruct E as (w & c & ->). owing s. each_clause I2 I3 I4 I5 I6 I7 I8 I9 I10.
  - subst s'. owing s. each_clause I2 I3 I4 I5 I6 I7 I8 I9 I10.
  - destruct E as [Hp ->]. owing s. each_clause I2 I3 I4 I5 I6 I7 I8 I9 I10.
  - subst s'. owing s. each_clause I2 I3 I4 I5 I6 I7 I8 I9 I10.
  - destruct E as [-> Hc]. rewrite Hc in I9. owing s. each_clause I2 I3 I4 I5 I6 I7 I8 I9 I10.
  - subst s'. owing s. each_clause I2 I3 I4 I5 I6 I7 I8 I9 I10.
  - destruct E as (? & ? & ? & ? & ? & -> & ->). unfold greet. owing s.
    destruct (_ && _); cbn in *; each_clause I2 I3 I4 I5 I6 I7 I8 I9 I10.
  - destruct E as (? & ? & ? & ? & E). apply onAck_eq in E as (Hq & _ & _ & _ & _ & ->). owing s.
    destruct (ge_drain st) eqn:G; [apply Is_true_eq_left in G|clear G]; cbn in *;
      each_clause I2 I3 I4 I5 I6 I7 I8 I9 I10.
  - destruct E as (? & ? & E). unfold onSnapReq in E. owing s. case_match; [|done].
    injection E as <-. cbn in *. each_clause I2 I3 I4 I5 I6 I7 I8 I9 I10.
  - destruct E as [-> Hc]. rewrite Hc in I9. owing s. each_clause I2 I3 I4 I5 I6 I7 I8 I9 I10.
Qed.

(** Calls from other threads. *)
Lemma signals_other n a l l' :
  (forall i, a <> L_SEND i) -> (forall i, a <> L_RECV i) ->
  Z.of_nat n + 2 < 2 ^ 64 -> signals n l -> link_step a l = Some l' -> signals (S n) l'.
Proof.
  intros Ha Hb Hn HI H. destruct l as [s pc rpc hold wire news].
  unfold signals, armed, unacked in *; cbn in *.
  destruct HI as (I1 & I2 & I3 & I4 & I5 & I6 & I7 & I8 & I9 & I10).
  destruct a as [| | | | | |i|i]; [..|by destruct (Ha i)|by destruct (Hb i)].
  - destruct hold; [done|]. injection H as <-. unfold wake.
    destruct (ge_drain (m_state s)) eqn:G; [apply Is_true_eq_left in G|].
    + cbn. each_clause I2 I3 I4 I5 I6 I7 I8 I9 I10.
    + owing s. rewrite G. cbn. each_clause I2 I3 I4 I5 I6 I7 I8 I9 I10.
  - unfold enter in H. destruct hold; [done|]. injection H as <-.
    destruct (stop_enter _ _ _); cbn; each_clause I2 I3 I4 I5 I6 I7 I8 I9 I10.
  - unfold enter in H. destruct hold; [done|]. injection H as <-.
    destruct (force_enter _); cbn; each_clause I2 I3 I4 I5 I6 I7 I8 I9 I10.
  - destruct hold as [h|]; [|done]. injection H as <-. cbn.
    destruct (stop_leave_eq h s) as (w & f & oc & st1 & Hst & H). owing s.
    assert (Ho : (0 < owe + S oweC)%nat) by lia.
    assert (Ho' : (0 < S (owe + S oweC))%nat) by lia.
    destruct Hst as [[-> ->]|[[-> ->]|[-> ->]]]; destruct H as [->|[Hc ->]]; cbn;
      try discriminate Hc; try (rewrite Hc in *; cbn in * );
      each_clause I2 I3 I4 I5 I6 I7 I8 I9 I10.
  - owing s. destruct owe; [done|]. injection H as <-. cbn in *. each_clause I2 I3 I4 I5 I6 I7 I8 I9 I10.
  - owing s. destruct oweC; [done|]. injection H as <-. cbn in *. each_clause I2 I3 I4 I5 I6 I7 I8 I9 I10.
Qed.

Lemma signals_reach ok epoch ackMs n l :
  reach ok (link_start epoch ackMs) n l -> Z.of_nat n + 1 < 2 ^ 64 -> signals n l.
Proof.
  induction 1 as [|n l a l' _ IH _ Hs]; intros Hn; [apply signals_start|].
  assert (HI : signals n l) by (apply IH; lia).
  destruct a; [apply (signals_other n _ l l') in Hs..|apply (signals_send n i l)|apply (signals_recv n i l)];
    done || lia.
Qed.

(** C14: no wake-up is lost. Whenever the sending coroutine sleeps and no
    notification is set or owed, there is nothing for it to do: no READY and no
    error to send, no resynchronisation and no ping but behind an unacknowledged
    push, every publication since the last push was computed is recorded as dirty
    behind such a push (whose ACK or time-out wakes the sender), a draining
    session still waits for an ACK, and a closing one is about to be woken. *)
Theorem no_lost_wakeup ok epoch ackMs n l :
  reach ok (link_start epoch ackMs) n l -> Z.of_nat n + 1 < 2 ^ 64 ->
  l_spc l = S_WAIT -> ~ armed (l_s l) ->
  let s := l_s l in
  m_sendErr s = ""%string /\ m_ready s = false /\
  (ge_drain (m_state s) = false ->
     m_pushDue s = false /\ (m_forceFull s = true -> unacked s) /\ (m_pingDue s = true -> unacked s) /\
     (l_news l = true -> m_dirty s = true /\ unacked s)) /\
  (m_state s = ST_DRAIN -> unacked s) /\
  (ge_closing (m_state s) = true -> l_rpc l = R_CLOSE).
Proof.
  intros R Hn Hp Ha. destruct (signals_reach _ _ _ _ _ R Hn)
    as (_ & I2 & I3 & I4 & I5 & I6 & I7 & I8 & I9 & I10). rewrite Hp in *; cbn in *.
  split_and!.
  - destruct (String.eqb_spec (m_sendErr (l_s l)) ""); [done|tauto].
  - destruct (m_ready _); [exfalso; clear -I3 Ha; cbn in I3; tauto|done].
  - intros G. rewrite G in *. cbn in *. split_and!; intros.
    + destruct (m_pushDue _); [exfalso; clear -I4 Ha; cbn in I4; tauto|done].
    + rewrite H in *. clear -I5 Ha. cbn in I5. tauto.
    + rewrite H in *. clear -I7 Ha. cbn in I7. tauto.
    + rewrite H in *. destruct (m_dirty _); clear -I6 Ha; cbn in I6; tauto.
  - intros G. rewrite G in *. clear -I8 Ha. cbn in I8. tauto.
  - intros G. rewrite G in *. destruct (l_rpc l); try done; clear -I9 Ha; cbn in I9; tauto.
Qed.

End session.
