(* ===== verification/SessionPush.v ===== *)
(** * What a session pushes (src/ipban/session.cpp)

    In a run where publications come after HELLO, READY is the first frame and an
    increment starts from the version the gateway has acknowledged. *)

From S2P Require Import Prelude Records Json Wire Engine Proto Session SessionWake.

Section session.
Context {JL : JsonLib}.

(** ** What a push starts from *)

(** Publications come only after the session has seen its HELLO. *)
Definition after_hello (l : Link) (a : Label) : bool :=
  match a with L_WAKE => negb (m_helloSeq (l_s l) =? 0) | _ => true end.

(** Where the sender can be while no HELLO has been processed. *)
Definition quiet_pc (pc : SPc) : bool :=
  match pc with
  | S_LOOP | S_WAIT | S_HEAD | S_ERR _ | S_FAIL _ | S_EXIT | S_DONE | S_LAST | S_STOPPED => true
  | _ => false
  end.
(** Where it can be between HELLO and READY. *)
Definition early_pc (pc : SPc) : bool :=
  match pc with S_LOOP | S_WAIT | S_HEAD | S_READY1 => true | _ => false end.
Definition ready_pc (pc : SPc) : bool := match pc with S_READY2 _ _ => true | _ => false end.
Definition quitting (pc : SPc) : bool :=
  match pc with S_ERR _ | S_FAIL _ | S_EXIT | S_DONE | S_LAST | S_STOPPED => true | _ => false end.
Definition in_loop (pc : RPc) : bool :=
  match pc with R_LOOP | R_RECV | R_MSG _ _ _ | R_IDLE | R_BAD _ _ false => true | _ => false end.
Definition before_sync (st : State) : bool := negb (ge_sync st) || ge_closing st.
Definition opening (k : Kind) : bool := match k with READY | ERR => true | _ => false end.
Definition opens (wire : list Frame) : Prop :=
  match last wire with None => True | Some f => opening (f_kind f) end.

Definition hello_pc (pc : RPc) (helloSeq : Z) : Prop :=
  match pc with
  | R_HELLO => helloSeq = 0
  | R_TARGET seq _ _ _ | R_BIND seq _ _ _ _ => helloSeq = 0 /\ seq <> 0
  | _ => in_loop pc -> helloSeq <> 0
  end.

Definition hold_ok (h : option Hold) (s : Session) : Prop :=
  match h with
  | Some (H_STOP _ _ cur) =>
      (m_helloSeq s = 0 -> before_sync cur) /\ (ge_closing cur -> ge_closing (m_state s))
  | _ => True
  end.

Definition silent (l : Link) : Prop :=
  let s := l_s l in
  ~ m_pushDue s /\ ~ m_forceFull s /\ ~ m_pingDue s /\ ~ m_ready s /\ ~ m_sentOnce s /\
  sw_seq (m_sync s) = 0 /\ quiet_pc (l_spc l) /\ before_sync (m_state s) /\
  (armed s \/ at_head (l_spc l) -> ge_closing (m_state s) \/ quitting (l_spc l)) /\
  (closing_pc (l_rpc l) -> ge_closing (m_state s)).

Definition at_push (pc : SPc) (s : Session) : Prop :=
  match pc with
  | S_CUR2 from once => sw_seq (m_sync s) = 0 /\ (once -> m_acked s = from)
  | S_CUR3 _ _ _ => sw_seq (m_sync s) = 0
  | S_CUR4 _ _ ver seq | S_CUR5 ver seq =>
      (sw_seq (m_sync s) <> 0 /\ sw_ver (m_sync s) = ver) \/
      (sw_seq (m_sync s) = 0 /\ (m_forceFull s \/ m_acked s = ver))
  | _ => True
  end.
Definition in_push (pc : SPc) : bool :=
  match pc with S_CUR4 _ _ _ _ | S_CUR5 _ _ => true | _ => false end.

Definition linked (l : Link) : Prop :=
  let s := l_s l in let pc := l_spc l in
  hello_pc (l_rpc l) (m_helloSeq s) /\
  hold_ok (l_hold l) s /\
  (m_helloSeq s = 0 -> silent l) /\
  at_push pc s /\
  (~ in_push pc -> ~ quitting pc -> m_sentOnce s ->
     (sw_seq (m_sync s) <> 0 /\ sw_ver (m_sync s) = m_sentVer s) \/
     (sw_seq (m_sync s) = 0 /\ (m_forceFull s \/ m_acked s = m_sentVer s))) /\
  (l_wire l = [] -> m_helloSeq s <> 0 ->
     (m_ready s /\ early_pc pc) \/ ready_pc pc \/ quitting pc) /\
  opens (l_wire l).

Lemma linked_start epoch ackMs : linked (link_start epoch ackMs).
Proof. unfold linked, silent, armed; cbn. split_and!; try done; try lia; tauto. Qed.

Lemma opens_cons f wire : opens wire -> (wire = [] -> opening (f_kind f)) -> opens (f :: wire).
Proof. unfold opens. destruct wire as [|g w]; intros H Hf; [by apply Hf|exact H]. Qed.

Ltac keep_link k L1 L2 L3 L4 L5 L6 L7 :=
  lazymatch k with
  | 1 => clear L2 L3 L5 L6 L7; try clear L4
  | 2 => clear L1 L3 L5 L6 L7; try clear L4
  | 3 => clear L1 L2 L5 L6 L7; try clear L4
  | 4 => clear L1 L2 L3 L6 L7
  | 5 => clear L1 L2 L3 L6 L7
  | 6 => clear L1 L2 L3 L5 L7; try clear L4
  | 7 => clear L1 L2 L5; try clear L4
  end.

Ltac link_fact :=
  repeat match goal with |- context [?a && _] => is_var a; destruct a end; cbn in *;
  rewrite ?andb_True, ?orb_True, ?negb_True;
  first [done | tauto | lia | intros; discriminate].

(** A frame on the wire. *)
Ltac link_frame L3 L6 L7 hseq :=
  apply opens_cons; [exact L7|]; intros ->; cbn in *;
  destruct (decide (hseq = 0)); (done || tauto).

Ltac each_link L1 L2 L3 L4 L5 L6 L7 h :=
  let go k := solve [keep_link k L1 L2 L3 L4 L5 L6 L7;
                     lazymatch goal with
                     | |- opens (_ :: _) => link_frame L3 L6 L7 h
                     | |- _ => link_fact
                     end] in
  split; [go 1|split; [go 2|split; [go 3|split; [go 4|split; [go 5|split; [go 6|go 7]]]]]].

Lemma linked_send n i l l' :
  signals n l -> linked l -> link_step (L_SEND i) l = Some l' -> linked l'.
Proof.
  intros HS HI H. destruct l as [s pc rpc hold wire news]. open_session s.
  assert (N0 : nseq <> 0) by (destruct HS as ((HS & _) & _); cbn in HS; lia). clear HS.
  unfold link_step in H; cbn -[send_step] in H.
  assert (Hk : s_locks pc = true -> hold = None)
    by (intros Hk; rewrite Hk in H; by destruct hold).
  destruct (s_locks pc && _); [done|].
  destruct (send_step i pc _) as [[[pc' s'] out]|] eqn:E; [|done]. injection H as <-.
  unfold linked, silent, armed in *; cbn in *.
  destruct HI as (L1 & L2 & L3 & L4 & L5 & L6 & L7).
  destruct pc, i; try discriminate E; try (specialize (Hk eq_refl); subst hold).
  all: cbn -[failProto] in E; unfold head_step, ready1_step, ready3_step, cur1_step, cur3_step, cur5_step,
    ping1_step, ping3_step, bye1_step, loopDone, loopLast, closeNow, sendOne in E; run_step E.
  all: try destruct hold as [[]|]; cbn in L2.
  all: cbn; each_link L1 L2 L3 L4 L5 L6 L7 hseq.
Qed.

(** The first message leads to HELLO's fields or to a complaint. *)
Lemma onHello_pc kind seq body :
  (exists e c, onHello kind seq body = R_BAD e c true) \/
  (seq <> 0 /\ exists inst epoch ver, onHello kind seq body = R_TARGET seq inst epoch ver).
Proof.
  unfold onHello. destruct kind; eauto. destruct (seq =? 0) eqn:E; b2p; eauto.
  destruct (helloFromJson body) as [[[i e] v]| |]; eauto 10.
Qed.

(** The fields [linked] reads of a session that has seen its HELLO. *)
Definition same_core (s s' : Session) : Prop :=
  m_helloSeq s' = m_helloSeq s /\ m_sync s' = m_sync s /\ m_sentVer s' = m_sentVer s /\
  m_acked s' = m_acked s /\ m_sentOnce s' = m_sentOnce s /\ m_forceFull s' = m_forceFull s /\
  m_ready s' = m_ready s.

(** A step of another thread that keeps these fields. *)
Lemma linked_keeps s s' pc rpc rpc' hold hold' wire news news' :
  linked (mkLink s pc rpc hold wire news) -> same_core s s' ->
  hello_pc rpc' (m_helloSeq s) -> hold_ok hold' s' ->
  (m_helloSeq s = 0 -> silent (mkLink s' pc rpc' hold' wire news')) ->
  linked (mkLink s' pc rpc' hold' wire news').
Proof.
  intros (L1 & L2 & L3 & L4 & L5 & L6 & L7) (E1 & E2 & E3 & E4 & E5 & E6 & E7) H1 H2 H3.
  unfold linked, at_push in *; cbn in *. rewrite E1, E2, E3, E4, E5, E6, E7. done.
Qed.

(** The part of [silent] a step that keeps its fields has to show again. *)
Lemma silent_keeps s s' pc rpc rpc' hold hold' wire news news' :
  silent (mkLink s pc rpc hold wire news) -> same_core s s' ->
  m_pushDue s' = m_pushDue s -> m_pingDue s' = m_pingDue s -> before_sync (m_state s') ->
  (ge_closing (m_state s') \/ quitting pc \/
   ((armed s' -> armed s) /\ m_state s' = m_state s /\ closing_pc rpc' = false)) ->
  (closing_pc rpc' -> ge_closing (m_state s')) ->
  silent (mkLink s' pc rpc' hold' wire news').
Proof.
  intros (S1 & S2 & S3 & S4 & S5 & S6 & S7 & S8 & S9 & S10) (E1 & E2 & E3 & E4 & E5 & E6 & E7) P1 P2 B A C.
  unfold silent in *; cbn in *. rewrite E2, E5, E6, E7, P1, P2. split_and!; try done.
  destruct A as [A|[A|(A & -> & _)]]; tauto.
Qed.

(** A failure: the session is closing afterwards. *)
Lemma linked_closing s s' pc rpc rpc' hold wire news :
  linked (mkLink s pc rpc hold wire news) -> same_core s s' ->
  m_pushDue s' = m_pushDue s -> m_pingDue s' = m_pingDue s -> ge_closing (m_state s') = true ->
  hold_ok hold s' -> hello_pc rpc' (m_helloSeq s) ->
  linked (mkLink s' pc rpc' hold wire news).
Proof.
  intros HI HC P1 P2 HS HH HR. apply (linked_keeps s s' pc rpc rpc' hold hold wire news news); try done.
  intros Hz. pose proof HI as (_ & _ & L3 & _). specialize (L3 Hz).
  assert (B : before_sync (m_state s')) by (unfold before_sync; rewrite HS, orb_true_r; done).
  eapply silent_keeps; try done; rewrite HS; cbn; tauto.
Qed.

(** A message that is accepted, after HELLO. *)
Lemma linked_accepts kind seq body s s' pc rpc wire news :
  linked (mkLink s pc rpc None wire news) -> m_helloSeq s <> 0 ->
  ((kind = ACK /\ exists inst epoch ver,
      helloFromJson body = Parsed (inst, epoch, ver) /\ onAck seq inst epoch ver s = Some s')
   \/ (kind = SNAP_REQ /\ onSnapReq seq body s = Some s')
   \/ (kind = PONG /\ onPong seq body s = Some s')) ->
  linked (mkLink s' pc R_LOOP None wire news).
Proof.
  intros HI Hz E. pose proof HI as (L1 & L2 & L3 & L4 & L5 & L6 & L7). cbn in *.
  destruct E as [(_ & inst & epoch & ver & _ & E)|[(_ & E)|(_ & E)]].
  - apply onAck_eq in E as (Hq & _ & _ & _ & -> & ->). clear HI L3. unfold linked; open_session s; cbn in *.
    split_and!; [done|done|done| | |tauto|done]; clear L6; destruct pc; cbn in *; tauto.
  - unfold onSnapReq in E. destruct (_ && _ && _); [|done]. injection E as <-.
    clear HI L3. unfold linked; open_session s; cbn in *.
    split_and!; [done|done|done| | |tauto|done]; clear L6; destruct pc; cbn in *; tauto.
  - unfold onPong in E. destruct (_ && _ && _); [|done]. injection E as <-.
    eapply linked_keeps; [exact HI|done|by intros _|done|]. intros; by destruct Hz.
Qed.

Lemma linked_recv i l l' : linked l -> link_step (L_RECV i) l = Some l' -> linked l'.
Proof.
  intros HI H. destruct l as [s pc rpc hold wire news].
  unfold link_step in H; cbn -[recv_step] in H.
  assert (Hk : r_locks rpc = true -> hold = None)
    by (intros Hk; rewrite Hk in H; by destruct hold).
  destruct (r_locks rpc && _); [done|].
  destruct (recv_step i rpc s) as [[rpc' s']|] eqn:E; [|done]. injection H as <-.
  pose proof HI as (L1 & L2 & L3 & L4 & L5 & L6 & L7). cbn in *.
  assert (keep : forall rpc', hello_pc rpc' (m_helloSeq s) -> closing_pc rpc' = false ->
    linked (mkLink s pc rpc' hold wire news)).
  { intros r Hr Hc. apply (linked_keeps s s pc rpc r hold hold wire news news); try done.
    intros Hz. specialize (L3 Hz). pose proof L3 as (_ & _ & _ & _ & _ & _ & _ & B & _).
    eapply silent_keeps; try done; cbn; [by right; right|by rewrite Hc]. }
  destruct rpc, i; try discriminate E; try (specialize (Hk eq_refl); subst hold);
    cbn -[onMsg onHello] in E; cbn in L1.
  all: try (injection E as <- <-; apply keep; cbn; tauto).
  - injection E as <- <-. destruct (onHello_pc kind seq body) as [(? & ? & ->)|(? & ? & ? & ? & ->)];
      apply keep; cbn; tauto.
  - injection E as <- <-. destruct L1 as [L1 Hq]. specialize (L3 L1).
    destruct L3 as (_ & _ & _ & _ & S5 & S6 & S7 & _ & S9 & _). unfold linked. cbn.
    unfold greet. open_session s; cbn in *. clear keep HI L5 L6.
    destruct (_ && _); cbn; (split_and!; [done|done|done| | | |done]); destruct pc; cbn in *; tauto.
  - injection E as <- <-. apply keep; destruct (ge_closing _); cbn; tauto.
  - injection E as <- <-. apply keep; destruct (pe_io err), (pe_frame err); cbn; tauto.
  - injection E as E. specialize (L1 I). apply onMsg_cases in E as [(-> & e & c & ->)|(-> & E)].
    + apply keep; cbn; tauto.
    + by eapply linked_accepts.
  - injection E as <- <-. specialize (L1 I).
    assert (K : same_core s (onTimeout now s)).
    { destruct (onTimeout_cases now s) as [(w & c & ->)|[->|[->|[_ ->]]]]; done. }
    eapply linked_keeps; [exact HI|exact K|by intros _|done|]. intros; by destruct L1.
  - injection E as <- <-. destruct (failMsg_eq err code s) as (me & w & c & ->).
    eapply linked_closing; [exact HI|..]; cbn; try done.
    + by destruct (ge_closing (m_state s)) eqn:G.
    + destruct stop; cbn in *; tauto.
  - injection E as <- <-. destruct (failProto_eq err s) as (pe & w & ->).
    eapply linked_closing; [exact HI|..]; cbn; try done.
    by destruct (ge_closing (m_state s)) eqn:G.
  - injection E as <- <-. eapply linked_keeps; [exact HI|done|cbn; tauto|done|].
    intros Hz. specialize (L3 Hz). pose proof L3 as (_ & _ & _ & _ & _ & _ & _ & B & _ & C).
    eapply silent_keeps; [exact L3|done..| |done]. left. by apply C.
  - injection E as E <-. assert (Hc : closing_pc rpc' = false /\ hello_pc rpc' (m_helloSeq s))
      by (destruct (_ =? 1); subst rpc'; cbn; tauto).
    destruct Hc as [Hc Hr]. eapply linked_keeps; [exact HI|done|exact Hr|done|].
    intros Hz. specialize (L3 Hz). pose proof L3 as (_ & _ & _ & _ & _ & _ & _ & B & _).
    eapply silent_keeps; [exact L3|done..| |by rewrite Hc]. by right; right.
  - injection E as <- <-. eapply linked_closing; [exact HI|..]; cbn; try done.
    destruct hold as [[]|]; cbn in *; tauto.
Qed.

(** Calls from other threads; a publication only after HELLO. *)
Lemma linked_other a l l' :
  (forall i, a <> L_SEND i) -> (forall i, a <> L_RECV i) -> after_hello l a = true ->
  linked l -> link_step a l = Some l' -> linked l'.
Proof.
  intros Ha Hb Hok HI H. destruct l as [s pc rpc hold wire news].
  pose proof HI as (L1 & L2 & L3 & _). cbn in *.
  destruct a as [| | | | | |i|i]; [..|by destruct (Ha i)|by destruct (Hb i)].
  - destruct hold; [done|]. injection H as <-. cbn in Hok. b2p.
    assert (K : same_core s (wake s)) by (unfold wake; by destruct (ge_drain _)).
    eapply linked_keeps; [exact HI|exact K|done|done|]. intros; by destruct Hok.
  - unfold enter in H. destruct hold; [done|]. injection H as <-. cbn [free l_hold].
    destruct (stop_enter why drain s) as [h|] eqn:Eh; [|exact HI].
    eapply linked_keeps; [exact HI|done|done|..]; cbn.
    + unfold stop_enter in Eh. destruct (m_state s) eqn:Es; simplify_eq; cbn; try rewrite Es; cbn;
        (split; [intros Hz|tauto]); specialize (L3 Hz); destruct L3 as (_ & _ & _ & _ & _ & _ & _ & B & _);
        cbn in B; by rewrite Es in B.
    + intros Hz. exact (L3 Hz).
  - unfold enter in H. destruct hold; [done|]. injection H as <-. cbn [free l_hold].
    destruct (force_enter s) as [h|] eqn:Eh; [|exact HI].
    eapply linked_keeps; [exact HI|done|done|..]; cbn.
    + unfold force_enter in Eh. by destruct (m_state s); simplify_eq.
    + intros Hz. exact (L3 Hz).
  - destruct hold as [h|]; [|done]. injection H as <-.
    destruct (stop_leave_eq h s) as (w & f & oc & st1 & _ & K).
    eapply linked_keeps; [exact HI|by destruct K as [->|[_ ->]]|done|done|].
    intros Hz. specialize (L3 Hz). pose proof L3 as (_ & _ & _ & _ & _ & _ & _ & B & _ & _).
    assert (G : ge_closing (m_state (stop_leave h s)) = true).
    { destruct h as [why drain cur|]; cbn [stop_leave].
      - destruct L2 as [L2 L2']. specialize (L2 Hz). destruct (set_why_eq why s) as [w' ->].
        destruct cur, drain; cbn in *; try done; apply Is_true_eq_true, L2'; exact I.
      - destruct (set_why_eq W_STOP_TIMEOUT s) as [w' ->]. done. }
    eapply silent_keeps; [exact L3|by destruct K as [->|[_ ->]]..| | |]; unfold before_sync; rewrite G;
      rewrite ?orb_true_r; cbn; tauto.
  - cbn in H. destruct (owed s) as [|o] eqn:Eo; [done|]. injection H as <-.
    eapply linked_keeps; [exact HI|done|done|exact L2|]. intros Hz. specialize (L3 Hz).
    pose proof L3 as (_ & _ & _ & _ & _ & _ & _ & B & A & C).
    eapply silent_keeps; [exact L3|done|done|done|done| |done].
    destruct A as [A|A]; [left; right; cbn; lia|by left|right; by left].
  - cbn in H. destruct (owed_close s) as [|o] eqn:Eo; [done|]. injection H as <-.
    eapply linked_keeps; [exact HI|done|done|exact L2|]. intros Hz. specialize (L3 Hz).
    pose proof L3 as (_ & _ & _ & _ & _ & _ & _ & B & A & C).
    eapply silent_keeps; [exact L3|done|done|done|done| |done].
    destruct A as [A|A]; [left; right; cbn; lia|by left|right; by left].
Qed.

Lemma linked_reach epoch ackMs n l :
  reach after_hello (link_start epoch ackMs) n l -> Z.of_nat n + 1 < 2 ^ 64 -> linked l.
Proof.
  induction 1 as [|n l a l' R IH Hok Hs]; intros Hn; [apply linked_start|].
  assert (HI : linked l) by (apply IH; lia).
  assert (HS : signals n l) by (eapply signals_reach; [exact R|lia]).
  destruct a; [apply (linked_other _ l l') in Hs..|apply (linked_send n i l)|apply (linked_recv i l)]; done.
Qed.

(** ** Runs in any order

    A publication may come before HELLO, and then a push may be the first frame of all. In
    every other run the same holds. *)

Definition is_push_frame (f : Frame) : bool := match f_kind f with SNAP | DELTA => true | _ => false end.
Definition push_first (wire : list Frame) : bool := match last wire with Some f => is_push_frame f | None => false end.

(** Where the sender is only after HELLO. *)
Definition greeted_pc (pc : SPc) : bool := match pc with S_READY2 _ _ | S_READY3 _ | S_PING2 _ | S_PING3 _ => true | _ => false end.

Definition sent_pc (pc : SPc) : bool := match pc with S_CUR5 _ _ => true | _ => false end.

Definition push_pc (pc : SPc) (s : Session) (wire : list Frame) : Prop :=
  match pc with
  | S_CUR2 from once => sw_seq (m_sync s) = 0 /\ (once -> m_helloSeq s <> 0 /\ m_acked s = from \/ push_first wire)
  | S_CUR3 _ _ _ => sw_seq (m_sync s) = 0
  | S_CUR4 _ _ ver seq | S_CUR5 ver seq =>
      (sw_seq (m_sync s) <> 0 /\ sw_ver (m_sync s) = ver) \/
      (sw_seq (m_sync s) = 0 /\ (m_forceFull s \/ m_acked s = ver))
  | _ => True
  end.

Definition based (l : Link) : Prop :=
  let s := l_s l in let pc := l_spc l in let w := l_wire l in
  hello_pc (l_rpc l) (m_helloSeq s) /\
  (m_helloSeq s = 0 -> ~ m_pingDue s /\ ~ m_ready s /\ ~ greeted_pc pc /\ (m_sentOnce s -> push_first w) /\
     (sw_seq (m_sync s) <> 0 -> in_push pc \/ push_first w \/ quitting pc) /\ (w = [] \/ push_first w \/ quitting pc) /\ (sent_pc pc -> push_first w) /\
     (in_push pc -> sw_seq (m_sync s) <> 0)) /\
  push_pc pc s w /\
  (~ in_push pc -> ~ quitting pc -> m_sentOnce s ->
     (sw_seq (m_sync s) <> 0 /\ sw_ver (m_sync s) = m_sentVer s) \/
     (sw_seq (m_sync s) = 0 /\ (m_forceFull s \/ m_acked s = m_sentVer s)) \/ push_first w).

Lemma based_start epoch ackMs : based (link_start epoch ackMs).
Proof. unfold based; cbn. split_and!; try done; try lia; tauto. Qed.

Lemma push_first_cons f wire : push_first (f :: wire) = match wire with [] => is_push_frame f | _ => push_first wire end.
Proof. by destruct wire. Qed.

Ltac by_hello h :=
  first [tauto|
    repeat match goal with
    | |- context [negb ?a && _] => is_var a; destruct a
    | |- context [negb ?a] => is_var a; destruct a
    | |- context [?a && _] => is_var a; destruct a
    | k : PushKind |- _ => destruct k
    end; unfold is_push_frame in *; cbn -[push_first] in *; intros;
    first [tauto|lia|destruct (decide (h = 0)); tauto|destruct (decide (h = 0)); intuition (try done; try lia)]].

Lemma based_send n i l l' : signals n l -> based l -> link_step (L_SEND i) l = Some l' -> based l'.
Proof.
  intros HS HI H. destruct l as [s pc rpc hold wire news]. open_session s.
  assert (N0 : nseq <> 0) by (destruct HS as ((HS & _) & _); cbn in HS; lia). clear HS.
  unfold link_step in H; cbn -[send_step] in H. destruct (s_locks pc && _); [done|].
  destruct (send_step i pc _) as [[[pc' s'] out]|] eqn:E; [|done]. injection H as <-.
  unfold based in *; cbn -[push_first] in *. destruct HI as (L1 & L2 & L3 & L4).
  destruct pc, i; try discriminate E.
  all: cbn -[failProto] in E; unfold head_step, ready1_step, ready3_step, cur1_step, cur3_step, cur5_step,
    ping1_step, ping3_step, bye1_step, loopDone, loopLast, closeNow, sendOne in E; run_step E.
  all: cbn -[push_first] in *; rewrite ?push_first_cons; try destruct wire as [|f0 wire]; cbn -[push_first] in *;
    change (push_first []) with false in *; (split; [exact L1|clear L1]);
    (split; [intros Hz; specialize (L2 Hz); destruct L2 as (A1 & A2 & A3 & A4 & A5 & A6 & A7 & A8); clear L4; by_hello hseq|]);
    (split; [first [exact I|assumption|by_hello hseq]|first [exact L4|clear L3; by_hello hseq|by_hello hseq]]).
Qed.

Lemma based_keeps s s' pc rpc rpc' hold hold' wire news news' :
  based (mkLink s pc rpc hold wire news) -> same_core s s' -> (m_helloSeq s = 0 -> m_pingDue s' = m_pingDue s) ->
  hello_pc rpc' (m_helloSeq s) -> based (mkLink s' pc rpc' hold' wire news').
Proof.
  intros (L1 & L2 & L3 & L4) (E1 & E2 & E3 & E4 & E5 & E6 & E7) P H. unfold based, push_pc in *; cbn -[push_first] in *.
  rewrite E1, E2, E3, E4, E5, E6, E7. split_and!; try done. intros Hz. rewrite (P Hz). exact (L2 Hz).
Qed.

Lemma based_accepts kind seq body s s' pc rpc wire news :
  based (mkLink s pc rpc None wire news) -> m_helloSeq s <> 0 ->
  ((kind = ACK /\ exists inst epoch ver,
      helloFromJson body = Parsed (inst, epoch, ver) /\ onAck seq inst epoch ver s = Some s')
   \/ (kind = SNAP_REQ /\ onSnapReq seq body s = Some s')
   \/ (kind = PONG /\ onPong seq body s = Some s')) ->
  based (mkLink s' pc R_LOOP None wire news).
Proof.
  intros HI Hz E. pose proof HI as (L1 & L2 & L3 & L4). cbn -[push_first] in *.
  destruct E as [(_ & inst & epoch & ver & _ & E)|[(_ & E)|(_ & E)]].
  - apply onAck_eq in E as (Hq & _ & _ & _ & -> & ->). clear HI L2. unfold based; open_session s; cbn -[push_first] in *.
    split_and!; [done|done|..]; destruct pc; cbn -[push_first] in *; tauto.
  - unfold onSnapReq in E. destruct (_ && _ && _); [|done]. injection E as <-.
    clear HI L2. unfold based; open_session s; cbn -[push_first] in *.
    split_and!; [done|done|..]; destruct pc; cbn -[push_first] in *; tauto.
  - unfold onPong in E. destruct (_ && _ && _); [|done]. injection E as <-.
    by eapply based_keeps; [exact HI|done|done|intros _].
Qed.

Lemma based_recv i l l' : based l -> link_step (L_RECV i) l = Some l' -> based l'.
Proof.
  intros HI H. destruct l as [s pc rpc hold wire news].
  unfold link_step in H; cbn -[recv_step] in H.
  assert (Hk : r_locks rpc = true -> hold = None) by (intros Hk; rewrite Hk in H; by destruct hold).
  destruct (r_locks rpc && _); [done|].
  destruct (recv_step i rpc s) as [[rpc' s']|] eqn:E; [|done]. injection H as <-.
  pose proof HI as (L1 & L2 & L3 & L4). cbn -[push_first] in *.
  assert (keep : forall s' rpc', same_core s s' -> m_pingDue s' = m_pingDue s -> hello_pc rpc' (m_helloSeq s) ->
    based (mkLink s' pc rpc' hold wire news)).
  { intros s1 r Hs Hp Hr. by apply (based_keeps s s1 pc rpc r hold hold wire news news). }
  destruct rpc, i; try discriminate E; try (specialize (Hk eq_refl); subst hold); cbn -[onMsg onHello] in E; cbn in L1.
  all: try (injection E as <- <-; apply keep; [done|done|cbn; tauto]).
  - injection E as <- <-. destruct (onHello_pc kind seq body) as [(? & ? & ->)|(? & ? & ? & ? & ->)]; (apply keep; [done|done|cbn; tauto]).
  - injection E as <- <-. destruct L1 as [L1 Hq]. specialize (L2 L1). destruct L2 as (B1 & B2 & B3 & B4 & B5 & B6 & B7 & B8).
    unfold based, greet. open_session s; cbn -[push_first] in *. clear keep HI.
    destruct (_ && _); cbn -[push_first]; (split; [done|split; [done|]]); destruct pc; cbn -[push_first] in *;
      destruct (decide (sw_seq sy = 0)); split; tauto.
  - injection E as <- <-. apply keep; [done|done|destruct (ge_closing _); cbn; tauto].
  - injection E as <- <-. apply keep; [done|done|destruct (pe_io err), (pe_frame err); cbn; tauto].
  - injection E as E. specialize (L1 I). apply onMsg_cases in E as [(-> & e & c & ->)|(-> & E)].
    + apply keep; [done|done|cbn; tauto].
    + by eapply based_accepts.
  - injection E as <- <-. specialize (L1 I).
    assert (K : same_core s (onTimeout now s)).
    { destruct (onTimeout_cases now s) as [(w & c & ->)|[->|[->|[_ ->]]]]; done. }
    by eapply based_keeps; [exact HI|exact K|intros; by destruct L1|intros _].
  - injection E as <- <-. destruct (failMsg_eq err code s) as (me & w & c & ->).
    (apply keep; [by destruct (ge_closing (m_state s))..|destruct stop; cbn in *; tauto]).
  - injection E as <- <-. destruct (failProto_eq err s) as (pe & w & ->). by apply keep; destruct (ge_closing (m_state s)).
  - injection E as E <-. destruct (_ =? 1); subst rpc'; (apply keep; [done|done|cbn; tauto]).
Qed.

Lemma based_other a l l' : (forall i, a <> L_SEND i) -> (forall i, a <> L_RECV i) -> based l -> link_step a l = Some l' -> based l'.
Proof.
  intros Ha Hb HI H. destruct l as [s pc rpc hold wire news]. pose proof HI as (L1 & _).
  assert (keep : forall s' hold' news', same_core s s' -> m_pingDue s' = m_pingDue s -> based (mkLink s' pc rpc hold' wire news')).
  { intros s1 h w Hs Hp. by apply (based_keeps s s1 pc rpc rpc hold h wire news w). }
  destruct a as [| | | | | |i|i]; cbn in H; [..|by destruct (Ha i)|by destruct (Hb i)].
  - destruct hold; [done|]. injection H as <-. apply keep; unfold wake; by destruct (ge_drain _).
  - unfold enter in H. destruct hold; [done|]. injection H as <-. cbn [free l_hold]. by destruct (stop_enter why drain s).
  - unfold enter in H. destruct hold; [done|]. injection H as <-. cbn [free l_hold]. by destruct (force_enter s).
  - destruct hold as [h|]; [|done]. injection H as <-.
    destruct (stop_leave_eq h s) as (w & f & oc & st1 & _ & [->|[_ ->]]); by apply keep.
  - destruct (owed s); [done|]. injection H as <-. by apply keep.
  - destruct (owed_close s); [done|]. injection H as <-. by apply keep.
Qed.

Lemma reach_any ok l0 n l : reach ok l0 n l -> reach any_step l0 n l.
Proof. induction 1; [constructor|]. by eapply reach_step. Qed.

Lemma based_reach ok epoch ackMs n l : reach ok (link_start epoch ackMs) n l -> Z.of_nat n + 1 < 2 ^ 64 -> based l.
Proof.
  induction 1 as [|n l a l' R IH Hok Hs]; intros Hn; [apply based_start|].
  assert (HI : based l) by (apply IH; lia).
  assert (HS : signals n l) by (eapply signals_reach; [exact R|lia]).
  destruct a; [apply (based_other _ l l') in Hs..|apply (based_send n i l l')|apply (based_recv i l l')]; done.
Qed.


(** C15: a push is computed only while nothing sent is unacknowledged, and an increment
    always starts from the version the gateway acknowledged last (or reported in its
    HELLO), in every interleaving of the two coroutines with publications, stops and the
    gateway's messages. There is one exception, a session whose first frame of all was a
    push, which a gateway answers by hanging up; where publications come after HELLO there
    is no such session. *)
Theorem push_base epoch ackMs n l from once :
  reach any_step (link_start epoch ackMs) n l -> Z.of_nat n + 1 < 2 ^ 64 ->
  l_spc l = S_CUR2 from once ->
  sw_seq (m_sync (l_s l)) = 0 /\
  (once = true -> from = m_acked (l_s l) \/
     exists f, last (l_wire l) = Some f /\ (f_kind f = SNAP \/ f_kind f = DELTA)) /\
  (reach after_hello (link_start epoch ackMs) n l -> once = true -> from = m_acked (l_s l)).
Proof.
  intros R Hn Hp. destruct (based_reach _ _ _ _ _ R Hn) as (_ & _ & L3 & _). rewrite Hp in L3.
  destruct L3 as [L3 L3']. split; [done|]. split.
  - intros ->. destruct (L3' I) as [[_ H]|H]; [by left|right]. unfold push_first, is_push_frame in H.
    destruct (last (l_wire l)) as [f|]; [|done]. exists f. split; [done|]. destruct (f_kind f); cbn in H; tauto.
  - intros R' ->. destruct (linked_reach _ _ _ _ R' Hn) as (_ & _ & _ & L4 & _). rewrite Hp in L4. symmetry. by apply L4.
Qed.

(** Where publications come after HELLO, the first frame a session sends is READY, or ERR. *)
Theorem ready_first epoch ackMs n l f :
  reach after_hello (link_start epoch ackMs) n l -> Z.of_nat n + 1 < 2 ^ 64 ->
  last (l_wire l) = Some f -> f_kind f = READY \/ f_kind f = ERR.
Proof.
  intros R Hn Hf. destruct (linked_reach _ _ _ _ R Hn) as (_ & _ & _ & _ & _ & _ & L7).
  unfold opens in L7. rewrite Hf in L7. destruct (f_kind f); cbn in L7; tauto.
Qed.

End session.

(** ** Runs *)

Import DocJson.

Section runs.

(** A step of the sender that asks the world nothing. *)
Definition T : Label := L_SEND I_TAU.
Definition link0 : Link := link_start 77 5000.

(** The gateway, at version 3, says HELLO; the hub, at version 5, answers READY
    and is about to compute an increment from version 3. *)
Definition to_push : list Label :=
  [T; L_RECV (J_MSG HELLO 9 (helloToJson "gw-1" 77 3)); L_RECV (J_VER 5); L_RECV J_TAU;
   L_NOTIFY; L_SEND (I_WAIT true); T; T; L_SEND (I_SEND None); T; T].
(** The increment is sent, and the pass ends. *)
Definition pushed : list Label :=
  [L_SEND (I_PUSH (Some (KDelta, "delta"%string, 5))); T; L_SEND (I_SEND None);
   L_SEND (I_NOW 1000); T; T; T].
Definition idle_pass : list Label := [L_SEND (I_WAIT true); T; T; T; T; T].
Definition acked5 : list Label :=
  [L_RECV J_TAU; L_RECV (J_MSG ACK 1 (helloToJson "gw-1" 77 5)); L_RECV J_TAU; L_NOTIFY].
(** A publication while the increment is in flight. *)
Definition busy : list Label := to_push ++ pushed ++ [L_WAKE; L_NOTIFY] ++ idle_pass.

Lemma no_lost_wakeup_witness : exists l, reach any_step link0 (length busy) l /\
  l_news l = true /\ m_dirty (l_s l) = true /\ unacked (l_s l).
Proof.
  destruct (link_run any_step busy link0) as [l|] eqn:E; [|vm_compute in E; discriminate E].
  pose proof (reach_run _ _ _ _ E) as R. vm_compute in E. injection E as <-. eexists. split; [exact R|].
  destruct (no_lost_wakeup any_step 77 5000 _ _ R) as (_ & _ & H & _).
  - vm_compute. reflexivity.
  - reflexivity.
  - unfold armed. cbn. intros [[]|A]. inversion A.
  - destruct (H eq_refl) as (_ & _ & _ & K). split; [reflexivity|]. exact (K eq_refl).
Defined.

Lemma push_base_witness : exists l, reach any_step link0 (length to_push) l /\
  l_spc l = S_CUR2 3 true /\ m_acked (l_s l) = 3.
Proof.
  destruct (link_run after_hello to_push link0) as [l|] eqn:E; [|vm_compute in E; discriminate E].
  pose proof (reach_run _ _ _ _ E) as R. vm_compute in E. injection E as <-. eexists. split; [by apply reach_any in R|].
  split; [reflexivity|]. symmetry.
  apply (push_base 77 5000 _ _ 3 true (reach_any _ _ _ _ R)); [vm_compute; reflexivity|reflexivity|exact R|reflexivity].
Defined.

Lemma ready_first_witness : exists l f, reach after_hello link0 (length (to_push ++ pushed)) l /\
  last (l_wire l) = Some f /\ (f_kind f = READY \/ f_kind f = ERR).
Proof.
  destruct (link_run after_hello (to_push ++ pushed) link0) as [l|] eqn:E; [|vm_compute in E; discriminate E].
  pose proof (reach_run _ _ _ _ E) as R. vm_compute in E. injection E as <-.
  do 2 eexists. split; [exact R|]. split; [cbn; reflexivity|].
  eapply (ready_first 77 5000 _ _ _ R); [vm_compute; reflexivity|cbn; reflexivity].
Defined.

(** The exception is there: the session is registered for publications before
    its HELLO, and one that comes then sends a snapshot first. A gateway takes
    anything but READY for an error and hangs up. *)
Example wake_before_hello :
  option_map (fun l => (map f_kind (l_wire l), m_helloSeq (l_s l)))
    (link_run any_step
       [L_WAKE; L_NOTIFY; T; L_SEND (I_WAIT true); T; T;
        L_SEND (I_PUSH (Some (KSnap, "snap"%string, 5))); T; L_SEND (I_SEND None)] link0)
  = Some ([SNAP], 0).
Proof. vm_compute. reflexivity. Qed.

(** A drain that begins while the push function runs is forgotten: the section
    that follows sets the state to SYNC without looking at it. The session ends
    up open and asleep, no notification owed; no BYE is sent. *)
Example drain_forgotten :
  option_map (fun l => (l_spc l, m_state (l_s l), m_why (l_s l), map f_kind (l_wire l),
                        m_waker (l_s l), (owed (l_s l) + owed_close (l_s l))%nat))
    (link_run after_hello
       (to_push ++ [L_STOP W_LOCAL true; L_LEAVE; L_NOTIFY] ++ pushed ++ idle_pass ++ acked5 ++ idle_pass)
       link0)
  = Some (S_WAIT, ST_OPEN, W_LOCAL, [DELTA; READY], false, 0%nat).
Proof. vm_compute. reflexivity. Qed.

(** [loopDone] writes CLOSED outside the lock; [forceStop], which tests the state
    before and writes it after, undoes that, and the session is never CLOSED. *)
Definition force_race : list Label :=
  [L_RECV (J_ERR (mkProtoErr IoClosed FrNone 0)); L_RECV J_TAU; L_RECV J_TAU; T;
   L_SEND (I_WAIT true); T; T; T; L_RECV J_TAU; L_FORCE; L_RECV J_TAU; L_LEAVE].

Definition stuck (l : Link) : Prop :=
  l_spc l = S_STOPPED /\ l_rpc l = R_STOPPED /\ m_state (l_s l) = ST_CLOSING /\
  match l_hold l with Some (H_STOP _ _ cur) => ge_closing cur = true | _ => True end.

Lemma stuck_step l a l' : stuck l -> link_step a l = Some l' -> stuck l'.
Proof.
  intros (H1 & H2 & H3 & H4) H. destruct l as [s pc rpc hold wire news]. cbn in *. subst pc rpc.
  destruct a; cbn in H.
  - destruct hold; [done|]. injection H as <-. unfold wake. rewrite H3. cbn. done.
  - unfold enter, stop_enter in H. rewrite H3 in H. destruct hold; [done|]. by injection H as <-.
  - unfold enter, force_enter in H. rewrite H3 in H. destruct hold; [done|]. by injection H as <-.
  - destruct hold as [[why drain cur|]|]; [| |done]; injection H as <-; cbn [stop_leave].
    + destruct (set_why_eq why s) as [w ->]. by destruct cur, drain.
    + destruct (set_why_eq W_STOP_TIMEOUT s) as [w ->]. done.
  - destruct (owed s); [done|]. by injection H as <-.
  - destruct (owed_close s); [done|]. by injection H as <-.
  - by destruct i.
  - by destruct i.
Qed.

Example force_undoes_closed : exists l,
  link_run any_step force_race link0 = Some l /\
  forall n l', reach any_step l n l' -> m_state (l_s l') = ST_CLOSING.
Proof.
  eexists. split; [vm_compute; reflexivity|]. intros n l' R.
  assert (K : stuck l') by (induction R; [by vm_compute|by eapply stuck_step]). apply K.
Qed.
End runs.
