(* ===== verification/Pull.v ===== *)
(** * The gateway's end of the link (src/ipban/pull.h, src/ipban/pull.cpp)

    [SyncClient::session] as a function of what the world answers: each receive
    comes with the clock, whether the client is still running and whether the
    reply goes out. The dial, timers, metrics and log lines are left out. *)

From S2P Require Import Prelude Records Ip InetText Rule Snap Json Wire Guard Db PolicyState Engine EngineCore Sync Proto Session.

(** ** State *)

Inductive LinkState := DOWN | DIAL | LS_HELLO | LS_SYNC | LS_OPEN | BACKOFF | STOPPING | STOPPED.

Record Pull := mkPull {
  p_guard : Guard;
  p_state : LinkState;
  p_nextSeq : Z;
  p_targetVer : Z;
  p_badSync : Z;
  p_opened : bool;
  p_fast : bool;
}.

(** One turn of the receive loop, as the world answers it. *)
Record Turn := mkTurn {
  t_running : bool;             (* [m_running] at the loop's test *)
  t_recv : option Frame;        (* [recvMsg]; [None]: it failed *)
  t_now : Z;
  t_sent : bool;                (* whether the reply went out *)
  t_still : bool;               (* [m_running] when BYE is handled *)
}.

(** What a turn ends with: the next one, or the end of the session. *)
Inductive Next := GoOn | Leave.

Section pull.
Context {IN : Inet} {JL : JsonLib} {SS : StdSort}.

Definition is_BYE (f : Frame) : bool := bool_decide (f_kind f = BYE).

(** SNAP and DELTA. [instance]: [m_opts.instanceId]; [epoch]: that of READY. *)
Definition onPush (instance : string) (epoch : Z) (kind : PushKind) (t : Turn) (f : Frame) (p : Pull)
    : Next * list Frame * Pull :=
  let p := p <| p_state := LS_SYNC |> in
  let '(applied, g) := deliver (t_now t) epoch kind (f_body f) (p_guard p) in
  let p := p <| p_guard := g |> in
  if negb applied then
    let p := p <| p_badSync := wrap32 (p_badSync p + 1) |> in
    if p_badSync p >? 1 then (Leave, [], p)
    else if t_sent t then (GoOn, [mkFrame SNAP_REQ 0 ""], p) else (Leave, [], p)
  else
    let ver := match kind with
               | KSnap => match snapFromJson (f_body f) with Parsed (_, v, _) => v | _ => 0 end
               | KDelta => match deltaFromJson (f_body f) with Parsed (_, _, v, _) => v | _ => 0 end
               end in
    let p := p <| p_badSync := 0 |> <| p_targetVer := ver |> in
    if t_sent t then
      (GoOn, [mkFrame ACK (f_seq f) (helloToJson instance (g_remoteEpoch g) (g_remoteVer g))],
       p <| p_state := LS_OPEN |> <| p_opened := true |>)
    else (Leave, [], p).

Definition onFrame (instance : string) (epoch : Z) (t : Turn) (f : Frame) (p : Pull)
    : Next * list Frame * Pull :=
  match f_kind f with
  | BYE =>
      if negb (f_seq f =? 0) || negb (String.eqb (f_body f) "") then (Leave, [], p)
      else (Leave, [], p <| p_fast := t_still t |>)
  | ERR => (Leave, [], p)
  | PING =>
      if (f_seq f =? 0) || negb (String.eqb (f_body f) "") then (Leave, [], p)
      else if t_sent t then (GoOn, [mkFrame PONG (f_seq f) ""], p) else (Leave, [], p)
  | SNAP => if f_seq f =? 0 then (Leave, [], p) else onPush instance epoch KSnap t f p
  | DELTA => if f_seq f =? 0 then (Leave, [], p) else onPush instance epoch KDelta t f p
  | _ => (Leave, [], p)
  end.

(** The loop: the frames sent and the state it leaves behind. [None]: the turns
    run out while the session goes on. *)
Fixpoint session_loop (instance : string) (epoch : Z) (ts : list Turn) (p : Pull)
    : list Frame * option Pull :=
  match ts with
  | [] => ([], None)
  | t :: ts' =>
      if negb (t_running t) then ([], Some p)
      else match t_recv t with
           | None => ([], Some p)
           | Some f =>
               match onFrame instance epoch t f p with
               | (Leave, out, p') => (out, Some p')
               | (GoOn, out, p') =>
                   let '(rest, r) := session_loop instance epoch ts' p' in (out ++ rest, r)
               end
           end
  end.

(** HELLO: its frame and the state after it. *)
Definition hello (instance : string) (p : Pull) : Frame * Pull :=
  let g := p_guard p in
  (mkFrame HELLO (p_nextSeq p) (helloToJson instance (g_remoteEpoch g) (g_remoteVer g)),
   p <| p_state := LS_HELLO |> <| p_nextSeq := wrap64 (p_nextSeq p + 1) |>).

(** READY: the epoch of the link and the state the loop starts from. *)
Definition onReady (helloSeq : Z) (f : Frame) (p : Pull) : option (Z * Pull) :=
  if negb (bool_decide (f_kind f = READY)) || negb (f_seq f =? helloSeq) then None
  else match readyFromJson (f_body f) with
       | Parsed (epoch, target) =>
           let g := p_guard p in
           let same := (epoch =? g_remoteEpoch g) && (target =? g_remoteVer g) in
           Some (epoch, p <| p_targetVer := target |> <| p_opened := same |> <| p_badSync := 0 |>
                          <| p_state := if same then LS_OPEN else LS_SYNC |>)
       | _ => None
       end.

(** [session]: the frames sent and how it ended. [dial]: whether the connection and
    HELLO went through; [ready]: the answer to HELLO. *)
Definition session (instance : string) (dial : bool) (ready : option Frame) (ts : list Turn) (p : Pull)
    : list Frame * option Pull :=
  let p := p <| p_state := DIAL |> <| p_fast := false |> <| p_opened := false |> in
  if negb dial then ([], Some p)
  else
    let '(h, p) := hello instance p in
    match ready with
    | None => ([h], Some p)
    | Some f =>
        match onReady (f_seq h) f p with
        | None => ([h], Some p)
        | Some (epoch, p) =>
            let '(out, r) := session_loop instance epoch ts p in (h :: out, r)
        end
    end.

(** What [loop] does between two sessions: the next wait, [None] for none. *)
Definition next_backoff (minMs maxMs backoff : Z) (p : Pull) : Z * option Z :=
  if p_fast p then (minMs, None)
  else
    let b := if p_opened p then minMs else Z.min (wrap64 (backoff * 2)) maxMs in
    (b, Some b).

(** The waits of [loop], one per session. *)
Fixpoint loop_waits (minMs maxMs backoff : Z) (ends : list Pull) : list (option Z) :=
  match ends with
  | [] => []
  | p :: ends' =>
      let '(b, w) := next_backoff minMs maxMs backoff p in w :: loop_waits minMs maxMs b ends'
  end.

(** ** Applying and acknowledging *)

(** A push that is rejected leaves the ledger as it was. *)
Lemma deliver_rejected now epoch kind body g :
  (deliver now epoch kind body g).1 = false -> (deliver now epoch kind body g).2 = g.
Proof.
  unfold deliver, applyRemote, applyDelta.
  destruct kind; [destruct (snapFromJson body) as [[[? ?] ?]| |]|
                  destruct (deltaFromJson body) as [[[[? ?] ?] ?]| |]]; try done;
    repeat case_match; try done; cbn; intros; congruence.
Qed.

Lemma deliver_epoch now epoch kind body g g' :
  deliver now epoch kind body g = (true, g') -> g_remoteEpoch g' = epoch.
Proof.
  unfold deliver, applyRemote, applyDelta.
  destruct kind; [destruct (snapFromJson body) as [[[e ?] ?]| |]|
                  destruct (deltaFromJson body) as [[[[e ?] ?] ?]| |]]; try done;
    (destruct (e =? epoch) eqn:E; cbn; [b2p; subst e|done]); repeat case_match; try done;
    intros Hd; injection Hd as <-; cbn; b2p; congruence.
Qed.

(** Whether a resynchronisation may be asked for, along a list of frames: not
    again before a push was acknowledged. *)
Fixpoint asks_once (asked : bool) (out : list Frame) : bool :=
  match out with
  | [] => true
  | f :: out' =>
      match f_kind f with
      | SNAP_REQ => negb asked && asks_once true out'
      | ACK => asks_once false out'
      | _ => asks_once asked out'
      end
  end.

Lemma asks_once_weaken out : asks_once true out = true -> asks_once false out = true.
Proof.
  induction out as [|f out IH]; [done|]. cbn. destruct (f_kind f); try done.
Qed.

(** What a turn of the loop can do. *)
Lemma onFrame_cases instance epoch t f p n out p' :
  onFrame instance epoch t f p = (n, out, p') ->
  (n = Leave /\ out = []) \/
  n = GoOn /\
  ((f_kind f = PING /\ p' = p /\ out = [mkFrame PONG (f_seq f) ""]) \/
   (exists kind, f_kind f = push_kind kind /\ f_seq f <> 0 /\
      let '(applied, g) := deliver (t_now t) epoch kind (f_body f) (p_guard p) in
      p_guard p' = g /\
      if applied then
        out = [mkFrame ACK (f_seq f) (helloToJson instance (g_remoteEpoch g) (g_remoteVer g))] /\
        p_badSync p' = 0 /\ p_state p' = LS_OPEN /\ p_opened p' = true
      else
        out = [mkFrame SNAP_REQ 0 ""] /\ p_badSync p' = wrap32 (p_badSync p + 1) /\
        p_badSync p' <= 1 /\ p_state p' = LS_SYNC)).
Proof.
  assert (K : forall kind, f_kind f = push_kind kind ->
    (if f_seq f =? 0 then (Leave, [], p) else onPush instance epoch kind t f p) = (n, out, p') ->
    (n = Leave /\ out = []) \/ n = GoOn /\ f_seq f <> 0 /\
      let '(applied, g) := deliver (t_now t) epoch kind (f_body f) (p_guard p) in
      p_guard p' = g /\
      if applied then
        out = [mkFrame ACK (f_seq f) (helloToJson instance (g_remoteEpoch g) (g_remoteVer g))] /\
        p_badSync p' = 0 /\ p_state p' = LS_OPEN /\ p_opened p' = true
      else
        out = [mkFrame SNAP_REQ 0 ""] /\ p_badSync p' = wrap32 (p_badSync p + 1) /\
        p_badSync p' <= 1 /\ p_state p' = LS_SYNC).
  { intros kind _. btest (f_seq f =? 0); [intros Hf; injection Hf as <- <- <-; auto|].
    unfold onPush. cbn. destruct (deliver _ _ _ _ _) as [[] g]; cbn.
    - destruct (t_sent t); intros Hf; injection Hf as <- <- <-; cbn; auto 10.
    - btest (wrap32 (p_badSync p + 1) >? 1); [intros Hf; injection Hf as <- <- <-; auto|].
      destruct (t_sent t); intros Hf; injection Hf as <- <- <-; cbn; auto 10. }
  unfold onFrame. destruct (f_kind f) eqn:Ek; try (intros Hf; injection Hf as <- <- <-; by auto).
  - intros Hf. destruct (K KSnap eq_refl Hf) as [|[? H]]; [auto|]. right. split; [done|]. right.
    exists KSnap. by split.
  - destruct (_ || _); [intros Hf; injection Hf as <- <- <-; by auto|].
    destruct (t_sent t); intros Hf; injection Hf as <- <- <-; auto 10.
  - intros Hf. destruct (K KDelta eq_refl Hf) as [|[? H]]; [auto|]. right. split; [done|]. right.
    exists KDelta. by split.
  - destruct (_ || _); intros Hf; injection Hf as <- <- <-; auto.
Qed.

(** A gateway resynchronises at most once in a row: along the frames of a
    session, after each SNAP_REQ a push is applied and acknowledged before the
    next one; a second rejected push ends the session, and a rejected push
    changes nothing in the ledger. *)
Theorem resync_once instance epoch ts p :
  p_badSync p = 0 ->
  asks_once false (session_loop instance epoch ts p).1 = true /\
  (forall now kind body g, (deliver now epoch kind body g).1 = false ->
     (deliver now epoch kind body g).2 = g).
Proof.
  intros Hp. split; [|intros; by apply deliver_rejected]. replace false with (p_badSync p =? 1) by (by rewrite Hp).
  assert (Hb : 0 <= p_badSync p <= 1) by lia. clear Hp. revert p Hb.
  induction ts as [|t ts IH]; intros p Hb; cbn [session_loop]; [done|].
  destruct (negb (t_running t)); [done|]. destruct (t_recv t) as [f|]; [|done].
  destruct (onFrame instance epoch t f p) as [[n out] p'] eqn:E. apply onFrame_cases in E.
  destruct E as [[-> ->]|[-> E]]; [done|].
  specialize (IH p'). destruct (session_loop instance epoch ts p') as [rest r]. cbn [fst] in *.
  destruct E as [(_ & -> & ->)|(kind & _ & _ & E)]; [by apply IH|].
  destruct (deliver _ _ _ _ _) as [[] g]; destruct E as (_ & -> & Hb' & E); cbn [app asks_once f_kind].
  - rewrite Hb' in IH. apply IH. lia.
  - rewrite wrap32_id in Hb' by (unfold is_u32; lia). destruct E as [E _].
    assert (H0 : p_badSync p = 0) by lia. rewrite H0 in *. rewrite Hb' in IH. apply IH. lia.
Qed.

(** ** Backing off *)

Lemma backoff_step minMs maxMs b p :
  0 < minMs <= maxMs -> maxMs < 2 ^ 63 -> minMs <= b <= maxMs ->
  let '(b', w) := next_backoff minMs maxMs b p in
  minMs <= b' <= maxMs /\ (w = None \/ w = Some b').
Proof.
  intros Hm Hx Hb. unfold next_backoff. destruct (p_fast p); [split; [lia|by left]|].
  destruct (p_opened p); [split; [lia|by right]|].
  rewrite wrap64_id by (unfold is_u64; lia). split; [lia|by right].
Qed.

(** Every wait between two sessions is within the configured bounds, and after
    [k] sessions in a row that never opened the wait has doubled [k] times, up to
    the maximum. *)
Theorem backoff_bounds minMs maxMs ends :
  0 < minMs <= maxMs -> maxMs < 2 ^ 63 ->
  Forall (fun w => match w with Some b => minMs <= b <= maxMs | None => True end)
    (loop_waits minMs maxMs minMs ends) /\
  (Forall (fun p => p_opened p = false /\ p_fast p = false) ends ->
   forall k, (k < length ends)%nat ->
     loop_waits minMs maxMs minMs ends !! k = Some (Some (Z.min (minMs * 2 ^ (Z.of_nat k + 1)) maxMs))).
Proof.
  intros Hm Hx. split.
  - assert (K : forall b, minMs <= b <= maxMs ->
      Forall (fun w => match w with Some b => minMs <= b <= maxMs | None => True end)
        (loop_waits minMs maxMs b ends)).
    { induction ends as [|p ends IH]; intros b Hb; cbn [loop_waits]; [constructor|].
      pose proof (backoff_step minMs maxMs b p Hm Hx Hb) as Hs.
      destruct (next_backoff _ _ _ _) as [b' w]. destruct Hs as [Hb' Hw].
      constructor; [by destruct Hw as [->| ->]|by apply IH]. }
    apply K. lia.
  - intros Hf.
    assert (K : forall j b k, b = Z.min (minMs * 2 ^ Z.of_nat j) maxMs -> (k < length ends)%nat ->
      loop_waits minMs maxMs b ends !! k = Some (Some (Z.min (minMs * 2 ^ (Z.of_nat (j + k) + 1)) maxMs))).
    { induction Hf as [|p ends [Ho Hq] _ IH]; intros j b k Hb Hk; [simpl in Hk; lia|].
      assert (Hp : 0 < 2 ^ Z.of_nat j) by (apply Z.pow_pos_nonneg; lia).
      cbn [loop_waits]. unfold next_backoff. rewrite Ho, Hq.
      assert (E : Z.min (wrap64 (b * 2)) maxMs = Z.min (minMs * 2 ^ Z.of_nat (S j)) maxMs).
      { rewrite wrap64_id by (unfold is_u64; nia).
        replace (Z.of_nat (S j)) with (Z.of_nat j + 1) by lia. rewrite Z.pow_add_r by lia. lia. }
      rewrite E. destruct k as [|k].
      - change (Some (Some (Z.min (minMs * 2 ^ Z.of_nat (S j)) maxMs)) =
                Some (Some (Z.min (minMs * 2 ^ (Z.of_nat (j + 0) + 1)) maxMs))).
        by replace (Z.of_nat (j + 0) + 1) with (Z.of_nat (S j)) by lia.
      - etransitivity; [exact (IH (S j) _ k eq_refl ltac:(simpl in Hk; lia))|].
        by replace (S j + k)%nat with (j + S k)%nat by lia. }
    intros k Hk. rewrite (K 0%nat minMs k) by (rewrite ?Z.pow_0_r; lia || done). done.
Qed.
End pull.

(** ** A push from end to end *)

Section handshake.
Context {IN : Inet} {IL : InetLaws} {JL : JsonLib} {JW : JsonLaws} {SS : StdSort}.

Lemma onAck_accepts seq s :
  sw_seq (m_sync s) <> 0 -> seq = sw_seq (m_sync s) ->
  exists s', onAck seq (m_inst s) (m_epoch s) (sw_ver (m_sync s)) s = Some s' /\
    m_acked s' = sw_ver (m_sync s) /\ m_sync s' = no_sync.
Proof.
  intros H0 ->. destruct (onAck _ _ _ _ s) as [s'|] eqn:E.
  - apply onAck_eq in E as (_ & _ & _ & _ & _ & ->). by eexists.
  - exfalso. unfold onAck in E. apply Z.eqb_neq in H0.
    by rewrite H0, !Z.eqb_refl, String.eqb_refl in E.
Qed.

(** C2: a push works from end to end. When a hub session pushes to a gateway that
    was up to date at the version the push starts from, the gateway applies it, is
    up to date with the hub, and answers with an ACK that the session accepts: the
    acknowledged version becomes the hub's and nothing is outstanding. *)
Theorem push_acknowledged instance e1 e2 t p s kind body ver :
  core_inv [] (e_core e1) -> is_u64 (e_epoch e1) -> c_ver (e_core e2) <= kDbIntMax ->
  eng_steps e1 e2 -> up_to_date (t_now t) (p_guard p) e1 -> t_sent t = true ->
  nextPush (c_ver (e_core e1)) true e2 = Some (kind, body, ver) ->
  m_epoch s = e_epoch e2 -> m_inst s = instance -> instance <> ""%string -> m_nextSeq s <> 0 ->
  let s1 := (cur3_step kind body ver s).2 in
  let f := mkFrame (push_kind kind) (sw_seq (m_sync s1)) body in
  exists a p', onFrame instance (e_epoch e2) t f p = (GoOn, [a], p') /\
    up_to_date (t_now t) (p_guard p') e2 /\
    exists s2, onMsg (f_kind a) (f_seq a) (f_body a) s1 = (R_LOOP, s2) /\
      m_acked s2 = c_ver (e_core e2) /\ m_sync s2 = no_sync.
Proof.
  intros Hi He Hb Hst Hg Ht Hn Hse Hin Hne Hq s1 f.
  destruct (push_applies (t_now t) (p_guard p) e1 e2 kind body ver Hi He Hb Hst Hg Hn)
    as (g' & Hd & -> & Hg').
  assert (Hf : exists p', p_guard p' = g' /\ onFrame instance (e_epoch e2) t f p =
    (GoOn, [mkFrame ACK (f_seq f) (helloToJson instance (g_remoteEpoch g') (g_remoteVer g'))], p')).
  { unfold onFrame, f, onPush. cbn [f_kind f_seq f_body push_kind].
    change (sw_seq (m_sync s1)) with (m_nextSeq s). apply Z.eqb_neq in Hq. rewrite Hq.
    destruct kind; cbn -[deliver]; rewrite Hd; cbn; rewrite Ht; (eexists; split; [|reflexivity]; reflexivity). }
  destruct Hf as (p' & Hp' & Hf). eexists _, p'. split; [exact Hf|].
  rewrite Hp'. split; [done|]. destruct Hg' as (Ge & Gv & _). cbn [f_kind f_seq f_body].
  destruct (eng_steps_core _ _ Hst Hi) as ((H2 & _) & Ee & _).
  assert (Hu : is_u64 (c_ver (e_core e2))) by (unfold is_u64, kDbIntMax, INT64_MAX in *; lia).
  rewrite Ge, Gv, Ee. unfold onMsg. rewrite hello_roundtrip by done. rewrite <- Ee, <- Hin, <- Hse.
  destruct (onAck_accepts (f_seq f) s1) as (s2 & Hs2 & A1 & A2); [done|done|].
  change (onAck (f_seq f) (m_inst s) (m_epoch s) (c_ver (e_core e2)) s1 = Some s2) in Hs2.
  rewrite Hs2. exists s2. by split_and!.
Qed.
End handshake.

(** ** Witnesses *)

Import DocJson.
#[local] Existing Instance insertion_StdSort.

Definition pull0 (g : Guard) : Pull := mkPull g LS_SYNC 2 2 0 false false.
(** Frames that do not parse, a moment after each other. *)
Definition bad_turn : Turn := mkTurn true (Some (mkFrame SNAP 1 "junk")) 1000 true true.

Lemma resync_once_witness :
  (session_loop "gw-1" 77 [bad_turn; bad_turn; bad_turn] (pull0 guard_init)).1 = [mkFrame SNAP_REQ 0 ""] /\
  asks_once false (session_loop "gw-1" 77 [bad_turn; bad_turn; bad_turn] (pull0 guard_init)).1 = true.
Proof. split; [vm_compute; reflexivity|]. apply resync_once. reflexivity. Defined.

Lemma backoff_bounds_witness :
  loop_waits 200 5000 200 (repeat (pull0 guard_init) 6) !! 5%nat = Some (Some 5000) /\
  loop_waits 200 5000 200 (repeat (pull0 guard_init) 6) !! 2%nat = Some (Some 1600).
Proof.
  destruct (backoff_bounds 200 5000 (repeat (pull0 guard_init) 6)) as [_ H]; [lia|lia|].
  assert (F : Forall (fun p => p_opened p = false /\ p_fast p = false) (repeat (pull0 guard_init) 6))
    by (repeat constructor).
  split; [rewrite (H F 5%nat)|rewrite (H F 2%nat)]; try reflexivity; simpl; lia.
Defined.

Lemma push_acknowledged_witness :
  exists kind body a p', nextPush 1 true hub2 = Some (kind, body, 2) /\
    onFrame "gw-1" 77 (mkTurn true None 2500 true true) (mkFrame (push_kind kind) 1 body) (pull0 gw1)
      = (GoOn, [a], p') /\
    f_kind a = ACK /\ g_remoteVer (p_guard p') = 2.
Proof.
  destruct hub_inv as (_ & I1 & _). destruct hub_run as [_ R2].
  destruct hub_bounds as (U & V1 & V2 & E1 & _).
  assert (B : c_ver (e_core hub2) <= kDbIntMax) by (rewrite V2; unfold kDbIntMax, INT64_MAX; lia).
  assert (E2 : e_epoch hub2 = 77) by (vm_compute; reflexivity).
  assert (G : up_to_date 2500 gw1 hub1).
  { destruct gw1_up_to_date as (G1 & G2 & G3). split; [exact G1|]. split; [exact G2|].
    apply (mirrors_later 1500); [lia|exact G3]. }
  assert (K : (fun x => (x.1.1, x.2)) <$> nextPush 1 true hub2 = Some (KDelta, 2)) by (vm_compute; reflexivity).
  destruct (nextPush 1 true hub2) as [[[kind body] ver]|] eqn:En; [|discriminate K].
  injection K as -> ->. exists KDelta, body.
  rewrite <- V1 in En.
  destruct (push_acknowledged "gw-1" hub1 hub2 (mkTurn true None 2500 true true) (pull0 gw1)
    ((session_new 77 5000) <| m_inst := "gw-1"%string |>) KDelta body 2 I1 U B R2 G eq_refl En
    ltac:(rewrite E2; reflexivity) eq_refl ltac:(discriminate) ltac:(discriminate))
    as (a & p' & Hf & (_ & Gv & _) & s2 & Hm & Hk & _).
  rewrite E2 in Hf. exists a, p'. split; [reflexivity|]. split; [exact Hf|].
  split; [|rewrite Gv; exact V2].
  apply onFrame_cases in Hf as [[? _]|(_ & [(E & _)|(kind & _ & _ & Hd)])]; [discriminate|discriminate|].
  destruct (deliver _ _ _ _ _) as [[] g]; destruct Hd as (_ & Ha & Hd).
  - injection Ha as ->. reflexivity.
  - injection Ha as ->. exfalso. cbn in Hm. injection Hm as <-. rewrite V2 in Hk. discriminate Hk.
Defined.
