(* ===== verification/Report.v ===== *)
(** * Reports on their way to the hub (src/ipban/report.h, src/ipban/report.cpp, src/ipban/waker.h)

    A reporter has a bounded queue any thread may put a report in, and a coroutine that
    sends what is queued over a stream it opens again when it breaks. Any number of threads
    report and stop, one starts. Every critical section and every other access to what they
    share is a step, and steps interleave freely; the clock, the socket and the entry an
    [unordered_map] lists first are the labels of the steps. The gauge of the queue's length
    and log lines are left out. *)

From S2P Require Import Prelude Records Json Ip InetText Rule Wire Proto.

(** ** Data *)

Record ReportOpts := mkReportOpts {
  o_submitPath : string; o_maxQueue : Z; o_minBackoffMs : Z; o_maxBackoffMs : Z; o_stopTimeoutMs : Z }.

Definition kRiskCoolMs : Z := 60000.

(** The metrics of reports: the totals, and what [note_risk] was called with. *)
Record RiskMetrics := mkRiskMetrics {
  riskSent : Z; riskDropped : Z; riskStopDropped : Z; riskRetries : Z; riskByResult : list (Z * Z) }.

(** Where [stopDue] is called from. *)
Inductive DueAt := AT_LOOP | AT_BACKOFF | AT_WOKEN | AT_DRAIN.

(** Where the coroutine is; a report it has taken travels with it. *)
Inductive LoopPc :=
  | L_NONE                          (* not posted yet *)
  | L_TEST | L_DEPTH | L_EMPTY | L_WAIT
  | L_DUE (k : DueAt) | L_DUE2 (k : DueAt)    (* [stopDue]: its two loads *)
  | L_SOCK | L_CONN                 (* the socket is made; [connect] *)
  | L_STOPAT | L_SLEEP (ms : Z) | L_RAN       (* [waitBackoff] *)
  | L_DRAIN | L_POP | L_SEND (r : Risk) | L_BACK (r : Risk)    (* [drainOnce] *)
  | L_EXIT | L_DROP | L_FIN | L_FIN2 | L_OVER.

(** Where a call of [stop] is. *)
Inductive StopPc :=
  | T_ASK | T_REFUSE | T_DROP0
  | T_XCHG | T_AT | T_NOTIFY | T_HERE | T_WAIT | T_RUN | T_SOCK | T_CLOSE (gen : nat) | T_NOTIFY2 | T_DROP | T_END.

(** Where the call of [start] is that found the reporter not started. *)
Inductive StartPc := A_NONE | A_RUN | A_POST | A_DEPTH | A_NOTIFY | A_END.

(** The reporter. [q_owed]: notifications of [tryReport] still to come; [q_timer]: a timer of
    [waitBackoff] that may still fire; [q_gen], [q_cut]: which socket [m_sock] is, and
    whether it was closed by [stop]. What is kept of the past: every report that was
    accepted, sent and dropped, in order. [q_missed]: a call of [stop] took the reporter for
    not started and was overtaken by [start]; [q_cancelled]: the wait was cancelled. *)
Record Reporter := mkReporter {
  q_queue : list Risk; q_seen : gmap string Z;
  q_accepting : bool; q_running : bool; q_started : bool; q_done : bool; q_stopAt : Z;
  q_waker : bool; q_owed : nat; q_timer : bool; q_gen : nat; q_cut : bool;
  q_loop : LoopPc; q_hasSock : bool; q_backoff : Z; q_start : StartPc; q_stops : list StopPc;
  q_metrics : RiskMetrics;
  q_accepted : list Risk; q_sent : list Risk; q_dropped : list Risk; q_missed : bool; q_cancelled : bool }.

Definition reporter_new : Reporter :=
  mkReporter [] ∅ true false false false 0 false 0 false 0 false L_NONE false 0 A_NONE [] (mkRiskMetrics 0 0 0 0 []) [] [] [] false false.

(** The value of the enumerator; [note_risk] keeps six of them. *)
Definition srcSlot (src : Src) : Z :=
  match src with WAF => 0 | RATE => 1 | BIZ => 2 | ADMIN => 3 | STATIC => 4 | EMERG => 5 end.

(** What the world answers to a step. *)
Inductive Ans := B_GO | B_NOW (now : Z) | B_OK (ok : bool).

(** ** The calls *)

Section reporter.
Context {IN : Inet} {JL : JsonLib} (opts : ReportOpts).

Definition note_risk (r : Risk) (result : Z) (s : Reporter) : Reporter :=
  s <| q_metrics := (q_metrics s) <| riskByResult := riskByResult (q_metrics s) ++ [(srcSlot (risk_src r), result)] |> |>.
Definition incr_risk_sent (s : Reporter) : Reporter :=
  s <| q_metrics := (q_metrics s) <| riskSent := riskSent (q_metrics s) + 1 |> |>.
Definition incr_risk_dropped (s : Reporter) : Reporter :=
  s <| q_metrics := (q_metrics s) <| riskDropped := riskDropped (q_metrics s) + 1 |> |>.
Definition incr_risk_stop_drop (n : Z) (s : Reporter) : Reporter :=
  s <| q_metrics := (q_metrics s) <| riskStopDropped := riskStopDropped (q_metrics s) + n |> |>.
Definition incr_risk_retry (s : Reporter) : Reporter :=
  s <| q_metrics := (q_metrics s) <| riskRetries := riskRetries (q_metrics s) + 1 |> |>.

Definition depth (s : Reporter) : Z := Z.of_nat (length (q_queue s)).

(** What [m_seen] says to a report, and the table after it. [first]: the entry [begin] gives;
    a table that is not empty has one, and a name that is no entry is no answer. *)
Definition note_seen (id : string) (now : Z) (first : string) (seen : gmap string Z) : option (bool * gmap string Z) :=
  if match seen !! id with Some t => (t <=? now) && (now - t <? kRiskCoolMs) | None => false end then Some (false, seen)
  else if (o_maxQueue opts <=? Z.of_nat (size seen)) && negb (Z.of_nat (size seen) =? 0) then
    match seen !! first with Some _ => Some (true, <[id := now]> (delete first seen)) | None => None end
  else Some (true, <[id := now]> seen).

(** The critical section of [tryReport], and what it answers. *)
Definition tryReport (r : Risk) (now : Z) (first : string) (s : Reporter) : option (bool * Reporter) :=
  if negb (q_accepting s) then Some (false, note_risk r 3 (incr_risk_stop_drop 1 s))
  else if o_maxQueue opts <=? depth s then Some (false, note_risk r 2 (incr_risk_dropped s))
  else
    match (if String.eqb (risk_id r) "" then Some (true, q_seen s) else note_seen (risk_id r) now first (q_seen s)) with
    | None => None
    | Some (false, _) => Some (false, note_risk r 1 s)
    | Some (true, seen) =>
        let s := ((s <| q_seen := seen |>) <| q_queue := q_queue s ++ [r] |>) <| q_accepted := q_accepted s ++ [r] |> in
        Some (true, note_risk r 0 (s <| q_owed := S (q_owed s) |>))
    end.

(** Its first test, outside the lock. *)
Definition refused (r : Risk) (s : Reporter) : option Reporter :=
  if q_accepting s then None else Some (note_risk r 3 (incr_risk_stop_drop 1 s)).

Definition notify (s : Reporter) : Reporter := s <| q_waker := true |>.

Definition dropRest (s : Reporter) : Reporter :=
  let s := fold_left (fun s r => note_risk r 3 s) (q_queue s) s in
  let dropped := depth s in
  incr_risk_stop_drop dropped ((s <| q_dropped := q_dropped s ++ q_queue s |>) <| q_queue := [] |>).

Definition good_config (iom : bool) : bool :=
  iom && negb (String.eqb (o_submitPath opts) "") && negb (o_maxQueue opts =? 0) && negb (o_minBackoffMs opts =? 0)
  && negb (o_maxBackoffMs opts <? o_minBackoffMs opts) && negb (o_stopTimeoutMs opts =? 0).

(** ** [start] *)

(** Up to the exchange that only one call wins; the others return. *)
Definition start (iom : bool) (s : Reporter) : Reporter :=
  if good_config iom && negb (q_started s) then (s <| q_started := true |>) <| q_start := A_RUN |> else s.

Definition start_step (s : Reporter) : option Reporter :=
  match q_start s with
  | A_RUN => Some ((s <| q_running := true |>) <| q_start := A_POST |>)
  | A_POST => Some (((s <| q_loop := L_TEST |>) <| q_backoff := o_minBackoffMs opts |>) <| q_start := A_DEPTH |>)
  | A_DEPTH => Some (s <| q_start := if depth s =? 0 then A_END else A_NOTIFY |>)
  | A_NOTIFY => Some (notify (s <| q_start := A_END |>))
  | A_NONE | A_END => None
  end.

(** ** [stop] *)

Definition stop_goto (i : nat) (pc : StopPc) (s : Reporter) : Reporter := s <| q_stops := <[i := pc]> (q_stops s) |>.

Definition stop_step (i : nat) (a : Ans) (s : Reporter) : option Reporter :=
  match q_stops s !! i, a with
  | Some T_ASK, B_GO => Some (stop_goto i (if q_started s then T_XCHG else T_REFUSE) s)
  | Some T_REFUSE, B_GO =>
      Some (stop_goto i T_DROP0 ((s <| q_accepting := false |>) <| q_missed := q_missed s || q_started s |>))
  | Some T_DROP0, B_GO => Some (stop_goto i T_END (dropRest s))
  | Some T_XCHG, B_GO => Some (stop_goto i (if q_accepting s then T_AT else T_NOTIFY) (s <| q_accepting := false |>))
  | Some T_AT, B_NOW now => Some (stop_goto i T_NOTIFY (s <| q_stopAt := wrap64 (now + o_stopTimeoutMs opts) |>))
  | Some T_NOTIFY, B_GO => Some (stop_goto i T_HERE (notify s))
  | Some T_HERE, B_OK here => Some (stop_goto i (if here : bool then T_END else T_WAIT) s)
  | Some T_WAIT, B_OK done => if (done : bool) && negb (q_done s) then None else Some (stop_goto i (if done then T_END else T_RUN) s)
  | Some T_RUN, B_GO => Some (stop_goto i T_SOCK (s <| q_running := false |>))
  | Some T_SOCK, B_GO => Some (stop_goto i (T_CLOSE (q_gen s)) s)
  | Some (T_CLOSE gen), B_GO => Some (stop_goto i T_NOTIFY2 (if (gen =? q_gen s)%nat then s <| q_cut := true |> else s))
  | Some T_NOTIFY2, B_GO => Some (stop_goto i T_DROP (notify s))
  | Some T_DROP, B_GO => Some (stop_goto i T_END (dropRest s))
  | _, _ => None
  end.

(** ** The coroutine *)

Definition goto (pc : LoopPc) (s : Reporter) : Reporter := s <| q_loop := pc |>.

(** Time is up: [loop] ends, and so does [waitBackoff]; [drainOnce] leaves it to [loop]. *)
Definition when_due (k : DueAt) (s : Reporter) : Reporter := goto (match k with AT_DRAIN => L_TEST | _ => L_EXIT end) s.

Definition when_not_due (k : DueAt) (s : Reporter) : Reporter :=
  match k with
  | AT_LOOP => goto (if q_hasSock s then L_DRAIN else L_SOCK) s
  | AT_BACKOFF => goto L_STOPAT s
  | AT_WOKEN => goto L_TEST (s <| q_backoff := Z.min (wrap64 (q_backoff s * 2)) (o_maxBackoffMs opts) |>)
  | AT_DRAIN => goto L_POP s
  end.

Definition is_due (now : Z) (s : Reporter) : bool := (q_stopAt s =? 0) || (q_stopAt s <=? now).

(** The socket is closed and forgotten. *)
Definition no_sock (s : Reporter) : Reporter := s <| q_hasSock := false |>.

Definition too_long (r : Risk) : bool := kMaxBody <? Z.of_nat (String.length (riskToJson r)).

(** A report at the head of the queue is taken; its text may be too long for a message. *)
Definition drain_pop (s : Reporter) : Reporter :=
  match q_queue s with
  | [] => goto L_TEST s
  | r :: queue =>
      let s := s <| q_queue := queue |> in
      if too_long r then goto L_DRAIN (note_risk r 5 (incr_risk_dropped (s <| q_dropped := q_dropped s ++ [r] |>)))
      else goto (L_SEND r) s
  end.

(** A report that could not be sent goes back to the head; the last one makes room. *)
Definition drain_back (r : Risk) (s : Reporter) : Reporter :=
  let s :=
    match last (q_queue s) with
    | Some old =>
        if o_maxQueue opts <=? depth s then
          incr_risk_dropped (((note_risk old 2 s) <| q_queue := removelast (q_queue s) |>) <| q_dropped := q_dropped s ++ [old] |>)
        else s
    | None => s
    end in
  goto L_TEST (no_sock (s <| q_queue := r :: q_queue s |>)).

Definition loop_step (a : Ans) (s : Reporter) : option Reporter :=
  match q_loop s, a with
  | L_TEST, B_GO => Some (goto (if q_running s then L_DEPTH else L_EXIT) s)
  | L_DEPTH, B_GO => Some (goto (if depth s =? 0 then L_EMPTY else L_DUE AT_LOOP) s)
  | L_EMPTY, B_GO => Some (goto (if q_accepting s then L_WAIT else L_EXIT) s)
  | L_WAIT, B_OK true => if q_waker s then Some (goto L_TEST (s <| q_waker := false |>)) else None
  | L_WAIT, B_OK false => Some (goto L_EXIT (s <| q_cancelled := true |>))
  | L_DUE k, B_GO => Some (if q_accepting s then when_not_due k s else goto (L_DUE2 k) s)
  | L_DUE2 k, B_NOW now => Some (if is_due now s then when_due k s else when_not_due k s)
  | L_SOCK, B_GO => Some (goto L_CONN ((s <| q_gen := S (q_gen s) |>) <| q_cut := false |>))
  | L_CONN, B_OK true => if q_cut s then None else Some (goto L_DRAIN ((s <| q_hasSock := true |>) <| q_backoff := o_minBackoffMs opts |>))
  | L_CONN, B_OK false => Some (goto (L_DUE AT_BACKOFF) (incr_risk_retry s))
  | L_STOPAT, B_NOW now =>
      let due := q_stopAt s in
      if negb (due =? 0) && (due <=? now) then Some (goto L_EXIT s)
      else
        let ms := if due =? 0 then q_backoff s else Z.min (q_backoff s) (due - now) in
        Some (goto (L_SLEEP ms) (s <| q_timer := true |>))
  | L_SLEEP _, B_OK ok => if ok : bool then (if q_waker s then Some (goto L_RAN (s <| q_waker := false |>)) else None) else Some (goto L_RAN s)
  | L_RAN, B_GO => Some (goto (if q_running s then L_DUE AT_WOKEN else L_EXIT) s)
  | L_DRAIN, B_GO => Some (if q_running s then goto (L_DUE AT_DRAIN) s else goto L_TEST (no_sock s))
  | L_POP, B_GO => Some (drain_pop s)
  | L_SEND r, B_OK true =>
      if q_cut s then None else Some (goto L_DRAIN (note_risk r 4 (incr_risk_sent (s <| q_sent := q_sent s ++ [r] |>))))
  | L_SEND r, B_OK false => Some (goto (L_BACK r) (incr_risk_retry (note_risk r 5 s)))
  | L_BACK r, B_GO => Some (drain_back r s)
  | L_EXIT, B_GO => Some (goto L_DROP (no_sock s))
  | L_DROP, B_GO => Some (goto L_FIN (dropRest s))
  | L_FIN, B_GO => Some (goto L_FIN2 (s <| q_running := false |>))
  | L_FIN2, B_GO => Some (goto L_OVER (s <| q_done := true |>))
  | _, _ => None
  end.

(** ** All together *)

(** [NOTIFIED]: a thread that reported makes its notification; [FIRED]: a timer does. *)
Inductive Label :=
  | REPORT (r : Risk) (now : Z) (first : string) | REFUSED (r : Risk) | NOTIFIED | FIRED
  | START (iom : bool) | STARTING | STOP | STOPPING (i : nat) (a : Ans) | LOOP (a : Ans).

Definition step (l : Label) (s : Reporter) : option Reporter :=
  match l with
  | REPORT r now first => snd <$> tryReport r now first s
  | REFUSED r => refused r s
  | NOTIFIED => match q_owed s with O => None | S n => Some (notify (s <| q_owed := n |>)) end
  | FIRED => if q_timer s then Some (notify (s <| q_timer := false |>)) else None
  | START iom => Some (start iom s)
  | STARTING => start_step s
  | STOP => Some (s <| q_stops := q_stops s ++ [T_ASK] |>)
  | STOPPING i a => stop_step i a s
  | LOOP a => loop_step a s
  end.

Fixpoint run (ls : list Label) (s : Reporter) : option Reporter :=
  match ls with [] => Some s | l :: ls => match step l s with Some s => run ls s | None => None end end.

Inductive reachable : Reporter -> Prop :=
  | R_NEW : reachable reporter_new
  | R_STEP s l s' : reachable s -> step l s = Some s' -> reachable s'.
End reporter.

(** ** Where every report is *)

Definition in_hand (pc : LoopPc) : list Risk := match pc with L_SEND r | L_BACK r => [r] | _ => [] end.

(** In the order they came: sent, about to be, waiting. *)
Definition held (s : Reporter) : list Risk := q_sent s ++ in_hand (q_loop s) ++ q_queue s.

Definition slots (result : Z) (l : list (Z * Z)) : list Z := map fst (List.filter (fun p => p.2 =? result) l).
#[global] Arguments slots : simpl never.

Record accounted (opts : ReportOpts) (s : Reporter) : Prop := {
  ac_all : q_accepted s ≡ₚ held s ++ q_dropped s;
  ac_order : held s `sublist_of` q_accepted s;
  ac_queue : depth s <= Z.max 0 (o_maxQueue opts);
  ac_seen : Z.of_nat (size (q_seen s)) <= Z.max 0 (o_maxQueue opts);
  ac_queued : slots 0 (riskByResult (q_metrics s)) = map (fun r => srcSlot (risk_src r)) (q_accepted s);
  ac_sent : slots 4 (riskByResult (q_metrics s)) = map (fun r => srcSlot (risk_src r)) (q_sent s);
  ac_nsent : riskSent (q_metrics s) = Z.of_nat (length (q_sent s));
  ac_some : q_accepted s = [] \/ 1 <= o_maxQueue opts }.

Lemma slots_app result l l' : slots result (l ++ l') = slots result l ++ slots result l'.
Proof. unfold slots. by rewrite List.filter_app, map_app. Qed.

Section accounting.
Context {IN : Inet} {JL : JsonLib} (opts : ReportOpts).
#[local] Abbreviation accounted := (accounted opts).

(** Steps that move nothing. *)
Lemma accounted_frame s s' : accounted s -> held s' = held s -> q_queue s' = q_queue s -> q_seen s' = q_seen s ->
  q_accepted s' = q_accepted s -> q_sent s' = q_sent s -> q_dropped s' = q_dropped s ->
  slots 0 (riskByResult (q_metrics s')) = slots 0 (riskByResult (q_metrics s)) ->
  slots 4 (riskByResult (q_metrics s')) = slots 4 (riskByResult (q_metrics s)) ->
  riskSent (q_metrics s') = riskSent (q_metrics s) -> accounted s'.
Proof.
  intros [H1 H2 H3 H4 H5 H6 H7 H8] E1 E2 E3 E4 E5 E6 E7 E8 E9. unfold depth in *.
  split; unfold depth; rewrite ?E1, ?E2, ?E3, ?E4, ?E5, ?E6, ?E7, ?E8, ?E9; done.
Qed.

Definition drop_notes (s : Reporter) : Reporter := fold_left (fun s r => note_risk r 3 s) (q_queue s) s.

Lemma drop_notes_frame (l : list Risk) s : let s' := fold_left (fun s r => note_risk r 3 s) l s in
  exists notes, s' = s <| q_metrics := (q_metrics s) <| riskByResult := riskByResult (q_metrics s) ++ notes |> |> /\
    slots 0 notes = [] /\ slots 4 notes = [].
Proof.
  revert s. induction l as [|r l IH]; intros s; cbn.
  - exists []. rewrite app_nil_r. by destruct s as [? ? ? ? ? ? ? ? ? ? ? ? ? ? ? ? ? [] ? ? ? ? ?].
  - destruct (IH (note_risk r 3 s)) as (notes & E & E0 & E4). cbv zeta in E. rewrite E.
    exists ((srcSlot (risk_src r), 3) :: notes). split; [|by split].
    unfold note_risk. cbn. by rewrite <- app_assoc.
Qed.

Lemma dropRest_accounted s : accounted s -> accounted (dropRest s).
Proof.
  intros [H1 H2 H3 H4 H5 H6 H7 H8]. unfold dropRest. destruct (drop_notes_frame (q_queue s) s) as (notes & -> & E0 & E4).
  unfold held in *. split; unfold held, depth in *; cbn; rewrite ?slots_app, ?E0, ?E4, ?app_nil_r; try done; try lia.
  - rewrite H1, <- !app_assoc. apply Permutation_app_head, Permutation_app_head. apply Permutation_app_comm.
  - etrans; [|exact H2]. apply sublist_app; [done|]. apply sublist_inserts_r. done.
Qed.

Lemma note_other r result s : result <> 0 -> result <> 4 -> accounted s -> accounted (note_risk r result s).
Proof.
  intros N0 N4 H. apply (accounted_frame s); try done; unfold note_risk; cbn; rewrite slots_app; unfold slots; cbn;
    rewrite (proj2 (Z.eqb_neq result _)) by done; by rewrite app_nil_r.
Qed.

(** A report that came: at the end of the queue. *)
Lemma report_accounted r now first b s s' : accounted s -> tryReport opts r now first s = Some (b, s') -> accounted s'.
Proof.
  intros H. unfold tryReport. destruct (negb _); [intros [= _ <-]; by apply note_other, (accounted_frame s)|].
  destruct (o_maxQueue opts <=? depth s) eqn:Ed; [intros [= _ <-]; by apply note_other, (accounted_frame s)|]. apply Z.leb_gt in Ed.
  set (q := if String.eqb _ "" then _ else _). intros E.
  assert (Hq : forall seen, q = Some (true, seen) -> Z.of_nat (size seen) <= Z.max 0 (o_maxQueue opts)).
  { intros seen. unfold q. pose proof (ac_seen _ _ H) as Hs. destruct (String.eqb _ ""); [by intros [= <-]|]. unfold note_seen.
    destruct (match q_seen s !! risk_id r with Some _ => _ | None => _ end); [done|].
    assert (Hd : depth s >= 0) by (unfold depth; lia).
    btest (o_maxQueue opts <=? Z.of_nat (size (q_seen s))); cbn [andb].
    - btest (Z.of_nat (size (q_seen s)) =? 0); cbn [negb].
      + exfalso. unfold depth in *. lia.
      + destruct (q_seen s !! first) as [t|] eqn:Ef; [|done]. intros [= <-].
        rewrite map_size_insert. pose proof (map_size_delete_Some first (q_seen s) (mk_is_Some _ _ Ef)). destruct (delete first (q_seen s) !! risk_id r); unfold id; lia.
    - intros [= <-]. rewrite map_size_insert. destruct (q_seen s !! risk_id r); unfold id; lia. }
  destruct q as [[[] seen]|]; [|by injection E as _ <-; apply note_other|done]. injection E as _ <-. specialize (Hq seen eq_refl).
  destruct H as [H1 H2 H3 H4 H5 H6 H7 H8]. unfold held in *. split; unfold held, depth in *; cbn; rewrite ?slots_app, ?length_app, ?map_app; cbn; try done; try lia.
  - rewrite H1. rewrite <- !app_assoc. do 3 apply Permutation_app_head. apply Permutation_app_comm.
  - rewrite !app_assoc. apply sublist_app; [|done]. by rewrite <- app_assoc.
  - by rewrite H5.
  - rewrite H6. unfold slots. cbn. by rewrite app_nil_r.
Qed.

Lemma refused_accounted r s s' : accounted s -> refused r s = Some s' -> accounted s'.
Proof. intros H. unfold refused. destruct (q_accepting s); [done|]. intros [= <-]. by apply note_other, (accounted_frame s). Qed.

Lemma stop_accounted i a s s' : accounted s -> stop_step opts i a s = Some s' -> accounted s'.
Proof.
  intros H. unfold stop_step. destruct (q_stops s !! i) as [[]|]; destruct a as [|now|ok]; try done;
    try (intros [= <-]; first [by apply (accounted_frame s)|apply (accounted_frame (dropRest s)); try done; by apply dropRest_accounted]).
  - destruct (_ && _); [done|]. intros [= <-]. by apply (accounted_frame s).
  - intros [= <-]. destruct (_ =? _)%nat; by apply (accounted_frame s).
Qed.

Lemma start_accounted s s' : accounted s -> start_step opts s = Some s' -> (q_start s = A_POST -> q_loop s = L_NONE) -> accounted s'.
Proof.
  intros H. unfold start_step. destruct (q_start s); try done; intros [= <-] Hh; apply (accounted_frame s); try done.
  unfold held. cbn. by rewrite (Hh eq_refl).
Qed.

(** The head of the queue is taken, and sent or found too long. *)
Lemma pop_accounted s : accounted s -> in_hand (q_loop s) = [] -> accounted (drain_pop s).
Proof.
  intros H Hh. unfold drain_pop. destruct (q_queue s) as [|r queue] eqn:Eq; [apply (accounted_frame s); try done; unfold held; cbn; by rewrite Hh|].
  pose proof H as [H1 H2 H3 H4 H5 H6 H7 H8]. unfold held, depth in *. rewrite Hh, Eq in *. cbn [length app] in *. destruct (too_long r).
  - set (s1 := s <| q_queue := queue |> <| q_dropped := q_dropped s ++ [r] |>).
    assert (A1 : accounted (goto L_DRAIN (incr_risk_dropped s1))).
    { split; unfold held, depth; cbn; try done; try lia.
      - rewrite H1. rewrite <- !app_assoc. apply Permutation_app_head. rewrite (Permutation_app_comm (q_dropped s) [r]). cbn.
        by rewrite Permutation_middle.
      - etrans; [|exact H2]. by apply sublist_app, sublist_cons. }
    apply note_other with (result := 5) (r := r) in A1; [|done..]. exact A1.
  - split; unfold held, depth; cbn; try done; lia.
Qed.

(** It could not be sent: it goes back, and the last one makes room. *)
Lemma back_accounted r s : accounted s -> q_loop s = L_BACK r -> accounted (drain_back opts r s).
Proof.
  intros H El. unfold drain_back. pose proof H as [H1 H2 H3 H4 H5 H6 H7 H8].
  assert (Hm : 1 <= o_maxQueue opts).
  { destruct H8 as [H8|]; [|done]. exfalso. unfold held in H2. rewrite El, H8 in H2. apply sublist_nil_r in H2. by destruct (q_sent s). }
  unfold held, depth in *. rewrite El in *. cbn [in_hand app] in *.
  assert (A : forall l s1, l = r :: q_queue s -> Z.of_nat (length l) <= Z.max 0 (o_maxQueue opts) -> s1 = goto L_TEST (no_sock (s <| q_queue := l |>)) -> accounted s1).
  { intros l s1 -> Hd ->. split; unfold held, depth; cbn; try done; lia. }
  destruct (last (q_queue s)) as [old|] eqn:Ela.
  2: { apply last_None in Ela. apply (A [r]); [by rewrite Ela|cbn; lia|by rewrite Ela]. }
  apply last_Some in Ela as [rest Eq]. btest (o_maxQueue opts <=? Z.of_nat (length (q_queue s))).
  2: { apply (A (r :: q_queue s)); [done|cbn [length]; lia|done]. }
  clear A. rewrite Eq in *. rewrite removelast_last, length_app in *. cbn [length] in *.
  set (s1 := s <| q_queue := r :: rest |> <| q_dropped := q_dropped s ++ [old] |>).
  assert (A1 : accounted (goto L_TEST (no_sock (incr_risk_dropped s1)))).
  { split; unfold held, depth; cbn; try done; try lia.
    - rewrite H1. rewrite <- !app_assoc. apply Permutation_app_head. cbn. apply Permutation_skip. rewrite <- app_assoc.
      apply Permutation_app_head, Permutation_app_comm.
    - etrans; [|exact H2]. apply sublist_app; [done|]. apply sublist_skip, sublist_inserts_r. done. }
  apply note_other with (result := 2) (r := old) in A1; [|done..]. exact A1.
Qed.

Lemma loop_accounted a s s' : accounted s -> loop_step opts a s = Some s' -> accounted s'.
Proof.
  intros H. unfold loop_step. destruct (q_loop s) eqn:El; destruct a as [|now|ok]; try done.
  all: try (intros [= <-]; unfold when_due, when_not_due; repeat case_match; apply (accounted_frame s); try done; unfold held; by rewrite El).
  all: try solve [repeat case_match; try done; intros [= <-]; apply (accounted_frame s); try done; unfold held; by rewrite El].
  - intros [= <-]. apply pop_accounted; [done|by rewrite El].
  - destruct ok.
    + destruct (q_cut s); [done|]. intros [= <-]. destruct H as [H1 H2 H3 H4 H5 H6 H7 H8]. unfold held in *. rewrite El in *. cbn [in_hand] in *.
      split; unfold held, depth in *; cbn; rewrite ?slots_app, ?map_app, ?length_app; try done; rewrite <- ?app_assoc; try done.
      * rewrite H1. by rewrite <- !app_assoc.
      * rewrite H5. unfold slots. cbn. by rewrite app_nil_r.
      * by rewrite H6.
      * rewrite H7. cbn. lia.
    + intros [= <-]. assert (A : accounted (note_risk r 5 s)) by by apply note_other.
      apply (accounted_frame _ _ A); try done. unfold held. cbn. by rewrite El.
  - intros [= <-]. by apply back_accounted.
  - intros [= <-]. pose proof (dropRest_accounted s H) as A. apply (accounted_frame _ _ A); try done.
    unfold held, dropRest. destruct (drop_notes_frame (q_queue s) s) as (notes & E & _). cbv zeta in E. rewrite E. cbn. by rewrite El.
Qed.

Lemma accounted_new : accounted reporter_new.
Proof. split; try done; [unfold depth; cbn; lia|cbn [reporter_new q_seen]; rewrite map_size_empty; lia|by left]. Qed.
End accounting.

(** ** What the threads know of one another *)

(** [start] posts the coroutine once; it is not there before. *)
Definition posted (p : StartPc) : bool := match p with A_DEPTH | A_NOTIFY | A_END => true | _ => false end.

(** It runs from before that. *)
Definition ran (p : StartPc) : bool := match p with A_NONE | A_RUN => false | _ => true end.

(** A call of [stop] that has made reporting end, but not yet notified. *)
Definition owes (pc : StopPc) : bool := match pc with T_AT | T_NOTIFY => true | _ => false end.

(** A call of [stop] behind its exchange. *)
Definition exchanged (pc : StopPc) : bool := match pc with T_ASK | T_REFUSE | T_XCHG => false | _ => true end.

Definition leaving (pc : LoopPc) : bool := match pc with L_EXIT | L_DROP | L_FIN | L_FIN2 | L_OVER => true | _ => false end.

Definition emptied (pc : LoopPc) : bool := match pc with L_FIN | L_FIN2 | L_OVER => true | _ => false end.

(** A notification has come or will. *)
Definition woken (s : Reporter) : Prop := q_waker s = true \/ (0 < q_owed s)%nat.

Definition stop_owes (s : Reporter) : Prop := Exists (fun pc => owes pc = true) (q_stops s).

Record ordered (s : Reporter) : Prop := {
  od_started : q_start s = A_NONE <-> q_started s = false;
  od_posted : q_loop s = L_NONE <-> posted (q_start s) = false;
  od_exchanged : q_accepting s = true -> Forall (fun pc => exchanged pc = false) (q_stops s);
  od_running : ran (q_start s) = true -> q_running s = false -> leaving (q_loop s) = true \/ q_accepting s = false;
  od_at : q_stopAt s <> 0 -> q_accepting s = false;
  od_due : (forall k, q_loop s = L_DUE2 k -> q_accepting s = false);
  od_leaving : leaving (q_loop s) = true -> q_accepting s = false \/ q_cancelled s = true;
  od_emptied : emptied (q_loop s) = true -> q_queue s = [] \/ q_cancelled s = true;
  od_done : q_done s = true -> q_loop s = L_OVER;
  od_over : q_loop s = L_OVER -> q_done s = true;
  od_sleep : (forall ms, q_loop s = L_SLEEP ms -> q_waker s = true \/ q_timer s = true);
  od_report : q_loop s = L_EMPTY \/ q_loop s = L_WAIT -> q_queue s = [] \/ woken s;
  od_stop : q_loop s = L_WAIT -> q_accepting s = false -> q_missed s = true \/ q_waker s = true \/ stop_owes s }.

Lemma dropRest_shape s : exists m, dropRest s = (s <| q_dropped := q_dropped s ++ q_queue s |> <| q_queue := [] |>) <| q_metrics := m |>.
Proof.
  unfold dropRest. destruct (drop_notes_frame (q_queue s) s) as (notes & E & _). cbv zeta in E. rewrite E.
  eexists. unfold incr_risk_stop_drop. cbn. reflexivity.
Qed.

Ltac open_reporter s :=
  destruct s as [queue seen accepting running started done stopAt waker owed timer gen cut loop hasSock backoff start_ stops metrics
    accepted sent dropped missed cancelled].

Section order.
Context {IN : Inet} {JL : JsonLib} (opts : ReportOpts).

Lemma loop_ordered a s s' : ordered s -> loop_step opts a s = Some s' -> ordered s'.
Proof.
  intros [H1 H2 H3 H4 H5 H6 H7 H8 H9 H10 H11 H12 H13] H. unfold loop_step, when_due, when_not_due, is_due, drain_pop, drain_back in H.
  destruct (dropRest_shape s) as [m Em]. rewrite Em in H. clear Em.
  open_reporter s. unfold woken, stop_owes, depth in *. cbn in *.
  destruct loop, a; try discriminate H;
  repeat match type of H with
  | context [if ?b then _ else _] => destruct b eqn:?
  | context [match ?k with AT_LOOP => _ | _ => _ end] => destruct k
  | context [match ?k with [] => _ | _ => _ end] => destruct k
  | context [match last ?k with _ => _ end] => destruct (last k)
  end; try discriminate H; injection H as <-; split; cbn; intros; try done; try (by intuition congruence).
  all: unfold woken; cbn; b2p; try (by intuition congruence).
  all: cbn [leaving emptied] in *; try (left; destruct start_; cbn in *; by intuition congruence).
  all: first [left; by eapply H6|left; destruct queue; [done|cbn in *; lia]].
Qed.

Lemma stops_not l i pc pc' : Forall (fun pc => exchanged pc = false) l -> exchanged pc' = false -> l !! i = Some pc ->
  Forall (fun pc => exchanged pc = false) (<[i := pc']> l).
Proof. intros H1 H2 _. by apply Forall_insert. Qed.

Lemma owes_insert l i pc pc' : l !! i = Some pc -> (owes pc = true -> owes pc' = true) ->
  Exists (fun pc => owes pc = true) l -> Exists (fun pc => owes pc = true) (<[i := pc']> l).
Proof.
  intros Hi Hp H. apply Exists_exists in H as (x & Hx & Ho). apply list_elem_of_lookup in Hx as [j Hj]. apply Exists_exists.
  destruct (decide (i = j)) as [<-|Hne].
  - exists pc'. split; [|apply Hp; congruence]. apply list_elem_of_lookup. exists i. apply list_lookup_insert_eq. by eapply lookup_lt_Some.
  - exists x. split; [|done]. apply list_elem_of_lookup. exists j. by rewrite list_lookup_insert_ne.
Qed.

Lemma owes_new l i pc pc' : l !! i = Some pc -> owes pc' = true -> Exists (fun pc => owes pc = true) (<[i := pc']> l).
Proof.
  intros Hi Ho. apply Exists_exists. exists pc'. split; [|done]. apply list_elem_of_lookup. exists i.
  apply list_lookup_insert_eq. by eapply lookup_lt_Some.
Qed.

Lemma stop_ordered i a s s' : ordered s -> stop_step opts i a s = Some s' -> ordered s'.
Proof.
  intros [H1 H2 H3 H4 H5 H6 H7 H8 H9 H10 H11 H12 H13] H. unfold stop_step in H. destruct (q_stops s !! i) as [pc|] eqn:Ei; [|done].
  destruct (dropRest_shape s) as [m Em]. rewrite Em in H. clear Em.
  assert (Hx : exchanged pc = true -> q_accepting s = false).
  { intros E. destruct (q_accepting s); [|done]. specialize (H3 eq_refl). eapply Forall_lookup_1 in H3; [|exact Ei]. cbn in H3. congruence. }
  pose proof (fun pc' => stops_not (q_stops s) i pc pc') as Hs. pose proof (fun pc' => owes_insert (q_stops s) i pc pc' Ei) as Ho.
  pose proof (fun pc' => owes_new (q_stops s) i pc pc' Ei) as Hn.
  open_reporter s. unfold stop_owes, woken in *. cbn in *.
  destruct pc, a; try discriminate H; cbn in Hx; try (specialize (Hx eq_refl));
  repeat match type of H with context [if ?b then _ else _] => destruct b eqn:? end; try discriminate H; injection H as <-;
    split; cbn; intros; try done; try (by intuition congruence).
  all: unfold woken, stop_owes in *; cbn; first [by eapply H6|by eapply H11|by apply H12|by apply Hs; auto|idtac].
  all: try (by right; left); try (by right; right; apply Hn).
  all: try solve [destruct H13 as [|[|]]; auto].
  subst. destruct started; [left; by rewrite orb_true_r|]. exfalso. rewrite (proj2 H1 eq_refl) in H2. by discriminate (proj2 H2 eq_refl).
Qed.

Lemma others_ordered l s s' : ordered s -> step opts l s = Some s' ->
  match l with STOPPING _ _ | LOOP _ => False | _ => True end -> ordered s'.
Proof.
  intros [H1 H2 H3 H4 H5 H6 H7 H8 H9 H10 H11 H12 H13] H Hl.
  open_reporter s. unfold stop_owes, woken in *. cbn in *.
  destruct l as [r now first|r| | |iom| | |i a|a]; cbn in H; try done.
  - unfold tryReport, note_risk, depth in H. cbn in H. destruct accepting; cbn in H; [|injection H as <-; by split].
    destruct (_ <=? _); [injection H as <-; by split|]. destruct (if String.eqb _ "" then _ else _) as [[[] seen']|]; try done; injection H as <-; [|by split].
    split; unfold woken, stop_owes; cbn; intros; try done; try (by intuition congruence); [by eapply H6| |by eapply H11|].
    + right. destruct (H7 ltac:(by destruct loop)); done.
    + right; right; lia.
  - unfold refused, note_risk in H. cbn in H. destruct accepting; [done|]. injection H as <-. by split.
  - destruct owed as [|n]; [done|]. injection H as <-. split; unfold woken, stop_owes; cbn; intros; auto; by eapply H6.
  - destruct timer; [|done]. injection H as <-. split; unfold woken, stop_owes; cbn; intros; auto; by eapply H6.
  - injection H as <-. unfold start. cbn. destruct (_ && negb started) eqn:E; [|by split]. apply andb_true_iff in E as [_ E].
    apply negb_true_iff in E. subst. rewrite (proj2 H1 eq_refl) in *. split; unfold woken, stop_owes; cbn; intros; auto; try done; try (by intuition congruence); by eapply H6.
  - unfold start_step, depth in H. cbn in H. destruct start_; try done; try (destruct (_ =? 0) in H); injection H as <-;
      split; unfold woken, stop_owes; cbn; intros; auto; try done; try (by intuition congruence); try first [by eapply H6|by eapply H11].
    rewrite (proj2 H2 eq_refl) in H4. right. by destruct (H4 eq_refl H0).
  - injection H as <-. split; unfold woken, stop_owes; cbn; intros; auto; try (by eapply H6); try (by eapply H11).
    + apply Forall_app. split; [auto|]. by apply Forall_singleton.
    + destruct H13 as [|[|]]; auto. right; right. apply Exists_app. by left.
Qed.
End order.

Section facts.
Context {IN : Inet} {JL : JsonLib} (opts : ReportOpts).

Lemma reachable_good s : reachable opts s -> accounted opts s /\ ordered s.
Proof.
  induction 1 as [|s l s' _ [IH1 IH2] H].
  - split; [apply accounted_new|]. by split; cbn; intros; try done; intuition.
  - split.
    + destruct l as [r now first|r| | |iom| | |i a|a]; cbn in H.
      * destruct (tryReport opts r now first s) as [[b s1]|] eqn:E; [|done]. injection H as <-. by apply report_accounted in E.
      * by apply (refused_accounted opts r s).
      * destruct (q_owed s); [done|]. injection H as <-. by apply (accounted_frame opts s).
      * destruct (q_timer s); [|done]. injection H as <-. by apply (accounted_frame opts s).
      * injection H as <-. unfold start. destruct (_ && _); [by apply (accounted_frame opts s)|done].
      * apply (start_accounted opts s); [done|done|]. intros E. apply IH2. by rewrite E.
      * injection H as <-. by apply (accounted_frame opts s).
      * by apply (stop_accounted opts i a s).
      * by apply (loop_accounted opts a s).
    + destruct l; try (by apply (others_ordered opts _ s s' IH2 H)).
      * by apply (stop_ordered opts i a s).
      * by apply (loop_ordered opts a s).
Qed.

(** ** The end *)

(** How far the coroutine is from its end, once it is told to end and time is up. *)
Definition loop_left (pc : LoopPc) : nat :=
  match pc with
  | L_SOCK | L_POP => 14 | L_CONN | L_SEND _ => 13 | L_DRAIN => 12 | L_DUE AT_DRAIN => 11
  | L_DUE2 AT_DRAIN | L_BACK _ | L_WAIT | L_STOPAT => 10 | L_TEST | L_SLEEP _ => 9 | L_DEPTH | L_RAN => 8
  | L_DUE _ | L_EMPTY => 7 | L_DUE2 _ => 6 | L_EXIT => 5 | L_DROP => 4 | L_FIN => 3 | L_FIN2 => 2 | L_OVER | L_NONE => 0
  end.

(** A step of the coroutine that finds the time of [due] past, or a timer. *)
Definition late (due : Z) (l : Label) : Prop :=
  match l with LOOP (B_NOW now) => due <= now | LOOP _ | FIRED => True | _ => False end.

Definition is_loop (l : Label) : bool := match l with LOOP _ => true | _ => false end.

(** Told to end, and every call of [stop] that did so has notified. *)
Record ending (s : Reporter) : Prop := {
  en_posted : posted (q_start s) = true; en_accepting : q_accepting s = false;
  en_missed : q_missed s = false; en_stops : ~ stop_owes s }.

Lemma loop_frame a s s' : loop_step opts a s = Some s' ->
  q_start s' = q_start s /\ q_accepting s' = q_accepting s /\ q_missed s' = q_missed s /\ q_stops s' = q_stops s /\ q_stopAt s' = q_stopAt s.
Proof.
  intros H. unfold loop_step, when_due, when_not_due, drain_pop, drain_back in H. destruct (dropRest_shape s) as [m Em]. rewrite Em in H.
  destruct (q_loop s), a; try discriminate H; repeat case_match; simplify_eq/=; done.
Qed.

Lemma late_step l s s' : ending s -> late (q_stopAt s) l -> step opts l s = Some s' ->
  ending s' /\ q_stopAt s' = q_stopAt s /\ ((if is_loop l then 1 else 0) + loop_left (q_loop s') <= loop_left (q_loop s))%nat.
Proof.
  intros [E1 E2 E3 E4] Hl H. destruct l as [| | | | | | | |a]; try done; cbn in H.
  - destruct (q_timer s); [|done]. by injection H as <-.
  - pose proof (loop_frame a s s' H) as (F1 & F2 & F3 & F4 & F5). split; [split; unfold stop_owes in *; congruence|]. split; [done|]. cbn [is_loop].
    unfold loop_step, when_due, is_due, drain_pop, drain_back in H. rewrite E2 in H.
    destruct (q_loop s) eqn:El, a; try discriminate H; repeat case_match; simplify_eq/=; try lia; b2p; try lia.
    destruct k; lia.
Qed.

Lemma late_run ls s s' : ending s -> Forall (late (q_stopAt s)) ls -> run opts ls s = Some s' ->
  ending s' /\ q_stopAt s' = q_stopAt s /\ (length (List.filter is_loop ls) + loop_left (q_loop s') <= loop_left (q_loop s))%nat.
Proof.
  revert s. induction ls as [|l ls IH]; intros s He Hl H; cbn in H; [injection H as <-; split; [done|]; split; [done|cbn; lia]|].
  apply Forall_cons in Hl as [Hl Hls]. destruct (step opts l s) as [s1|] eqn:E; [|done].
  apply late_step in E as (He1 & Ed & E); [|done|done]. rewrite <- Ed in Hls. destruct (IH s1 He1 Hls H) as (H1 & H2 & H3).
  split; [done|]. split; [congruence|]. cbn. destruct (is_loop l); cbn; lia.
Qed.

(** It is never stuck. *)
Lemma late_moves s : ordered s -> ending s -> q_loop s = L_OVER \/ exists l s', late (q_stopAt s) l /\ step opts l s = Some s'.
Proof.
  intros Ho [E1 E2 E3 E4]. destruct (q_loop s) eqn:El.
  1: { exfalso. apply Ho in El. congruence. }
  4: { right. exists (LOOP (B_OK true)). cbn. unfold loop_step. rewrite El. destruct (od_stop s Ho El E2) as [?|[->|?]]; [congruence| |done].
       by eexists. }
  all: try by left.
  all: right; try (exists (LOOP B_GO); cbn; unfold loop_step; rewrite El; by eexists).
  - exists (LOOP (B_NOW (q_stopAt s))). cbn. unfold loop_step. rewrite El. eexists. by split.
  - exists (LOOP (B_OK false)). cbn. unfold loop_step. rewrite El. by eexists.
  - exists (LOOP (B_NOW (q_stopAt s))). cbn. unfold loop_step. rewrite El. cbv zeta. destruct (_ && _); by eexists.
  - destruct (od_sleep s Ho ms El) as [Hw|Ht].
    + exists (LOOP (B_OK true)). cbn. unfold loop_step. rewrite El, Hw. by eexists.
    + exists FIRED. cbn. rewrite Ht. by eexists.
  - exists (LOOP (B_OK false)). cbn. unfold loop_step. rewrite El. by eexists.
Qed.

Lemma life_reachable ls s s' : reachable opts s -> run opts ls s = Some s' -> reachable opts s'.
Proof.
  revert s. induction ls as [|l ls IH]; cbn; intros s Hr H; [by injection H as <-|].
  destruct (step opts l s) as [s1|] eqn:E; [|done]. by apply (IH s1); [eapply R_STEP|].
Qed.
End facts.

(** ** What the reporter promises *)

(** C21: no report is lost unseen. Whatever the threads, the clock and the socket do, every
    accepted report is in exactly one place: sent, held by the coroutine, queued, or dropped;
    those sent, held and queued are in the order they came, so nothing is sent twice or out
    of turn; the queue and the table of ids keep to their bound; what the metrics call
    queued and sent are the accepted and the sent reports, source by source; and at the end
    nothing is left behind. *)
Theorem report_conserves {IN : Inet} {JL : JsonLib} (opts : ReportOpts) (s : Reporter) : reachable opts s ->
  q_accepted s ≡ₚ held s ++ q_dropped s /\ held s `sublist_of` q_accepted s /\
  depth s <= Z.max 0 (o_maxQueue opts) /\ Z.of_nat (size (q_seen s)) <= Z.max 0 (o_maxQueue opts) /\
  slots 0 (riskByResult (q_metrics s)) = map (fun r => srcSlot (risk_src r)) (q_accepted s) /\
  slots 4 (riskByResult (q_metrics s)) = map (fun r => srcSlot (risk_src r)) (q_sent s) /\
  riskSent (q_metrics s) = Z.of_nat (length (q_sent s)) /\
  (q_done s = true -> q_cancelled s = false -> q_accepted s ≡ₚ q_sent s ++ q_dropped s).
Proof.
  intros Hr. destruct (reachable_good opts s Hr) as [[H1 H2 H3 H4 H5 H6 H7 _] Ho]. split_and!; try done.
  intros Hd Hc. rewrite H1. pose proof (od_done s Ho Hd) as El. unfold held. rewrite El. cbn [in_hand app].
  destruct (od_emptied s Ho) as [->|?]; [by rewrite El|by rewrite app_nil_r|congruence].
Qed.

(** C22: the reporter neither sleeps on work nor outlives its end. When the coroutine waits and
    no notification has come or is owed, the queue is empty and reports are still accepted.
    Once it is told to end, the calls of [stop] have notified and time is up, it takes at
    most fourteen steps to its end, whatever the socket answers, and never stops before;
    provided no call of [stop] took it for not started while it was. *)
Theorem report_ends {IN : Inet} {JL : JsonLib} (opts : ReportOpts) (s : Reporter) : reachable opts s -> q_missed s = false ->
  (q_loop s = L_WAIT -> ~ woken s -> ~ stop_owes s -> q_queue s = [] /\ q_accepting s = true) /\
  (posted (q_start s) = true -> q_accepting s = false -> ~ stop_owes s -> forall ls s',
     Forall (late (q_stopAt s)) ls -> run opts ls s = Some s' ->
     (length (List.filter is_loop ls) <= 14)%nat /\
     (q_done s' = true \/ exists l s'', late (q_stopAt s) l /\ step opts l s' = Some s'')).
Proof.
  intros Hr Hm. destruct (reachable_good opts s Hr) as [_ Ho]. split.
  - intros El Hw Hs. split; [by destruct (od_report s Ho); auto|]. destruct (q_accepting s) eqn:Ea; [done|]. exfalso.
    destruct (od_stop s Ho El Ea) as [?|[?|?]]; [congruence|by apply Hw; left|done].
  - intros H1 H2 H3 ls s' Hls H. destruct (late_run opts ls s s') as (He & Ed & Hn); [done..|]. split.
    + assert (loop_left (q_loop s) <= 14)%nat by (destruct (q_loop s) as [| | | | |[]|[]| | | | | | | | | | | | | | ]; cbn; lia). lia.
    + destruct (reachable_good opts s') as [_ Ho']; [by eapply life_reachable|].
      destruct (late_moves opts s' Ho' He) as [El|(l & s2 & H4 & H5)]; [left; by apply Ho'|right]. exists l, s2. by rewrite <- Ed.
Qed.

(** ** Examples and witnesses *)

Import DocJson.

Definition sample_opts : ReportOpts := mkReportOpts "/tmp/s" 1 200 5000 2000.

Definition sample_risk (id : string) : Risk := mkRisk id (mkIp V4 32 (replicate 16 0)) WAF 2 3 60000 17 "sqli".

#[local] Abbreviation sample_run ls := (run (IN := TextInet) sample_opts ls reporter_new).

Definition loops (n : nat) : list Label := replicate n (LOOP B_GO).

Definition started : list Label := [START true; STARTING; STARTING; STARTING].

(** A report is queued, sent over a new connection, and the reporter stopped while it waits. *)
Definition a_life : list Label :=
  [REPORT (sample_risk "a") 0 ""] ++ started ++ [STARTING; NOTIFIED] ++ loops 4 ++ [LOOP (B_OK true)] ++ loops 3 ++ [LOOP (B_OK true)]
  ++ loops 3 ++ loops 1 ++ loops 2 ++ [LOOP (B_OK true)] ++ loops 3
  ++ [STOP] ++ [STOPPING 0 B_GO; STOPPING 0 B_GO; STOPPING 0 (B_NOW 50); STOPPING 0 B_GO].

Example life_of_a_report :
  (fun s => (q_loop s, map risk_id (q_sent s), map risk_id (q_dropped s), q_waker s, q_stopAt s)) <$> sample_run a_life
  = Some (L_WAIT, ["a"%string], [], true, 2050).
Proof. vm_compute. reflexivity. Qed.

Definition after_life : Reporter := Eval vm_compute in default reporter_new (sample_run a_life).

Lemma after_life_reachable : reachable (IN := TextInet) sample_opts after_life.
Proof. apply (life_reachable sample_opts a_life reporter_new); [apply R_NEW|]. vm_compute. reflexivity. Qed.

Lemma report_conserves_witness :
  q_accepted after_life ≡ₚ held after_life ++ q_dropped after_life /\ q_sent after_life = [sample_risk "a"] /\
  slots 4 (riskByResult (q_metrics after_life)) = [0].
Proof.
  destruct (report_conserves (IN := TextInet) sample_opts after_life after_life_reachable) as (H & _).
  split; [exact H|]. split; reflexivity.
Defined.

(** Then it ends. *)
Definition to_the_end : list Label := [LOOP (B_OK true)] ++ loops 7.

Lemma report_ends_witness : exists s, run (IN := TextInet) sample_opts to_the_end after_life = Some s /\ q_done s = true /\
  (length (List.filter is_loop to_the_end) <= 14)%nat.
Proof.
  destruct (report_ends (IN := TextInet) sample_opts after_life after_life_reachable eq_refl) as [_ H].
  assert (Hs : ~ stop_owes after_life) by (intros Hs; apply Exists_cons in Hs as [Hs|Hs]; [discriminate Hs|by apply Exists_nil in Hs]).
  assert (E : exists s, run (IN := TextInet) sample_opts to_the_end after_life = Some s /\ q_done s = true) by (eexists; split; vm_compute; reflexivity).
  destruct E as (s & E & Hd). exists s. split; [exact E|]. split; [exact Hd|].
  apply (H eq_refl eq_refl Hs to_the_end s); [|exact E]. repeat constructor.
Defined.

(** [stop] ends the accepting before it says how long the queue may still be sent: a
    coroutine that looks in between takes the time to be up, and the queue is dropped at
    once instead of being sent for the two seconds it was promised. *)
Example drained_too_late :
  (fun s => (q_loop s, map risk_id (q_sent s), map risk_id (q_dropped s), q_stopAt s)) <$>
    sample_run ([REPORT (sample_risk "a") 0 ""] ++ started ++ [STOP; STOPPING 0 B_GO; STOPPING 0 B_GO]
                ++ loops 3 ++ [LOOP (B_NOW 1)] ++ loops 2 ++ [STOPPING 0 (B_NOW 1)])
  = Some (L_FIN, [], ["a"%string], 2001).
Proof. vm_compute. reflexivity. Qed.

(** [stop] that finds the reporter not started, and [start] before it goes on: the coroutine
    sleeps, reports are refused, the call has returned, and nobody will wake it. *)
Example never_woken :
  (fun s => (q_loop s, q_waker s, q_owed s, q_accepting s, q_stops s, q_done s)) <$>
    sample_run ([STOP; STOPPING 0 B_GO] ++ started ++ loops 3 ++ [STOPPING 0 B_GO; STOPPING 0 B_GO])
  = Some (L_WAIT, false, 0%nat, false, [T_END], false).
Proof. vm_compute. reflexivity. Qed.

(** A report dropped to make room for one that could not be sent is still in [m_seen]: when
    it comes again it is taken for a duplicate, though the hub never heard of it. *)
Example dropped_but_seen :
  let opts := mkReportOpts "/tmp/s" 2 200 5000 2000 in
  (fun s => (map risk_id (q_queue s), map risk_id (q_sent s), map risk_id (q_dropped s), map snd (riskByResult (q_metrics s)))) <$>
    run (IN := TextInet) opts
      ([REPORT (sample_risk "a") 0 ""; REPORT (sample_risk "b") 0 ""] ++ started ++ loops 4 ++ [LOOP (B_OK true)] ++ loops 3
       ++ [REPORT (sample_risk "c") 1 "a"; LOOP (B_OK false)] ++ loops 5 ++ [LOOP (B_OK true)] ++ loops 3 ++ [LOOP (B_OK true)]
       ++ [REPORT (sample_risk "c") 2 ""]) reporter_new
  = Some (["b"], ["a"], ["c"], [0; 0; 0; 5; 2; 4; 1])%string.
Proof. vm_compute. reflexivity. Qed.
