(* ===== verification/ByteArray.v ===== *)
(** * A chain of memory blocks read and written as one stretch of bytes
      (src/bronx/net/include/bytearray.h, src/bronx/net/src/bytearray.cpp)

    A byte array is a linked list of blocks of one size, a position, and pointers to the
    first block and to the one the position is in. The chain is modelled as it is: a pointer
    is the number of a block or null, reading through null or past a block's end is
    [CRASH], an exception is [THROW] with the state it leaves. What is proved is that
    nothing of this shows: the chain behaves as a flat list of bytes, memory that runs out
    included; and exactly which two kinds of call end in [CRASH]. *)

From S2P Require Import Prelude Records.
From coqutil Require Import Byte.

#[local] Open Scope Z_scope.

(** ** Rounding

    The number of blocks to add is [ceil(1.0 * size / baseSize_)], in binary64. *)

(** [a / b] to the nearest integer, ties to even. *)
Definition rne (a b : Z) : Z :=
  let q := a / b in
  let r := 2 * (a mod b) in
  if r <? b then q else if (r =? b) && Z.even q then q else q + 1.

(** A [size_t] as a double. *)
Definition dbl_of (n : Z) : Z :=
  let e := Z.log2 n - 52 in if e <=? 0 then n else rne n (2 ^ e) * 2 ^ e.

Definition ceil_div (n d : Z) : Z :=
  let n := dbl_of n in
  let d := dbl_of d in
  if n =? 0 then 0
  else if n <? d then 1
  else
    let e := Z.log2 (n / d) - 52 in
    if 0 <=? e then rne n (d * 2 ^ e) * 2 ^ e else (rne (n * 2 ^ (- e)) d + 2 ^ (- e) - 1) / 2 ^ (- e).

(** ** State *)

Inductive Exn := OUT_OF_RANGE | LENGTH_ERROR | BAD_ALLOC.

(** What memory there is: the content of the [k]-th allocation when [live] bytes of the array
    are allocated and [n] more are asked for, or none; and whether a string of a length can be.
    An address space has fewer than [2 ^ 48] bytes. *)
Class Heap := {
  new_char : nat -> Z -> Z -> option (list byte);
  new_char_length k live n l : new_char k live n = Some l -> Z.of_nat (length l) = n /\ live + n < 2 ^ 48;
  str_alloc : Z -> bool;
  str_alloc_small n : str_alloc n = true -> n < 2 ^ 48 }.

(** A [Node]: its memory, as long as its [size]. *)
Abbreviation Node := (list byte).

Definition node_size (n : Node) : Z := Z.of_nat (length n).

Record ByteArray := mkByteArray {
  y_baseSize : Z; y_position : Z; y_capacity : Z; y_size : Z; y_endian : Z;
  y_nodes : list Node; y_cur : option nat; y_allocs : nat }.

Definition BRONX_LITTLE_ENDIAN : Z := 1.
Definition BRONX_BIG_ENDIAN : Z := 2.

(** What a call does: a value, an exception, each with the state after it, or the end of the
    process. *)
Inductive Res (A : Type) := OK (a : A) (s : ByteArray) | THROW (e : Exn) (s : ByteArray) | CRASH.
Arguments OK {A}. Arguments THROW {A}. Arguments CRASH {A}.

Definition Op (A : Type) : Type := ByteArray -> Res A.

Definition ret {A} (a : A) : Op A := OK a.
Definition bind {A B} (m : Op A) (k : A -> Op B) : Op B := fun s =>
  match m s with OK a s => k a s | THROW e s => THROW e s | CRASH => CRASH end.
Definition throw {A} (e : Exn) : Op A := THROW e.
Definition crash {A} : Op A := fun _ => CRASH.
Definition gets {A} (f : ByteArray -> A) : Op A := fun s => OK (f s) s.
Definition modify (f : ByteArray -> ByteArray) : Op unit := fun s => OK tt (f s).

Declare Scope op_scope.
Delimit Scope op_scope with op.
Notation "x <- m ;; k" := (bind m (fun x => k)) (at level 100, m at next level, right associativity) : op_scope.
Notation "m ;;; k" := (bind m (fun _ => k)) (at level 100, right associativity) : op_scope.
#[local] Open Scope op_scope.

(** ** Memory *)

(** [p->...]. *)
Definition deref (p : option nat) : Op Node := fun s =>
  match p ≫= (fun i => y_nodes s !! i) with Some n => OK n s | None => CRASH end.

(** [p->next]. *)
Definition next_of (p : option nat) : Op (option nat) := fun s =>
  match p with
  | Some i => if (i <? length (y_nodes s))%nat then OK (if (S i <? length (y_nodes s))%nat then Some (S i) else None) s else CRASH
  | None => CRASH
  end.

(** [n] bytes at [p->ptr + at]. *)
Definition load (p : option nat) (at_ n : Z) : Op (list byte) :=
  m <- deref p ;;
  if (0 <=? at_) && (0 <=? n) && (at_ + n <=? node_size m) then ret (take (Z.to_nat n) (drop (Z.to_nat at_) m)) else crash.

Definition splice (m : list byte) (at_ : Z) (bs : list byte) : list byte :=
  take (Z.to_nat at_) m ++ bs ++ drop (Z.to_nat at_ + length bs) m.

(** [bs] to [p->ptr + at]. *)
Definition store (p : option nat) (at_ : Z) (bs : list byte) : Op unit :=
  m <- deref p ;;
  if (0 <=? at_) && (at_ + Z.of_nat (length bs) <=? node_size m) then
    modify (fun s => match p with Some i => s <| y_nodes := <[i := splice m at_ bs]> (y_nodes s) |> | None => s end)
  else crash.

Section bytearray.
Context {HP : Heap}.

(** ** Construction and size *)

Definition bytearray_new (base : Z) (endian : Z) : option ByteArray :=
  match new_char 0 0 base with
  | Some n => Some (mkByteArray base 0 base 0 endian [n] (Some O) 1)
  | None => None
  end.

Definition getCapacity (s : ByteArray) : Z := wrap64 (y_capacity s - y_position s).
Definition getReadSize (s : ByteArray) : Z := wrap64 (y_size s - y_position s).

Definition isLittleEndian (s : ByteArray) : bool := y_endian s =? BRONX_LITTLE_ENDIAN.
Definition setIsLittleEndian (val : bool) : Op unit :=
  modify (fun s => s <| y_endian := if val then BRONX_LITTLE_ENDIAN else BRONX_BIG_ENDIAN |>).

(** The blocks [addCapacity] adds, one at a time. *)
Fixpoint add_nodes (count : nat) : Op unit :=
  match count with
  | O => ret tt
  | S count => fun s =>
      match new_char (y_allocs s) (y_capacity s) (y_baseSize s) with
      | None => THROW BAD_ALLOC s
      | Some n => add_nodes count (((s <| y_nodes := y_nodes s ++ [n] |>) <| y_allocs := S (y_allocs s) |>)
                                     <| y_capacity := wrap64 (y_capacity s + y_baseSize s) |>)
      end
  end.

Definition addCapacity (size : Z) : Op unit :=
  if size =? 0 then ret tt
  else
    old_cap <- gets getCapacity ;;
    if size <=? old_cap then ret tt
    else
      base <- gets y_baseSize ;;
      have <- gets (fun s => length (y_nodes s)) ;;
      let count := Z.to_nat (ceil_div (size - old_cap) base) in
      add_nodes count ;;;
      if old_cap =? 0 then modify (fun s => s <| y_cur := if (count =? 0)%nat then None else Some have |>) else ret tt.

(** [clear] keeps the first block. *)
Definition clear : Op unit := fun s =>
  match y_nodes s with
  | root :: _ => OK tt (((((s <| y_position := 0 |>) <| y_size := 0 |>) <| y_capacity := y_baseSize s |>)
                           <| y_nodes := [root] |>) <| y_cur := Some O |>)
  | [] => CRASH
  end.

(** ** Writing and reading *)

(** The loop of [write]; [buf] is what is left of the caller's. Every turn but the last moves
    along the chain, so its length is fuel enough. *)
Fixpoint write_loop (fuel : nat) (npos ncap : Z) (buf : list byte) : Op unit :=
  let size := Z.of_nat (length buf) in
  if size =? 0 then ret tt
  else
    match fuel with
    | O => crash
    | S fuel =>
        cur <- gets y_cur ;;
        if size <=? ncap then
          store cur npos buf ;;;
          m <- deref cur ;;
          (if node_size m =? npos + size then nx <- next_of cur ;; modify (fun s => s <| y_cur := nx |>) else ret tt) ;;;
          modify (fun s => s <| y_position := wrap64 (y_position s + size) |>)
        else
          store cur npos (take (Z.to_nat ncap) buf) ;;;
          modify (fun s => s <| y_position := wrap64 (y_position s + ncap) |>) ;;;
          nx <- next_of cur ;;
          modify (fun s => s <| y_cur := nx |>) ;;;
          m <- deref nx ;;
          write_loop fuel 0 (node_size m) (drop (Z.to_nat ncap) buf)
    end.

(** [position_ % baseSize_]; there is no remainder by zero. *)
Definition offset (position : Z) : Op Z :=
  base <- gets y_baseSize ;; if base =? 0 then crash else ret (position mod base).

Definition write (buf : list byte) : Op unit :=
  if Z.of_nat (length buf) =? 0 then ret tt
  else
    addCapacity (Z.of_nat (length buf)) ;;;
    position <- gets y_position ;;
    npos <- offset position ;;
    cur <- gets y_cur ;;
    m <- deref cur ;;
    fuel <- gets (fun s => length (y_nodes s)) ;;
    write_loop fuel npos (wrap64 (node_size m - npos)) buf ;;;
    modify (fun s => if y_size s <? y_position s then s <| y_size := y_position s |> else s).

(** The loop of both [read]s: the bytes, and the block the next one is in. *)
Fixpoint read_loop (fuel : nat) (cur : option nat) (npos ncap size : Z) : Op (list byte * option nat) :=
  if size =? 0 then ret ([], cur)
  else
    match fuel with
    | O => crash
    | S fuel =>
        if size <=? ncap then
          bs <- load cur npos size ;;
          m <- deref cur ;;
          if node_size m =? npos + size then nx <- next_of cur ;; ret (bs, nx) else ret (bs, cur)
        else
          bs <- load cur npos ncap ;;
          nx <- next_of cur ;;
          m <- deref nx ;;
          r <- read_loop fuel nx 0 (node_size m) (size - ncap) ;;
          ret (bs ++ fst r, snd r)
    end.

Definition read (size : Z) : Op (list byte) :=
  rest <- gets getReadSize ;;
  if rest <? size then throw OUT_OF_RANGE
  else if size =? 0 then ret []
  else
    position <- gets y_position ;;
    npos <- offset position ;;
    cur <- gets y_cur ;;
    m <- deref cur ;;
    fuel <- gets (fun s => length (y_nodes s)) ;;
    r <- read_loop fuel cur npos (wrap64 (node_size m - npos)) size ;;
    modify (fun s => (s <| y_position := wrap64 (position + size) |>) <| y_cur := snd r |>) ;;;
    ret (fst r).

(** [skip] steps from the first block; the loop stops at null, the others do not. *)
Fixpoint walk_safe (skip : nat) (cur : option nat) : Op (option nat) :=
  match skip, cur with
  | S skip, Some _ => nx <- next_of cur ;; walk_safe skip nx
  | _, _ => ret cur
  end.

Fixpoint walk (skip : nat) (cur : option nat) : Op (option nat) :=
  match skip with S skip => nx <- next_of cur ;; walk skip nx | O => ret cur end.

(** The block [position] is in; the chain has no more than so many. *)
Definition block_of (position : Z) : Op nat :=
  base <- gets y_baseSize ;;
  have <- gets (fun s => length (y_nodes s)) ;;
  if base =? 0 then crash else ret (Nat.min (S have) (Z.to_nat (position / base))).

Definition read_at (size position : Z) : Op (list byte) :=
  total <- gets y_size ;;
  if wrap64 (total - position) <? size then throw OUT_OF_RANGE
  else if size =? 0 then ret []
  else
    npos <- offset position ;;
    skip <- block_of position ;;
    cur <- walk_safe skip (Some O) ;;
    m <- deref cur ;;
    fuel <- gets (fun s => length (y_nodes s)) ;;
    r <- read_loop fuel cur npos (wrap64 (node_size m - npos)) size ;;
    ret (fst r).

(** The loop of [setPosition], and the block it ends at. *)
Fixpoint seek_loop (fuel : nat) (v : Z) (cur : option nat) : Op (option nat) :=
  match fuel with
  | O => crash
  | S fuel =>
      m <- deref cur ;;
      if node_size m <? v then nx <- next_of cur ;; seek_loop fuel (v - node_size m) nx
      else if v =? node_size m then next_of cur else ret cur
  end.

Definition setPosition (v : Z) : Op unit :=
  capacity <- gets y_capacity ;;
  if capacity <? v then throw OUT_OF_RANGE
  else
    modify (fun s => s <| y_position := v |>) ;;;
    modify (fun s => if y_size s <? v then s <| y_size := v |> else s) ;;;
    fuel <- gets (fun s => length (y_nodes s)) ;;
    cur <- seek_loop fuel v (Some O) ;;
    modify (fun s => s <| y_cur := cur |>).

(** ** Views of the memory *)

(** An [iovec]: a block, an offset in it, a length. *)
Record Iov := mkIov { iov_node : option nat; iov_at : Z; iov_len : Z }.

(** The loop of the three [peek...Iovec]. *)
Fixpoint peek_loop (fuel : nat) (cur : option nat) (npos ncap len : Z) : Op (list Iov) :=
  if len =? 0 then ret []
  else
    match fuel with
    | O => crash
    | S fuel =>
        if len <=? ncap then ret [mkIov cur npos len]
        else
          nx <- next_of cur ;;
          m <- deref nx ;;
          iovs <- peek_loop fuel nx 0 (node_size m) (len - ncap) ;;
          ret (mkIov cur npos ncap :: iovs)
    end.

Definition peek_from (cur : option nat) (position len : Z) : Op (list Iov) :=
  npos <- offset position ;;
  m <- deref cur ;;
  fuel <- gets (fun s => length (y_nodes s)) ;;
  peek_loop fuel cur npos (wrap64 (node_size m - npos)) len.

Definition peekReadIovec_at (len position : Z) : Op (Z * list Iov) :=
  size <- gets y_size ;;
  if size <=? position then ret (0, [])
  else
    let len := Z.min len (size - position) in
    if len =? 0 then ret (0, [])
    else
      count <- block_of position ;;
      cur <- walk count (Some O) ;;
      iovs <- peek_from cur position len ;;
      ret (len, iovs).

Definition peekReadIovec (len : Z) : Op (Z * list Iov) :=
  rest <- gets getReadSize ;;
  let len := Z.min len rest in
  if len =? 0 then ret (0, [])
  else
    position <- gets y_position ;;
    cur <- gets y_cur ;;
    iovs <- peek_from cur position len ;;
    ret (len, iovs).

Definition peekWriteIovec (len : Z) : Op (Z * list Iov) :=
  if len =? 0 then ret (0, [])
  else
    addCapacity len ;;;
    position <- gets y_position ;;
    cur <- gets y_cur ;;
    iovs <- peek_from cur position len ;;
    ret (len, iovs).

(** ** Text and files *)

Definition toString : Op (list byte) :=
  size <- gets getReadSize ;;
  if negb (str_alloc size) then throw LENGTH_ERROR
  else if size =? 0 then ret []
  else position <- gets y_position ;; read_at size position.

(** The loop of [writeToFile]: what the stream is given. *)
Fixpoint file_loop (fuel : nat) (cur : option nat) (npos ncap size : Z) : Op (list byte) :=
  if size =? 0 then ret []
  else
    match cur, fuel with
    | None, _ => ret []
    | Some _, O => crash
    | Some _, S fuel =>
        let len := if size <=? ncap then size else ncap in
        bs <- load cur npos len ;;
        rest <- (if len <? ncap then file_loop fuel cur (npos + len) (ncap - len) (size - len)
                 else
                   nx <- next_of cur ;;
                   ncap <- (match nx with Some _ => m <- deref nx ;; ret (node_size m) | None => ret 0 end) ;;
                   file_loop fuel nx 0 ncap (size - len)) ;;
        ret (bs ++ rest)
    end.

(** [open]: whether the file could be opened. What the disk makes of what it is given is
    not asked for. *)
Definition writeToFile (open_ : bool) : Op (bool * list byte) :=
  if negb open_ then ret (false, [])
  else
    size <- gets getReadSize ;;
    position <- gets y_position ;;
    npos <- offset position ;;
    skip <- block_of position ;;
    cur <- walk_safe skip (Some O) ;;
    ncap <- (match cur with Some _ => m <- deref cur ;; ret (wrap64 (node_size m - npos)) | None => ret 0 end) ;;
    fuel <- gets (fun s => length (y_nodes s)) ;;
    bs <- file_loop (S fuel) cur npos ncap size ;;
    ret (true, bs).

(** [readFromFile]: what each [ifs.read] gave and whether [eof] is then true; [false] when
    the loop is still reading after that. *)
Fixpoint file_reads (reads : list (list byte * bool)) : Op bool :=
  match reads with
  | [] => ret false
  | (bs, eof) :: reads => write bs ;;; if eof then ret true else file_reads reads
  end.

Definition readFromFile (open_ : bool) (reads : list (list byte * bool)) : Op (option bool) :=
  if negb open_ then ret (Some false) else ended <- file_reads reads ;; ret (if ended then Some true else None).
End bytearray.

(** ** Rounding is exact for what fits in memory *)

Lemma rne_le a b c : 0 < b -> a <= c * b -> rne a b <= c.
Proof.
  intros Hb Ha. unfold rne. pose proof (Z_div_mod_eq_full a b). pose proof (Z.mod_pos_bound a b Hb).
  assert (a / b <= c) by (apply Z.div_le_upper_bound; lia).
  btest (2 * (a mod b) <? b); [lia|]. btest ((2 * (a mod b) =? b) && Z.even (a / b)); [lia|]. nia.
Qed.

Lemma rne_gt a b c : 0 < b -> (2 * c + 1) * b < 2 * a -> c < rne a b.
Proof.
  intros Hb Ha. unfold rne. pose proof (Z_div_mod_eq_full a b). pose proof (Z.mod_pos_bound a b Hb).
  btest (2 * (a mod b) <? b); [nia|]. btest ((2 * (a mod b) =? b) && Z.even (a / b)); [nia|]. nia.
Qed.

Lemma dbl_of_exact n : 0 <= n < 2 ^ 53 -> dbl_of n = n.
Proof.
  intros H. unfold dbl_of. destruct (decide (n = 0)) as [->|]; [done|].
  assert (Z.log2 n < 53) by (apply Z.log2_lt_pow2; lia). btest (Z.log2 n - 52 <=? 0); lia.
Qed.

Lemma ceil_div_exact n d : 0 < n < 2 ^ 53 -> 0 < d < 2 ^ 53 -> ceil_div n d = (n + d - 1) / d.
Proof.
  intros Hn Hd. unfold ceil_div. rewrite !dbl_of_exact by lia. btest (n =? 0); [lia|]. btest (n <? d).
  { apply (Z.div_unique _ _ 1 (n - 1)); lia. }
  assert (Hq : 0 < n / d) by (apply Z.div_str_pos; lia). pose proof (Z.log2_spec (n / d) Hq) as [HL1 HL2].
  pose proof (Z.log2_nonneg (n / d)). set (L := Z.log2 (n / d)) in *. rewrite Z.pow_succ_r in HL2 by lia.
  assert (Hdn : d * 2 ^ L <= n) by (etrans; [|apply (Z.mul_div_le n d)]; nia).
  btest (0 <=? L - 52).
  - assert (2 ^ 52 <= 2 ^ L) by (apply Z.pow_le_mono_r; lia). assert (d = 1) as -> by nia.
    assert (L = 52) as ->. { assert (L < 53); [|lia]. apply (Z.pow_lt_mono_r_iff 2); lia. }
    cbn [Z.sub Z.opp Z.add Z.pos_sub Z.pow]. rewrite !Z.mul_1_r, Z.div_1_r.
    apply Z.le_antisymm; [apply rne_le; lia|]. assert (n - 1 < rne n 1); [apply rne_gt; lia|]. lia.
  - replace (- (L - 52)) with (52 - L) by lia. set (k := 2 ^ (52 - L)).
    assert (Hk : 0 < k) by (apply Z.pow_pos_nonneg; lia).
    assert (Hkd : d < 2 * k).
    { unfold k. rewrite <- Z.pow_succ_r by lia. replace (Z.succ (52 - L)) with (53 - L) by lia.
      apply (Z.mul_lt_mono_pos_r (2 ^ L)); [by apply Z.pow_pos_nonneg|]. rewrite <- Z.pow_add_r by lia.
      replace (53 - L + L) with 53 by lia. lia. }
    set (c := (n + d - 1) / d). pose proof (Z_div_mod_eq_full (n + d - 1) d) as E. fold c in E.
    pose proof (Z.mod_pos_bound (n + d - 1) d).
    assert (rne (n * k) d <= c * k) by (apply rne_le; nia).
    assert ((c - 1) * k < rne (n * k) d) by (apply rne_gt; nia).
    symmetry. apply (Z.div_unique _ _ c (rne (n * k) d - (c - 1) * k - 1)); nia.
Qed.

(** ** Flat memory *)

Definition slice (m : list byte) (p n : Z) : list byte := take (Z.to_nat n) (drop (Z.to_nat p) m).

Lemma slice_add m p a b : 0 <= p -> 0 <= a -> 0 <= b -> slice m p (a + b) = slice m p a ++ slice m (p + a) b.
Proof.
  intros. unfold slice. rewrite !Z2Nat.inj_add by lia. rewrite <- drop_drop. symmetry. apply take_take_drop.
Qed.

Lemma cut_nothing m p : slice m p 0 = [].
Proof. done. Qed.

Lemma length_cut m p n : 0 <= p -> 0 <= n -> p + n <= Z.of_nat (length m) -> Z.of_nat (length (slice m p n)) = n.
Proof. intros. unfold slice. rewrite length_take, length_drop. lia. Qed.

Lemma length_splice m p bs : 0 <= p -> p + Z.of_nat (length bs) <= Z.of_nat (length m) -> length (splice m p bs) = length m.
Proof. intros. unfold splice. rewrite !length_app, length_take, length_drop. lia. Qed.

Lemma splice_nil m p : splice m p [] = m.
Proof. unfold splice. rewrite Nat.add_0_r. cbn. apply take_drop. Qed.

Lemma splice_splice m p a b : 0 <= p <= Z.of_nat (length m) ->
  splice (splice m p a) (p + Z.of_nat (length a)) b = splice m p (a ++ b).
Proof.
  intros. unfold splice. rewrite !Z2Nat.inj_add, !Nat2Z.id by lia. rewrite (app_assoc (take _ m)).
  assert (L : length (take (Z.to_nat p) m ++ a) = (Z.to_nat p + length a)%nat) by (rewrite length_app, length_take; lia).
  rewrite take_app_length' by done. rewrite drop_app_ge by lia. rewrite drop_drop, <- !app_assoc, length_app.
  do 4 f_equal. rewrite length_take, length_app. lia.
Qed.

Lemma slice_splice m p bs : 0 <= p -> p + Z.of_nat (length bs) <= Z.of_nat (length m) ->
  slice (splice m p bs) p (Z.of_nat (length bs)) = bs.
Proof.
  intros. unfold slice, splice. rewrite Nat2Z.id. rewrite drop_app_length' by (rewrite length_take; lia). apply take_app_length.
Qed.

Lemma slice_mid A n C at_ k : 0 <= at_ -> 0 <= k -> at_ + k <= Z.of_nat (length n) ->
  slice (A ++ n ++ C) (Z.of_nat (length A) + at_) k = slice n at_ k.
Proof.
  intros. unfold slice. rewrite Z2Nat.inj_add, Nat2Z.id by lia. rewrite <- drop_drop, drop_app_length.
  rewrite drop_app_le by lia. rewrite take_app_le by (rewrite length_drop; lia). done.
Qed.

Lemma splice_mid A n C at_ bs : 0 <= at_ -> at_ + Z.of_nat (length bs) <= Z.of_nat (length n) ->
  splice (A ++ n ++ C) (Z.of_nat (length A) + at_) bs = A ++ splice n at_ bs ++ C.
Proof.
  intros. unfold splice. rewrite Z2Nat.inj_add, Nat2Z.id by lia. rewrite take_app_add.
  rewrite take_app_le by lia. rewrite <- !app_assoc. do 3 f_equal. rewrite <- Nat.add_assoc, <- drop_drop, drop_app_length.
  apply drop_app_le. lia.
Qed.

(** ** The chain *)

(** Blocks of one size, as many as the capacity says. *)
Record chained (base capacity : Z) (nodes : list Node) : Prop := {
  ch_base : 0 < base;
  ch_nodes : Forall (fun n => node_size n = base) nodes;
  ch_capacity : capacity = base * Z.of_nat (length nodes);
  ch_memory : capacity < 2 ^ 48 }.

(** The block position [p] is in, null at the end. *)
Definition block_at (base capacity p : Z) : option nat := if p <? capacity then Some (Z.to_nat (p / base)) else None.

(** All but the pointer to the block the position is in. *)
Record shaped (s : ByteArray) : Prop := {
  sh_chain : chained (y_baseSize s) (y_capacity s) (y_nodes s);
  sh_root : y_nodes s <> [];
  sh_position : 0 <= y_position s <= y_size s;
  sh_size : y_size s <= y_capacity s }.

Record wf (s : ByteArray) : Prop := {
  wf_chain : chained (y_baseSize s) (y_capacity s) (y_nodes s);
  wf_root : y_nodes s <> [];
  wf_position : 0 <= y_position s <= y_size s;
  wf_size : y_size s <= y_capacity s;
  wf_cur : y_cur s = block_at (y_baseSize s) (y_capacity s) (y_position s) }.

Lemma wf_shaped s : wf s -> shaped s.
Proof. intros []. by split. Qed.
Coercion wf_shaped : wf >-> shaped.
#[export] Hint Extern 0 (shaped _) => solve [apply wf_shaped; assumption] : core.

Definition mem (s : ByteArray) : list byte := concat (y_nodes s).
#[global] Arguments mem : simpl never.
#[global] Arguments slice : simpl never.
#[global] Arguments splice : simpl never.

Lemma length_blocks base (nodes : list Node) : Forall (fun n => node_size n = base) nodes ->
  Z.of_nat (length (concat nodes)) = base * Z.of_nat (length nodes).
Proof.
  induction 1 as [|n l Hn _ IH]; cbn [concat length]; [lia|]. unfold node_size in Hn. rewrite length_app. lia.
Qed.

Section chain.
Context (base capacity : Z) (nodes : list Node) (CH : chained base capacity nodes).

Lemma chain_length : Z.of_nat (length (concat nodes)) = capacity.
Proof. destruct CH as [_ H -> _]. by apply length_blocks. Qed.

(** Where position [p] is. *)
Lemma chain_at p : 0 <= p < capacity -> exists n,
  nodes !! Z.to_nat (p / base) = Some n /\ node_size n = base /\
  p = Z.of_nat (Z.to_nat (p / base)) * base + p mod base /\ 0 <= p mod base < base /\
  (Z.to_nat (p / base) < length nodes)%nat.
Proof.
  intros Hp. destruct CH as [Hb HF Hc _]. pose proof (Z_div_mod_eq_full p base). pose proof (Z.mod_pos_bound p base Hb).
  assert (0 <= p / base) by (apply Z.div_pos; lia).
  assert (p / base < Z.of_nat (length nodes)) by (apply Z.div_lt_upper_bound; lia).
  assert (Hi : (Z.to_nat (p / base) < length nodes)%nat) by lia.
  destruct (lookup_lt_is_Some_2 nodes (Z.to_nat (p / base)) Hi) as (n & Hn). exists n. split_and!; try done; [|lia..].
  rewrite Forall_forall in HF. apply HF. by apply list_elem_of_lookup_2 in Hn.
Qed.

Lemma chain_split i n : nodes !! i = Some n ->
  exists A C, concat nodes = A ++ n ++ C /\ Z.of_nat (length A) = Z.of_nat i * base /\
    forall n', concat (<[i := n']> nodes) = A ++ n' ++ C.
Proof.
  intros Hn. exists (concat (take i nodes)), (concat (drop (S i) nodes)). pose proof (lookup_lt_Some _ _ _ Hn).
  split_and!.
  - rewrite <- (take_drop_middle nodes i n Hn) at 1. by rewrite concat_app.
  - rewrite (length_blocks base) by (apply Forall_take; by destruct CH). rewrite length_take. lia.
  - intros n'. rewrite insert_take_drop by done. by rewrite concat_app.
Qed.

(** The block after the one [p] is in. *)
Lemma chain_next p : 0 <= p < capacity ->
  let q := p - p mod base + base in
  (if (S (Z.to_nat (p / base)) <? length nodes)%nat then Some (S (Z.to_nat (p / base))) else None) = block_at base capacity q
  /\ q mod base = 0 /\ p < q <= capacity.
Proof.
  intros Hp q. destruct (chain_at p Hp) as (n & _ & _ & E & Hm & Hi). destruct CH as [Hb _ Hc _].
  assert (0 <= p / base) by (apply Z.div_pos; lia).
  assert (Eq : q = (p / base + 1) * base) by (unfold q; lia).
  unfold block_at. rewrite Eq, Z.div_mul by lia. split_and!; [|by apply Z.mod_mul; lia|nia..].
  btest (S (Z.to_nat (p / base)) <? length nodes)%nat; btest ((p / base + 1) * base <? capacity); [|nia|nia|done].
  f_equal. lia.
Qed.

Lemma block_same p n : 0 <= p -> 0 <= n -> p mod base + n < base -> p + n < capacity ->
  block_at base capacity (p + n) = Some (Z.to_nat (p / base)).
Proof.
  intros Hp Hn Hm Hc. unfold block_at. btest (p + n <? capacity); [|lia]. do 2 f_equal. destruct CH as [Hb _ _ _].
  symmetry. apply (Z.div_unique _ _ _ (p mod base + n)); [pose proof (Z.mod_pos_bound p base Hb); lia|].
  pose proof (Z_div_mod_eq_full p base). lia.
Qed.
End chain.

Lemma chained_insert base capacity nodes i n n' : chained base capacity nodes -> nodes !! i = Some n -> length n' = length n ->
  chained base capacity (<[i := n']> nodes).
Proof.
  intros [Hb HF Hc Hm] Hn E. split; [done| |by rewrite length_insert|done].
  apply Forall_insert; [done|]. unfold node_size. rewrite E. rewrite Forall_forall in HF. apply (HF n). by apply list_elem_of_lookup_2 in Hn.
Qed.

Section steps.
Context {HP : Heap}.

Lemma deref_ok s i n : y_nodes s !! i = Some n -> deref (Some i) s = OK n s.
Proof. intros H. unfold deref. cbn. by rewrite H. Qed.

(** Reading at [p], up to the end of its block. *)
Lemma load_ok s p n : chained (y_baseSize s) (y_capacity s) (y_nodes s) -> 0 <= p < y_capacity s -> 0 <= n ->
  p mod y_baseSize s + n <= y_baseSize s ->
  load (block_at (y_baseSize s) (y_capacity s) p) (p mod y_baseSize s) n s = OK (slice (mem s) p n) s.
Proof.
  intros CH Hp Hn Hl. destruct (chain_at _ _ _ CH p Hp) as (b & Hb & Eb & Ep & Hm & _).
  destruct (chain_split _ _ _ CH _ _ Hb) as (A & C & E & EA & _).
  unfold load, bind, block_at. btest (p <? y_capacity s); [|lia]. rewrite (deref_ok _ _ _ Hb), Eb.
  btest (0 <=? p mod y_baseSize s); [|lia]. btest (0 <=? n); [|lia]. btest (p mod y_baseSize s + n <=? y_baseSize s); [|lia]. cbn [andb].
  unfold ret. f_equal. unfold mem. rewrite E. symmetry. rewrite Ep at 1. rewrite <- EA. apply slice_mid; unfold node_size in Eb; lia.
Qed.

Lemma store_ok s p bs : chained (y_baseSize s) (y_capacity s) (y_nodes s) -> 0 <= p < y_capacity s ->
  p mod y_baseSize s + Z.of_nat (length bs) <= y_baseSize s ->
  exists nodes, store (block_at (y_baseSize s) (y_capacity s) p) (p mod y_baseSize s) bs s = OK tt (s <| y_nodes := nodes |>) /\
    chained (y_baseSize s) (y_capacity s) nodes /\ length nodes = length (y_nodes s) /\ concat nodes = splice (mem s) p bs.
Proof.
  intros CH Hp Hl. destruct (chain_at _ _ _ CH p Hp) as (b & Hb & Eb & Ep & Hm & _).
  destruct (chain_split _ _ _ CH _ _ Hb) as (A & C & E & EA & E').
  unfold store, bind, block_at. btest (p <? y_capacity s); [|lia]. rewrite (deref_ok _ _ _ Hb), Eb.
  btest (0 <=? p mod y_baseSize s); [|lia]. btest (p mod y_baseSize s + Z.of_nat (length bs) <=? y_baseSize s); [|lia]. cbn [andb].
  eexists. split; [reflexivity|]. unfold node_size in Eb. split_and!.
  - apply (chained_insert _ _ _ _ b); [done..|]. apply length_splice; lia.
  - apply length_insert.
  - rewrite E'. unfold mem. rewrite E. symmetry. rewrite Ep at 1. rewrite <- EA. apply splice_mid; lia.
Qed.

Lemma next_ok s p : chained (y_baseSize s) (y_capacity s) (y_nodes s) -> 0 <= p < y_capacity s ->
  next_of (block_at (y_baseSize s) (y_capacity s) p) s
  = OK (block_at (y_baseSize s) (y_capacity s) (p - p mod y_baseSize s + y_baseSize s)) s.
Proof.
  intros CH Hp. destruct (chain_at _ _ _ CH p Hp) as (_ & _ & _ & _ & _ & Hi). destruct (chain_next _ _ _ CH p Hp) as (E & _).
  unfold block_at at 1. btest (p <? y_capacity s); [|lia]. unfold next_of.
  rewrite (proj2 (Nat.ltb_lt _ _) Hi). by rewrite E.
Qed.

Lemma deref_at s p : chained (y_baseSize s) (y_capacity s) (y_nodes s) -> 0 <= p < y_capacity s ->
  exists n, deref (block_at (y_baseSize s) (y_capacity s) p) s = OK n s /\ node_size n = y_baseSize s.
Proof.
  intros CH Hp. destruct (chain_at _ _ _ CH p Hp) as (n & Hn & E & _). exists n. split; [|done].
  unfold block_at. btest (p <? y_capacity s); [|lia]. by apply deref_ok.
Qed.

#[local] Abbreviation B s := (y_baseSize s).
#[local] Abbreviation K s := (y_capacity s).

(** A block ends no later than the chain. *)
Lemma block_ends base capacity nodes p : chained base capacity nodes -> 0 <= p < capacity -> p - p mod base + base <= capacity.
Proof. intros CH Hp. destruct (chain_next _ _ _ CH p Hp) as (_ & _ & ?). lia. Qed.

(** The turn of a loop that goes on to the next block. *)
Lemma to_next_block base capacity nodes p size : chained base capacity nodes -> 0 <= p < capacity -> p + size <= capacity ->
  base - p mod base < size ->
  let q := p - p mod base + base in q mod base = 0 /\ p < q < capacity /\ q = p + (base - p mod base) /\ q + (size - (base - p mod base)) = p + size.
Proof. intros CH Hp Hs Hn q. destruct (chain_next _ _ _ CH p Hp) as (_ & E & Hq). fold q in E, Hq. unfold q in *. lia. Qed.

Lemma read_loop_ok s fuel p size : chained (y_baseSize s) (y_capacity s) (y_nodes s) -> 0 <= p < y_capacity s -> 0 <= size ->
  p + size <= y_capacity s -> y_capacity s - (p - p mod y_baseSize s) <= y_baseSize s * Z.of_nat fuel ->
  read_loop fuel (block_at (y_baseSize s) (y_capacity s) p) (p mod y_baseSize s) (y_baseSize s - p mod y_baseSize s) size s
  = OK (slice (mem s) p size, block_at (y_baseSize s) (y_capacity s) (p + size)) s.
Proof.
  intros CH. revert p size. induction fuel as [|fuel IH]; intros p size Hp Hs Hl Hf;
    (pose proof (Z.mod_pos_bound p (y_baseSize s) (ch_base _ _ _ CH)) as Hm; cbn [read_loop]);
    (btest (size =? 0); [subst size; rewrite cut_nothing, Z.add_0_r; done|]); [lia|].
  btest (size <=? B s - p mod B s); unfold bind.
  - rewrite load_ok by (lia || done). destruct (deref_at s p CH Hp) as (n & En & Hn). rewrite En, Hn.
    btest (B s =? p mod B s + size).
    + rewrite next_ok by (lia || done). unfold ret. do 3 f_equal. lia.
    + unfold ret. do 2 f_equal. destruct (decide (p + size < K s)).
      * rewrite (block_same (B s) (K s) (y_nodes s) CH) by lia. unfold block_at. btest (p <? K s); [done|lia].
      * exfalso. pose proof (block_ends (B s) (K s) (y_nodes s) p CH). lia.
  - destruct (to_next_block (B s) (K s) (y_nodes s) p size CH) as (Eq & Hq & Eq2 & Eq3); [lia..|].
    rewrite load_ok by (lia || done). rewrite next_ok by (lia || done).
    set (q := p - p mod B s + B s) in *. destruct (deref_at s q CH) as (n & En & Hn); [lia|].
    rewrite En, Hn. specialize (IH q (size - (B s - p mod B s))). rewrite Eq, !Z.sub_0_r in IH. rewrite IH by lia.
    unfold ret. cbn [fst snd]. rewrite Eq3. do 2 f_equal.
    rewrite Eq2, <- slice_add by lia. f_equal. lia.
Qed.

(** The state after bytes went into the chain: as before but for the memory and the position. *)
Record moved (s s' : ByteArray) (p' : Z) (m' : list byte) : Prop := {
  mv_chain : chained (B s) (K s) (y_nodes s');
  mv_base : B s' = B s;
  mv_capacity : K s' = K s;
  mv_size : y_size s' = y_size s;
  mv_endian : y_endian s' = y_endian s;
  mv_position : y_position s' = p';
  mv_cur : y_cur s' = block_at (B s) (K s) p';
  mv_mem : mem s' = m' }.

Lemma write_loop_ok fuel s p buf : chained (B s) (K s) (y_nodes s) -> 0 <= p < K s -> p + Z.of_nat (length buf) <= K s ->
  y_position s = p -> y_cur s = block_at (B s) (K s) p -> K s - (p - p mod B s) <= B s * Z.of_nat fuel ->
  exists s', write_loop fuel (p mod B s) (B s - p mod B s) buf s = OK tt s' /\
    moved s s' (p + Z.of_nat (length buf)) (splice (mem s) p buf).
Proof.
  revert s p buf. induction fuel as [|fuel IH]; intros s p buf CH Hp Hl Ep Ec Hf;
    (pose proof (Z.mod_pos_bound p (B s) (ch_base _ _ _ CH)) as Hm; cbn [write_loop]);
    (btest (Z.of_nat (length buf) =? 0);
     [exists s; split; [done|]; destruct buf as [|b0 buf]; [|cbn [length] in *; lia]; rewrite splice_nil;
      split; rewrite ?Z.add_0_r; done|]); [lia|].
  pose proof (ch_memory _ _ _ CH). unfold bind at 1, gets at 1. rewrite Ec. btest (Z.of_nat (length buf) <=? B s - p mod B s).
  - destruct (store_ok s p buf CH Hp) as (N & E & CN & LN & EN); [lia|]. unfold bind at 1. rewrite E.
    set (s1 := s <| y_nodes := N |>). destruct (deref_at s1 p CN Hp) as (n & En & Hn). unfold bind at 1. cbn [y_baseSize y_capacity s1] in *.
    change (B s1) with (B s) in *. change (K s1) with (K s) in *.
    rewrite En, Hn. unfold bind. btest (B s =? p mod B s + Z.of_nat (length buf)).
    + pose proof (next_ok s1 p CN Hp) as E1. change (B s1) with (B s) in E1. change (K s1) with (K s) in E1. rewrite E1.
      unfold modify. eexists. split; [reflexivity|]. split; cbn; try done.
      * rewrite Ep. apply wrap64_id. unfold is_u64. lia.
      * f_equal. lia.
    + unfold ret, modify. eexists. split; [reflexivity|]. split; cbn; try done.
      * rewrite Ep. apply wrap64_id. unfold is_u64. lia.
      * rewrite Ec. pose proof (block_ends (B s) (K s) (y_nodes s) p CH Hp).
        rewrite (block_same (B s) (K s) (y_nodes s) CH) by lia. unfold block_at. btest (p <? K s); [done|lia].
  - destruct (to_next_block (B s) (K s) (y_nodes s) p (Z.of_nat (length buf)) CH) as (Eq & Hq & Eq2 & Eq3); [lia..|].
    set (now := take (Z.to_nat (B s - p mod B s)) buf). set (rest := drop (Z.to_nat (B s - p mod B s)) buf).
    assert (Ln : Z.of_nat (length now) = B s - p mod B s) by (unfold now; rewrite length_take; lia).
    assert (Lr : Z.of_nat (length rest) = Z.of_nat (length buf) - (B s - p mod B s)) by (unfold rest; rewrite length_drop; lia).
    destruct (store_ok s p now CH Hp) as (N & E & CN & LN & EN); [lia|]. unfold bind at 1. rewrite E.
    unfold bind at 1, modify at 1. set (s1 := _ <| y_position := _ |>).
    pose proof (next_ok s1 p CN Hp) as E1. change (B s1) with (B s) in E1. change (K s1) with (K s) in E1.
    unfold bind at 1. rewrite E1. unfold bind at 1, modify at 1. set (q := p - p mod B s + B s) in *. set (s2 := _ <| y_cur := _ |>).
    assert (C2 : chained (B s2) (K s2) (y_nodes s2)) by done.
    destruct (deref_at s2 q C2) as (n & En & Hn); [change (K s2) with (K s); lia|]. change (B s2) with (B s) in En, Hn. change (K s2) with (K s) in En.
    unfold bind at 1. rewrite En, Hn.
    destruct (IH s2 q rest C2) as (s' & E' & M); change (B s2) with (B s) in *; change (K s2) with (K s) in *; try lia; try done.
    { cbn. rewrite Ep. rewrite wrap64_id by (unfold is_u64; lia). lia. }
    rewrite Eq, Z.sub_0_r in E'. exists s'. split; [exact E'|]. destruct M. split; try done.
    + rewrite mv_position0. lia.
    + rewrite mv_cur0. cbn. f_equal. lia.
    + rewrite mv_mem0. change (mem s2) with (concat N). rewrite EN. pose proof (chain_length _ _ _ CH). fold (mem s) in *.
      replace q with (p + Z.of_nat (length now)) by lia. rewrite splice_splice by lia. f_equal. apply take_drop.
Qed.

(** ** What a byte array stands for *)

(** The bytes written so far, the position, the byte order. *)
Record View := mkView { v_data : list byte; v_pos : Z; v_endian : Z }.

Definition view (s : ByteArray) : View := mkView (slice (mem s) 0 (y_size s)) (y_position s) (y_endian s).

(** Blocks more. *)
Record grown (s s' : ByteArray) (k : nat) : Prop := {
  gr_chain : chained (B s') (K s') (y_nodes s');
  gr_base : B s' = B s;
  gr_capacity : K s' = K s + B s * Z.of_nat k;
  gr_size : y_size s' = y_size s;
  gr_endian : y_endian s' = y_endian s;
  gr_position : y_position s' = y_position s;
  gr_cur : y_cur s' = y_cur s;
  gr_mem : exists junk, mem s' = mem s ++ junk }.

Lemma add_nodes_ok count s : chained (B s) (K s) (y_nodes s) ->
  match add_nodes count s with
  | OK _ s' => grown s s' count
  | THROW e s' => e = BAD_ALLOC /\ exists k, (k < count)%nat /\ grown s s' k
  | CRASH => False
  end.
Proof.
  revert s. induction count as [|count IH]; intros s CH; cbn [add_nodes].
  { split; try done; [lia|]. exists []. by rewrite app_nil_r. }
  destruct (new_char _ _ _) as [n|] eqn:En.
  2: { split; [done|]. exists O. split; [lia|]. split; try done; [lia|]. exists []. by rewrite app_nil_r. }
  apply new_char_length in En as [En Em]. destruct CH as [Hb HF Hc Hm]. set (s1 := _ <| y_capacity := _ |>).
  assert (EK : K s1 = K s + B s) by (cbn; apply wrap64_id; unfold is_u64; lia).
  assert (C1 : chained (B s1) (K s1) (y_nodes s1)).
  { rewrite EK. change (B s1) with (B s). change (y_nodes s1) with (y_nodes s ++ [n]). split; [done| | |lia].
    - apply Forall_app. split; [done|]. by constructor.
    - rewrite length_app. cbn [length]. lia. }
  assert (H1 : forall s' k, grown s1 s' k -> grown s s' (S k)).
  { intros s' k [G1 G2 G3 G4 G5 G6 G7 [junk G8]]. split; try done; [rewrite G3, EK; change (B s1) with (B s); lia|].
    exists (n ++ junk). rewrite G8. change (mem s1) with (concat (y_nodes s ++ [n])). rewrite concat_app. cbn.
    by rewrite app_nil_r, <- app_assoc. }
  specialize (IH s1 C1). destruct (add_nodes count s1) as [[] s'|e s'|]; [by apply H1| |done].
  destruct IH as (-> & k & Hk & G). split; [done|]. exists (S k). split; [lia|by apply H1].
Qed.

Lemma getCapacity_ok s : shaped s -> getCapacity s = K s - y_position s.
Proof. intros []. unfold getCapacity. pose proof (ch_memory _ _ _ sh_chain0). apply wrap64_id. unfold is_u64. lia. Qed.

Lemma getReadSize_ok s : shaped s -> getReadSize s = y_size s - y_position s.
Proof. intros []. unfold getReadSize. pose proof (ch_memory _ _ _ sh_chain0). apply wrap64_id. unfold is_u64. lia. Qed.

Lemma slice_prefix m junk p n : 0 <= p -> 0 <= n -> p + n <= Z.of_nat (length m) -> slice (m ++ junk) p n = slice m p n.
Proof. intros. unfold slice. rewrite drop_app_le by lia. apply take_app_le. rewrite length_drop. lia. Qed.

Lemma grown_view s s' k : shaped s -> grown s s' k -> view s' = view s.
Proof.
  intros W [G1 G2 G3 G4 G5 G6 G7 [junk G8]]. unfold view. rewrite G4, G5, G6, G8. destruct W. rewrite slice_prefix; [done|lia..|].
  unfold mem. rewrite (chain_length _ _ _ sh_chain0). lia.
Qed.

(** What running out of memory may leave: a full chain got blocks, but the pointer to the
    first of them was not set. Every call finds the array [sound]. *)
Record stranded (s : ByteArray) : Prop := {
  st_shaped : shaped s;
  st_cur : y_cur s = None;
  st_end : y_position s = y_size s;
  st_room : y_position s < K s }.

Definition sound (s : ByteArray) : Prop := wf s \/ stranded s.

Lemma grown_shaped s s' k : shaped s -> grown s s' k -> shaped s'.
Proof.
  intros [[Hb _ Hk _] Hr Hp Hs] [G1 G2 G3 G4 G5 G6 G7 _]. split; [done| |by rewrite G4, G6|rewrite G3, G4; nia].
  intros E. rewrite E in G1. destruct G1 as [? _ E1 _]. cbn in E1. destruct (y_nodes s); [done|]. cbn [length] in Hk. nia.
Qed.

Lemma grown_sound s s' k : wf s -> grown s s' k -> sound s'.
Proof.
  intros W G. pose proof (grown_shaped s s' k W G) as S'. destruct W as [[Hb _ _ _] _ Hp Hs Hc]. pose proof S' as [C' R' P' Z'].
  destruct G as [G1 G2 G3 G4 G5 G6 G7 _]. unfold block_at in Hc. btest (y_position s <? K s).
  - left. split; try done. rewrite G7, Hc, G6, G2. unfold block_at. btest (y_position s <? K s'); [done|nia].
  - destruct (decide (k = O)) as [->|Hk]; [left|right]; split; try done; rewrite ?G7, ?G6, ?G4, ?G3, ?Hc; try done; try nia.
    unfold block_at. by btest (y_position s <? K s + B s * Z.of_nat 0); [lia|].
Qed.

Lemma grown_stranded s s' k : stranded s -> grown s s' k -> stranded s'.
Proof.
  intros [Hs Hc He Hr] G. pose proof (grown_shaped s s' k Hs G) as S'. destruct Hs as [[Hb _ _ _] _ _ _].
  destruct G as [G1 G2 G3 G4 G5 G6 G7 _]. split; [done|congruence..|]. rewrite G6, G3. nia.
Qed.

(** There is room for [n] bytes more, in as few blocks as hold them. *)
Record roomy (s s' : ByteArray) (n : Z) : Prop := {
  ro_wf : wf s';
  ro_base : B s' = B s;
  ro_view : view s' = view s;
  ro_size : y_size s' = y_size s;
  ro_room : y_position s + n <= K s';
  ro_mem : exists junk, mem s' = mem s ++ junk;
  ro_least : K s' = Z.max (K s) (B s * ((y_position s + n + B s - 1) / B s)) }.

Lemma roomy_refl s n : wf s -> y_position s + n <= K s -> roomy s s n.
Proof.
  intros W H. split; try done; [exists []; by rewrite app_nil_r|]. destruct W as [[Hb _ Hc _] _ _ _ _]. symmetry. apply Z.max_l.
  set (a := y_position s + n) in *. assert ((a + B s - 1) / B s <= Z.of_nat (length (y_nodes s))); [|nia].
  assert ((a + B s - 1) / B s < Z.of_nat (length (y_nodes s)) + 1); [|lia]. apply Z.div_lt_upper_bound; lia.
Qed.

Lemma addCapacity_ok s n : wf s -> 0 < n < 2 ^ 53 ->
  match addCapacity n s with
  | OK _ s' => roomy s s' n
  | THROW e s' => e = BAD_ALLOC /\ view s' = view s /\ sound s'
  | CRASH => False
  end.
Proof.
  intros W Hn. unfold addCapacity, gets, bind. btest (n =? 0); [lia|]. rewrite getCapacity_ok by done.
  btest (n <=? K s - y_position s); [apply roomy_refl; [done|lia]|].
  pose proof W as [CH Hr Hp Hs Hc]. pose proof CH as [Hb HF Ec Hm]. set (need := n - (K s - y_position s)).
  assert (Hneed : 0 < need < 2 ^ 53) by (unfold need; lia).
  assert (B s <= K s) by (destruct (y_nodes s); [done|cbn [length] in Ec; nia]).
  rewrite ceil_div_exact by lia. set (count := (need + B s - 1) / B s).
  assert (Hcount : 0 < count) by (apply Z.div_str_pos; lia).
  pose proof (add_nodes_ok (Z.to_nat count) s CH) as G. destruct (add_nodes _ s) as [[] s'|e s'|]; [| |done].
  2: { destruct G as (-> & k & _ & G). split; [done|]. split; [by apply (grown_view s s' k)|by apply (grown_sound s s' k)]. }
  pose proof (grown_view s s' _ W G) as EV. pose proof G as [G1 G2 G3 G4 G5 G6 G7 G8].
  assert (EK : K s' = B s * ((y_position s + n + B s - 1) / B s)).
  { rewrite G3, Ec, Z2Nat.id by lia. rewrite <- Z.mul_add_distr_l. f_equal. unfold count, need. rewrite Ec.
    rewrite <- Z.div_add_l by lia. f_equal. lia. }
  assert (Hroom : y_position s + n <= K s').
  { pose proof (Z_div_mod_eq_full (need + B s - 1) (B s)). fold count in H. pose proof (Z.mod_pos_bound (need + B s - 1) (B s) Hb).
    rewrite G3. unfold need in *. lia. }
  assert (Hroot : y_nodes s' <> []).
  { intros E. rewrite E in G1. destruct G1 as [_ _ E1 _]. cbn in E1. lia. }
  assert (Emax : K s' = Z.max (K s) (B s * ((y_position s + n + B s - 1) / B s))) by (rewrite <- EK; lia).
  btest (K s - y_position s =? 0).
  - unfold modify. btest (Z.to_nat count =? 0)%nat; [lia|]. split; try done. split; cbn; try done; try (rewrite ?G4, ?G6; lia).
    unfold block_at. rewrite G6, G2. btest (y_position s <? K s'); [|lia]. f_equal.
    replace (y_position s) with (Z.of_nat (length (y_nodes s)) * B s) by lia. rewrite Z.div_mul by lia. by rewrite Nat2Z.id.
  - split; try done. split; try done; try (rewrite ?G4, ?G6; lia). rewrite G7, Hc, G6, G2. unfold block_at.
    btest (y_position s <? K s); [|lia]. btest (y_position s <? K s'); [done|lia].
Qed.

(** A stranded array stays so, whether there is more memory or not. *)
Lemma addCapacity_stranded s n : stranded s -> 0 < n < 2 ^ 53 ->
  match addCapacity n s with
  | OK _ s' => stranded s'
  | THROW e s' => e = BAD_ALLOC /\ view s' = view s /\ sound s'
  | CRASH => False
  end.
Proof.
  intros S Hn. pose proof (st_shaped s S) as Sh. pose proof (st_room s S). unfold addCapacity, gets, bind. btest (n =? 0); [lia|].
  rewrite getCapacity_ok by done. btest (n <=? K s - y_position s); [done|].
  pose proof (add_nodes_ok (Z.to_nat (ceil_div (n - (K s - y_position s)) (B s))) s (sh_chain s Sh)) as G.
  destruct (add_nodes _ s) as [[] s'|e s'|]; [| |done].
  - btest (K s - y_position s =? 0); [lia|]. exact (grown_stranded s s' _ S G).
  - destruct G as (-> & k & _ & G). split; [done|]. split; [by apply (grown_view s s' k)|]. right. by apply (grown_stranded s s' k).
Qed.

Lemma mem_length s : shaped s -> Z.of_nat (length (mem s)) = K s.
Proof. intros []. by apply (chain_length (B s)). Qed.

Lemma length_data s : shaped s -> Z.of_nat (length (v_data (view s))) = y_size s.
Proof. intros W. pose proof (mem_length s W). destruct W. cbn. apply length_cut; lia. Qed.

(** A part of what was written is a part of the memory. *)
Lemma slice_data s p n : shaped s -> 0 <= p -> 0 <= n -> p + n <= y_size s -> slice (v_data (view s)) p n = slice (mem s) p n.
Proof.
  intros W Hp Hn Hl. pose proof (mem_length s W). destruct W. cbn. unfold slice at 2. change (Z.to_nat 0) with O. rewrite drop_0.
  rewrite <- (take_drop (Z.to_nat (y_size s)) (mem s)) at 2. symmetry. apply slice_prefix; [done..|].
  rewrite length_take. lia.
Qed.

Lemma slice_of_splice m p bs z : 0 <= p <= z -> z <= Z.of_nat (length m) -> p + Z.of_nat (length bs) <= Z.of_nat (length m) ->
  slice (splice m p bs) 0 (Z.max z (p + Z.of_nat (length bs))) = splice (slice m 0 z) p bs.
Proof.
  intros Hp Hz Hl. unfold slice, splice. change (Z.to_nat 0) with O. rewrite !drop_0.
  assert (L : length (take (Z.to_nat p) m) = Z.to_nat p) by (rewrite length_take; lia).
  rewrite take_app, L. rewrite (take_ge (take (Z.to_nat p) m)) by lia. rewrite take_app, (take_ge bs) by lia.
  rewrite take_take, Nat.min_l by lia. do 2 f_equal. rewrite skipn_firstn_comm. f_equal. lia.
Qed.

Lemma offset_ok s p : shaped s -> offset p s = OK (p mod B s) s.
Proof. intros [[? _ _ _] _ _ _]. unfold offset, bind, gets. btest (B s =? 0); [lia|done]. Qed.

(** Asking for room in one ends at the null pointer. *)
Lemma stranded_null {A} s n (k : Z -> Node -> Op A) : stranded s -> 0 < n < 2 ^ 53 ->
  match (addCapacity n ;;; position <- gets y_position ;; npos <- offset position ;; cur <- gets y_cur ;; m <- deref cur ;; k npos m) s with
  | OK _ _ => False
  | THROW e s' => e = BAD_ALLOC /\ view s' = view s /\ sound s'
  | CRASH => True
  end.
Proof.
  intros S Hn. unfold bind, gets. pose proof (addCapacity_stranded s n S Hn) as G.
  destruct (addCapacity n s) as [[] s1|e s1|]; [|done|done]. rewrite offset_ok by apply G. by rewrite (st_cur s1 G).
Qed.

(** What is left of a block. *)
Lemma rest_of_block s p : shaped s -> wrap64 (B s - p mod B s) = B s - p mod B s.
Proof.
  intros [[Hb HF Hc Hm] Hr _ _]. apply wrap64_id. unfold is_u64. pose proof (Z.mod_pos_bound p (B s) Hb).
  assert (B s <= K s) by (destruct (y_nodes s); [done|cbn [length] in Hc; nia]). lia.
Qed.

Lemma chain_fuel s p : shaped s -> 0 <= p < K s -> K s - (p - p mod B s) <= B s * Z.of_nat (length (y_nodes s)).
Proof. intros [[Hb HF Hc Hm] Hr _ _] Hp. pose proof (Z.mod_pos_bound p (B s) Hb). pose proof (Z.mod_le p (B s)). lia. Qed.

Lemma write_ok s bs : wf s -> Z.of_nat (length bs) < 2 ^ 53 ->
  match write bs s with
  | OK _ s' => wf s' /\ view s' = mkView (splice (v_data (view s)) (v_pos (view s)) bs) (v_pos (view s) + Z.of_nat (length bs)) (v_endian (view s))
               /\ K s' = Z.max (K s) (B s * ((y_position s + Z.of_nat (length bs) + B s - 1) / B s))
  | THROW e s' => e = BAD_ALLOC /\ view s' = view s /\ sound s'
  | CRASH => False
  end.
Proof.
  intros W Hl. unfold write. btest (Z.of_nat (length bs) =? 0).
  { destruct bs; [|done]. cbn. rewrite splice_nil, Z.add_0_r. split_and!; [done..|].
    pose proof (ro_least s s 0) as E. rewrite Z.add_0_r in E. apply E, roomy_refl; [done|]. destruct W. lia. }
  unfold bind at 1. pose proof (addCapacity_ok s (Z.of_nat (length bs)) W) as G. destruct (addCapacity _ s) as [[] s1|e s1|]; [|apply G; lia..].
  destruct G as [W1 EB EV ES Hroom [junk EM] EK]; [lia|]. injection EV as ED EP EE.
  assert (Hp : 0 <= y_position s1 < K s1) by (destruct W1; lia).
  unfold bind at 1, gets at 1. unfold bind at 1. rewrite offset_ok by done. unfold bind at 1, gets at 1.
  destruct (deref_at s1 (y_position s1) (wf_chain s1 W1) Hp) as (n & En & Hn). rewrite (wf_cur s1 W1).
  unfold bind at 1. rewrite En, Hn, rest_of_block by done. unfold bind at 1, gets at 1. unfold bind.
  destruct (write_loop_ok (length (y_nodes s1)) s1 (y_position s1) bs (wf_chain s1 W1)) as (s' & E & M);
    [lia|lia|done|by apply W1|by apply chain_fuel|]. rewrite E. unfold modify.
  destruct M as [M1 M2 M3 M4 M5 M6 M7 M8]. pose proof (mem_length s W) as LM. pose proof (mem_length s1 W1) as LM1.
  pose proof (wf_position s1 W1). pose proof (wf_size s1 W1).
  set (size := Z.max (y_size s) (y_position s + Z.of_nat (length bs))).
  assert (E' : (if y_size s' <? y_position s' then s' <| y_size := y_position s' |> else s') = s' <| y_size := size |>).
  { unfold size. rewrite M4, M6, ES, EP. btest (y_size s <? y_position s + Z.of_nat (length bs)).
    - by rewrite Z.max_r by lia.
    - rewrite Z.max_l by lia. rewrite <- ES, <- M4. by destruct s'. }
  rewrite E'. split; [|split].
  - split; cbn; try done; try (rewrite ?M2, ?M3, ?M6, ?M7; lia || done).
    intros E0. rewrite E0 in M1. destruct M1 as [? _ E1 _]. cbn in E1. lia.
  - transitivity (mkView (slice (mem s') 0 size) (y_position s') (y_endian s')); [done|]. cbn [view v_data v_pos v_endian]. rewrite M8, M6, M5. f_equal; [|lia|done]. unfold size. rewrite EP.
    rewrite slice_of_splice by lia. by rewrite <- ED, ES.
  - cbn. rewrite M3. done.
Qed.

(** Walking from the position of the state, and from any other. *)
Lemma read_from_ok s p n : shaped s -> 0 <= p -> 0 < n -> p + n <= y_size s ->
  read_loop (length (y_nodes s)) (block_at (B s) (K s) p) (p mod B s) (B s - p mod B s) n s
  = OK (slice (v_data (view s)) p n, block_at (B s) (K s) (p + n)) s.
Proof.
  intros W Hp Hn Hl. pose proof (sh_size s W). rewrite read_loop_ok; [|apply W|lia..|apply chain_fuel; [done|lia]].
  by rewrite slice_data by (done || lia).
Qed.

Lemma read_ok s n : wf s -> 0 <= n ->
  if y_size s - y_position s <? n then read n s = THROW OUT_OF_RANGE s
  else exists s', read n s = OK (slice (v_data (view s)) (v_pos (view s)) n) s' /\ wf s' /\
    view s' = mkView (v_data (view s)) (v_pos (view s) + n) (v_endian (view s)) /\ K s' = K s.
Proof.
  intros W Hn. pose proof (wf_position s W). pose proof (wf_size s W). unfold read, bind, gets. rewrite getReadSize_ok by done.
  btest (y_size s - y_position s <? n); [done|]. btest (n =? 0).
  { subst n. exists s. rewrite cut_nothing, Z.add_0_r. done. }
  rewrite offset_ok by done. destruct (deref_at s (y_position s) (wf_chain s W)) as (m & Em & Hm); [lia|].
  rewrite (wf_cur s W), Em, Hm, rest_of_block by done. rewrite read_from_ok by (done || lia). unfold modify, ret. cbn [fst snd].
  rewrite wrap64_id by (pose proof (ch_memory _ _ _ (wf_chain s W)); unfold is_u64; lia).
  eexists. split; [reflexivity|]. split; [|done]. destruct W. split; cbn; try done. lia.
Qed.

Lemma skipped s p : shaped s -> 0 <= p <= K s -> block_of p s = OK (Z.to_nat (p / B s)) s.
Proof.
  intros [[Hb HF Hc Hm] Hr _ _] Hp. unfold block_of, bind, gets. btest (B s =? 0); [lia|]. unfold ret. f_equal. apply Nat.min_r.
  assert (p / B s < Z.of_nat (length (y_nodes s)) + 1); [apply Z.div_lt_upper_bound; lia|]. pose proof (Z.div_pos p (B s)). lia.
Qed.

Lemma walked s k i : (i < length (y_nodes s))%nat -> (i + k < length (y_nodes s))%nat ->
  walk k (Some i) s = OK (Some (i + k)%nat) s /\ walk_safe k (Some i) s = OK (Some (i + k)%nat) s.
Proof.
  revert i. induction k as [|k IH]; intros i Hi Hk; cbn [walk walk_safe]; [by rewrite Nat.add_0_r|].
  unfold bind, next_of. rewrite (proj2 (Nat.ltb_lt _ _)) by lia. rewrite (proj2 (Nat.ltb_lt _ _)) by lia.
  replace (i + S k)%nat with (S i + k)%nat by lia. apply IH; lia.
Qed.

Lemma walk_ok s p : shaped s -> 0 <= p < K s ->
  walk (Z.to_nat (p / B s)) (Some O) s = OK (block_at (B s) (K s) p) s /\
  walk_safe (Z.to_nat (p / B s)) (Some O) s = OK (block_at (B s) (K s) p) s.
Proof.
  intros W Hp. destruct (chain_at _ _ _ (sh_chain s W) p Hp) as (_ & _ & _ & _ & _ & Hi). unfold block_at. btest (p <? K s); [|lia].
  apply (walked s _ O); lia.
Qed.

Lemma read_at_ok s n p : shaped s -> 0 <= p <= y_size s -> 0 <= n ->
  read_at n p s = if y_size s - p <? n then THROW OUT_OF_RANGE s else OK (slice (v_data (view s)) p n) s.
Proof.
  intros W Hp Hn. pose proof (sh_size s W). pose proof (ch_memory _ _ _ (sh_chain s W)). unfold read_at, bind, gets.
  rewrite wrap64_id by (unfold is_u64; lia). btest (y_size s - p <? n); [done|]. btest (n =? 0); [by subst|].
  rewrite offset_ok, skipped by (done || lia). rewrite (proj2 (walk_ok s p W ltac:(lia))).
  destruct (deref_at s p (sh_chain s W)) as (m & Em & Hm); [lia|]. rewrite Em, Hm, rest_of_block by done.
  by rewrite read_from_ok by (done || lia).
Qed.

(** A read that goes on beyond the last block. *)
Lemma read_loop_over s fuel p size : chained (B s) (K s) (y_nodes s) -> 0 <= p < K s -> K s < p + size ->
  read_loop fuel (block_at (B s) (K s) p) (p mod B s) (B s - p mod B s) size s = CRASH.
Proof.
  intros CH. revert p size. induction fuel as [|fuel IH]; intros p size Hp Hl; cbn [read_loop];
    (btest (size =? 0); [lia|]); [done|]. pose proof (Z.mod_pos_bound p (B s) (ch_base _ _ _ CH)) as Hm.
  pose proof (block_ends (B s) (K s) (y_nodes s) p CH Hp). btest (size <=? B s - p mod B s); [lia|].
  unfold bind. rewrite load_ok by (lia || done). rewrite next_ok by (lia || done).
  destruct (chain_next _ _ _ CH p Hp) as (_ & Eq & Hq). set (q := p - p mod B s + B s) in *.
  destruct (decide (q < K s)) as [Hlt|Hge].
  - destruct (deref_at s q CH) as (n & En & Hn); [lia|]. rewrite En, Hn. specialize (IH q (size - (B s - p mod B s))).
    rewrite Eq, Z.sub_0_r in IH. rewrite IH; [done|lia..].
  - unfold block_at. by btest (q <? K s); [lia|].
Qed.

Lemma walk_off s k i : (i < length (y_nodes s))%nat -> (length (y_nodes s) <= i + k)%nat -> walk_safe k (Some i) s = OK None s.
Proof.
  revert i. induction k as [|k IH]; intros i Hi Hk; [lia|]. cbn [walk_safe]. unfold bind, next_of.
  rewrite (proj2 (Nat.ltb_lt _ _)) by lia. btest (S i <? length (y_nodes s))%nat; [apply IH; lia|by destruct k].
Qed.

(** [read] from beyond the last byte written: the difference of the two sizes wraps. *)
Lemma read_at_beyond s n p : shaped s -> y_size s < p < 2 ^ 64 -> 0 <= n ->
  read_at n p s = if y_size s - p + 2 ^ 64 <? n then THROW OUT_OF_RANGE s else if n =? 0 then OK [] s
    else if p + n <=? K s then OK (slice (mem s) p n) s else CRASH.
Proof.
  intros W Hp Hn. pose proof W as [CH Hr Hpos Hs]. pose proof CH as [Hb HF Hc Hm]. unfold read_at, bind, gets.
  assert (Ew : wrap64 (y_size s - p) = y_size s - p + 2 ^ 64).
  { unfold wrap64. symmetry. apply (Z.mod_unique _ _ (-1)); lia. }
  rewrite Ew. btest (y_size s - p + 2 ^ 64 <? n); [done|]. btest (n =? 0); [done|]. rewrite offset_ok by done.
  destruct (decide (p < K s)) as [Hlt|Hge].
  - rewrite skipped by (done || lia). rewrite (proj2 (walk_ok s p W ltac:(lia))).
    destruct (deref_at s p CH) as (m & Em & Hm'); [lia|]. rewrite Em, Hm', rest_of_block by done. btest (p + n <=? K s).
    + by rewrite read_loop_ok by (done || lia || (apply chain_fuel; [done|lia])).
    + by rewrite read_loop_over by (done || lia).
  - btest (p + n <=? K s); [lia|]. unfold block_of, bind, gets. btest (B s =? 0); [lia|]. unfold ret at 1.
    assert (Z.of_nat (length (y_nodes s)) <= p / B s) by (apply Z.div_le_lower_bound; lia).
    rewrite walk_off; [done|destruct (y_nodes s); [done|cbn; lia]|lia].
Qed.

Lemma seek_ok s fuel i v : chained (B s) (K s) (y_nodes s) -> (i < length (y_nodes s))%nat -> 0 <= v -> Z.of_nat i * B s + v <= K s ->
  (length (y_nodes s) <= i + fuel)%nat ->
  seek_loop fuel v (Some i) s = OK (block_at (B s) (K s) (Z.of_nat i * B s + v)) s.
Proof.
  intros CH. pose proof CH as [Hb HF Hc Hm]. revert i v. induction fuel as [|fuel IH]; intros i v Hi Hv Hl Hf; [lia|].
  cbn [seek_loop]. destruct (lookup_lt_is_Some_2 (y_nodes s) i Hi) as (n & Hn). unfold bind. rewrite (deref_ok _ _ _ Hn).
  assert (En : node_size n = B s) by (rewrite Forall_forall in HF; apply HF; by apply list_elem_of_lookup_2 in Hn). rewrite En.
  assert (EX : next_of (Some i) s = OK (if (S i <? length (y_nodes s))%nat then Some (S i) else None) s).
  { unfold next_of. by rewrite (proj2 (Nat.ltb_lt _ _) Hi). }
  btest (B s <? v).
  - rewrite EX. btest (S i <? length (y_nodes s))%nat; [|nia]. rewrite IH by nia. do 2 f_equal. nia.
  - unfold block_at. btest (v =? B s).
    + rewrite EX. btest (S i <? length (y_nodes s))%nat; btest (Z.of_nat i * B s + v <? K s); [|nia|nia|done]. do 2 f_equal.
      replace (Z.of_nat i * B s + v) with (Z.of_nat (S i) * B s) by lia. rewrite Z.div_mul by lia. lia.
    + btest (Z.of_nat i * B s + v <? K s); [|nia]. unfold ret. do 2 f_equal. rewrite Z.add_comm, Z.div_add by lia. rewrite Z.div_small by lia. lia.
Qed.

Lemma setPosition_ok s v : shaped s -> 0 <= v ->
  if K s <? v then setPosition v s = THROW OUT_OF_RANGE s
  else exists s', setPosition v s = OK tt s' /\ wf s' /\ y_size s' = Z.max (y_size s) v /\ mem s' = mem s /\ K s' = K s /\ B s' = B s /\
    view s' = mkView (slice (mem s) 0 (Z.max (y_size s) v)) v (v_endian (view s)).
Proof.
  intros W Hv. unfold setPosition, bind, gets. btest (K s <? v); [done|]. unfold modify. pose proof W as [CH Hr Hp Hs].
  assert (E1 : (if y_size (s <| y_position := v |>) <? v then (s <| y_position := v |>) <| y_size := v |> else s <| y_position := v |>)
               = (s <| y_position := v |>) <| y_size := Z.max (y_size s) v |>).
  { change (y_size (s <| y_position := v |>)) with (y_size s). btest (y_size s <? v); [by rewrite Z.max_r by lia|].
    rewrite Z.max_l by lia. by destruct s. }
  rewrite E1. clear E1. set (s1 := (s <| y_position := v |>) <| y_size := Z.max (y_size s) v |>).
  pose proof (seek_ok s1 (length (y_nodes s1)) O v CH) as E. change (y_nodes s1) with (y_nodes s) in E. change (B s1) with (B s) in E.
  change (K s1) with (K s) in E. change (y_nodes s1) with (y_nodes s). rewrite E; try lia; [|destruct (y_nodes s); [done|cbn; lia]].
  eexists. split; [reflexivity|]. split_and!; try done. split; cbn; try done; lia.
Qed.

Lemma clear_ok s : shaped s -> exists s', clear s = OK tt s' /\ wf s' /\ view s' = mkView [] 0 (v_endian (view s)) /\ K s' = B s.
Proof.
  intros [[Hb HF Hc Hm] Hr _ _]. unfold clear. destruct (y_nodes s) as [|root rest]; [done|].
  eexists. split; [reflexivity|]. split; [|done]. cbn [length] in Hc.
  assert (B s <= K s) by nia. split; cbn; try done; try lia.
  - split; cbn; [done| |lia|lia]. inversion HF; subst. by constructor.
  - unfold block_at. btest (0 <? B s); [done|lia].
Qed.

(** ** What a view shows *)

(** The pieces of [p, p + len), block after block. *)
Fixpoint tiles (base capacity p len : Z) (iovs : list Iov) : Prop :=
  match iovs with
  | [] => len = 0
  | v :: iovs =>
      iov_node v = block_at base capacity p /\ iov_at v = p mod base /\ 0 < iov_len v <= base - p mod base /\
      0 <= p < capacity /\ p + iov_len v <= capacity /\ tiles base capacity (p + iov_len v) (len - iov_len v) iovs
  end.

Lemma peek_loop_ok s fuel p len : chained (B s) (K s) (y_nodes s) -> 0 <= p < K s -> 0 <= len -> p + len <= K s ->
  K s - (p - p mod B s) <= B s * Z.of_nat fuel ->
  exists iovs, peek_loop fuel (block_at (B s) (K s) p) (p mod B s) (B s - p mod B s) len s = OK iovs s /\ tiles (B s) (K s) p len iovs.
Proof.
  intros CH. revert p len. induction fuel as [|fuel IH]; intros p len Hp Hs Hl Hf;
    (pose proof (Z.mod_pos_bound p (B s) (ch_base _ _ _ CH)) as Hm; cbn [peek_loop]);
    (btest (len =? 0); [by exists []|]); [lia|].
  btest (len <=? B s - p mod B s).
  - eexists. split; [reflexivity|]. cbn. split_and!; done || lia.
  - destruct (to_next_block (B s) (K s) (y_nodes s) p len CH) as (Eq & Hq & Eq2 & Eq3); [lia..|].
    unfold bind. rewrite next_ok by (lia || done). set (q := p - p mod B s + B s) in *.
    destruct (deref_at s q CH) as (n & En & Hn); [lia|]. rewrite En, Hn.
    destruct (IH q (len - (B s - p mod B s))) as (iovs & E & T); [lia..|]. rewrite Eq, !Z.sub_0_r in E. rewrite E.
    eexists. split; [reflexivity|]. cbn. rewrite <- Eq2. split_and!; done || lia.
Qed.

Lemma peek_from_ok s p len : shaped s -> 0 <= p -> 0 < len -> p + len <= K s ->
  exists iovs, peek_from (block_at (B s) (K s) p) p len s = OK iovs s /\ tiles (B s) (K s) p len iovs.
Proof.
  intros W Hp Hn Hl. unfold peek_from, bind, gets. rewrite offset_ok by done.
  destruct (deref_at s p (sh_chain s W)) as (m & Em & Hm); [lia|]. rewrite Em, Hm, rest_of_block by done.
  apply peek_loop_ok; [apply W|lia..|apply chain_fuel; [done|lia]].
Qed.

(** What the kernel takes from an array of [iovec], and what it puts there. *)
Fixpoint gather (iovs : list Iov) : Op (list byte) :=
  match iovs with
  | [] => ret []
  | v :: iovs => bs <- load (iov_node v) (iov_at v) (iov_len v) ;; rest <- gather iovs ;; ret (bs ++ rest)
  end.

Fixpoint scatter (iovs : list Iov) (bs : list byte) : Op unit :=
  match bs, iovs with
  | [], _ => ret tt
  | _, [] => crash
  | _, v :: iovs =>
      store (iov_node v) (iov_at v) (take (Z.to_nat (iov_len v)) bs) ;;; scatter iovs (drop (Z.to_nat (iov_len v)) bs)
  end.

Lemma tiles_nonneg base capacity p len iovs : tiles base capacity p len iovs -> 0 <= len.
Proof.
  revert p len. induction iovs as [|v iovs IH]; intros p len; cbn; [lia|]. intros (_ & _ & ? & _ & _ & T). specialize (IH _ _ T). lia.
Qed.

Lemma gather_ok s p len iovs : chained (B s) (K s) (y_nodes s) -> 0 <= len -> tiles (B s) (K s) p len iovs ->
  gather iovs s = OK (slice (mem s) p len) s.
Proof.
  intros CH. revert p len. induction iovs as [|v iovs IH]; intros p len Hl; [by intros ->|].
  cbn [tiles gather]. intros (E1 & E2 & Hv & Hp & Hk & T). unfold bind. rewrite E1, E2, load_ok by (done || lia).
  pose proof (tiles_nonneg _ _ _ _ _ T) as Hr.
  rewrite (IH _ _ Hr T). unfold ret. f_equal. rewrite <- slice_add by lia. f_equal. lia.
Qed.

Lemma scatter_ok s p len iovs bs : chained (B s) (K s) (y_nodes s) -> tiles (B s) (K s) p len iovs -> Z.of_nat (length bs) <= len ->
  exists N, scatter iovs bs s = OK tt (s <| y_nodes := N |>) /\ chained (B s) (K s) N /\ length N = length (y_nodes s)
    /\ concat N = splice (mem s) p bs.
Proof.
  revert s p len bs. induction iovs as [|v iovs IH]; intros s p len bs CH.
  { cbn. intros -> Hb. destruct bs; [|cbn in Hb; lia]. exists (y_nodes s). rewrite splice_nil. by destruct s. }
  cbn [tiles scatter]. intros (E1 & E2 & Hv & Hp & Hk & T) Hb. destruct bs as [|b bs].
  { exists (y_nodes s). rewrite splice_nil. by destruct s. }
  set (all := b :: bs) in *. set (now := take (Z.to_nat (iov_len v)) all). set (rest := drop (Z.to_nat (iov_len v)) all).
  assert (Ln : length now = Nat.min (Z.to_nat (iov_len v)) (length all)) by apply length_take.
  assert (Lr : length rest = (length all - Z.to_nat (iov_len v))%nat) by apply length_drop.
  destruct (store_ok s p now CH) as (N & E & CN & LN & EN); [lia..|]. unfold bind. rewrite E1, E2, E. set (s1 := s <| y_nodes := N |>).
  pose proof (tiles_nonneg _ _ _ _ _ T).
  destruct (IH s1 (p + iov_len v) (len - iov_len v) rest CN T) as (N' & E' & CN' & LN' & EN'); [lia|].
  exists N'. split; [rewrite E'; by destruct s|]. change (y_nodes s1) with N in LN'. split; [done|]. split; [lia|].
  rewrite EN'. change (mem s1) with (concat N). rewrite EN. pose proof (chain_length _ _ _ CH) as LM. fold (mem s) in LM.
  destruct (decide (rest = [])) as [Er|Er].
  - rewrite Er, splice_nil. f_equal. unfold now. apply take_ge. destruct rest; [|done]. cbn [length] in Lr. lia.
  - assert (El : Z.of_nat (length now) = iov_len v). { destruct rest; [done|]. cbn [length] in Lr. lia. }
    rewrite <- El, splice_splice by lia. f_equal. apply take_drop.
Qed.

(** ** Files *)

Lemma file_loop_0 fuel cur npos ncap s : file_loop fuel cur npos ncap 0 s = OK [] s.
Proof. by destruct fuel. Qed.

Lemma file_loop_ok s fuel p size : chained (B s) (K s) (y_nodes s) -> 0 <= p < K s -> 0 <= size -> p + size <= K s ->
  K s - (p - p mod B s) <= B s * Z.of_nat fuel ->
  file_loop fuel (block_at (B s) (K s) p) (p mod B s) (B s - p mod B s) size s = OK (slice (mem s) p size) s.
Proof.
  intros CH. revert p size. induction fuel as [|fuel IH]; intros p size Hp Hs Hl Hf;
    (pose proof (Z.mod_pos_bound p (B s) (ch_base _ _ _ CH)) as Hm); (destruct (decide (size = 0)) as [->|];
     [apply file_loop_0|]); [lia|]. cbn [file_loop]. btest (size =? 0); [lia|].
  assert (E : exists i, block_at (B s) (K s) p = Some i) by (unfold block_at; btest (p <? K s); [by eexists|lia]).
  destruct E as (i & Ei).
  assert (HL : forall n, 0 <= n -> p mod B s + n <= B s -> load (Some i) (p mod B s) n s = OK (slice (mem s) p n) s)
    by (intros; rewrite <- Ei; by apply load_ok).
  assert (HN : next_of (Some i) s = OK (block_at (B s) (K s) (p - p mod B s + B s)) s) by (rewrite <- Ei; by apply next_ok).
  rewrite Ei. btest (size <=? B s - p mod B s); unfold bind.
  - rewrite HL by lia. rewrite Z.sub_diag. btest (size <? B s - p mod B s).
    + rewrite file_loop_0. unfold ret. by rewrite app_nil_r.
    + rewrite HN. destruct (block_at (B s) (K s) (p - p mod B s + B s)) as [j|] eqn:Ej.
      * unfold block_at in Ej. btest (p - p mod B s + B s <? K s); [|done]. injection Ej as <-.
        destruct (chain_at _ _ _ CH (p - p mod B s + B s)) as (m0 & Hm0 & _); [lia|]. rewrite (deref_ok _ _ _ Hm0).
        unfold ret at 1. rewrite file_loop_0. unfold ret. by rewrite app_nil_r.
      * unfold ret at 1. rewrite file_loop_0. unfold ret. by rewrite app_nil_r.
  - destruct (to_next_block (B s) (K s) (y_nodes s) p size CH) as (Eq & Hq & Eq2 & Eq3); [lia..|].
    rewrite HL by lia. rewrite Z.ltb_irrefl. rewrite HN. set (q := p - p mod B s + B s) in *.
    destruct (deref_at s q CH) as (m0 & En & Hn); [lia|]. specialize (IH q (size - (B s - p mod B s))). rewrite Eq, !Z.sub_0_r in IH.
    destruct (block_at (B s) (K s) q) as [j|] eqn:Ej; [|done]. rewrite En. unfold ret at 1. rewrite Hn, IH by lia.
    unfold ret. f_equal. rewrite Eq2, <- slice_add by lia. f_equal. lia.
Qed.

Lemma rest_bounds s : shaped s -> 0 <= y_size s - y_position s < 2 ^ 48 /\ 0 <= y_position s /\ y_size s <= K s.
Proof. intros [[_ _ _ Hm] _ Hp Hs]. lia. Qed.

Lemma writeToFile_ok s : shaped s ->
  writeToFile true s = OK (true, slice (v_data (view s)) (v_pos (view s)) (y_size s - y_position s)) s.
Proof.
  intros W. destruct (rest_bounds s W) as (Hr & Hp & Hk). pose proof W as [CH Hroot _ _]. pose proof CH as [Hb HF Hc Hm].
  unfold writeToFile, bind, gets. cbn [negb]. rewrite getReadSize_ok by done. rewrite offset_ok, skipped by (done || lia).
  destruct (decide (y_position s < K s)) as [Hlt|Hge].
  - rewrite (proj2 (walk_ok s _ W (conj Hp Hlt))). destruct (deref_at s (y_position s) CH) as (m & Em & Hm'); [lia|].
    assert (E : exists i, block_at (B s) (K s) (y_position s) = Some i) by (unfold block_at; btest (y_position s <? K s); [by eexists|lia]).
    destruct E as (i & Ei). rewrite Ei in *. rewrite Em. unfold ret at 1. rewrite Hm', rest_of_block by done. rewrite <- Ei.
    rewrite file_loop_ok; [|done|lia..|]. 2: { pose proof (chain_fuel s (y_position s) W). lia. }
    unfold ret. do 2 f_equal. symmetry. apply slice_data; done || lia.
  - replace (y_size s - y_position s) with 0 by lia. set (k := Z.to_nat (y_position s / B s)).
    assert (exists c, walk_safe k (Some O) s = OK c s /\ forall i, c = Some i -> (i < length (y_nodes s))%nat) as (c & Ec & Hi).
    { generalize k. clear k. intros k. assert (H0 : (0 < length (y_nodes s))%nat) by (destruct (y_nodes s); [done|cbn; lia]). revert H0.
      generalize O. induction k as [|k IH]; intros i Hi; cbn [walk_safe]; [exists (Some i); split; [done|]; by intros ? [= <-]|].
      unfold bind, next_of. rewrite (proj2 (Nat.ltb_lt _ _) Hi). destruct (S i <? length (y_nodes s))%nat eqn:E; b2p; [by apply IH|].
      exists None. split; [by destruct k|done]. }
    rewrite Ec. destruct c as [i|].
    + destruct (lookup_lt_is_Some_2 _ _ (Hi i eq_refl)) as (n & Hn). rewrite (deref_ok _ _ _ Hn). unfold ret at 1.
      by rewrite file_loop_0, cut_nothing.
    + unfold ret at 1. by rewrite file_loop_0, cut_nothing.
Qed.

Lemma toString_ok s : shaped s ->
  toString s = if str_alloc (y_size s - y_position s) then OK (slice (v_data (view s)) (v_pos (view s)) (y_size s - y_position s)) s
               else THROW LENGTH_ERROR s.
Proof.
  intros W. destruct (rest_bounds s W) as (Hr & Hp & Hk). unfold toString, bind, gets. rewrite getReadSize_ok by done.
  destruct (str_alloc _); [|done]. cbn [negb]. btest (y_size s - y_position s =? 0); [by rewrite Heqb|].
  rewrite read_at_ok by (done || lia). btest (y_size s - y_position s <? y_size s - y_position s); [lia|done].
Qed.

Lemma peek_read_ok s len : wf s -> 0 <= len -> exists iovs, let n := Z.min len (y_size s - y_position s) in
  peekReadIovec len s = OK (n, iovs) s /\ gather iovs s = OK (slice (v_data (view s)) (v_pos (view s)) n) s.
Proof.
  intros W Hl. destruct (rest_bounds s W) as (Hr & Hp & Hk). unfold peekReadIovec, bind, gets. rewrite getReadSize_ok by done.
  set (n := Z.min len _). btest (n =? 0); [exists []; by rewrite Heqb, cut_nothing|].
  destruct (peek_from_ok s (y_position s) n W) as (iovs & E & T); [lia..|]. rewrite (wf_cur s W), E. exists iovs. split; [done|].
  rewrite (gather_ok s _ n iovs (wf_chain s W) ltac:(lia) T). f_equal. symmetry. apply slice_data; done || lia.
Qed.

Lemma peek_read_at_ok s len p : shaped s -> 0 <= len -> 0 <= p -> exists iovs, let n := Z.max 0 (Z.min len (y_size s - p)) in
  peekReadIovec_at len p s = OK (n, iovs) s /\ gather iovs s = OK (slice (v_data (view s)) p n) s.
Proof.
  intros W Hl Hp. destruct (rest_bounds s W) as (Hr & _ & Hk). unfold peekReadIovec_at, bind, gets. set (n := Z.max 0 _).
  btest (y_size s <=? p). { exists []. replace n with 0 by lia. done. }
  replace (Z.min len (y_size s - p)) with n by lia. btest (n =? 0); [exists []; by rewrite Heqb0, cut_nothing|].
  destruct (peek_from_ok s p n W) as (iovs & E & T); [lia..|]. rewrite skipped by (done || lia).
  rewrite (proj1 (walk_ok s p W ltac:(lia))), E. exists iovs. split; [done|].
  rewrite (gather_ok s _ n iovs (sh_chain s W) ltac:(lia) T). f_equal. symmetry. apply slice_data; done || lia.
Qed.

(** Room asked for, filled by the kernel, and the position moved past it: a write. *)
Lemma fill_ok s len bs : wf s -> 0 < len < 2 ^ 53 -> Z.of_nat (length bs) <= len ->
  match peekWriteIovec len s with
  | OK r s1 => r.1 = len /\ match scatter r.2 bs s1 with
      | OK _ s2 => exists s', setPosition (y_position s2 + Z.of_nat (length bs)) s2 = OK tt s' /\ wf s' /\
          view s' = mkView (splice (v_data (view s)) (v_pos (view s)) bs) (v_pos (view s) + Z.of_nat (length bs)) (v_endian (view s))
      | _ => False
      end
  | THROW e s' => e = BAD_ALLOC /\ view s' = view s /\ sound s'
  | CRASH => False
  end.
Proof.
  intros W Hl Hb. unfold peekWriteIovec. btest (len =? 0); [lia|]. unfold bind at 1. pose proof (addCapacity_ok s len W Hl) as G.
  destruct (addCapacity len s) as [[] s1|e s1|]; [|done|done]. destruct G as [W1 EB EV ES Hroom [junk EM] _].
  injection EV as ED EP EE. destruct (rest_bounds s1 W1) as (Hr & Hp & Hk). unfold bind, gets.
  destruct (peek_from_ok s1 (y_position s1) len W1) as (iovs & E & T); [lia..|]. rewrite (wf_cur s1 W1), E. split; [done|]. cbn [fst snd ret].
  destruct (scatter_ok s1 _ len iovs bs (wf_chain s1 W1) T Hb) as (N & E2 & CN & LN & EN). rewrite E2.
  set (s2 := s1 <| y_nodes := N |>). pose proof W1 as [C1 Hr1 Hp1 Hs1 Hc1].
  assert (W2 : wf s2). { split; cbn; try done. intros ->. destruct (y_nodes s1); done. }
  pose proof (setPosition_ok s2 (y_position s1 + Z.of_nat (length bs)) W2 ltac:(lia)) as P.
  change (K s2) with (K s1) in P. change (y_position s2) with (y_position s1).
  btest (K s1 <? y_position s1 + Z.of_nat (length bs)); [lia|]. destruct P as (s' & E3 & W3 & _ & _ & _ & _ & EV3).
  exists s'. split; [exact E3|]. split; [done|]. rewrite EV3. cbn [view v_data v_pos v_endian].
  change (mem s2) with (concat N). change (y_size s2) with (y_size s1). change (y_endian s2) with (y_endian s1).
  pose proof (mem_length s1 W1). rewrite EN, slice_of_splice by lia. by rewrite ED, EP, EE.
Qed.

(** Bytes go in where the position is. *)
Definition put (bs : list byte) (v : View) : View :=
  mkView (splice (v_data v) (v_pos v) bs) (v_pos v + Z.of_nat (length bs)) (v_endian v).

Lemma put_nil s : shaped s -> put [] (view s) = view s.
Proof. intros _. unfold put. cbn. by rewrite splice_nil, Z.add_0_r. Qed.

(** What a file gives up to the first end of file, and whether there is one. *)
Fixpoint up_to_eof (reads : list (list byte * bool)) : list byte * bool :=
  match reads with
  | [] => ([], false)
  | (bs, eof) :: reads => if eof then (bs, true) else let '(t, e) := up_to_eof reads in (bs ++ t, e)
  end.

Lemma put_put a b v : 0 <= v_pos v <= Z.of_nat (length (v_data v)) -> put b (put a v) = put (a ++ b) v.
Proof.
  intros H. unfold put. cbn [v_data v_pos v_endian]. rewrite length_app, Nat2Z.inj_add, Z.add_assoc. f_equal. by apply splice_splice.
Qed.

Lemma file_reads_ok s reads : wf s -> Z.of_nat (length (up_to_eof reads).1) < 2 ^ 53 ->
  match file_reads reads s with
  | OK ended s' => wf s' /\ ended = (up_to_eof reads).2 /\ view s' = put (up_to_eof reads).1 (view s)
  | THROW e s' => e = BAD_ALLOC /\ sound s' /\ exists part, part `prefix_of` (up_to_eof reads).1 /\ view s' = put part (view s)
  | CRASH => False
  end.
Proof.
  revert s. induction reads as [|[bs eof] reads IH]; intros s W Hl.
  { cbn. by rewrite put_nil. }
  cbn [file_reads up_to_eof] in *. destruct (up_to_eof reads) as [t e]. cbn [fst snd] in *.
  assert (Hb : Z.of_nat (length bs) < 2 ^ 53) by (destruct eof; cbn [fst] in Hl; rewrite ?length_app in Hl; lia).
  unfold bind. pose proof (write_ok s bs W Hb) as G. destruct (write bs s) as [[] s1|e1 s1|]; [| |done].
  2: { destruct G as (-> & G1 & G2). split; [done|]. split; [done|]. exists []. split; [apply prefix_nil|]. by rewrite put_nil. }
  destruct G as (W1 & E1 & _). destruct eof; [done|]. cbn [fst snd] in *. rewrite length_app in Hl.
  specialize (IH s1 W1 ltac:(lia)). assert (Ep : forall l, put l (view s1) = put (bs ++ l) (view s)).
  { intros l. pose proof (length_data s W). destruct (rest_bounds s W) as (Hr & Hp & Hk).
    rewrite <- put_put by (cbn in *; lia). by rewrite E1. }
  destruct (file_reads reads s1) as [ended s'|e1 s'|]; [| |done].
  - destruct IH as (W' & -> & ->). split; [done|]. split; [done|apply Ep].
  - destruct IH as (-> & S' & part & Hpre & ->). split; [done|]. split; [done|]. exists (bs ++ part).
    split; [by apply prefix_app|apply Ep].
Qed.

Lemma bytearray_new_ok base endian s : 0 < base -> bytearray_new base endian = Some s ->
  wf s /\ view s = mkView [] 0 endian /\ K s = base.
Proof.
  unfold bytearray_new. intros Hb. destruct (new_char 0 0 base) as [n|] eqn:E; [|done]. intros [= <-].
  apply new_char_length in E as [En Em]. split; [|done]. split; cbn; try done; try lia.
  - split; cbn; [done|by constructor|lia|lia].
  - unfold block_at. btest (0 <? base); [done|lia].
Qed.

(** ** Every call at once *)

(** [FILL]: room for [len] bytes is asked for, the kernel puts [bs] there, the position moves
    past them. *)
Inductive Call :=
  | WRITE (bs : list byte) | READ (n : Z) | READ_AT (n p : Z) | SEEK (v : Z) | CLEAR | LITTLE (val : bool)
  | TO_STRING | TO_FILE | FROM_FILE (reads : list (list byte * bool)) | PEEK_READ (len : Z) | PEEK_READ_AT (len p : Z) | FILL (len : Z) (bs : list byte).

Definition bytes_of {A} (m : Op A) : Op (list byte) := m ;;; ret [].

Definition do_call (c : Call) : Op (list byte) :=
  match c with
  | WRITE bs => bytes_of (write bs)
  | READ n => read n
  | READ_AT n p => read_at n p
  | SEEK v => bytes_of (setPosition v)
  | CLEAR => bytes_of clear
  | LITTLE val => bytes_of (setIsLittleEndian val)
  | TO_STRING => toString
  | TO_FILE => r <- writeToFile true ;; ret (snd r)
  | FROM_FILE reads => bytes_of (readFromFile true reads)
  | PEEK_READ len => r <- peekReadIovec len ;; gather (snd r)
  | PEEK_READ_AT len p => r <- peekReadIovec_at len p ;; gather (snd r)
  | FILL len bs =>
      r <- peekWriteIovec len ;; scatter (snd r) bs ;;;
      position <- gets y_position ;; bytes_of (setPosition (position + Z.of_nat (length bs)))
  end.

(** The same on the bytes alone. [lost]: the array is stranded; [capacity]: what its blocks
    hold, which bounds where the position may go; [junk]: the bytes after the last one
    written, of which nothing is known. *)
Inductive Want := DONE (bs : list byte) (v : View) | FAILS (e : Exn) | LEAVES.

Definition spec (lost : bool) (capacity : Z) (junk : list byte) (c : Call) (v : View) : Want :=
  let size := Z.of_nat (length (v_data v)) in
  let rest := size - v_pos v in
  let add bs := if lost && negb (length bs =? 0)%nat then LEAVES else DONE [] (put bs v) in
  match c with
  | WRITE bs => add bs
  | FROM_FILE reads => add (up_to_eof reads).1
  | FILL _ bs => if lost then LEAVES else DONE [] (put bs v)
  | READ n => if rest <? n then FAILS OUT_OF_RANGE else DONE (slice (v_data v) (v_pos v) n) (mkView (v_data v) (v_pos v + n) (v_endian v))
  | READ_AT n p =>
      if (if size <? p then size - p + 2 ^ 64 else size - p) <? n then FAILS OUT_OF_RANGE
      else if p + n <=? size then DONE (slice (v_data v) p n) v
      else if n =? 0 then DONE [] v
      else if p + n <=? capacity then DONE (slice (v_data v ++ junk) p n) v
      else LEAVES
  | SEEK p =>
      if capacity <? p then FAILS OUT_OF_RANGE
      else DONE [] (mkView (v_data v ++ take (Z.to_nat (p - size)) junk) p (v_endian v))
  | CLEAR => DONE [] (mkView [] 0 (v_endian v))
  | LITTLE val => DONE [] (mkView (v_data v) (v_pos v) (if val then BRONX_LITTLE_ENDIAN else BRONX_BIG_ENDIAN))
  | TO_STRING => if str_alloc rest then DONE (drop (Z.to_nat (v_pos v)) (v_data v)) v else FAILS LENGTH_ERROR
  | TO_FILE => DONE (drop (Z.to_nat (v_pos v)) (v_data v)) v
  | PEEK_READ len => DONE (slice (v_data v) (v_pos v) (Z.min len rest)) v
  | PEEK_READ_AT len p => DONE (slice (v_data v) p (Z.max 0 (Z.min len (size - p)))) v
  end.

Definition lost (s : ByteArray) : bool := match y_cur s with None => y_position s <? y_capacity s | Some _ => false end.

(** Sizes and positions are [size_t]s, and what is written is less than [2 ^ 53] bytes. *)
Definition call_ok (c : Call) : bool :=
  match c with
  | WRITE bs => Z.of_nat (length bs) <? 2 ^ 53
  | READ n | SEEK n | PEEK_READ n => 0 <=? n
  | READ_AT n p => (0 <=? n) && (0 <=? p) && (p <? 2 ^ 64)
  | PEEK_READ_AT n p => (0 <=? n) && (0 <=? p)
  | FILL len bs => (0 <? len) && (len <? 2 ^ 53) && (Z.of_nat (length bs) <=? len)
  | FROM_FILE reads => Z.of_nat (length (up_to_eof reads).1) <? 2 ^ 53
  | CLEAR | LITTLE _ | TO_STRING | TO_FILE => true
  end.

(** What may have gone in when memory ran out: the beginning of a file. *)
Definition gone_in (c : Call) : list byte := match c with FROM_FILE reads => (up_to_eof reads).1 | _ => [] end.

(** What a call did is what the bytes alone say. Where those fail, or memory ran out, the
    array is as it was, but for the beginning of a file. The process ends where [LEAVES]
    says so, if memory does not run out first. *)
Definition agrees (c : Call) (r : Res (list byte)) (w : Want) (v : View) : Prop :=
  match r, w with
  | OK bs s, DONE bs' v' => sound s /\ bs = bs' /\ view s = v'
  | THROW e s, FAILS e' => e = e' /\ sound s /\ view s = v
  | THROW e s, (DONE _ _ | LEAVES) => e = BAD_ALLOC /\ sound s /\ exists part, part `prefix_of` gone_in c /\ view s = put part v
  | CRASH, LEAVES => True
  | _, _ => False
  end.

Lemma slice_to_end m p n : 0 <= p -> n = Z.of_nat (length m) - p -> slice m p n = drop (Z.to_nat p) m.
Proof. intros Hp ->. unfold slice. apply take_ge. rewrite length_drop. lia. Qed.

(** ** Calls on a sound array *)

(** A call whose view is the same, seen by [agrees] when it throws. *)
Lemma throw_agrees c e s w s0 : shaped s0 -> (exists bs v, w = DONE bs v) \/ w = LEAVES ->
  e = BAD_ALLOC /\ view s = view s0 /\ sound s -> agrees c (THROW e s) w (view s0).
Proof.
  intros W Hw (-> & E & S). assert (X : exists part, part `prefix_of` gone_in c /\ view s = put part (view s0)).
  { exists []. split; [apply prefix_nil|]. by rewrite put_nil. }
  by destruct Hw as [(bs & v & ->)| ->].
Qed.

Lemma lost_wf s : wf s -> lost s = false.
Proof. intros W. unfold lost. rewrite (wf_cur s W). unfold block_at. by destruct (y_position s <? K s) eqn:E; rewrite ?E. Qed.

Lemma lost_stranded s : stranded s -> lost s = true.
Proof. intros []. unfold lost. rewrite st_cur0. lia. Qed.

(** The calls that do not look at the pointer. *)
Definition blind (c : Call) : bool :=
  match c with READ_AT _ _ | SEEK _ | CLEAR | LITTLE _ | TO_STRING | TO_FILE | PEEK_READ_AT _ _ => true | _ => false end.

Lemma sound_shaped s : sound s -> shaped s.
Proof. by intros [[]|[]]. Qed.

Lemma read_at_refines s n p : sound s -> 0 <= n -> 0 <= p < 2 ^ 64 ->
  exists junk, agrees (READ_AT n p) (read_at n p s) (spec (lost s) (K s) junk (READ_AT n p) (view s)) (view s).
Proof.
  intros S Hn Hp. pose proof (sound_shaped s S) as W. pose proof (length_data s W) as LD. cbn [spec]. rewrite LD.
  exists (drop (Z.to_nat (y_size s)) (mem s)). btest (y_size s <? p).
  - rewrite read_at_beyond by (done || lia). btest (y_size s - p + 2 ^ 64 <? n); [done|]. btest (p + n <=? y_size s); [lia|].
    btest (n =? 0); [done|]. btest (p + n <=? K s); [|done]. split; [done|]. split; [|done]. cbn [view v_data].
    unfold slice at 3. by rewrite drop_0, take_drop.
  - rewrite read_at_ok by (done || lia). btest (y_size s - p <? n); [done|]. by btest (p + n <=? y_size s); [|lia].
Qed.

(** Moving past the last byte takes in what is there. *)
Lemma seek_view s v : shaped s -> 0 <= v <= K s -> exists junk,
  slice (mem s) 0 (Z.max (y_size s) v) = v_data (view s) ++ take (Z.to_nat (v - y_size s)) junk.
Proof.
  intros W Hv. destruct (rest_bounds s W) as (Hr & Hp & Hk). exists (drop (Z.to_nat (y_size s)) (mem s)). cbn [view v_data].
  replace (Z.max (y_size s) v) with (y_size s + Z.max 0 (v - y_size s)) by lia. rewrite slice_add by lia. f_equal.
  unfold slice. rewrite Z.add_0_l. f_equal. lia.
Qed.

Lemma blind_refines c s : sound s -> call_ok c = true -> blind c = true ->
  exists junk, agrees c (do_call c s) (spec (lost s) (K s) junk c (view s)) (view s).
Proof.
  intros S Hc Hb. pose proof (sound_shaped s S) as W. pose proof (length_data s W) as LD. destruct (rest_bounds s W) as (Hr & Hp & Hk).
  assert (Ep : v_pos (view s) = y_position s) by done.
  destruct c as [bs|n|n p|v| |val| | |reads|len|len p|len bs]; try done; cbn [call_ok] in Hc; b2p.
  - by apply read_at_refines.
  - cbn [spec do_call]; rewrite LD; unfold bytes_of, bind.
    pose proof (setPosition_ok s v W Hc) as G. btest (K s <? v); [exists []; by rewrite G|].
    destruct G as (s' & -> & W' & _ & _ & _ & _ & E). destruct (seek_view s v W) as [junk Ej]; [lia|]. exists junk.
    cbn. split; [by left|]. split; [done|]. by rewrite E, Ej.
  - exists []. cbn [do_call]; unfold bytes_of, bind. destruct (clear_ok s W) as (s' & -> & W' & E & _). split; [by left|done].
  - exists []. cbn. split; [|done]. destruct S as [[]|[[] ]]; [left|right]; by split.
  - exists []. cbn [spec do_call]. rewrite LD, Ep, toString_ok by done. destruct (str_alloc _); [|done]. split; [done|]. split; [|done].
    apply slice_to_end; cbn in *; lia.
  - exists []. cbn [spec do_call]. unfold bind. rewrite writeToFile_ok by done. split; [done|]. split; [|done]. apply slice_to_end; cbn in *; lia.
  - exists []. cbn [spec do_call]. rewrite LD. unfold bind. destruct (peek_read_at_ok s len p W) as (iovs & -> & E); [done..|].
    cbn [snd]. by rewrite E.
Qed.

Lemma wf_refines c s : wf s -> call_ok c = true -> blind c = false -> agrees c (do_call c s) (spec false (K s) [] c (view s)) (view s).
Proof.
  intros W Hc Hb. pose proof (length_data s W) as LD. destruct (rest_bounds s W) as (Hr & Hp & Hk).
  destruct c as [bs|n|n p|v| |val| | |reads|len|len p|len bs]; try done; cbn [call_ok] in Hc; b2p;
    cbn [spec do_call]; rewrite ?LD; unfold bytes_of, bind; cbn [andb].
  - pose proof (write_ok s bs W Hc) as G. destruct (write bs s) as [[] s'|e s'|]; [|apply throw_agrees; eauto|done].
    destruct G as (? & ? & _). split; [by left|done].
  - pose proof (read_ok s n W Hc) as G. change (v_pos (view s)) with (y_position s) in *. btest (y_size s - y_position s <? n); [rewrite G; split_and!; [done|by left|done]|].
    destruct G as (s' & -> & W' & E & _). split; [by left|done].
  - unfold readFromFile, bind. cbn [negb]. pose proof (file_reads_ok s reads W Hc) as G.
    destruct (file_reads reads s) as [ended s'|e s'|]; [|done|done]. destruct G as (W' & _ & E). split; [by left|done].
  - destruct (peek_read_ok s len W Hc) as (iovs & -> & E). cbn [snd]. rewrite E. split; [by left|done].
  - pose proof (fill_ok s len bs W ltac:(lia) ltac:(lia)) as G.
    destruct (peekWriteIovec len s) as [r s1|e s1|]; [|apply throw_agrees; eauto|done].
    destruct G as [_ G]. destruct (scatter r.2 bs s1) as [[] s2|e s2|]; [|done|done]. unfold gets.
    destruct G as (s' & -> & W' & E). split; [by left|done].
Qed.

Lemma stranded_write s bs : stranded s -> Z.of_nat (length bs) < 2 ^ 53 -> bs <> [] ->
  match write bs s with
  | OK _ _ => False
  | THROW e s' => e = BAD_ALLOC /\ view s' = view s /\ sound s'
  | CRASH => True
  end.
Proof.
  intros S Hl Hn. unfold write. btest (Z.of_nat (length bs) =? 0); [by destruct bs|].
  apply (stranded_null s (Z.of_nat (length bs))); [done|lia].
Qed.

Lemma stranded_reads s reads : stranded s -> Z.of_nat (length (up_to_eof reads).1) < 2 ^ 53 ->
  match file_reads reads s with
  | OK _ s' => (up_to_eof reads).1 = [] /\ s' = s
  | THROW e s' => e = BAD_ALLOC /\ view s' = view s /\ sound s' /\ (up_to_eof reads).1 <> []
  | CRASH => (up_to_eof reads).1 <> []
  end.
Proof.
  intros S. induction reads as [|[bs eof] reads IH]; intros Hl; [done|].
  cbn [file_reads up_to_eof] in *. destruct (up_to_eof reads) as [t e]. cbn [fst snd] in *. unfold bind. destruct bs as [|b bs].
  - cbn. destruct eof; [done|]. by apply IH.
  - pose proof (stranded_write s (b :: bs) S ltac:(destruct eof; cbn [fst] in Hl; rewrite ?length_app in Hl; lia) ltac:(done)) as G.
    destruct (write (b :: bs) s) as [[] s1|e1 s1|]; [done| |by destruct eof]. destruct G as (? & ? & ?). by destruct eof.
Qed.

Lemma stranded_refines c s : stranded s -> call_ok c = true -> blind c = false ->
  agrees c (do_call c s) (spec true (K s) [] c (view s)) (view s).
Proof.
  intros S Hc Hb. pose proof (st_shaped s S) as W. pose proof (length_data s W) as LD. destruct (rest_bounds s W) as (Hr & Hp & Hk).
  assert (So : sound s) by by right. pose proof (st_end s S) as Ee.
  assert (Er : getReadSize s = 0) by (rewrite getReadSize_ok by done; lia).
  destruct c as [bs|n|n p|v| |val| | |reads|len|len p|len bs]; try done; cbn [call_ok] in Hc; b2p;
    cbn [spec do_call]; rewrite ?LD; unfold bytes_of; cbn [andb]; change (v_pos (view s)) with (y_position s).
  - destruct bs as [|b bs]; [cbn; by rewrite put_nil|]. cbn [length Nat.eqb negb]. unfold bind.
    pose proof (stranded_write s (b :: bs) S Hc ltac:(done)) as G.
    destruct (write (b :: bs) s) as [[] s'|e s'|]; [done|apply throw_agrees; eauto|done].
  - unfold read, bind, gets. rewrite Er. btest (y_size s - y_position s <? n); btest (0 <? n); try lia; [done|].
    btest (n =? 0); [|lia]. subst n. cbn. rewrite cut_nothing, Z.add_0_r. done.
  - unfold bind, readFromFile, bind. cbn [negb]. pose proof (stranded_reads s reads S Hc) as G.
    destruct (file_reads reads s) as [ended s'|e s'|].
    + destruct G as [-> ->]. cbn. by rewrite put_nil.
    + destruct G as (G1 & G2 & G3 & G4). destruct (up_to_eof reads).1; [done|]. apply throw_agrees; eauto.
    + by destruct (up_to_eof reads).1.
  - unfold peekReadIovec, bind, gets. rewrite Er. btest (Z.min len 0 =? 0); [|lia]. cbn.
    replace (Z.min len (y_size s - y_position s)) with 0 by lia. done.
  - unfold peekWriteIovec. btest (len =? 0); [lia|]. unfold peek_from, bind, gets.
    pose proof (addCapacity_stranded s len S ltac:(lia)) as G.
    destruct (addCapacity len s) as [[] s1|e s1|]; [|apply throw_agrees; eauto|done].
    rewrite offset_ok by apply G. by rewrite (st_cur s1 G).
Qed.

End steps.

(** ** Examples and witnesses *)

(** Memory with [blocks] allocations in it. *)
Definition scarce (blocks : nat) : Heap.
Proof.
  refine {| new_char := fun k live n => if (k <? blocks)%nat && (0 <=? n) && (live + n <? 2 ^ 48) then Some (repeat Byte.x00 (Z.to_nat n)) else None;
            str_alloc := fun n => n <? 2 ^ 48 |}; [intros k live n l|intros n H; b2p; lia].
  destruct (_ && _) eqn:E; [|done]. intros [= <-]. b2p. rewrite repeat_length. lia.
Defined.

Definition calls {HP : Heap} (l : list Call) (s : Res (list byte)) : Res (list byte) :=
  fold_left (fun r c => match r with OK _ s | THROW _ s => do_call c s | CRASH => CRASH end) l s.

(** An empty array of blocks of four bytes. *)
Definition empty4 (blocks : nat) : ByteArray :=
  default (mkByteArray 0 0 0 0 0 [] None 0) (@bytearray_new (scarce blocks) 4 BRONX_BIG_ENDIAN).

Lemma empty4_wf blocks : (0 < blocks)%nat -> wf (empty4 blocks).
Proof.
  intros H. apply (@bytearray_new_ok (scarce blocks) 4 BRONX_BIG_ENDIAN); [lia|]. destruct blocks; [lia|reflexivity].
Qed.


Example two_blocks :
  match @calls (scarce 9) [WRITE (list_byte_of_string "sixsix"); SEEK 3; READ 2; TO_STRING] (OK [] (empty4 9)) with
  | OK bs s => Some (string_of_list_byte bs, y_position s, y_capacity s, y_cur s)
  | _ => None
  end = Some ("x"%string, 5, 8, Some 1%nat).
Proof. vm_compute. reflexivity. Qed.

(** A [read] from beyond what was written: the difference wraps, the test lets it pass, and the
    walk runs off the chain. *)
Example read_beyond : @calls (scarce 9) [WRITE (list_byte_of_string "ab"); READ_AT 1 5] (OK [] (empty4 9)) = CRASH.
Proof. vm_compute. reflexivity. Qed.

(** Memory runs out while a full chain grows: a block was added, the pointer to it was not set.
    The next write finds room and no block. *)
Example half_grown :
  match @calls (scarce 2) [WRITE (list_byte_of_string "four"); WRITE (list_byte_of_string "eightmor")] (OK [] (empty4 2)) with
  | THROW e s => (e, y_capacity s, y_cur s, @do_call (scarce 2) (WRITE (list_byte_of_string "x")) s) = (BAD_ALLOC, 8, None, CRASH)
  | _ => False
  end.
Proof. vm_compute. reflexivity. Qed.

(** A file that cannot be read but opens, as a directory does: [eof] never comes and the loop
    does not ask for anything else. *)
Lemma read_directory {HP : Heap} n s : readFromFile true (repeat ([], false) n) s = OK None s.
Proof.
  assert (E : file_reads (repeat ([], false) n) s = OK false s); [|unfold readFromFile, bind; cbn [negb]; by rewrite E].
  induction n as [|n IH]; [done|]. exact IH.
Qed.
