(* ===== verification/ByteCodec.v ===== *)
(** * Numbers and strings in a byte array (src/bronx/net/src/bytearray.cpp, src/bronx/env/include/_endian.h)

    Integers of a fixed width in the byte order of the array, integers of variable length,
    zigzag for the signed ones, and strings with four kinds of length in front. Floating-point
    values are their bits. The byte order of the machine is an argument: what is written does
    not depend on it. *)

From S2P Require Import Prelude Records ByteArray.
From coqutil Require Import Byte Word.LittleEndianList Z.BitOps Z.prove_Zeq_bitwise.

#[local] Open Scope Z_scope.
#[local] Open Scope op_scope.

(** ** Integers in memory *)

(** Whether the machine stores the first byte first. *)
Class Host := { host_big : bool }.

(** The value of type [intN_t] with the bits of [z], for [N] eight times [w]. *)
Definition to_signed (w : nat) (z : Z) : Z := if z <? 2 ^ (8 * Z.of_nat w - 1) then z else z - 2 ^ (8 * Z.of_nat w).

(** [bswap_16], [bswap_32], [bswap_64]. *)
Definition bswap (w : nat) (z : Z) : Z := le_combine (rev (le_split w z)).

Section codec.
Context {HP : Heap} {HO : Host}.

Definition BRONX_BYTE_ORDER : Z := if host_big then BRONX_BIG_ENDIAN else BRONX_LITTLE_ENDIAN.

(** The bytes of a variable of [w] bytes, and the number the bytes are. *)
Definition object_bytes (w : nat) (z : Z) : list byte := if host_big then rev (le_split w z) else le_split w z.
Definition object_value (bs : list byte) : Z := if host_big then le_combine (rev bs) else le_combine bs.

Definition byteswap (sgn : bool) (w : nat) (z : Z) : Z := if sgn then to_signed w (bswap w z) else bswap w z.

(** ** Fixed width *)

(** What the functions of more than one byte have in common. *)
Definition write_fixed (sgn : bool) (w : nat) (value : Z) : Op unit :=
  endian <- gets y_endian ;;
  write (object_bytes w (if endian =? BRONX_BYTE_ORDER then value else byteswap sgn w value)).

Definition read_value (sgn : bool) (w : nat) : Op Z :=
  bs <- read (Z.of_nat w) ;; ret (if sgn then to_signed w (object_value bs) else object_value bs).

Definition read_fixed (sgn : bool) (w : nat) : Op Z :=
  v <- read_value sgn w ;;
  endian <- gets y_endian ;;
  ret (if endian =? BRONX_BYTE_ORDER then v else byteswap sgn w v).

Definition writeFint8 (value : Z) : Op unit := write (object_bytes 1 value).
Definition writeFuint8 (value : Z) : Op unit := write (object_bytes 1 value).
Definition writeFint16 : Z -> Op unit := write_fixed true 2.
Definition writeFuint16 : Z -> Op unit := write_fixed false 2.
Definition writeFint32 : Z -> Op unit := write_fixed true 4.
Definition writeFuint32 : Z -> Op unit := write_fixed false 4.
Definition writeFint64 : Z -> Op unit := write_fixed true 8.
Definition writeFuint64 : Z -> Op unit := write_fixed false 8.

Definition readFint8 : Op Z := read_value true 1.
Definition readFuint8 : Op Z := read_value false 1.
Definition readFint16 : Op Z := read_fixed true 2.
Definition readFuint16 : Op Z := read_fixed false 2.
Definition readFint32 : Op Z := read_fixed true 4.
Definition readFuint32 : Op Z := read_fixed false 4.
Definition readFint64 : Op Z := read_fixed true 8.
Definition readFuint64 : Op Z := read_fixed false 8.

(** ** Variable length *)

Definition EncodeZigzag32 (v : Z) : Z := Z.lxor (wrap32 (Z.shiftl (wrap32 v) 1)) (wrap32 (Z.shiftr v 31)).
Definition EncodeZigzag64 (v : Z) : Z := Z.lxor (wrap64 (Z.shiftl (wrap64 v) 1)) (wrap64 (Z.shiftr v 63)).
Definition DecodeZigzag32 (v : Z) : Z := to_signed 4 (Z.lxor (Z.shiftr v 1) (wrap32 (- Z.land v 1))).
Definition DecodeZigzag64 (v : Z) : Z := to_signed 8 (Z.lxor (Z.shiftr v 1) (wrap64 (- Z.land v 1))).

(** What is put in [tmp], which has [room] bytes; none when it would go past them. *)
Fixpoint varint (room : nat) (value : Z) : option (list byte) :=
  match room with
  | O => None
  | S room =>
      if 0x7f <? value then
        rest ← varint room (Z.shiftr value 7);
        Some (byte.of_Z (Z.lor (Z.land value 0x7f) 0x80) :: rest)
      else Some [byte.of_Z value]
  end.

Definition write_varint (room : nat) (value : Z) : Op unit :=
  match varint room value with Some tmp => write tmp | None => crash end.

Definition writeUint32 : Z -> Op unit := write_varint 5.
Definition writeUint64 : Z -> Op unit := write_varint 10.
Definition writeInt32 (value : Z) : Op unit := writeUint32 (EncodeZigzag32 value).
Definition writeInt64 (value : Z) : Op unit := writeUint64 (EncodeZigzag64 value).

(** The loop of the reading functions, over types of [bits] bits; [turns] are what is left of
    the [bits / 7 + 1] it has at most. *)
Fixpoint read_varint (bits : Z) (turns : nat) (i result : Z) : Op Z :=
  match turns with
  | O => ret result
  | S turns =>
      b <- readFuint8 ;;
      if b <? 0x80 then ret (Z.lor result (Z.shiftl b i mod 2 ^ bits))
      else read_varint bits turns (i + 7) (Z.lor result (Z.shiftl (Z.land b 0x7f) i mod 2 ^ bits))
  end.

Definition readUint32 : Op Z := read_varint 32 5 0 0.
Definition readUint64 : Op Z := read_varint 64 10 0 0.
Definition readInt32 : Op Z := v <- readUint32 ;; ret (DecodeZigzag32 v).
Definition readInt64 : Op Z := v <- readUint64 ;; ret (DecodeZigzag64 v).

(** ** Floating-point values, by their bits *)

Definition writeFloat (bits : Z) : Op unit := writeFuint32 bits.
Definition writeDouble (bits : Z) : Op unit := writeFuint64 bits.
Definition readFloat : Op Z := readFuint32.
Definition readDouble : Op Z := readFuint64.

(** ** Strings *)

Definition len_of (s : string) : Z := Z.of_nat (String.length s).

Definition writeStringF16 (s : string) : Op unit := writeFuint16 (wrap16 (len_of s)) ;;; write (list_byte_of_string s).
Definition writeStringF32 (s : string) : Op unit := writeFuint32 (wrap32 (len_of s)) ;;; write (list_byte_of_string s).
Definition writeStringF64 (s : string) : Op unit := writeFuint64 (len_of s) ;;; write (list_byte_of_string s).
Definition writeVarStr (s : string) : Op unit := writeUint64 (len_of s) ;;; write (list_byte_of_string s).
Definition writeRawStr (s : string) : Op unit := write (list_byte_of_string s).

(** [buff.resize(len)] and [read] into it. *)
Definition read_text (len : Z) : Op string :=
  if str_alloc len then bs <- read len ;; ret (string_of_list_byte bs) else throw LENGTH_ERROR.

Definition readStringF16 : Op string := len <- readFuint16 ;; read_text len.
Definition readStringF32 : Op string := len <- readFuint32 ;; read_text len.
Definition readStringF64 : Op string := len <- readFuint64 ;; read_text len.
Definition readVarStr : Op string := len <- readUint64 ;; read_text len.

(** ** Hexadecimal text *)

Definition hex_digit (d : Z) : ascii := if d <? 10 then chr (48 + d) else chr (87 + d).

Definition hex_byte (b : byte) : string :=
  String (hex_digit (byte.unsigned b / 16)) (String (hex_digit (byte.unsigned b mod 16)) " ").

Fixpoint hex_lines (i : nat) (bs : list byte) : string :=
  match bs with
  | [] => ""
  | b :: bs => ((if (0 <? i)%nat && (i mod 32 =? 0)%nat then String LF "" else "") ++ hex_byte b ++ hex_lines (S i) bs)%string
  end.

Definition toHexString : Op string := bs <- toString ;; ret (hex_lines 0 bs).
End codec.

(** ** The bytes of a value *)

(** [w] bytes, most significant first unless the order is little-endian. *)
Definition wire (e : Z) (w : nat) (v : Z) : list byte :=
  if e =? BRONX_LITTLE_ENDIAN then le_split w v else rev (le_split w v).

Definition fits (sgn : bool) (w : nat) (v : Z) : bool :=
  if sgn then (- 2 ^ (8 * Z.of_nat w - 1) <=? v) && (v <? 2 ^ (8 * Z.of_nat w - 1)) else (0 <=? v) && (v <? 2 ^ (8 * Z.of_nat w)).

Lemma split_signed w z : le_split w (to_signed w z) = le_split w z.
Proof.
  unfold to_signed. destruct (z <? _); [done|]. rewrite (le_split_mod (z - _)), (le_split_mod z). f_equal.
  rewrite Z.mul_comm. rewrite Zminus_mod, Z.mod_same, Z.sub_0_r by (apply Z.pow_nonzero; lia). apply Z.mod_mod, Z.pow_nonzero; lia.
Qed.

Lemma signed_value w v : (0 < w)%nat -> fits true w v = true -> to_signed w (v mod 2 ^ (8 * Z.of_nat w)) = v.
Proof.
  intros Hw H. cbn [fits] in H. b2p. unfold to_signed.
  assert (E : 2 ^ (8 * Z.of_nat w) = 2 * 2 ^ (8 * Z.of_nat w - 1)).
  { rewrite <- Z.pow_succ_r by lia. f_equal. lia. }
  rewrite E. set (h := 2 ^ (8 * Z.of_nat w - 1)) in *. destruct (decide (0 <= v)).
  - rewrite Z.mod_small by lia. btest (v <? h); lia.
  - assert (Em : v mod (2 * h) = v + 2 * h). { symmetry. apply (Z.mod_unique_pos _ _ (-1)); lia. }
    rewrite Em. btest (v + 2 * h <? h); lia.
Qed.

Section facts.
Context {HP : Heap} {HO : Host}.

Lemma wire_written sgn w v e : e = BRONX_LITTLE_ENDIAN \/ e = BRONX_BIG_ENDIAN ->
  object_bytes w (if e =? BRONX_BYTE_ORDER then v else byteswap sgn w v) = wire e w v.
Proof.
  assert (E : le_split w (byteswap sgn w v) = rev (le_split w v)).
  { unfold byteswap, bswap. destruct sgn; rewrite ?split_signed; apply split_le_combine'; by rewrite length_rev, length_le_split. }
  unfold object_bytes, wire, BRONX_BYTE_ORDER, BRONX_LITTLE_ENDIAN, BRONX_BIG_ENDIAN. intros [-> | ->]; destruct host_big; cbn [Z.eqb Pos.eqb]; rewrite ?E, ?rev_involutive; done.
Qed.

Definition value_of (sgn : bool) (w : nat) (z : Z) : Z := if sgn then to_signed w z else z.

Lemma wire_read sgn w v e : e = BRONX_LITTLE_ENDIAN \/ e = BRONX_BIG_ENDIAN -> (0 < w)%nat -> fits sgn w v = true ->
  (let z := value_of sgn w (object_value (wire e w v)) in if e =? BRONX_BYTE_ORDER then z else byteswap sgn w z) = v.
Proof.
  intros He Hw Hf.
  assert (E : value_of sgn w (le_combine (le_split w v)) = v).
  { rewrite le_combine_split, Z.mul_comm. destruct sgn; [by apply signed_value|]. cbn in *. b2p. by apply Z.mod_small. }
  assert (E' : byteswap sgn w (value_of sgn w (le_combine (rev (le_split w v)))) = v).
  { rewrite <- E at 2. unfold byteswap, bswap, value_of. destruct sgn; rewrite ?split_signed;
      rewrite split_le_combine' by (by rewrite length_rev, length_le_split); by rewrite rev_involutive. }
  destruct He as [-> | ->]; unfold object_value, wire, BRONX_BYTE_ORDER, BRONX_LITTLE_ENDIAN, BRONX_BIG_ENDIAN; destruct host_big; cbn [Z.eqb Pos.eqb]; cbv zeta; rewrite ?rev_involutive; done.
Qed.

(** ** Writing and reading a stretch of bytes *)

(** [m] writes [bs]. *)
Definition emits (e : Z) (m : Op unit) (bs : list byte) : Prop :=
  forall s, wf s -> y_endian s = e ->
  match m s with
  | OK _ s' => wf s' /\ view s' = put bs (view s)
  | THROW x _ => x = BAD_ALLOC
  | CRASH => False
  end.

(** [bs] is what comes next at position [p]. *)
Record ahead (e p : Z) (bs : list byte) (s : ByteArray) : Prop := {
  ah_wf : wf s;
  ah_endian : y_endian s = e;
  ah_position : y_position s = p;
  ah_bytes : exists tail, drop (Z.to_nat p) (v_data (view s)) = bs ++ tail }.

(** [m] reads [bs] and makes [a] of it. *)
Definition parses {A} (e : Z) (m : Op A) (bs : list byte) (a : A) : Prop :=
  forall p rest s, ahead e p (bs ++ rest) s -> exists s', m s = OK a s' /\ ahead e (p + Z.of_nat (length bs)) rest s' /\ v_data (view s') = v_data (view s).

Lemma emits_write e bs : Z.of_nat (length bs) < 2 ^ 53 -> emits e (write bs) bs.
Proof.
  intros Hl s W _. pose proof (write_ok s bs W Hl) as G. destruct (write bs s) as [[] s'|x s'|]; [|by destruct G|done].
  by destruct G as (? & ? & _).
Qed.

Lemma emits_seq e m1 m2 b1 b2 : emits e m1 b1 -> emits e m2 b2 -> emits e (m1 ;;; m2) (b1 ++ b2).
Proof.
  intros H1 H2 s W Ee. unfold bind. specialize (H1 s W Ee). destruct (m1 s) as [[] s1|x s1|]; [|done|done]. destruct H1 as [W1 E1].
  assert (Ee1 : y_endian s1 = e) by (rewrite <- Ee; change (v_endian (view s1) = v_endian (view s)); by rewrite E1).
  specialize (H2 s1 W1 Ee1). destruct (m2 s1) as [[] s2|x s2|]; [|done|done]. destruct H2 as [W2 E2]. split; [done|].
  rewrite E2, E1. unfold put. cbn [v_data v_pos v_endian]. pose proof (length_data s W). destruct (rest_bounds s W) as (Hr & Hp & Hk).
  rewrite length_app, Nat2Z.inj_add, Z.add_assoc. f_equal. apply splice_splice. cbn in *. lia.
Qed.

Lemma parses_ret {A} e (a : A) : parses e (ret a) [] a.
Proof. intros p rest s H. exists s. cbn. by rewrite Z.add_0_r. Qed.

Lemma parses_endian e : parses e (gets y_endian) [] e.
Proof. intros p rest s H. exists s. unfold gets. rewrite (ah_endian _ _ _ _ H). cbn. by rewrite Z.add_0_r. Qed.

Lemma parses_bind {A C} e (m : Op A) (k : A -> Op C) b1 b2 a c :
  parses e m b1 a -> parses e (k a) b2 c -> parses e (bind m k) (b1 ++ b2) c.
Proof.
  intros H1 H2 p rest s H. rewrite <- app_assoc in H. destruct (H1 _ _ _ H) as (s1 & E1 & A1 & D1).
  destruct (H2 _ _ _ A1) as (s2 & E2 & A2 & D2). exists s2. unfold bind. rewrite E1, E2. split; [done|].
  rewrite length_app, Nat2Z.inj_add, Z.add_assoc. split; [done|]. by rewrite D2, D1.
Qed.

(** A step that reads nothing. *)
Lemma parses_then {A C} e (m : Op A) (k : A -> Op C) bs a c : parses e m bs a -> parses e (k a) [] c -> parses e (bind m k) bs c.
Proof. intros H1 H2. rewrite <- (app_nil_r bs). by eapply parses_bind. Qed.

Lemma parses_read e bs : parses e (read (Z.of_nat (length bs))) bs bs.
Proof.
  intros p rest s [W Ee Ep [tail Et]]. pose proof (length_data s W) as LD. destruct (rest_bounds s W) as (Hr & Hp & Hk).
  assert (L : Z.of_nat (length (bs ++ rest)) + Z.of_nat (length tail) = y_size s - p).
  { rewrite <- Nat2Z.inj_add, <- length_app, <- Et, length_drop. lia. }
  rewrite length_app in L. pose proof (read_ok s (Z.of_nat (length bs)) W ltac:(lia)) as G.
  btest (y_size s - y_position s <? Z.of_nat (length bs)); [lia|]. destruct G as (s' & E & W' & EV & _). exists s'.
  assert (Es : slice (v_data (view s)) (v_pos (view s)) (Z.of_nat (length bs)) = bs).
  { unfold slice. change (v_pos (view s)) with (y_position s). rewrite Ep, Et, Nat2Z.id, <- app_assoc. apply take_app_length. }
  rewrite Es in E. injection EV as E1 E2 E3. split; [done|]. split; [|exact E1]. split; [done|by rewrite E3| |].
  - rewrite E2. change (v_pos (view s)) with (y_position s). lia.
  - exists tail. change (v_data (view s')) with (slice (mem s') 0 (y_size s')). rewrite E1. rewrite Z2Nat.inj_add, Nat2Z.id by lia.
    change (slice (mem s) 0 (y_size s)) with (v_data (view s)). rewrite <- drop_drop, Et, <- app_assoc. apply drop_app_length.
Qed.

(** ** Integers *)

Definition known (e : Z) : Prop := e = BRONX_LITTLE_ENDIAN \/ e = BRONX_BIG_ENDIAN.

Lemma length_wire e w v : length (wire e w v) = w.
Proof. unfold wire. destruct (_ =? _); by rewrite ?length_rev, length_le_split. Qed.

Lemma wire_1 e v : wire e 1 v = [byte.of_Z v] /\ object_bytes 1 v = [byte.of_Z v].
Proof. unfold wire, object_bytes. by destruct (_ =? _), host_big. Qed.

Lemma emits_fixed e sgn w v : known e -> Z.of_nat w < 2 ^ 53 -> emits e (write_fixed sgn w v) (wire e w v).
Proof.
  intros He Hw s W Ee. unfold write_fixed, bind at 1, gets at 1. rewrite Ee, wire_written by done.
  apply (emits_write e (wire e w v)); [by rewrite length_wire|done|done].
Qed.

Lemma emits_byte e v : emits e (write (object_bytes 1 v)) (wire e 1 v).
Proof. rewrite (proj2 (wire_1 e v)), (proj1 (wire_1 e v)). by apply emits_write. Qed.

Lemma parses_value e sgn w v : parses e (read_value sgn w) (wire e w v) (value_of sgn w (object_value (wire e w v))).
Proof.
  unfold read_value. apply (parses_then e _ _ _ (wire e w v)).
  - pose proof (parses_read e (wire e w v)) as H. by rewrite length_wire in H.
  - unfold value_of. destruct sgn; apply parses_ret.
Qed.

Lemma parses_fixed e sgn w v : known e -> (0 < w)%nat -> fits sgn w v = true -> parses e (read_fixed sgn w) (wire e w v) v.
Proof.
  intros He Hw Hf. rewrite <- (wire_read sgn w v e He Hw Hf) at 2. cbv zeta. unfold read_fixed. eapply parses_then; [apply parses_value|].
  change (@nil byte) with ([] ++ @nil byte). eapply parses_bind; [apply parses_endian|]. apply parses_ret.
Qed.

Lemma parses_byte e sgn v : known e -> fits sgn 1 v = true -> parses e (read_value sgn 1) (wire e 1 v) v.
Proof.
  intros He Hf. pose proof (parses_value e sgn 1 v) as H. assert (E : value_of sgn 1 (object_value (wire e 1 v)) = v); [|by rewrite E in H].
  rewrite (proj1 (wire_1 e v)). assert (Eo : object_value [byte.of_Z v] = le_combine (le_split 1 v)) by (unfold object_value; by destruct host_big).
  rewrite Eo, le_combine_split. destruct sgn; [apply (signed_value 1 v); [lia|done]|]. cbn in *. b2p. apply Z.mod_small. lia.
Qed.

(** ** Variable length *)

Lemma varint_length room v bs : varint room v = Some bs -> (length bs <= room)%nat.
Proof.
  revert v bs. induction room as [|room IH]; intros v bs; [done|]. cbn [varint]. destruct (_ <? v); [|intros [= <-]; cbn; lia].
  destruct (varint room _) as [rest|] eqn:E; [|done]. intros [= <-]. apply IH in E. cbn. lia.
Qed.

Lemma varint_total room v : (0 < room)%nat -> 0 <= v < 2 ^ (7 * Z.of_nat room) -> is_Some (varint room v).
Proof.
  revert v. induction room as [|room IH]; intros v Hr Hv; [lia|]. cbn [varint]. btest (0x7f <? v); [|done].
  destruct room as [|room]; [cbn in Hv; lia|]. rewrite Z.shiftr_div_pow2 by lia. destruct (IH (v / 2 ^ 7)) as [rest ->]; [lia| |done].
  split; [apply Z.div_pos; lia|]. apply Z.div_lt_upper_bound; [lia|]. rewrite <- Z.pow_add_r by lia.
  replace (7 + 7 * Z.of_nat (S room)) with (7 * Z.of_nat (S (S room))) by lia. lia.
Qed.

Lemma shift_in acc x i : 0 <= acc < 2 ^ i -> 0 <= x -> 0 <= i -> Z.lor acc (x * 2 ^ i) = acc + x * 2 ^ i.
Proof.
  intros Ha Hx Hi. apply or_to_plus. rewrite <- Z.shiftl_mul_pow2 by done. apply Z.bits_inj'. intros k Hk.
  rewrite Z.land_spec, Z.bits_0. destruct (decide (k < i)).
  - rewrite Z.shiftl_spec_low by lia. apply andb_false_r.
  - rewrite andb_false_iff. left. rewrite <- (Z.mod_small acc (2 ^ i)) by lia. apply Z.mod_pow2_bits_high. lia.
Qed.

Lemma low_group v : 0 <= v -> Z.lor (Z.land v 0x7f) 0x80 = v mod 128 + 128 /\ Z.land (v mod 128 + 128) 0x7f = v mod 128.
Proof.
  intros Hv. change 0x7f with (Z.ones 7). rewrite !Z.land_ones by lia. change (2 ^ 7) with 128.
  pose proof (Z.mod_pos_bound v 128 ltac:(lia)). split.
  - exact (shift_in (v mod 128) 1 7 ltac:(lia) ltac:(lia) ltac:(lia)).
  - symmetry. apply (Z.mod_unique_pos _ _ 1); lia.
Qed.

Lemma parses_uint8 e x : known e -> 0 <= x < 256 -> parses e readFuint8 [byte.of_Z x] x.
Proof. intros He Hx. rewrite <- (proj1 (wire_1 e x)). apply (parses_byte e false x); [done|]. unfold fits. change (2 ^ (8 * Z.of_nat 1)) with 256. lia. Qed.

Lemma parses_varint e bits turns v i acc bs : known e -> varint turns v = Some bs -> 0 <= v -> v * 2 ^ i < 2 ^ bits ->
  0 <= acc < 2 ^ i -> 0 <= i -> parses e (read_varint bits turns i acc) bs (acc + v * 2 ^ i).
Proof.
  intros He. revert v i acc bs. induction turns as [|turns IH]; intros v i acc bs E Hv Hb Ha Hi; [done|]. cbn [varint] in E.
  assert (Hpow : 0 < 2 ^ i) by (apply Z.pow_pos_nonneg; lia).
  cbn [read_varint]. btest (0x7f <? v).
  - destruct (varint turns _) as [rest|] eqn:Er; [|done]. injection E as <-. destruct (low_group v Hv) as [E1 E2]. rewrite E1.
    pose proof (Z.mod_pos_bound v 128 ltac:(lia)). pose proof (Z_div_mod_eq_full v 128).
    change (byte.of_Z (v mod 128 + 128) :: rest) with ([byte.of_Z (v mod 128 + 128)] ++ rest).
    eapply parses_bind; [apply parses_uint8; [done|lia]|]. btest (v mod 128 + 128 <? 0x80); [lia|]. rewrite E2.
    rewrite Z.shiftl_mul_pow2 by lia. rewrite Z.mod_small by nia. rewrite shift_in by lia.
    rewrite Z.shiftr_div_pow2 in Er by lia. change (2 ^ 7) with 128 in Er.
    replace (acc + v * 2 ^ i) with ((acc + v mod 128 * 2 ^ i) + (v / 128) * 2 ^ (i + 7)).
    2: { rewrite Z.pow_add_r by lia. change (2 ^ 7) with 128. nia. }
    assert (0 <= v / 128) by (apply Z.div_pos; lia).
    apply IH; try done; try lia; rewrite Z.pow_add_r by lia; change (2 ^ 7) with 128; nia.
  - injection E as <-. eapply parses_then; [apply parses_uint8; [done|lia]|]. btest (v <? 0x80); [|lia].
    rewrite Z.shiftl_mul_pow2 by lia. rewrite Z.mod_small by nia. rewrite shift_in by lia. apply parses_ret.
Qed.

(** ** Zigzag *)

Lemma lxor_ones n x : 0 <= n -> 0 <= x < 2 ^ n -> Z.lxor x (2 ^ n - 1) = 2 ^ n - 1 - x.
Proof.
  intros Hn Hx. replace (2 ^ n - 1) with (Z.ones n) by (rewrite Z.ones_equiv; lia).
  assert (Hd : Z.ldiff x (Z.ones n) = 0).
  { destruct (decide (x = 0)) as [->|]; [done|]. apply Z.ldiff_ones_r_low; [lia|]. apply Z.log2_lt_pow2; lia. }
  rewrite (Z.sub_nocarry_ldiff (Z.ones n) x Hd). apply Z.bits_inj'. intros k Hk. rewrite Z.lxor_spec, Z.ldiff_spec.
  apply (f_equal (fun z => Z.testbit z k)) in Hd. rewrite Z.ldiff_spec, Z.bits_0 in Hd.
  by destruct (Z.testbit x k), (Z.testbit (Z.ones n) k).
Qed.

Lemma EncodeZigzag32_ok v : fits true 4 v = true -> EncodeZigzag32 v = if 0 <=? v then 2 * v else - 2 * v - 1.
Proof.
  intros H. cbn in H. b2p. unfold EncodeZigzag32. rewrite Z.shiftl_mul_pow2, Z.shiftr_div_pow2 by lia. unfold wrap32. btest (0 <=? v).
  - rewrite (Z.div_small v) by lia. cbn [Z.modulo Z.div_eucl]. rewrite Z.mod_0_l, Z.lxor_0_r by lia.
    rewrite (Z.mod_small v) by lia. rewrite Z.mod_small; lia.
  - replace (v / 2 ^ 31) with (-1) by (apply (Z.div_unique_pos _ _ _ (v + 2 ^ 31)); lia).
    change (-1 mod 2 ^ 32) with (2 ^ 32 - 1). replace (v mod 2 ^ 32) with (v + 2 ^ 32) by (apply (Z.mod_unique_pos _ _ (-1)); lia).
    replace ((v + 2 ^ 32) * 2 ^ 1 mod 2 ^ 32) with (2 * v + 2 ^ 32) by (apply (Z.mod_unique_pos _ _ 1); lia).
    rewrite lxor_ones; lia.
Qed.

Lemma EncodeZigzag64_ok v : fits true 8 v = true -> EncodeZigzag64 v = if 0 <=? v then 2 * v else - 2 * v - 1.
Proof.
  intros H. cbn in H. b2p. unfold EncodeZigzag64. rewrite Z.shiftl_mul_pow2, Z.shiftr_div_pow2 by lia. unfold wrap64. btest (0 <=? v).
  - rewrite (Z.div_small v) by lia. rewrite Z.mod_0_l, Z.lxor_0_r by lia.
    rewrite (Z.mod_small v) by lia. rewrite Z.mod_small; lia.
  - replace (v / 2 ^ 63) with (-1) by (apply (Z.div_unique_pos _ _ _ (v + 2 ^ 63)); lia).
    change (-1 mod 2 ^ 64) with (2 ^ 64 - 1). replace (v mod 2 ^ 64) with (v + 2 ^ 64) by (apply (Z.mod_unique_pos _ _ (-1)); lia).
    replace ((v + 2 ^ 64) * 2 ^ 1 mod 2 ^ 64) with (2 * v + 2 ^ 64) by (apply (Z.mod_unique_pos _ _ 1); lia).
    rewrite lxor_ones; lia.
Qed.

(** What both decoders do, on numbers of [n] bits. *)
Lemma unzigzag n v z : 0 < n -> - 2 ^ (n - 1) <= v < 2 ^ (n - 1) -> z = (if 0 <=? v then 2 * v else - 2 * v - 1) ->
  Z.lxor (Z.shiftr z 1) ((- Z.land z 1) mod 2 ^ n) = v mod 2 ^ n.
Proof.
  intros Hn Hv ->. assert (E : 2 ^ n = 2 * 2 ^ (n - 1)) by (rewrite <- Z.pow_succ_r by lia; f_equal; lia).
  rewrite Z.shiftr_div_pow2 by lia. assert (El : forall z, Z.land z 1 = z mod 2) by (intros z; exact (Z.land_ones z 1 ltac:(lia))). rewrite El. change (2 ^ 1) with 2. btest (0 <=? v).
  - rewrite (Z.mul_comm 2 v), Z.div_mul, Z.mod_mul by lia. cbn [Z.opp]. by rewrite Z.mod_0_l, Z.lxor_0_r, Z.mod_small by lia.
  - replace ((-2 * v - 1) / 2) with (- v - 1) by (apply (Z.div_unique_pos _ _ _ 1); lia).
    replace ((-2 * v - 1) mod 2) with 1 by (apply (Z.mod_unique_pos _ _ (- v - 1)); lia).
    replace (- (1) mod 2 ^ n) with (2 ^ n - 1) by (apply (Z.mod_unique_pos _ _ (-1)); lia).
    rewrite lxor_ones by lia. apply (Z.mod_unique_pos _ _ (-1)); lia.
Qed.

Lemma DecodeZigzag32_ok v : fits true 4 v = true -> DecodeZigzag32 (EncodeZigzag32 v) = v.
Proof.
  intros H. pose proof (EncodeZigzag32_ok v H) as E. pose proof H as H'. cbn in H'. b2p. unfold DecodeZigzag32, wrap32.
  rewrite (unzigzag 32 v _ ltac:(lia) ltac:(lia) E). by apply (signed_value 4 v); [lia|].
Qed.

Lemma DecodeZigzag64_ok v : fits true 8 v = true -> DecodeZigzag64 (EncodeZigzag64 v) = v.
Proof.
  intros H. pose proof (EncodeZigzag64_ok v H) as E. pose proof H as H'. cbn in H'. b2p. unfold DecodeZigzag64, wrap64.
  rewrite (unzigzag 64 v _ ltac:(lia) ltac:(lia) E). by apply (signed_value 8 v); [lia|].
Qed.

(** ** Values of every kind *)

Inductive Item :=
  | FINT8 (v : Z) | FUINT8 (v : Z) | FINT16 (v : Z) | FUINT16 (v : Z) | FINT32 (v : Z) | FUINT32 (v : Z) | FINT64 (v : Z) | FUINT64 (v : Z)
  | INT32 (v : Z) | UINT32 (v : Z) | INT64 (v : Z) | UINT64 (v : Z) | FLOAT (bits : Z) | DOUBLE (bits : Z)
  | STRF16 (t : string) | STRF32 (t : string) | STRF64 (t : string) | VARSTR (t : string).

Definition put_item (i : Item) : Op unit :=
  match i with
  | FINT8 v => writeFint8 v | FUINT8 v => writeFuint8 v | FINT16 v => writeFint16 v | FUINT16 v => writeFuint16 v
  | FINT32 v => writeFint32 v | FUINT32 v => writeFuint32 v | FINT64 v => writeFint64 v | FUINT64 v => writeFuint64 v
  | INT32 v => writeInt32 v | UINT32 v => writeUint32 v | INT64 v => writeInt64 v | UINT64 v => writeUint64 v
  | FLOAT b => writeFloat b | DOUBLE b => writeDouble b
  | STRF16 t => writeStringF16 t | STRF32 t => writeStringF32 t | STRF64 t => writeStringF64 t | VARSTR t => writeVarStr t
  end.

(** Reads a value of the same kind. *)
Definition take_item (like : Item) : Op Item :=
  match like with
  | FINT8 _ => v <- readFint8 ;; ret (FINT8 v) | FUINT8 _ => v <- readFuint8 ;; ret (FUINT8 v)
  | FINT16 _ => v <- readFint16 ;; ret (FINT16 v) | FUINT16 _ => v <- readFuint16 ;; ret (FUINT16 v)
  | FINT32 _ => v <- readFint32 ;; ret (FINT32 v) | FUINT32 _ => v <- readFuint32 ;; ret (FUINT32 v)
  | FINT64 _ => v <- readFint64 ;; ret (FINT64 v) | FUINT64 _ => v <- readFuint64 ;; ret (FUINT64 v)
  | INT32 _ => v <- readInt32 ;; ret (INT32 v) | UINT32 _ => v <- readUint32 ;; ret (UINT32 v)
  | INT64 _ => v <- readInt64 ;; ret (INT64 v) | UINT64 _ => v <- readUint64 ;; ret (UINT64 v)
  | FLOAT _ => v <- readFloat ;; ret (FLOAT v) | DOUBLE _ => v <- readDouble ;; ret (DOUBLE v)
  | STRF16 _ => t <- readStringF16 ;; ret (STRF16 t) | STRF32 _ => t <- readStringF32 ;; ret (STRF32 t)
  | STRF64 _ => t <- readStringF64 ;; ret (STRF64 t) | VARSTR _ => t <- readVarStr ;; ret (VARSTR t)
  end.

(** In the range of its type; a string short enough for its length field and for memory. *)
Definition item_ok (i : Item) : bool :=
  match i with
  | FINT8 v => fits true 1 v | FUINT8 v => fits false 1 v | FINT16 v => fits true 2 v | FUINT16 v => fits false 2 v
  | FINT32 v | INT32 v => fits true 4 v | FUINT32 v | UINT32 v | FLOAT v => fits false 4 v
  | FINT64 v | INT64 v => fits true 8 v | FUINT64 v | UINT64 v | DOUBLE v => fits false 8 v
  | STRF16 t => fits false 2 (len_of t) && str_alloc (len_of t)
  | STRF32 t => fits false 4 (len_of t) && str_alloc (len_of t)
  | STRF64 t | VARSTR t => str_alloc (len_of t)
  end.

(** What a value is in the array, byte for byte. *)
Definition group (room : nat) (v : Z) : list byte := default [] (varint room v).

Definition enc (e : Z) (i : Item) : list byte :=
  match i with
  | FINT8 v | FUINT8 v => wire e 1 v | FINT16 v | FUINT16 v => wire e 2 v | FINT32 v | FUINT32 v | FLOAT v => wire e 4 v
  | FINT64 v | FUINT64 v | DOUBLE v => wire e 8 v
  | INT32 v => group 5 (EncodeZigzag32 v) | UINT32 v => group 5 v
  | INT64 v => group 10 (EncodeZigzag64 v) | UINT64 v => group 10 v
  | STRF16 t => wire e 2 (len_of t) ++ list_byte_of_string t | STRF32 t => wire e 4 (len_of t) ++ list_byte_of_string t
  | STRF64 t => wire e 8 (len_of t) ++ list_byte_of_string t | VARSTR t => group 10 (len_of t) ++ list_byte_of_string t
  end.

Lemma zigzag_range v : (fits true 4 v = true -> 0 <= EncodeZigzag32 v < 2 ^ 32) /\ (fits true 8 v = true -> 0 <= EncodeZigzag64 v < 2 ^ 64).
Proof.
  split; intros H; [rewrite EncodeZigzag32_ok by done|rewrite EncodeZigzag64_ok by done]; cbn in H; b2p; btest (0 <=? v); lia.
Qed.

Lemma emits_varint e room v : (0 < room <= 10)%nat -> 0 <= v < 2 ^ (7 * Z.of_nat room) -> emits e (write_varint room v) (group room v).
Proof.
  intros Hr Hv. unfold write_varint, group. destruct (varint_total room v ltac:(lia) Hv) as [bs E]. rewrite E. cbn.
  apply emits_write. apply varint_length in E. lia.
Qed.

Lemma parses_group e bits room v : known e -> (0 < room)%nat -> 0 <= v < 2 ^ bits -> v < 2 ^ (7 * Z.of_nat room) ->
  parses e (read_varint bits room 0 0) (group room v) v.
Proof.
  intros He Hr Hv Hl. unfold group. destruct (varint_total room v Hr ltac:(lia)) as [bs E]. rewrite E. cbn [default].
  pose proof (parses_varint e bits room v 0 0 bs He E) as H. rewrite Z.pow_0_r, Z.mul_1_r in H. apply H; lia.
Qed.

Lemma text_length t : Z.of_nat (length (list_byte_of_string t)) = len_of t.
Proof. unfold list_byte_of_string, len_of. rewrite length_map. f_equal. induction t as [|c t IH]; [done|]. cbn. by rewrite IH. Qed.

Lemma emits_text e t : str_alloc (len_of t) = true -> emits e (write (list_byte_of_string t)) (list_byte_of_string t).
Proof. intros H. apply emits_write. rewrite text_length. pose proof (str_alloc_small _ H). lia. Qed.

Lemma parses_text e t : str_alloc (len_of t) = true -> parses e (read_text (len_of t)) (list_byte_of_string t) t.
Proof.
  intros H. unfold read_text. rewrite H. rewrite <- text_length. eapply parses_then; [apply parses_read|].
  rewrite string_of_list_byte_of_string. apply parses_ret.
Qed.

Lemma len_range t : str_alloc (len_of t) = true -> 0 <= len_of t < 2 ^ 48.
Proof. intros H. pose proof (str_alloc_small _ H). unfold len_of in *. lia. Qed.

Lemma len_fits t : 0 <= len_of t < 2 ^ 48 -> fits false 8 (len_of t) = true.
Proof. intros H. unfold fits. change (2 ^ (8 * Z.of_nat 8)) with (2 ^ 64). lia. Qed.

Lemma emits_item e i : known e -> item_ok i = true -> emits e (put_item i) (enc e i).
Proof.
  intros He Hi. destruct i as [v|v|v|v|v|v|v|v|v|v|v|v|v|v|t|t|t|t]; cbn [item_ok put_item enc] in *;
    try (by apply emits_byte); try (by apply emits_fixed).
  - apply emits_varint; [lia|]. pose proof (proj1 (zigzag_range v) Hi). lia.
  - cbn in Hi. b2p. apply emits_varint; lia.
  - apply emits_varint; [lia|]. pose proof (proj2 (zigzag_range v) Hi). lia.
  - cbn in Hi. b2p. apply emits_varint; lia.
  - b2p. cbn in H. b2p. unfold writeStringF16, wrap16. rewrite Z.mod_small by lia. apply emits_seq; [by apply emits_fixed|by apply emits_text].
  - b2p. cbn in H. b2p. unfold writeStringF32, wrap32. rewrite Z.mod_small by lia. apply emits_seq; [by apply emits_fixed|by apply emits_text].
  - apply emits_seq; [by apply emits_fixed|by apply emits_text].
  - pose proof (len_range t Hi). apply emits_seq; [apply emits_varint; lia|by apply emits_text].
Qed.

Lemma parses_item e i : known e -> item_ok i = true -> parses e (take_item i) (enc e i) i.
Proof.
  intros He Hi. destruct i as [v|v|v|v|v|v|v|v|v|v|v|v|v|v|t|t|t|t]; cbn [item_ok take_item enc] in *;
    try (eapply parses_then; [by first [apply parses_byte|apply parses_fixed; [|lia|]]|apply parses_ret]).
  - pose proof (proj1 (zigzag_range v) Hi). unfold readInt32. rewrite <- (DecodeZigzag32_ok v Hi) at 2.
    eapply parses_then; [|apply parses_ret]. eapply parses_then; [apply parses_group; lia || done|apply parses_ret].
  - cbn in Hi. b2p. eapply parses_then; [apply parses_group; lia || done|apply parses_ret].
  - pose proof (proj2 (zigzag_range v) Hi). unfold readInt64. rewrite <- (DecodeZigzag64_ok v Hi) at 2.
    eapply parses_then; [|apply parses_ret]. eapply parses_then; [apply parses_group; lia || done|apply parses_ret].
  - cbn in Hi. b2p. eapply parses_then; [apply parses_group; lia || done|apply parses_ret].
  - b2p. eapply parses_then; [|apply parses_ret]. eapply parses_bind; [by apply parses_fixed; [|lia|]|by apply parses_text].
  - b2p. eapply parses_then; [|apply parses_ret]. eapply parses_bind; [by apply parses_fixed; [|lia|]|by apply parses_text].
  - pose proof (len_range t Hi). eapply parses_then; [|apply parses_ret]. eapply parses_bind; [apply parses_fixed; [done|lia|by apply len_fits]|by apply parses_text].
  - pose proof (len_range t Hi). eapply parses_then; [|apply parses_ret]. eapply parses_bind; [apply parses_group; lia || done|by apply parses_text].
Qed.

Fixpoint put_items (l : list Item) : Op unit := match l with [] => ret tt | i :: l => put_item i ;;; put_items l end.
Fixpoint take_items (l : list Item) : Op (list Item) :=
  match l with [] => ret [] | i :: l => v <- take_item i ;; r <- take_items l ;; ret (v :: r) end.

Lemma emits_items e l : known e -> forallb item_ok l = true -> emits e (put_items l) (concat (map (enc e) l)).
Proof.
  intros He. induction l as [|i l IH]; intros Hl; cbn [put_items map concat forallb] in *; b2p.
  - intros s W _. unfold ret, put. cbn. by rewrite splice_nil, Z.add_0_r.
  - apply emits_seq; [by apply emits_item|by apply IH].
Qed.

Lemma parses_items e l : known e -> forallb item_ok l = true -> parses e (take_items l) (concat (map (enc e) l)) l.
Proof.
  intros He. induction l as [|i l IH]; intros Hl; cbn [take_items map concat forallb] in *; b2p; [apply parses_ret|].
  eapply parses_bind; [by apply parses_item|]. eapply parses_then; [by apply IH|apply parses_ret].
Qed.

(** C24: what is written in a byte array is read back. Any sequence of values of any kind, each
    in the range of its type and each string short enough for its length field, is in the
    array as the bytes [enc] says, in its byte order and the same on every machine; with the
    position moved back to where they begin, reading the same kinds gives the same values and
    ends where the writing ended. Writing fails only when memory runs out. *)
Theorem items_roundtrip (l : list Item) (s : ByteArray) : wf s -> known (y_endian s) -> forallb item_ok l = true ->
  match put_items l s with
  | OK _ s1 =>
      view s1 = put (concat (map (enc (y_endian s)) l)) (view s) /\
      exists s2 s3, setPosition (y_position s) s1 = OK tt s2 /\ take_items l s2 = OK l s3 /\ view s3 = view s1
  | THROW x _ => x = BAD_ALLOC
  | CRASH => False
  end.
Proof.
  intros W He Hl. pose proof (emits_items (y_endian s) l He Hl s W eq_refl) as G. destruct (put_items l s) as [[] s1|x s1|]; [|done|done].
  destruct G as [W1 E1]. split; [done|]. set (bs := concat (map (enc (y_endian s)) l)) in *.
  pose proof (length_data s W) as LD. destruct (rest_bounds s W) as (Hr & Hp & Hk). pose proof (wf_size s1 W1).
  assert (E1' : y_position s1 = y_position s + Z.of_nat (length bs)) by (change (v_pos (view s1) = v_pos (view s) + Z.of_nat (length bs)); by rewrite E1).
  pose proof (wf_position s1 W1). pose proof (setPosition_ok s1 (y_position s) W1 Hp) as P. btest (y_capacity s1 <? y_position s); [lia|].
  destruct P as (s2 & -> & W2 & ES2 & EM2 & EK2 & EB2 & EV2). rewrite Z.max_l in * by lia.
  assert (A : ahead (y_endian s) (y_position s) (bs ++ []) s2).
  { split; [done| | |].
    - change (v_endian (view s2) = y_endian s). rewrite EV2. cbn [v_endian]. change (v_endian (view s1) = y_endian s). by rewrite E1.
    - change (v_pos (view s2) = y_position s). by rewrite EV2.
    - exists (drop (Z.to_nat (y_position s) + length bs) (v_data (view s))). rewrite EV2. cbn [v_data].
      change (slice (mem s1) 0 (y_size s1)) with (v_data (view s1)). rewrite E1. unfold put. cbn [v_data v_pos]. rewrite app_nil_r.
      unfold splice. rewrite drop_app_length'; [done|]. rewrite length_take. cbn in *. lia. }
  destruct (parses_items (y_endian s) l He Hl _ _ _ A) as (s3 & E3 & [W3 A1 A2 _] & D3). exists s2, s3. split; [done|]. split; [done|].
  transitivity (mkView (v_data (view s3)) (y_position s3) (y_endian s3)); [done|]. rewrite D3, A1, A2, EV2. cbn [v_data].
  fold bs. rewrite <- E1'. transitivity (mkView (v_data (view s1)) (y_position s1) (y_endian s1)); [|done]. f_equal.
  change (y_endian s = v_endian (view s1)). by rewrite E1.
Qed.
End facts.

(** ** Examples and witnesses *)

Definition little : Host := {| host_big := false |}.
#[local] Existing Instance little.
#[local] Instance plenty : Heap := scarce 99.

Definition sample_items : list Item :=
  [FINT16 (-2); VARSTR "gateway"; INT32 (-70); UINT64 300; STRF16 "hub"; FUINT32 0xdeadbeef; DOUBLE 0x3ff0000000000000].

(** Blocks of four bytes, big-endian on a little-endian machine. *)
Lemma items_roundtrip_witness :
  match put_items sample_items (empty4 99) with
  | OK _ s1 => y_position s1 = 31 /\ exists s2 s3, setPosition 0 s1 = OK tt s2 /\ take_items sample_items s2 = OK sample_items s3 /\ view s3 = view s1
  | _ => False
  end.
Proof.
  pose proof (items_roundtrip sample_items (empty4 99) (empty4_wf 99 ltac:(lia)) (or_intror eq_refl) eq_refl) as H.
  change (y_position (empty4 99)) with 0 in H.
  assert (E : match put_items sample_items (empty4 99) with OK _ s1 => y_position s1 = 31 | _ => False end) by (vm_compute; reflexivity).
  destruct (put_items sample_items (empty4 99)) as [u s1|x s1|]; [|destruct E|destruct E].
  destruct H as [_ H]. split; [exact E|exact H].
Defined.

(** The boundaries of variable-length integers, and the smallest number. *)
Example varint_bytes :
  (group 5 127, group 5 128, group 5 (EncodeZigzag32 (- 2 ^ 31))) = ([Byte.x7f], [Byte.x80; Byte.x01], [Byte.xff; Byte.xff; Byte.xff; Byte.xff; Byte.x0f]).
Proof. vm_compute. reflexivity. Qed.

Example hex_text :
  match writeFuint32 0xcafe0001 (empty4 99) with
  | OK _ s => match setPosition 0 s with OK _ s => match toHexString s with OK t _ => Some t | _ => None end | _ => None end
  | _ => None
  end = Some "ca fe 00 01 "%string.
Proof. vm_compute. reflexivity. Qed.

(** A string too long for its length field: the length is cut to sixteen bits, the text is
    written whole, and whoever reads takes the text for what comes after an empty string. *)
Example long_string :
  let t := String.concat "" (repeat "0123456789abcdef"%string 4096) in
  match bytearray_new 131072 BRONX_BIG_ENDIAN with
  | Some s =>
      match (writeStringF16 t ;;; writeFuint8 7 ;;; setPosition 0 ;;; a <- readStringF16 ;; b <- readFuint8 ;; ret (a, b)) s with
      | OK r _ => Some r
      | _ => None
      end
  | None => None
  end = Some (""%string, 48).
Proof. vm_compute. reflexivity. Qed.

(** A length nobody wrote: memory for the string is asked for before what is there is looked at. *)
Example length_first :
  match (writeFuint64 (2 ^ 63) ;;; setPosition 0 ;;; readStringF64) (empty4 99) with THROW e s => Some (e, y_position s) | _ => None end
  = Some (LENGTH_ERROR, 8).
Proof. vm_compute. reflexivity. Qed.
