(* ===== verification/Stream.v ===== *)
(** * Streams over a socket (src/bronx/net/src/stream.cpp, src/bronx/net/src/sock_stream.cpp,
      the sending and receiving calls of src/bronx/net/src/net_socket.cpp)

    [readExact] and [writeExact] repeat a read or a write that may do less than it was asked
    for. The kernel is a script: the pieces in which the peer's bytes come, with failures
    and the end in between, and how much of each send it takes. *)

From S2P Require Import Prelude Records ByteArray.
From coqutil Require Import Byte.

#[local] Open Scope Z_scope.
#[local] Open Scope op_scope.

(** A socket: whether it is connected, what comes ([Some []] is the peer's end, [None] an
    error), how much each send takes at most ([None]: it fails), and what was sent. *)
Record Sock := mkSock { k_connected : bool; k_rx : list (option (list byte)); k_tx : list (option Z); k_sent : list byte }.

(** The kernel's [recvmsg] and [sendmsg]. A piece longer than the room is cut and the rest
    stays; a script that is over is the peer's end, and a failure. *)
Definition kernel_recv (room : Z) (k : Sock) : Z * list byte * Sock :=
  match k_rx k with
  | [] => (0, [], k)
  | None :: rx => (-1, [], k <| k_rx := rx |>)
  | Some bs :: rx =>
      if Z.of_nat (length bs) <=? room then (Z.of_nat (length bs), bs, k <| k_rx := rx |>)
      else (room, take (Z.to_nat room) bs, k <| k_rx := Some (drop (Z.to_nat room) bs) :: rx |>)
  end.

Definition kernel_send (bs : list byte) (k : Sock) : Z * Sock :=
  match k_tx k with
  | Some n :: tx =>
      let n := Z.max 0 (Z.min n (Z.of_nat (length bs))) in
      (n, (k <| k_tx := tx |>) <| k_sent := k_sent k ++ take (Z.to_nat n) bs |>)
  | None :: tx => (-1, k <| k_tx := tx |>)
  | [] => (-1, k)
  end.

(** [BxSocket::recv] and [BxSocket::send]. *)
Definition recv (room : Z) (k : Sock) : Z * list byte * Sock := if k_connected k then kernel_recv room k else (-1, [], k).
Definition send (bs : list byte) (k : Sock) : Z * Sock := if k_connected k then kernel_send bs k else (-1, k).

(** The end of a [BxSocket]; [close] of the stream and its destructor, when it owns the socket. *)
Definition close_sock (k : Sock) : Sock := k <| k_connected := false |>.
Definition stream_closed (owner : bool) (k : Sock) : Sock := if owner then close_sock k else k.

Section stream.
Context {HP : Heap}.

(** ** One read or write *)

Definition stream_read (length_ : Z) (k : Sock) : Z * list byte * Sock :=
  if negb (k_connected k) then (-1, [], k) else recv length_ k.

Definition stream_write (bs : list byte) (k : Sock) : Z * Sock := if negb (k_connected k) then (-1, k) else send bs k.

Definition stream_read_ba (length_ : Z) (k : Sock) : Op (Z * Sock) :=
  if negb (k_connected k) then ret (-1, k)
  else if length_ =? 0 then ret (0, k)
  else
    r <- peekWriteIovec length_ ;;
    let '(size, iovs) := r in
    if (size =? 0) || match iovs with [] => true | _ => false end then ret (-1, k)
    else
      let '(rt, bs, k) := recv size k in
      scatter iovs bs ;;;
      (if 0 <? rt then position <- gets y_position ;; setPosition (position + rt) else ret tt) ;;;
      ret (rt, k).

Definition stream_write_ba (length_ : Z) (k : Sock) : Op (Z * Sock) :=
  if negb (k_connected k) then ret (-1, k)
  else if length_ =? 0 then ret (0, k)
  else
    r <- peekReadIovec length_ ;;
    let '(size, iovs) := r in
    if (size =? 0) || match iovs with [] => true | _ => false end then ret (-1, k)
    else
      bs <- gather iovs ;;
      let '(rt, k) := send bs k in
      (if 0 <? rt then position <- gets y_position ;; setPosition (position + rt) else ret tt) ;;;
      ret (rt, k).

(** ** All of it *)

(** The loops; [left] goes down with every turn that goes on, so it is fuel enough. What they
    return is an [int]. *)
Fixpoint read_exact_loop (fuel : nat) (length_ left : Z) (got : list byte) (k : Sock) : Z * list byte * Sock :=
  match fuel with
  | O => (wrap_int32 length_, got, k)
  | S fuel =>
      if left <=? 0 then (wrap_int32 length_, got, k)
      else
        let '(len, bs, k) := stream_read left k in
        if len <=? 0 then (len, got, k) else read_exact_loop fuel length_ (left - len) (got ++ bs) k
  end.

Definition readExact (length_ : Z) (k : Sock) : Z * list byte * Sock := read_exact_loop (S (Z.to_nat length_)) length_ length_ [] k.

Fixpoint write_exact_loop (fuel : nat) (length_ : Z) (rest : list byte) (k : Sock) : Z * Sock :=
  match fuel with
  | O => (wrap_int32 length_, k)
  | S fuel =>
      match rest with
      | [] => (wrap_int32 length_, k)
      | _ =>
          let '(len, k) := stream_write rest k in
          if len <=? 0 then (len, k) else write_exact_loop fuel length_ (drop (Z.to_nat len) rest) k
      end
  end.

Definition writeExact (bs : list byte) (k : Sock) : Z * Sock := write_exact_loop (S (length bs)) (Z.of_nat (length bs)) bs k.

Fixpoint exact_loop (one : Z -> Sock -> Op (Z * Sock)) (fuel : nat) (length_ left : Z) (k : Sock) : Op (Z * Sock) :=
  match fuel with
  | O => ret (wrap_int32 length_, k)
  | S fuel =>
      if left <=? 0 then ret (wrap_int32 length_, k)
      else
        r <- one left k ;;
        let '(len, k) := r in
        if len <=? 0 then ret (len, k) else exact_loop one fuel length_ (left - len) k
  end.

Definition readExact_ba (length_ : Z) (k : Sock) : Op (Z * Sock) := exact_loop stream_read_ba (S (Z.to_nat length_)) length_ length_ k.
Definition writeExact_ba (length_ : Z) (k : Sock) : Op (Z * Sock) := exact_loop stream_write_ba (S (Z.to_nat length_)) length_ length_ k.
End stream.

(** ** What comes and what goes *)

(** The bytes still to come, whatever is in between. *)
Definition incoming (k : Sock) : list byte := concat (map (default []) (k_rx k)).

Lemma recv_ok room k rt bs k' : 0 < room -> recv room k = (rt, bs, k') ->
  incoming k = bs ++ incoming k' /\ Z.of_nat (length bs) = Z.max 0 rt /\ rt <= room /\ k_connected k' = k_connected k /\
  k_sent k' = k_sent k /\ k_tx k' = k_tx k.
Proof.
  intros Hr. unfold recv. destruct (k_connected k) eqn:Ek; [|intros [= <- <- <-]; split_and!; try done; lia]. unfold kernel_recv, incoming.
  destruct (k_rx k) as [|[p|] rx] eqn:E; [by intros [= <- <- <-]; rewrite E, Ek; split_and!; try done; lia| |by intros [= <- <- <-]; split_and!; try done; lia].
  btest (Z.of_nat (length p) <=? room); intros [= <- <- <-]; cbn; (split_and!; try done; try lia).
  - by rewrite app_assoc, take_drop.
  - rewrite length_take. lia.
Qed.

Lemma send_ok bs k rt k' : send bs k = (rt, k') ->
  k_sent k' = k_sent k ++ take (Z.to_nat rt) bs /\ rt <= Z.of_nat (length bs) /\ k_connected k' = k_connected k /\ k_rx k' = k_rx k.
Proof.
  unfold send. destruct (k_connected k) eqn:Ek; [|intros [= <- <-]; rewrite app_nil_r; split_and!; try done; lia]. unfold kernel_send.
  destruct (k_tx k) as [|[n|] tx]; intros [= <- <-]; cbn; rewrite ?app_nil_r; split_and!; try done; lia.
Qed.

Section exact.
Context {HP : Heap}.

(** Bytes from the peer in the array. *)
Definition received (s : ByteArray) (k : Sock) (n rt : Z) (s' : ByteArray) (k' : Sock) : Prop :=
  wf s' /\ exists got, view s' = put got (view s) /\ incoming k = got ++ incoming k' /\ k_connected k' = k_connected k /\
    Z.of_nat (length got) = Z.max 0 rt /\ rt <= n.

Lemma peek_write_some s n : wf s -> 0 < n < 2 ^ 53 ->
  match peekWriteIovec n s with OK r s1 => wf s1 /\ view s1 = view s /\ r.2 <> [] | _ => True end.
Proof.
  intros W Hn. unfold peekWriteIovec. btest (n =? 0); [lia|]. unfold bind at 1. pose proof (addCapacity_ok s n W Hn) as G.
  destruct (addCapacity n s) as [[] s1|e s1|]; [|done|done]. destruct G as [W1 _ EV _ Hroom _ _]. injection EV as ED EP EE.
  unfold bind, gets. destruct (rest_bounds s1 W1) as (_ & Hp & _).
  destruct (peek_from_ok s1 (y_position s1) n W1) as (iovs & E & T); [lia..|]. rewrite (wf_cur s1 W1), E. cbn.
  split; [done|]. split; [unfold view; by rewrite ED, EP, EE|]. destruct iovs; [cbn in T; lia|done].
Qed.

Lemma stream_read_ba_ok s k n : wf s -> 0 < n < 2 ^ 53 ->
  match stream_read_ba n k s with
  | OK (rt, k') s' => received s k n rt s' k'
  | THROW e s' => e = BAD_ALLOC
  | CRASH => False
  end.
Proof.
  intros W Hn. unfold stream_read_ba. destruct (k_connected k) eqn:Ek; cbn [negb].
  2: { unfold ret. split; [done|]. exists []. rewrite put_nil by done. rewrite Ek. split_and!; try done; lia. }
  btest (n =? 0); [lia|]. unfold bind at 1.
  destruct (recv n k) as [[rt bs] k'] eqn:Er. destruct (recv_ok n k rt bs k' ltac:(lia) Er) as (Hin & Hb & Hrt & Hc & _).
  pose proof (fill_ok s n bs W Hn ltac:(lia)) as G. pose proof (peek_write_some s n W Hn) as N.
  destruct (peekWriteIovec n s) as [[size iovs] s1|e s1|]; [|by destruct G|done]. cbn [fst snd] in G, N. destruct G as [-> G].
  btest (n =? 0); [lia|]. destruct iovs as [|v iovs]; [by destruct N as (_ & _ & ?)|]. cbn [orb]. rewrite Er. unfold bind.
  destruct N as (W1 & EV1 & _).
  destruct (scatter (v :: iovs) bs s1) as [[] s2|e s2|] eqn:Es; [|done|done]. destruct G as (s' & E & W' & EV).
  btest (0 <? rt).
  - unfold gets. rewrite Z.max_r in Hb by lia. rewrite Hb in E. rewrite E. unfold ret. split; [done|]. exists bs. rewrite EV, Hc, Ek.
    split_and!; try done; lia.
  - destruct bs; [|cbn in Hb; lia]. cbn in Es. injection Es as <-. unfold ret. split; [done|]. exists []. rewrite put_nil, Hc, Ek by done.
    split_and!; try done; lia.
Qed.

(** Bytes of the array to the peer. *)
Definition passed (s : ByteArray) (k : Sock) (n rt : Z) (s' : ByteArray) (k' : Sock) : Prop :=
  wf s' /\ let m := Z.max 0 rt in
  view s' = mkView (v_data (view s)) (v_pos (view s) + m) (v_endian (view s)) /\
  k_sent k' = k_sent k ++ slice (v_data (view s)) (v_pos (view s)) m /\
  rt <= n /\ v_pos (view s) + m <= Z.of_nat (length (v_data (view s))).

Lemma passed_none s k n rt k' : wf s -> k_sent k' = k_sent k -> rt <= 0 -> 0 < n -> passed s k n rt s k'.
Proof.
  intros W Ek Hrt Hn. pose proof (length_data s W). destruct (rest_bounds s W) as (Hr & Hp & _). split; [done|].
  cbv zeta. rewrite Z.max_l by lia. rewrite cut_nothing, app_nil_r, Z.add_0_r. split_and!; try done; [lia|]. cbn in *. lia.
Qed.

Lemma stream_write_ba_ok s k n : wf s -> 0 < n -> exists rt k' s', stream_write_ba n k s = OK (rt, k') s' /\ passed s k n rt s' k'.
Proof.
  intros W Hn. unfold stream_write_ba. destruct (k_connected k) eqn:Ek; cbn [negb].
  2: { exists (-1), k, s. split; [done|]. by apply passed_none. }
  btest (n =? 0); [lia|]. unfold bind at 1. destruct (peek_read_ok s n W ltac:(lia)) as (iovs & -> & E). cbn [fst snd].
  set (m := Z.min n (y_size s - y_position s)) in *. pose proof (length_data s W) as LD. destruct (rest_bounds s W) as (Hr & Hp & Hk).
  destruct ((m =? 0) || _) eqn:Em; [exists (-1), k, s; split; [done|]; by apply passed_none|]. b2p.
  unfold bind. rewrite E. set (bs := slice (v_data (view s)) (v_pos (view s)) m) in *.
  assert (Lb : Z.of_nat (length bs) = m) by (apply length_cut; cbn in *; lia).
  destruct (send bs k) as [rt k'] eqn:Es. destruct (send_ok bs k rt k' Es) as (Hs & Hrt & Hc & _). btest (0 <? rt).
  - unfold gets. pose proof (setPosition_ok s (y_position s + rt) W ltac:(lia)) as P. btest (y_capacity s <? y_position s + rt); [lia|].
    destruct P as (s' & -> & W' & _ & _ & _ & _ & EV). unfold ret. exists rt, k', s'. split; [done|]. split; [done|].
    cbv zeta. rewrite Z.max_r by lia. rewrite Z.max_l in EV by lia. split_and!; [done| |lia|cbn in *; lia].
    rewrite Hs. f_equal. unfold bs, slice. rewrite take_take. f_equal. lia.
  - exists rt, k', s. split; [done|]. apply passed_none; [done| |lia|lia]. rewrite Hs. replace (Z.to_nat rt) with O by lia. apply app_nil_r.
Qed.

Lemma read_exact_loop_ba fuel total left s k : wf s -> left < 2 ^ 53 -> (Z.to_nat left < fuel)%nat ->
  match exact_loop stream_read_ba fuel total left k s with
  | OK (rt, k') s' => wf s' /\ exists got, view s' = put got (view s) /\ incoming k = got ++ incoming k' /\
      (rt = wrap_int32 total /\ Z.of_nat (length got) = Z.max 0 left \/ rt <= 0 /\ Z.of_nat (length got) < left)
  | THROW e _ => e = BAD_ALLOC
  | CRASH => False
  end.
Proof.
  revert left s k. induction fuel as [|fuel IH]; intros left s k W Hl Hf; [lia|]. cbn [exact_loop]. btest (left <=? 0).
  { split; [done|]. exists []. rewrite put_nil by done. split_and!; try done. left. cbn. lia. }
  unfold bind. pose proof (stream_read_ba_ok s k left W ltac:(lia)) as G.
  destruct (stream_read_ba left k s) as [[rt k1] s1|e s1|]; [|done|done]. destruct G as (W1 & got & EV & Ei & Ec & Lg & Hrt).
  btest (rt <=? 0). { split; [done|]. exists got. split_and!; try done. right. lia. }
  specialize (IH (left - rt) s1 k1 W1 ltac:(lia) ltac:(lia)).
  destruct (exact_loop stream_read_ba fuel total (left - rt) k1 s1) as [[rt2 k2] s2|e s2|]; [|done|done].
  destruct IH as (W2 & got2 & EV2 & Ei2 & H). split; [done|]. exists (got ++ got2).
  pose proof (length_data s W) as LD. destruct (rest_bounds s W) as (Hr & Hp & _).
  split; [rewrite EV2, EV; apply put_put; cbn in *; lia|]. split; [by rewrite <- app_assoc, <- Ei2|]. rewrite length_app. lia.
Qed.

Lemma write_exact_loop_ba fuel total left s k : wf s -> (Z.to_nat left < fuel)%nat ->
  exists rt k' s', exact_loop stream_write_ba fuel total left k s = OK (rt, k') s' /\ wf s' /\ exists m,
    view s' = mkView (v_data (view s)) (v_pos (view s) + m) (v_endian (view s)) /\ 0 <= m /\
    v_pos (view s) + m <= Z.of_nat (length (v_data (view s))) /\
    k_sent k' = k_sent k ++ slice (v_data (view s)) (v_pos (view s)) m /\
    (rt = wrap_int32 total /\ m = Z.max 0 left \/ rt <= 0 /\ m < left).
Proof.
  revert left s k. induction fuel as [|fuel IH]; intros left s k W Hf; [lia|]. cbn [exact_loop].
  pose proof (length_data s W) as LD. destruct (rest_bounds s W) as (Hr & Hp & _). btest (left <=? 0).
  { exists (wrap_int32 total), k, s. split; [done|]. split; [done|]. exists 0. rewrite cut_nothing, app_nil_r, Z.add_0_r.
    split_and!; try done; [cbn in *; lia|]. left. lia. }
  unfold bind. destruct (stream_write_ba_ok s k left W ltac:(lia)) as (rt & k1 & s1 & -> & W1 & EV & Es & Hrt & Hm). btest (rt <=? 0).
  { exists rt, k1, s1. split; [done|]. split; [done|]. exists (Z.max 0 rt). split_and!; try done; lia. }
  destruct (IH (left - rt) s1 k1 W1 ltac:(lia)) as (rt2 & k2 & s2 & E & W2 & m & EV2 & Hm0 & Hm2 & Es2 & H).
  exists rt2, k2, s2. split; [done|]. split; [done|]. rewrite Z.max_r in * by lia. exists (rt + m). rewrite EV2, EV in *. cbn [v_data v_pos v_endian] in *.
  assert (0 <= y_position s) by done. rewrite slice_add by (cbn; lia). rewrite app_assoc, <- Es, <- Es2.
  split_and!; [f_equal; lia|lia|lia|done|lia].
Qed.

(** The stream moves bytes whole. Reading exactly [n] bytes into a byte array puts there the
    bytes that come next, in order, however the network cuts them: all [n] when it reports
    success, fewer than [n] when it reports failure, and the bytes it did not take are still to
    come. Writing exactly [n] bytes out of one sends the bytes at its position in the same way, and
    moves the position past what was sent. Both end. *)
Theorem stream_exact (n : Z) (s : ByteArray) (k : Sock) : wf s -> 0 <= n < 2 ^ 31 ->
  match readExact_ba n k s with
  | OK (rt, k') s' => wf s' /\ exists got, view s' = put got (view s) /\ incoming k = got ++ incoming k' /\
      (rt = n /\ Z.of_nat (length got) = n \/ rt <= 0 /\ Z.of_nat (length got) < n)
  | THROW e _ => e = BAD_ALLOC
  | CRASH => False
  end /\
  exists rt k' s', writeExact_ba n k s = OK (rt, k') s' /\ wf s' /\ exists m,
    view s' = mkView (v_data (view s)) (v_pos (view s) + m) (v_endian (view s)) /\
    0 <= m /\ v_pos (view s) + m <= Z.of_nat (length (v_data (view s))) /\
    k_sent k' = k_sent k ++ slice (v_data (view s)) (v_pos (view s)) m /\ (rt = n /\ m = n \/ rt <= 0 /\ m < n).
Proof.
  intros W Hn. assert (Ei : wrap_int32 n = n) by (apply wrap_int32_id; lia). split.
  - unfold readExact_ba. pose proof (read_exact_loop_ba (S (Z.to_nat n)) n n s k W ltac:(lia) ltac:(lia)) as H.
    rewrite Ei, Z.max_r in H by lia. exact H.
  - unfold writeExact_ba. destruct (write_exact_loop_ba (S (Z.to_nat n)) n n s k W ltac:(lia)) as (rt & k' & s' & E & W' & m & H).
    rewrite Ei, Z.max_r in H by lia. exists rt, k', s'. split; [exact E|]. split; [exact W'|]. exists m. tauto.
Qed.

(** The same without an array in between. *)
Lemma readExact_ok n k rt got k' : 0 <= n < 2 ^ 31 -> readExact n k = (rt, got, k') ->
  incoming k = got ++ incoming k' /\ (rt = n /\ Z.of_nat (length got) = n \/ rt <= 0 /\ Z.of_nat (length got) < n).
Proof.
  intros Hn. assert (H : forall fuel left pre k rt got k', 0 <= left -> (Z.to_nat left < fuel)%nat ->
    read_exact_loop fuel n left pre k = (rt, got, k') -> exists more, got = pre ++ more /\ incoming k = more ++ incoming k' /\
      (rt = wrap_int32 n /\ Z.of_nat (length more) = left \/ rt <= 0 /\ Z.of_nat (length more) < left)).
  { clear. induction fuel as [|fuel IH]; intros left pre k rt got k' Hl Hf; [lia|]. cbn [read_exact_loop]. btest (left <=? 0).
    { intros [= <- <- <-]. exists []. rewrite app_nil_r. split_and!; try done. left. cbn. lia. }
    unfold stream_read. destruct (recv left k) as [[r bs] k1] eqn:Er. destruct (recv_ok left k r bs k1 ltac:(lia) Er) as (Hi & Hb & Hr & Hc & _).
    destruct (k_connected k) eqn:Ek; cbn [negb].
    2: { btest (-1 <=? 0); [|lia]. intros [= <- <- <-]. exists []. rewrite app_nil_r. split_and!; try done. right. cbn. lia. }
    btest (r <=? 0).
    { intros [= <- <- <-]. exists []. rewrite app_nil_r. destruct bs; [|cbn in Hb; lia]. split_and!; try done. right. cbn. lia. }
    intros E. destruct (IH (left - r) (pre ++ bs) k1 rt got k' ltac:(lia) ltac:(lia) E) as (more & -> & Hi2 & H). exists (bs ++ more).
    rewrite <- app_assoc, Hi, Hi2, <- app_assoc, length_app. split_and!; try done. lia. }
  unfold readExact. intros E. destruct (H (S (Z.to_nat n)) n [] k rt got k' ltac:(lia) ltac:(lia) E) as (more & -> & Hi & Hm).
  rewrite wrap_int32_id in Hm by lia. done.
Qed.
End exact.

(** ** Examples and witnesses *)

#[local] Instance plenty : Heap := scarce 99.

Definition cut_up : Sock :=
  mkSock true (map (fun t => Some (list_byte_of_string t)) ["he"; "llo"; " world"]%string) [Some 2; Some 100] [].

Lemma stream_exact_witness : exists k s,
  readExact_ba 7 cut_up (empty4 99) = OK (7, k) s /\ view s = put (list_byte_of_string "hello w") (view (empty4 99)) /\
  incoming k = list_byte_of_string "orld".
Proof.
  pose proof (stream_exact 7 (empty4 99) cut_up (empty4_wf 99 ltac:(lia)) ltac:(lia)) as [H _].
  assert (E : match readExact_ba 7 cut_up (empty4 99) with OK r s => Some r.1 | _ => None end = Some 7) by (vm_compute; reflexivity).
  destruct (readExact_ba 7 cut_up (empty4 99)) as [[rt k] s|e s|]; [|discriminate E|discriminate E].
  injection E as ->. destruct H as (W & got & EV & Ei & [[_ Hl]|[Hr _]]); [|lia].
  assert (Eg : got = list_byte_of_string "hello w").
  { assert (E : take 7 (incoming cut_up) = take 7 (got ++ incoming k)) by (by rewrite Ei).
    rewrite take_app_length' in E by lia. rewrite <- E. reflexivity. }
  subst got. exists k, s. split; [done|]. split; [done|].
  assert (E : drop 7 (incoming cut_up) = drop 7 (list_byte_of_string "hello w" ++ incoming k)) by (by rewrite Ei).
  symmetry. exact E.
Defined.

(** What was asked for and what is returned: the count is cut to an [int], so a transfer of
    2 GiB that went well is reported as a failure. *)
Example length_is_an_int : wrap_int32 (2 ^ 31) = - 2 ^ 31.
Proof. reflexivity. Qed.
