(* ===== verification/Breaker.v ===== *)
(** * The circuit breaker (src/gateway/ronduan.h, src/gateway/ronduan.cpp, src/gateway/up_ret.h)

    One breaker per upstream endpoint. Every method runs under its mutex, so a
    method is one step. [now] is the steady clock in nanoseconds; [upMs] counts it
    in milliseconds. Counters have the width of the code. *)

From S2P Require Import Prelude Records.

(** ** Results of an upstream call *)

Inductive UpMark := M_OK | M_FAIL | M_SKIP.

Inductive UpWhy :=
| U_NONE | U_CONNECT | U_SEND | U_TIMEOUT | U_BAD_RESP | U_BAD_BODY | U_STATUS | U_BUSY | U_OPEN
| U_DOWN | U_DEADLINE.

Inductive AcqWhy := A_NONE | A_BUSY | A_OPEN | A_DOWN | A_CONNECT | A_TIMEOUT | A_DEADLINE.

Record UpRet := mkUpRet { r_mark : UpMark; r_why : UpWhy; r_status : Z; r_costMs : Z; r_slow : bool }.

Definition upMs (now : Z) : Z := now / 1000000.

Definition leftMs (dueMs now : Z) : Z :=
  if dueMs =? 0 then UINT64_MAX
  else if dueMs >? upMs now then dueMs - upMs now else 0.

Definition is_fail (m : UpMark) : bool := match m with M_FAIL => true | _ => false end.
Definition is_skip (m : UpMark) : bool := match m with M_SKIP => true | _ => false end.

(** ** State *)

Record CbCfg := mkCbCfg {
  failureThreshold : Z; windowMs : Z; nbuckets : Z; minRequests : Z; cf_failureRate : Z; slowMs : Z;
  cf_slowRate : Z; openTimeoutMs : Z; maxOpenTimeoutMs : Z; halfOpenMaxRequests : Z;
  halfOpenSuccesses : Z; failureStatuses : list Z }.

Record CbBucket := mkBucket { k_tick : Z; k_requests : Z; k_failures : Z; k_slows : Z }.

Record CbSnap := mkCbSnap {
  s_requests : Z; s_failures : Z; s_slows : Z; s_failureRate : Z; s_slowRate : Z }.

Inductive CbState := CB_CLOSED | CB_OPEN | CB_HALF_OPEN.

Record Breaker := mkBreaker {
  b_cfg : CbCfg; b_state : CbState; b_consec_fail : Z; b_pending : Z; b_half_ok : Z; b_open_ms : Z;
  b_turn : Z; b_buckets : list CbBucket; b_moves : list Z; b_openAt : Z }.

Definition cb_index (s : CbState) : nat :=
  match s with CB_CLOSED => 0 | CB_OPEN => 1 | CB_HALF_OPEN => 2 end.

#[global] Instance CbState_eq_dec : EqDecision CbState.
Proof. solve_decision. Defined.

Definition empty_bucket : CbBucket := mkBucket 0 0 0 0.

(** The configuration as the constructor corrects it. *)
Definition norm_cfg (c : CbCfg) : CbCfg :=
  let openT := Z.max 1 (openTimeoutMs c) in
  let maxReq := Z.max 1 (halfOpenMaxRequests c) in
  mkCbCfg (Z.max 1 (failureThreshold c)) (Z.max 1 (windowMs c)) (Z.max 1 (nbuckets c))
    (Z.max 1 (minRequests c)) (Z.min 100 (cf_failureRate c)) (Z.max 1 (slowMs c))
    (Z.min 100 (cf_slowRate c)) openT (Z.max openT (maxOpenTimeoutMs c)) maxReq
    (Z.min (Z.max 1 (halfOpenSuccesses c)) maxReq) (failureStatuses c).

Definition breaker_init (c : CbCfg) : Breaker :=
  let c := norm_cfg c in
  mkBreaker c CB_CLOSED 0 0 0 (openTimeoutMs c) 1
    (repeat empty_bucket (Z.to_nat (nbuckets c))) (repeat 0 9) 0.

(** ** Operations *)

Definition cb_move (to : CbState) (b : Breaker) : Breaker :=
  if decide (b_state b = to) then b
  else
    let i := (cb_index (b_state b) * 3 + cb_index to)%nat in
    b <| b_moves := alter (fun n => wrap64 (n + 1)) i (b_moves b) |>
      <| b_state := to |> <| b_turn := wrap64 (b_turn b + 1) |>.

Definition toOpen (again : bool) (now : Z) (b : Breaker) : Breaker :=
  let ms := if again then Z.min (b_open_ms b * 2) (maxOpenTimeoutMs (b_cfg b))
            else openTimeoutMs (b_cfg b) in
  (cb_move CB_OPEN (b <| b_open_ms := ms |>)) <| b_openAt := now |> <| b_pending := 0 |>
    <| b_half_ok := 0 |>.

Definition toClosed (b : Breaker) : Breaker :=
  (cb_move CB_CLOSED b) <| b_consec_fail := 0 |> <| b_pending := 0 |> <| b_half_ok := 0 |>
    <| b_open_ms := openTimeoutMs (b_cfg b) |> <| b_buckets := map (fun _ => empty_bucket) (b_buckets b) |>.

Definition toHalfOpen (b : Breaker) : Breaker :=
  (cb_move CB_HALF_OPEN b) <| b_pending := 0 |> <| b_half_ok := 0 |>.

(** Whole milliseconds since the breaker opened, as the code compares them. *)
Definition elapsed (now : Z) (b : Breaker) : Z := wrap64 (Z.quot (now - b_openAt b) 1000000).

(** Whether a request may go, and the turn it belongs to. *)
Definition isAllowed (now : Z) (b : Breaker) : option Z * Breaker :=
  match b_state b with
  | CB_CLOSED => (Some (b_turn b), b)
  | _ =>
      let probe (b : Breaker) :=
        if b_pending b <? halfOpenMaxRequests (b_cfg b)
        then (Some (b_turn b), b <| b_pending := b_pending b + 1 |>) else (None, b) in
      match b_state b with
      | CB_OPEN => if elapsed now b >=? b_open_ms b then probe (toHalfOpen b) else (None, b)
      | _ => probe b
      end
  end.

Definition canTry (now : Z) (b : Breaker) : bool :=
  match b_state b with
  | CB_CLOSED => true
  | CB_HALF_OPEN => b_pending b <? halfOpenMaxRequests (b_cfg b)
  | CB_OPEN => (halfOpenMaxRequests (b_cfg b) >? 0) && (elapsed now b >=? b_open_ms b)
  end.

Definition width (c : CbCfg) : Z := Z.max 1 (windowMs c / nbuckets c).
Definition keep (c : CbCfg) : Z := (windowMs c + width c - 1) / width c.

Definition add_to (ret : UpRet) (tick : Z) (k : CbBucket) : CbBucket :=
  let k := if k_tick k =? tick then k else mkBucket tick 0 0 0 in
  mkBucket (k_tick k) (wrap64 (k_requests k + 1))
    (if is_fail (r_mark ret) then wrap64 (k_failures k + 1) else k_failures k)
    (if r_slow ret then wrap64 (k_slows k + 1) else k_slows k).

(** [ms]: [upMs()]. *)
Definition addBucket (ret : UpRet) (ms : Z) (b : Breaker) : Breaker :=
  let tick := ms / width (b_cfg b) in
  b <| b_buckets := alter (add_to ret tick)
         (Z.to_nat (tick mod Z.of_nat (length (b_buckets b)))) (b_buckets b) |>.

(** Whether a bucket is counted at [tick]. *)
Definition in_window (c : CbCfg) (tick : Z) (k : CbBucket) : bool :=
  negb ((k_tick k =? 0) || (tick <? k_tick k) || (tick - k_tick k >=? keep c)).

Definition snapLocked (ms : Z) (b : Breaker) : CbSnap :=
  let tick := ms / width (b_cfg b) in
  let ks := List.filter (in_window (b_cfg b) tick) (b_buckets b) in
  let total (f : CbBucket -> Z) := fold_left (fun n k => wrap64 (n + f k)) ks 0 in
  let req := total k_requests in
  let fl := total k_failures in
  let sl := total k_slows in
  let rate n := if req =? 0 then 0 else wrap32 (wrap64 (n * 100) / req) in
  mkCbSnap req fl sl (rate fl) (rate sl).

Definition rateOpen (s : CbSnap) (c : CbCfg) : bool :=
  (s_requests s >=? minRequests c)
  && (((cf_failureRate c >? 0) && (s_failureRate s >=? cf_failureRate c))
      || ((cf_slowRate c >? 0) && (s_slowRate s >=? cf_slowRate c))).

Definition record (ret : UpRet) (turn now : Z) (b : Breaker) : Breaker :=
  if negb (turn =? 0) && negb (turn =? b_turn b) then b
  else match b_state b with
  | CB_OPEN => b
  | CB_HALF_OPEN =>
      let b := if b_pending b >? 0 then b <| b_pending := b_pending b - 1 |> else b in
      if is_skip (r_mark ret) then b
      else if is_fail (r_mark ret) then toOpen true now b
      else
        let b := b <| b_half_ok := b_half_ok b + 1 |> in
        if b_half_ok b >=? halfOpenSuccesses (b_cfg b) then toClosed b else b
  | CB_CLOSED =>
      if is_skip (r_mark ret) then b
      else
        let b := b <| b_consec_fail := if is_fail (r_mark ret) then wrap32 (b_consec_fail b + 1) else 0 |> in
        let b := addBucket ret (upMs now) b in
        if (b_consec_fail b >=? failureThreshold (b_cfg b)) || rateOpen (snapLocked (upMs now) b) (b_cfg b)
        then toOpen false now b else b
  end.

Definition recordSuccess : Z -> Breaker -> Breaker := record (mkUpRet M_OK U_NONE 0 0 false) 0.
Definition recordFailure : Z -> Breaker -> Breaker := record (mkUpRet M_FAIL U_CONNECT 0 0 false) 0.

Definition badStatus (status : Z) (c : CbCfg) : bool := existsb (Z.eqb status) (failureStatuses c).

(** ** A breaker and the requests it let through

    The callers of a breaker: each request that is let through keeps its turn and
    reports it once, in any order and after any delay. *)

Inductive CbEvent := E_ALLOW (now : Z) | E_DONE (i : nat) (ret : UpRet) (now : Z).

Definition cb_step (x : Breaker * list Z) (e : CbEvent) : Breaker * list Z :=
  let '(b, turns) := x in
  match e with
  | E_ALLOW now =>
      match isAllowed now b with (Some t, b') => (b', t :: turns) | (None, b') => (b', turns) end
  | E_DONE i ret now =>
      match turns !! i with Some t => (record ret t now b, delete i turns) | None => x end
  end.

Definition cb_run (c : CbCfg) (es : list CbEvent) : Breaker * list Z :=
  fold_left cb_step es (breaker_init c, []).

(** The requests of the current turn that have not reported yet. *)
Definition probes (b : Breaker) (turns : list Z) : Z :=
  Z.of_nat (length (List.filter (Z.eqb (b_turn b)) turns)).

Definition cb_inv (c : CbCfg) (n : Z) (b : Breaker) (turns : list Z) : Prop :=
  b_cfg b = norm_cfg c /\ 1 <= b_turn b <= n + 1 /\ Forall (fun t => 1 <= t <= b_turn b) turns /\
  openTimeoutMs (norm_cfg c) <= b_open_ms b <= maxOpenTimeoutMs (norm_cfg c) /\
  match b_state b with
  | CB_HALF_OPEN =>
      b_pending b = probes b turns /\ b_pending b <= halfOpenMaxRequests (norm_cfg c) /\
      0 <= b_half_ok b < halfOpenSuccesses (norm_cfg c)
  | CB_OPEN => probes b turns = 0
  | CB_CLOSED => True
  end.

Lemma probes_fresh b turns t :
  Forall (fun x => 1 <= x <= t) turns -> t < b_turn b -> probes b turns = 0.
Proof.
  intros H Ht. unfold probes. induction H as [|x l Hx _ IH]; [done|]. cbn.
  replace (b_turn b =? x) with false by lia. exact IH.
Qed.

Lemma probes_delete b turns i t :
  turns !! i = Some t ->
  probes b turns = probes b (delete i turns) + (if b_turn b =? t then 1 else 0).
Proof.
  unfold probes. revert turns. induction i as [|i IH]; intros [|x turns] Hi; try done.
  - injection Hi as <-. change (delete 0%nat (x :: turns)) with turns. cbn [List.filter].
    destruct (b_turn b =? x); cbn [length]; lia.
  - specialize (IH turns Hi). change (delete (S i) (x :: turns)) with (x :: delete i turns).
    cbn [List.filter]. destruct (b_turn b =? x); cbn [length]; lia.
Qed.

Lemma norm_cfg_ok c :
  1 <= openTimeoutMs (norm_cfg c) <= maxOpenTimeoutMs (norm_cfg c) /\
  1 <= halfOpenMaxRequests (norm_cfg c) /\ 1 <= halfOpenSuccesses (norm_cfg c).
Proof. unfold norm_cfg; cbn -[Z.max Z.min]. lia. Qed.

Lemma cb_inv_init c : cb_inv c 0 (breaker_init c) [].
Proof. pose proof (norm_cfg_ok c). unfold cb_inv; cbn in *. split_and!; try done; lia. Qed.

(** A move starts a turn no request belongs to. *)
Lemma cb_move_other to b : b_state b <> to ->
  b_turn (cb_move to b) = wrap64 (b_turn b + 1) /\ b_state (cb_move to b) = to /\
  b_cfg (cb_move to b) = b_cfg b /\ b_open_ms (cb_move to b) = b_open_ms b.
Proof. intros H. unfold cb_move. destruct (decide _); [done|]. by cbn. Qed.

Lemma Forall_turns_mono (turns : list Z) t t' :
  t <= t' -> Forall (fun x => 1 <= x <= t) turns -> Forall (fun x => 1 <= x <= t') turns.
Proof. intros Ht Hf. eapply Forall_impl; [exact Hf|]. cbn. lia. Qed.

Lemma toOpen_inv c n b turns again now :
  n + 2 < 2 ^ 64 -> b_state b <> CB_OPEN -> b_cfg b = norm_cfg c -> 1 <= b_turn b <= n + 1 ->
  Forall (fun t => 1 <= t <= b_turn b) turns ->
  openTimeoutMs (norm_cfg c) <= b_open_ms b <= maxOpenTimeoutMs (norm_cfg c) ->
  cb_inv c (n + 1) (toOpen again now b) turns.
Proof.
  intros Hn Hs Hc Ht Hf Ho. pose proof (norm_cfg_ok c). unfold toOpen.
  set (ms := if again then _ else _).
  assert (Hms : openTimeoutMs (norm_cfg c) <= ms <= maxOpenTimeoutMs (norm_cfg c))
    by (unfold ms; rewrite Hc; destruct again; lia).
  set (b1 := b <| b_open_ms := ms |>).
  assert (F : b_turn b1 = b_turn b /\ b_cfg b1 = b_cfg b /\ b_open_ms b1 = ms /\ b_state b1 = b_state b)
    by done.
  destruct F as (F1 & F2 & F3 & F4). clearbody b1. rewrite <- F4 in Hs.
  destruct (cb_move_other CB_OPEN b1 Hs) as (E1 & E2 & E3 & E4).
  rewrite F1, wrap64_id in E1 by (unfold is_u64; lia). rewrite F2 in E3. rewrite F3 in E4.
  unfold cb_inv; cbn -[cb_move norm_cfg]. rewrite E1, E2, E3, E4. split_and!; try done; try lia.
  - eapply Forall_turns_mono; [|exact Hf]. lia.
  - eapply probes_fresh; [exact Hf|]. cbn -[cb_move norm_cfg]. lia.
Qed.

Lemma toClosed_inv c n b turns :
  n + 2 < 2 ^ 64 -> b_state b <> CB_CLOSED -> b_cfg b = norm_cfg c -> 1 <= b_turn b <= n + 1 ->
  Forall (fun t => 1 <= t <= b_turn b) turns -> cb_inv c (n + 1) (toClosed b) turns.
Proof.
  intros Hn Hs Hc Ht Hf. pose proof (norm_cfg_ok c). unfold toClosed.
  destruct (cb_move_other CB_CLOSED b Hs) as (E1 & E2 & E3 & E4).
  rewrite wrap64_id in E1 by (unfold is_u64; lia).
  unfold cb_inv; cbn -[cb_move norm_cfg]. rewrite E1, E2, E3, ?Hc. split_and!; try done; try lia.
  eapply Forall_turns_mono; [|exact Hf]. lia.
Qed.

Lemma cb_inv_mono c n n' b turns : n <= n' -> cb_inv c n b turns -> cb_inv c n' b turns.
Proof. intros Hn (H1 & H2 & H3). split; [done|]. split; [lia|done]. Qed.

Lemma probes_cons b turns : probes b (b_turn b :: turns) = probes b turns + 1.
Proof. unfold probes. cbn. rewrite Z.eqb_refl. cbn [length]. lia. Qed.

(** A half-open breaker that lets one more probe through, or not. *)
Lemma probe_inv c n b turns :
  b_state b = CB_HALF_OPEN -> cb_inv c n b turns ->
  if b_pending b <? halfOpenMaxRequests (b_cfg b)
  then cb_inv c n (b <| b_pending := b_pending b + 1 |>) (b_turn b :: turns) else True.
Proof.
  intros Es (Hc & Ht & Hf & Ho & Hst). rewrite Es in Hst. destruct Hst as (Hp & Hm & Hk).
  btest (b_pending b <? halfOpenMaxRequests (b_cfg b)); [|done].
  unfold cb_inv; cbn -[norm_cfg]. rewrite Es. rewrite Hc in *. split_and!; try done; try lia.
  - constructor; [lia|done].
  - rewrite Hp. pose proof (probes_cons b turns) as E. unfold probes in *; cbn in *. lia.
Qed.

Lemma toHalfOpen_inv c n b turns :
  n + 2 < 2 ^ 64 -> b_state b = CB_OPEN -> cb_inv c n b turns ->
  b_state (toHalfOpen b) = CB_HALF_OPEN /\ b_pending (toHalfOpen b) = 0 /\
  b_cfg (toHalfOpen b) = b_cfg b /\ cb_inv c (n + 1) (toHalfOpen b) turns.
Proof.
  intros Hn Es (Hc & Ht & Hf & Ho & _). pose proof (norm_cfg_ok c) as Hok. unfold toHalfOpen.
  destruct (cb_move_other CB_HALF_OPEN b) as (E1 & E2 & E3 & E4); [by rewrite Es|].
  rewrite wrap64_id in E1 by (unfold is_u64; lia).
  cbn -[cb_move norm_cfg]. split_and!; try done.
  unfold cb_inv; cbn -[cb_move norm_cfg]. rewrite E1, E2, E3, E4. split_and!; try done; try lia.
  - eapply Forall_turns_mono; [|exact Hf]. lia.
  - symmetry. eapply probes_fresh; [exact Hf|]. cbn -[cb_move]. lia.
Qed.

Lemma record_inv c n b turns i t ret now :
  n + 2 < 2 ^ 64 -> cb_inv c n b turns -> turns !! i = Some t ->
  cb_inv c (n + 1) (record ret t now b) (delete i turns).
Proof.
  intros Hn (Hc & Ht & Hf & Ho & Hst) Hi. pose proof (norm_cfg_ok c) as Hok.
  pose proof (probes_delete b turns i t Hi) as Hp.
  assert (Hd : Forall (fun t => 1 <= t <= b_turn b) (delete i turns)) by (by apply Forall_delete).
  assert (H1 : 1 <= t) by (apply (Forall_lookup_1 _ _ _ _ Hf Hi)).
  unfold record. replace (t =? 0) with false by lia. cbn [negb andb].
  btest (t =? b_turn b); cbn [negb].
  - subst t. rewrite Z.eqb_refl in Hp. destruct (b_state b) eqn:Es.
    + destruct (is_skip _); [unfold cb_inv; rewrite Es; split_and!; try done; lia|].
      set (b1 := addBucket _ _ _).
      assert (F : b_state b1 = CB_CLOSED /\ b_cfg b1 = b_cfg b /\ b_turn b1 = b_turn b /\
        b_open_ms b1 = b_open_ms b) by (by unfold b1, addBucket; cbn).
      clearbody b1. destruct F as (F1 & F2 & F3 & F4).
      destruct (_ || _); [apply toOpen_inv|unfold cb_inv; rewrite F1]; rewrite ?F1, ?F2, ?F3, ?F4;
        split_and! || idtac; try done; lia.
    + unfold probes in *. lia.
    + destruct Hst as (Hpend & Hmax & Hk). rewrite Hpend.
      replace (probes b turns >? 0) with true by (unfold probes in *; lia).
      set (b1 := b <| b_pending := probes b turns - 1 |>).
      assert (F : b_state b1 = CB_HALF_OPEN /\ b_cfg b1 = b_cfg b /\ b_turn b1 = b_turn b /\
        b_open_ms b1 = b_open_ms b /\ b_half_ok b1 = b_half_ok b /\
        b_pending b1 = probes b1 (delete i turns)) by (unfold b1; cbn; split_and!; try done; unfold probes in *; cbn; lia).
      clearbody b1. destruct F as (F1 & F2 & F3 & F4 & F5 & F6).
      assert (F7 : probes b1 (delete i turns) = probes b turns - 1)
        by (unfold probes in *; rewrite F3; lia).
      destruct (is_skip _); [|destruct (is_fail _)].
      * unfold cb_inv. rewrite F1, F2, F3, F4, F5. split_and!; try done; lia.
      * apply toOpen_inv; rewrite ?F1, ?F2, ?F3, ?F4; done || lia.
      * set (b2 := b1 <| b_half_ok := b_half_ok b1 + 1 |>).
        assert (G : b_state b2 = b_state b1 /\ b_cfg b2 = b_cfg b1 /\ b_turn b2 = b_turn b1 /\
          b_open_ms b2 = b_open_ms b1 /\ b_half_ok b2 = b_half_ok b1 + 1 /\
          b_pending b2 = b_pending b1 /\ probes b2 (delete i turns) = probes b1 (delete i turns)) by done.
        clearbody b2. destruct G as (G1 & G2 & G3 & G4 & G5 & G6 & G7).
        rewrite G2, G5, F2, F5, Hc.
        btest (b_half_ok b + 1 >=? halfOpenSuccesses (norm_cfg c)).
        -- apply toClosed_inv; rewrite ?G1, ?G2, ?G3, ?F1, ?F2, ?F3; done || lia.
        -- unfold cb_inv. rewrite G1, G2, G3, G4, G5, G6, G7, F1, F2, F3, F4, F5. split_and!; done || lia.
  - replace (b_turn b =? t) with false in Hp by lia. rewrite Z.add_0_r in Hp.
    split_and!; try done; try lia. rewrite <- Hp. exact Hst.
Qed.

Lemma cb_inv_step c n x e :
  n + 2 < 2 ^ 64 -> cb_inv c n x.1 x.2 -> cb_inv c (n + 1) (cb_step x e).1 (cb_step x e).2.
Proof.
  intros Hn HI. destruct x as [b turns]. cbn [fst snd] in HI.
  assert (Hsame : cb_inv c (n + 1) b turns) by (eapply cb_inv_mono; [|exact HI]; lia).
  destruct e as [now|i ret now]; cbn [cb_step].
  - unfold isAllowed. destruct (b_state b) eqn:Es.
    + destruct Hsame as (Hc & Ht & Hf & Ho & Hst). cbn. split_and!; try done; try lia.
      * constructor; [lia|done].
      * by rewrite Es.
    + destruct (elapsed now b >=? b_open_ms b); [|exact Hsame].
      destruct (toHalfOpen_inv c n b turns Hn Es HI) as (E1 & E2 & E3 & HI').
      pose proof (probe_inv c _ _ _ E1 HI') as K.
      destruct (_ <? _); [exact K|exact HI'].
    + pose proof (probe_inv c _ _ _ Es Hsame) as K. destruct (_ <? _); [exact K|exact Hsame].
  - destruct (turns !! i) as [t|] eqn:Hi; [|exact Hsame]. by apply record_inv.
Qed.

Lemma cb_run_snoc c es e : cb_run c (es ++ [e]) = cb_step (cb_run c es) e.
Proof. unfold cb_run. by rewrite fold_left_app. Qed.

Lemma cb_run_inv c es :
  Z.of_nat (length es) + 2 < 2 ^ 64 ->
  cb_inv c (Z.of_nat (length es)) (cb_run c es).1 (cb_run c es).2.
Proof.
  induction es as [|e es IH] using rev_ind; [intros _; apply cb_inv_init|].
  rewrite length_app, cb_run_snoc. cbn [length]. intros Hn.
  replace (Z.of_nat (length es + 1)) with (Z.of_nat (length es) + 1) by lia.
  apply cb_inv_step; [lia|]. apply IH. lia.
Qed.

(** The test the balancers make answers like the admission that follows it. *)
Lemma canTry_isAllowed now b :
  1 <= halfOpenMaxRequests (b_cfg b) ->
  canTry now b = match (isAllowed now b).1 with Some _ => true | None => false end.
Proof.
  intros H. unfold canTry, isAllowed. destruct (b_state b) eqn:Es; [done| |].
  - replace (_ >? 0) with true by lia. cbn [andb].
    destruct (_ >=? _); [|done]. unfold toHalfOpen.
    destruct (cb_move_other CB_HALF_OPEN b) as (_ & _ & E & _); [by rewrite Es|].
    cbn -[cb_move]. rewrite E. by replace (0 <? _) with true by lia.
  - by destruct (_ <? _).
Qed.

(** C16: for a breaker and the requests it let through, each reporting once at any
    later time: closed, it admits everything and changes nothing; open, it refuses
    everything and changes nothing until the time-out has passed, and then admits a
    first probe; half-open, what it counts as pending is exactly the probes of this
    turn that have not reported, never more than the configured number, and it
    refuses only when they are all out, so a lost turn never blocks it for good.
    The time-out stays within the configured bounds, and [canTry] foretells
    [isAllowed]. *)
Theorem breaker_probes c es b turns now :
  cb_run c es = (b, turns) -> Z.of_nat (length es) + 2 < 2 ^ 64 ->
  openTimeoutMs (norm_cfg c) <= b_open_ms b <= maxOpenTimeoutMs (norm_cfg c) /\
  canTry now b = match (isAllowed now b).1 with Some _ => true | None => false end /\
  match b_state b with
  | CB_CLOSED => isAllowed now b = (Some (b_turn b), b)
  | CB_OPEN =>
      if elapsed now b <? b_open_ms b then isAllowed now b = (None, b)
      else exists b', isAllowed now b = (Some (b_turn b'), b') /\
        b_state b' = CB_HALF_OPEN /\ b_pending b' = 1 /\ probes b' turns = 0
  | CB_HALF_OPEN =>
      b_pending b = probes b turns /\ probes b turns <= halfOpenMaxRequests (norm_cfg c) /\
      ((isAllowed now b).1 = None <-> probes b turns = halfOpenMaxRequests (norm_cfg c))
  end.
Proof.
  intros Hr Hn. pose proof (cb_run_inv c es Hn) as HI. rewrite Hr in HI. cbn [fst snd] in HI.
  pose proof (norm_cfg_ok c) as Hok. pose proof HI as (Hc & Ht & Hf & Ho & Hst).
  split_and!; [lia|lia|apply canTry_isAllowed; rewrite Hc; lia|].
  unfold isAllowed. destruct (b_state b) eqn:Es; [done| |].
  - btest (elapsed now b <? b_open_ms b); [by replace (_ >=? _) with false by lia|].
    replace (_ >=? _) with true by lia.
    destruct (toHalfOpen_inv c _ b turns Hn Es HI) as (E1 & E2 & E3 & _ & _ & _ & _ & Hp).
    rewrite E1 in Hp. destruct Hp as (Hp & _). rewrite E2 in *. rewrite E3, Hc.
    replace (0 <? _) with true by lia. exists ((toHalfOpen b) <| b_pending := 0 + 1 |>).
    split_and!; [reflexivity|exact E1|reflexivity|by symmetry].
  - rewrite Hc. destruct Hst as (Hp & Hm & _). rewrite Hp in *. split_and!; [done|done|].
    btest (probes b turns <? halfOpenMaxRequests (norm_cfg c)); cbn -[norm_cfg]; split; (done || lia).
Qed.

(** ** The window

    Between two resets of the buckets the window counts exactly the reports of the
    last [nbuckets] ticks, when the window is a whole number of buckets. *)

(** A report: what it says and when [record] ran. *)
Definition counted (f : UpRet -> bool) (rs : list (UpRet * Z)) : Z :=
  Z.of_nat (length (List.filter (fun r => f r.1) rs)).

Definition feed (rs : list (UpRet * Z)) (b : Breaker) : Breaker :=
  fold_left (fun b r => addBucket r.1 r.2 b) rs b.

Section window.
Context (w n : Z) (Hw : 0 < w) (Hn : 0 < n).

Let tick (r : UpRet * Z) : Z := r.2 / w.
Let slot (r : UpRet * Z) : nat := Z.to_nat (tick r mod n).
Let add (k : CbBucket) (r : UpRet * Z) : CbBucket := add_to r.1 (tick r) k.

Lemma fold_alter_slot rs (ks : list CbBucket) j :
  fold_left (fun ks r => alter (fun k => add k r) (slot r) ks) rs ks !! j
  = (fun k => fold_left add (List.filter (fun r => Nat.eqb (slot r) j) rs) k) <$> ks !! j.
Proof.
  revert ks. induction rs as [|r rs IH]; intros ks; cbn [fold_left List.filter].
  - by destruct (ks !! j).
  - rewrite IH. btest (slot r =? j)%nat.
    + subst j. rewrite list_lookup_alter, decide_True by done. by destruct (ks !! slot r).
    + by rewrite list_lookup_alter_ne.
Qed.

Lemma counted_le f rs : 0 <= counted f rs <= Z.of_nat (length rs).
Proof. unfold counted. pose proof (List.filter_length_le (fun r => f r.1) rs). lia. Qed.

Definition bucket_of (t : Z) (rs : list (UpRet * Z)) : CbBucket :=
  let here := List.filter (fun r => tick r =? t) rs in
  mkBucket t (counted (fun _ => true) here) (counted (fun r => is_fail (r_mark r)) here)
    (counted r_slow here).

Lemma counted_snoc f rs r : counted f (rs ++ [r]) = counted f rs + (if f r.1 then 1 else 0).
Proof. unfold counted. rewrite List.filter_app, length_app. cbn. destruct (f r.1); cbn; lia. Qed.

Lemma filter_none {A} (p : A -> bool) l : Forall (fun x => p x = false) l -> List.filter p l = [].
Proof. induction 1 as [|x l Hx _ IH]; [done|]. cbn. by rewrite Hx. Qed.

(** What one bucket holds after the reports of its slot. *)
Lemma fold_add rs r :
  Z.of_nat (length rs) + 1 < 2 ^ 64 ->
  StronglySorted (fun p q => tick p <= tick q) (rs ++ [r]) -> Forall (fun q => 1 <= tick q) (rs ++ [r]) ->
  fold_left add (rs ++ [r]) empty_bucket = bucket_of (tick r) (rs ++ [r]).
Proof.
  revert r. induction rs as [|q rs IH] using rev_ind; intros r Hl Hs Ht.
  - apply Forall_cons in Ht as [Ht _]. cbn [app fold_left]. unfold bucket_of, add, add_to.
    cbn [k_tick empty_bucket List.filter]. replace (0 =? tick r) with false by lia. rewrite Z.eqb_refl.
    unfold counted. by destruct r as [[[] ? ? ? []] ms].
  - rewrite fold_left_app. rewrite length_app in Hl. cbn [length] in Hl.
    assert (Hs' : StronglySorted (fun p q => tick p <= tick q) (rs ++ [q]))
      by (by apply StronglySorted_app_1_l in Hs).
    rewrite IH; [|lia|exact Hs'|by apply Forall_app in Ht as [? _]].
    assert (Hqr : Forall (fun p => tick p <= tick q) rs /\ tick q <= tick r).
    { split.
      - apply Forall_forall. intros x Hx. apply (StronglySorted_app_1_elem_of _ _ _ _ _ Hs' Hx). set_solver.
      - apply (StronglySorted_app_1_elem_of _ _ _ q r Hs); set_solver. }
    destruct Hqr as [Hq Hr].
    unfold bucket_of. rewrite List.filter_app with (l' := [r]). cbn [fold_left List.filter].
    rewrite Z.eqb_refl. rewrite !counted_snoc. unfold add, add_to. cbn [k_tick].
    set (here := List.filter (fun x => tick x =? tick r) (rs ++ [q])).
    btest (tick q =? tick r).
    + rewrite Heqb. fold here. cbn [k_tick k_requests k_failures k_slows].
      assert (Hh : Z.of_nat (length here) <= Z.of_nat (length rs) + 1)
        by (unfold here; pose proof (List.filter_length_le (fun x => tick x =? tick r) (rs ++ [q])) as L;
            rewrite length_app in L; cbn in L; lia).
      pose proof (counted_le (fun _ => true) here) as L1.
      pose proof (counted_le (fun r => is_fail (r_mark r)) here) as L2.
      pose proof (counted_le r_slow here) as L3.
      rewrite !wrap64_id by (unfold is_u64; lia).
      destruct (is_fail _), (r_slow _); f_equal; lia.
    + assert (E : here = []).
      { apply filter_none, Forall_app. split; [|repeat constructor; lia].
        eapply Forall_impl; [exact Hq|]. cbn. lia. }
      rewrite E. by destruct r as [[[] ? ? ? []] ms].
Qed.
(** The part of the reports [n] consecutive ticks up to [now] hold. *)
Definition recent (now : Z) (rs : list (UpRet * Z)) : list (UpRet * Z) :=
  List.filter (fun r => now - tick r <? n) rs.

Definition in_slot (j : nat) (rs : list (UpRet * Z)) : list (UpRet * Z) :=
  List.filter (fun r => Nat.eqb (slot r) j) rs.

Lemma filter_filter {A} (p q : A -> bool) l :
  List.filter p (List.filter q l) = List.filter (fun x => p x && q x) l.
Proof.
  induction l as [|x l IH]; [done|]. cbn. destruct (q x); cbn; [|by rewrite andb_false_r].
  rewrite andb_true_r. by destruct (p x); rewrite IH.
Qed.

Lemma filter_sorted {A} (R : A -> A -> Prop) (p : A -> bool) l :
  StronglySorted R l -> StronglySorted R (List.filter p l).
Proof.
  induction 1 as [|x l _ IH Hx]; [constructor|]. cbn. destruct (p x); [|done].
  constructor; [done|]. rewrite Forall_forall in *. intros y Hy.
  apply elem_of_filter_bool in Hy as [Hy _]. auto.
Qed.

Lemma Forall_filter_bool {A} (P : A -> Prop) (p : A -> bool) l :
  Forall P l -> Forall P (List.filter p l).
Proof.
  rewrite !Forall_forall. intros H x Hx. apply elem_of_filter_bool in Hx as [Hx _]. auto.
Qed.

(** Two ticks of one slot within [n] of each other are the same. *)
Lemma slot_tick p q now :
  slot p = slot q -> tick p <= tick q <= now -> now - tick p < n -> tick p = tick q.
Proof.
  unfold slot. intros H Hl Hd.
  assert (Hm : tick p mod n = tick q mod n).
  { pose proof (Z.mod_pos_bound (tick p) n Hn). pose proof (Z.mod_pos_bound (tick q) n Hn). lia. }
  revert Hl Hd Hm. generalize (tick p) (tick q). intros a b Hl Hd Hm.
  pose proof (Z_div_mod_eq_full a n) as Ea. pose proof (Z_div_mod_eq_full b n) as Eb.
  assert (E : b - a = n * (b / n - a / n)) by lia.
  assert (b / n - a / n = 0) by nia. lia.
Qed.

(** What the window takes from one bucket. *)
Lemma bucket_window f g now rs :
  (f = k_requests /\ g = (fun _ => true)) \/ (f = k_failures /\ g = (fun r => is_fail (r_mark r)))
  \/ (f = k_slows /\ g = r_slow) ->
  Z.of_nat (length rs) < 2 ^ 64 -> StronglySorted (fun p q => tick p <= tick q) rs ->
  Forall (fun r => 1 <= tick r <= now) rs -> (exists j, Forall (fun r => slot r = j) rs) ->
  let k := fold_left add rs empty_bucket in
  (if negb ((k_tick k =? 0) || (now <? k_tick k) || (now - k_tick k >=? n)) then f k else 0)
  = counted g (recent now rs).
Proof.
  intros Hfg Hl Hs Ht [j Hj]. induction rs as [|r rs _] using rev_ind; [done|]. intros k.
  rewrite length_app in Hl. cbn [length] in Hl.
  assert (E : k = bucket_of (tick r) (rs ++ [r])).
  { apply fold_add; [lia|exact Hs|]. eapply Forall_impl; [exact Ht|]. cbn; lia. }
  rewrite E. cbn [bucket_of k_tick].
  assert (Hr : 1 <= tick r <= now /\ slot r = j)
    by (apply Forall_app in Ht as [_ Ht], Hj as [_ Hj]; by inversion Ht; inversion Hj).
  replace (tick r =? 0) with false by lia. replace (now <? tick r) with false by lia. cbn [orb].
  assert (Hle : Forall (fun q => tick q <= tick r /\ slot q = slot r) (rs ++ [r])).
  { apply Forall_app in Hj as [Hj _]. apply Forall_app. split; [|by repeat constructor].
    rewrite Forall_forall in *. intros x Hx.
    split; [apply (StronglySorted_app_1_elem_of _ _ _ x r Hs); set_solver|].
    rewrite (Hj x Hx). by destruct Hr. }
  assert (G : forall (p : UpRet * Z -> bool), (forall q, q ∈ rs ++ [r] -> p q = (now - tick q <? n)) ->
    List.filter p (rs ++ [r]) = recent now (rs ++ [r])).
  { intros p Hp. unfold recent. apply List.filter_ext_in. intros q Hq. apply Hp. by apply list_elem_of_In. }
  rewrite Forall_forall in Hle.
  btest (now - tick r >=? n); cbn [negb].
  - unfold recent. rewrite filter_none; [done|]. apply Forall_forall. intros q Hq.
    apply Hle in Hq. lia.
  - rewrite <- (G (fun q => tick q =? tick r)).
    + by destruct Hfg as [[-> ->]|[[-> ->]|[-> ->]]].
    + intros q Hq. destruct (Hle q Hq) as [Hq1 Hq2].
      btest (now - tick q <? n); [|lia]. apply Z.eqb_eq. apply (slot_tick q r now); [done|lia|lia].
Qed.

Definition sumZ (l : list Z) : Z := foldr Z.add 0 l.

(** Counting slot by slot. *)
Lemma counted_slots g rs m :
  Forall (fun r => (slot r < m)%nat) rs ->
  sumZ (map (fun j => counted g (in_slot j rs)) (seq 0 m)) = counted g rs.
Proof.
  induction rs as [|r rs IH]; intros H.
  - change (fun j => counted g (in_slot j [])) with (fun _ : nat => 0).
    generalize (seq 0 m). intros l. by induction l.
  - apply Forall_cons in H as [Hr H]. specialize (IH H).
    replace (counted g (r :: rs)) with (counted g rs + (if g r.1 then 1 else 0))
      by (unfold counted; cbn; destruct (g r.1); cbn; lia). rewrite <- IH. clear IH H.
    assert (E : forall s k, sumZ (map (fun j => counted g (in_slot j (r :: rs))) (seq s k))
      = sumZ (map (fun j => counted g (in_slot j rs)) (seq s k))
        + (if ((s <=? slot r) && (slot r <? s + k))%nat then if g r.1 then 1 else 0 else 0)).
    { intros s k. revert s. induction k as [|k IHk]; intros s; cbn [seq map sumZ foldr].
      - destruct ((s <=? slot r) && (slot r <? s + 0))%nat eqn:E; b2p; lia.
      - specialize (IHk (S s)). unfold sumZ in IHk. rewrite IHk.
        unfold in_slot at 1. cbn [List.filter]. fold (in_slot s rs).
        replace (s + S k)%nat with (S s + k)%nat by lia.
        btest (slot r =? s)%nat.
        + subst s. replace (S (slot r) <=? slot r)%nat with false by (symmetry; apply Nat.leb_gt; lia).
          rewrite Nat.leb_refl. replace (slot r <? S (slot r) + k)%nat with true
            by (symmetry; apply Nat.ltb_lt; lia). cbn [andb].
          unfold counted at 1. cbn [List.filter]. unfold in_slot, counted.
          destruct (g r.1); cbn [length]; lia.
        + replace (S s <=? slot r)%nat with (s <=? slot r)%nat; [lia|].
          btest (s <=? slot r)%nat; symmetry; [apply Nat.leb_le|apply Nat.leb_gt]; lia. }
    rewrite E. replace ((0 <=? slot r) && (slot r <? 0 + m))%nat with true; [done|].
    symmetry. apply andb_true_iff. split; [by apply Nat.leb_le; lia|by apply Nat.ltb_lt; lia].
Qed.
End window.

Lemma fold_wrap_sum (f : CbBucket -> Z) ks a :
  Forall (fun k => 0 <= f k) ks -> 0 <= a -> a + sumZ (map f ks) < 2 ^ 64 ->
  fold_left (fun n k => wrap64 (n + f k)) ks a = a + sumZ (map f ks).
Proof.
  revert a. induction ks as [|k ks IH]; intros a Hk Ha Hs; cbn in *; [lia|].
  apply Forall_cons in Hk as [Hk0 Hk].
  assert (0 <= foldr Z.add 0 (map f ks)).
  { clear -Hk. induction Hk; cbn; [lia|lia]. }
  unfold sumZ in *. rewrite wrap64_id by (unfold is_u64; lia). rewrite IH; [lia|done|lia|lia].
Qed.

Lemma feed_fields rs b :
  b_cfg (feed rs b) = b_cfg b /\ length (b_buckets (feed rs b)) = length (b_buckets b) /\
  b_buckets (feed rs b)
  = fold_left (fun ks r => alter (add_to r.1 (r.2 / width (b_cfg b)))
      (Z.to_nat ((r.2 / width (b_cfg b)) mod Z.of_nat (length (b_buckets b)))) ks) rs (b_buckets b).
Proof.
  revert b. induction rs as [|r rs IH]; intros b; [done|].
  destruct (IH (addBucket r.1 r.2 b)) as (E1 & E2 & E3). unfold feed in *. cbn [fold_left].
  rewrite E1, E2, E3. unfold addBucket. cbn. by rewrite length_alter.
Qed.

Lemma sumZ_filter (p : CbBucket -> bool) (f : CbBucket -> Z) ks :
  sumZ (map f (List.filter p ks)) = sumZ (map (fun k => if p k then f k else 0) ks).
Proof. induction ks as [|k ks IH]; [done|]. cbn in *. destruct (p k); cbn; unfold sumZ in *; lia. Qed.

Definition bucket_ok (k : CbBucket) : Prop := 0 <= k_requests k /\ 0 <= k_failures k /\ 0 <= k_slows k.

Lemma feed_ok c rs : Forall bucket_ok (b_buckets (feed rs (breaker_init c))).
Proof.
  induction rs as [|r rs IH] using rev_ind.
  - apply Forall_forall. intros k Hk. apply list_elem_of_In, repeat_spec in Hk as ->. by cbn.
  - unfold feed. rewrite fold_left_app. apply Forall_alter; [exact IH|].
    intros k _ (H1 & H2 & H3). unfold add_to, bucket_ok.
    pose proof (fun z => wrap64_range z) as W. unfold is_u64 in W.
    destruct (k_tick k =? _); cbn [k_requests k_failures k_slows];
      (split_and!; [apply W|destruct (is_fail _)|destruct (r_slow _)]); (done || apply W).
Qed.

Lemma whole_window c :
  windowMs (norm_cfg c) mod nbuckets (norm_cfg c) = 0 ->
  0 < width (norm_cfg c) /\ 0 < nbuckets (norm_cfg c) /\ keep (norm_cfg c) = nbuckets (norm_cfg c).
Proof.
  intros Hd. assert (H1 : 1 <= windowMs (norm_cfg c)) by (cbn; lia).
  assert (H2 : 1 <= nbuckets (norm_cfg c)) by (cbn; lia). revert Hd H1 H2. unfold keep, width.
  generalize (windowMs (norm_cfg c)) (nbuckets (norm_cfg c)). intros W n Hd H1 H2.
  pose proof (Z_div_mod_eq_full W n) as E. rewrite Hd, Z.add_0_r in E.
  assert (1 <= W / n) by nia. rewrite Z.max_r by lia. split_and!; [lia|lia|].
  replace (W + W / n - 1) with (n * (W / n) + (W / n - 1)) by lia.
  rewrite Z.div_add_l by lia. rewrite Z.div_small by lia. lia.
Qed.

Lemma repeat_replicate {A} (x : A) n : repeat x n = replicate n x.
Proof. induction n as [|n IH]; [done|]. cbn. by rewrite IH. Qed.

(** Every bucket after the reports, slot by slot. *)
Lemma feed_buckets c rs :
  let n := nbuckets (norm_cfg c) in
  let w := width (norm_cfg c) in
  b_buckets (feed rs (breaker_init c))
  = map (fun j => fold_left (fun k r => add_to r.1 (r.2 / w) k) (in_slot w n j rs) empty_bucket)
      (seq 0 (Z.to_nat n)).
Proof.
  intros n w. assert (Hn : 0 < n) by (unfold n; cbn; lia).
  destruct (feed_fields rs (breaker_init c)) as (_ & _ & ->).
  replace (b_cfg (breaker_init c)) with (norm_cfg c) by done.
  replace (b_buckets (breaker_init c)) with (repeat empty_bucket (Z.to_nat n)) by done.
  rewrite repeat_length, Z2Nat.id by lia. fold w. apply list_eq. intros j.
  pose proof (fold_alter_slot w n rs (repeat empty_bucket (Z.to_nat n)) j) as E.
  etransitivity; [exact E|]. rewrite list_lookup_fmap.
  destruct (decide (j < Z.to_nat n)%nat).
  - rewrite lookup_seq_lt by done. rewrite repeat_replicate, lookup_replicate_2 by done. done.
  - rewrite repeat_replicate, (lookup_ge_None_2 (replicate _ _)) by (rewrite length_replicate; lia). by rewrite lookup_seq_ge by lia.
Qed.

(** The sum of one counter over the window of a breaker just reset. *)
Lemma window_total f g c rs ms :
  (f = k_requests /\ g = (fun _ => true)) \/ (f = k_failures /\ g = (fun r => is_fail (r_mark r)))
  \/ (f = k_slows /\ g = r_slow) ->
  windowMs (norm_cfg c) mod nbuckets (norm_cfg c) = 0 -> Z.of_nat (length rs) < 2 ^ 64 ->
  StronglySorted (fun p q => p.2 <= q.2) rs ->
  Forall (fun r => width (norm_cfg c) <= r.2 <= ms) rs ->
  let b := feed rs (breaker_init c) in
  let w := width (norm_cfg c) in
  fold_left (fun n k => wrap64 (n + f k))
    (List.filter (in_window (b_cfg b) (ms / w)) (b_buckets b)) 0
  = counted g (recent w (nbuckets (norm_cfg c)) (ms / w) rs).
Proof.
  intros Hfg Hd Hl Hs Ht b w. destruct (whole_window c Hd) as (Hw & Hn & Hk). fold w in Hw.
  set (n := nbuckets (norm_cfg c)) in *. set (now := ms / w).
  assert (Hst : StronglySorted (fun p q => p.2 / w <= q.2 / w) rs).
  { clear -Hs Hw. induction Hs as [|r rs _ IH Hr]; [constructor|]. constructor; [done|].
    eapply Forall_impl; [exact Hr|]. cbn. intros q Hq. by apply Z.div_le_mono. }
  assert (Htk : Forall (fun r => 1 <= r.2 / w <= now) rs).
  { eapply Forall_impl; [exact Ht|]. cbn. intros r [H1 H2]. split; [|by apply Z.div_le_mono].
    apply Z.div_le_lower_bound; lia. }
  assert (Hpart : forall j, 
    (fun k => if in_window (norm_cfg c) now k then f k else 0)
      (fold_left (fun k r => add_to r.1 (r.2 / w) k) (in_slot w n j rs) empty_bucket)
    = counted g (in_slot w n j (recent w n now rs))).
  { intros j. cbn beta. unfold in_window. rewrite Hk. fold n.
    etransitivity; [apply (bucket_window w n Hw Hn f g now (in_slot w n j rs) Hfg)|].
    - unfold in_slot. pose proof (List.filter_length_le (fun r => Nat.eqb (Z.to_nat ((r.2 / w) mod n)) j) rs). lia.
    - by apply filter_sorted.
    - by apply Forall_filter_bool.
    - exists j. apply Forall_forall. intros r Hr. apply elem_of_filter_bool in Hr as [_ Hr]. by b2p.
    - unfold recent, in_slot. rewrite !filter_filter. f_equal. apply List.filter_ext. intros r. apply andb_comm. }
  assert (Hsum : sumZ (map f (List.filter (in_window (norm_cfg c) now) (b_buckets b)))
    = counted g (recent w n now rs)).
  { rewrite sumZ_filter. unfold b. rewrite feed_buckets, map_map. fold n w.
    rewrite (map_ext _ _ Hpart). apply counted_slots. apply Forall_forall. intros r _.
    pose proof (Z.mod_pos_bound (r.2 / w) n Hn). lia. }
  destruct (feed_fields rs (breaker_init c)) as (Ec & _ & _). fold b in Ec. rewrite Ec.
  change (b_cfg (breaker_init c)) with (norm_cfg c).
  pose proof (counted_le g (recent w n now rs)) as B1.
  assert (B2 : (length (recent w n now rs) <= length rs)%nat) by apply List.filter_length_le.
  rewrite fold_wrap_sum; [lia| |lia|lia].
  apply Forall_filter_bool. eapply Forall_impl; [apply feed_ok|].
  intros k (K1 & K2 & K3). by destruct Hfg as [[-> _]|[[-> _]|[-> _]]].
Qed.

Lemma counted_mono g rs : counted g rs <= counted (fun _ => true) rs.
Proof.
  unfold counted. induction rs as [|r rs IH]; cbn; [lia|]. destruct (g r.1); cbn; lia.
Qed.

(** When the window is a whole number of buckets, what a closed breaker counts
    is exact: reports made in the order of time since the last reset are counted, and
    counted as failed or slow, exactly when they fall in the last [nbuckets] ticks,
    no matter how the ring of buckets was reused; the two rates are percentages. *)
Theorem window_exact c rs ms :
  windowMs (norm_cfg c) mod nbuckets (norm_cfg c) = 0 -> 100 * Z.of_nat (length rs) < 2 ^ 64 ->
  StronglySorted (fun p q => p.2 <= q.2) rs ->
  Forall (fun r => width (norm_cfg c) <= r.2 <= ms) rs ->
  let w := width (norm_cfg c) in
  let n g := counted g (recent w (nbuckets (norm_cfg c)) (ms / w) rs) in
  let req := n (fun _ => true) in
  let rate g := if req =? 0 then 0 else n g * 100 / req in
  snapLocked ms (feed rs (breaker_init c))
  = mkCbSnap req (n (fun r => is_fail (r_mark r))) (n r_slow)
      (rate (fun r => is_fail (r_mark r))) (rate r_slow) /\
  0 <= rate (fun r => is_fail (r_mark r)) <= 100 /\ 0 <= rate r_slow <= 100.
Proof.
  intros Hd Hl Hs Ht w n req rate.
  assert (Hlt : Z.of_nat (length rs) < 2 ^ 64) by lia.
  pose proof (fun f g H => window_total f g c rs ms H Hd Hlt Hs Ht) as T. fold w in T.
  assert (Hrate : forall g, 0 <= rate g <= 100 /\
    rate g = if req =? 0 then 0 else wrap32 (wrap64 (n g * 100) / req)).
  { intros g. unfold rate. btest (req =? 0); [lia|].
    pose proof (counted_mono g (recent w (nbuckets (norm_cfg c)) (ms / w) rs)) as M.
    change (n g <= req) in M.
    assert (0 <= n g /\ 0 <= req) by (unfold req, n, counted; lia).
    assert (req <= Z.of_nat (length rs)).
    { unfold req, n, counted, recent.
      pose proof (List.filter_length_le (fun r => ms / w - r.2 / w <? nbuckets (norm_cfg c)) rs).
      etransitivity; [apply inj_le, List.filter_length_le|lia]. }
    assert (0 <= n g * 100 / req <= 100).
    { split; [apply Z.div_pos; lia|]. apply Z.div_le_upper_bound; lia. }
    split; [done|]. rewrite wrap64_id, wrap32_id; unfold is_u32, is_u64; lia. }
  split; [|split; apply Hrate].
  unfold snapLocked. destruct (feed_fields rs (breaker_init c)) as (Ec & _ & _).
  change (b_cfg (breaker_init c)) with (norm_cfg c) in Ec.
  pose proof (T k_requests (fun _ => true) ltac:(auto)) as T1.
  pose proof (T k_failures (fun r => is_fail (r_mark r)) ltac:(auto)) as T2.
  pose proof (T k_slows r_slow ltac:(auto)) as T3.
  cbv zeta in T1, T2, T3. rewrite Ec in *. fold w in T1, T2, T3 |- *. rewrite T1, T2, T3.
  f_equal; symmetry; apply Hrate.
Qed.

(** ** Witnesses *)

Definition cfg1 : CbCfg := mkCbCfg 1 10000 10 20 50 1000 50 10000 60000 1 1 [500; 502; 503; 504].

Definition ret_of (m : UpMark) : UpRet := mkUpRet m U_NONE 0 0 false.

(** A failure opens the breaker, the time-out passes, a probe is out. *)
Definition run1 : list CbEvent :=
  [E_ALLOW 1000000000; E_DONE 0 (ret_of M_FAIL) 2000000000; E_ALLOW 12500000000].

Lemma breaker_probes_witness :
  b_state (cb_run cfg1 run1).1 = CB_HALF_OPEN /\ probes (cb_run cfg1 run1).1 (cb_run cfg1 run1).2 = 1 /\
  (isAllowed 0 (cb_run cfg1 run1).1).1 = None.
Proof.
  destruct (breaker_probes cfg1 run1 (cb_run cfg1 run1).1 (cb_run cfg1 run1).2 0) as (_ & _ & H).
  - by destruct (cb_run cfg1 run1).
  - by vm_compute.
  - assert (E : b_state (cb_run cfg1 run1).1 = CB_HALF_OPEN) by by vm_compute.
    rewrite E in H. destruct H as (_ & _ & H). split_and!; [done|by vm_compute|].
    apply H. by vm_compute.
Defined.

Definition reports1 : list (UpRet * Z) :=
  [(ret_of M_OK, 1000); (ret_of M_FAIL, 5000); (ret_of M_FAIL, 12500); (ret_of M_OK, 12700)].

Lemma window_exact_witness :
  snapLocked 13000 (feed reports1 (breaker_init cfg1)) = mkCbSnap 3 2 0 66 0.
Proof.
  etransitivity; [apply (window_exact cfg1 reports1 13000)|by vm_compute].
  - by vm_compute.
  - by vm_compute.
  - repeat constructor; cbn; lia.
  - repeat (apply List.Forall_cons || apply List.Forall_nil); by vm_compute.
Defined.

(** A window that is not a whole number of buckets counts [keep] ticks with fewer
    buckets: the report at 3 ms is inside a window of 10 ms at 12 ms, and is lost. *)
Example window_loses :
  let c := mkCbCfg 5 10 3 20 50 1000 50 10000 60000 1 1 [] in
  keep (norm_cfg c) = 4 /\
  s_requests (snapLocked 12 (feed [(ret_of M_FAIL, 3); (ret_of M_FAIL, 12)] (breaker_init c))) = 1.
Proof. by vm_compute. Qed.
