(* ===== verification/Lb.v ===== *)
(** * Load balancers (src/gateway/lb.h, [WeightedRr::select] of src/gateway/ups_group.cpp)

    A balancer picks one of the candidates of a group. [SIZE_MAX], the answer to no
    candidates, is [None]. What a group needs of a balancer is the class
    [Balancer]; the four that can be configured and the placeholder satisfy it. *)

From S2P Require Import Prelude Records.

Record LbCand := mkCand { c_index : nat; c_weight : Z; c_active : Z }.

Definition kMaxLoadBalancerWeight : Z := 1000000.

(** ** The balancers *)

Record WeightedRr := mkWrr {
  m_cur : list Z; m_indexes : list nat; m_weights : list Z; m_zero_wt_cnt : Z }.

Inductive LoadBalancer :=
| RrLb (counter : Z)
| LeastConn (counter : Z)
| WeightLeast (counter : Z)
| ChashLb (counter : Z)
| Weighted (w : WeightedRr).

Definition lb_name (lb : LoadBalancer) : string :=
  match lb with
  | RrLb _ => "round_robin" | Weighted _ => "weighted" | LeastConn _ => "least_conn"
  | WeightLeast _ => "weighted_least_conn" | ChashLb _ => "consistent_hash"
  end.

Definition wrr_init : WeightedRr := mkWrr [] [] [] 0.

Definition IsSupportedLoadBalancer (type : string) : bool :=
  String.eqb type "round_robin" || String.eqb type "weighted" || String.eqb type "least_conn"
  || String.eqb type "weighted_least_conn".

Definition MakeLoadBalancer (type : string) : LoadBalancer :=
  if String.eqb type "weighted" then Weighted wrr_init
  else if String.eqb type "least_conn" then LeastConn 0
  else if String.eqb type "weighted_least_conn" then WeightLeast 0
  else RrLb 0.

(** Round robin, and the placeholder of consistent hashing. *)
Definition rr_select (counter : Z) (c : list LbCand) : option nat :=
  c_index <$> c !! Z.to_nat (counter mod Z.of_nat (length c)).

(** The [pick]-th candidate that satisfies [p]. *)
Fixpoint pick_nth (p : LbCand -> bool) (pick : Z) (c : list LbCand) : option LbCand :=
  match c with
  | [] => None
  | x :: c => if p x then if pick =? 0 then Some x else pick_nth p (pick - 1) c else pick_nth p pick c
  end.

Definition count_if (p : LbCand -> bool) (c : list LbCand) : Z :=
  Z.of_nat (length (List.filter p c)).

Definition min_conn (x : LbCand) (c : list LbCand) : Z :=
  fold_left (fun m y => if c_active y <? m then c_active y else m) c (c_active x).

Definition least_select (counter : Z) (c : list LbCand) : option nat :=
  match c with
  | [] => None
  | x :: c' =>
      let same y := c_active y =? min_conn x c' in
      match pick_nth same (counter mod count_if same c) c with
      | Some y => Some (c_index y)
      | None => Some (c_index x)
      end
  end.

Definition conn_of (x : LbCand) : Z := if c_active x <? 0 then 0 else c_active x.
Definition weight_of (x : LbCand) : Z := if c_weight x =? 0 then 1 else c_weight x.

(** The comparison of two loads, multiplied crosswise. *)
Definition lighter (x y : LbCand) : bool :=
  wrap64 (conn_of x * weight_of y) <? wrap64 (conn_of y * weight_of x).
Definition same_load (best x : LbCand) : bool :=
  wrap64 (conn_of x * weight_of best) =? wrap64 (conn_of best * weight_of x).

Definition lightest (x : LbCand) (c : list LbCand) : LbCand :=
  fold_left (fun b y => if lighter y b then y else b) c x.

Definition wleast_select (counter : Z) (c : list LbCand) : option nat :=
  match c with
  | [] => None
  | x :: c' =>
      let best := lightest x c' in
      match pick_nth (same_load best) (counter mod count_if (same_load best) c) c with
      | Some y => Some (c_index y)
      | None => Some (c_index best)
      end
  end.

(** Smooth weighted round robin: the weights [m_cur] follow the candidates by
    position and start again when the candidates or their weights change. *)
Definition wrr_changed (w : WeightedRr) (c : list LbCand) : bool :=
  negb (Nat.eqb (length (m_cur w)) (length c)) || negb (bool_decide (m_indexes w = map c_index c))
  || negb (bool_decide (m_weights w = map c_weight c)).

Definition wrr_reset (c : list LbCand) : WeightedRr :=
  mkWrr (map (fun _ => 0) c) (map c_index c) (map c_weight c) 0.

Definition sumZ (l : list Z) : Z := foldr Z.add 0 l.

(** The position of the first greatest element. *)
Fixpoint argmax_from (i best : nat) (m : Z) (l : list Z) : nat :=
  match l with
  | [] => best
  | v :: l => if v >? m then argmax_from (S i) i v l else argmax_from (S i) best m l
  end.

Definition argmax (l : list Z) : nat :=
  match l with [] => 0%nat | v :: l => argmax_from 1 0 v l end.

Definition wrr_select (w : WeightedRr) (c : list LbCand) : option nat * WeightedRr :=
  match c with
  | [] => (None, w)
  | _ =>
      let w := if wrr_changed w c then wrr_reset c else w in
      let cur := zip_with Z.add (m_cur w) (map c_weight c) in
      let total := sumZ (map c_weight c) in
      if total <=? 0 then
        (c_index <$> c !! Z.to_nat (m_zero_wt_cnt w mod Z.of_nat (length c)),
         (w <| m_cur := cur |>) <| m_zero_wt_cnt := wrap64 (m_zero_wt_cnt w + 1) |>)
      else
        let best := argmax cur in
        (c_index <$> c !! best, w <| m_cur := alter (fun v => v - total) best cur |>)
  end.

Definition lb_select (lb : LoadBalancer) (c : list LbCand) : option nat * LoadBalancer :=
  match c with
  | [] => (None, lb)
  | _ =>
      match lb with
      | RrLb n => (rr_select n c, RrLb (wrap64 (n + 1)))
      | ChashLb n => (rr_select n c, ChashLb (wrap64 (n + 1)))
      | LeastConn n => (least_select n c, LeastConn (wrap64 (n + 1)))
      | WeightLeast n => (wleast_select n c, WeightLeast (wrap64 (n + 1)))
      | Weighted w => let '(i, w) := wrr_select w c in (i, Weighted w)
      end
  end.

(** ** The contract of a balancer *)

Class Balancer (S : Type) := {
  bal_select : S -> list LbCand -> option nat * S;
  bal_in : forall s c, c <> [] -> exists x, x ∈ c /\ (bal_select s c).1 = Some (c_index x);
}.

Lemma lookup_mod {A} (c : list A) n : c <> [] ->
  exists x, c !! Z.to_nat (n mod Z.of_nat (length c)) = Some x /\ x ∈ c.
Proof.
  intros Hc. destruct (lookup_lt_is_Some_2 c (Z.to_nat (n mod Z.of_nat (length c)))) as [x Hx].
  - destruct c; [done|]. pose proof (Z.mod_pos_bound n (Z.of_nat (length (a :: c))) ltac:(cbn; lia)). lia.
  - exists x. split; [done|]. by eapply list_elem_of_lookup_2.
Qed.

Lemma pick_nth_in p k c x : pick_nth p k c = Some x -> x ∈ c /\ p x = true.
Proof.
  revert k. induction c as [|y c IH]; intros k H; [done|]. cbn in H.
  destruct (p y) eqn:Ep; [destruct (k =? 0)|].
  - injection H as <-. split; [left|done].
  - apply IH in H as [? ?]. split; [by right|done].
  - apply IH in H as [? ?]. split; [by right|done].
Qed.

Lemma pick_nth_some p k c : 0 <= k < count_if p c -> exists x, pick_nth p k c = Some x.
Proof.
  unfold count_if. revert k. induction c as [|y c IH]; intros k H; [cbn in H; lia|]. cbn in *.
  destruct (p y); [|by apply IH]. cbn in H. btest (k =? 0); [by eexists|]. apply IH. lia.
Qed.

Lemma argmax_from_spec i best m l (pre : list Z) :
  length pre = i -> pre !! best = Some m -> (forall v, v ∈ pre -> v <= m) ->
  exists v, (pre ++ l) !! argmax_from i best m l = Some v /\ forall u, u ∈ pre ++ l -> u <= v.
Proof.
  revert i best m pre. induction l as [|v l IH]; intros i best m pre Hi Hb Hm; cbn.
  - rewrite app_nil_r. by exists m.
  - replace (pre ++ v :: l) with ((pre ++ [v]) ++ l) by by rewrite <- app_assoc.
    btest (v >? m); apply IH; rewrite ?length_app; cbn; try lia.
    + rewrite lookup_app_r by lia. by rewrite Hi, Nat.sub_diag.
    + intros u [Hu| ->%list_elem_of_singleton]%elem_of_app; [|lia]. apply Hm in Hu. lia.
    + by apply lookup_app_l_Some.
    + intros u [Hu| ->%list_elem_of_singleton]%elem_of_app; [by apply Hm|lia].
Qed.

Lemma argmax_spec l : l <> [] ->
  exists v, l !! argmax l = Some v /\ forall u, u ∈ l -> u <= v.
Proof.
  destruct l as [|v l]; [done|]. intros _. cbn.
  apply (argmax_from_spec 1 0 v l [v]); [done|done|].
  intros u ->%list_elem_of_singleton. lia.
Qed.

Lemma wrr_ready w c :
  let w' := if wrr_changed w c then wrr_reset c else w in
  length (m_cur w') = length c /\ m_indexes w' = map c_index c /\ m_weights w' = map c_weight c.
Proof.
  cbn. destruct (wrr_changed w c) eqn:E; cbn; [by rewrite length_map|].
  unfold wrr_changed in E. b2p. done.
Qed.

Lemma lightest_in x c : lightest x c = x \/ lightest x c ∈ c.
Proof.
  unfold lightest. revert x. induction c as [|y c IH]; intros x; cbn; [by left|].
  destruct (IH (if lighter y x then y else x)) as [->|H]; [|right; by right].
  destruct (lighter y x); [right; left|by left].
Qed.

Lemma lb_select_in lb c : c <> [] -> exists x, x ∈ c /\ (lb_select lb c).1 = Some (c_index x).
Proof.
  intros Hc. destruct c as [|x c]; [done|].
  assert (R : forall n, exists y, y ∈ x :: c /\ rr_select n (x :: c) = Some (c_index y)).
  { intros n. unfold rr_select. destruct (lookup_mod (x :: c) n Hc) as (y & Hy & Hin). rewrite Hy. by exists y. }
  destruct lb as [n|n|n|n|w]; cbn [lb_select fst]; [apply R| | |apply R|].
  - unfold least_select. destruct (pick_nth _ _ _) as [y|] eqn:E; [|exists x; split; [left|done]].
    apply pick_nth_in in E as [E _]. by exists y.
  - unfold wleast_select. destruct (pick_nth _ _ _) as [y|] eqn:E.
    + apply pick_nth_in in E as [E _]. by exists y.
    + exists (lightest x c). split; [|done]. destruct (lightest_in x c) as [->|H]; [left|by right].
  - destruct (wrr_ready w (x :: c)) as (Hl & _ & _). unfold wrr_select.
    set (w' := if wrr_changed w (x :: c) then _ else _) in *. clearbody w'.
    destruct (sumZ _ <=? 0).
    + cbn [fst]. apply (R (m_zero_wt_cnt w')).
    + cbn [fst]. destruct (argmax_spec (zip_with Z.add (m_cur w') (map c_weight (x :: c)))) as (v & Hv & _).
      { destruct (m_cur w'); done. }
      apply lookup_lt_Some in Hv. rewrite length_zip_with, length_map in Hv.
      destruct (lookup_lt_is_Some_2 (x :: c) (argmax (zip_with Z.add (m_cur w') (map c_weight (x :: c)))))
        as [y Hy]; [lia|]. rewrite Hy. exists y. split; [by eapply list_elem_of_lookup_2|done].
Qed.

#[global] Instance lb_Balancer : Balancer LoadBalancer := {|
  bal_select := lb_select;
  bal_in := lb_select_in;
|}.

(** ** Least connections *)

Lemma min_conn_spec x c y : y ∈ x :: c -> min_conn x c <= c_active y.
Proof.
  unfold min_conn. assert (G : forall m, fold_left (fun m y => if c_active y <? m then c_active y else m) c m <= m /\
    forall y, y ∈ c -> fold_left (fun m y => if c_active y <? m then c_active y else m) c m <= c_active y).
  { induction c as [|z c IH]; intros m; cbn; [split; [lia|by intros ? ?%elem_of_nil]|].
    destruct (IH (if c_active z <? m then c_active z else m)) as [I1 I2]. btest (c_active z <? m).
    - split; [lia|]. intros u [->|Hu]%elem_of_cons; [done|by apply I2].
    - split; [done|]. intros u [->|Hu]%elem_of_cons; [lia|by apply I2]. }
  destruct (G (c_active x)) as [G1 G2]. intros [->|H]%elem_of_cons; [done|by apply G2].
Qed.

Lemma min_conn_in x c : exists y, y ∈ x :: c /\ c_active y = min_conn x c.
Proof.
  unfold min_conn. revert x. induction c as [|z c IH]; intros x; cbn.
  { exists x. split; [left|done]. }
  btest (c_active z <? c_active x).
  - destruct (IH z) as (y & Hy & E). exists y. split; [|done].
    apply elem_of_cons in Hy as [->|Hy]; set_solver.
  - destruct (IH x) as (y & Hy & E). exists y. split; [|done].
    apply elem_of_cons in Hy as [->|Hy]; set_solver.
Qed.

Lemma count_if_pos p c x : x ∈ c -> p x = true -> 0 < count_if p c.
Proof.
  intros H Hp. unfold count_if.
  assert (E : x ∈ List.filter p c) by (apply elem_of_filter_bool; done).
  destruct (List.filter p c); [by apply elem_of_nil in E|cbn; lia].
Qed.

Lemma pick_nth_mod p n c x : x ∈ c -> p x = true ->
  exists y, pick_nth p (n mod count_if p c) c = Some y /\ y ∈ c /\ p y = true.
Proof.
  intros H Hp. pose proof (count_if_pos p c x H Hp).
  destruct (pick_nth_some p (n mod count_if p c) c) as [y Hy]; [by apply Z.mod_pos_bound|].
  exists y. split; [done|]. by apply pick_nth_in in Hy.
Qed.

(** A candidate as the group builds it. *)
Definition cand_ok (x : LbCand) : Prop := 0 <= c_active x < 2 ^ 31 /\ is_u32 (c_weight x).

Lemma load_bounds x : cand_ok x -> conn_of x = c_active x /\ 0 <= conn_of x < 2 ^ 31 /\ 1 <= weight_of x < 2 ^ 32.
Proof.
  intros [H1 H2]. unfold is_u32 in H2. unfold conn_of, weight_of.
  replace (c_active x <? 0) with false by lia. btest (c_weight x =? 0); lia.
Qed.

Lemma lighter_spec x y : cand_ok x -> cand_ok y ->
  lighter x y = (conn_of x * weight_of y <? conn_of y * weight_of x).
Proof.
  intros Hx%load_bounds Hy%load_bounds. unfold lighter. rewrite !wrap64_id; [done| |]; unfold is_u64; nia.
Qed.

Lemma same_load_spec x y : cand_ok x -> cand_ok y ->
  same_load y x = (conn_of x * weight_of y =? conn_of y * weight_of x).
Proof.
  intros Hx%load_bounds Hy%load_bounds. unfold same_load. rewrite !wrap64_id; [done| |]; unfold is_u64; nia.
Qed.

(** Loads compared crosswise are ordered like fractions. *)
Lemma cross_trans a b c wa wb wc : 0 < wa -> 0 < wb -> 0 < wc -> 0 <= a -> 0 <= b -> 0 <= c ->
  a * wb <= b * wa -> b * wc <= c * wb -> a * wc <= c * wa.
Proof. intros. nia. Qed.

Lemma lightest_spec x c y : Forall cand_ok (x :: c) -> y ∈ x :: c ->
  conn_of (lightest x c) * weight_of y <= conn_of y * weight_of (lightest x c).
Proof.
  revert x y. induction c as [|z c IH]; intros x y H Hy; cbn.
  { apply list_elem_of_singleton in Hy as ->. lia. }
  apply Forall_cons in H as [Hx [Hz Hc]%Forall_cons].
  set (b := if lighter z x then z else x). change (fold_left _ c b) with (lightest b c).
  assert (Hb : cand_ok b) by (unfold b; by destruct (lighter z x)).
  assert (Hbx : conn_of b * weight_of x <= conn_of x * weight_of b /\ conn_of b * weight_of z <= conn_of z * weight_of b).
  { unfold b. rewrite lighter_spec by done. btest (conn_of z * weight_of x <? conn_of x * weight_of z); lia. }
  assert (Hself : forall u, u ∈ b :: c -> cand_ok u -> conn_of (lightest b c) * weight_of u <= conn_of u * weight_of (lightest b c)).
  { intros u Hu _. apply IH; [by constructor|done]. }
  assert (Hlb : cand_ok (lightest b c)).
  { destruct (lightest_in b c) as [->|E]; [done|]. rewrite Forall_forall in Hc. by apply Hc. }
  pose proof (load_bounds _ Hb) as (? & ? & ?). pose proof (load_bounds _ Hlb) as (? & ? & ?).
  pose proof (Hself b ltac:(left) Hb) as Hbb.
  apply elem_of_cons in Hy as [->|[->|Hy]%elem_of_cons].
  - pose proof (load_bounds _ Hx) as (? & ? & ?).
    apply (cross_trans _ (conn_of b) _ _ (weight_of b)); lia.
  - pose proof (load_bounds _ Hz) as (? & ? & ?).
    apply (cross_trans _ (conn_of b) _ _ (weight_of b)); lia.
  - apply Hself; [by right|]. rewrite Forall_forall in Hc. by apply Hc.
Qed.

Lemma pick_nth_onto p c y : y ∈ c -> p y = true ->
  exists i, 0 <= i < count_if p c /\ pick_nth p i c = Some y.
Proof.
  intros H Hp. unfold count_if. induction c as [|z c IH]; [by apply elem_of_nil in H|]. cbn.
  apply elem_of_cons in H as [<-|H].
  - rewrite Hp. exists 0. cbn. split; [lia|done].
  - destruct (IH H) as (i & Hi & E). destruct (p z); [|by exists i].
    exists (i + 1). cbn [length]. replace (i + 1 =? 0) with false by lia.
    replace (i + 1 - 1) with i by lia. split; [lia|done].
Qed.

Lemma mod_reach n i k : 0 <= i < k -> exists j, 0 <= j < k /\ (n + j) mod k = i.
Proof.
  intros H. exists ((i - n) mod k). split; [apply Z.mod_pos_bound; lia|].
  rewrite Z.add_mod_idemp_r by lia. replace (n + (i - n)) with i by lia. by apply Z.mod_small.
Qed.

(** Neither candidate is more loaded than the other, by the measure of a balancer. *)
Definition no_heavier (weighted : bool) (x y : LbCand) : Prop :=
  if weighted then c_active x * weight_of y <= c_active y * weight_of x
  else c_active x <= c_active y.

Definition least (weighted : bool) (n : Z) : LoadBalancer :=
  if weighted then WeightLeast n else LeastConn n.

(** What both balancers do: pick among those that satisfy [p], in turns. *)
Lemma pick_rotates (p : LbCand -> bool) d n c x : x ∈ c -> p x = true ->
  let sel n := match pick_nth p (n mod count_if p c) c with Some y => Some (c_index y) | None => d end in
  (exists y, y ∈ c /\ p y = true /\ sel n = Some (c_index y)) /\
  (forall y, y ∈ c -> p y = true -> exists j, 0 <= j < count_if p c /\ sel (n + j) = Some (c_index y)).
Proof.
  intros Hx Hp sel. unfold sel. split.
  - destruct (pick_nth_mod p n c x Hx Hp) as (y & -> & Hy & Hpy). by exists y.
  - intros y Hy Hpy. destruct (pick_nth_onto p c y Hy Hpy) as (i & Hi & E).
    destruct (mod_reach n i _ Hi) as (j & Hj & Ej). exists j. split; [done|]. by rewrite Ej, E.
Qed.

(** The candidates such a balancer rotates over. *)
Definition tied (weighted : bool) (a : LbCand) (c : list LbCand) (y : LbCand) : bool :=
  if weighted then same_load (lightest a c) y else c_active y =? min_conn a c.

Definition best_cand (weighted : bool) (c : list LbCand) (x : LbCand) : Prop :=
  x ∈ c /\ forall y, y ∈ c -> no_heavier weighted x y.

Lemma lightest_elem a c : lightest a c ∈ a :: c.
Proof. destruct (lightest_in a c) as [->|]; [left|by right]. Qed.

Lemma tied_ex weighted a c : exists x, x ∈ a :: c /\ tied weighted a c x = true.
Proof.
  destruct weighted; cbn.
  - exists (lightest a c). split; [apply lightest_elem|]. apply Z.eqb_refl.
  - destruct (min_conn_in a c) as (y & Hy & E). exists y. split; [done|]. by apply Z.eqb_eq.
Qed.

Lemma tied_best weighted a c x : Forall cand_ok (a :: c) ->
  best_cand weighted (a :: c) x <-> x ∈ a :: c /\ tied weighted a c x = true.
Proof.
  intros Hok. pose proof (lightest_elem a c) as Hl. unfold best_cand, tied, no_heavier.
  destruct weighted; split; intros [Hx H]; (split; [done|]).
  - pose proof (lightest_spec a c x Hok Hx) as H2. specialize (H _ Hl). rewrite Forall_forall in Hok.
    rewrite same_load_spec by auto. apply Z.eqb_eq.
    pose proof (load_bounds x (Hok _ Hx)) as (E1 & _). pose proof (load_bounds _ (Hok _ Hl)) as (E2 & _).
    rewrite E1, E2 in *. lia.
  - intros y Hy. pose proof (lightest_spec a c y Hok Hy) as H2. rewrite Forall_forall in Hok.
    rewrite same_load_spec in H by auto. b2p.
    pose proof (load_bounds x (Hok _ Hx)) as (E1 & B1 & W1).
    pose proof (load_bounds y (Hok _ Hy)) as (E3 & B3 & W3).
    pose proof (load_bounds _ (Hok _ Hl)) as (E2 & B2 & W2). rewrite E1, E2, E3 in *.
    apply (cross_trans _ (c_active (lightest a c)) _ _ (weight_of (lightest a c))); lia.
  - destruct (min_conn_in a c) as (y & Hy & E). specialize (H y Hy).
    pose proof (min_conn_spec a c x Hx). apply Z.eqb_eq. lia.
  - intros y Hy. b2p. pose proof (min_conn_spec a c y Hy). lia.
Qed.

(** [least_conn] and [weighted_least_conn] pick a candidate no other is less
    loaded than (by its connections, or by its connections for its weight, compared
    without overflow), and equally loaded candidates take turns: each is picked
    within as many picks as there are of them. *)
Theorem least_picks_lightest weighted n c :
  c <> [] -> Forall cand_ok c ->
  let pick n := (lb_select (least weighted n) c).1 in
  (lb_select (least weighted n) c).2 = least weighted (wrap64 (n + 1)) /\
  (exists x, best_cand weighted c x /\ pick n = Some (c_index x)) /\
  (forall x, best_cand weighted c x ->
    exists j, 0 <= j < Z.of_nat (length c) /\ pick (n + j) = Some (c_index x)).
Proof.
  intros Hc Hok pick. destruct c as [|a c]; [done|]. set (p := tied weighted a c).
  destruct (tied_ex weighted a c) as (w & Hw & Hpw).
  set (d := if weighted then Some (c_index (lightest a c)) else Some (c_index a)).
  assert (Hp : forall n, pick n = match pick_nth p (n mod count_if p (a :: c)) (a :: c) with
    Some y => Some (c_index y) | None => d end) by (intros m; unfold pick, p, d; by destruct weighted).
  destruct (pick_rotates p d n (a :: c) w Hw Hpw) as [R1 R2].
  split; [by destruct weighted|split].
  - destruct R1 as (y & Hy & Hpy & E). exists y. rewrite Hp. split; [by apply tied_best|done].
  - intros x [Hx Hpx]%tied_best; [|done]. destruct (R2 x Hx Hpx) as (j & Hj & E).
    exists j. rewrite Hp. split; [|done].
    unfold count_if in Hj. pose proof (List.filter_length_le p (a :: c)). lia.
Qed.

(** ** Smooth weighted round robin is fair

    [k] picks among the same candidates, the latest first. *)
Fixpoint bal_run {S} `{Balancer S} (k : nat) (s : S) (c : list LbCand) : list (option nat) * S :=
  match k with
  | O => ([], s)
  | S k =>
      let '(ps, s) := bal_run k s c in
      let '(i, s) := bal_select s c in (i :: ps, s)
  end.

Definition times (i : nat) (ps : list (option nat)) : Z :=
  Z.of_nat (length (List.filter (fun o => bool_decide (o = Some i)) ps)).

(** The weights after [k] picks of which [m] went to a position. *)
Definition cur_after (total k w m : Z) : Z := k * w - total * m.

Lemma sumZ_cur total k ws ms : length ms = length ws ->
  sumZ (zip_with (cur_after total k) ws ms) = k * sumZ ws - total * sumZ ms.
Proof.
  revert ms. induction ws as [|w ws IH]; intros [|m ms] H; try done; cbn in *; [lia|].
  unfold sumZ in *. rewrite IH by lia. unfold cur_after. lia.
Qed.

Lemma sumZ_alter ms p m : ms !! p = Some m -> sumZ (alter (Z.add 1) p ms) = sumZ ms + 1.
Proof.
  revert p. induction ms as [|x ms IH]; intros [|p] H; try done.
  - change (alter (Z.add 1) 0%nat (x :: ms)) with (1 + x :: ms). cbn. lia.
  - change (alter (Z.add 1) (S p) (x :: ms)) with (x :: alter (Z.add 1) p ms). cbn.
    specialize (IH p H). unfold sumZ in IH. rewrite IH. lia.
Qed.

Lemma sumZ_lower (T : Z) l : Forall (fun v => - T < v) l -> 0 <= T ->
  sumZ l >= - (Z.of_nat (length l) * T).
Proof. intros H HT. induction H as [|v l Hv _ IH]; cbn; [lia|]. unfold sumZ in *. cbn. lia. Qed.

Lemma sumZ_max_pos l : 0 < sumZ l -> exists v, v ∈ l /\ 0 < v.
Proof.
  induction l as [|x l IH]; cbn; [lia|]. intros H. destruct (decide (0 < x)).
  - exists x. split; [left|done].
  - destruct IH as (v & Hv & Hp); [unfold sumZ in *; lia|]. exists v. split; [by right|done].
Qed.

Lemma sumZ_app a b : sumZ (a ++ b) = sumZ a + sumZ b.
Proof.
  induction a as [|x a IH]; [done|]. change (x + sumZ (a ++ b) = x + sumZ a + sumZ b). lia.
Qed.

Lemma sumZ_upper (T : Z) l v : Forall (fun v => - T < v) l -> 0 <= T -> sumZ l = 0 -> v ∈ l ->
  v <= Z.of_nat (length l) * T.
Proof.
  intros Hf HT Hs Hv. apply list_elem_of_split in Hv as (l1 & l2 & ->).
  apply Forall_app in Hf as [H1 [_ H2]%Forall_cons].
  rewrite sumZ_app in Hs. change (sumZ (v :: l2)) with (v + sumZ l2) in Hs. rewrite length_app. cbn [length].
  apply sumZ_lower in H1, H2; [|done..]. unfold sumZ in *.
  replace (Z.of_nat (length l1 + S (length l2))) with (Z.of_nat (length l1) + Z.of_nat (length l2) + 1) by lia.
  rewrite !Z.mul_add_distr_r. lia.
Qed.

(** Equal sums and no element greater: equal. *)
Lemma sumZ_eq ms ws : length ms = length ws -> (forall p m w, ms !! p = Some m -> ws !! p = Some w -> m <= w) ->
  sumZ ms = sumZ ws -> ms = ws.
Proof.
  revert ws. induction ms as [|m ms IH]; intros [|w ws] Hl Hle Hs; try done. cbn in *.
  assert (Hle' : forall p m w, ms !! p = Some m -> ws !! p = Some w -> m <= w)
    by (intros p; apply (Hle (S p))).
  assert (Hm : m <= w) by (by apply (Hle 0%nat)).
  assert (Hss : sumZ ms <= sumZ ws).
  { clear -Hle' Hl. revert ws Hle' Hl. induction ms as [|x ms IH]; intros [|y ws] H Hl; try done. cbn.
    assert (x <= y) by (by apply (H 0%nat)).
    assert (sumZ ms <= sumZ ws) by (apply IH; [intros p; apply (H (S p))|cbn in *; lia]).
    unfold sumZ in *. lia. }
  unfold sumZ in *. assert (m = w) as -> by lia. f_equal. apply IH; [lia|done|lia].
Qed.

(** The state of a run over [c]: the weights are those of [k] picks of which
    [ms !! p] went to position [p], and the picks made are these. *)
Definition wrr_inv (c : list LbCand) (k : nat) (ps : list (option nat)) (w : WeightedRr) (ms : list Z) : Prop :=
  let ws := map c_weight c in
  m_indexes w = map c_index c /\ m_weights w = ws /\ length ms = length c /\
  m_cur w = zip_with (cur_after (sumZ ws) (Z.of_nat k)) ws ms /\ sumZ ms = Z.of_nat k /\
  Forall (fun v => - sumZ ws < v) (m_cur w) /\
  forall p x, c !! p = Some x -> ms !! p = Some (times (c_index x) ps).

Lemma zip_cur_step T k ws ms : length ms = length ws ->
  zip_with Z.add (zip_with (cur_after T k) ws ms) ws = zip_with (cur_after T (k + 1)) ws ms.
Proof.
  intros H. revert ms H. induction ws as [|w ws IH]; intros [|m ms] H; try done.
  cbn in *. rewrite IH by lia. f_equal. unfold cur_after. lia.
Qed.

Lemma zip_cur_alter T k ws ms p :
  alter (fun v => v - T) p (zip_with (cur_after T k) ws ms)
  = zip_with (cur_after T k) ws (alter (Z.add 1) p ms).
Proof.
  revert ms p. induction ws as [|w ws IH]; intros [|m ms] [|p]; try done; cbn.
  - unfold alter, list_alter; cbn. f_equal. unfold cur_after. lia.
  - unfold alter, list_alter in *; cbn. f_equal. apply IH.
Qed.

Lemma times_cons i j ps : times i (Some j :: ps) = times i ps + (if decide (j = i) then 1 else 0).
Proof.
  unfold times. cbn. destruct (decide (j = i)) as [->|H].
  - rewrite bool_decide_true by done. cbn. lia.
  - rewrite bool_decide_false by congruence. lia.
Qed.

Lemma wrr_unchanged c k ps w ms : wrr_inv c k ps w ms -> wrr_changed w c = false /\ length (m_cur w) = length c.
Proof.
  intros (H1 & H2 & H3 & H4 & _).
  assert (Hl : length (m_cur w) = length c) by (rewrite H4, length_zip_with, length_map; lia).
  split; [|done]. unfold wrr_changed. rewrite Hl, Nat.eqb_refl, H1, H2. cbn.
  by rewrite !bool_decide_true.
Qed.

Lemma wrr_step c k ps w ms :
  let T := sumZ (map c_weight c) in
  0 < T -> Forall (fun x => 0 <= c_weight x) c -> NoDup (map c_index c) -> wrr_inv c k ps w ms ->
  exists i w' ms', wrr_select w c = (Some i, w') /\ wrr_inv c (S k) (Some i :: ps) w' ms'.
Proof.
  intros T HT Hws Hnd HI. pose proof (wrr_unchanged _ _ _ _ _ HI) as [Hch Hlen].
  destruct HI as (H1 & H2 & H3 & H4 & H5 & H6 & H7). fold T in H4, H6.
  set (ws := map c_weight c) in *.
  assert (Hc : c <> []) by (intros ->; by cbn in HT).
  set (cur := zip_with Z.add (m_cur w) ws).
  assert (Ecur : cur = zip_with (cur_after T (Z.of_nat k + 1)) ws ms).
  { unfold cur. rewrite H4. apply zip_cur_step. unfold ws. by rewrite length_map. }
  assert (Esum : sumZ cur = T).
  { rewrite Ecur, sumZ_cur by (unfold ws; by rewrite length_map). rewrite H5. fold T. unfold T, ws. lia. }
  assert (Hcl : length cur = length c).
  { unfold cur. rewrite length_zip_with. unfold ws. rewrite length_map. lia. }
  destruct (argmax_spec cur) as (v & Hv & Hmax); [by destruct cur, c|].
  destruct (lookup_lt_is_Some_2 c (argmax cur)) as [x Hx]; [apply lookup_lt_Some in Hv; lia|].
  destruct (sumZ_max_pos cur) as (u & Hu & Hup); [lia|]. apply Hmax in Hu.
  exists (c_index x), (w <| m_cur := alter (fun v => v - T) (argmax cur) cur |>), (alter (Z.add 1) (argmax cur) ms).
  split.
  { unfold wrr_select. destruct c as [|c0 c']; [done|]. rewrite Hch. fold ws T. fold cur.
    replace (T <=? 0) with false by lia. by rewrite Hx. }
  unfold wrr_inv; cbn [m_cur m_indexes m_weights set]. fold ws T. split_and!; try done.
  - by rewrite length_alter.
  - replace (Z.of_nat (S k)) with (Z.of_nat k + 1) by lia.
    change (alter (fun v => v - T) (argmax cur) cur = zip_with (cur_after T (Z.of_nat k + 1)) ws
      (alter (Z.add 1) (argmax cur) ms)). by rewrite Ecur, zip_cur_alter.
  - rewrite (sumZ_alter _ _ (times (c_index x) ps)) by by apply H7. lia.
  - cbn. apply Forall_lookup. intros p y Hp. destruct (decide (p = argmax cur)) as [->|Hne].
    + rewrite list_lookup_alter, decide_True, Hv in Hp by done. cbn in Hp. injection Hp as <-. lia.
    + rewrite list_lookup_alter_ne in Hp by done. unfold cur in Hp.
      rewrite lookup_zip_with in Hp. destruct (m_cur w !! p) as [a|] eqn:Ea; [|done].
      destruct (ws !! p) as [b|] eqn:Eb; [|done]. cbn in Hp. injection Hp as <-.
      apply (Forall_lookup_1 _ _ _ _ H6) in Ea. unfold ws in Eb. rewrite list_lookup_fmap in Eb.
      destruct (c !! p) as [z|] eqn:Ez; [|done]. injection Eb as <-.
      apply (Forall_lookup_1 _ _ _ _ Hws) in Ez. cbn in Ez. lia.
  - intros p y Hp. rewrite times_cons. destruct (decide (p = argmax cur)) as [->|Hne].
    + rewrite list_lookup_alter, decide_True by done. rewrite (H7 _ _ Hp). cbn.
      rewrite decide_True by congruence. f_equal. lia.
    + rewrite list_lookup_alter_ne by done. rewrite (H7 _ _ Hp), decide_False, Z.add_0_r; [done|].
      intros E. apply Hne. apply (NoDup_lookup _ _ _ (c_index x) Hnd); rewrite list_lookup_fmap;
        [rewrite Hp; cbn; congruence|by rewrite Hx].
Qed.

Lemma wrr_inv_run c k w0 :
  let T := sumZ (map c_weight c) in
  0 < T -> Forall (fun x => 0 <= c_weight x) c -> NoDup (map c_index c) ->
  wrr_inv c 0 [] w0 (map (fun _ => 0) c) ->
  exists ms w, (bal_run k (Weighted w0) c).2 = Weighted w /\ wrr_inv c k (bal_run k (Weighted w0) c).1 w ms.
Proof.
  intros T HT Hws Hnd H0. induction k as [|k (ms & w & Es & HI)]; [by exists (map (fun _ => 0) c), w0|].
  cbn [bal_run]. destruct (bal_run k (Weighted w0) c) as [ps s]. cbn [fst snd] in *. subst s.
  destruct (wrr_step c k ps w ms HT Hws Hnd HI) as (i & w' & ms' & E & HI').
  exists ms', w'. change bal_select with lb_select.
  assert (E2 : lb_select (Weighted w) c = (Some i, Weighted w'))
    by (unfold lb_select; rewrite E; destruct c; [by cbn in HT|done]).
  by rewrite E2.
Qed.

Lemma wrr_inv_reset c :
  0 < sumZ (map c_weight c) -> NoDup (map c_index c) ->
  wrr_inv c 0 [] (wrr_reset c) (map (fun _ => 0) c).
Proof.
  intros HT Hnd. unfold wrr_inv, wrr_reset; cbn. split_and!; try done.
  - by rewrite length_map.
  - clear. generalize (sumZ (map c_weight c)). intros T. induction c as [|x c IH]; [done|]. cbn.
    rewrite <- IH. f_equal. unfold cur_after. lia.
  - clear. induction c; [done|]. cbn in *. unfold sumZ in *. lia.
  - apply Forall_forall. intros v (x & -> & _)%list_elem_of_fmap. lia.
  - intros p x Hp. by rewrite list_lookup_fmap, Hp.
Qed.

(** The first pick among new candidates starts from zero weights. *)
Lemma run_from_reset k w0 c :
  0 < sumZ (map c_weight c) -> NoDup (map c_index c) -> wrr_changed w0 c = true ->
  bal_run (S k) (Weighted w0) c = bal_run (S k) (Weighted (wrr_reset c)) c.
Proof.
  intros HT Hnd Hch. assert (Hc : c <> []) by (intros ->; by cbn in HT).
  destruct (wrr_unchanged _ _ _ _ _ (wrr_inv_reset c HT Hnd)) as [Hu _].
  assert (E : bal_select (Weighted w0) c = bal_select (Weighted (wrr_reset c)) c).
  { cbn [bal_select lb_Balancer]. unfold lb_select. destruct c as [|x c]; [done|].
    unfold wrr_select. by rewrite Hch, Hu. }
  induction k as [|k IH]; [cbn [bal_run]; by rewrite E|].
  cbn [bal_run] in IH |- *. rewrite IH. done.
Qed.

Lemma wrr_run_inv k w0 c : (0 < k)%nat ->
  0 < sumZ (map c_weight c) -> Forall (fun x => 0 <= c_weight x) c -> NoDup (map c_index c) ->
  wrr_changed w0 c = true ->
  exists ms w, (bal_run k (Weighted w0) c).2 = Weighted w /\ wrr_inv c k (bal_run k (Weighted w0) c).1 w ms.
Proof.
  intros Hk HT Hws Hnd Hch. destruct k as [|k]; [lia|]. rewrite run_from_reset by done.
  apply wrr_inv_run; [done..|]. by apply wrr_inv_reset.
Qed.

(** Smooth weighted round robin is fair and never overflows: over every full
    round of as many picks as the weights sum to, each candidate is picked exactly
    as often as its weight says; inside a round no candidate gets a whole pick ahead
    of its share; and the running weights stay between minus the total and the total
    times the number of candidates. It starts afresh whenever the candidates or
    their weights change. *)
Theorem wrr_fair w0 c :
  let T := sumZ (map c_weight c) in
  0 < T -> Forall (fun x => 0 <= c_weight x) c -> NoDup (map c_index c) -> wrr_changed w0 c = true ->
  let run k := bal_run k (Weighted w0) c in
  (forall m x, (0 < m)%nat -> x ∈ c ->
    times (c_index x) (run (m * Z.to_nat T)%nat).1 = Z.of_nat m * c_weight x) /\
  (forall k x, (0 < k)%nat -> x ∈ c -> T * times (c_index x) (run k).1 < Z.of_nat k * c_weight x + T) /\
  (forall k w v, (0 < k)%nat -> (run k).2 = Weighted w -> v ∈ m_cur w ->
    - T < v <= Z.of_nat (length c) * T).
Proof.
  intros T HT Hws Hnd Hch run.
  assert (Hshare : forall k x ms w, wrr_inv c k (run k).1 w ms -> x ∈ c ->
    exists p, c !! p = Some x /\ - T < Z.of_nat k * c_weight x - T * times (c_index x) (run k).1).
  { intros k x ms w (_ & _ & _ & E4 & _ & E6 & E7) Hx. apply list_elem_of_lookup in Hx as [p Hp].
    exists p. split; [done|]. refine (Forall_lookup_1 _ _ p _ E6 _).
    rewrite E4, lookup_zip_with, list_lookup_fmap, Hp, (E7 _ _ Hp). done. }
  split_and!.
  - intros m x Hm Hx. assert (Hk : (0 < m * Z.to_nat T)%nat) by lia.
    destruct (wrr_run_inv _ w0 c Hk HT Hws Hnd Hch) as (ms & w & _ & HI). fold (run (m * Z.to_nat T)%nat) in HI.
    assert (E : ms = map (fun x => Z.of_nat m * c_weight x) c).
    { pose proof HI as (_ & _ & El & _ & E5 & _ & E7). apply sumZ_eq.
      - by rewrite length_map.
      - intros p a b Ha Hb. rewrite list_lookup_fmap in Hb. destruct (c !! p) as [y|] eqn:Hp; [|done].
        injection Hb as <-. destruct (Hshare _ y _ _ HI) as (_ & _ & H); [by eapply list_elem_of_lookup_2|].
        rewrite (E7 _ _ Hp) in Ha. injection Ha as <-. rewrite Nat2Z.inj_mul, Z2Nat.id in H by lia. nia.
      - rewrite E5. rewrite Nat2Z.inj_mul, Z2Nat.id by lia. unfold T. clear.
        induction c as [|x c IH]; [cbn; lia|]. cbn in *. unfold sumZ in *. lia. }
    destruct HI as (_ & _ & _ & _ & _ & _ & E7). apply list_elem_of_lookup in Hx as [p Hp].
    specialize (E7 _ _ Hp). rewrite E, list_lookup_fmap, Hp in E7. by injection E7 as <-.
  - intros k x Hk Hx. destruct (wrr_run_inv _ w0 c Hk HT Hws Hnd Hch) as (ms & w & _ & HI).
    destruct (Hshare _ x _ _ HI Hx) as (_ & _ & H). lia.
  - intros k w v Hk Es Hv. destruct (wrr_run_inv _ w0 c Hk HT Hws Hnd Hch) as (ms & w' & E & HI).
    unfold run in Es. rewrite Es in E. injection E as <-.
    pose proof (wrr_unchanged _ _ _ _ _ HI) as [_ Hl]. destruct HI as (_ & _ & H3 & H4 & H5 & H6 & _).
    fold T in H4, H6. split; [by eapply Forall_forall in Hv; [|exact H6]|].
    rewrite <- Hl. apply sumZ_upper; [done|lia| |done].
    rewrite H4, sumZ_cur by (by rewrite length_map). rewrite H5. fold T. lia.
Qed.

(** ** Witnesses *)

Definition cands1 : list LbCand := [mkCand 0 5 2; mkCand 1 1 0; mkCand 2 1 1].

Lemma wrr_fair_witness :
  wrr_changed wrr_init cands1 = true /\
  times 0 (bal_run (1 * Z.to_nat (sumZ (map c_weight cands1)))%nat (Weighted wrr_init) cands1).1 = 5.
Proof.
  split; [by vm_compute|].
  etransitivity; [apply (proj1 (wrr_fair wrr_init cands1 ltac:(by vm_compute)
    ltac:(repeat constructor; by vm_compute) ltac:(by apply (bool_decide_unpack _); vm_compute)
    ltac:(by vm_compute)) 1%nat (mkCand 0 5 2)); [lia|left]|by vm_compute].
Defined.

Lemma least_picks_lightest_witness :
  (exists x, best_cand true cands1 x /\ (lb_select (least true 0) cands1).1 = Some (c_index x)).
Proof.
  apply (least_picks_lightest true 0 cands1); [done|].
  repeat constructor; cbn; lia.
Defined.

(** The picks of 5:1:1 are spread, not bunched. *)
Example wrr_smooth : reverse (bal_run 7 (Weighted wrr_init) cands1).1
  = [Some 0; Some 0; Some 1; Some 0; Some 2; Some 0; Some 0]%nat.
Proof. by vm_compute. Qed.
