(* ===== verification/UpsGroup.v ===== *)
(** * A group of upstream endpoints (src/gateway/ups_group.cpp, ups_group.h, up_ret.h)

    [tryAcquire] lets the balancer choose among the endpoints that may be tried,
    asks the breaker of the choice, and connects; [mark] and [release] report and
    give back. The balancer is any [Balancer]; the clock, the outcome of a
    connection and what other requests do meanwhile are the arguments [Attempt] of
    each turn of the loop. *)

From S2P Require Import Prelude Records Breaker Lb.

(** ** Statistics of an endpoint *)

Definition kMarks : nat := 3.
Definition kWhys : nat := 11.
Definition kBounds : list Z := [1; 5; 10; 25; 50; 100; 250; 500; 1000; 2500; 5000; UINT64_MAX].

Definition mark_index (m : UpMark) : nat := match m with M_OK => 0 | M_FAIL => 1 | M_SKIP => 2 end.

Definition why_index (w : UpWhy) : nat :=
  match w with
  | U_NONE => 0 | U_CONNECT => 1 | U_SEND => 2 | U_TIMEOUT => 3 | U_BAD_RESP => 4 | U_BAD_BODY => 5
  | U_STATUS => 6 | U_BUSY => 7 | U_OPEN => 8 | U_DOWN => 9 | U_DEADLINE => 10
  end.

Definition upMarkName (m : UpMark) : string :=
  match m with M_OK => "ok" | M_FAIL => "fail" | M_SKIP => "skip" end.

Definition upWhyName (w : UpWhy) : string :=
  match w with
  | U_NONE => "none" | U_CONNECT => "connect" | U_SEND => "send" | U_TIMEOUT => "timeout"
  | U_BAD_RESP => "bad_resp" | U_BAD_BODY => "bad_body" | U_STATUS => "status" | U_BUSY => "busy"
  | U_OPEN => "open" | U_DOWN => "down" | U_DEADLINE => "deadline"
  end.

Definition acqWhy (w : AcqWhy) : UpWhy :=
  match w with
  | A_BUSY => U_BUSY | A_OPEN => U_OPEN | A_DOWN => U_DOWN | A_CONNECT => U_CONNECT
  | A_TIMEOUT => U_TIMEOUT | A_DEADLINE => U_DEADLINE | A_NONE => U_NONE
  end.

Record UpStat := mkStat { t_req : list Z; t_rejected : list Z; t_lat : list Z; latSum : Z; latCount : Z }.

Definition stat_init : UpStat :=
  mkStat (repeat 0 (kMarks * kWhys)) (repeat 0 kWhys) (repeat 0 (length kBounds)) 0 0.

Definition incr (n : Z) : Z := wrap64 (n + 1).

(** The first bound the latency does not exceed. *)
Fixpoint lat_slot (cost : Z) (bounds : list Z) : nat :=
  match bounds with
  | [] => 0
  | b :: bs => if cost <=? b then 0 else S (lat_slot cost bs)
  end.

Definition stat_add (ret : UpRet) (s : UpStat) : UpStat :=
  let s := s <| t_req := alter incr (mark_index (r_mark ret) * kWhys + why_index (r_why ret))%nat (t_req s) |> in
  if (r_costMs ret =? 0) && is_skip (r_mark ret) then s
  else ((s <| t_lat := alter incr (lat_slot (r_costMs ret) kBounds) (t_lat s) |>)
          <| latSum := wrap64 (latSum s + r_costMs ret) |>) <| latCount := wrap64 (latCount s + 1) |>.

Definition stat_reject (why : UpWhy) (s : UpStat) : UpStat :=
  s <| t_rejected := alter incr (why_index why) (t_rejected s) |>.

Definition stat_requests (m : UpMark) (w : UpWhy) (s : UpStat) : Z :=
  default 0 (t_req s !! (mark_index m * kWhys + why_index w)%nat).

Definition stat_rejects (w : UpWhy) (s : UpStat) : Z := default 0 (t_rejected s !! why_index w).

Definition stat_latency (i : nat) (s : UpStat) : Z := default 0 (t_lat s !! i).

(** ** Endpoints and groups *)

Record Endpoint := mkEp {
  ep_weight : Z; maxInflight : Z; ep_cb : Breaker; activeConns : Z; ep_stat : UpStat;
  healthy : bool; healthSuccesses : Z; healthFailures : Z; healthChecks : Z; healthCheckFails : Z;
  lastHealthStatus : Z }.

Record HealthCfg := mkHealth { h_enabled : bool; healthyThreshold : Z; unhealthyThreshold : Z }.

Record AcqConn := mkAcq {
  a_endpoint : option nat; a_reused : bool; a_why : AcqWhy; a_turn : Z; a_marked : bool; a_held : bool }.

Definition endpoint_init (w : Z) (cb : CbCfg) (max : Z) : Endpoint :=
  mkEp w (Z.min max INT32_MAX) (breaker_init cb) 0 stat_init true 0 0 0 0 0.

(** The compare-and-swap loops take effect in one step. *)
Definition tryHold (ep : Endpoint) : option Endpoint :=
  let cur := activeConns ep in
  if (0 <=? cur) && (cur <? INT32_MAX) && ((maxInflight ep =? 0) || (cur <? maxInflight ep))
  then Some (ep <| activeConns := cur + 1 |>) else None.

Definition dropHold (ep : Endpoint) : Endpoint :=
  if activeConns ep >? 0 then ep <| activeConns := activeConns ep - 1 |> else ep.

Definition ep_reject (why : UpWhy) (ep : Endpoint) : Endpoint := ep <| ep_stat := stat_reject why (ep_stat ep) |>.
Definition ep_record (ret : UpRet) (turn now : Z) (ep : Endpoint) : Endpoint :=
  ep <| ep_cb := record ret turn now (ep_cb ep) |>.
Definition ep_count (ret : UpRet) (ep : Endpoint) : Endpoint := ep <| ep_stat := stat_add ret (ep_stat ep) |>.

(** What a connection attempt comes to, and the clock around it. *)
Inductive ConnRes := C_OK (reused : bool) | C_FAIL (timed_out : bool).

Record Attempt := mkAttempt {
  at_due : Z; at_allow : Z; at_wait : Z; at_begin : Z; at_left : Z; at_end : Z; at_record : Z;
  at_conn : nat -> bool -> Z -> ConnRes; at_others : list Endpoint -> list Endpoint }.

Definition no_conn (why : AcqWhy) : AcqConn := mkAcq None false why 0 false false.

(** The candidates, what was rejected, and why the last one was. *)
Fixpoint scan (now : nat -> Z) (i : nat) (eps : list Endpoint) : list LbCand * bool * list Endpoint :=
  match eps with
  | [] => ([], false, [])
  | ep :: eps =>
      let '(cs, open, eps') := scan now (S i) eps in
      if negb (healthy ep) then (cs, open, ep_reject U_DOWN ep :: eps')
      else if negb (canTry (now i) (ep_cb ep)) then (cs, true, ep_reject U_OPEN ep :: eps')
      else (mkCand i (ep_weight ep) (activeConns ep) :: cs, open, ep :: eps')
  end.

Definition drop_cand (idx : nat) (cs : list LbCand) : list LbCand :=
  List.filter (fun c => negb (Nat.eqb (c_index c) idx)) cs.

Definition is_half_open (b : Breaker) : bool := match b_state b with CB_HALF_OPEN => true | _ => false end.

(** One turn of the loop with endpoint [idx] chosen: the end of the search, or why
    the choice is dropped. *)
Definition attempt (at_ : Attempt) (connectTimeoutMs dueMs : Z) (idx : nat) (ep : Endpoint) (eps : list Endpoint)
  : (AcqConn + AcqWhy) * list Endpoint :=
  let put ep := <[idx := ep]> eps in
  if negb (healthy ep) then (inr A_DOWN, put (ep_reject U_DOWN ep))
  else match tryHold ep with
  | None => (inr A_BUSY, put (ep_reject U_BUSY ep))
  | Some ep =>
      let '(ok, b) := isAllowed (at_allow at_) (ep_cb ep) in
      let ep := ep <| ep_cb := b |> in
      match ok with
      | None => (inr A_OPEN, put (ep_reject U_OPEN (dropHold ep)))
      | Some turn =>
          let wait := if dueMs =? 0 then connectTimeoutMs
                      else Z.min connectTimeoutMs (leftMs dueMs (at_wait at_)) in
          if wait =? 0 then
            let ret := mkUpRet M_SKIP U_DEADLINE 0 0 false in
            (inl (no_conn A_DEADLINE),
             put (ep_reject U_DEADLINE (dropHold (ep_record ret turn (at_record at_) ep))))
          else
            let halfOpen := is_half_open (ep_cb ep) in
            let res := at_conn at_ idx halfOpen wait in
            let eps := at_others at_ (put ep) in
            match res with
            | C_OK reused => (inl (mkAcq (Some idx) (reused && negb halfOpen) A_NONE turn false true), eps)
            | C_FAIL timed_out =>
                let timeout := timed_out || (negb (dueMs =? 0) && (leftMs dueMs (at_left at_) =? 0)) in
                let cost := wrap64 (upMs (at_end at_) - upMs (at_begin at_)) in
                let fail ep :=
                  let slow := cost >=? slowMs (b_cfg (ep_cb ep)) in
                  let ret := mkUpRet M_FAIL (if timeout then U_TIMEOUT else U_CONNECT) 0 cost slow in
                  dropHold (ep_record ret turn (at_record at_) (ep_count ret ep)) in
                (inr (if timeout then A_TIMEOUT else A_CONNECT), alter fail idx eps)
            end
      end
  end.

Definition is_timeout (w : AcqWhy) : bool := match w with A_TIMEOUT => true | _ => false end.

(** Every candidate left is refused when the deadline has passed. *)
Definition reject_all (cs : list LbCand) (eps : list Endpoint) : list Endpoint :=
  fold_left (fun eps c => alter (ep_reject U_DEADLINE) (c_index c) eps) cs eps.

Section acquire.
Context {S : Type} `{Balancer S}.

Fixpoint acquire_loop (fuel : nat) (env : nat -> Attempt) (connectTimeoutMs dueMs : Z)
    (cs : list LbCand) (last : AcqWhy) (eps : list Endpoint) (lb : S)
    : option (AcqConn * list Endpoint * S) :=
  match fuel with
  | O => None
  | Datatypes.S fuel =>
      match cs with
      | [] => Some (no_conn last, eps, lb)
      | _ =>
          let at_ := env fuel in
          if negb (dueMs =? 0) && (leftMs dueMs (at_due at_) =? 0) then
            Some (no_conn (if is_timeout last then A_TIMEOUT else A_DEADLINE), reject_all cs eps, lb)
          else
            let '(pick, lb) := bal_select lb cs in
            match pick ≫= fun idx => (idx,.) <$> eps !! idx with
            | None => Some (no_conn last, eps, lb)
            | Some (idx, ep) =>
                match attempt at_ connectTimeoutMs dueMs idx ep eps with
                | (inl out, eps) => Some (out, eps, lb)
                | (inr why, eps) => acquire_loop fuel env connectTimeoutMs dueMs (drop_cand idx cs) why eps lb
                end
            end
      end
  end.

Definition tryAcquire (fuel : nat) (now : nat -> Z) (env : nat -> Attempt) (connectTimeoutMs dueMs : Z)
    (eps : list Endpoint) (lb : S) : option (AcqConn * list Endpoint * S) :=
  match eps with
  | [] => Some (no_conn A_DOWN, eps, lb)
  | _ =>
      let '(cs, open, eps) := scan now 0 eps in
      acquire_loop fuel env connectTimeoutMs dueMs cs (if open then A_OPEN else A_DOWN) eps lb
  end.
End acquire.

(** ** Reporting and giving back *)

Definition slow_ret (ret : UpRet) (ep : Endpoint) : UpRet :=
  if r_costMs ret >=? slowMs (b_cfg (ep_cb ep)) then ret <| r_slow := true |> else ret.

Definition mark (now : Z) (ret : UpRet) (conn : AcqConn) (eps : list Endpoint) : AcqConn * list Endpoint :=
  match a_endpoint conn with
  | Some i =>
      if a_marked conn then (conn, eps)
      else (conn <| a_marked := true |>,
            alter (fun ep => let ret := slow_ret ret ep in ep_record ret (a_turn conn) now (ep_count ret ep)) i eps)
  | None => (conn, eps)
  end.

Definition release (now : Z) (ret : UpRet) (conn : AcqConn) (eps : list Endpoint) : AcqConn * list Endpoint :=
  match a_endpoint conn with
  | Some i =>
      let '(conn, eps) := mark now ret conn eps in
      let eps := if a_held conn then alter dropHold i eps else eps in
      ((conn <| a_endpoint := None |>) <| a_held := false |>, eps)
  | None => (conn, eps)
  end.

Definition release_bool (now : Z) (ok : bool) : AcqConn -> list Endpoint -> AcqConn * list Endpoint :=
  release now (mkUpRet (if ok then M_OK else M_FAIL) (if ok then U_NONE else U_CONNECT) 0 0 false).

(** ** Health checks

    [Probe]: what the check of one endpoint reads; the connection or the request
    failed, or the chunks received until the connection gave nothing more. *)

Inductive Probe := P_FAIL | P_READ (chunks : list string).

Fixpoint has_crlf (s : string) : bool :=
  match s with
  | String c (String d _ as s') => (Ascii.eqb c CR && Ascii.eqb d LF) || has_crlf s'
  | _ => false
  end.

Fixpoint ups_read_head (head : string) (chunks : list string) : option string :=
  if has_crlf head || (1024 <=? Z.of_nat (String.length head)) then Some head
  else match chunks with
  | [] => None
  | c :: chunks => if String.eqb c "" then None else ups_read_head (head ++ c) chunks
  end.

Definition atoi (s : string) : Z :=
  match strtol10 (c_str s) with Some (v, _) => wrap_int32 v | None => 0 end.

Definition head_status (head : string) : Z :=
  if String.prefix "HTTP/" head then
    match break_at SP head with
    | Some (_, rest) => if (3 <=? String.length rest)%nat then atoi rest else 0
    | None => 0
    end
  else 0.

Definition check_ep_http (p : Probe) (ep : Endpoint) : bool * Endpoint :=
  match p with
  | P_FAIL => (false, ep)
  | P_READ chunks =>
      match ups_read_head "" chunks with
      | None => (false, ep)
      | Some head =>
          let status := head_status head in
          ((200 <=? status) && (status <? 400), ep <| lastHealthStatus := status |>)
      end
  end.

Definition threshold (n : Z) : Z := if n =? 0 then 1 else n.

Definition health_check (cfg : HealthCfg) (p : Probe) (ep : Endpoint) : Endpoint :=
  let ep := ep <| healthChecks := wrap64 (healthChecks ep + 1) |> in
  let '(ok, ep) := check_ep_http p ep in
  if ok then
    let s := wrap32 (healthSuccesses ep + 1) in
    let ep := (ep <| healthSuccesses := s |>) <| healthFailures := 0 |> in
    if s >=? threshold (healthyThreshold cfg) then ep <| healthy := true |> else ep
  else
    let f := wrap32 (healthFailures ep + 1) in
    let ep := ((ep <| healthCheckFails := wrap64 (healthCheckFails ep + 1) |>) <| healthFailures := f |>)
                <| healthSuccesses := 0 |> in
    if f >=? threshold (unhealthyThreshold cfg) then ep <| healthy := false |> else ep.

Definition runHealthCheckOnce (cfg : HealthCfg) (ps : list Probe) (eps : list Endpoint) : list Endpoint :=
  if h_enabled cfg then zip_with (health_check cfg) ps eps else eps.

(** ** The search ends *)

Section acquire_facts.
Context {S : Type} `{Balancer S}.

Lemma drop_cand_shorter idx cs x : x ∈ cs -> c_index x = idx -> (length (drop_cand idx cs) < length cs)%nat.
Proof.
  intros Hx <-. unfold drop_cand. induction cs as [|y cs IH]; [by apply elem_of_nil in Hx|]. cbn.
  pose proof (List.filter_length_le (fun c => negb (Nat.eqb (c_index c) (c_index x))) cs).
  destruct (Nat.eqb (c_index y) (c_index x)) eqn:E; cbn; [lia|].
  apply elem_of_cons in Hx as [->|Hx]; [by rewrite Nat.eqb_refl in E|]. specialize (IH Hx). lia.
Qed.

(** The endpoint picked is one of the candidates. *)
Lemma pick_cand lb cs (eps : list Endpoint) idx ep lb' pick : cs <> [] ->
  bal_select lb cs = (pick, lb') -> (pick ≫= fun idx => (idx,.) <$> eps !! idx) = Some (idx, ep) ->
  pick = Some idx /\ eps !! idx = Some ep /\ exists x, x ∈ cs /\ c_index x = idx.
Proof.
  intros Hc Hs Hp. destruct (bal_in lb cs Hc) as (x & Hx & E). rewrite Hs in E. cbn in E. subst pick.
  cbn in Hp. destruct (eps !! c_index x) as [ep'|] eqn:He; [|done]. injection Hp as <- <-.
  split_and!; [done|done|by exists x].
Qed.

Lemma acquire_loop_ends fuel env ct due cs last eps lb :
  (length cs < fuel)%nat -> exists r, acquire_loop fuel env ct due cs last eps lb = Some r.
Proof.
  revert cs last eps lb. induction fuel as [|fuel IH]; intros cs last eps lb Hf; [lia|].
  cbn [acquire_loop]. destruct cs as [|c cs]; [by eexists|].
  destruct (_ && _); [by eexists|]. destruct (bal_select lb (c :: cs)) as [pick lb'] eqn:Es.
  destruct (pick ≫= _) as [[idx ep]|] eqn:Ep; [|by eexists].
  destruct (attempt _ _ _ _ _ _) as [[out|why] eps']; [by eexists|].
  assert (Hc : c :: cs <> []) by done. apply IH. destruct (pick_cand _ _ _ _ _ _ _ Hc Es Ep) as (_ & _ & x & Hx & Hi).
  pose proof (drop_cand_shorter _ _ _ Hx Hi). lia.
Qed.

Lemma scan_length now i eps : (length (scan now i eps).1.1 <= length eps)%nat.
Proof.
  revert i. induction eps as [|ep eps IH]; intros i; [done|]. cbn. specialize (IH (Datatypes.S i)).
  destruct (scan now (Datatypes.S i) eps) as [[cs o] eps']. cbn in *.
  destruct (negb (healthy ep)); [cbn; lia|]. destruct (negb (canTry _ _)); cbn; lia.
Qed.

(** The search for a connection ends, whatever balancer of the contract is used,
    however long connections take, whatever they come to and whatever other requests
    do to the endpoints meanwhile: no endpoint is tried twice. *)
Theorem tryAcquire_terminates now env ct due eps lb :
  exists r, tryAcquire (Datatypes.S (length eps)) now env ct due eps lb = Some r.
Proof.
  unfold tryAcquire. destruct eps as [|ep eps]; [by eexists|].
  pose proof (scan_length now 0 (ep :: eps)) as Hl.
  destruct (scan now 0 (ep :: eps)) as [[cs o] eps']. apply acquire_loop_ends. cbn in Hl |- *. lia.
Qed.
End acquire_facts.

(** ** What is taken is given back

    [cb_path b b' out]: the breaker goes from [b] to [b'] by admissions and reports
    as in [Breaker.cb_step], of which the turns [out] are still to be reported. *)
Definition cb_path (b b' : Breaker) (out : list Z) : Prop :=
  exists es, forall turns, fold_left cb_step es (b, turns) = (b', out ++ turns).

Record moved (held : Z) (out : list Z) (ep ep' : Endpoint) : Prop := {
  mv_active : activeConns ep' = activeConns ep + held;
  mv_cb : cb_path (ep_cb ep) (ep_cb ep') out;
  mv_max : maxInflight ep' = maxInflight ep;
  mv_healthy : healthy ep' = healthy ep;
  mv_weight : ep_weight ep' = ep_weight ep;
}.

(** Nothing is held and no admission is unreported. *)
Abbreviation balanced := (moved 0 []).

Lemma cb_path_refl b : cb_path b b [].
Proof. by exists []. Qed.

Lemma cb_path_trans b1 b2 b3 out : cb_path b1 b2 [] -> cb_path b2 b3 out -> cb_path b1 b3 out.
Proof.
  intros [es1 H1] [es2 H2]. exists (es1 ++ es2). intros turns.
  rewrite fold_left_app, H1. cbn. apply H2.
Qed.

Lemma cb_path_allow now b : cb_path b (isAllowed now b).2 (match (isAllowed now b).1 with Some t => [t] | None => [] end).
Proof. exists [E_ALLOW now]. intros turns. cbn. by destruct (isAllowed now b) as [[t|] b']. Qed.

Lemma cb_path_record b b' t ret now : cb_path b b' [t] -> cb_path b (record ret t now b') [].
Proof.
  intros [es H]. exists (es ++ [E_DONE 0 ret now]). intros turns. by rewrite fold_left_app, H.
Qed.

Lemma balanced_refl ep : balanced ep ep.
Proof. split; try done; [lia|apply cb_path_refl]. Qed.

Lemma moved_trans h out ep1 ep2 ep3 : balanced ep1 ep2 -> moved h out ep2 ep3 -> moved h out ep1 ep3.
Proof.
  intros [A1 C1 M1 H1 W1] [A2 C2 M2 H2 W2]. split; try congruence; [lia|by eapply cb_path_trans].
Qed.

Lemma balanced_reject why h out ep ep' : moved h out ep ep' -> moved h out ep (ep_reject why ep').
Proof. by intros []. Qed.

Lemma Forall2_balanced_refl eps : Forall2 balanced eps eps.
Proof. apply Forall2_same_length_lookup_2; [done|]. intros i x y Hx Hy. replace y with x by congruence. apply balanced_refl. Qed.

Lemma Forall2_balanced_trans eps1 eps2 eps3 :
  Forall2 balanced eps1 eps2 -> Forall2 balanced eps2 eps3 -> Forall2 balanced eps1 eps3.
Proof.
  intros H1. revert eps3. induction H1 as [|a b l1 l2 Hab _ IH]; intros eps3 H2; inversion H2; subst; [done|].
  constructor; [by eapply moved_trans|by apply IH].
Qed.

Lemma Forall2_balanced_insert eps i ep ep' : eps !! i = Some ep -> balanced ep ep' -> Forall2 balanced eps (<[i := ep']> eps).
Proof.
  intros Hi Hb. rewrite <- (list_insert_id eps i ep Hi) at 1.
  apply Forall2_insert; [apply Forall2_balanced_refl|done].
Qed.

Lemma tryHold_spec ep ep' : tryHold ep = Some ep' ->
  ep' = ep <| activeConns := activeConns ep + 1 |> /\ 0 <= activeConns ep < INT32_MAX /\
  (maxInflight ep = 0 \/ activeConns ep + 1 <= maxInflight ep).
Proof.
  unfold tryHold. destruct (_ && _) eqn:E; [|done]. intros [= <-]. b2p. split_and!; try done.
  destruct (maxInflight ep =? 0) eqn:E0; cbn in *; b2p; [by left|right; lia].
Qed.

Lemma dropHold_moved out ep ep' : 0 <= activeConns ep -> moved 1 out ep ep' -> moved 0 out ep (dropHold ep').
Proof.
  intros Ha [A C M H W]. unfold dropHold. replace (activeConns ep' >? 0) with true by lia.
  split; try done. cbn. lia.
Qed.

Lemma record_moved ep ep' h t ret now : moved h [t] ep ep' -> moved h [] ep (ep_record ret t now ep').
Proof. intros [A C M H W]. split; try done. cbn. by apply cb_path_record. Qed.

Lemma count_moved ep ep' h out ret : moved h out ep ep' -> moved h out ep (ep_count ret ep').
Proof. by intros []. Qed.

Create HintDb ups.
#[export] Hint Resolve balanced_reject dropHold_moved record_moved count_moved balanced_refl : ups.

Lemma alter_insert_same {A} (f : A -> A) i x (l : list A) : alter f i (<[i := x]> l) = <[i := f x]> l.
Proof.
  revert i. induction l as [|y l IH]; intros [|i]; try done.
  change (y :: alter f i (<[i := x]> l) = y :: <[i := f x]> l). by rewrite IH.
Qed.

(** One turn of the loop, when nothing else moves. *)
Definition attempt_post (idx : nat) (ep : Endpoint) (eps : list Endpoint) (r : AcqConn + AcqWhy) (eps' : list Endpoint) : Prop :=
  match r with
  | inl out =>
      (exists reused t ep', out = mkAcq (Some idx) reused A_NONE t false true /\ eps' = <[idx := ep']> eps /\
         moved 1 [t] ep ep' /\ healthy ep = true /\ 0 <= activeConns ep /\
         (maxInflight ep = 0 \/ activeConns ep + 1 <= maxInflight ep)) \/
      (out = no_conn A_DEADLINE /\ exists ep', eps' = <[idx := ep']> eps /\ balanced ep ep')
  | inr why => why <> A_NONE /\ exists ep', eps' = <[idx := ep']> eps /\ balanced ep ep'
  end.

Lemma attempt_spec at_ ct due idx ep eps :
  (forall l, at_others at_ l = l) -> eps !! idx = Some ep ->
  attempt_post idx ep eps (attempt at_ ct due idx ep eps).1 (attempt at_ ct due idx ep eps).2.
Proof.
  intros Hid Hi. unfold attempt. destruct (healthy ep) eqn:Eh; cbn [negb].
  2: { cbn. split; [done|]. eexists. split; [reflexivity|]. auto with ups. }
  destruct (tryHold ep) as [ep1|] eqn:Et.
  2: { cbn. split; [done|]. eexists. split; [reflexivity|]. auto with ups. }
  apply tryHold_spec in Et as (-> & Ha & Hm). set (ep1 := ep <| activeConns := activeConns ep + 1 |>).
  pose proof (cb_path_allow (at_allow at_) (ep_cb ep1)) as Hp.
  destruct (isAllowed (at_allow at_) (ep_cb ep1)) as [[t|] b] eqn:Ea; cbn [fst snd] in Hp.
  2: { cbn -[dropHold]. split; [done|]. eexists. split; [reflexivity|]. 
       apply balanced_reject, dropHold_moved; [lia|]. by split. }
  assert (Hmv : moved 1 [t] ep (ep1 <| ep_cb := b |>)) by by split.
  set (ep2 := ep1 <| ep_cb := b |>) in *. clearbody ep2. clear Hp Ea b ep1.
  match goal with |- context [if ?w =? 0 then _ else _] => destruct (w =? 0) end.
  - cbn -[dropHold ep_record]. right. split; [done|]. eexists. split; [reflexivity|].
    apply balanced_reject, dropHold_moved; [lia|]. by apply record_moved.
  - match goal with |- context [at_conn at_ idx ?h ?w] => destruct (at_conn at_ idx h w) as [reused|timed_out] end;
      rewrite Hid.
    + cbn. left. do 3 eexists. split; [reflexivity|]. split_and!; try done; lia.
    + cbn -[dropHold ep_record alter]. split; [by destruct (timed_out || _)|].
      rewrite alter_insert_same. eexists. split; [reflexivity|].
      apply dropHold_moved; [lia|]. by apply record_moved, count_moved.
Qed.

Section acquire_balance.
Context {S : Type} `{Balancer S}.
Context (env : nat -> Attempt) (Hquiet : forall k l, at_others (env k) l = l).

Definition loop_post (eps : list Endpoint) (out : AcqConn) (eps' : list Endpoint) : Prop :=
  match a_endpoint out with
  | None => a_why out <> A_NONE /\ a_held out = false /\ Forall2 balanced eps eps'
  | Some i =>
      exists mid ep ep' t reused, Forall2 balanced eps mid /\ mid !! i = Some ep /\ eps' = <[i := ep']> mid /\
        out = mkAcq (Some i) reused A_NONE t false true /\ moved 1 [t] ep ep' /\ healthy ep = true /\
        0 <= activeConns ep /\ (maxInflight ep = 0 \/ activeConns ep + 1 <= maxInflight ep)
  end.

Lemma loop_post_trans eps mid out eps' :
  Forall2 balanced eps mid -> loop_post mid out eps' -> loop_post eps out eps'.
Proof.
  unfold loop_post. intros Hb. destruct (a_endpoint out).
  - intros (m & ep & ep' & t & r & Hm & K). exists m, ep, ep', t, r. split; [by eapply Forall2_balanced_trans|done].
  - intros (Hw & Hh & K). split_and!; [done|done|by eapply Forall2_balanced_trans].
Qed.

Lemma alter_balanced f i eps : (forall ep, balanced ep (f ep)) -> Forall2 balanced eps (alter f i eps).
Proof.
  intros Hf. revert i. induction eps as [|ep eps IH]; intros [|i]; [constructor|constructor| |].
  - change (Forall2 balanced (ep :: eps) (f ep :: eps)). constructor; [done|apply Forall2_balanced_refl].
  - change (Forall2 balanced (ep :: eps) (ep :: alter f i eps)). constructor; [apply balanced_refl|apply IH].
Qed.

Lemma reject_all_balanced cs eps : Forall2 balanced eps (reject_all cs eps).
Proof.
  unfold reject_all. revert eps. induction cs as [|c cs IH]; intros eps; [apply Forall2_balanced_refl|].
  cbn. eapply Forall2_balanced_trans; [|apply IH]. apply alter_balanced. auto with ups.
Qed.

Lemma acquire_loop_post fuel ct due cs last eps lb out eps' lb' :
  last <> A_NONE -> acquire_loop fuel env ct due cs last eps lb = Some (out, eps', lb') ->
  loop_post eps out eps'.
Proof using Hquiet.
  revert cs last eps lb. induction fuel as [|fuel IH]; intros cs last eps lb Hlast Hr; [done|].
  assert (Hnone : forall why, why <> A_NONE -> loop_post eps (no_conn why) eps)
    by (intros why Hw; split_and!; try done; apply Forall2_balanced_refl).
  cbn [acquire_loop] in Hr. destruct cs as [|c cs]; [injection Hr as <- <- <-; by apply Hnone|].
  destruct (_ && _).
  { injection Hr as <- <- <-. split_and!; [by destruct (is_timeout last)|done|apply (reject_all_balanced (c :: cs))]. }
  destruct (bal_select lb (c :: cs)) as [pick lb1] eqn:Es.
  destruct (pick ≫= _) as [[idx ep]|] eqn:Ep; [|injection Hr as <- <- <-; by apply Hnone].
  assert (Hc : c :: cs <> []) by done.
  destruct (pick_cand _ _ _ _ _ _ _ Hc Es Ep) as (_ & Hi & _).
  pose proof (attempt_spec (env fuel) ct due idx ep eps (Hquiet fuel) Hi) as HA.
  destruct (attempt _ _ _ _ _ _) as [[out1|why] eps1]; cbn [fst snd attempt_post] in HA.
  - injection Hr as <- <- <-. destruct HA as [(r & t & ep' & -> & -> & Hm & Hh & Ha & Hx)|(-> & ep' & -> & Hb)].
    + exists eps, ep, ep', t, r. split_and!; try done. apply Forall2_balanced_refl.
    + split_and!; [done|done|by apply Forall2_balanced_insert with ep].
  - destruct HA as (Hw & ep' & -> & Hb). eapply loop_post_trans; [|by eapply IH].
    by apply Forall2_balanced_insert with ep.
Qed.

Lemma scan_balanced now i eps : Forall2 balanced eps (scan now i eps).2.
Proof.
  revert i. induction eps as [|ep eps IH]; intros i; [constructor|]. cbn. specialize (IH (Datatypes.S i)).
  destruct (scan now (Datatypes.S i) eps) as [[cs o] eps']. cbn in IH.
  destruct (negb (healthy ep)); [|destruct (negb (canTry _ _))]; cbn; constructor; auto with ups.
Qed.

Lemma release_moved now ret i reused t eps mid ep ep' :
  Forall2 balanced eps mid -> mid !! i = Some ep -> moved 1 [t] ep ep' -> 0 <= activeConns ep ->
  Forall2 balanced eps (release now ret (mkAcq (Some i) reused A_NONE t false true) (<[i := ep']> mid)).2.
Proof.
  intros Hb Hi Hm Ha. cbn -[dropHold ep_record ep_count alter]. rewrite !alter_insert_same.
  eapply Forall2_balanced_trans; [exact Hb|]. apply Forall2_balanced_insert with ep; [done|].
  apply dropHold_moved; [done|]. by apply record_moved, count_moved.
Qed.

(** C36: with nothing else moving, a search that finds no connection says why, leaves
    every endpoint with the connections it had, and has reported every admission it
    got to the breaker that gave it; one that finds a connection has it from a
    healthy endpoint, within its limit, counted once, with exactly one admission
    unreported, the one named in the result; and [release] reports that admission
    and gives the count back, so that the breakers see only the protocol for which
    [Breaker.breaker_probes] is proved. *)
Theorem tryAcquire_balanced fuel now ct due eps lb out eps' lb' :
  tryAcquire fuel now env ct due eps lb = Some (out, eps', lb') ->
  match a_endpoint out with
  | None => a_why out <> A_NONE /\ a_held out = false /\ Forall2 balanced eps eps'
  | Some i =>
      a_why out = A_NONE /\ a_held out = true /\
      (exists ep ep', eps !! i = Some ep /\ eps' !! i = Some ep' /\ healthy ep = true /\
         moved 1 [a_turn out] ep ep' /\ (maxInflight ep = 0 \/ activeConns ep' <= maxInflight ep)) /\
      forall rnow ret, Forall2 balanced eps (release rnow ret out eps').2
  end.
Proof using Hquiet.
  intros Hr. assert (HP : loop_post eps out eps').
  { unfold tryAcquire in Hr. destruct eps as [|ep0 eps0].
    - injection Hr as <- <- <-. by split_and!.
    - pose proof (scan_balanced now 0 (ep0 :: eps0)) as Hs.
      destruct (scan now 0 (ep0 :: eps0)) as [[cs o] eps1]. cbn in Hs.
      eapply loop_post_trans; [exact Hs|]. eapply acquire_loop_post; [|exact Hr]. by destruct o. }
  unfold loop_post in HP. destruct (a_endpoint out) as [i|] eqn:Eo; [|done].
  destruct HP as (mid & ep & ep' & t & r & Hb & Hi & -> & -> & Hm & Hh & Ha & Hx). cbn in Eo.
  split_and!; [done|done| |].
  - destruct (Forall2_lookup_r _ _ _ _ _ Hb Hi) as (ep0 & H0 & Hb0). exists ep0, ep'.
    pose proof Hb0 as [A0 C0 M0 HH0 W0]. pose proof Hm as [A1 _ _ _ _].
    split_and!; [done| |congruence|by eapply moved_trans|rewrite <- M0; lia].
    apply list_lookup_insert_eq || rewrite list_lookup_insert. by eapply lookup_lt_Some.
  - intros rnow ret. by apply release_moved with ep.
Qed.
End acquire_balance.

(** ** Health checks change their mind slowly *)

(** How many of the latest results, latest first, are [b]. *)
Fixpoint streak (b : bool) (os : list bool) : Z :=
  match os with
  | [] => 0
  | o :: os => if Bool.eqb o b then streak b os + 1 else 0
  end.

Definition probe_ok (p : Probe) (ep : Endpoint) : bool := (check_ep_http p ep).1.

(** The checks [ps] of one endpoint, latest first. *)
Fixpoint checked (cfg : HealthCfg) (ps : list Probe) (ep : Endpoint) : Endpoint :=
  match ps with [] => ep | p :: ps => health_check cfg p (checked cfg ps ep) end.

Definition results (ps : list Probe) (ep : Endpoint) : list bool := map (fun p => probe_ok p ep) ps.

Lemma probe_ok_any p ep ep' : probe_ok p ep = probe_ok p ep'.
Proof. unfold probe_ok, check_ep_http. destruct p as [|cs]; [done|]. by destruct (ups_read_head "" cs). Qed.

Lemma check_ep_fields p ep :
  let ep' := (check_ep_http p ep).2 in
  healthSuccesses ep' = healthSuccesses ep /\ healthFailures ep' = healthFailures ep /\ healthy ep' = healthy ep.
Proof. unfold check_ep_http. destruct p as [|cs]; [done|]. by destruct (ups_read_head "" cs). Qed.

Lemma streak_bound b os : 0 <= streak b os <= Z.of_nat (length os).
Proof. induction os as [|o os IH]; cbn; [lia|]. destruct (Bool.eqb o b); lia. Qed.

(** The counters of an endpoint are the streaks of its checks. *)
Lemma checked_counts cfg ps ep :
  healthSuccesses ep = 0 -> healthFailures ep = 0 -> Z.of_nat (length ps) < 2 ^ 32 ->
  healthSuccesses (checked cfg ps ep) = streak true (results ps ep) /\
  healthFailures (checked cfg ps ep) = streak false (results ps ep).
Proof.
  intros H1 H2. induction ps as [|p ps IH]; intros Hl; [done|]. cbn [checked results map streak length] in *.
  destruct IH as [I1 I2]; [lia|]. set (ep0 := checked cfg ps ep) in *. unfold health_check.
  set (ep1 := ep0 <| healthChecks := _ |>).
  pose proof (check_ep_fields p ep1) as (F1 & F2 & _). pose proof (probe_ok_any p ep ep1) as E. unfold probe_ok in E.
  destruct (check_ep_http p ep1) as [ok ep2]. cbn [fst snd] in F1, F2, E.
  change (healthSuccesses ep1) with (healthSuccesses ep0) in F1.
  change (healthFailures ep1) with (healthFailures ep0) in F2.
  fold (results ps ep). unfold probe_ok at 1 2. rewrite E.
  pose proof (streak_bound true (results ps ep)) as B1. pose proof (streak_bound false (results ps ep)) as B2.
  assert (Hlen : length (results ps ep) = length ps) by apply length_map. rewrite Hlen in B1, B2.
  destruct ok; cbn [Bool.eqb]; rewrite ?F1, ?F2, ?I1, ?I2, wrap32_id by (unfold is_u32; lia).
  - by destruct (_ >=? _).
  - by destruct (_ >=? _).
Qed.

(** An endpoint that starts fresh changes its mind about a check only on a
    streak: it becomes unhealthy exactly when the last [unhealthyThreshold] checks
    all failed, healthy again exactly when the last [healthyThreshold] all
    succeeded (at least one in both cases), and otherwise stays as it was. *)
Theorem health_hysteresis cfg p ps ep :
  healthSuccesses ep = 0 -> healthFailures ep = 0 -> Z.of_nat (length ps) + 1 < 2 ^ 32 ->
  0 <= healthyThreshold cfg -> 0 <= unhealthyThreshold cfg ->
  let before := healthy (checked cfg ps ep) in
  let after := healthy (checked cfg (p :: ps) ep) in
  let os := results (p :: ps) ep in
  after = if streak true os >=? threshold (healthyThreshold cfg) then true
          else if streak false os >=? threshold (unhealthyThreshold cfg) then false
          else before.
Proof.
  intros H1 H2 Hl Hh Hu before after os.
  assert (T : forall n, 0 <= n -> 1 <= threshold n) by (intros n ?; unfold threshold; btest (n =? 0); lia).
  pose proof (T _ Hh) as Th. pose proof (T _ Hu) as Tu. clear T.
  destruct (checked_counts cfg (p :: ps) ep H1 H2) as [C1 C2]; [cbn [length]; lia|].
  fold os in C1, C2. rewrite <- C1, <- C2. unfold after. cbn [checked] in C1, C2 |- *.
  unfold before. set (ep0 := checked cfg ps ep) in *. unfold health_check in *.
  set (ep1 := ep0 <| healthChecks := _ |>) in *.
  pose proof (check_ep_fields p ep1) as (_ & _ & F3).
  destruct (check_ep_http p ep1) as [ok ep2]. cbn [fst snd] in F3.
  change (healthy ep1) with (healthy ep0) in F3. destruct ok.
  - set (s := wrap32 (healthSuccesses ep2 + 1)) in *.
    destruct (s >=? threshold (healthyThreshold cfg)) eqn:E; cbn -[threshold Z.geb].
    + by rewrite E.
    + rewrite E. replace (0 >=? _) with false by lia. exact F3.
  - set (f := wrap32 (healthFailures ep2 + 1)) in *.
    destruct (f >=? threshold (unhealthyThreshold cfg)) eqn:E; cbn -[threshold Z.geb].
    + replace (0 >=? _) with false by lia. by rewrite E.
    + replace (0 >=? _) with false by lia. rewrite E. exact F3.
Qed.

(** ** Witnesses *)

Definition eps1 : list Endpoint := [endpoint_init 1 cfg1 0; endpoint_init 1 cfg1 2].

(** Connections to the first endpoint fail. *)
Definition env1 (_ : nat) : Attempt :=
  mkAttempt 1000000 2000000 2000000 3000000 4000000 4000000 5000000
    (fun idx _ _ => if (idx =? 0)%nat then C_FAIL false else C_OK true) (fun eps => eps).

Lemma tryAcquire_balanced_witness :
  exists out eps' lb', tryAcquire 3 (fun _ => 0) env1 3000 0 eps1 (RrLb 0) = Some (out, eps', lb') /\
    a_endpoint out = Some 1%nat /\ a_held out = true.
Proof.
  destruct (tryAcquire 3 (fun _ => 0) env1 3000 0 eps1 (RrLb 0)) as [[[out eps'] lb']|] eqn:E;
    [|exfalso; revert E; by vm_compute].
  exists out, eps', lb'. split; [done|].
  pose proof (tryAcquire_balanced env1 (fun _ _ => eq_refl) _ _ _ _ _ _ _ _ _ E) as P.
  assert (Eo : a_endpoint out = Some 1%nat).
  { revert E. vm_compute. by intros [= <- _ _]. }
  rewrite Eo in P. split; [done|]. apply P.
Defined.

Definition ok_probe : Probe := P_READ ["HTTP/1.1 20"; "4 No Content"; String CR (String LF "")].

Lemma health_hysteresis_witness :
  healthy (checked (mkHealth true 1 2) [P_FAIL; P_FAIL; ok_probe] (endpoint_init 1 cfg1 0))  = false /\
  healthy (checked (mkHealth true 1 2) [P_FAIL; ok_probe] (endpoint_init 1 cfg1 0)) = true.
Proof.
  split.
  - etransitivity; [apply (health_hysteresis (mkHealth true 1 2) P_FAIL [P_FAIL; ok_probe]); (done || by vm_compute)|by vm_compute].
  - by vm_compute.
Defined.
