(* ===== verification/ConnPool.v ===== *)
(** * The pool of idle connections of an endpoint (src/gateway/conn_pool.cpp, conn_pool.h)

    Sockets are numbers; what the kernel says of one when it is examined is an
    argument. A call of the pool holds its mutex while it works on the queue, so it
    is one step; the dial that follows a miss is an argument too. *)

From S2P Require Import Prelude Records.

Record ConnPoolConfig := mkPoolCfg { maxIdle : Z; idleTimeoutMs : Z }.

(** [idleSince] in nanoseconds of the steady clock. *)
Record Entry := mkEntry { e_sock : nat; idleSince : Z }.

Record ConnectionPool := mkPool { p_cfg : ConnPoolConfig; m_idle : list Entry }.

Definition pool_init (cfg : ConnPoolConfig) : ConnectionPool := mkPool cfg [].

Definition idleCount (p : ConnectionPool) : Z := Z.of_nat (length (m_idle p)).

(** What a peek returns: bytes, an end of stream, or an error. *)
Inductive Peek := PK_BYTES | PK_EOF | PK_EINTR | PK_EAGAIN | PK_ERR.

(** [SockView]: whether the socket object says it is connected, and the results of
    the peeks in turn. The loop goes on while it is interrupted. *)
Record SockView := mkView { v_connected : bool; v_peeks : list Peek }.

Fixpoint peek_loop (ps : list Peek) : option bool :=
  match ps with
  | [] => None
  | PK_EINTR :: ps => peek_loop ps
  | PK_EAGAIN :: _ => Some true
  | _ :: _ => Some false
  end.

Definition sock_reusable (v : SockView) : bool :=
  v_connected v && default false (peek_loop (v_peeks v)).

(** The idle time in milliseconds as the code compares it: cut to 32 bits. *)
Definition idle_ms (now : Z) (e : Entry) : Z := wrap32 (Z.quot (now - idleSince e) 1000000).

Fixpoint take_idle (cfg : ConnPoolConfig) (view : nat -> SockView) (now : Z) (es : list Entry)
  : option nat * list Entry :=
  match es with
  | [] => (None, [])
  | e :: es =>
      if idle_ms now e >=? idleTimeoutMs cfg then take_idle cfg view now es
      else if negb (sock_reusable (view (e_sock e))) then take_idle cfg view now es
      else (Some (e_sock e), es)
  end.

(** [createFresh]: the socket a dial gives, if it succeeds. *)
Definition createFresh (has_addr : bool) (dial : option nat) : option nat :=
  if has_addr then dial else None.

Definition acquire (view : nat -> SockView) (now : Z) (has_addr : bool) (dial : option nat) (p : ConnectionPool)
  : option nat * bool * ConnectionPool :=
  match take_idle (p_cfg p) view now (m_idle p) with
  | (Some s, es) => (Some s, true, p <| m_idle := es |>)
  | (None, es) => (createFresh has_addr dial, false, p <| m_idle := es |>)
  end.

(** [release]; [sock] is [None] for a null pointer. *)
Definition pool_release (view : nat -> SockView) (now : Z) (sock : option nat) (reusable : bool)
    (p : ConnectionPool) : ConnectionPool :=
  match sock with
  | None => p
  | Some s =>
      if negb reusable then p
      else if negb (sock_reusable (view s)) then p
      else if Z.of_nat (length (m_idle p)) >=? maxIdle (p_cfg p) then p
      else p <| m_idle := m_idle p ++ [mkEntry s now] |>
  end.

(** ** The pool and its callers

    A caller owns a socket from the [acquire] that gave it to the [release] that
    takes it; a dial gives a socket no one has. *)

Inductive PoolOp :=
| P_ACQUIRE (view : nat -> SockView) (now : Z) (dial : option nat)
| P_FRESH (dial : option nat)
| P_RELEASE (view : nat -> SockView) (now : Z) (s : nat) (reusable : bool).

Definition known (p : ConnectionPool) (owned : list nat) : list nat := map e_sock (m_idle p) ++ owned.

Inductive pool_step : ConnectionPool * list nat -> PoolOp -> ConnectionPool * list nat -> Prop :=
| ps_acquire p owned view now dial s r p' :
    (forall d, dial = Some d -> d ∉ known p owned) ->
    acquire view now true dial p = (s, r, p') ->
    pool_step (p, owned) (P_ACQUIRE view now dial)
      (p', match s with Some s => s :: owned | None => owned end)
| ps_fresh p owned dial :
    (forall d, dial = Some d -> d ∉ known p owned) ->
    pool_step (p, owned) (P_FRESH dial) (p, match createFresh true dial with Some s => s :: owned | None => owned end)
| ps_release p owned1 s owned2 view now reusable :
    pool_step (p, owned1 ++ s :: owned2) (P_RELEASE view now s reusable)
      (pool_release view now (Some s) reusable p, owned1 ++ owned2).

Inductive pool_reach (cfg : ConnPoolConfig) : ConnectionPool * list nat -> Prop :=
| pr_init : pool_reach cfg (pool_init cfg, [])
| pr_step x op y : pool_reach cfg x -> pool_step x op y -> pool_reach cfg y.

Definition pool_inv (cfg : ConnPoolConfig) (x : ConnectionPool * list nat) : Prop :=
  p_cfg x.1 = cfg /\ NoDup (known x.1 x.2) /\ idleCount x.1 <= Z.max 0 (maxIdle cfg).

(** What is taken is fresh enough and usable; what is skipped is gone. *)
Lemma take_idle_spec cfg view now es :
  let '(s, rest) := take_idle cfg view now es in
  exists skipped, Forall (fun e => idle_ms now e >= idleTimeoutMs cfg \/ sock_reusable (view (e_sock e)) = false) skipped /\
  match s with
  | Some s => exists t, es = skipped ++ mkEntry s t :: rest /\ idle_ms now (mkEntry s t) < idleTimeoutMs cfg /\
      sock_reusable (view s) = true
  | None => es = skipped /\ rest = []
  end.
Proof.
  induction es as [|e es IH]; cbn; [by exists []|].
  destruct (take_idle cfg view now es) as [s rest]. destruct IH as (sk & Hsk & Hs).
  assert (Hskip : idle_ms now e >= idleTimeoutMs cfg \/ sock_reusable (view (e_sock e)) = false ->
    exists skipped, Forall (fun e => idle_ms now e >= idleTimeoutMs cfg \/ sock_reusable (view (e_sock e)) = false) skipped /\
      match s with
      | Some s => exists t, e :: es = skipped ++ mkEntry s t :: rest /\ idle_ms now (mkEntry s t) < idleTimeoutMs cfg /\
          sock_reusable (view s) = true
      | None => e :: es = skipped /\ rest = []
      end).
  { intros He. exists (e :: sk). split; [by constructor|]. destruct s as [s|].
    - destruct Hs as (t & -> & Ht). by exists t.
    - destruct Hs as [-> ->]. done. }
  btest (idle_ms now e >=? idleTimeoutMs cfg); [apply Hskip; left; lia|].
  destruct (sock_reusable (view (e_sock e))) eqn:Er; cbn [negb]; [|apply Hskip; by right].
  exists []. split; [constructor|]. exists (idleSince e). destruct e as [s' t]. cbn. by split_and!.
Qed.

Lemma NoDup_app_sub {A} (l1 l2 l3 : list A) : NoDup (l1 ++ l2 ++ l3) -> NoDup (l2 ++ l3).
Proof. rewrite NoDup_app. by intros (_ & _ & H). Qed.

Lemma pool_inv_step cfg x op y : pool_inv cfg x -> pool_step x op y -> pool_inv cfg y.
Proof.
  intros (Hc & Hnd & Hm) Hs. unfold pool_inv, known, idleCount in *.
  destruct Hs as [p owned view now dial s r p' Hd Ha|p owned dial Hd|p o1 s o2 view now reusable];
    cbn [fst snd] in *; unfold known in *.
  - unfold acquire in Ha. pose proof (take_idle_spec (p_cfg p) view now (m_idle p)) as T.
    destruct (take_idle (p_cfg p) view now (m_idle p)) as [[s'|] rest].
    + injection Ha as <- _ <-. destruct T as (sk & _ & t & E & _ & _). rewrite E in Hnd, Hm.
      rewrite map_app in Hnd. rewrite length_app in Hm. cbn in *. rewrite <- app_assoc in Hnd.
      apply NoDup_app_sub in Hnd. split_and!; [done| |lia].
      cbn in Hnd. by rewrite <- Permutation_middle.
    + destruct T as (sk & _ & E & ->). injection Ha as <- _ <-. cbn in *.
      split_and!; [done| |lia]. destruct dial as [d|].
      * apply NoDup_cons. specialize (Hd d eq_refl). apply NoDup_app in Hnd as (_ & _ & Hnd).
        split; [|done]. intros H. apply Hd. set_solver.
      * by apply NoDup_app in Hnd as (_ & _ & Hnd).
  - destruct dial as [d|]; cbn [createFresh]; [|done]. split_and!; [done| |done].
    rewrite <- (Permutation_middle _ owned d). apply NoDup_cons. split; [by apply Hd|done].
  - assert (Hperm : NoDup (s :: map e_sock (m_idle p) ++ o1 ++ o2)).
    { revert Hnd. by rewrite (app_assoc _ o1 (s :: o2)), <- Permutation_middle, <- app_assoc. }
    pose proof Hperm as Hrest. apply NoDup_cons in Hrest as [_ Hrest].
    unfold pool_release. destruct reusable; cbn [negb]; [|done].
    destruct (sock_reusable _); cbn [negb]; [|done].
    btest (Z.of_nat (length (m_idle p)) >=? maxIdle (p_cfg p)); [done|].
    cbn. rewrite map_app, length_app. cbn. split_and!; [done| |rewrite Hc in *; lia].
    rewrite <- app_assoc. cbn [app]. by rewrite <- Permutation_middle.
Qed.

(** C37: in every reachable state no connection is in the pool twice, or in the pool
    and with a caller, or with two callers, and the pool holds at most [maxIdle];
    a connection it hands out was idle for less than the time-out (as the code
    measures it) and passed the check for leftover bytes and a closed peer, and it
    leaves the pool together with every older one that failed. *)
Theorem pool_exclusive cfg p owned view now dial s p' :
  pool_reach cfg (p, owned) ->
  NoDup (known p owned) /\ idleCount p <= Z.max 0 (maxIdle cfg) /\
  (acquire view now true dial p = (Some s, true, p') ->
    (s ∉ owned) /\ (s ∉ map e_sock (m_idle p')) /\ sock_reusable (view s) = true /\
    exists t skipped, m_idle p = skipped ++ mkEntry s t :: m_idle p' /\
      idle_ms now (mkEntry s t) < idleTimeoutMs cfg /\
      Forall (fun e => idle_ms now e >= idleTimeoutMs cfg \/ sock_reusable (view (e_sock e)) = false) skipped).
Proof.
  intros Hr. assert (HI : pool_inv cfg (p, owned)).
  { remember (p, owned) as x eqn:E. clear E. induction Hr as [|x op y _ IH Hs].
    - unfold pool_inv, known, idleCount; cbn. split_and!; [done|constructor|lia].
    - by eapply pool_inv_step. }
  destruct HI as (Hc & Hnd & Hm). cbn [fst snd] in *. split_and!; [done|done|].
  unfold acquire. pose proof (take_idle_spec (p_cfg p) view now (m_idle p)) as T. rewrite Hc in *.
  destruct (take_idle cfg view now (m_idle p)) as [[s'|] rest]; [|done].
  intros [= -> <-]. destruct T as (sk & Hsk & t & E & Ht & Hu). cbn [m_idle].
  unfold known in Hnd. rewrite E, map_app in Hnd. cbn in Hnd. rewrite <- app_assoc in Hnd.
  apply NoDup_app_sub in Hnd. cbn in Hnd. apply NoDup_cons in Hnd as [Hn _].
  split_and!; [set_solver|set_solver|done|]. exists t, sk. done.
Qed.

(** ** Witness *)

Definition usable (_ : nat) : SockView := mkView true [PK_EINTR; PK_EAGAIN].

Definition cfg2 : ConnPoolConfig := mkPoolCfg 32 30000.

Lemma pool_exclusive_witness :
  let p := mkPool cfg2 [mkEntry 7 1000000000] in
  acquire usable 31000000000 true None p = (None, false, mkPool cfg2 []) /\
  acquire usable 30999999999 true None p = (Some 7%nat, true, mkPool cfg2 []) /\ (7%nat ∉ ([] : list nat)).
Proof.
  intros p. split; [by vm_compute|]. split; [by vm_compute|].
  assert (R : pool_reach cfg2 (p, [])).
  { eapply pr_step with (op := P_RELEASE usable 1000000000 7 true).
    - eapply pr_step with (op := P_FRESH (Some 7%nat)); [apply pr_init|].
      apply ps_fresh. intros d [= <-]. apply not_elem_of_nil.
    - exact (ps_release (pool_init cfg2) [] 7%nat [] usable 1000000000 true). }
  apply (pool_exclusive cfg2 p [] usable 30999999999 None 7 (mkPool cfg2 [])); [exact R|by vm_compute].
Defined.

(** The idle time is cut to 32 bits: a connection idle for 2^32 milliseconds and one
    second counts as idle for one second, and is handed out. *)
Example idle_wraps :
  (acquire usable ((2 ^ 32 + 1000) * 1000000) true None (mkPool cfg2 [mkEntry 7 0])).1 = (Some 7%nat, true).
Proof. by vm_compute. Qed.
