(* ===== verification/Buf.v ===== *)
(** * The read buffer of a connection (src/gateway/buf.cpp, buf.h)

    [InBuf] is a block of memory with two cursors. The memory is modelled as it is:
    a list of as many bytes as were allocated, of which those between the cursors
    are readable. Its abstraction is the queue of the readable bytes, [content]. *)

From S2P Require Import Prelude Records.

Definition SIZE_MAX : Z := UINT64_MAX.

(** ** [ceil_pow2] *)

Definition smear (v : Z) : Z :=
  fold_left (fun v shift => Z.lor v (Z.shiftr v shift)) [1; 2; 4; 8; 16; 32] v.

Definition ceil_pow2 (v : Z) : Z :=
  if v <=? 1 then 1
  else if v >? 2 ^ 63 then SIZE_MAX
  else wrap64 (smear (v - 1) + 1).

(** ** The buffer

    Memory comes from [alloc], which may refuse ([std::bad_alloc]) and whose bytes
    start as anything. An operation that throws still has an effect, so it returns
    the exception, if any, with the buffer. *)

Inductive BufErr := CapacityOverflow | BadAlloc.

Record InBuf := mkBuf { m_data : list ascii; m_rpos : Z; m_wpos : Z }.

Definition m_cap (b : InBuf) : Z := Z.of_nat (length (m_data b)).
Definition readable (b : InBuf) : Z := m_wpos b - m_rpos b.
Definition capacity (b : InBuf) : Z := m_cap b.

(** [n] bytes from position [i]; [memcpy] and [memmove] of bytes to position [i]. *)
Definition slice (i n : Z) (m : list ascii) : list ascii := take (Z.to_nat n) (drop (Z.to_nat i) m).
Definition blit (i : Z) (bytes m : list ascii) : list ascii :=
  take (Z.to_nat i) m ++ bytes ++ drop (Z.to_nat i + length bytes) m.

Definition content (b : InBuf) : list ascii := slice (m_rpos b) (readable b) (m_data b).

Section alloc.
Context (alloc : Z -> option (list ascii)).

Definition buf_init (initCap : Z) : option InBuf :=
  let initCap := if initCap =? 0 then 1 else initCap in
  data ← alloc initCap; Some (mkBuf data 0 0).

(** The doubling loop of [ensure_writable]; [None] when the capacity overflows. *)
Fixpoint grow (fuel : nat) (newCap wpos need : Z) : option Z :=
  if newCap - wpos <? need then
    if newCap >? SIZE_MAX / 2 then None
    else match fuel with O => None | S fuel => grow fuel (newCap * 2) wpos need end
  else Some newCap.

(** The consumed bytes in front are given back first. *)
Definition compact (b : InBuf) : InBuf :=
  if m_rpos b >? 0 then
    let r := readable b in
    mkBuf (if r >? 0 then blit 0 (slice (m_rpos b) r (m_data b)) (m_data b) else m_data b) 0 r
  else b.

Definition ensure_writable (need : Z) (b : InBuf) : option BufErr * InBuf :=
  if m_cap b - m_wpos b >=? need then (None, b)
  else
    let b := compact b in
    if m_cap b - m_wpos b >=? need then (None, b)
    else if need >? SIZE_MAX - m_wpos b then (Some CapacityOverflow, b)
    else
      let newCap := wrap64 (m_cap b * 2) in
      if newCap <? m_cap b then (Some CapacityOverflow, b)
      else match grow 64 newCap (m_wpos b) need with
      | None => (Some CapacityOverflow, b)
      | Some newCap =>
          match alloc newCap with
          | None => (Some BadAlloc, b)
          | Some newData =>
              (None, b <| m_data := if m_wpos b >? 0 then blit 0 (slice 0 (m_wpos b) (m_data b)) newData
                                    else newData |>)
          end
      end.

(** The bytes a copy puts at the writing cursor. *)
Definition put (bytes : list ascii) (b : InBuf) : InBuf :=
  mkBuf (blit (m_wpos b) bytes (m_data b)) (m_rpos b) (m_wpos b + Z.of_nat (length bytes)).

Definition append (bytes : list ascii) (b : InBuf) : option BufErr * InBuf :=
  if Z.of_nat (length bytes) =? 0 then (None, b)
  else match ensure_writable (Z.of_nat (length bytes)) b with
  | (None, b) => (None, put bytes b)
  | (Some e, b) => (Some e, b)
  end.

(** [fill]: what [recv] gave for at most [kChunk] bytes of room: bytes, or nothing
    (zero for the end of the stream, negative for an error). *)
Definition kChunk : Z := 4096.

Inductive Recv := R_DATA (bytes : list ascii) | R_NONE (rt : Z).

Definition fill (r : Recv) (b : InBuf) : option BufErr * Z * InBuf :=
  match ensure_writable kChunk b with
  | (Some e, b) => (Some e, 0, b)
  | (None, b) =>
      match r with
      | R_DATA bytes => (None, Z.of_nat (length bytes), put bytes b)
      | R_NONE rt => (None, rt, b)
      end
  end.

Definition consumeAll (b : InBuf) : InBuf := mkBuf (m_data b) 0 0.

Definition consume (n : Z) (b : InBuf) : InBuf :=
  if n >=? readable b then consumeAll b else mkBuf (m_data b) (m_rpos b + n) (m_wpos b).

Definition trim_target (min_capacity needed : Z) : Z :=
  let target := if min_capacity >? needed then min_capacity else needed in
  ceil_pow2 (if target =? 0 then 1 else target).

Definition kMinSavings : Z := 64 * 1024.

Definition trim (min_capacity reserve_writable : Z) (b : InBuf) : bool * InBuf :=
  let r := readable b in
  if reserve_writable >? SIZE_MAX - r then (false, b)
  else
    let needed := r + reserve_writable in
    let target := trim_target min_capacity needed in
    if (target <? needed) || (target <? min_capacity) then (false, b)
    else if target >=? m_cap b then (false, b)
    else if negb (target <=? m_cap b / 4) && negb (m_cap b - target >=? kMinSavings) then (false, b)
    else match alloc target with
    | None => (false, b)
    | Some newData =>
        (true, mkBuf (if r >? 0 then blit 0 (slice (m_rpos b) r (m_data b)) newData else newData) 0 r)
    end.
End alloc.

(** The length of the header block, with the blank line that ends it. *)
Fixpoint header_end (l : list ascii) : Z :=
  match l with
  | [] => 0
  | a :: l =>
      match l with
      | b :: c :: d :: _ =>
          if Ascii.eqb a CR && Ascii.eqb b LF && Ascii.eqb c CR && Ascii.eqb d LF then 4
          else let n := header_end l in if n =? 0 then 0 else n + 1
      | _ => 0
      end
  end.

Definition findHeaderEnd (b : InBuf) : Z := header_end (content b).

(** ** The smallest power of two *)

(** After the shifts up to [2^k] a bit is set when one of the [2^k] bits from it on was. *)
Definition smeared (k : Z) (v u : Z) : Prop :=
  forall i, 0 <= i -> Z.testbit u i = true <-> exists j, i <= j < i + k /\ Z.testbit v j = true.

Lemma smear_step k v u : 0 < k -> smeared k v u -> smeared (k + k) v (Z.lor u (Z.shiftr u k)).
Proof.
  intros Hk H i Hi. rewrite Z.lor_spec, Z.shiftr_spec, orb_true_iff, (H i Hi), (H (i + k)) by lia. split.
  - intros [(j & Hj & Hb)|(j & Hj & Hb)]; exists j; (split; [lia|done]).
  - intros (j & Hj & Hb). destruct (decide (j < i + k)); [left|right]; exists j; (split; [lia|done]).
Qed.

Lemma smear_ones v : 0 < v < 2 ^ 64 -> smear v = 2 ^ (Z.log2 v + 1) - 1.
Proof.
  intros Hv. assert (H : smeared 64 v (smear v)).
  { unfold smear; cbn [fold_left].
    apply (smear_step 32); [lia|]. apply (smear_step 16); [lia|]. apply (smear_step 8); [lia|].
    apply (smear_step 4); [lia|]. apply (smear_step 2); [lia|]. apply (smear_step 1); [lia|].
    intros i Hi. split; [intros Hb; exists i; split; [lia|done]|].
    intros (j & Hj & Hb). by replace i with j by lia. }
  pose proof (Z.log2_nonneg v) as Hl.
  assert (Hl64 : Z.log2 v < 64) by (apply Z.log2_lt_pow2; lia).
  replace (2 ^ (Z.log2 v + 1) - 1) with (Z.ones (Z.log2 v + 1)) by (rewrite Z.ones_equiv; lia).
  apply Z.bits_inj'. intros i Hi. rewrite Z.testbit_ones_nonneg by lia.
  apply eq_true_iff_eq. rewrite (H i Hi), Z.ltb_lt. split.
  - intros (j & Hj & Hb). destruct (decide (j <= Z.log2 v)); [lia|].
    rewrite Z.bits_above_log2 in Hb by lia. done.
  - intros Hlt. exists (Z.log2 v). split; [lia|]. apply Z.bit_log2. lia.
Qed.

Lemma ceil_pow2_spec v : 1 <= v <= 2 ^ 63 ->
  exists k, 0 <= k /\ ceil_pow2 v = 2 ^ k /\ v <= 2 ^ k /\ 2 ^ k < 2 * v.
Proof.
  intros Hv. unfold ceil_pow2. btest (v <=? 1); [exists 0; split_and!; lia|].
  replace (v >? 2 ^ 63) with false by lia. rewrite smear_ones by lia.
  pose proof (Z.log2_spec (v - 1) ltac:(lia)) as [L1 L2]. pose proof (Z.log2_nonneg (v - 1)).
  assert (Hl : Z.log2 (v - 1) < 63) by (apply Z.log2_lt_pow2; lia).
  assert (Hp : 2 ^ (Z.log2 (v - 1) + 1) <= 2 ^ 63) by (apply Z.pow_le_mono_r; lia).
  exists (Z.log2 (v - 1) + 1). rewrite wrap64_id by (unfold is_u64; lia).
  unfold Z.succ in L2. rewrite Z.pow_add_r in * by lia. split_and!; lia.
Qed.

(** ** The memory and the queue *)

Definition buf_ok (b : InBuf) : Prop :=
  0 <= m_rpos b <= m_wpos b /\ m_wpos b <= m_cap b /\ 1 <= m_cap b <= SIZE_MAX.

Lemma blit_length i bytes m :
  0 <= i -> i + Z.of_nat (length bytes) <= Z.of_nat (length m) -> length (blit i bytes m) = length m.
Proof. intros H1 H2. unfold blit. rewrite !length_app, length_take, length_drop. lia. Qed.

Lemma slice_length i n m : 0 <= i -> 0 <= n -> i + n <= Z.of_nat (length m) -> length (slice i n m) = Z.to_nat n.
Proof. intros. unfold slice. rewrite length_take, length_drop. lia. Qed.

Lemma content_length b : buf_ok b -> Z.of_nat (length (content b)) = readable b.
Proof.
  intros ((H1 & H2) & H3 & _). unfold content, readable, m_cap in *. rewrite slice_length by lia. lia.
Qed.

(** What is read after a copy: what was there, then the copy. *)
Lemma slice_blit i n bytes m :
  0 <= i -> 0 <= n -> i + n + Z.of_nat (length bytes) <= Z.of_nat (length m) ->
  slice i (n + Z.of_nat (length bytes)) (blit (i + n) bytes m) = slice i n m ++ bytes.
Proof.
  intros Hi Hn Hl. unfold slice, blit.
  rewrite Z2Nat.inj_add, Nat2Z.id by lia.
  rewrite drop_app_le by (rewrite length_take; lia). rewrite Z2Nat.inj_add by lia.
  rewrite skipn_firstn_comm. replace (Z.to_nat i + Z.to_nat n - Z.to_nat i)%nat with (Z.to_nat n) by lia.
  rewrite take_app_ge by (rewrite length_take, length_drop; lia).
  rewrite length_take, length_drop.
  replace (Z.to_nat n + length bytes - Z.to_nat n `min` (length m - Z.to_nat i))%nat with (length bytes) by lia.
  by rewrite take_app_length.
Qed.

Lemma slice_blit_0 bytes m :
  Z.of_nat (length bytes) <= Z.of_nat (length m) -> slice 0 (Z.of_nat (length bytes)) (blit 0 bytes m) = bytes.
Proof. intros H. exact (slice_blit 0 0 bytes m ltac:(lia) ltac:(lia) H). Qed.

(** What is read in the part a block took from another is what was there. *)
Lemma slice_copy i n w m d : 0 <= i -> 0 <= n -> i + n <= w -> w <= Z.of_nat (length m) ->
  slice i n (blit 0 (slice 0 w m) d) = slice i n m.
Proof.
  intros Hi Hn Hw Hl. unfold slice at 1 3, blit. rewrite take_0. cbn [app].
  set (bs := slice 0 w m). assert (Hbs : length bs = Z.to_nat w) by (unfold bs; rewrite slice_length by lia; lia).
  rewrite drop_app_le by lia. rewrite take_app_le by (rewrite length_drop; lia).
  unfold bs, slice. rewrite drop_0, skipn_firstn_comm, take_take. f_equal. lia.
Qed.

Lemma slice_none i m : slice i 0 m = [].
Proof. done. Qed.

Lemma put_spec bytes b : buf_ok b -> m_wpos b + Z.of_nat (length bytes) <= m_cap b ->
  buf_ok (put bytes b) /\ content (put bytes b) = content b ++ bytes /\ m_cap (put bytes b) = m_cap b.
Proof.
  intros ((H1 & H2) & H3 & H4) Hr. unfold put, content, readable, buf_ok, m_cap in *.
  cbn [m_data m_rpos m_wpos]. rewrite blit_length by lia. split_and!; try lia.
  pose proof (slice_blit (m_rpos b) (m_wpos b - m_rpos b) bytes (m_data b)) as E.
  replace (m_rpos b + (m_wpos b - m_rpos b)) with (m_wpos b) in E by lia.
  rewrite <- E by lia. f_equal. lia.
Qed.

Lemma compact_spec b : buf_ok b ->
  buf_ok (compact b) /\ content (compact b) = content b /\ m_cap (compact b) = m_cap b /\
  m_wpos (compact b) = readable b.
Proof.
  intros Hb. pose proof (content_length b Hb) as Hl. pose proof Hb as ((H1 & H2) & H3 & H4). unfold compact.
  btest (m_rpos b >? 0); [|split_and!; try done; unfold readable; lia].
  fold (content b). unfold readable, buf_ok, m_cap in *.
  btest (m_wpos b - m_rpos b >? 0); cbn [m_data m_rpos m_wpos].
  - rewrite blit_length by lia. split_and!; try lia. unfold content at 1, readable; cbn [m_data m_rpos m_wpos].
    replace (m_wpos b - m_rpos b - 0) with (Z.of_nat (length (content b))) by lia.
    apply slice_blit_0. lia.
  - split_and!; try lia. destruct (content b) eqn:E; [|cbn in Hl; lia].
    unfold content, readable; cbn. by replace (m_wpos b - m_rpos b - 0) with 0 by lia.
Qed.

Lemma SIZE_MAX_half : SIZE_MAX / 2 = 2 ^ 63 - 1.
Proof. done. Qed.

Lemma grow_spec fuel newCap wpos need c : 0 < newCap <= SIZE_MAX ->
  grow fuel newCap wpos need = Some c -> newCap <= c <= SIZE_MAX /\ need <= c - wpos.
Proof.
  revert newCap. induction fuel as [|fuel IH]; intros newCap Hn; cbn [grow]; rewrite SIZE_MAX_half;
    (btest (newCap - wpos <? need); [|intros [= <-]; lia]); (btest (newCap >? 2 ^ 63 - 1); [done|]); [done|].
  intros E. apply IH in E; [lia|]. unfold SIZE_MAX, UINT64_MAX in *. lia.
Qed.

(** The doubling ends by itself: it never runs out of fuel. *)
Lemma grow_total fuel newCap wpos need :
  0 < newCap -> 2 ^ 64 <= newCap * 2 ^ Z.of_nat fuel -> wpos + need <= 2 ^ 62 ->
  exists c, grow fuel newCap wpos need = Some c.
Proof.
  revert newCap. induction fuel as [|fuel IH]; intros newCap Hn Hf Hw; cbn [grow].
  - replace (newCap - wpos <? need) with false by lia. by eexists.
  - btest (newCap - wpos <? need); [|by eexists].
    replace (newCap >? SIZE_MAX / 2) with false by (rewrite SIZE_MAX_half; lia).
    rewrite Nat2Z.inj_succ, Z.pow_succ_r in Hf by lia. apply IH; lia.
Qed.

(** Whatever the fuel beyond 64, the result is the same: 64 doublings are enough. *)
Lemma grow_fuel f g newCap wpos need : 0 < newCap ->
  2 ^ 63 <= newCap * 2 ^ Z.of_nat f -> 2 ^ 63 <= newCap * 2 ^ Z.of_nat g ->
  grow f newCap wpos need = grow g newCap wpos need.
Proof.
  revert g newCap. induction f as [|f IH]; intros g newCap Hn Hf Hg; destruct g as [|g]; cbn [grow]; try done.
  - btest (newCap - wpos <? need); [|done].
    by replace (newCap >? SIZE_MAX / 2) with true by (rewrite SIZE_MAX_half; lia).
  - btest (newCap - wpos <? need); [|done].
    by replace (newCap >? SIZE_MAX / 2) with true by (rewrite SIZE_MAX_half; lia).
  - rewrite Nat2Z.inj_succ, Z.pow_succ_r in Hf, Hg by lia. rewrite (IH g) by lia. done.
Qed.

(** ** The buffer is a queue of bytes *)

Inductive BufOp :=
| B_APPEND (bytes : list ascii) | B_FILL (r : Recv) | B_CONSUME (n : Z) | B_CONSUME_ALL
| B_TRIM (min_capacity reserve : Z).

Definition buf_run (alloc : Z -> option (list ascii)) (op : BufOp) (b : InBuf) : option BufErr * InBuf :=
  match op with
  | B_APPEND bytes => append alloc bytes b
  | B_FILL r => let '(e, _, b) := fill alloc r b in (e, b)
  | B_CONSUME n => (None, consume n b)
  | B_CONSUME_ALL => (None, consumeAll b)
  | B_TRIM m r => (None, (trim alloc m r b).2)
  end.

(** The queue after an operation that threw [e]. *)
Definition queue_step (op : BufOp) (e : option BufErr) (q : list ascii) : list ascii :=
  match op with
  | B_APPEND bytes | B_FILL (R_DATA bytes) => match e with None => q ++ bytes | Some _ => q end
  | B_FILL (R_NONE _) | B_TRIM _ _ => q
  | B_CONSUME n => drop (Z.to_nat n) q
  | B_CONSUME_ALL => []
  end.

(** The room an operation asks for. *)
Definition op_need (op : BufOp) : Z :=
  match op with
  | B_APPEND bytes => Z.of_nat (length bytes)
  | B_FILL _ => kChunk
  | _ => 0
  end.

Definition op_ok (op : BufOp) : Prop :=
  match op with
  | B_APPEND bytes => Z.of_nat (length bytes) <= SIZE_MAX
  | B_FILL (R_DATA bytes) => Z.of_nat (length bytes) <= kChunk
  | B_FILL (R_NONE _) | B_CONSUME_ALL => True
  | B_CONSUME n => 0 <= n
  | B_TRIM m r => 0 <= m <= SIZE_MAX /\ 0 <= r <= SIZE_MAX
  end.

Section queue.
Context (alloc : Z -> option (list ascii)).
Context (alloc_len : forall n d, alloc n = Some d -> Z.of_nat (length d) = n).

(** The memory is the same size, or all of a new block. *)
Definition same_block (b b' : InBuf) : Prop := m_cap b' = m_cap b \/ exists d, alloc (m_cap b') = Some d.

Lemma ensure_writable_spec need b : buf_ok b -> 0 <= need <= SIZE_MAX ->
  let '(e, b') := ensure_writable alloc need b in
  buf_ok b' /\ content b' = content b /\ same_block b b' /\
  match e with
  | None => need <= m_cap b' - m_wpos b'
  | Some CapacityOverflow => 2 ^ 62 < readable b + need \/ 2 ^ 62 < m_cap b
  | Some BadAlloc => exists n, alloc n = None
  end.
Proof using alloc_len.
  intros Hb Hn. unfold ensure_writable.
  btest (m_cap b - m_wpos b >=? need); [split_and!; try done; by left|].
  destruct (compact_spec b Hb) as (Hb' & Hcont & Hcap & Hwp). set (b1 := compact b) in *. clearbody b1.
  pose proof (content_length b1 Hb') as Hlen. rewrite Hcont, (content_length b Hb) in Hlen.
  pose proof Hb' as ((H1 & H2) & H3 & H4). unfold SIZE_MAX, UINT64_MAX in *.
  assert (Hsame : same_block b b1) by by left.
  btest (m_cap b1 - m_wpos b1 >=? need); [done|].
  btest (need >? 2 ^ 64 - 1 - m_wpos b1); [split_and!; try done; lia|].
  btest (wrap64 (m_cap b1 * 2) <? m_cap b1).
  { split_and!; try done. right. destruct (decide (m_cap b1 <= 2 ^ 62)); [|lia].
    rewrite wrap64_id in * by (unfold is_u64; lia). lia. }
  assert (H0 : 0 < wrap64 (m_cap b1 * 2) <= 2 ^ 64 - 1) by (pose proof (wrap64_range (m_cap b1 * 2)); unfold is_u64 in *; lia).
  destruct (grow 64 _ _ _) as [c|] eqn:Eg.
  - apply grow_spec in Eg; [|exact H0].
    destruct (alloc c) as [d|] eqn:Ea; [|split_and!; try done; by exists c].
    pose proof (alloc_len _ _ Ea) as Hd.
    set (b2 := b1 <| m_data := _ |>).
    assert (Hlen2 : Z.of_nat (length (m_data b2)) = c).
    { unfold b2; cbn. btest (m_wpos b1 >? 0); [|done]. rewrite blit_length; [done|lia|].
      rewrite slice_length by (unfold m_cap in *; lia). lia. }
    assert (Hc2 : content b2 = content b1).
    { unfold content, readable. unfold b2; cbn. btest (m_wpos b1 >? 0).
      - apply slice_copy; unfold m_cap in *; lia.
      - replace (m_wpos b1 - m_rpos b1) with 0 by lia. by rewrite !slice_none. }
    unfold buf_ok, m_cap. rewrite Hlen2, Hc2. change (m_rpos b2) with (m_rpos b1). change (m_wpos b2) with (m_wpos b1).
    split_and!; try done; try (unfold SIZE_MAX, UINT64_MAX in *; lia). right. exists d. unfold m_cap. by rewrite Hlen2.
  - split_and!; try done. destruct (decide (readable b + need <= 2 ^ 62)); [|lia].
    destruct (decide (m_cap b <= 2 ^ 62)); [|lia]. exfalso.
    rewrite wrap64_id in * by (unfold is_u64; lia).
    destruct (grow_total 64 (m_cap b1 * 2) (m_wpos b1) need) as [c Ec]; [lia| |lia|congruence].
    change (Z.of_nat 64) with 64. lia.
Qed.

Lemma consume_spec n b : buf_ok b -> 0 <= n ->
  buf_ok (consume n b) /\ content (consume n b) = drop (Z.to_nat n) (content b) /\ m_cap (consume n b) = m_cap b.
Proof using.
  intros Hb Hn. pose proof (content_length b Hb) as Hl. pose proof Hb as ((H1 & H2) & H3 & H4). unfold consume.
  btest (n >=? readable b).
  - split_and!; [|rewrite drop_ge by lia; done|done]. unfold buf_ok, m_cap in *; cbn. lia.
  - unfold buf_ok, content, readable, m_cap, slice in *; cbn [m_data m_rpos m_wpos]. split_and!; try lia.
    rewrite skipn_firstn_comm, drop_drop. f_equal; [lia|]. f_equal. lia.
Qed.

Lemma trim_target_ok m needed : 0 <= m -> 0 <= needed ->
  m <= trim_target m needed -> needed <= trim_target m needed -> 1 <= trim_target m needed.
Proof using.
  intros Hm Hn E1 E2. destruct (decide (1 <= m \/ 1 <= needed)) as [|H0]; [lia|].
  replace m with 0 by lia. replace needed with 0 by lia. by vm_compute.
Qed.

Lemma trim_spec m r b : buf_ok b -> 0 <= m <= SIZE_MAX -> 0 <= r <= SIZE_MAX ->
  let '(done, b') := trim alloc m r b in
  buf_ok b' /\ content b' = content b /\ same_block b b' /\
  if done then m_cap b' < m_cap b /\ m <= m_cap b' /\ r <= m_cap b' - m_wpos b' else b' = b.
Proof using alloc_len.
  intros Hb Hm Hr. pose proof (content_length b Hb) as Hl. pose proof Hb as ((H1 & H2) & H3 & H4).
  assert (Hno : buf_ok b /\ content b = content b /\ same_block b b /\ b = b) by (split_and!; try done; by left).
  unfold trim. btest (r >? SIZE_MAX - readable b); [exact Hno|].
  set (t := trim_target m (readable b + r)). btest (t <? readable b + r); cbn [orb]; [exact Hno|].
  btest (t <? m); [exact Hno|]. btest (t >=? m_cap b); [exact Hno|].
  destruct (_ && _); [exact Hno|]. destruct (alloc t) as [d|] eqn:Ea; [|exact Hno].
  pose proof (alloc_len _ _ Ea) as Hd. unfold readable, m_cap in *.
  assert (Ht1 : 1 <= t) by (apply trim_target_ok; fold t; lia).
  set (data := if _ >? 0 then _ else d).
  assert (Hlen : Z.of_nat (length data) = t).
  { unfold data. destruct (_ >? 0); [|done]. rewrite blit_length; [done|lia|]. rewrite slice_length by lia. lia. }
  assert (Hc : slice 0 (m_wpos b - m_rpos b) data = content b).
  { unfold data. btest (m_wpos b - m_rpos b >? 0).
    - change (slice (m_rpos b) (m_wpos b - m_rpos b) (m_data b)) with (content b). rewrite <- Hl.
      apply slice_blit_0. lia.
    - replace (m_wpos b - m_rpos b) with 0 by lia. destruct (content b) eqn:E; [done|cbn in Hl; lia]. }
  unfold buf_ok, content, readable, same_block, m_cap; cbn [m_data m_rpos m_wpos].
  replace (m_wpos b - m_rpos b - 0) with (m_wpos b - m_rpos b) by lia. rewrite Hc, Hlen.
  split_and!; try done; try lia. right. by exists d.
Qed.

(** C35: the read buffer is a queue of bytes. Whatever the allocator gives or
    refuses, every operation keeps the cursors inside the memory, whose size only
    ever is that of a block it was given, and does to the readable bytes what it
    does to the queue: bytes are added at the end exactly when it does not throw,
    taken from the front, and neither moving, growing nor trimming loses or changes
    one. It overflows only beyond 2^62 bytes. *)
Theorem buf_refines_queue op b : buf_ok b -> op_ok op ->
  let '(e, b') := buf_run alloc op b in
  buf_ok b' /\ content b' = queue_step op e (content b) /\ same_block b b' /\
  match e with
  | Some CapacityOverflow => 2 ^ 62 < readable b + op_need op \/ 2 ^ 62 < m_cap b
  | Some BadAlloc => exists n, alloc n = None
  | None => True
  end.
Proof using alloc_len.
  intros Hb Hop. assert (Hs : same_block b b) by by left.
  destruct op as [bytes|r|n| |m r]; cbn [buf_run queue_step op_need op_ok] in *.
  - unfold append. btest (Z.of_nat (length bytes) =? 0).
    { destruct bytes; [|done]. by rewrite app_nil_r. }
    pose proof (ensure_writable_spec (Z.of_nat (length bytes)) b Hb ltac:(lia)) as E.
    destruct (ensure_writable _ _ b) as [[e|] b1]; destruct E as (E1 & E2 & E3 & E4); [done|].
    destruct (put_spec bytes b1 E1) as (P1 & P2 & P3); [lia|]. rewrite P2, E2.
    split_and!; try done. unfold same_block in *. by rewrite P3.
  - unfold fill. pose proof (ensure_writable_spec kChunk b Hb ltac:(by cbn)) as E.
    destruct (ensure_writable _ _ b) as [[e|] b1]; destruct E as (E1 & E2 & E3 & E4); [by destruct r|].
    destruct r as [bytes|rt]; [|done].
    destruct (put_spec bytes b1 E1) as (P1 & P2 & P3); [lia|]. rewrite P2, E2.
    split_and!; try done. unfold same_block in *. by rewrite P3.
  - destruct (consume_spec n b Hb Hop) as (C1 & C2 & C3). split_and!; try done. by left.
  - split_and!; try done; try (by left). unfold buf_ok, m_cap in *; cbn. lia.
  - pose proof (trim_spec m r b Hb) as T. destruct (trim alloc m r b) as [d b']. cbn.
    destruct T as (T1 & T2 & T3 & _); [lia|lia|done].
Qed.
End queue.

(** ** The end of a header block *)

Definition CRLFCRLF : list ascii := [CR; LF; CR; LF].

Definition blank_line (a b c d : ascii) : bool :=
  Ascii.eqb a CR && Ascii.eqb b LF && Ascii.eqb c CR && Ascii.eqb d LF.

Lemma header_end_cons a b c d m : header_end (a :: b :: c :: d :: m)
  = if blank_line a b c d then 4
    else if header_end (b :: c :: d :: m) =? 0 then 0 else header_end (b :: c :: d :: m) + 1.
Proof. done. Qed.

(** A block found ends no later than any blank line. *)
Lemma header_end_found l pre post : l = pre ++ CRLFCRLF ++ post ->
  0 < header_end l <= Z.of_nat (length pre) + 4.
Proof.
  intros ->. induction pre as [|a pre IH]; [done|]. cbn [app length].
  assert (E : exists b c d m, pre ++ CRLFCRLF ++ post = b :: c :: d :: m).
  { destruct pre as [|b [|c [|d pre]]]; cbn; by do 4 eexists. }
  destruct E as (b & c & d & m & E). rewrite E in IH |- *. rewrite header_end_cons.
  destruct (blank_line a b c d); [lia|]. btest (header_end (b :: c :: d :: m) =? 0); lia.
Qed.

Lemma header_end_split l : header_end l <> 0 ->
  exists pre post, l = pre ++ CRLFCRLF ++ post /\ header_end l = Z.of_nat (length pre) + 4.
Proof.
  induction l as [|a l IH]; [done|]. destruct l as [|b [|c [|d l]]]; try done. rewrite header_end_cons.
  destruct (blank_line a b c d) eqn:E.
  - unfold blank_line in E. b2p. exists [], l.
    repeat match goal with H : Ascii.eqb _ _ = true |- _ => apply Ascii.eqb_eq in H end. by subst.
  - btest (header_end (b :: c :: d :: l) =? 0); [done|]. intros _.
    destruct (IH Heqb0) as (pre & post & El & E2). exists (a :: pre), post. rewrite E2.
    split; [by rewrite El|]. cbn [length]. lia.
Qed.

(** The bytes received later do not move the end of a header block. *)
Lemma header_end_stable l m : header_end l <> 0 -> header_end (l ++ m) = header_end l.
Proof.
  induction l as [|a l IH]; [done|]. destruct l as [|b [|c [|d l]]]; try done. cbn [app] in *.
  rewrite !header_end_cons. destruct (blank_line a b c d); [done|].
  btest (header_end (b :: c :: d :: l) =? 0); [done|]. intros _.
  rewrite IH by done. by replace (header_end (b :: c :: d :: l) =? 0) with false by lia.
Qed.

(** ** Witness *)

Definition buf1 : InBuf := mkBuf (chars "abcdef") 2 5.

Definition alloc1 (n : Z) : option (list ascii) := if (0 <=? n) && (n <=? 1000000) then Some (repeat NUL (Z.to_nat n)) else None.

Lemma alloc1_len n d : alloc1 n = Some d -> Z.of_nat (length d) = n.
Proof. unfold alloc1. destruct (_ && _) eqn:E; [|done]. b2p. intros [= <-]. rewrite repeat_length. lia. Qed.

Lemma buf_refines_queue_witness :
  let '(e, b') := buf_run alloc1 (B_APPEND (chars "0123456789")) buf1 in
  e = None /\ content b' = chars "cde0123456789".
Proof.
  pose proof (buf_refines_queue alloc1 alloc1_len (B_APPEND (chars "0123456789")) buf1) as T.
  destruct (buf_run alloc1 (B_APPEND (chars "0123456789")) buf1) as [e b'] eqn:E.
  destruct T as (_ & T & _); [unfold buf_ok, m_cap, SIZE_MAX, UINT64_MAX; cbn; lia|by cbn|].
  assert (e = None) as -> by (revert E; vm_compute; by intros [= <- _]). split; [done|]. by rewrite T.
Defined.
