(* ===== verification/Body.v ===== *)
(** * Message bodies as streams (src/gateway/body.cpp, body.h)

    [BodyEncoder] frames what is sent; [BodyReader] takes a body out of the bytes of
    a connection, block by block, by content length, in chunks, or until the peer
    closes. The read buffer is the queue it is proved to be in [Buf]; what the
    socket gives, one [recv] after another, is a script. *)

From S2P Require Import Prelude Records.

(** A comparison whose value follows by arithmetic. *)
Ltac zcmp :=
  symmetry; rewrite ?Z.gtb_ltb, ?Z.geb_leb;
  first [apply Z.eqb_neq | apply Z.eqb_eq | apply Z.ltb_ge | apply Z.ltb_lt | apply Z.leb_gt | apply Z.leb_le]; lia.

Inductive BodyFraming := F_NONE | F_CONTENT_LENGTH | F_CHUNKED | F_UNTIL_CLOSE.

Inductive BodyReadError := RE_NONE | RE_IO | RE_MALFORMED | RE_TOO_LARGE.

(** One [recv]: some bytes, the end of the stream, or an error. At the end of a
    script the peer has closed. *)
Inductive Input := I_DATA (c : ascii) (cs : list ascii) | I_EOF | I_ERR.

(** ** The encoder *)

Definition hex_digit (d : Z) : ascii := if d <? 10 then chr (48 + d) else chr (87 + d).

Fixpoint hex_digits (fuel : nat) (z : Z) (acc : list ascii) : list ascii :=
  match fuel with
  | O => acc
  | S f =>
      let acc := hex_digit (z mod 16) :: acc in
      if z / 16 =? 0 then acc else hex_digits f (z / 16) acc
  end.

(** [snprintf("%zx")] of a [size_t]: at most 16 digits. *)
Definition to_hex (z : Z) : list ascii := hex_digits 16 z [].

Definition encodeChunk (framing : BodyFraming) (data : list ascii) : list ascii :=
  match framing with
  | F_CHUNKED => to_hex (Z.of_nat (length data)) ++ [CR; LF] ++ data ++ [CR; LF]
  | _ => data
  end.

Definition encodeEnd (framing : BodyFraming) : list ascii :=
  match framing with
  | F_CHUNKED => ["0"%char; CR; LF; CR; LF]
  | _ => []
  end.

(** ** The reader *)

Record BodyReader := mkReader {
  m_framing : BodyFraming; m_remaining : Z; m_buf : list ascii; m_in : list Input; m_sock : bool;
  m_finished : bool; m_error : bool; m_errorCode : BodyReadError; m_totalRead : Z;
  m_maxBodySize : Z; m_chunk_left : Z }.

Definition reader_init (framing : BodyFraming) (contentLength : Z) (buf : list ascii) (script : list Input)
    (sock : bool) : BodyReader :=
  mkReader framing contentLength buf script sock
    (match framing with
     | F_NONE => true
     | F_CONTENT_LENGTH => contentLength =? 0
     | _ => false
     end) false RE_NONE 0 UINT64_MAX 0.

Definition setMaxBodySize (n : Z) (b : BodyReader) : BodyReader := b <| m_maxBodySize := n |>.

Definition no_error (c : BodyReadError) : bool := match c with RE_NONE => true | _ => false end.

Definition setError (code : BodyReadError) (b : BodyReader) : BodyReader :=
  let b := b <| m_error := true |> in
  if no_error (m_errorCode b) then b <| m_errorCode := code |> else b.

Definition finish (b : BodyReader) : BodyReader := b <| m_finished := true |>.

(** [InBuf::fill]: its result and the bytes added. *)
Definition fill (b : BodyReader) : Z * BodyReader :=
  match m_in b with
  | I_DATA c cs :: s => (1 + Z.of_nat (length cs), (b <| m_buf := m_buf b ++ c :: cs |>) <| m_in := s |>)
  | I_EOF :: s => (0, b <| m_in := s |>)
  | I_ERR :: s => (-1, b <| m_in := s |>)
  | [] => (0, b)
  end.

Definition consume (n : nat) (b : BodyReader) : BodyReader := b <| m_buf := drop n (m_buf b) |>.

(** The text before the first CRLF and what follows it. *)
Fixpoint find_crlf (l : list ascii) : option (list ascii * list ascii) :=
  match l with
  | [] => None
  | a :: l =>
      match l with
      | b :: rest =>
          if Ascii.eqb a CR && Ascii.eqb b LF then Some ([], rest)
          else match find_crlf l with Some (line, rest) => Some (a :: line, rest) | None => None end
      | [] => None
      end
  end.

Inductive LineRes := L_LINE (line : list ascii) | L_FAIL (code : BodyReadError).

(** The loop of [readLine]: each turn that goes on has read from the socket. *)
Fixpoint line_loop (sock : bool) (script : list Input) (buf : list ascii) : LineRes * list ascii * list Input :=
  match find_crlf buf with
  | Some (line, rest) => (L_LINE line, rest, script)
  | None =>
      if Z.of_nat (length buf) >? 8192 then (L_FAIL RE_MALFORMED, buf, script)
      else if negb sock then (L_FAIL RE_IO, buf, script)
      else match script with
      | I_DATA c cs :: s => line_loop sock s (buf ++ c :: cs)
      | _ :: s => (L_FAIL RE_IO, buf, s)
      | [] => (L_FAIL RE_IO, buf, [])
      end
  end.

Definition readLine (b : BodyReader) : option (list ascii) * BodyReader :=
  let '(r, buf, s) := line_loop (m_sock b) (m_in b) (m_buf b) in
  let b := (b <| m_buf := buf |>) <| m_in := s |> in
  match r with
  | L_LINE line => (Some line, b)
  | L_FAIL code => (None, setError code b)
  end.

(** [ensure(n)] on a script. *)
Fixpoint ensure_loop (n : nat) (script : list Input) (buf : list ascii) : bool * list ascii * list Input :=
  if (n <=? length buf)%nat then (true, buf, script)
  else match script with
  | I_DATA c cs :: s => ensure_loop n s (buf ++ c :: cs)
  | _ :: s => (false, buf, s)
  | [] => (false, buf, [])
  end.

Definition ensure (n : nat) (b : BodyReader) : bool * BodyReader :=
  if (n <=? length (m_buf b))%nat then (true, b)
  else if negb (m_sock b) then (false, setError RE_IO b)
  else
    let '(ok, buf, s) := ensure_loop n (m_in b) (m_buf b) in
    let b := (b <| m_buf := buf |>) <| m_in := s |> in
    if ok then (true, b) else (false, setError RE_IO b).

Definition accountBytes (n : Z) (b : BodyReader) : bool * BodyReader :=
  if (n >? m_maxBodySize b) || (m_totalRead b >? m_maxBodySize b - n)
  then (false, finish (setError RE_TOO_LARGE b))
  else (true, b <| m_totalRead := m_totalRead b + n |>).

(** The bytes there are, after one [fill] when there were none. [None]: nothing came,
    with the result of [fill] ([-1] without a socket). *)
Definition some_bytes (b : BodyReader) : option Z * BodyReader :=
  match m_buf b with
  | _ :: _ => (None, b)
  | [] =>
      if negb (m_sock b) then (Some (-1), b)
      else let '(rt, b) := fill b in if rt <=? 0 then (Some rt, b) else (None, b)
  end.

(** Hands out the first [n] bytes. *)
Definition give (n : nat) (out : list ascii) (b : BodyReader) : list ascii * BodyReader :=
  (out ++ take n (m_buf b), consume n b).

Definition read_clen (out : list ascii) (b : BodyReader) : Z * list ascii * BodyReader :=
  if m_remaining b =? 0 then (0, out, finish b)
  else match some_bytes b with
  | (Some _, b) => (-1, out, finish (setError RE_IO b))
  | (None, b) =>
      let take := Z.min (Z.of_nat (length (m_buf b))) (m_remaining b) in
      match accountBytes take b with
      | (false, b) => (-1, out, b)
      | (true, b) =>
          let '(out, b) := give (Z.to_nat take) out b in
          let b := b <| m_remaining := m_remaining b - take |> in
          (wrap_int32 take, out, if m_remaining b =? 0 then finish b else b)
      end
  end.

Definition is_hex (c : ascii) : bool :=
  isdigit c || ((97 <=? code c) && (code c <=? 102)) || ((65 <=? code c) && (code c <=? 70)).

Definition hex_val (c : ascii) : Z :=
  if isdigit c then code c - 48 else if 97 <=? code c then code c - 87 else code c - 55.

(** The text up to the first semicolon. *)
Fixpoint before_semi (l : list ascii) : list ascii :=
  match l with
  | [] => []
  | c :: l => if Ascii.eqb c ";" then [] else c :: before_semi l
  end.

(** The length line of a chunk: hexadecimal digits only, within 64 bits. *)
Definition chunk_len (line : list ascii) : option Z :=
  let line := before_semi line in
  match line with
  | [] => None
  | _ =>
      if forallb is_hex line then
        let v := fold_left (fun v c => v * 16 + hex_val c) line 0 in
        if v >? UINT64_MAX then None else Some v
      else None
  end.

Definition kMaxTrailerLines : nat := 32.

(** The trailer: lines up to an empty one, [k] more at most. *)
Fixpoint trailers (k : nat) (b : BodyReader) : Z * BodyReader :=
  match readLine b with
  | (Some (_ :: _), b) =>
      match k with
      | O => (-1, finish (setError RE_MALFORMED b))
      | S k => trailers k b
      end
  | (_, b) => (0, finish b)
  end.

(** The CRLF after the last byte of a chunk; [rt] is what the call returns. *)
Definition chunk_crlf (rt : Z) (out : list ascii) (b : BodyReader) : Z * list ascii * BodyReader :=
  match ensure 2 b with
  | (false, b) => (-1, out, finish b)
  | (true, b) =>
      match m_buf b with
      | c :: d :: _ =>
          if Ascii.eqb c CR && Ascii.eqb d LF then (rt, out, consume 2 b)
          else (-1, out, finish (setError RE_MALFORMED b))
      | _ => (-1, out, finish (setError RE_MALFORMED b))
      end
  end.

(** The data of a chunk. *)
Definition chunk_data (out : list ascii) (b : BodyReader) : Z * list ascii * BodyReader :=
  match some_bytes b with
  | (Some _, b) => (-1, out, finish (setError RE_IO b))
  | (None, b) =>
      let take := Z.min (Z.of_nat (length (m_buf b))) (m_chunk_left b) in
      let '(out, b) := give (Z.to_nat take) out b in
      let b := b <| m_chunk_left := m_chunk_left b - take |> in
      if m_chunk_left b =? 0 then chunk_crlf (wrap_int32 take) out b else (wrap_int32 take, out, b)
  end.

Definition readChunked (out : list ascii) (b : BodyReader) : Z * list ascii * BodyReader :=
  if m_chunk_left b =? 0 then
    match readLine b with
    | (None, b) => (if m_error b then -1 else 0, out, finish b)
    | (Some line, b) =>
        match chunk_len line with
        | None => (-1, out, setError RE_MALFORMED b)
        | Some clen =>
            if clen =? 0 then let '(rt, b) := trailers kMaxTrailerLines b in (rt, out, b)
            else match accountBytes clen b with
            | (false, b) => (-1, out, b)
            | (true, b) => chunk_data out (b <| m_chunk_left := clen |>)
            end
        end
    end
  else chunk_data out b.

(** All there is. *)
Definition give_all (out : list ascii) (b : BodyReader) : Z * list ascii * BodyReader :=
  let take := Z.of_nat (length (m_buf b)) in
  match accountBytes take b with
  | (false, b) => (-1, out, b)
  | (true, b) => let '(out, b) := give (Z.to_nat take) out b in (wrap_int32 take, out, b)
  end.

Definition read_until_close (out : list ascii) (b : BodyReader) : Z * list ascii * BodyReader :=
  match m_buf b with
  | [] =>
      if negb (m_sock b) then (0, out, finish b)
      else
        let '(rt, b) := fill b in
        if rt <? 0 then (-1, out, finish (setError RE_IO b))
        else if rt =? 0 then (0, out, finish b)
        else give_all out b
  | _ => give_all out b
  end.

Definition readChunk (out : list ascii) (b : BodyReader) : Z * list ascii * BodyReader :=
  if m_finished b then (0, out, b)
  else if m_error b then (-1, out, b)
  else match m_framing b with
  | F_CONTENT_LENGTH => read_clen out b
  | F_CHUNKED => readChunked out b
  | F_UNTIL_CLOSE => read_until_close out b
  | F_NONE => (0, out, finish b)
  end.

(** What the forwarding loops do: call it while it gives bytes. *)
Fixpoint read_all (fuel : nat) (out : list ascii) (b : BodyReader) : option (Z * list ascii * BodyReader) :=
  match fuel with
  | O => None
  | S fuel =>
      let '(rt, out, b) := readChunk out b in
      if rt >? 0 then read_all fuel out b else Some (rt, out, b)
  end.

(** ** The bytes of a connection *)

(** The bytes that come before the stream first stops. *)
Fixpoint flat (s : list Input) : list ascii :=
  match s with
  | I_DATA c cs :: s => c :: cs ++ flat s
  | _ => []
  end.

Definition avail (b : BodyReader) : list ascii := m_buf b ++ flat (m_in b).

(** All the bytes there ever are. *)
Fixpoint in_bytes (s : list Input) : nat :=
  match s with
  | [] => 0
  | I_DATA c cs :: s => S (length cs) + in_bytes s
  | _ :: s => in_bytes s
  end.

Definition bytes_left (b : BodyReader) : nat := length (m_buf b) + in_bytes (m_in b).

(** [b'] is [b] but for the buffer and the input. *)
Record same_reader (b b' : BodyReader) : Prop := {
  sr_framing : m_framing b' = m_framing b; sr_remaining : m_remaining b' = m_remaining b;
  sr_sock : m_sock b' = m_sock b; sr_finished : m_finished b' = m_finished b;
  sr_error : m_error b' = m_error b; sr_code : m_errorCode b' = m_errorCode b;
  sr_total : m_totalRead b' = m_totalRead b; sr_max : m_maxBodySize b' = m_maxBodySize b;
  sr_left : m_chunk_left b' = m_chunk_left b }.

Lemma find_crlf_app line rest : Forall (fun c => c <> CR) line ->
  find_crlf (line ++ CR :: LF :: rest) = Some (line, rest).
Proof.
  induction 1 as [|c line Hc _ IH]; [done|]. cbn [app find_crlf] in *.
  destruct (line ++ CR :: LF :: rest) as [|d l] eqn:E; [by destruct line|].
  replace (Ascii.eqb c CR) with false by (symmetry; by apply Ascii.eqb_neq). cbn [andb]. by rewrite IH.
Qed.

Lemma find_crlf_short p line rest : Forall (fun c => c <> CR) line ->
  p ++ rest = line ++ [CR] -> find_crlf p = None.
Proof.
  intros Hl. revert p. induction Hl as [|c line Hc _ IH]; intros p Hp.
  - destruct p as [|x [|y p]]; [done|done|]. cbn in Hp. by injection Hp as _ ?.
  - destruct p as [|x p]; [done|]. cbn in Hp. injection Hp as -> Hp. cbn [find_crlf].
    destruct p as [|y p]; [done|]. rewrite (IH (y :: p) Hp).
    by replace (Ascii.eqb c CR) with false by (symmetry; by apply Ascii.eqb_neq).
Qed.

(** A line of the stream is read whole however the stream is cut. *)
Lemma line_loop_reads s buf line rest :
  Forall (fun c => c <> CR) line -> Z.of_nat (length line) <= 8190 ->
  buf ++ flat s = line ++ CR :: LF :: rest ->
  exists buf' s', line_loop true s buf = (L_LINE line, buf', s') /\ buf' ++ flat s' = rest /\
    (length buf' + in_bytes s' + length line + 2 = length buf + in_bytes s)%nat.
Proof.
  intros Hl Hlen. revert buf. induction s as [|i s IH]; intros buf Hb.
  - cbn in Hb. rewrite app_nil_r in Hb. subst buf. cbn [line_loop]. rewrite find_crlf_app by done.
    exists rest, []. split; [done|]. rewrite app_nil_r. split; [done|]. rewrite length_app. cbn. lia.
  - assert (Hcut : (length line + 2 <= length buf)%nat \/ (length buf < length line + 2)%nat) by lia.
    destruct Hcut as [Hcut|Hcut].
    + assert (E : exists r, buf = line ++ CR :: LF :: r /\ r ++ flat (i :: s) = rest).
      { exists (drop (length line + 2) buf). apply (f_equal (take (length line + 2))) in Hb as Ht.
        apply (f_equal (drop (length line + 2))) in Hb as Hd.
        rewrite take_app_le in Ht by lia. rewrite drop_app_le in Hd by lia.
        change (CR :: LF :: rest) with ([CR; LF] ++ rest) in Ht, Hd. rewrite app_assoc in Ht, Hd.
        rewrite take_app_length' in Ht by (rewrite length_app; cbn; lia).
        rewrite drop_app_length' in Hd by (rewrite length_app; cbn; lia). split; [|done].
        rewrite <- (take_drop (length line + 2) buf) at 1. rewrite Ht. by rewrite <- app_assoc. }
      destruct E as (r & -> & Hr). cbn [line_loop]. rewrite find_crlf_app by done.
      exists r, (i :: s). split_and!; [done|done|]. rewrite length_app. cbn [length]. lia.
    + assert (Hn : find_crlf buf = None).
      { apply (find_crlf_short buf line (drop (length buf) (line ++ [CR]))); [done|].
        apply (f_equal (take (length buf))) in Hb. rewrite take_app_length in Hb.
        change (CR :: LF :: rest) with ([CR] ++ LF :: rest) in Hb. rewrite app_assoc in Hb.
        rewrite take_app_le in Hb by (rewrite length_app; cbn; lia).
        rewrite Hb at 1. apply take_drop. }
      cbn [line_loop]. rewrite Hn. assert (Hsm : Z.of_nat (length buf) <= 8191) by lia.
      destruct (Z.of_nat (length buf) >? 8192) eqn:Egt; [b2p; lia|]. cbn [negb].
      destruct i as [c cs| |]; cbn [flat] in Hb.
      * destruct (IH (buf ++ c :: cs)) as (buf' & s' & E & Hr & Hc).
        { rewrite <- app_assoc. exact Hb. }
        exists buf', s'. split_and!; [done|done|]. rewrite length_app in Hc. cbn [in_bytes length] in *. lia.
      * rewrite app_nil_r in Hb. subst buf. rewrite length_app in Hcut. cbn in Hcut. lia.
      * rewrite app_nil_r in Hb. subst buf. rewrite length_app in Hcut. cbn in Hcut. lia.
Qed.

Lemma readLine_reads b line rest :
  m_sock b = true -> Forall (fun c => c <> CR) line -> Z.of_nat (length line) <= 8190 ->
  avail b = line ++ CR :: LF :: rest ->
  exists b', readLine b = (Some line, b') /\ avail b' = rest /\ same_reader b b' /\
    (bytes_left b' + length line + 2 = bytes_left b)%nat.
Proof.
  intros Hs Hl Hlen Ha. destruct (line_loop_reads (m_in b) (m_buf b) line rest Hl Hlen Ha) as (buf' & s' & E & Hr & Hc).
  exists ((b <| m_buf := buf' |>) <| m_in := s' |>). unfold readLine. rewrite Hs, E.
  split_and!; [done|exact Hr|by split|exact Hc].
Qed.

(** ** Hexadecimal lengths *)

Lemma hex_digit_ok d : 0 <= d < 16 ->
  is_hex (hex_digit d) = true /\ hex_val (hex_digit d) = d /\ hex_digit d <> CR /\ Ascii.eqb (hex_digit d) ";" = false.
Proof.
  intros H. assert (E : d ∈ [0;1;2;3;4;5;6;7;8;9;10;11;12;13;14;15]).
  { rewrite !elem_of_cons. lia. }
  clear H. revert d E. apply Forall_forall. repeat constructor; by vm_compute.
Qed.

Definition hex_value (v : Z) (l : list ascii) : Z := fold_left (fun v c => v * 16 + hex_val c) l v.

Lemma hex_digits_spec fuel z acc : 0 <= z < 16 ^ Z.of_nat fuel ->
  exists ds, hex_digits fuel z acc = ds ++ acc /\ (fuel <> O -> ds <> []) /\ (length ds <= fuel)%nat /\
    Forall (fun c => is_hex c = true /\ c <> CR /\ Ascii.eqb c ";" = false) ds /\
    forall v, hex_value v ds = v * 16 ^ Z.of_nat (length ds) + z.
Proof.
  revert z acc. induction fuel as [|f IH]; intros z acc Hz.
  { exists []. split_and!; try done. intros v. cbn in *. lia. }
  cbn [hex_digits]. pose proof (Z.mod_pos_bound z 16 ltac:(lia)) as Hm.
  pose proof (Z_div_mod_eq_full z 16) as Hd.
  destruct (hex_digit_ok _ Hm) as (D1 & D2 & D3 & D4). btest (z / 16 =? 0).
  - exists [hex_digit (z mod 16)]. split_and!; try done; [cbn; lia|by repeat constructor|].
    intros v. unfold hex_value; cbn [fold_left length]. rewrite D2. lia.
  - destruct (IH (z / 16) (hex_digit (z mod 16) :: acc)) as (ds & E & _ & Hl & Hf & Hv).
    { split; [apply Z.div_pos; lia|]. apply Z.div_lt_upper_bound; [lia|].
      rewrite Nat2Z.inj_succ, Z.pow_succ_r in Hz by lia. lia. }
    exists (ds ++ [hex_digit (z mod 16)]). split_and!.
    + by rewrite E, <- app_assoc.
    + by destruct ds.
    + rewrite length_app. cbn. lia.
    + apply Forall_app. split; [done|by repeat constructor].
    + intros v. unfold hex_value in *. rewrite fold_left_app, Hv. cbn [fold_left]. rewrite D2, length_app.
      cbn [length]. rewrite Nat2Z.inj_add, Z.pow_add_r by lia. change (16 ^ Z.of_nat 1) with 16. lia.
Qed.

Lemma before_semi_id l : Forall (fun c => Ascii.eqb c ";" = false) l -> before_semi l = l.
Proof. induction 1 as [|c l Hc _ IH]; [done|]. cbn. by rewrite Hc, IH. Qed.

Lemma chunk_len_to_hex z : 0 <= z <= UINT64_MAX ->
  chunk_len (to_hex z) = Some z /\ Forall (fun c => c <> CR) (to_hex z) /\ Z.of_nat (length (to_hex z)) <= 16.
Proof.
  intros Hz. unfold to_hex. destruct (hex_digits_spec 16 z []) as (ds & E & Hne & Hl & Hf & Hv).
  { change (16 ^ Z.of_nat 16) with (2 ^ 64). unfold UINT64_MAX in Hz. lia. }
  rewrite E, app_nil_r. split_and!; [|by eapply Forall_impl; [exact Hf|]; cbn; tauto|lia].
  unfold chunk_len. rewrite before_semi_id by (eapply Forall_impl; [exact Hf|]; cbn; tauto).
  destruct ds as [|c ds]; [by destruct (Hne ltac:(done))|].
  replace (forallb is_hex (c :: ds)) with true
    by (symmetry; apply forallb_forall; intros x Hx%list_elem_of_In; by eapply Forall_forall in Hx; [|exact Hf]; destruct Hx).
  specialize (Hv 0). unfold hex_value in Hv. rewrite Hv, Z.mul_0_l, Z.add_0_l.
  by replace (z >? UINT64_MAX) with false by zcmp.
Qed.

Lemma hex_val_nonneg c : is_hex c = true -> 0 <= hex_val c.
Proof.
  unfold is_hex, hex_val. destruct (isdigit c) eqn:E1; intros H.
  - unfold isdigit in E1. b2p. lia.
  - cbn [orb] in H. apply orb_true_iff in H as [H|H]; b2p; btest (97 <=? code c); lia.
Qed.

Lemma chunk_len_nonneg line n : chunk_len line = Some n -> 0 <= n.
Proof.
  unfold chunk_len. destruct (before_semi line) as [|c l]; [done|]. destruct (forallb _ _) eqn:Eh; [|done].
  assert (G : forall k w, 0 <= w -> forallb is_hex k = true -> 0 <= hex_value w k).
  { intros k. induction k as [|x k IH]; intros w Hw Hk; [done|].
    change (is_hex x && forallb is_hex k = true) in Hk. b2p.
    apply (IH (w * 16 + hex_val x)); [|done]. pose proof (hex_val_nonneg x ltac:(done)). lia. }
  pose proof (G (c :: l) 0 ltac:(lia) Eh) as Hv. unfold hex_value in Hv.
  destruct (_ >? UINT64_MAX); [done|]. by intros [= <-].
Qed.

(** ** Reading what was encoded *)

(** The chunks [ds] and the end of the body. *)
Definition encoded (ds : list (list ascii)) : list ascii :=
  List.concat (map (encodeChunk F_CHUNKED) ds) ++ encodeEnd F_CHUNKED.

(** The bytes still to be read of a chunk that has [left] to give before [ds]. *)
Definition pending (left : list ascii) (ds : list (list ascii)) : list ascii :=
  match left with [] => encoded ds | _ => left ++ [CR; LF] ++ encoded ds end.

Definition block_ok (d : list ascii) : Prop := d <> [] /\ Z.of_nat (length d) < 2 ^ 31.

Lemma some_bytes_reads b : m_sock b = true -> avail b <> [] ->
  exists b', some_bytes b = (None, b') /\ avail b' = avail b /\ same_reader b b' /\ m_buf b' <> [].
Proof.
  intros Hs Ha. unfold some_bytes, avail in *. destruct (m_buf b) as [|c l] eqn:Eb.
  - rewrite Hs. cbn [negb]. unfold fill. destruct (m_in b) as [|[c cs| |] s] eqn:Ei; cbn [flat] in *; try done.
    assert (Hp : 0 < 1 + Z.of_nat (length cs)) by lia. apply Z.leb_gt in Hp. rewrite Hp.
    eexists. split; [reflexivity|]. cbn. rewrite Eb. split_and!; [done|by split|done].
  - exists b. rewrite Eb. split_and!; [done|done|by split|done].
Qed.

(** [ensure(2)] when the two bytes are to come. *)
Lemma ensure_loop_reads n s buf : (n <= length (buf ++ flat s))%nat ->
  exists buf' s', ensure_loop n s buf = (true, buf', s') /\ buf' ++ flat s' = buf ++ flat s /\ (n <= length buf')%nat.
Proof.
  revert buf. induction s as [|i s IH]; intros buf Hn; cbn [ensure_loop].
  - cbn in Hn. rewrite app_nil_r in Hn. replace (n <=? length buf)%nat with true by (symmetry; by apply Nat.leb_le).
    exists buf, []. done.
  - destruct (n <=? length buf)%nat eqn:E; b2p; [by exists buf, (i :: s)|].
    destruct i as [c cs| |]; cbn [flat] in Hn; [|rewrite app_nil_r in Hn; lia|rewrite app_nil_r in Hn; lia].
    destruct (IH (buf ++ c :: cs)) as (buf' & s' & E1 & E2 & E3); [rewrite <- app_assoc; exact Hn|].
    exists buf', s'. split_and!; [done| |done]. rewrite E2, <- app_assoc. done.
Qed.

Lemma ensure_reads n b : m_sock b = true -> (n <= length (avail b))%nat ->
  exists b', ensure n b = (true, b') /\ avail b' = avail b /\ same_reader b b' /\ (n <= length (m_buf b'))%nat.
Proof.
  intros Hs Hn. unfold ensure. destruct (n <=? length (m_buf b))%nat eqn:E; b2p.
  { exists b. split_and!; [done|done|by split|done]. }
  rewrite Hs. cbn [negb]. destruct (ensure_loop_reads n (m_in b) (m_buf b) Hn) as (buf' & s' & -> & E2 & E3).
  eexists. split; [reflexivity|]. split_and!; [exact E2|by split|exact E3].
Qed.

Lemma same_reader_refl b : same_reader b b.
Proof. by split. Qed.

(** What is consumed of the buffer is consumed of the stream. *)
Lemma consume_avail n b : (n <= length (m_buf b))%nat ->
  avail (consume n b) = drop n (avail b) /\ take n (m_buf b) = take n (avail b) /\ same_reader b (consume n b).
Proof.
  intros Hn. unfold avail, consume; cbn. rewrite drop_app_le, take_app_le by lia. split_and!; [done|done|by split].
Qed.

Lemma same_reader_trans b1 b2 b3 : same_reader b1 b2 -> same_reader b2 b3 -> same_reader b1 b3.
Proof. intros [] []. split; congruence. Qed.

(** The reader has read to a place in the stream and has [n] bytes of a chunk to give. *)
Record reading_at (b : BodyReader) (n : Z) (ds : list (list ascii)) (stream : list ascii) : Prop := {
  ra_framing : m_framing b = F_CHUNKED; ra_sock : m_sock b = true; ra_finished : m_finished b = false;
  ra_error : m_error b = false; ra_left : m_chunk_left b = n; ra_avail : avail b = stream;
  ra_total : 0 <= m_totalRead b /\ m_totalRead b + Z.of_nat (length (List.concat ds)) <= m_maxBodySize b <= UINT64_MAX }.

Lemma reading_at_same b b' n ds s s' :
  reading_at b n ds s -> same_reader b b' -> avail b' = s' -> reading_at b' n ds s'.
Proof.
  intros [R1 R2 R3 R4 R5 R6 R7] [S1 S2 S3 S4 S5 S6 S7 S8 S9] Ha. split; try congruence.
Qed.

Lemma reading_at_left b n m ds s : reading_at b n ds s -> reading_at (b <| m_chunk_left := m |>) m ds s.
Proof. by intros []. Qed.

Definition reading (b : BodyReader) (left : list ascii) (ds : list (list ascii)) (rest : list ascii) : Prop :=
  reading_at b (Z.of_nat (length left)) ds (pending left ds ++ rest).

Lemma pending_cons left ds : left <> [] -> pending left ds = left ++ [CR; LF] ++ encoded ds.
Proof. by destruct left. Qed.

Lemma chunk_crlf_reads rt out b ds stream :
  reading_at b 0 ds (CR :: LF :: stream) ->
  exists b', chunk_crlf rt out b = (rt, out, b') /\ reading_at b' 0 ds stream.
Proof.
  intros HR. destruct (ensure_reads 2 b (ra_sock _ _ _ _ HR)) as (b1 & E & A & Sm & L);
    [rewrite (ra_avail _ _ _ _ HR); cbn; lia|].
  unfold chunk_crlf. rewrite E. rewrite (ra_avail _ _ _ _ HR) in A.
  destruct (m_buf b1) as [|c [|d l]] eqn:Eb; [cbn in L; lia|cbn in L; lia|].
  destruct (consume_avail 2 b1) as (C1 & _ & C2); [rewrite Eb; cbn; lia|].
  assert (Hcd : c = CR /\ d = LF) by (unfold avail in A; rewrite Eb in A; by injection A as -> -> _).
  destruct Hcd as [-> ->]. rewrite !Ascii.eqb_refl. cbn [andb]. exists (consume 2 b1). split; [done|].
  eapply reading_at_same; [exact HR|by eapply same_reader_trans|]. by rewrite C1, A.
Qed.

(** A block is read, whole or in part; the CRLF after a whole one is checked. *)
Lemma chunk_data_reads out b left ds rest :
  left <> [] -> Z.of_nat (length left) < 2 ^ 31 -> reading b left ds rest ->
  exists got left' b', chunk_data out b = (Z.of_nat (length got), out ++ got, b') /\ got <> [] /\
    left = got ++ left' /\ reading b' left' ds rest.
Proof.
  intros Hne Hlen HR. unfold reading in HR. rewrite pending_cons, <- app_assoc in HR by done.
  destruct (some_bytes_reads b (ra_sock _ _ _ _ HR)) as (b1 & E1 & A1 & S1 & N1);
    [rewrite (ra_avail _ _ _ _ HR); by destruct left|].
  pose proof (reading_at_same _ b1 _ _ _ _ HR S1 eq_refl) as HR1. rewrite A1, (ra_avail _ _ _ _ HR) in HR1.
  unfold chunk_data. rewrite E1, (ra_left _ _ _ _ HR1).
  set (n := Z.min (Z.of_nat (length (m_buf b1))) (Z.of_nat (length left))).
  set (k := Z.to_nat n). cbn [give].
  assert (Hk : (k <= length (m_buf b1))%nat /\ (k <= length left)%nat /\ Z.of_nat k = n /\ 0 < n).
  { unfold k, n. destruct (m_buf b1), left; try done. cbn [length]. lia. }
  destruct Hk as (Hkb & Hkl & Hkn & Hn). destruct (consume_avail k b1 Hkb) as (C1 & C2 & C3).
  rewrite (ra_avail _ _ _ _ HR1) in C1, C2. rewrite drop_app_le in C1 by lia. rewrite take_app_le in C2 by lia.
  rewrite C2. pose proof (reading_at_same _ _ _ _ _ _ HR1 C3 C1) as HR2. rewrite (ra_left _ _ _ _ HR2).
  assert (Hgot : Z.of_nat (length (take k left)) = n) by (rewrite length_take; lia).
  replace (Z.of_nat (length left) - n) with (Z.of_nat (length (drop k left))) by (rewrite length_drop; lia).
  apply (reading_at_left _ _ (Z.of_nat (length (drop k left)))) in HR2.
  rewrite wrap_int32_id by lia. rewrite <- Hgot.
  assert (Hg : take k left <> []) by (intros E; rewrite E in Hgot; cbn in Hgot; lia).
  cbn [m_chunk_left set]. 
  match goal with |- context [if ?t =? 0 then _ else _] => replace t with (Z.of_nat (length (drop k left))) by done end.
  btest (Z.of_nat (length (drop k left)) =? 0).
  - assert (Hd : drop k left = []) by (destruct (drop k left); [done|cbn in *; lia]). rewrite Hd in HR2 |- *.
    destruct (chunk_crlf_reads (Z.of_nat (length (take k left))) (out ++ take k left) _ _ _ HR2) as (b3 & E3 & HR3).
    exists (take k left), [], b3. split_and!; [exact E3|done| |exact HR3].
    by rewrite <- Hd, take_drop.
  - exists (take k left), (drop k left). eexists. split; [reflexivity|]. split_and!; [done|by rewrite take_drop|].
    unfold reading. rewrite pending_cons, <- app_assoc by (intros E; rewrite E in *; cbn in *; lia). exact HR2.
Qed.

Lemma encoded_cons d ds : encoded (d :: ds)
  = to_hex (Z.of_nat (length d)) ++ CR :: LF :: d ++ [CR; LF] ++ encoded ds.
Proof. unfold encoded. cbn [map List.concat encodeChunk]. by rewrite <- !app_assoc. Qed.

(** The length line of the next block is read and accounted for. *)
Lemma next_block out b d ds rest : block_ok d -> reading b [] (d :: ds) rest ->
  exists b', readChunked out b = chunk_data out b' /\ reading b' d ds rest.
Proof.
  intros [Hne Hlen] HR. unfold reading in HR. cbn [length pending] in HR. rewrite encoded_cons in HR.
  pose proof HR as [R1 R2 R3 R4 R5 R6 [R7 R8]]. unfold readChunked. rewrite R5. cbn [Z.eqb Z.of_nat].
  destruct (chunk_len_to_hex (Z.of_nat (length d))) as (H1 & H2 & H3); [unfold UINT64_MAX; lia|].
  rewrite <- app_assoc in R6. cbn [app] in R6.
  destruct (readLine_reads b _ _ R2 H2 ltac:(lia) R6) as (b1 & E & A & Sm & _). rewrite E, H1.
  replace (Z.of_nat (length d) =? 0) with false by (destruct d; [done|cbn [length]; zcmp]).
  unfold accountBytes. cbn [List.concat] in R8. rewrite length_app in R8.
  rewrite (sr_total _ _ Sm), (sr_max _ _ Sm).
  replace (Z.of_nat (length d) >? m_maxBodySize b) with false by zcmp.
  replace (m_totalRead b >? m_maxBodySize b - Z.of_nat (length d)) with false by zcmp. cbn [orb].
  eexists. split; [reflexivity|]. unfold reading. rewrite pending_cons by done.
  destruct Sm as [S1 S2 S3 S4 S5 S6 S7 S8 S9]. split; cbn; try congruence.
  - rewrite <- !app_assoc in A. rewrite <- !app_assoc. exact A.
  - rewrite S8. lia.
Qed.

(** Each call gives some more of the blocks, in order. *)
Lemma readChunk_reads out b left ds rest :
  (left <> [] \/ ds <> []) -> Z.of_nat (length left) < 2 ^ 31 -> Forall block_ok ds -> reading b left ds rest ->
  exists got left' ds' b', readChunk out b = (Z.of_nat (length got), out ++ got, b') /\ got <> [] /\
    left ++ List.concat ds = got ++ left' ++ List.concat ds' /\ Z.of_nat (length left') < 2 ^ 31 /\
    Forall block_ok ds' /\ reading b' left' ds' rest.
Proof.
  intros Hor Hlen Hds HR. pose proof HR as [R1 R2 R3 R4 R5 R6 R7].
  unfold readChunk. rewrite R3, R4, R1.
  destruct left as [|c left0].
  - destruct ds as [|d ds]; [by destruct Hor|]. apply Forall_cons in Hds as [Hd Hds].
    destruct (next_block out b d ds rest Hd HR) as (b1 & E & HR1). rewrite E. destruct Hd as [Hdne Hdl].
    destruct (chunk_data_reads out b1 d ds rest Hdne Hdl HR1) as (got & left' & b' & E2 & Hg & Hs & HR2).
    exists got, left', ds, b'. split_and!; try done.
    + cbn [List.concat app]. by rewrite Hs, <- app_assoc.
    + rewrite Hs, length_app in Hdl. lia.
  - set (left := c :: left0) in *. unfold readChunked. rewrite R5.
    replace (Z.of_nat (length left) =? 0) with false by (unfold left; cbn [length]; zcmp).
    destruct (chunk_data_reads out b left ds rest) as (got & left' & b' & E2 & Hg & Hs & HR2); [done|done|done|].
    exists got, left', ds, b'. split_and!; try done.
    + by rewrite Hs, <- app_assoc.
    + rewrite Hs, length_app in Hlen. lia.
Qed.

Lemma readChunk_ends out b rest : reading b [] [] rest ->
  exists b', readChunk out b = (0, out, b') /\ avail b' = rest /\ m_finished b' = true /\ m_error b' = false.
Proof.
  intros [R1 R2 R3 R4 R5 R6 R7]. cbn [pending encoded map List.concat app length] in *.
  unfold readChunk. rewrite R3, R4, R1. unfold readChunked. rewrite R5. cbn [Z.eqb Z.of_nat].
  destruct (readLine_reads b ["0"%char] (CR :: LF :: rest) R2) as (b1 & E1 & A1 & S1 & _);
    [by repeat constructor|cbn; lia|exact R6|].
  rewrite E1. replace (chunk_len ["0"%char]) with (Some 0) by by vm_compute. cbn [Z.eqb].
  unfold kMaxTrailerLines. cbn [trailers].
  destruct (readLine_reads b1 [] rest) as (b2 & E2 & A2 & S2 & _);
    [by rewrite (sr_sock _ _ S1)|constructor|cbn; lia|exact A1|].
  rewrite E2. exists (finish b2). split_and!; [done|exact A2|done|].
  cbn. by rewrite (sr_error _ _ S2), (sr_error _ _ S1).
Qed.

Lemma read_all_reads fuel out b left ds rest :
  (length (left ++ List.concat ds) < fuel)%nat -> Z.of_nat (length left) < 2 ^ 31 -> Forall block_ok ds ->
  reading b left ds rest ->
  exists b', read_all fuel out b = Some (0, out ++ left ++ List.concat ds, b') /\ avail b' = rest /\
    m_finished b' = true /\ m_error b' = false.
Proof.
  revert out b left ds. induction fuel as [|fuel IH]; intros out b left ds Hf Hlen Hds HR; [lia|]. cbn [read_all].
  assert (Hc : (left = [] /\ ds = []) \/ (left <> [] \/ ds <> [])) by (destruct left, ds; auto; right; by (left + right)).
  destruct Hc as [[-> ->]|Hor].
  - destruct (readChunk_ends out b rest HR) as (b' & -> & Hb). cbn [Z.gtb Z.compare List.concat app].
    rewrite app_nil_r. by exists b'.
  - destruct (readChunk_reads out b left ds rest Hor Hlen Hds HR) as (got & left' & ds' & b' & E & Hg & Hs & Hl' & Hd' & HR').
    rewrite E. replace (Z.of_nat (length got) >? 0) with true by (destruct got; [done|cbn [length]; zcmp]).
    rewrite Hs in Hf |- *. rewrite length_app in Hf.
    destruct (IH (out ++ got) b' left' ds') as (b2 & E2 & K); [destruct got; [done|cbn in Hf; lia]|done|done|done|].
    exists b2. split; [|done]. rewrite E2. by rewrite <- app_assoc.
Qed.

(** C34: what [BodyEncoder] frames in chunks, [BodyReader] gives back: however the
    network cuts the stream, reading to the end gives exactly the blocks' bytes in
    order, ends without an error, and leaves every byte that follows the body (the
    next request of the connection) unread. The number of calls needed is at most
    one more than the bytes of the body. *)
Theorem chunked_roundtrip ds rest buf script :
  Forall block_ok ds -> Z.of_nat (length (List.concat ds)) <= UINT64_MAX ->
  buf ++ flat script = List.concat (map (encodeChunk F_CHUNKED) ds) ++ encodeEnd F_CHUNKED ++ rest ->
  exists b', read_all (S (length (List.concat ds))) [] (reader_init F_CHUNKED 0 buf script true)
             = Some (0, List.concat ds, b') /\
    avail b' = rest /\ m_finished b' = true /\ m_error b' = false.
Proof.
  intros Hds Hlen Hs. apply (read_all_reads _ [] _ [] ds rest); [cbn [app]; lia|done|done|].
  split; try done. rewrite app_assoc in Hs. exact Hs.
Qed.

(** ** Reading ends, and within the bounds *)

Fixpoint datas (s : list Input) : list ascii :=
  match s with
  | [] => []
  | I_DATA c cs :: s => c :: cs ++ datas s
  | _ :: s => datas s
  end.

Definition stream (b : BodyReader) : list ascii := m_buf b ++ datas (m_in b).

(** [b'] is [b] with [gone] taken off the stream; only the error and the end may
    differ besides. *)
Record adv (gone : list ascii) (b b' : BodyReader) : Prop := {
  ad_framing : m_framing b' = m_framing b; ad_remaining : m_remaining b' = m_remaining b;
  ad_total : m_totalRead b' = m_totalRead b; ad_max : m_maxBodySize b' = m_maxBodySize b;
  ad_left : m_chunk_left b' = m_chunk_left b; ad_stream : stream b = gone ++ stream b' }.

Lemma adv_refl b : adv [] b b.
Proof. by split. Qed.

Lemma adv_trans g1 g2 b1 b2 b3 : adv g1 b1 b2 -> adv g2 b2 b3 -> adv (g1 ++ g2) b1 b3.
Proof. intros [] []. split; try congruence. rewrite <- app_assoc. congruence. Qed.

Lemma adv_setError g code b b' : adv g b b' -> adv g b (setError code b').
Proof. intros []. unfold setError. destruct (no_error _); by split. Qed.

Lemma adv_finish g b b' : adv g b b' -> adv g b (finish b').
Proof. intros []. by split. Qed.

Lemma setError_error code b : m_error (setError code b) = true.
Proof. unfold setError. by destruct (no_error _). Qed.

Lemma adv_fill b : adv [] b (fill b).2 /\ ((fill b).1 > 0 -> m_buf (fill b).2 <> []).
Proof.
  unfold fill. destruct (m_in b) as [|[c cs| |] s] eqn:E; cbn; (split; [|try lia]).
  - apply adv_refl.
  - split; try done. unfold stream; cbn. rewrite E. cbn. by rewrite <- app_assoc.
  - intros _. by destruct (m_buf b).
  - split; try done. unfold stream; cbn. by rewrite E.
  - split; try done. unfold stream; cbn. by rewrite E.
Qed.

Lemma adv_some_bytes b :
  adv [] b (some_bytes b).2 /\ ((some_bytes b).1 = None -> m_buf (some_bytes b).2 <> []).
Proof.
  unfold some_bytes. destruct (m_buf b) as [|c l] eqn:Eb; [|cbn; split; [apply adv_refl|by rewrite Eb]].
  destruct (negb (m_sock b)); [cbn; split; [apply adv_refl|done]|].
  pose proof (adv_fill b) as [H1 H2]. destruct (fill b) as [rt b']. cbn in *.
  btest (rt <=? 0); cbn; split; try done. intros _. apply H2. lia.
Qed.

Lemma find_crlf_split l line rest : find_crlf l = Some (line, rest) -> l = (line ++ [CR; LF]) ++ rest.
Proof.
  revert line. induction l as [|a l IH]; intros line H; [done|]. cbn in H. destruct l as [|b l]; [done|].
  destruct (Ascii.eqb a CR && Ascii.eqb b LF) eqn:E.
  - b2p. injection H as <- <-.
    repeat match goal with H : Ascii.eqb _ _ = true |- _ => apply Ascii.eqb_eq in H end. by subst.
  - destruct (find_crlf (b :: l)) as [[line' r]|]; [|done]. injection H as <- <-.
    rewrite (IH line' eq_refl). done.
Qed.

Lemma line_loop_gone sock s buf :
  exists gone, buf ++ datas s = gone ++ (line_loop sock s buf).1.2 ++ datas (line_loop sock s buf).2.
Proof.
  revert buf. induction s as [|i s IH]; intros buf; cbn [line_loop];
    (destruct (find_crlf buf) as [[line rest]|] eqn:E;
      [apply find_crlf_split in E; exists (line ++ [CR; LF]); cbn; by rewrite E, <- app_assoc|]);
    (destruct (_ >? 8192); [by exists []|]); (destruct (negb sock); [by exists []|]).
  - by exists [].
  - destruct i as [c cs| |]; cbn [datas]; [|by exists []|by exists []].
    destruct (IH (buf ++ c :: cs)) as [gone Hg]. exists gone. rewrite <- Hg, <- app_assoc. done.
Qed.

Lemma adv_readLine b : exists gone, adv gone b (readLine b).2.
Proof.
  unfold readLine. destruct (line_loop_gone (m_sock b) (m_in b) (m_buf b)) as [gone Hg].
  destruct (line_loop _ _ _) as [[r buf] s]. cbn in Hg. exists gone.
  destruct r as [line|code]; cbn; [|apply adv_setError]; by split.
Qed.

Lemma readLine_error b : (readLine b).1 = None -> m_error (readLine b).2 = true.
Proof.
  unfold readLine. destruct (line_loop _ _ _) as [[[line|code] buf] s]; cbn; [done|]. intros _. apply setError_error.
Qed.

Lemma adv_ensure n b : adv [] b (ensure n b).2 /\ ((ensure n b).1 = false -> m_error (ensure n b).2 = true).
Proof.
  unfold ensure. destruct (n <=? length (m_buf b))%nat; [by split; [apply adv_refl|]|].
  destruct (negb (m_sock b)); [split; [apply adv_setError, adv_refl|intros _; apply setError_error]|].
  assert (G : forall s buf, buf ++ datas s = (ensure_loop n s buf).1.2 ++ datas (ensure_loop n s buf).2).
  { induction s as [|i s IH]; intros buf; cbn [ensure_loop]; destruct (_ <=? _)%nat; try done.
    destruct i as [c cs| |]; cbn [datas]; [|done|done]. rewrite <- IH, <- app_assoc. done. }
  specialize (G (m_in b) (m_buf b)). destruct (ensure_loop n (m_in b) (m_buf b)) as [[ok buf] s]. cbn in G.
  assert (A : adv [] b ((b <| m_buf := buf |>) <| m_in := s |>)) by (split; done || exact G).
  destruct ok; cbn; split; try done; [by apply adv_setError|intros _; apply setError_error].
Qed.

Lemma adv_trailers k b : exists gone, adv gone b (trailers k b).2 /\ (trailers k b).1 <= 0 /\
  ((trailers k b).1 < 0 -> m_error (trailers k b).2 = true).
Proof.
  revert b. induction k as [|k IH]; intros b; cbn [trailers]; destruct (adv_readLine b) as [gone Hg];
    destruct (readLine b) as [[[|c line]|] b1]; cbn in Hg |- *;
    try (exists gone; split_and!; [by apply adv_finish|lia|lia]).
  - exists gone. split_and!; [by apply adv_finish, adv_setError|lia|intros _; apply setError_error].
  - destruct (IH b1) as (g2 & H1 & H2 & H3). exists (gone ++ g2). split_and!; [by eapply adv_trans|done|done].
Qed.

(** Handing out [n] bytes takes them off the stream. *)
Lemma adv_give n out b : (n <= length (m_buf b))%nat ->
  exists got, (give n out b).1 = out ++ got /\ length got = n /\ adv got b (give n out b).2.
Proof.
  intros Hn. exists (take n (m_buf b)). cbn. split_and!; [done|rewrite length_take; lia|].
  split; try done. unfold stream, consume; cbn. by rewrite app_assoc, take_drop.
Qed.

(** Between two calls that gave bytes. *)
Record good (fr : BodyFraming) (clen mx : Z) (out : list ascii) (b : BodyReader) : Prop := {
  gd_framing : m_framing b = fr; gd_max : m_maxBodySize b = mx; gd_error : m_error b = false;
  gd_left : 0 <= m_chunk_left b; gd_small : Z.of_nat (length (stream b)) < 2 ^ 31;
  gd_total : Z.of_nat (length out) + m_chunk_left b <= m_totalRead b <= mx;
  gd_clen : fr = F_CONTENT_LENGTH -> 0 <= m_remaining b /\ Z.of_nat (length out) + m_remaining b = clen /\
    (m_finished b = true -> m_remaining b = 0) }.

(** What a call leaves behind. *)
Definition call_post (fr : BodyFraming) (clen mx : Z) (out : list ascii) (b : BodyReader)
    (r : Z * list ascii * BodyReader) : Prop :=
  let '(rt, out', b') := r in
  exists gone, stream b = gone ++ stream b' /\ Z.of_nat (length out') <= mx /\
    (fr <> F_CHUNKED -> out' = out ++ gone) /\
    (fr = F_CONTENT_LENGTH -> Z.of_nat (length out') <= clen /\ (rt = 0 -> Z.of_nat (length out') = clen)) /\
    (rt > 0 -> gone <> [] /\ good fr clen mx out' b') /\ (rt < 0 -> m_error b' = true).

Section calls.
Context (fr : BodyFraming) (clen mx : Z).

(** A call that fails after taking [gone] off the stream. *)
Lemma call_fails out b b' gone : good fr clen mx out b -> stream b = gone ++ stream b' ->
  (fr <> F_CHUNKED -> gone = []) -> m_error b' = true -> call_post fr clen mx out b (-1, out, b').
Proof.
  intros [_ _ _ Hl _ Ht Hc] Hs Hg He. exists gone.
  split_and!; [done|lia|intros Hf; by rewrite (Hg Hf), app_nil_r| |done|done].
  intros Hf. destruct (Hc Hf) as (? & ? & _). split; lia.
Qed.

(** A call that ends the body. *)
Lemma call_ends out b b' gone : good fr clen mx out b -> stream b = gone ++ stream b' ->
  (fr <> F_CHUNKED -> gone = []) -> (fr = F_CONTENT_LENGTH -> m_remaining b = 0) ->
  call_post fr clen mx out b (0, out, b').
Proof.
  intros [_ _ _ Hl _ Ht Hc] Hs Hg Hr. exists gone.
  split_and!; [done|lia|intros Hf; by rewrite (Hg Hf), app_nil_r| |done|done].
  intros Hf. destruct (Hc Hf) as (? & ? & _). specialize (Hr Hf). lia.
Qed.

(** A call that gives [got]. *)
Lemma call_gives out b b' gone got : good fr clen mx out b -> stream b = gone ++ stream b' ->
  got <> [] -> (length got <= length gone)%nat -> (fr <> F_CHUNKED -> gone = got) ->
  m_framing b' = fr -> m_maxBodySize b' = mx -> m_error b' = false -> 0 <= m_chunk_left b' ->
  Z.of_nat (length (out ++ got)) + m_chunk_left b' <= m_totalRead b' <= mx ->
  (fr = F_CONTENT_LENGTH -> 0 <= m_remaining b' /\ m_remaining b' = m_remaining b - Z.of_nat (length got) /\
    (m_finished b' = true -> m_remaining b' = 0)) ->
  call_post fr clen mx out b (wrap_int32 (Z.of_nat (length got)), out ++ got, b').
Proof.
  intros HG Hs Hne Hle Hgg H1 H2 H3 H4 H5 H6. pose proof (gd_small _ _ _ _ _ HG) as Hsm.
  rewrite Hs, length_app in Hsm. rewrite wrap_int32_id by lia.
  assert (Hpos : 0 < Z.of_nat (length got)) by (destruct got; [done|cbn [length]; lia]).
  assert (Hc : fr = F_CONTENT_LENGTH -> Z.of_nat (length (out ++ got)) + m_remaining b' = clen).
  { intros Hf. destruct (gd_clen _ _ _ _ _ HG Hf) as (_ & Hc & _). destruct (H6 Hf) as (_ & Hr & _).
    rewrite length_app. lia. }
  exists gone. split_and!; [done|lia|intros Hf; by rewrite (Hgg Hf)| | |lia].
  - intros Hf. specialize (Hc Hf). destruct (H6 Hf) as (? & _). split; lia.
  - intros _. split; [intros ->; cbn in Hle; lia|]. split; try done; [lia|].
    intros Hf. destruct (H6 Hf) as (? & _ & ?). split_and!; [done|by apply Hc|done].
Qed.

(** The flags a call keeps as long as nothing goes wrong. *)
Definition quiet (b b' : BodyReader) : Prop := m_error b' = m_error b /\ m_finished b' = m_finished b.

Lemma some_bytes_post out b rt b1 : good fr clen mx out b -> some_bytes b = (rt, b1) ->
  match rt with
  | Some _ => call_post fr clen mx out b (-1, out, finish (setError RE_IO b1))
  | None => adv [] b b1 /\ quiet b b1 /\ m_buf b1 <> []
  end.
Proof.
  intros HG E. pose proof (adv_some_bytes b) as [A N]. rewrite E in A, N. cbn in A, N.
  destruct rt as [rt|].
  - apply call_fails with []; [done| |done|apply setError_error].
    apply (ad_stream _ _ _ (adv_finish _ _ _ (adv_setError _ RE_IO _ _ A))).
  - split_and!; [done| |by apply N]. revert E. unfold some_bytes, fill, quiet.
    destruct (m_buf b); [|by intros [= <-]]. destruct (negb _); [done|].
    destruct (m_in b) as [|[c cs| |] s]; cbn -[Z.leb]; try done. destruct (_ <=? _); [done|by intros [= <-]].
Qed.

Lemma accountBytes_spec n b : let '(ok, b') := accountBytes n b in
  if ok then b' = b <| m_totalRead := m_totalRead b + n |> /\ m_totalRead b + n <= m_maxBodySize b
  else m_error b' = true /\ adv [] b b'.
Proof.
  unfold accountBytes. destruct (_ || _) eqn:E.
  - split; [apply setError_error|]. apply adv_finish, adv_setError, adv_refl.
  - b2p. split; [done|lia].
Qed.

(** Handing out what was accounted for. *)
Lemma give_post n out b1 : 0 < n -> n <= Z.of_nat (length (m_buf b1)) ->
  exists got b2, give (Z.to_nat n) out b1 = (out ++ got, b2) /\ Z.of_nat (length got) = n /\ got <> [] /\
    adv got b1 b2 /\ quiet b1 b2.
Proof.
  intros Hn Hl. destruct (adv_give (Z.to_nat n) out b1) as (got & Eg & Lg & A); [lia|].
  exists got, (give (Z.to_nat n) out b1).2. split_and!; [by rewrite <- Eg|lia|intros ->; cbn in Lg; lia|done|done].
Qed.

Lemma read_clen_post out b : fr = F_CONTENT_LENGTH -> m_finished b = false -> good fr clen mx out b ->
  call_post fr clen mx out b (read_clen out b).
Proof.
  intros Hf Hfin HG. destruct (gd_clen _ _ _ _ _ HG Hf) as (Hr & Hc & _). unfold read_clen.
  btest (m_remaining b =? 0); [by apply call_ends with []|].
  destruct (some_bytes b) as [rt b1] eqn:Es. pose proof (some_bytes_post out b rt b1 HG Es) as H.
  destruct rt as [rt|]; [done|]. destruct H as (A & [Q1 Q2] & N).
  rewrite (ad_remaining _ _ _ A). set (n := Z.min (Z.of_nat (length (m_buf b1))) (m_remaining b)).
  assert (Hn : 0 < n <= Z.of_nat (length (m_buf b1))) by (unfold n; destruct (m_buf b1); [done|cbn [length]; lia]).
  pose proof (accountBytes_spec n b1) as HA. destruct (accountBytes n b1) as [[] b2].
  2: { destruct HA as [He A2]. apply call_fails with []; [done|apply (adv_trans _ _ _ _ _ A A2)|done|done]. }
  destruct HA as [-> Hmx].
  destruct (give_post n out (b1 <| m_totalRead := m_totalRead b1 + n |>)) as (got & b3 & -> & Lg & Hne & A2 & [Q3 Q4]);
    [lia|cbn; lia|].
  replace (wrap_int32 n) with (wrap_int32 (Z.of_nat (length got))) by (by rewrite Lg).
  assert (Hrem : m_remaining b3 = m_remaining b) by (rewrite (ad_remaining _ _ _ A2); apply (ad_remaining _ _ _ A)).
  set (b4 := b3 <| m_remaining := _ |>). set (b5 := if m_remaining b4 =? 0 then finish b4 else b4).
  assert (F : m_framing b5 = m_framing b3 /\ m_maxBodySize b5 = m_maxBodySize b3 /\ m_error b5 = m_error b3 /\
    m_chunk_left b5 = m_chunk_left b3 /\ m_totalRead b5 = m_totalRead b3 /\ stream b5 = stream b3 /\
    m_remaining b5 = m_remaining b - n /\ (m_finished b5 = true -> m_remaining b5 = 0)).
  { assert (E4 : m_remaining b4 = m_remaining b - n) by (change (m_remaining b4) with (m_remaining b3 - n); lia).
    assert (E5 : m_finished b4 = false) by (change (m_finished b4) with (m_finished b3); rewrite Q4; cbn; congruence).
    unfold b5. btest (m_remaining b4 =? 0); split_and!; try done; congruence. }
  destruct F as (F1 & F2 & F3 & F4 & F5 & F6 & F7 & F8). destruct HG as [G1 G2 G3 G4 G5 G6 G7].
  destruct A as [A1 A2' A3 A4 A5 A6], A2 as [B1 B2 B3 B4 B5 B6]. cbn in B1, B3, B4, B5, Q3.
  apply call_gives with got; try done; rewrite ?F1, ?F2, ?F3, ?F4, ?F5, ?F6, ?F7; try congruence.
  - etransitivity; [exact A6|exact B6].
  - rewrite B3, B5, A3, A5, length_app. lia.
  - intros _. split_and!; [unfold n; lia|lia|intros H; rewrite <- F7; auto].
Qed.

Lemma give_all_post out b b1 : fr <> F_CHUNKED -> fr <> F_CONTENT_LENGTH -> good fr clen mx out b ->
  adv [] b b1 -> quiet b b1 -> m_buf b1 <> [] -> call_post fr clen mx out b (give_all out b1).
Proof.
  intros Hf1 Hf2 HG A [Q1 Q2] N. unfold give_all. set (n := Z.of_nat (length (m_buf b1))).
  assert (Hn : 0 < n) by (unfold n; destruct (m_buf b1); [done|cbn [length]; lia]).
  pose proof (accountBytes_spec n b1) as HA. destruct (accountBytes n b1) as [[] b2].
  2: { destruct HA as [He A2]. apply call_fails with []; [done|apply (adv_trans _ _ _ _ _ A A2)|done|done]. }
  destruct HA as [-> Hmx].
  destruct (give_post n out (b1 <| m_totalRead := m_totalRead b1 + n |>)) as (got & b3 & -> & Lg & Hne & A2 & [Q3 Q4]);
    [done|by cbn|].
  replace (wrap_int32 n) with (wrap_int32 (Z.of_nat (length got))) by (by rewrite Lg).
  pose proof HG as [G1 G2 G3 G4 G5 G6 G7].
  destruct A as [A1 A2' A3 A4 A5 A6], A2 as [B1 B2 B3 B4 B5 B6]. cbn in B1, B3, B4, B5, Q3.
  apply call_gives with got; try done; try congruence.
  - etransitivity; [exact A6|exact B6].
  - rewrite B3, B5, A3, A5, length_app. lia.
Qed.

Lemma read_until_close_post out b : fr <> F_CHUNKED -> fr <> F_CONTENT_LENGTH -> good fr clen mx out b ->
  call_post fr clen mx out b (read_until_close out b).
Proof.
  intros Hf1 Hf2 HG. unfold read_until_close. destruct (m_buf b) as [|c l] eqn:Eb.
  - destruct (negb (m_sock b)); [by apply call_ends with []|].
    pose proof (adv_fill b) as [A N]. assert (Q : quiet b (fill b).2).
    { unfold fill, quiet. by destruct (m_in b) as [|[] ]. }
    destruct (fill b) as [rt b1]. cbn in A, N, Q.
    btest (rt <? 0).
    + apply call_fails with []; [done| |done|apply setError_error].
      apply (ad_stream _ _ _ (adv_finish _ _ _ (adv_setError _ RE_IO _ _ A))).
    + btest (rt =? 0); [apply call_ends with []; [done|apply (ad_stream _ _ _ (adv_finish _ _ _ A))|done|done]|].
      apply give_all_post; try done. apply N. lia.
  - apply give_all_post; try done; try apply adv_refl. by rewrite Eb.
Qed.

(** In chunks, what a call does after taking framing off the stream. *)
Lemma call_post_before out b b1 gone r : fr = F_CHUNKED -> stream b = gone ++ stream b1 ->
  call_post fr clen mx out b1 r -> call_post fr clen mx out b r.
Proof.
  intros Hf Hs. destruct r as [[rt out'] b']. intros (g & Hg & H1 & H2 & H3 & H4 & H5).
  exists (gone ++ g). split_and!; [by rewrite Hs, Hg, app_assoc|done|done|by rewrite Hf| |done].
  intros Hr. destruct (H4 Hr) as [Hne HG]. split; [|done]. by destruct gone, g.
Qed.

Lemma call_fails_chunked out out' b b' gone : fr = F_CHUNKED -> stream b = gone ++ stream b' ->
  Z.of_nat (length out') <= mx -> m_error b' = true -> call_post fr clen mx out b (-1, out', b').
Proof. intros Hf Hs Hl He. exists gone. split_and!; try done; by rewrite Hf. Qed.

Lemma chunk_crlf_post out got gone b b1 : fr = F_CHUNKED -> good fr clen mx out b ->
  stream b = gone ++ stream b1 -> (length got <= length gone)%nat -> got <> [] ->
  m_framing b1 = fr -> m_maxBodySize b1 = mx -> m_error b1 = false -> m_chunk_left b1 = 0 ->
  Z.of_nat (length (out ++ got)) <= m_totalRead b1 <= mx ->
  call_post fr clen mx out b (chunk_crlf (wrap_int32 (Z.of_nat (length got))) (out ++ got) b1).
Proof.
  intros Hf HG Hs Hle Hne H1 H2 H3 H4 H5. unfold chunk_crlf.
  pose proof (adv_ensure 2 b1) as [A E]. assert (Q : (ensure 2 b1).1 = true -> quiet b1 (ensure 2 b1).2).
  { unfold ensure, quiet. destruct (_ <=? _)%nat; [done|]. destruct (negb _); [done|].
    destruct (ensure_loop _ _ _) as [[[] buf] s]; done. }
  destruct (ensure 2 b1) as [ok b2]. cbn in A, E, Q. pose proof (ad_stream _ _ _ A) as As. cbn in As.
  assert (Hs2 : stream b = gone ++ stream b2) by congruence. destruct ok.
  2: { apply call_fails_chunked with gone; [done|exact Hs2|lia|by apply E]. }
  destruct (Q eq_refl) as [Q1 Q2].
  assert (Hbad : call_post fr clen mx out b (-1, out ++ got, finish (setError RE_MALFORMED b2))).
  { apply call_fails_chunked with gone; [done| |lia|apply setError_error].
    rewrite Hs2. f_equal. unfold setError. by destruct (no_error _). }
  destruct (m_buf b2) as [|c [|d l]] eqn:Eb; [exact Hbad|exact Hbad|].
  destruct (_ && _); [|exact Hbad].
  destruct A as [A1 A2 A3 A4 A5 A6].
  apply call_gives with (gone ++ [c; d]); try done; cbn; try congruence.
  - rewrite Hs2. unfold stream. cbn. by rewrite Eb, <- app_assoc.
  - rewrite length_app. cbn. lia.
  - rewrite A5, H4. lia.
  - rewrite A5, A3, H4. lia.
Qed.

Lemma chunk_data_post out b : fr = F_CHUNKED -> good fr clen mx out b -> 0 < m_chunk_left b ->
  call_post fr clen mx out b (chunk_data out b).
Proof.
  intros Hf HG Hl. unfold chunk_data.
  destruct (some_bytes b) as [rt b1] eqn:Es. pose proof (some_bytes_post out b rt b1 HG Es) as H.
  destruct rt as [rt|]; [done|]. destruct H as (A & [Q1 Q2] & N).
  rewrite (ad_left _ _ _ A). set (n := Z.min (Z.of_nat (length (m_buf b1))) (m_chunk_left b)).
  assert (Hn : 0 < n <= Z.of_nat (length (m_buf b1))) by (unfold n; destruct (m_buf b1); [done|cbn [length]; lia]).
  destruct (give_post n out b1) as (got & b3 & -> & Lg & Hne & A2 & [Q3 Q4]); [lia|lia|].
  replace (wrap_int32 n) with (wrap_int32 (Z.of_nat (length got))) by (by rewrite Lg).
  pose proof HG as [G1 G2 G3 G4 G5 G6 G7].
  destruct A as [A1 A2' A3 A4 A5 A6], A2 as [B1 B2 B3 B4 B5 B6].
  set (b4 := b3 <| m_chunk_left := _ |>).
  assert (F1 : m_framing b4 = fr) by (change (m_framing b4) with (m_framing b3); congruence).
  assert (F2 : m_maxBodySize b4 = mx) by (change (m_maxBodySize b4) with (m_maxBodySize b3); congruence).
  assert (F3 : m_error b4 = false) by (change (m_error b4) with (m_error b3); congruence).
  assert (F4 : m_chunk_left b4 = m_chunk_left b - n) by (change (m_chunk_left b4) with (m_chunk_left b3 - n); lia).
  assert (F5 : m_totalRead b4 = m_totalRead b) by (change (m_totalRead b4) with (m_totalRead b3); congruence).
  assert (F6 : stream b = got ++ stream b4) by (etransitivity; [exact A6|exact B6]).
  assert (F7 : Z.of_nat (length (out ++ got)) + m_chunk_left b4 <= m_totalRead b4 <= mx)
    by (rewrite F4, F5, length_app; lia).
  clearbody b4. btest (m_chunk_left b4 =? 0).
  - apply chunk_crlf_post with got; try done. lia.
  - apply call_gives with got; try done; by rewrite Hf || (unfold n in *; lia).
Qed.

Lemma readChunked_post out b : fr = F_CHUNKED -> good fr clen mx out b -> call_post fr clen mx out b (readChunked out b).
Proof.
  intros Hf HG. pose proof HG as [G1 G2 G3 G4 G5 G6 G7]. unfold readChunked.
  btest (m_chunk_left b =? 0); [|apply chunk_data_post; [done|done|lia]].
  destruct (adv_readLine b) as [gone A]. pose proof (readLine_error b) as Er.
  assert (Q : (readLine b).1 <> None -> quiet b (readLine b).2).
  { unfold readLine, quiet. by destruct (line_loop _ _ _) as [[[] buf] s]. }
  destruct (readLine b) as [[line|] b1]; cbn in A, Er, Q; pose proof A as [A1 A2 A3 A4 A5 A6].
  2: { rewrite (Er eq_refl). by apply call_fails_chunked with gone; [|exact A6|lia|apply Er]. }
  destruct (Q ltac:(done)) as [Q1 Q2]. apply (call_post_before out b b1 gone _ Hf A6).
  assert (HG1 : good fr clen mx out b1).
  { split; try congruence; try lia. rewrite A6, length_app in G5. lia. }
  destruct (chunk_len line) as [n|] eqn:El.
  2: { apply call_fails with []; [done| |done|apply setError_error]. unfold setError. by destruct (no_error _). }
  btest (n =? 0).
  - destruct (adv_trailers kMaxTrailerLines b1) as (g & [T1 T2 T3 T4 T5 T6] & Hle & He).
    destruct (trailers kMaxTrailerLines b1) as [rt b2]. cbn in T6, Hle, He. exists g.
    split_and!; [done|lia|by rewrite Hf|by rewrite Hf|lia|done].
  - assert (Hn : 0 < n).
    { pose proof (chunk_len_nonneg line n El). lia. }
    pose proof (accountBytes_spec n b1) as HA. destruct (accountBytes n b1) as [[] b2].
    2: { destruct HA as [He [? ? ? ? ? A7]]. by apply call_fails with []. }
    destruct HA as [-> Hmx]. set (b3 := _ <| m_chunk_left := n |>).
    apply (call_post_before out b1 b3 [] _ Hf eq_refl). apply chunk_data_post; [done| |done].
    destruct HG1 as [K1 K2 K3 K4 K5 K6 K7]. split; try done; cbn; try lia; by rewrite Hf.
Qed.
End calls.

Lemma readChunk_post fr clen mx out b : (fr = F_NONE -> m_finished b = true) -> good fr clen mx out b ->
  call_post fr clen mx out b (readChunk out b).
Proof.
  intros Hnone HG. pose proof HG as [G1 G2 G3 G4 G5 G6 G7]. unfold readChunk.
  destruct (m_finished b) eqn:Ef.
  - apply call_ends with []; [done|done|done|]. intros Hf. by apply (G7 Hf).
  - rewrite G3, G1. destruct fr eqn:Efr.
    + by specialize (Hnone eq_refl).
    + by apply read_clen_post.
    + by apply readChunked_post.
    + by apply read_until_close_post.
Qed.

Lemma read_all_post fr clen mx fuel out b :
  (length (stream b) < fuel)%nat -> fr <> F_NONE -> good fr clen mx out b ->
  exists rt out' b', read_all fuel out b = Some (rt, out', b') /\ rt <= 0 /\
    Z.of_nat (length out') <= mx /\ (rt < 0 -> m_error b' = true) /\
    (fr <> F_CHUNKED -> out ++ stream b = out' ++ stream b') /\
    (fr = F_CONTENT_LENGTH -> Z.of_nat (length out') <= clen /\ (rt = 0 -> Z.of_nat (length out') = clen)).
Proof.
  intros Hf Hn. revert out b Hf. induction fuel as [|fuel IH]; intros out b Hf HG; [lia|]. cbn [read_all].
  pose proof (readChunk_post fr clen mx out b ltac:(done) HG) as HP.
  destruct (readChunk out b) as [[rt out'] b']. destruct HP as (gone & Hs & H1 & H2 & H3 & H4 & H5).
  btest (rt >? 0).
  - destruct (H4 ltac:(lia)) as [Hne HG']. destruct (IH out' b') as (rt2 & out2 & b2 & E & R1 & R2 & R3 & R4 & R5); [|done|].
    { rewrite Hs, length_app in Hf. destruct gone; [done|cbn in Hf; lia]. }
    exists rt2, out2, b2. split_and!; try done. intros Hc. rewrite <- (R4 Hc), (H2 Hc), Hs. by rewrite app_assoc.
  - exists rt, out', b'. split_and!; try done. intros Hc. by rewrite (H2 Hc), Hs, app_assoc.
Qed.

(** Reading a body ends, whatever the network sends, after at most one call
    more than there are bytes; it never gives more than the configured maximum; a
    call that fails has recorded why; and by content length or until the peer closes
    it gives exactly the next bytes of the stream, by content length no more than
    announced and, when it reports the end, all of them. *)
Theorem body_bounded fr clen mx buf script sock :
  0 <= clen -> 0 <= mx -> fr <> F_NONE ->
  let b := setMaxBodySize mx (reader_init fr clen buf script sock) in
  Z.of_nat (length (stream b)) < 2 ^ 31 ->
  exists rt out b', read_all (S (length (stream b))) [] b = Some (rt, out, b') /\ rt <= 0 /\
    Z.of_nat (length out) <= mx /\ (rt < 0 -> m_error b' = true) /\
    (fr <> F_CHUNKED -> stream b = out ++ stream b') /\
    (fr = F_CONTENT_LENGTH -> Z.of_nat (length out) <= clen /\ (rt = 0 -> Z.of_nat (length out) = clen)).
Proof.
  intros Hc Hm Hf b Hs. apply (read_all_post fr clen mx _ [] b); [lia|done|].
  split; try done; cbn; try lia. intros Hcl. split_and!; [lia|lia|]. subst fr. cbn. intros H. by b2p.
Qed.

(** ** Witnesses *)

Definition blocks1 : list (list ascii) := [chars "hello"; chars ", "; chars "a longer block of text"].

(** The stream in pieces of three bytes, with the start of another request. *)
Fixpoint pieces (fuel : nat) (l : list ascii) : list Input :=
  match fuel, l with
  | S fuel, c :: l => I_DATA c (take 2 l) :: pieces fuel (drop 2 l)
  | _, _ => []
  end.

Lemma chunked_roundtrip_witness :
  exists b', read_all 30 [] (reader_init F_CHUNKED 0 []
      (pieces 100 (List.concat (map (encodeChunk F_CHUNKED) blocks1) ++ encodeEnd F_CHUNKED ++ chars "GET /")) true)
    = Some (0, chars "hello, a longer block of text", b') /\ avail b' = chars "GET /".
Proof.
  destruct (chunked_roundtrip blocks1 (chars "GET /") []
    (pieces 100 (List.concat (map (encodeChunk F_CHUNKED) blocks1) ++ encodeEnd F_CHUNKED ++ chars "GET /")))
    as (b' & E & A & _).
  - repeat constructor; by vm_compute.
  - by vm_compute.
  - by vm_compute.
  - exists b'. split; [exact E|exact A].
Defined.

Lemma body_bounded_witness :
  exists rt out b', read_all 12 [] (setMaxBodySize 5 (reader_init F_CONTENT_LENGTH 8 (chars "abc")
      [I_DATA "d" (chars "efgh"); I_DATA "i" (chars "jk")] true)) = Some (rt, out, b') /\ Z.of_nat (length out) <= 5.
Proof.
  destruct (body_bounded F_CONTENT_LENGTH 8 5 (chars "abc") [I_DATA "d" (chars "efgh"); I_DATA "i" (chars "jk")] true)
    as (rt & out & b' & E & _ & Hl & _); [done|done|done|by vm_compute|].
  exists rt, out, b'. split; [exact E|exact Hl].
Defined.

(** A stream that ends inside the trailer is an error the call does not report: it
    returns 0, as for a complete body. *)
Example trailer_cut :
  let '(rt, out, b) := readChunk [] (reader_init F_CHUNKED 0 (chars "0" ++ [CR; LF] ++ chars "X: y") [I_EOF] true) in
  rt = 0 /\ m_error b = true /\ m_finished b = true.
Proof. by vm_compute. Qed.

(** An empty block would end a chunked body early. *)
Example empty_block : encodeChunk F_CHUNKED [] = encodeEnd F_CHUNKED.
Proof. by vm_compute. Qed.
