(* ===== verification/Chunks.v ===== *)
(** * What a chunked body is

    The grammar of chunked bodies, written without regard to the reader: a size in hexadecimal
    digits, whatever extension follows it, the data, and after the last chunk a trailer of fields
    up to an empty line. Of any stream it takes one beginning at most ([chunked_unique]), and the
    reader of [Body] takes exactly that one off, or it fails ([chunked_call]). *)

From S2P Require Import Prelude Records Body.

(** ** The grammar *)

Definition crlf_free (l : list ascii) : Prop := forall a b, l <> a ++ CR :: LF :: b.

(** Digits, and an extension behind a semicolon. *)
Definition size_line (line : list ascii) (n : Z) : Prop :=
  exists digits ext, line = digits ++ ext /\ digits <> [] /\ Forall (fun c => is_hex c = true) digits /\ hex_value 0 digits = n /\
    (ext = [] \/ exists e, ext = ";"%char :: e).

Inductive chunked_wire : list ascii -> list ascii -> Prop :=
  | CW_LAST line fields : crlf_free line -> size_line line 0 -> Forall (fun f => f <> [] /\ crlf_free f) fields ->
      chunked_wire (line ++ [CR; LF] ++ List.concat (map (fun f => f ++ [CR; LF]) fields) ++ [CR; LF]) []
  | CW_CHUNK line data w ds : crlf_free line -> size_line line (Z.of_nat (length data)) -> data <> [] -> chunked_wire w ds ->
      chunked_wire (line ++ [CR; LF] ++ data ++ [CR; LF] ++ w) (data ++ ds).

Lemma crlf_free_tail c l : crlf_free (c :: l) -> crlf_free l.
Proof. intros H a b ->. by apply (H (c :: a) b). Qed.

Lemma find_crlf_first line rest : crlf_free line -> find_crlf (line ++ CR :: LF :: rest) = Some (line, rest).
Proof.
  induction line as [|c line IH]; intros H; [done|]. specialize (IH (crlf_free_tail _ _ H)).
  cbn [app find_crlf] in *. destruct (line ++ CR :: LF :: rest) as [|d l] eqn:E; [by destruct line|]. rewrite IH.
  destruct (Ascii.eqb c CR && Ascii.eqb d LF) eqn:Ec; [|done]. apply andb_true_iff in Ec as [->%Ascii.eqb_eq ->%Ascii.eqb_eq].
  destruct line as [|x line]; [done|]. cbn in E. injection E as -> <-. by destruct (H [] line).
Qed.

Lemma find_crlf_free l line rest : find_crlf l = Some (line, rest) -> crlf_free line.
Proof.
  revert line. induction l as [|a l IH]; intros line H; [done|]. cbn in H. destruct l as [|b l]; [done|].
  destruct (Ascii.eqb a CR && Ascii.eqb b LF) eqn:E; [injection H as <- <-; by intros [] ?|].
  destruct (find_crlf (b :: l)) as [[line' r]|] eqn:Ef; [|done]. injection H as <- <-. specialize (IH _ eq_refl).
  intros [|x p] q Hq; [|injection Hq as -> Hq; by apply (IH p q)].
  injection Hq as -> ->. apply find_crlf_split in Ef. injection Ef as -> _. done.
Qed.

Lemma crlf_split l1 l2 r1 r2 : crlf_free l1 -> crlf_free l2 -> l1 ++ CR :: LF :: r1 = l2 ++ CR :: LF :: r2 -> l1 = l2 /\ r1 = r2.
Proof. intros H1 H2 E. apply (f_equal find_crlf) in E. rewrite !find_crlf_first in E by done. by injection E. Qed.

Lemma before_semi_ext l : exists ext, l = before_semi l ++ ext /\ (ext = [] \/ exists e, ext = ";"%char :: e).
Proof.
  induction l as [|c l (ext & E & H)]; [by exists []; auto|]. cbn. destruct (Ascii.eqb c ";") eqn:Ec.
  - apply Ascii.eqb_eq in Ec as ->. exists (";"%char :: l). eauto.
  - exists ext. cbn. by rewrite <- E.
Qed.

Lemma size_line_value line n : size_line line n -> n = hex_value 0 (before_semi line).
Proof.
  intros (digits & ext & -> & _ & Hd & <- & He). f_equal. induction Hd as [|c digits Hc _ IH]; cbn.
  - by destruct He as [->|[e ->]].
  - destruct (Ascii.eqb c ";") eqn:E; [apply Ascii.eqb_eq in E as ->; done|]. by rewrite <- IH.
Qed.

Lemma chunk_len_line line n : chunk_len line = Some n -> size_line line n.
Proof.
  unfold chunk_len. destruct (before_semi_ext line) as (ext & E & He). intros H.
  exists (before_semi line), ext. destruct (before_semi line) as [|c l]; [done|].
  destruct (forallb is_hex (c :: l)) eqn:Eh; [|done]. cbv zeta in H. destruct (_ >? UINT64_MAX); [done|]. injection H as H.
  split_and!; try done. apply Forall_forall. intros x Hx. rewrite forallb_forall in Eh. by apply Eh, list_elem_of_In.
Qed.

(** The fields of a trailer end where they end. *)
Lemma fields_unique f1 f2 r1 r2 : Forall (fun f => f <> [] /\ crlf_free f) f1 -> Forall (fun f => f <> [] /\ crlf_free f) f2 ->
  List.concat (map (fun f => f ++ [CR; LF]) f1) ++ CR :: LF :: r1 = List.concat (map (fun f => f ++ [CR; LF]) f2) ++ CR :: LF :: r2 ->
  f1 = f2 /\ r1 = r2.
Proof.
  assert (X : forall f l r r', f <> [] -> crlf_free f -> (f ++ [CR; LF]) ++ l ++ r = CR :: LF :: r' -> False).
  { intros f l r r' H1 H2 E. rewrite <- !app_assoc in E. destruct (crlf_split f [] (l ++ r) r') as [-> _]; try done. by intros []. }
  intros H1. revert f2. induction H1 as [|f f1 [N1 C1] _ IH]; intros f2 H2 E; destruct H2 as [|g f2 [N2 C2] H2]; cbn in E.
  - by injection E.
  - exfalso. rewrite <- app_assoc in E. by eapply X.
  - exfalso. rewrite <- app_assoc in E. by eapply X.
  - rewrite <- ?app_assoc in E. cbn [app] in E. apply crlf_split in E as [-> E]; try done.
    destruct (IH _ H2 E) as [-> ->]. done.
Qed.

(** A stream begins with one chunked body at most. *)
Lemma chunked_unique w1 d1 w2 d2 r1 r2 : chunked_wire w1 d1 -> chunked_wire w2 d2 -> w1 ++ r1 = w2 ++ r2 -> w1 = w2 /\ d1 = d2 /\ r1 = r2.
Proof.
  intros H1. revert w2 d2. induction H1 as [line f1 C1 S1 F1|line data w ds C1 S1 N1 _ IH]; intros w2 d2 H2 E;
    destruct H2 as [line2 f2 C2 S2 F2|line2 data2 w' ds' C2 S2 N2 H2]; rewrite <- !app_assoc in E; cbn [app] in E;
    apply crlf_split in E as [<- E]; try done; pose proof (size_line_value _ _ S1) as V1; pose proof (size_line_value _ _ S2) as V2.
  - rewrite <- ?app_assoc in E. destruct (fields_unique f1 f2 r1 r2) as [-> ->]; done.
  - exfalso. destruct data2; [done|cbn [length] in V2; lia].
  - exfalso. destruct data; [done|cbn [length] in V1; lia].
  - apply app_inj_1 in E as [<- E]; [|lia]. injection E as E. destruct (IH _ _ H2 E) as (-> & -> & ->). done.
Qed.

(** What [BodyEncoder] writes is one. *)
Lemma no_cr_free l : Forall (fun c => c <> CR) l -> crlf_free l.
Proof. intros H a b ->. apply Forall_app in H as [_ H]. by inversion H. Qed.

Lemma encoded_wire ds : Forall block_ok ds -> chunked_wire (encoded ds) (List.concat ds).
Proof.
  induction 1 as [|d ds [Hne Hd] _ IH].
  - change (encoded []) with (["0"%char] ++ [CR; LF] ++ List.concat (map (fun f => f ++ [CR; LF]) []) ++ [CR; LF]). constructor; [by apply no_cr_free; repeat constructor| |constructor].
    exists ["0"%char], []. split_and!; try done; [by repeat constructor|by left].
  - rewrite encoded_cons. destruct (chunk_len_to_hex (Z.of_nat (length d))) as (E & F & _); [unfold UINT64_MAX; lia|].
    apply (CW_CHUNK (to_hex (Z.of_nat (length d))) d); [by apply no_cr_free|by apply chunk_len_line|done|exact IH].
Qed.

(** ** The reader *)

(** What may come when [left] bytes of a chunk are still to be given. *)
Definition tail_wire (left : Z) (w : list ascii) : Prop :=
  if left =? 0 then exists ds, chunked_wire w ds
  else exists data w' ds, Z.of_nat (length data) = left /\ w = data ++ CR :: LF :: w' /\ chunked_wire w' ds.

(** The reader has taken a part of a body off [rest], or a whole one when it has finished. *)
Record wire_at (rest : list ascii) (b : BodyReader) : Prop := {
  wa_framing : m_framing b = F_CHUNKED; wa_sock : m_sock b = true; wa_left : 0 <= m_chunk_left b;
  wa_place : exists pre, rest = pre ++ avail b /\
    if m_finished b then exists ds, chunked_wire pre ds else forall w, tail_wire (m_chunk_left b) w -> exists ds, chunked_wire (pre ++ w) ds }.

Lemma line_loop_line sock s buf line buf' s' : line_loop sock s buf = (L_LINE line, buf', s') ->
  buf ++ flat s = line ++ CR :: LF :: buf' ++ flat s' /\ crlf_free line.
Proof.
  revert buf. induction s as [|i s IH]; intros buf; cbn [line_loop]; (destruct (find_crlf buf) as [[l r]|] eqn:E;
    [intros [= <- <- <-]; split; [apply find_crlf_split in E as ->; by rewrite <- !app_assoc|by eapply find_crlf_free]|]);
    (destruct (_ >? 8192); [done|]); (destruct (negb sock); [done|]); [done|].
  destruct i as [c cs| |]; [|done|done]. intros H%IH. cbn [flat]. by rewrite <- app_assoc in H.
Qed.

Lemma readLine_line b line b' : readLine b = (Some line, b') ->
  avail b = line ++ CR :: LF :: avail b' /\ crlf_free line /\ same_reader b b'.
Proof.
  unfold readLine. destruct (line_loop _ _ _) as [[r buf] s] eqn:E. destruct r as [l|]; [|done]. intros [= <- <-].
  apply line_loop_line in E as [E F]. split_and!; [exact E|done|by split].
Qed.

Lemma ensure_ok n b b' : m_sock b = true -> ensure n b = (true, b') -> avail b' = avail b /\ same_reader b b' /\ (n <= length (m_buf b'))%nat.
Proof.
  intros Hs. unfold ensure. destruct (_ <=? _)%nat eqn:El; [intros [= <-]; b2p; by split_and!|]. rewrite Hs. cbn [negb].
  destruct (ensure_loop _ _ _) as [[ok buf] s] eqn:E. destruct ok; [|done]. intros [= <-].
  assert (X : forall s0 buf0, ensure_loop n s0 buf0 = (true, buf, s) -> buf ++ flat s = buf0 ++ flat s0 /\ (n <= length buf)%nat).
  { induction s0 as [|i s0 IH]; intros buf0; cbn [ensure_loop]; (destruct (n <=? length buf0)%nat eqn:E1; [intros H; injection H as -> ->; b2p; by split|]); [done|].
    destruct i as [c cs| |]; [|done|done]. intros H%IH. cbn [flat]. by rewrite <- app_assoc in H. }
  apply X in E as [E F]. split_and!; [exact E|by split|exact F].
Qed.

Lemma finish_error code b : m_error (finish (setError code b)) = true.
Proof. apply setError_error. Qed.

Lemma some_bytes_none b b1 : m_sock b = true -> some_bytes b = (None, b1) ->
  avail b1 = avail b /\ same_reader b b1 /\ m_buf b1 <> [].
Proof.
  intros Hs H. destruct (decide (avail b = [])) as [E|E].
  - exfalso. unfold some_bytes, avail in *. apply app_nil in E as [E1 E2]. rewrite E1, Hs in H. cbn in H. unfold Body.fill in H.
    destruct (m_in b) as [|[c cs| |] s]; cbn in *; try done; by destruct (_ <=? 0).
  - destruct (some_bytes_reads b Hs E) as (b' & E1 & H'). rewrite E1 in H. by injection H as <-.
Qed.

(** The trailer, when it was read without an error. *)
Lemma trailers_fields k b rt b' : trailers k b = (rt, b') -> m_error b' = false ->
  exists fields, Forall (fun f => f <> [] /\ crlf_free f) fields /\
    avail b = List.concat (map (fun f => f ++ [CR; LF]) fields) ++ CR :: LF :: avail b' /\
    m_framing b' = m_framing b /\ m_sock b' = m_sock b /\ m_chunk_left b' = m_chunk_left b /\ m_finished b' = true.
Proof.
  revert b. induction k as [|k IH]; intros b; cbn [trailers]; destruct (readLine b) as [[[|c line]|] b1] eqn:El.
  1, 4: intros [= <- <-] _; apply readLine_line in El as (E & _ & [S1 _ S3 _ _ _ _ _ S9]); exists []; cbn; split_and!; done.
  2, 4: (intros [= <- <-] Hf; apply (f_equal fst) in El as E; apply readLine_error in E; rewrite El in E; cbn in E, Hf; congruence).
  - intros [= <- <-]. by rewrite finish_error.
  - intros H Hf. apply readLine_line in El as (E & F & [S1 _ S3 _ _ _ _ _ S9]).
    destruct (IH _ H Hf) as (fields & G & Ea & T1 & T2 & T3 & T4). exists ((c :: line) :: fields). split_and!; try congruence.
    + constructor; [by split|done].
    + cbn [map List.concat]. rewrite E, Ea. by rewrite <- !app_assoc.
Qed.

Lemma chunk_crlf_wire rt out b pre rest b' : m_framing b = F_CHUNKED -> m_sock b = true -> m_finished b = false ->
  m_chunk_left b = 0 -> rest = pre ++ avail b -> (forall w d, chunked_wire w d -> exists ds, chunked_wire (pre ++ CR :: LF :: w) ds) ->
  forall rt' out', chunk_crlf rt out b = (rt', out', b') -> m_error b' = false -> rt' = rt /\ wire_at rest b'.
Proof.
  intros H1 H2 H3 H4 Hr Hc rt' out'. unfold chunk_crlf. destruct (ensure 2 b) as [ok b1] eqn:Ee. destruct ok.
  - apply ensure_ok in Ee as (A & [S1 S2 S3 S4 S5 S6 S7 S8 S9] & L); [|done]. unfold avail in A, Hr.
    destruct (m_buf b1) as [|c [|d l]] eqn:Eb; [cbn in L; lia|cbn in L; lia|].
    destruct (Ascii.eqb c CR && Ascii.eqb d LF) eqn:Ec; [|intros [= <- <- <-]; by rewrite finish_error].
    apply andb_true_iff in Ec as [->%Ascii.eqb_eq ->%Ascii.eqb_eq]. intros [= <- <- <-] _. split; [done|].
    split; cbn; [congruence|congruence|rewrite S9; lia|]. exists (pre ++ [CR; LF]). split.
    + unfold avail, consume; cbn. rewrite Eb. cbn. rewrite Hr, <- A, <- app_assoc. done.
    + rewrite S4, H3, S9, H4. intros w [ds Hw]. rewrite <- app_assoc. by eapply Hc.
  - intros [= <- <- <-]. pose proof (proj2 (adv_ensure 2 b)) as X. rewrite Ee in X. cbn in X |- *. rewrite X; done.
Qed.

Lemma chunk_data_wire out b pre rest rt out' b' : m_framing b = F_CHUNKED -> m_sock b = true -> m_finished b = false ->
  0 < m_chunk_left b -> Z.of_nat (length rest) < 2 ^ 31 -> rest = pre ++ avail b ->
  (forall w, tail_wire (m_chunk_left b) w -> exists ds, chunked_wire (pre ++ w) ds) ->
  chunk_data out b = (rt, out', b') -> m_error b' = false -> 0 < rt /\ wire_at rest b'.
Proof.
  intros H1 H2 H3 H4 Hs Hr Hc. unfold chunk_data. destruct (some_bytes b) as [res b1] eqn:Es. destruct res as [z|].
  { intros [= <- <- <-]. by rewrite finish_error. }
  apply some_bytes_none in Es as (A & [S1 S2 S3 S4 S5 S6 S7 S8 S9] & N); [|done]. rewrite S9.
  set (n := Z.min _ _). assert (Hn : 0 < n <= Z.of_nat (length (m_buf b1))) by (unfold n; destruct (m_buf b1); [done|cbn [length]; lia]).
  assert (Hle : n <= m_chunk_left b) by (unfold n; lia). unfold give.
  destruct (consume_avail (Z.to_nat n) b1) as (A2 & T2 & [U1 U2 U3 U4 U5 U6 U7 U8 U9]); [lia|].
  set (b2 := consume (Z.to_nat n) b1) in *. set (got := take (Z.to_nat n) (m_buf b1)) in *.
  assert (Hlen : Z.of_nat (length got) = n) by (unfold got; rewrite length_take; lia).
  assert (Hr2 : rest = (pre ++ got) ++ avail b2).
  { rewrite Hr, <- A, A2, T2, <- app_assoc, take_drop. done. }
  assert (Hw : wrap_int32 n = n). { apply wrap_int32_id. rewrite Hr2, !length_app in Hs. lia. }
  rewrite U9, S9, Hw. set (b3 := b2 <| m_chunk_left := _ |>). change (m_chunk_left b3) with (m_chunk_left b - n).
  destruct (m_chunk_left b - n =? 0) eqn:E0; b2p.
  - intros H Hf. eapply (chunk_crlf_wire n _ _ (pre ++ got) rest) in H as [-> HW]; [split; [lia|exact HW]| | | | | | |exact Hf]; cbn; try congruence; [exact Hr2|].
    intros w d Hwd. rewrite <- app_assoc. apply Hc. unfold tail_wire. replace (m_chunk_left b =? 0) with false by zcmp.
    exists got, w, d. split_and!; [lia|done|done].
  - intros [= <- <- <-] _. split; [lia|]. subst b3. split; cbn; [congruence|congruence|lia|]. exists (pre ++ got). split; [exact Hr2|].
    rewrite S4, H3. intros w Ht. unfold tail_wire in Ht. replace (m_chunk_left b - n =? 0) with false in Ht by zcmp.
    destruct Ht as (data & w' & ds & L & -> & Hw'). rewrite <- app_assoc. apply Hc. unfold tail_wire. replace (m_chunk_left b =? 0) with false by zcmp.
    exists (got ++ data), w', ds. rewrite length_app, <- app_assoc. split_and!; [lia|done|done].
Qed.

(** A call of the reader takes off a part of the body, and ends where the body ends. *)
Lemma chunked_call rest out b : Z.of_nat (length rest) < 2 ^ 31 -> (m_error b = false -> wire_at rest b) ->
  let '(rt, _, b') := readChunk out b in
  (m_error b' = false -> wire_at rest b') /\ (rt <= 0 -> m_error b' = false -> m_finished b' = true).
Proof.
  intros Hs HI. unfold readChunk. destruct (m_finished b) eqn:Ef; [done|]. destruct (m_error b) eqn:Ee; [split; congruence|].
  destruct (HI eq_refl) as [H1 H2 H3 (pre & Hr & Hp)]. rewrite Ef in Hp. rewrite H1.
  destruct (readChunked out b) as [[rt out'] b'] eqn:E.
  assert (X : m_error b' = false -> wire_at rest b' /\ (rt <= 0 -> m_finished b' = true)); [|tauto].
  intros Hf. unfold readChunked in E. destruct (m_chunk_left b =? 0) eqn:E0; b2p.
  2: { destruct (chunk_data_wire out b pre rest rt out' b') as [Hrt HW]; try done; [lia|]. split; [done|lia]. }
  destruct (readLine b) as [[line|] b1] eqn:El.
  2: { injection E as _ _ <-. pose proof (readLine_error b) as X. rewrite El in X. cbn in X, Hf. rewrite X in Hf; done. }
  apply readLine_line in El as (A & F & [S1 S2 S3 S4 S5 S6 S7 S8 S9]).
  destruct (chunk_len line) as [n|] eqn:Ec; [|injection E as _ _ <-; by rewrite setError_error in Hf].
  apply chunk_len_line in Ec as L. pose proof (chunk_len_nonneg _ _ Ec) as Hn.
  assert (Hr1 : rest = (pre ++ line ++ [CR; LF]) ++ avail b1) by (rewrite Hr, A, <- !app_assoc; done).
  assert (Hp0 : forall w ds, chunked_wire w ds -> exists ds', chunked_wire (pre ++ w) ds').
  { intros w ds Hw. apply Hp. unfold tail_wire. rewrite E0. by exists ds. }
  destruct (n =? 0) eqn:En; b2p.
  - subst n. destruct (trailers kMaxTrailerLines b1) as [rt0 b2] eqn:Et. injection E as <- _ <-.
    destruct (trailers_fields _ _ _ _ Et Hf) as (fields & G & Ea & T1 & T2 & T3 & T4). split; [|done].
    split; [congruence|congruence|rewrite T3, S9; lia|]. rewrite T4.
    exists (pre ++ line ++ [CR; LF] ++ List.concat (map (fun f => f ++ [CR; LF]) fields) ++ [CR; LF]). split.
    + rewrite Hr1, Ea. rewrite <- !app_assoc. done.
    + eapply Hp0. by constructor.
  - unfold accountBytes in E. destruct (_ || _); [injection E as _ _ <-; by rewrite finish_error in Hf|].
    eapply (chunk_data_wire _ _ (pre ++ line ++ [CR; LF]) rest) in E as [Hrt HW]; cbn; try congruence; [split; [exact HW|lia]|lia|exact Hr1|].
    intros w Ht. unfold tail_wire in Ht. replace (n =? 0) with false in Ht by zcmp. destruct Ht as (data & w' & ds & Ld & -> & Hw').
    rewrite <- !app_assoc. eapply Hp0. cbn [app].
    apply (CW_CHUNK line data w' ds); [done|by rewrite Ld|destruct data; [cbn in Ld; lia|done]|done].
Qed.

(** The body, and the only one there is. *)
Definition chunks_end (rest after : list ascii) : Prop :=
  (exists w ds, chunked_wire w ds /\ rest = w ++ after) /\
  forall w ds after', chunked_wire w ds -> rest = w ++ after' -> after' = after.

Lemma wire_at_start clen buf script m : wire_at (buf ++ flat script) (setMaxBodySize m (reader_init F_CHUNKED clen buf script true)).
Proof.
  split; cbn; try done. exists []. split; [done|]. intros w Hw. exact Hw.
Qed.

Lemma wire_at_end rest b : wire_at rest b -> m_finished b = true -> chunks_end rest (avail b).
Proof.
  intros [_ _ _ (pre & Hr & Hp)] Hf. rewrite Hf in Hp. destruct Hp as [ds Hw]. split; [eauto|].
  intros w ds' after' Hw' E. rewrite Hr in E. by destruct (chunked_unique _ _ _ _ _ _ Hw Hw' E) as (_ & _ & ->).
Qed.

(** Extensions, leading zeros and a trailer, which the encoder never writes. *)
Example other_spellings :
  chunked_wire (chars "0A;x=1" ++ [CR; LF] ++ chars "0123456789" ++ [CR; LF] ++ chars "00" ++ [CR; LF] ++ chars "Foo: b" ++ [CR; LF; CR; LF])
    (chars "0123456789").
Proof.
  apply (CW_CHUNK (chars "0A;x=1") (chars "0123456789") _ []); [by apply no_cr_free; repeat constructor| |done|].
  - exists (chars "0A"), (chars ";x=1"). split_and!; [done|done|by repeat constructor|done|right; by exists (chars "x=1")].
  - apply (CW_LAST (chars "00") [chars "Foo: b"]); [by apply no_cr_free; repeat constructor| |].
    + exists (chars "00"), []. split_and!; [done|done|by repeat constructor|done|by left].
    + constructor; [split; [done|by apply no_cr_free; repeat constructor]|constructor].
Qed.
