(* ===== verification/Str.v ===== *)
(** * Small text tools (src/gateway/str.h, the helpers of http_parse.cpp)

    Trimming, comma-separated values and host names. A loop that walks a value from
    comma to comma is a function on the list of its parts, [split_on]; [split_on_app]
    and [split_on_join] say that the parts are what commas separate. *)

From S2P Require Import Prelude.

(** ** Trimming *)

Fixpoint ltrim (p : ascii -> bool) (s : string) : string :=
  match s with
  | String c s' => if p c then ltrim p s' else s
  | EmptyString => EmptyString
  end.

Fixpoint rtrim (p : ascii -> bool) (s : string) : string :=
  match s with
  | String c s' =>
      match rtrim p s' with
      | EmptyString => if p c then EmptyString else String c EmptyString
      | t => String c t
      end
  | EmptyString => EmptyString
  end.

Definition trim_by (p : ascii -> bool) (s : string) : string := rtrim p (ltrim p s).

(** The set [" \t\r\n"]. *)
Definition ascii_blank (c : ascii) : bool :=
  Ascii.eqb c SP || Ascii.eqb c TAB || Ascii.eqb c CR || Ascii.eqb c LF.

Definition trim_ascii (s : string) : string := trim_by ascii_blank s.

(** [isspace] as [trimOWS] asks it: the six blanks of the C locale. *)
Definition trimOWS (s : string) : string := trim_by isspace s.

(** ** Values separated by commas *)

Fixpoint split_on (sep : ascii) (s : string) : list string :=
  match s with
  | EmptyString => [EmptyString]
  | String c s' =>
      if Ascii.eqb c sep then EmptyString :: split_on sep s'
      else match split_on sep s' with
           | part :: parts => String c part :: parts
           | [] => [String c EmptyString]
           end
  end.

Definition COMMA : ascii := ","%char.
Definition SEMI : ascii := ";"%char.
Definition COLON : ascii := ":"%char.

Fixpoint join_with (sep : string) (l : list string) : string :=
  match l with
  | [] => EmptyString
  | [s] => s
  | s :: l => (s ++ sep ++ join_with sep l)%string
  end.

(** [hdr_has_token] of str.h: parts are only trimmed. *)
Definition hdr_has_token (value token : string) : bool :=
  if String.eqb token "" then false
  else existsb (fun part => case_eqb (trim_ascii part) token) (split_on COMMA value).

(** [hdr_has_token] of http_parse.cpp: what follows a semicolon is cut off first. *)
Definition cut_params (part : string) : string :=
  match break_at SEMI part with Some (before, _) => before | None => part end.

Definition hdr_has_token_ows (value token : string) : bool :=
  existsb (fun part => case_eqb (trimOWS (cut_params part)) token) (split_on COMMA value).

Abbreviation HeaderList := (list (string * string)).

(** The loop appends a comma only after something was appended. *)
Definition join_hdr_vals (headers : HeaderList) (key : string) : string :=
  fold_left (fun out (h : string * string) =>
    if negb (case_eqb h.1 key) then out
    else ((if String.eqb out "" then out else out ++ ",") ++ h.2)%string) headers EmptyString.

Definition host_port (host : string) (port : Z) : string :=
  if has_char COLON host && negb (match host with String "[" _ => true | _ => false end)
  then ("[" ++ host ++ "]:" ++ to_string port)%string
  else (host ++ ":" ++ to_string port)%string.

(** ** Lemmas *)

#[global] Arguments case_eqb : simpl never.

Lemma case_eqb_refl s : case_eqb s s = true.
Proof. apply String.eqb_refl. Qed.

Lemma case_eqb_sym a b : case_eqb a b = case_eqb b a.
Proof. apply String.eqb_sym. Qed.

Lemma case_eqb_key a b : case_eqb a b = true <-> lower (c_str a) = lower (c_str b).
Proof. apply String.eqb_eq. Qed.

Lemma case_eqb_cong a b c : case_eqb a b = true -> case_eqb a c = case_eqb b c.
Proof. intros H%case_eqb_key. unfold case_eqb. by rewrite H. Qed.

Lemma case_eqb_cong_r a b c : case_eqb a b = true -> case_eqb c a = case_eqb c b.
Proof. intros H%case_eqb_key. unfold case_eqb. by rewrite H. Qed.

Lemma string_app_assoc a b c : ((a ++ b) ++ c = a ++ (b ++ c))%string.
Proof. induction a as [|x a IH]; [done|]. change (String x ((a ++ b) ++ c) = String x (a ++ (b ++ c)))%string. by rewrite IH. Qed.

Lemma string_length_app a b : String.length (a ++ b)%string = (String.length a + String.length b)%nat.
Proof.
  induction a as [|x a IH]; [done|].
  change (S (String.length (a ++ b)) = S (String.length a + String.length b))%string%nat. by rewrite IH.
Qed.

Lemma split_on_cons sep s : exists part parts, split_on sep s = part :: parts.
Proof.
  induction s as [|c s (p & ps & IH)]; simpl; [eauto|].
  destruct (Ascii.eqb c sep); rewrite IH; eauto.
Qed.

(** A part without the separator, then the separator: the first part. *)
Lemma split_on_app sep part s : has_char sep part = false ->
  split_on sep (part ++ String sep s)%string = part :: split_on sep s.
Proof.
  induction part as [|c part IH]; simpl; intros H.
  - by rewrite Ascii.eqb_refl.
  - apply orb_false_elim in H as [H1 H2]. rewrite Ascii.eqb_sym, H1.
    rewrite (IH H2). done.
Qed.

Lemma split_on_single sep part : has_char sep part = false -> split_on sep part = [part].
Proof.
  induction part as [|c part IH]; simpl; intros H; [done|].
  apply orb_false_elim in H as [H1 H2]. rewrite Ascii.eqb_sym, H1. by rewrite (IH H2).
Qed.

(** Joining and splitting again. *)
Lemma split_on_join sep l : l <> [] -> Forall (fun part => has_char sep part = false) l ->
  split_on sep (join_with (String sep "") l) = l.
Proof.
  intros Hl Hall. induction Hall as [|part l Hp Hall IH]; [done|].
  destruct l as [|q l]; [by apply split_on_single|].
  change (join_with _ (part :: q :: l)) with (part ++ String sep (join_with (String sep "") (q :: l)))%string.
  rewrite split_on_app by done. f_equal. by apply IH.
Qed.

(** Only the ends go: what is left starts and ends with a character that stays. *)
Lemma ltrim_head p s : match ltrim p s with String c _ => p c = false | EmptyString => True end.
Proof. induction s as [|c s IH]; cbn; [done|]. destruct (p c) eqn:E; [done|]. exact E. Qed.

Lemma rtrim_nonblank p c s : p c = false -> rtrim p (String c s) <> EmptyString.
Proof. cbn. intros ->. by destruct (rtrim p s). Qed.

(** Nothing is trimmed off a text without blanks. *)
Lemma trim_id p s : (forall c, has_char c s = true -> p c = false) -> trim_by p s = s.
Proof.
  intros H. unfold trim_by.
  assert (Hl : ltrim p s = s).
  { destruct s as [|c s]; [done|]. cbn. by rewrite (H c) by (cbn; by rewrite Ascii.eqb_refl). }
  rewrite Hl. clear Hl. induction s as [|c s IH]; [done|]. cbn.
  rewrite IH by (intros d Hd; apply H; cbn; by rewrite Hd, orb_true_r).
  destruct s as [|d s]; [|done]. by rewrite (H c) by (cbn; by rewrite Ascii.eqb_refl).
Qed.
