(* ===== verification/HttpMsg.v ===== *)
(** * Messages without their bodies (src/gateway/http_msg.cpp, http_msg.h)

    A head keeps its fields twice: a map from names, up to case, to one value, which
    the gateway asks, and the list in order of arrival, which is what it sends. The
    theorems say that the map always is what it should be of the list, and that a
    head is read back from its text. *)

From S2P Require Import Prelude Records Str.

Inductive HttpMethod :=
  | M_DELETE | M_GET | M_HEAD | M_POST | M_PUT | M_CONNECT | M_OPTIONS | M_TRACE | M_PATCH | M_INVALID.

Definition StringToHttpMethod (m : string) : HttpMethod :=
  if String.eqb m "GET" then M_GET
  else if String.eqb m "POST" then M_POST
  else if String.eqb m "HEAD" then M_HEAD
  else if String.eqb m "PUT" then M_PUT
  else if String.eqb m "DELETE" then M_DELETE
  else if String.eqb m "OPTIONS" then M_OPTIONS
  else if String.eqb m "CONNECT" then M_CONNECT
  else if String.eqb m "TRACE" then M_TRACE
  else if String.eqb m "PATCH" then M_PATCH
  else M_INVALID.

Definition HttpMethodToString (m : HttpMethod) : string :=
  match m with
  | M_GET => "GET" | M_POST => "POST" | M_HEAD => "HEAD" | M_PUT => "PUT" | M_DELETE => "DELETE"
  | M_OPTIONS => "OPTIONS" | M_CONNECT => "CONNECT" | M_TRACE => "TRACE" | M_PATCH => "PATCH"
  | M_INVALID => "INVALID"
  end.

Definition HttpStatusReason (c : Z) : string :=
  if c =? 100 then "Continue" else if c =? 101 then "Switching Protocols"
  else if c =? 200 then "OK" else if c =? 201 then "Created" else if c =? 204 then "No Content"
  else if c =? 206 then "Partial Content" else if c =? 301 then "Moved Permanently"
  else if c =? 302 then "Found" else if c =? 304 then "Not Modified"
  else if c =? 307 then "Temporary Redirect" else if c =? 308 then "Permanent Redirect"
  else if c =? 400 then "Bad Request" else if c =? 401 then "Unauthorized"
  else if c =? 403 then "Forbidden" else if c =? 404 then "Not Found"
  else if c =? 405 then "Method Not Allowed" else if c =? 408 then "Request Timeout"
  else if c =? 413 then "Payload Too Large" else if c =? 414 then "URI Too Long"
  else if c =? 417 then "Expectation Failed" else if c =? 429 then "Too Many Requests"
  else if c =? 431 then "Request Header Fields Too Large"
  else if c =? 500 then "Internal Server Error" else if c =? 501 then "Not Implemented"
  else if c =? 502 then "Bad Gateway" else if c =? 503 then "Service Unavailable"
  else if c =? 504 then "Gateway Timeout" else "Unknown".

Definition ver_to_str (v : Z) : string :=
  ("HTTP/" ++ to_string (Z.shiftr v 4) ++ "." ++ to_string (Z.land v 15))%string.

(** ** The map: sorted by [CaseInsensitiveLess], a name keeps its first spelling *)

Definition CaseInsensitiveLess (a b : string) : bool := String.ltb (lower (c_str a)) (lower (c_str b)).

Abbreviation HeaderMap := (list (string * string)).

Fixpoint hm_find (key : string) (m : HeaderMap) : option string :=
  match m with
  | [] => None
  | (k, v) :: m => if case_eqb k key then Some v else hm_find key m
  end.

(** [m_headers[key] = val]. *)
Fixpoint hm_set (key val : string) (m : HeaderMap) : HeaderMap :=
  match m with
  | [] => [(key, val)]
  | (k, v) :: m' =>
      if case_eqb k key then (k, val) :: m'
      else if CaseInsensitiveLess key k then (key, val) :: m
      else (k, v) :: hm_set key val m'
  end.

(** The spelling under which a name was first stored. *)
Fixpoint hm_key (key : string) (m : HeaderMap) : string :=
  match m with
  | [] => key
  | (k, _) :: m => if case_eqb k key then k else hm_key key m
  end.

Definition hm_erase (key : string) (m : HeaderMap) : HeaderMap :=
  List.filter (fun h => negb (case_eqb h.1 key)) m.

Definition erase_hdr (headers : HeaderList) (key : string) : HeaderList :=
  List.filter (fun h => negb (case_eqb h.1 key)) headers.

(** ** Requests *)

Record GwRequest := mkRequest {
  rq_method : HttpMethod; rq_methodRaw : string; rq_path : string; rq_query : string;
  rq_fragment : string; rq_version : Z; rq_close : bool; rq_websocket : bool;
  rq_headers : HeaderMap; rq_headerList : HeaderList }.

Definition request_init : GwRequest := mkRequest M_GET "" "" "" "" 17 false false [] [].

Definition rq_getHeader (key def : string) (r : GwRequest) : string :=
  match hm_find key (rq_headers r) with Some v => v | None => def end.

Definition rq_hasHeader (key : string) (r : GwRequest) : bool :=
  match hm_find key (rq_headers r) with Some _ => true | None => false end.

Definition rq_setHeader (key val : string) (r : GwRequest) : GwRequest :=
  (r <| rq_headers := hm_set key val (rq_headers r) |>)
    <| rq_headerList := erase_hdr (rq_headerList r) key ++ [(key, val)] |>.

Definition rq_addHeader (key val : string) (r : GwRequest) : GwRequest :=
  let m :=
    match hm_find key (rq_headers r) with
    | Some old =>
        if case_eqb key "X-Forwarded-For" then hm_set key (old ++ ", " ++ val) (rq_headers r)
        else hm_set key val (rq_headers r)
    | None => hm_set key val (rq_headers r)
    end in
  (r <| rq_headers := m |>) <| rq_headerList := rq_headerList r ++ [(key, val)] |>.

Definition rq_delHeader (key : string) (r : GwRequest) : GwRequest :=
  (r <| rq_headers := hm_erase key (rq_headers r) |>) <| rq_headerList := erase_hdr (rq_headerList r) key |>.

Definition CRLF : string := String CR (String LF "").

Definition dump_fields (l : HeaderList) : string :=
  foldr (fun (h : string * string) acc => (h.1 ++ ": " ++ h.2 ++ CRLF ++ acc)%string) CRLF l.

Definition request_line (r : GwRequest) : string :=
  let method := if String.eqb (rq_methodRaw r) "" then HttpMethodToString (rq_method r) else rq_methodRaw r in
  (method ++ " " ++ rq_path r ++ (if String.eqb (rq_query r) "" then "" else "?" ++ rq_query r)
     ++ " " ++ ver_to_str (rq_version r))%string.

Definition rq_dumpHead (r : GwRequest) : string :=
  (request_line r ++ CRLF
     ++ dump_fields (match rq_headerList r with [] => rq_headers r | l => l end))%string.

(** ** Responses *)

Record GwResponse := mkResponse {
  rs_status : Z; rs_reason : string; rs_version : Z; rs_close : bool;
  rs_headers : HeaderMap; rs_headerList : HeaderList }.

Definition response_init : GwResponse := mkResponse 200 "" 17 false [] [].

Definition rs_getHeader (key def : string) (r : GwResponse) : string :=
  match hm_find key (rs_headers r) with Some v => v | None => def end.

Definition rs_hasHeader (key : string) (r : GwResponse) : bool :=
  match hm_find key (rs_headers r) with Some _ => true | None => false end.

Definition rs_put (key val : string) (r : GwResponse) : GwResponse :=
  (r <| rs_headers := hm_set key val (rs_headers r) |>)
    <| rs_headerList := erase_hdr (rs_headerList r) key ++ [(key, val)] |>.

Definition rs_setHeader (key val : string) (r : GwResponse) : GwResponse :=
  match hm_find "Vary" (rs_headers r) with
  | Some old =>
      if case_eqb key "Vary" && negb (String.eqb (trim_ascii old) "") then
        if hdr_has_token old val then r
        else
          let merged := (old ++ ", " ++ val)%string in
          (r <| rs_headers := hm_set "Vary" merged (rs_headers r) |>)
            <| rs_headerList := erase_hdr (rs_headerList r) key ++ [(hm_key "Vary" (rs_headers r), merged)] |>
      else rs_put key val r
  | None => rs_put key val r
  end.

Definition rs_addHeader (key val : string) (r : GwResponse) : GwResponse :=
  (r <| rs_headers := hm_set key val (rs_headers r) |>) <| rs_headerList := rs_headerList r ++ [(key, val)] |>.

Definition rs_delHeader (key : string) (r : GwResponse) : GwResponse :=
  (r <| rs_headers := hm_erase key (rs_headers r) |>) <| rs_headerList := erase_hdr (rs_headerList r) key |>.

Definition status_line (r : GwResponse) : string :=
  let reason := if String.eqb (rs_reason r) "" then HttpStatusReason (rs_status r) else rs_reason r in
  (ver_to_str (rs_version r) ++ " " ++ to_string (rs_status r) ++ " " ++ reason)%string.

Definition rs_dumpHead (r : GwResponse) : string :=
  (status_line r ++ CRLF
     ++ dump_fields (match rs_headerList r with [] => rs_headers r | l => l end))%string.

(** ** What the map should be of the list *)

(** The values of a name, in order of arrival. *)
Definition values_of (key : string) (l : HeaderList) : list string :=
  List.map snd (List.filter (fun h => case_eqb h.1 key) l).

(** The forwarding chain is all of its values; of any other name the last counts. *)
Definition merged_value (key : string) (vs : list string) : option string :=
  match vs with
  | [] => None
  | _ => if case_eqb key "X-Forwarded-For" then Some (join_with ", " vs) else last vs
  end.

(** ** The map and the list *)

#[global] Arguments values_of : simpl never.
#[global] Arguments merged_value : simpl never.

Lemma hm_find_set key val m k :
  hm_find k (hm_set key val m) = if case_eqb key k then Some val else hm_find k m.
Proof.
  induction m as [|[k' v'] m IH]; cbn [hm_set hm_find]; [done|].
  destruct (case_eqb k' key) eqn:E; [|destruct (CaseInsensitiveLess key k')]; cbn [hm_find].
  - rewrite (case_eqb_cong _ _ k E). by destruct (case_eqb key k).
  - done.
  - rewrite IH. destruct (case_eqb key k) eqn:E2; [|done].
    by rewrite <- (case_eqb_cong_r _ _ k' E2), E.
Qed.

Lemma hm_find_erase key m k :
  hm_find k (hm_erase key m) = if case_eqb key k then None else hm_find k m.
Proof.
  unfold hm_erase. induction m as [|[k' v'] m IH]; cbn; [by destruct (case_eqb key k)|].
  destruct (case_eqb k' key) eqn:E; cbn; rewrite IH.
  - rewrite (case_eqb_cong _ _ k E). by destruct (case_eqb key k).
  - destruct (case_eqb k' k) eqn:E2; [|done].
    by rewrite (case_eqb_sym key k), <- (case_eqb_cong _ _ key E2), E.
Qed.

Lemma values_of_app key l l' : values_of key (l ++ l') = values_of key l ++ values_of key l'.
Proof. unfold values_of. by rewrite List.filter_app, List.map_app. Qed.

Lemma values_of_one key k v : values_of key [(k, v)] = if case_eqb k key then [v] else [].
Proof. unfold values_of. cbn. by destruct (case_eqb k key). Qed.

Lemma values_of_erase key l k :
  values_of k (erase_hdr l key) = if case_eqb key k then [] else values_of k l.
Proof.
  unfold values_of, erase_hdr. induction l as [|[k' v'] l IH]; cbn; [by destruct (case_eqb key k)|].
  destruct (case_eqb k' key) eqn:E; cbn.
  - rewrite IH, (case_eqb_cong _ _ k E). by destruct (case_eqb key k).
  - destruct (case_eqb k' k) eqn:E2; cbn; rewrite IH; [|done].
    by rewrite (case_eqb_sym key k), <- (case_eqb_cong _ _ key E2), E.
Qed.

Lemma values_of_cong key key' l : case_eqb key key' = true -> values_of key l = values_of key' l.
Proof.
  intros H. unfold values_of. f_equal. apply List.filter_ext. intros h. by apply case_eqb_cong_r.
Qed.

Lemma merged_value_single key v : merged_value key [v] = Some v.
Proof. unfold merged_value. by destruct (case_eqb key _). Qed.

Lemma merged_value_cong key key' vs : case_eqb key key' = true -> merged_value key vs = merged_value key' vs.
Proof. intros H. unfold merged_value. by rewrite (case_eqb_cong _ _ _ H). Qed.

Lemma join_with_snoc sep vs v : vs <> [] -> join_with sep (vs ++ [v]) = (join_with sep vs ++ sep ++ v)%string.
Proof.
  induction vs as [|a vs IH]; [done|]. intros _. destruct vs as [|b vs]; [done|].
  change ((a ++ sep ++ join_with sep ((b :: vs) ++ [v]))%string
          = ((a ++ sep ++ join_with sep (b :: vs)) ++ sep ++ v)%string).
  rewrite IH by done. by rewrite !string_app_assoc.
Qed.

(** What one more value makes of the merged one. *)
Lemma merged_value_snoc key vs v :
  merged_value key (vs ++ [v]) =
    match merged_value key vs with
    | Some old => if case_eqb key "X-Forwarded-For" then Some (old ++ ", " ++ v)%string else Some v
    | None => Some v
    end.
Proof.
  destruct vs as [|a vs]; [apply merged_value_single|].
  unfold merged_value. destruct (case_eqb key _).
  - cbn [app]. by rewrite <- (join_with_snoc ", " (a :: vs)).
  - rewrite last_snoc. by destruct (last (a :: vs)) eqn:E; [|apply last_None in E].
Qed.

(** ** Operations *)

Inductive HdrOp := H_SET (key val : string) | H_ADD (key val : string) | H_DEL (key : string).

Definition rq_op (r : GwRequest) (o : HdrOp) : GwRequest :=
  match o with
  | H_SET k v => rq_setHeader k v r
  | H_ADD k v => rq_addHeader k v r
  | H_DEL k => rq_delHeader k r
  end.

Definition rs_op (r : GwResponse) (o : HdrOp) : GwResponse :=
  match o with
  | H_SET k v => rs_setHeader k v r
  | H_ADD k v => rs_addHeader k v r
  | H_DEL k => rs_delHeader k r
  end.

(** The map is what it should be of the list. *)
Definition rq_agree (r : GwRequest) : Prop :=
  forall key, hm_find key (rq_headers r) = merged_value key (values_of key (rq_headerList r)).

Definition rs_agree (r : GwResponse) : Prop :=
  forall key, hm_find key (rs_headers r) = last (values_of key (rs_headerList r)).

Lemma rq_agree_op r o : rq_agree r -> rq_agree (rq_op r o).
Proof.
  intros H k. destruct o as [key v|key v|key]; cbn.
  - rewrite hm_find_set, values_of_app, values_of_erase, values_of_one.
    destruct (case_eqb key k); [symmetry; apply merged_value_single|by rewrite app_nil_r].
  - rewrite values_of_app, values_of_one. destruct (case_eqb key k) eqn:E.
    + rewrite merged_value_snoc, <- H, <- (case_eqb_cong _ _ "X-Forwarded-For" E).
      assert (Hk : hm_find key (rq_headers r) = hm_find k (rq_headers r)).
      { by rewrite !H, (values_of_cong _ _ _ E), (merged_value_cong _ _ _ E). }
      rewrite Hk. destruct (hm_find k (rq_headers r)) as [old|]; [destruct (case_eqb key "X-Forwarded-For")|];
        by rewrite hm_find_set, E.
    + rewrite app_nil_r, <- H.
      destruct (hm_find key (rq_headers r)); [destruct (case_eqb key "X-Forwarded-For")|];
        by rewrite hm_find_set, E.
  - rewrite hm_find_erase, values_of_erase. by destruct (case_eqb key k).
Qed.

Lemma rs_agree_put key v r : rs_agree r -> rs_agree (rs_put key v r).
Proof.
  intros H k. cbn. rewrite hm_find_set, values_of_app, values_of_erase, values_of_one.
  destruct (case_eqb key k); [done|by rewrite app_nil_r].
Qed.

Lemma hm_key_case key m : case_eqb (hm_key key m) key = true.
Proof.
  induction m as [|[k v] m IH]; cbn; [apply case_eqb_refl|]. by destruct (case_eqb k key) eqn:E.
Qed.

Lemma rs_agree_op r o : rs_agree r -> rs_agree (rs_op r o).
Proof.
  intros H. destruct o as [key v|key v|key]; cbn [rs_op].
  - unfold rs_setHeader. destruct (hm_find "Vary" (rs_headers r)) as [old|]; [|by apply rs_agree_put].
    destruct (case_eqb key "Vary") eqn:E; [|by apply rs_agree_put].
    destruct (String.eqb _ ""); [by apply rs_agree_put|]. cbn [andb negb].
    destruct (hdr_has_token old v); [done|]. intros k. cbn.
    rewrite hm_find_set, values_of_app, values_of_erase, values_of_one.
    rewrite (case_eqb_cong _ _ k (hm_key_case "Vary" _)), (case_eqb_cong _ _ k E).
    destruct (case_eqb "Vary" k); [done|by rewrite app_nil_r].
  - intros k. cbn. rewrite values_of_app, values_of_one, hm_find_set.
    destruct (case_eqb key k) eqn:E; [by rewrite last_snoc|by rewrite app_nil_r].
  - intros k. cbn. rewrite hm_find_erase, values_of_erase. by destruct (case_eqb key k).
Qed.

Lemma rq_agree_ops ops r : rq_agree r -> rq_agree (fold_left rq_op ops r).
Proof. revert r. induction ops as [|o ops IH]; intros r H; [done|]. cbn. by apply IH, rq_agree_op. Qed.

Lemma rs_agree_ops ops r : rs_agree r -> rs_agree (fold_left rs_op ops r).
Proof. revert r. induction ops as [|o ops IH]; intros r H; [done|]. cbn. by apply IH, rs_agree_op. Qed.

Lemma rq_agree_init : rq_agree request_init.
Proof. done. Qed.

Lemma rs_agree_init : rs_agree response_init.
Proof. done. Qed.

(** ** Reading a head back *)

Fixpoint break_crlf (s : string) : option (string * string) :=
  match s with
  | EmptyString => None
  | String c s' =>
      match s' with
      | String d rest =>
          if Ascii.eqb c CR && Ascii.eqb d LF then Some (EmptyString, rest)
          else match break_crlf s' with Some (line, rest) => Some (String c line, rest) | None => None end
      | EmptyString => None
      end
  end.

(** Lines [name: value] up to an empty one, with which the text ends. *)
Fixpoint read_fields (fuel : nat) (s : string) : option HeaderList :=
  match fuel with
  | O => None
  | S fuel =>
      match break_crlf s with
      | Some (EmptyString, rest) => if String.eqb rest "" then Some [] else None
      | Some (line, rest) =>
          match break_at COLON line with
          | Some (k, String " " v) => l ← read_fields fuel rest; Some ((k, v) :: l)
          | _ => None
          end
      | None => None
      end
  end.

Definition parse_head (s : string) : option (string * HeaderList) :=
  match break_crlf s with
  | Some (line, rest) => l ← read_fields (String.length rest) rest; Some (line, l)
  | None => None
  end.

(** A field that is one line: a name without a colon, no line feed. *)
Definition clean_field (h : string * string) : bool :=
  negb (has_char COLON h.1) && negb (has_char LF h.1) && negb (has_char LF h.2).

Lemma break_crlf_app line rest : has_char LF line = false ->
  break_crlf (line ++ CRLF ++ rest)%string = Some (line, rest).
Proof.
  induction line as [|c line IH]; intros H; [done|]. simpl in H. apply orb_false_elim in H as [Hc H].
  specialize (IH H). change (String c line ++ CRLF ++ rest)%string with (String c (line ++ CRLF ++ rest)).
  assert (Hd : exists d t, (line ++ CRLF ++ rest)%string = String d t /\ Ascii.eqb c CR && Ascii.eqb d LF = false).
  { destruct line as [|d line]; [exists CR, (String LF rest)|exists d, (line ++ CRLF ++ rest)%string]; (split; [done|]).
    - by rewrite andb_false_r.
    - simpl in H. apply orb_false_elim in H as [Hd _]. by rewrite (Ascii.eqb_sym d), Hd, andb_false_r. }
  destruct Hd as (d & t & E & Hn). rewrite E in *. cbn [break_crlf]. rewrite Hn.
  cbn [break_crlf] in IH. by rewrite IH.
Qed.

Lemma dump_fields_length l : (length l < String.length (dump_fields l))%nat.
Proof.
  induction l as [|[k v] l IH]; [cbn; lia|]. cbn [dump_fields foldr fst snd length]. fold (dump_fields l).
  rewrite !string_length_app. cbn. lia.
Qed.

Lemma read_fields_dump l fuel : Forall (fun h => clean_field h = true) l -> (length l < fuel)%nat ->
  read_fields fuel (dump_fields l) = Some l.
Proof.
  intros Hl. revert fuel. induction Hl as [|[k v] l Hh Hl IH]; intros [|fuel] Hf; cbn in Hf; try lia; [done|].
  unfold clean_field in Hh. cbn in Hh. b2p.
  assert (E : dump_fields ((k, v) :: l) = ((k ++ ": " ++ v) ++ CRLF ++ dump_fields l)%string).
  { cbn [dump_fields foldr fst snd]. by rewrite !string_app_assoc. }
  rewrite E. cbn [read_fields]. rewrite break_crlf_app by (by rewrite !has_char_app; repeat apply orb_false_intro).
  change (k ++ ": " ++ v)%string with (k ++ String COLON (String SP v))%string.
  rewrite break_at_app by done. cbn [SP]. rewrite IH by lia. by destruct k.
Qed.

Lemma parse_head_dump line l : has_char LF line = false -> Forall (fun h => clean_field h = true) l ->
  parse_head (line ++ CRLF ++ dump_fields l)%string = Some (line, l).
Proof.
  intros H Hl. unfold parse_head. rewrite break_crlf_app by done.
  by rewrite read_fields_dump by auto using dump_fields_length.
Qed.

(** A map without anything in it, when nothing is in the list. *)
Lemma rq_agree_nil r : rq_agree r -> rq_headerList r = [] -> rq_headers r = [].
Proof.
  intros H E. destruct (rq_headers r) as [|[k v] m] eqn:Em; [done|].
  specialize (H k). rewrite E, Em in H. cbn in H. by rewrite case_eqb_refl in H.
Qed.

Lemma rs_agree_nil r : rs_agree r -> rs_headerList r = [] -> rs_headers r = [].
Proof.
  intros H E. destruct (rs_headers r) as [|[k v] m] eqn:Em; [done|].
  specialize (H k). rewrite E, Em in H. cbn in H. by rewrite case_eqb_refl in H.
Qed.

(** ** Theorems *)

(** The value a head answers with is the one its list of fields gives, whatever was
    set, added and deleted before: of a request the last one, or for the forwarding
    chain all of them joined; of a response the last one. A name is there exactly when a
    field of the list has it. *)
Theorem fields_agree (ops : list HdrOp) (key def : string) :
  let q := fold_left rq_op ops request_init in
  let s := fold_left rs_op ops response_init in
  rq_getHeader key def q = default def (merged_value key (values_of key (rq_headerList q))) /\
  rs_getHeader key def s = default def (last (values_of key (rs_headerList s))) /\
  (rq_hasHeader key q = true <-> values_of key (rq_headerList q) <> []) /\
  (rs_hasHeader key s = true <-> values_of key (rs_headerList s) <> []).
Proof.
  intros q s.
  assert (Hq : rq_agree q) by apply rq_agree_ops, rq_agree_init.
  assert (Hs : rs_agree s) by apply rs_agree_ops, rs_agree_init.
  unfold rq_getHeader, rs_getHeader, rq_hasHeader, rs_hasHeader. rewrite Hq, Hs.
  split_and!; [by destruct (merged_value _ _)|by destruct (last _)| |].
  - destruct (values_of key (rq_headerList q)) as [|a l]; [done|].
    unfold merged_value. destruct (case_eqb _ _); [done|].
    by destruct (last (a :: l)) eqn:E; [|apply last_None in E].
  - destruct (values_of key (rs_headerList s)) as [|a l]; [done|].
    by destruct (last (a :: l)) eqn:E; [|apply last_None in E].
Qed.

(** What the gateway writes is what it has. From the text of a head whose names have
    no colon and whose lines have no line feed one reads back its first line and all of
    its fields, each with its value, in their order and nothing else: no field becomes
    two. *)
Theorem head_roundtrip (q : GwRequest) (s : GwResponse) :
  rq_agree q -> rs_agree s ->
  has_char LF (request_line q) = false -> has_char LF (status_line s) = false ->
  Forall (fun h => clean_field h = true) (rq_headerList q) ->
  Forall (fun h => clean_field h = true) (rs_headerList s) ->
  parse_head (rq_dumpHead q) = Some (request_line q, rq_headerList q) /\
  parse_head (rs_dumpHead s) = Some (status_line s, rs_headerList s).
Proof.
  intros Hq Hs Lq Ls Fq Fs. unfold rq_dumpHead, rs_dumpHead. split.
  - replace (match rq_headerList q with [] => _ | l => l end) with (rq_headerList q)
      by (destruct (rq_headerList q) eqn:E; [by rewrite rq_agree_nil|done]).
    by apply parse_head_dump.
  - replace (match rs_headerList s with [] => _ | l => l end) with (rs_headerList s)
      by (destruct (rs_headerList s) eqn:E; [by rewrite rs_agree_nil|done]).
    by apply parse_head_dump.
Qed.

Definition sample_request : GwRequest :=
  fold_left rq_op [H_ADD "Host" "a.example"; H_ADD "X-Forwarded-For" "10.0.0.1"; H_ADD "x-forwarded-for" "10.0.0.2";
                   H_SET "Accept" "*/*"; H_DEL "accept"] (request_init <| rq_path := "/v1" |>).

Definition sample_response : GwResponse :=
  fold_left rs_op [H_ADD "Vary" "Origin"; H_SET "vary" "Accept"; H_SET "Content-Length" "3"] response_init.

Lemma head_roundtrip_witness :
  rq_getHeader "X-FORWARDED-FOR" "" sample_request = "10.0.0.1, 10.0.0.2"%string /\
  rs_getHeader "Vary" "" sample_response = "Origin, Accept"%string /\
  parse_head (rq_dumpHead sample_request) = Some ("GET /v1 HTTP/1.1"%string, rq_headerList sample_request) /\
  parse_head (rs_dumpHead sample_response) = Some ("HTTP/1.1 200 OK"%string, rs_headerList sample_response).
Proof.
  split; [reflexivity|]. split; [reflexivity|].
  apply (head_roundtrip sample_request sample_response); try reflexivity.
  - by apply rq_agree_ops.
  - by apply rs_agree_ops.
  - repeat constructor.
  - repeat constructor.
Defined.

(** A second field that was added, as an upstream's answer may have, is lost when the
    gateway sets [Vary]: it merges with the last value only and erases them all. *)
Example vary_lost :
  let s := fold_left rs_op [H_ADD "Vary" "Cookie"; H_ADD "Vary" "Accept"; H_SET "Vary" "Origin"] response_init in
  rs_headerList s = [("Vary", "Accept, Origin")]%string.
Proof. reflexivity. Qed.
