(* ===== verification/HttpParse.v ===== *)
(** * From fields to framing (src/gateway/http_parse.cpp, http_parse.h)

    The generated parser reads the bytes of a head and calls back for each element it
    finds; what it finds is a list of events here, in its order, and the callbacks are
    a fold over them. They collect the head and decide how the body is framed, and are
    where request smuggling is fended off: two readers of the same head must not frame
    the body differently. The theorems compare them with a reference decision on the
    list of fields. *)

From S2P Require Import Prelude Records Str HttpMsg Body.

(** [strtoull(p, &end, 10)]: the value, the text at [end] ([None]: nothing was
    converted), and whether [errno] became [ERANGE]. *)
Definition strtoull10 (p : string) : Z * option string * bool :=
  let s := skip_space p in
  let '(neg, s) := match s with
                   | String "-" s' => (true, s')
                   | String "+" s' => (false, s')
                   | _ => (false, s)
                   end in
  let '(v, n, rest) := scan_dec s 0 0 in
  if (n =? 0)%nat then (0, None, false)
  else if v >? UINT64_MAX then (UINT64_MAX, Some rest, true)
  else (if (neg : bool) then wrap64 (- v) else v, Some rest, false).

Fixpoint string_forallb (p : ascii -> bool) (s : string) : bool :=
  match s with
  | EmptyString => true
  | String c s' => p c && string_forallb p s'
  end.

Definition all_digits (s : string) : bool := negb (String.eqb s "") && string_forallb isdigit s.

(** [None]: refused. *)
Definition parse_cl (val : string) : option Z :=
  let clValue := trimOWS val in
  let '(cl, endp, erange) := strtoull10 (c_str clValue) in
  if negb (all_digits clValue)
     || match endp with None => true | Some rest => negb (String.eqb rest "") end
     || erange
  then None else Some cl.

Record TeRes := mkTe { te_hasChunked : bool; te_unsupported : bool; te_malformed : bool }.

Fixpoint te_loop (parts : list string) (hasChunked unsupported sawToken : bool) : TeRes :=
  match parts with
  | [] => mkTe hasChunked unsupported (negb sawToken)
  | part :: rest =>
      let part := trimOWS (cut_params part) in
      let isLast := match rest with [] => true | _ => false end in
      if String.eqb part "" then mkTe hasChunked unsupported true
      else if case_eqb part "chunked" then
        if negb isLast then mkTe true unsupported true
        else te_loop rest true unsupported true
      else te_loop rest hasChunked true true
  end.

Definition parse_te (value : string) : TeRes := te_loop (split_on COMMA value) false false false.

(** ** Requests *)

Record HttpReqParser := mkReqParser {
  p_data : GwRequest; p_error : Z; p_clen : Z; p_has_clen : bool; p_hasChunked : bool }.

Definition req_parser_init : HttpReqParser := mkReqParser request_init 0 0 false false.

Inductive ReqEvent :=
  | E_METHOD (s : string) | E_URI (s : string) | E_PATH (s : string) | E_QUERY (s : string)
  | E_FRAGMENT (s : string) | E_VERSION (s : string) | E_DONE | E_FIELD (key val : string).

Definition onRequestMethod (m : string) (p : HttpReqParser) : HttpReqParser :=
  p <| p_data := ((p_data p) <| rq_methodRaw := m |>) <| rq_method := StringToHttpMethod m |> |>.

Definition onHttpVersion (v : string) (p : HttpReqParser) : HttpReqParser :=
  let '(ver, err) :=
    if String.eqb v "HTTP/1.0" then (16, p_error p)
    else if String.eqb v "HTTP/1.1" then (17, p_error p)
    else (17, 1001) in
  (p <| p_error := err |>) <| p_data := (p_data p) <| rq_version := ver |> |>.

Definition connection_close (val : string) (was : bool) : bool :=
  if hdr_has_token_ows val "close" then true
  else if hdr_has_token_ows val "keep-alive" then false
  else was.

Definition onHttpField (key val : string) (p : HttpReqParser) : HttpReqParser :=
  let p :=
    if case_eqb key "Content-Length" then
      match parse_cl val with
      | None => p <| p_error := 1003 |>
      | Some cl =>
          if p_has_clen p && negb (p_clen p =? cl) then p <| p_error := 1003 |>
          else (p <| p_clen := cl |>) <| p_has_clen := true |>
      end
    else if case_eqb key "Transfer-Encoding" then
      let te := parse_te val in
      if te_malformed te || te_unsupported te then p <| p_error := 1003 |>
      else if te_hasChunked te then p <| p_hasChunked := true |>
      else p
    else if case_eqb key "Connection" then
      p <| p_data := (p_data p) <| rq_close := connection_close val (rq_close (p_data p)) |> |>
    else if case_eqb key "Upgrade" then
      if hdr_has_token_ows val "websocket" then p <| p_data := (p_data p) <| rq_websocket := true |> |> else p
    else p in
  p <| p_data := rq_addHeader key val (p_data p) |>.

Definition req_event (p : HttpReqParser) (e : ReqEvent) : HttpReqParser :=
  match e with
  | E_METHOD m => onRequestMethod m p
  | E_URI _ => p
  | E_PATH s => p <| p_data := (p_data p) <| rq_path := s |> |>
  | E_QUERY s => p <| p_data := (p_data p) <| rq_query := s |> |>
  | E_FRAGMENT s => p <| p_data := (p_data p) <| rq_fragment := s |> |>
  | E_VERSION v => onHttpVersion v p
  | E_DONE => p
  | E_FIELD k v => onHttpField k v p
  end.

Definition req_events (evs : list ReqEvent) : HttpReqParser := fold_left req_event evs req_parser_init.

Definition getBodyFraming (p : HttpReqParser) : BodyFraming * HttpReqParser :=
  if p_has_clen p && p_hasChunked p then (F_NONE, p <| p_error := 1003 |>)
  else if p_hasChunked p then (F_CHUNKED, p)
  else if p_has_clen p then (if p_clen p >? 0 then F_CONTENT_LENGTH else F_NONE, p)
  else (F_NONE, p).

(** ** Responses *)

Record HttpRespParser := mkRespParser {
  r_data : GwResponse; r_error : Z; r_clen : Z; r_has_clen : bool; r_hasChunked : bool }.

Definition resp_parser_init : HttpRespParser := mkRespParser response_init 0 0 false false.

Inductive RespEvent :=
  | A_REASON (s : string) | A_STATUS (s : string) | A_VERSION (s : string) | A_DONE
  | A_FIELD (key val : string).

(** [status_atoi] is [strtol] cast to [int]. *)
Definition status_atoi (s : string) : Z :=
  match strtol10 (c_str s) with Some (v, _) => wrap_int32 v | None => 0 end.

Definition resp_onHttpField (key val : string) (r : HttpRespParser) : HttpRespParser :=
  let r :=
    if case_eqb key "Content-Length" then
      match parse_cl val with
      | None => r <| r_error := 1003 |>
      | Some cl =>
          if r_has_clen r && negb (r_clen r =? cl) then r <| r_error := 1003 |>
          else if r_hasChunked r then r <| r_error := 1003 |>
          else (r <| r_clen := cl |>) <| r_has_clen := true |>
      end
    else if case_eqb key "Transfer-Encoding" then
      let te := parse_te val in
      if te_malformed te || te_unsupported te then r <| r_error := 1003 |>
      else if te_hasChunked te then
        (if r_has_clen r then r <| r_error := 1003 |> else r) <| r_hasChunked := true |>
      else r
    else if case_eqb key "Connection" then
      if hdr_has_token_ows val "close" then r <| r_data := (r_data r) <| rs_close := true |> |> else r
    else r in
  r <| r_data := rs_addHeader key val (r_data r) |>.

Definition resp_event (r : HttpRespParser) (e : RespEvent) : HttpRespParser :=
  match e with
  | A_REASON s => r <| r_data := (r_data r) <| rs_reason := s |> |>
  | A_STATUS s => r <| r_data := (r_data r) <| rs_status := status_atoi s |> |>
  | A_VERSION v => r <| r_data := (r_data r) <| rs_version := if String.eqb v "HTTP/1.0" then 16 else 17 |> |>
  | A_DONE => r
  | A_FIELD k v => resp_onHttpField k v r
  end.

Definition resp_events (evs : list RespEvent) : HttpRespParser := fold_left resp_event evs resp_parser_init.

Definition resp_getBodyFraming (r : HttpRespParser) : BodyFraming :=
  if r_hasChunked r then F_CHUNKED
  else if r_has_clen r then (if r_clen r >? 0 then F_CONTENT_LENGTH else F_NONE)
  else F_UNTIL_CLOSE.

(** ** The reference decision, on the fields of a head *)

(** The number a [Content-Length] stands for. *)
Definition cl_number (val : string) : option Z :=
  let s := trimOWS val in
  if all_digits s then
    let '(v, _, _) := scan_dec s 0 0 in
    if v <=? UINT64_MAX then Some v else None
  else None.

(** A [Transfer-Encoding] of one coding, which is [chunked]. *)
Definition te_chunked (val : string) : bool :=
  match split_on COMMA val with
  | [part] => case_eqb (trimOWS (cut_params part)) "chunked"
  | _ => false
  end.

Definition all_same (ns : list Z) : bool :=
  match ns with [] => true | n :: ns => forallb (Z.eqb n) ns end.

(** [None]: refused. With no length and no coding the framing is [dflt]. *)
Definition ref_framing (dflt : BodyFraming) (fields : HeaderList) : option (BodyFraming * Z) :=
  match mapM cl_number (values_of "Content-Length" fields) with
  | None => None
  | Some ns =>
      let tes := values_of "Transfer-Encoding" fields in
      if all_same ns && forallb te_chunked tes then
        match ns, tes with
        | [], [] => Some (dflt, 0)
        | n :: _, [] => Some (if n >? 0 then F_CONTENT_LENGTH else F_NONE, n)
        | [], _ :: _ => Some (F_CHUNKED, 0)
        | _ :: _, _ :: _ => None
        end
      else None
  end.

Definition known_version (v : string) : bool := String.eqb v "HTTP/1.0" || String.eqb v "HTTP/1.1".

(** ** Values *)

Lemma isdigit_not_nul c : isdigit c = true -> Ascii.eqb c NUL = false.
Proof. intros H. apply Ascii.eqb_neq. intros ->. by vm_compute in H. Qed.

Lemma isdigit_not_space c : isdigit c = true -> isspace c = false.
Proof. unfold isdigit, isspace. lia. Qed.

Lemma digits_c_str s : string_forallb isdigit s = true -> c_str s = s.
Proof.
  induction s as [|c s IH]; [done|]. cbn. intros H. b2p. by rewrite isdigit_not_nul, IH.
Qed.

(** All of a text of digits is read. *)
Lemma scan_dec_all s a n : string_forallb isdigit s = true ->
  exists v, scan_dec s a n = (v, (n + String.length s)%nat, EmptyString) /\ (0 <= a -> 0 <= v).
Proof.
  revert a n. induction s as [|c s IH]; intros a n; cbn [string_forallb scan_dec String.length].
  { exists a. by rewrite Nat.add_0_r. }
  intros H. b2p. rewrite H.
  destruct (IH (a * 10 + (code c - 48)) (S n)) as (v & E & Hv); [done|].
  exists v. rewrite E. split; [do 2 f_equal; lia|]. unfold isdigit in H. lia.
Qed.

Lemma strtoull10_digits s : all_digits s = true ->
  exists v n, scan_dec s 0 0 = (v, n, EmptyString) /\
    strtoull10 (c_str s) = (if v >? UINT64_MAX then UINT64_MAX else v, Some EmptyString, v >? UINT64_MAX).
Proof.
  unfold all_digits. intros H. b2p. destruct s as [|c s]; [done|].
  rewrite digits_c_str by done. destruct (scan_dec_all (String c s) 0 0) as (v & E & _); [done|].
  exists v, (0 + String.length (String c s))%nat. split; [done|].
  cbn in H0. b2p. unfold strtoull10. cbn [skip_space]. rewrite isdigit_not_space by done.
  replace (match String c s with String "-" s' => (true, s') | String "+" s' => (false, s') | _ => (false, String c s) end)
    with (false, String c s).
  - rewrite E. cbn [Nat.eqb Nat.add String.length]. by destruct (v >? UINT64_MAX).
  - destruct c as [[] [] [] [] [] [] [] []]; try done; by vm_compute in H0.
Qed.

Lemma parse_cl_spec val : parse_cl val = cl_number val.
Proof.
  unfold parse_cl, cl_number. destruct (all_digits (trimOWS val)) eqn:E.
  - destruct (strtoull10_digits _ E) as (v & n & -> & ->). rewrite Z.gtb_ltb.
    destruct (UINT64_MAX <? v) eqn:Hv; destruct (v <=? UINT64_MAX) eqn:Hv2; b2p; try lia; done.
  - by destruct (strtoull10 _) as [[? ?] ?].
Qed.

(** A coding is accepted exactly when it is [chunked] alone. *)
Lemma te_loop_unsupported parts h : let te := te_loop parts h true true in
  te_malformed te || te_unsupported te = true.
Proof.
  revert h. induction parts as [|p parts IH]; intros h; cbn; [done|].
  destruct (String.eqb _ ""); [done|]. destruct (case_eqb _ _); [|apply IH].
  destruct parts; cbn; [done|done].
Qed.

Lemma parse_te_spec val :
  let te := parse_te val in
  (te_malformed te || te_unsupported te = negb (te_chunked val)) /\
  (te_chunked val = true -> te_hasChunked te = true).
Proof.
  unfold parse_te, te_chunked. destruct (split_on_cons COMMA val) as (p & parts & ->). cbn.
  destruct (String.eqb (trimOWS (cut_params p)) "") eqn:E0.
  - apply String.eqb_eq in E0. rewrite E0. by destruct parts.
  - destruct (case_eqb (trimOWS (cut_params p)) "chunked") eqn:E1.
    + by destruct parts.
    + rewrite te_loop_unsupported. by destruct parts.
Qed.

(** ** One more field *)

Lemma mapM_snoc {A B} (f : A -> option B) l x :
  mapM f (l ++ [x]) = (ys ← mapM f l; y ← f x; Some (ys ++ [y])).
Proof.
  induction l as [|a l IH]; cbn; [by destruct (f x)|].
  destruct (f a) as [b|]; cbn; [|done]. rewrite IH. cbn.
  destruct (mapM f l) as [ys|]; cbn; [|done]. by destruct (f x).
Qed.

Lemma all_same_snoc ns n :
  all_same (ns ++ [n]) = all_same ns && match ns with [] => true | m :: _ => m =? n end.
Proof. destruct ns as [|m ns]; [done|]. cbn. rewrite forallb_app. cbn. by rewrite andb_true_r. Qed.

(** What the fields so far say: the lengths, and whether the body is chunked. *)
Definition framing_facts (fields : HeaderList) : option (list Z * bool) :=
  match mapM cl_number (values_of "Content-Length" fields) with
  | None => None
  | Some ns =>
      let tes := values_of "Transfer-Encoding" fields in
      if all_same ns && forallb te_chunked tes
      then Some (ns, match tes with [] => false | _ => true end) else None
  end.

Definition nonempty {A} (l : list A) : bool := match l with [] => false | _ => true end.

Definition same_length (ns : list Z) (n : Z) : bool := negb (nonempty ns) || (default 0 (head ns) =? n).

(** What one more field adds to the facts, by its name. *)
Definition facts_step (key val : string) (facts : list Z * bool) : option (list Z * bool) :=
  let '(ns, te) := facts in
  if case_eqb key "Content-Length" then
    match cl_number val with
    | Some n => if same_length ns n then Some (ns ++ [n], te) else None
    | None => None
    end
  else if case_eqb key "Transfer-Encoding" then
    if te_chunked val then Some (ns, true) else None
  else Some (ns, te).

Lemma framing_facts_snoc fields key val :
  framing_facts (fields ++ [(key, val)]) = framing_facts fields ≫= facts_step key val.
Proof.
  unfold framing_facts, facts_step. rewrite !values_of_app, !values_of_one.
  destruct (case_eqb key "Content-Length") eqn:E1.
  - rewrite (case_eqb_cong _ _ "Transfer-Encoding" E1).
    change (case_eqb "Content-Length" "Transfer-Encoding") with false. rewrite app_nil_r, mapM_snoc.
    destruct (mapM cl_number _) as [ns|]; cbn; [|done].
    destruct (cl_number val) as [n|]; cbn; [|by destruct (all_same ns && _)].
    rewrite all_same_snoc.
    replace (match ns with [] => true | m :: _ => m =? n end) with (same_length ns n) by (by destruct ns).
    destruct (all_same ns), (forallb te_chunked _); cbn; by destruct (same_length ns n).
  - rewrite app_nil_r. destruct (mapM cl_number _) as [ns|]; [|done].
    destruct (case_eqb key "Transfer-Encoding"); [|by rewrite app_nil_r; destruct (_ && _)].
    rewrite forallb_app. cbn. rewrite andb_true_r.
    destruct (all_same ns), (forallb te_chunked _), (te_chunked val); cbn; try done.
    by destruct (values_of "Transfer-Encoding" fields).
Qed.

(** The reference decision follows from the facts. *)
Lemma ref_framing_facts dflt fields :
  ref_framing dflt fields =
    match framing_facts fields with
    | None => None
    | Some (ns, te) =>
        if te then (if nonempty ns then None else Some (F_CHUNKED, 0))
        else match ns with
             | [] => Some (dflt, 0)
             | n :: _ => Some (if n >? 0 then F_CONTENT_LENGTH else F_NONE, n)
             end
    end.
Proof.
  unfold ref_framing, framing_facts. destruct (mapM cl_number _) as [ns|]; [|done].
  destruct (_ && _); [|done]. by destruct (values_of "Transfer-Encoding" fields), ns.
Qed.

(** ** Requests *)

Definition req_field (e : ReqEvent) : HeaderList := match e with E_FIELD k v => [(k, v)] | _ => [] end.
Definition req_fields (evs : list ReqEvent) : HeaderList := flat_map req_field evs.

Definition version_ok (e : ReqEvent) : bool := match e with E_VERSION v => known_version v | _ => true end.

(** The facts of a head; [None] also when its version is unknown. *)
Definition req_facts (evs : list ReqEvent) : option (list Z * bool) :=
  if forallb version_ok evs then framing_facts (req_fields evs) else None.

(** The parser agrees with the facts of the fields it has seen. *)
Definition req_inv (evs : list ReqEvent) (p : HttpReqParser) : Prop :=
  rq_headerList (p_data p) = req_fields evs /\
  match req_facts evs with
  | Some (ns, te) =>
      p_error p = 0 /\ p_has_clen p = nonempty ns /\ p_clen p = default 0 (head ns) /\ p_hasChunked p = te
  | None => p_error p <> 0
  end.

Lemma req_error_sticky p e : p_error p <> 0 -> p_error (req_event p e) <> 0.
Proof.
  intros H. destruct e as [| | | | |v| |k v]; cbn; try done.
  - unfold onHttpVersion. by repeat destruct (String.eqb _ _).
  - unfold onHttpField. destruct (case_eqb k "Content-Length"); [|destruct (case_eqb k "Transfer-Encoding"); [|destruct (case_eqb k "Connection"); [|destruct (case_eqb k "Upgrade")]]]; cbn; try done.
    + destruct (parse_cl v); [|done]. by destruct (_ && _).
    + destruct (_ || _); [done|]. by destruct (te_hasChunked _).
    + by destruct (hdr_has_token_ows _ _).
Qed.

Lemma req_facts_snoc evs e :
  req_facts (evs ++ [e]) =
    match req_facts evs with
    | None => None
    | Some facts =>
        match e with
        | E_VERSION v => if known_version v then Some facts else None
        | E_FIELD k v => facts_step k v facts
        | _ => Some facts
        end
    end.
Proof.
  unfold req_facts, req_fields. rewrite forallb_app, flat_map_app. cbn. rewrite andb_true_r.
  destruct (forallb version_ok evs); [|done].
  destruct e as [| | | | |v| |k v]; cbn; rewrite ?app_nil_r; try by destruct (framing_facts _).
  - by destruct (known_version v), (framing_facts _).
  - rewrite framing_facts_snoc. by destruct (framing_facts _).
Qed.

Lemma head_default_snoc (ns : list Z) n : same_length ns n = true -> n = default 0 (head (ns ++ [n])).
Proof. destruct ns; cbn; [done|]. unfold same_length. cbn. intros ?. b2p. done. Qed.

Lemma nonempty_snoc {A} (l : list A) x : nonempty (l ++ [x]) = true.
Proof. by destruct l. Qed.

Lemma onHttpField_list k v p :
  rq_headerList (p_data (onHttpField k v p)) = rq_headerList (p_data p) ++ [(k, v)].
Proof.
  unfold onHttpField. destruct (case_eqb k "Content-Length"); [|destruct (case_eqb k "Transfer-Encoding"); [|destruct (case_eqb k "Connection"); [|destruct (case_eqb k "Upgrade")]]]; cbn; try done.
  - destruct (parse_cl v); [|done]. by destruct (_ && _).
  - destruct (_ || _); [done|]. by destruct (te_hasChunked _).
  - by destruct (hdr_has_token_ows _ _).
Qed.

Lemma req_inv_step evs p e : req_inv evs p -> req_inv (evs ++ [e]) (req_event p e).
Proof.
  intros [Hl Hf]. split.
  { unfold req_fields. rewrite flat_map_app. cbn. rewrite app_nil_r. fold (req_fields evs). rewrite <- Hl.
    destruct e as [| | | | |v| |k v]; cbn; rewrite ?app_nil_r; try done.
    - unfold onHttpVersion. by repeat destruct (String.eqb _ _).
    - apply onHttpField_list. }
  rewrite req_facts_snoc. destruct (req_facts evs) as [[ns te]|]; [|by apply req_error_sticky].
  destruct Hf as (He & Hc & Hn & Ht).
  destruct e as [| | | | |v| |k v]; cbn; try done.
  - unfold onHttpVersion, known_version. destruct (String.eqb v "HTTP/1.0"); [done|]. by destruct (String.eqb v "HTTP/1.1").
  - unfold onHttpField.
    destruct (case_eqb k "Content-Length"); [|destruct (case_eqb k "Transfer-Encoding"); [|destruct (case_eqb k "Connection"); [|destruct (case_eqb k "Upgrade")]]]; cbn; try done.
    + rewrite parse_cl_spec. destruct (cl_number v) as [n|]; [|done].
      replace (p_has_clen p && negb (p_clen p =? n)) with (negb (same_length ns n))
        by (unfold same_length; rewrite Hc, Hn; by destruct (nonempty ns), (_ =? n)).
      destruct (same_length ns n) eqn:E; [|done]. cbn.
      by rewrite nonempty_snoc, <- head_default_snoc.
    + destruct (parse_te_spec v) as [-> Hte]. destruct (te_chunked v); [|done]. cbn. by rewrite Hte.
    + by destruct (hdr_has_token_ows _ _).
Qed.

Lemma req_inv_all evs : req_inv evs (req_events evs).
Proof.
  induction evs as [|e evs IH] using rev_ind; [done|].
  unfold req_events. rewrite fold_left_app. cbn. by apply req_inv_step.
Qed.

(** ** Responses *)

Definition resp_field (e : RespEvent) : HeaderList := match e with A_FIELD k v => [(k, v)] | _ => [] end.
Definition resp_fields (evs : list RespEvent) : HeaderList := flat_map resp_field evs.

(** A response with a length and a coding is refused as soon as it has both. *)
Definition one_framing (facts : list Z * bool) : option (list Z * bool) :=
  if nonempty facts.1 && facts.2 then None else Some facts.

Definition resp_facts (evs : list RespEvent) : option (list Z * bool) :=
  framing_facts (resp_fields evs) ≫= one_framing.

Definition resp_inv (evs : list RespEvent) (r : HttpRespParser) : Prop :=
  rs_headerList (r_data r) = resp_fields evs /\
  match resp_facts evs with
  | Some (ns, te) =>
      r_error r = 0 /\ r_has_clen r = nonempty ns /\ r_clen r = default 0 (head ns) /\ r_hasChunked r = te
  | None => r_error r <> 0
  end.

Lemma resp_facts_snoc evs e :
  resp_facts (evs ++ [e]) =
    match resp_facts evs with
    | None => None
    | Some facts => match e with A_FIELD k v => facts_step k v facts ≫= one_framing | _ => Some facts end
    end.
Proof.
  unfold resp_facts, resp_fields. rewrite flat_map_app.
  destruct e as [| | | |k v]; cbn; rewrite ?app_nil_r; try by destruct (_ ≫= one_framing).
  rewrite framing_facts_snoc. destruct (framing_facts _) as [[ns te]|]; [|done]. cbn.
  unfold one_framing at 2. cbn. destruct (nonempty ns && te) eqn:E; [|done]. b2p.
  destruct (case_eqb k "Content-Length"); [|destruct (case_eqb k "Transfer-Encoding")].
  - destruct (cl_number v); [|done]. destruct (same_length _ _); [|done]. cbn. unfold one_framing. cbn.
    rewrite nonempty_snoc. by subst.
  - destruct (te_chunked v); [|done]. cbn. unfold one_framing. cbn. by rewrite H.
  - cbn. unfold one_framing. cbn. by rewrite H, H0.
Qed.

Lemma resp_error_sticky r e : r_error r <> 0 -> r_error (resp_event r e) <> 0.
Proof.
  intros H. destruct e as [| | | |k v]; cbn; try done.
  unfold resp_onHttpField. destruct (case_eqb k "Content-Length"); [|destruct (case_eqb k "Transfer-Encoding"); [|destruct (case_eqb k "Connection")]]; cbn; try done.
  - destruct (parse_cl v); [|done]. destruct (_ && _); [done|]. by destruct (r_hasChunked r).
  - destruct (_ || _); [done|]. destruct (te_hasChunked _); [|done]. by destruct (r_has_clen r).
  - by destruct (hdr_has_token_ows _ _).
Qed.

Lemma resp_onHttpField_list k v r :
  rs_headerList (r_data (resp_onHttpField k v r)) = rs_headerList (r_data r) ++ [(k, v)].
Proof.
  unfold resp_onHttpField. destruct (case_eqb k "Content-Length"); [|destruct (case_eqb k "Transfer-Encoding"); [|destruct (case_eqb k "Connection")]]; cbn; try done.
  - destruct (parse_cl v); [|done]. destruct (_ && _); [done|]. by destruct (r_hasChunked r).
  - destruct (_ || _); [done|]. destruct (te_hasChunked _); [|done]. by destruct (r_has_clen r).
  - by destruct (hdr_has_token_ows _ _).
Qed.

Lemma resp_inv_step evs r e : resp_inv evs r -> resp_inv (evs ++ [e]) (resp_event r e).
Proof.
  intros [Hl Hf]. split.
  { unfold resp_fields. rewrite flat_map_app. cbn. rewrite app_nil_r. fold (resp_fields evs). rewrite <- Hl.
    destruct e as [| | | |k v]; cbn; rewrite ?app_nil_r; try done. apply resp_onHttpField_list. }
  rewrite resp_facts_snoc. destruct (resp_facts evs) as [[ns te]|] eqn:Ef; [|by apply resp_error_sticky].
  assert (Hone : nonempty ns && te = false).
  { unfold resp_facts in Ef. destruct (framing_facts _) as [[ns' te']|]; [|done]. cbn in Ef. unfold one_framing in Ef.
    cbn in Ef. destruct (nonempty ns' && te') eqn:E; by simplify_eq. }
  destruct Hf as (He & Hc & Hn & Ht). destruct e as [| | | |k v]; cbn; try done.
  unfold resp_onHttpField, one_framing.
  destruct (case_eqb k "Content-Length"); [|destruct (case_eqb k "Transfer-Encoding"); [|destruct (case_eqb k "Connection")]]; cbn.
  - rewrite parse_cl_spec. destruct (cl_number v) as [n|]; [|done].
    replace (r_has_clen r && negb (r_clen r =? n)) with (negb (same_length ns n))
      by (unfold same_length; rewrite Hc, Hn; by destruct (nonempty ns), (_ =? n)).
    destruct (same_length ns n) eqn:E; [|done]. cbn. rewrite Ht, nonempty_snoc. cbn.
    destruct te; [done|]. cbn. by rewrite nonempty_snoc, <- head_default_snoc.
  - destruct (parse_te_spec v) as [-> Hte]. destruct (te_chunked v); [|done]. cbn. rewrite Hte, andb_true_r by done.
    rewrite Hc. by destruct (nonempty ns) eqn:E; cbn; rewrite ?E.
  - rewrite Hone. by destruct (hdr_has_token_ows _ _).
  - by rewrite Hone.
Qed.

Lemma resp_inv_all evs : resp_inv evs (resp_events evs).
Proof.
  induction evs as [|e evs IH] using rev_ind; [done|].
  unfold resp_events. rewrite fold_left_app. cbn. by apply resp_inv_step.
Qed.

(** ** Theorems *)

(** C30: a request's framing is unambiguous. Whatever elements the generated parser finds,
    the head that goes on to the upstream has exactly the fields found, in their order,
    and the request is accepted exactly when its version is known and the reference
    decision on those fields accepts them: every length a decimal number in 64 bits and
    all the same, every coding [chunked] alone, and not both. Then the gateway frames the
    body as the reference does, with the same length. *)
Theorem request_framing (evs : list ReqEvent) :
  let '(f, p) := getBodyFraming (req_events evs) in
  let fields := req_fields evs in
  rq_headerList (p_data p) = fields /\
  (p_error p = 0 <-> forallb version_ok evs = true /\ ref_framing F_NONE fields <> None) /\
  (p_error p = 0 -> ref_framing F_NONE fields = Some (f, p_clen p)).
Proof.
  pose proof (req_inv_all evs) as [Hl Hf]. unfold req_facts in Hf.
  assert (Hd : rq_headerList (p_data (getBodyFraming (req_events evs)).2) = req_fields evs).
  { rewrite <- Hl. unfold getBodyFraming. destruct (_ && _), (p_hasChunked _), (p_has_clen _); done. }
  assert (He : p_error (req_events evs) <> 0 -> p_error (getBodyFraming (req_events evs)).2 <> 0).
  { unfold getBodyFraming. by destruct (_ && _), (p_hasChunked _), (p_has_clen _). }
  destruct (getBodyFraming (req_events evs)) as [f p] eqn:Eg. cbn zeta. rewrite ref_framing_facts. cbn in Hd, He.
  split; [done|]. destruct (forallb version_ok evs).
  2: { split; [|intros; exfalso; by apply He]. split; [intros; exfalso; by apply He|by intros [? _]]. }
  destruct (framing_facts (req_fields evs)) as [[ns te]|].
  2: { split; [|intros; exfalso; by apply He]. split; [intros; exfalso; by apply He|by intros [_ ?]]. }
  destruct Hf as (H0 & Hc & Hn & Ht). unfold getBodyFraming in Eg. rewrite Hc, Ht in Eg.
  destruct ns as [|n ns], te; cbn in Eg, Hn; simplify_eq; cbn; rewrite ?H0, ?Hn; (split; [|done]); (split; [done|]); try done.
  by intros [_ ?].
Qed.

(** And a response's: the same reference decides, with reading until the upstream
    closes where there is neither a length nor a coding; what the client is sent has the
    fields that were found. *)
Theorem response_framing (evs : list RespEvent) :
  let r := resp_events evs in
  let fields := resp_fields evs in
  rs_headerList (r_data r) = fields /\
  (r_error r = 0 <-> ref_framing F_UNTIL_CLOSE fields <> None) /\
  (r_error r = 0 -> ref_framing F_UNTIL_CLOSE fields = Some (resp_getBodyFraming r, r_clen r)).
Proof.
  intros r fields. rewrite ref_framing_facts. destruct (resp_inv_all evs) as [Hl Hf]. fold r fields in Hl, Hf. unfold resp_facts in Hf.
  fold fields in Hf. split; [done|].
  destruct (framing_facts fields) as [[ns te]|]; [|done]. cbn in Hf. unfold one_framing in Hf. cbn in Hf.
  unfold resp_getBodyFraming.
  destruct ns as [|n ns], te; cbn in Hf; try destruct Hf as (H0 & -> & Hn & ->); cbn in *; rewrite ?Hn, ?H0; done.
Qed.

(** Two fields [chunked] pass, where the same codings in one field are refused. *)
Example te_twice :
  let one := req_events [E_FIELD "Transfer-Encoding" "chunked, chunked"] in
  let two := req_events [E_FIELD "Transfer-Encoding" "chunked"; E_FIELD "Transfer-Encoding" "chunked"] in
  p_error one = 1003 /\ p_error two = 0 /\ (getBodyFraming two).1 = F_CHUNKED.
Proof. vm_compute. done. Qed.
