(* ===== verification/Arc.v ===== *)
(** * The adaptive replacement cache (src/tools/arc.h)

    Sixteen shards, each with four queues: entries used once and more than once ([t1],
    [t2]) and the keys of entries driven out of them ([b1], [b2]). Each queue comes with
    an index from keys to nodes. The hash is an argument. The theorem says that the
    cache never answers with anything but the last value put for a key, keeps what was
    put last, and stays within its capacity, ghosts included. *)

From S2P Require Import Prelude Records.
From stdpp Require Import sets.

(** ** A queue with its index

    An iterator in the index stands for the node with its key: [q_ok] says there is
    exactly one. *)

Record Queue (V : Type) := mkQueue { q_list : list (string * V); q_map : gset string }.
Arguments mkQueue {V}.
Arguments q_list {V}.
Arguments q_map {V}.

Definition q_empty {V} : Queue V := mkQueue [] ∅.
Definition q_size {V} (q : Queue V) : nat := length (q_list q).

Fixpoint node_find {V} (k : string) (l : list (string * V)) : option V :=
  match l with
  | [] => None
  | (k', v) :: l => if String.eqb k' k then Some v else node_find k l
  end.

Fixpoint node_erase {V} (k : string) (l : list (string * V)) : list (string * V) :=
  match l with
  | [] => []
  | (k', v) :: l => if String.eqb k' k then l else (k', v) :: node_erase k l
  end.

(** [map.find(k)] and what the iterator points at. *)
Definition q_find {V} (k : string) (q : Queue V) : option V :=
  if bool_decide (k ∈ q_map q) then node_find k (q_list q) else None.

(** [list.push_front] and [map[k] = list.begin()]. *)
Definition q_push {V} (k : string) (v : V) (q : Queue V) : Queue V :=
  mkQueue ((k, v) :: q_list q) ({[k]} ∪ q_map q).

(** [list.erase(it->second)] and [map.erase(it)]. *)
Definition q_erase {V} (k : string) (q : Queue V) : Queue V :=
  mkQueue (node_erase k (q_list q)) (q_map q ∖ {[k]}).

(** [splice] to the front, with a value. *)
Definition q_touch {V} (k : string) (v : V) (q : Queue V) : Queue V :=
  mkQueue ((k, v) :: node_erase k (q_list q)) (q_map q).

Definition q_back {V} (q : Queue V) : option string := fst <$> last (q_list q).

(** [map.erase(list.back().key)] and [list.pop_back()]. *)
Definition q_pop {V} (q : Queue V) : Queue V :=
  match q_back q with
  | Some k => mkQueue (removelast (q_list q)) (q_map q ∖ {[k]})
  | None => q
  end.

Definition q_ok {V} (q : Queue V) : Prop :=
  NoDup (q_list q).*1 /\ q_map q = list_to_set (q_list q).*1.

(** ** Shards *)

Record Shard (V : Type) := mkShard {
  sh_p : nat; sh_cap : nat; t1 : Queue V; t2 : Queue V; b1 : Queue unit; b2 : Queue unit }.
Arguments mkShard {V}.
Arguments sh_p {V}.
Arguments sh_cap {V}.
Arguments t1 {V}.
Arguments t2 {V}.
Arguments b1 {V}.
Arguments b2 {V}.

Section shard.
Context {V : Type}.
Implicit Types s : Shard V.

Definition shard_init (cap : nat) : Shard V := mkShard 0 cap q_empty q_empty q_empty q_empty.

Definition set_t1 (q : Queue V) s : Shard V := mkShard (sh_p s) (sh_cap s) q (t2 s) (b1 s) (b2 s).
Definition set_t2 (q : Queue V) s : Shard V := mkShard (sh_p s) (sh_cap s) (t1 s) q (b1 s) (b2 s).
Definition set_b1 (q : Queue unit) s : Shard V := mkShard (sh_p s) (sh_cap s) (t1 s) (t2 s) q (b2 s).
Definition set_b2 (q : Queue unit) s : Shard V := mkShard (sh_p s) (sh_cap s) (t1 s) (t2 s) (b1 s) q.
Definition set_p (p : nat) s : Shard V := mkShard p (sh_cap s) (t1 s) (t2 s) (b1 s) (b2 s).

Definition shard_get (k : string) s : option V * Shard V :=
  match q_find k (t1 s) with
  | Some v => (Some v, set_t2 (q_push k v (t2 s)) (set_t1 (q_erase k (t1 s)) s))
  | None =>
      match q_find k (t2 s) with
      | Some v => (Some v, set_t2 (q_touch k v (t2 s)) s)
      | None => (None, s)
      end
  end.

(** The oldest of [t1] becomes a ghost in [b1]; the oldest of [t2] one in [b2]. *)
Definition drive_t1 s : Shard V :=
  match q_back (t1 s) with
  | Some k => set_t1 (q_pop (t1 s)) (set_b1 (q_push k tt (b1 s)) s)
  | None => s
  end.

Definition drive_t2 s : Shard V :=
  match q_back (t2 s) with
  | Some k => set_t2 (q_pop (t2 s)) (set_b2 (q_push k tt (b2 s)) s)
  | None => s
  end.

Definition q_none {W} (q : Queue W) : bool := match q_list q with [] => true | _ => false end.

Definition do_replace (from_b2 : bool) s : Shard V :=
  let n := q_size (t1 s) in
  if negb (q_none (t1 s)) && ((sh_p s <? n)%nat || (from_b2 && (n =? sh_p s)%nat)) then drive_t1 s
  else if negb (q_none (t2 s)) then drive_t2 s
  else if negb (q_none (t1 s)) then drive_t1 s
  else s.

Definition evict_ghost s : Shard V :=
  if negb (q_none (b1 s)) then set_b1 (q_pop (b1 s)) s
  else if negb (q_none (b2 s)) then set_b2 (q_pop (b2 s)) s
  else s.

(** How far the target moves on a hit among the ghosts of [a], the others being [b]. *)
Definition delta (a b : nat) : nat := if (b <=? a)%nat then 1 else if (0 <? a)%nat then Nat.div b a else 1.

Definition shard_put (k : string) (v : V) s : Shard V :=
  let t1sz := q_size (t1 s) in
  let t2sz := q_size (t2 s) in
  let b1sz := q_size (b1 s) in
  let b2sz := q_size (b2 s) in
  match q_find k (t1 s) with
  | Some _ => set_t2 (q_push k v (t2 s)) (set_t1 (q_erase k (t1 s)) s)
  | None =>
  match q_find k (t2 s) with
  | Some _ => set_t2 (q_touch k v (t2 s)) s
  | None =>
  match q_find k (b1 s) with
  | Some _ =>
      let d := delta b1sz b2sz in
      let s := set_p (if (sh_p s + d <? sh_cap s)%nat then sh_p s + d else sh_cap s)%nat s in
      let s := do_replace false s in
      let s := set_b1 (q_erase k (b1 s)) s in
      set_t2 (q_push k v (t2 s)) s
  | None =>
  match q_find k (b2 s) with
  | Some _ =>
      let d := delta b2sz b1sz in
      let s := set_p (if (d <? sh_p s)%nat then sh_p s - d else 0)%nat s in
      let s := do_replace true s in
      let s := set_b2 (q_erase k (b2 s)) s in
      set_t2 (q_push k v (t2 s)) s
  | None =>
      if (sh_cap s <=? t1sz + b1sz)%nat then
        let s :=
          if (t1sz <? sh_cap s)%nat then
            do_replace false (if negb (q_none (b1 s)) then set_b1 (q_pop (b1 s)) s else s)
          else if negb (q_none (t1 s)) then set_t1 (q_pop (t1 s)) s else s in
        set_t1 (q_push k v (t1 s)) s
      else
        let s :=
          if (sh_cap s <=? t1sz + t2sz)%nat then
            let s := do_replace false s in
            if (sh_cap s <=? q_size (b1 s) + q_size (b2 s))%nat then evict_ghost s else s
          else s in
        set_t1 (q_push k v (t1 s)) s
  end end end end.

Definition shard_clear s : Shard V := mkShard 0 (sh_cap s) q_empty q_empty q_empty q_empty.
End shard.

(** ** The cache *)

Definition kShards : nat := 16.

Record Arc (V : Type) := mkArc {
  m_shardCount : nat; m_shards : list (Shard V); m_hits : Z; m_misses : Z }.
Arguments mkArc {V}.
Arguments m_shardCount {V}.
Arguments m_shards {V}.
Arguments m_hits {V}.
Arguments m_misses {V}.

Section arc.
Context {V : Type} (hash : string -> nat).

Definition arc_init (cap : nat) : Arc V :=
  if (cap =? 0)%nat then mkArc 0 (replicate kShards (shard_init 0)) 0 0
  else
    let count := if (cap <? kShards)%nat then cap else kShards in
    let base := Nat.div cap count in
    let extra := Nat.modulo cap count in
    mkArc count
      (List.map (fun i => shard_init (if (i <? count)%nat then base + (if (i <? extra)%nat then 1 else 0) else 0)%nat)
         (seq 0 kShards)) 0 0.

Definition shard_of (k : string) (a : Arc V) : nat := Nat.modulo (hash k) (m_shardCount a).

Definition hit (a : Arc V) : Arc V := mkArc (m_shardCount a) (m_shards a) (wrap64 (m_hits a + 1)) (m_misses a).
Definition miss (a : Arc V) : Arc V := mkArc (m_shardCount a) (m_shards a) (m_hits a) (wrap64 (m_misses a + 1)).
Definition with_shards (l : list (Shard V)) (a : Arc V) : Arc V := mkArc (m_shardCount a) l (m_hits a) (m_misses a).

Definition arc_get (k : string) (a : Arc V) : option V * Arc V :=
  if (m_shardCount a =? 0)%nat then (None, miss a)
  else
    match m_shards a !! shard_of k a with
    | Some s =>
        match shard_get k s with
        | (Some v, s) => (Some v, hit (with_shards (<[shard_of k a := s]> (m_shards a)) a))
        | (None, _) => (None, miss a)
        end
    | None => (None, a)
    end.

Definition arc_put (k : string) (v : V) (a : Arc V) : Arc V :=
  if (m_shardCount a =? 0)%nat then a
  else
    match m_shards a !! shard_of k a with
    | Some s => with_shards (<[shard_of k a := shard_put k v s]> (m_shards a)) a
    | None => a
    end.

Definition arc_invalidate (a : Arc V) : Arc V := with_shards (List.map shard_clear (m_shards a)) a.

Definition arc_stats (a : Arc V) : Z * Z := (m_hits a, m_misses a).
End arc.

(** ** Queues *)

Section queue.
Context {V : Type}.
Implicit Types q : Queue V.

Lemma q_ok_empty : q_ok (@q_empty V).
Proof. split; [constructor|done]. Qed.

Lemma node_find_Some k v (l : list (string * V)) : node_find k l = Some v -> (k, v) ∈ l.
Proof.
  induction l as [|[k' v'] l IH]; cbn; [done|]. destruct (String.eqb k' k) eqn:E.
  - apply String.eqb_eq in E as ->. intros [= ->]. left.
  - intros H. right. auto.
Qed.

Lemma node_find_None k (l : list (string * V)) : node_find k l = None <-> k ∉ l.*1.
Proof.
  induction l as [|[k' v'] l IH]; cbn; [set_solver|]. destruct (String.eqb k' k) eqn:E.
  - apply String.eqb_eq in E as ->. split; [done|set_solver].
  - apply String.eqb_neq in E. rewrite IH. set_solver.
Qed.

Lemma node_erase_perm k v (l : list (string * V)) : node_find k l = Some v -> l ≡ₚ (k, v) :: node_erase k l.
Proof.
  induction l as [|[k' v'] l IH]; cbn; [done|]. destruct (String.eqb k' k) eqn:E.
  - apply String.eqb_eq in E as ->. by intros [= ->].
  - intros H. rewrite (IH H) at 1. apply perm_swap.
Qed.

Lemma q_ok_perm (l l' : list (string * V)) : l ≡ₚ l' -> NoDup l.*1 ->
  NoDup l'.*1 /\ (list_to_set l.*1 : gset string) = list_to_set l'.*1.
Proof.
  intros H Hn. apply (fmap_Permutation fst) in H. split; [by rewrite <- H|].
  apply leibniz_equiv. by rewrite H.
Qed.

(** The index is right. *)
Lemma q_find_None q k : q_ok q -> q_find k q = None <-> k ∉ q_map q.
Proof.
  intros [_ Hm]. unfold q_find. case_bool_decide as H; [|tauto]. rewrite node_find_None, Hm.
  by rewrite elem_of_list_to_set.
Qed.

Lemma q_find_Some q k v : q_find k q = Some v -> k ∈ q_map q /\ (k, v) ∈ q_list q.
Proof. unfold q_find. case_bool_decide; [|done]. intros E. split; [done|by apply node_find_Some]. Qed.

Lemma q_find_node q k v : q_find k q = Some v -> node_find k (q_list q) = Some v.
Proof. unfold q_find. by case_bool_decide. Qed.

Lemma q_ok_push q k v : q_ok q -> k ∉ q_map q -> q_ok (q_push k v q).
Proof.
  intros [Hn Hm] Hk. split; cbn; [|by rewrite Hm].
  constructor; [|done]. by rewrite Hm, elem_of_list_to_set in Hk.
Qed.

Lemma q_erase_perm q k v : q_find k q = Some v -> q_list q ≡ₚ (k, v) :: q_list (q_erase k q).
Proof. intros H%q_find_node. by apply node_erase_perm. Qed.

Lemma q_ok_erase q k v : q_ok q -> q_find k q = Some v -> q_ok (q_erase k q).
Proof.
  intros [Hn Hm] H. destruct (q_ok_perm _ _ (q_erase_perm _ _ _ H) Hn) as [Hn' Hs].
  cbn in Hn', Hs. apply NoDup_cons in Hn' as [Hk Hn']. split; [done|]. cbn. rewrite Hm, Hs.
  apply leibniz_equiv. set_solver.
Qed.

Lemma q_ok_touch q k v w : q_ok q -> q_find k q = Some w -> q_ok (q_touch k v q).
Proof.
  intros [Hn Hm] H. destruct (q_ok_perm _ _ (q_erase_perm _ _ _ H) Hn) as [Hn' Hs].
  split; [done|]. cbn. rewrite Hm, Hs. done.
Qed.

Lemma q_back_list q k : q_back q = Some k -> exists v, q_list q = removelast (q_list q) ++ [(k, v)].
Proof.
  unfold q_back. destruct (last (q_list q)) as [[k' v]|] eqn:E; [|done]. intros [= ->].
  exists v. apply last_Some in E as [l ->]. by rewrite removelast_last.
Qed.

Lemma q_back_None q : q_back q = None -> q_none q = true.
Proof.
  unfold q_back, q_none. destruct (q_list q) as [|x l] eqn:E; [done|].
  by destruct (last (x :: l)) eqn:El; [|apply last_None in El].
Qed.

Lemma q_pop_list q k : q_back q = Some k -> exists v, q_list q = q_list (q_pop q) ++ [(k, v)].
Proof. intros H. unfold q_pop. rewrite H. by apply q_back_list. Qed.

Lemma q_pop_map q k : q_back q = Some k -> q_map (q_pop q) = q_map q ∖ {[k]}.
Proof. intros H. unfold q_pop. by rewrite H. Qed.

Lemma q_back_in q k : q_ok q -> q_back q = Some k -> k ∈ q_map q.
Proof.
  intros [_ ->] H. destruct (q_back_list _ _ H) as [v E]. rewrite E, fmap_app. set_solver.
Qed.

Lemma q_ok_pop q : q_ok q -> q_ok (q_pop q).
Proof.
  intros [Hn Hm]. destruct (q_back q) as [k|] eqn:E; [|unfold q_pop; by rewrite E].
  destruct (q_pop_list _ _ E) as [v El]. split.
  - rewrite El, fmap_app, NoDup_app in Hn. tauto.
  - rewrite (q_pop_map _ _ E), Hm. rewrite El at 1. rewrite El, fmap_app, NoDup_app in Hn.
    destruct Hn as (_ & Hd & _). rewrite fmap_app. cbn.
    assert (k ∉ (q_list (q_pop q)).*1) by (intros Hk; apply (Hd k Hk); set_solver).
    apply leibniz_equiv. set_solver.
Qed.

Lemma q_size_push q k v : q_size (q_push k v q) = S (q_size q).
Proof. done. Qed.

Lemma q_size_erase q k v : q_find k q = Some v -> q_size q = S (q_size (q_erase k q)).
Proof. intros H. unfold q_size. by rewrite (Permutation_length (q_erase_perm _ _ _ H)). Qed.

Lemma q_size_touch q k v w : q_find k q = Some w -> q_size (q_touch k v q) = q_size q.
Proof. intros H. by rewrite (q_size_erase _ _ _ H). Qed.

Lemma q_size_pop q : q_none q = false -> q_size q = S (q_size (q_pop q)).
Proof.
  intros H. destruct (q_back q) as [k|] eqn:E; [|by rewrite q_back_None in H].
  destruct (q_pop_list _ _ E) as [v El]. unfold q_size. rewrite El at 1. rewrite length_app. cbn. lia.
Qed.

Lemma q_none_size q : q_none q = (q_size q =? 0)%nat.
Proof. unfold q_none, q_size. by destruct (q_list q). Qed.

(** What is there after an operation was there before, or was put. *)
Lemma q_pop_sub q x : x ∈ q_list (q_pop q) -> x ∈ q_list q.
Proof.
  destruct (q_back q) as [k|] eqn:E; [|unfold q_pop; by rewrite E].
  destruct (q_pop_list _ _ E) as [v ->]. set_solver.
Qed.

Lemma q_pop_map_sub q : q_map (q_pop q) ⊆ q_map q.
Proof. destruct (q_back q) as [k|] eqn:E; [rewrite (q_pop_map _ _ E); set_solver|unfold q_pop; by rewrite E]. Qed.

Lemma node_erase_sub k (l : list (string * V)) x : x ∈ node_erase k l -> x ∈ l.
Proof.
  induction l as [|[k' v'] l IH]; cbn; [done|]. destruct (String.eqb k' k); [by right|].
  intros [->|H]%elem_of_cons; [left|right; auto].
Qed.

(** In a queue without doubles, nothing of an erased key is left. *)
Lemma node_erase_key k v (l : list (string * V)) : NoDup l.*1 -> (k, v) ∉ node_erase k l.
Proof.
  induction l as [|[k' v'] l IH]; cbn; [set_solver|]. intros [Hk Hn]%NoDup_cons.
  destruct (String.eqb k' k) eqn:E.
  - apply String.eqb_eq in E as ->. intros H. apply Hk. apply list_elem_of_fmap. by exists (k, v).
  - intros [[= -> ->]|H]%elem_of_cons; [by rewrite String.eqb_refl in E|by apply IH].
Qed.
End queue.

(** ** Shards *)

(** [set_solver] on indices, whatever they are of. *)
Ltac sets :=
  repeat match goal with
  | |- context [q_map ?q] => let m := fresh "m" in set (m := q_map q) in *; clearbody m
  | H : context [q_map ?q] |- _ => let m := fresh "m" in set (m := q_map q) in *; clearbody m
  end; set_solver.

Section shard_lemmas.
Context {V : Type}.
Implicit Types s : Shard V.

Record shard_wf s : Prop := {
  wf_t1 : q_ok (t1 s); wf_t2 : q_ok (t2 s); wf_b1 : q_ok (b1 s); wf_b2 : q_ok (b2 s);
  wf_t : q_map (t1 s) ## q_map (t2 s);
  wf_b : q_map (b1 s) ## q_map (b2 s);
  wf_tb : q_map (t1 s) ∪ q_map (t2 s) ## q_map (b1 s) ∪ q_map (b2 s) }.

Definition live s : nat := (q_size (t1 s) + q_size (t2 s))%nat.
Definition ghosts s : nat := (q_size (b1 s) + q_size (b2 s))%nat.
Definition seen_once s : nat := (q_size (t1 s) + q_size (b1 s))%nat.

(** The bounds: ghosts are kept only of a full shard, and fewer than its capacity. *)
Definition shard_sizes s : Prop :=
  (live s <= sh_cap s /\ ghosts s < sh_cap s /\ seen_once s <= sh_cap s /\ sh_p s <= sh_cap s)%nat /\
  ((0 < ghosts s)%nat -> live s = sh_cap s).

(** What a shard holds. *)
Definition holds_kv s (k : string) (v : V) : Prop := (k, v) ∈ q_list (t1 s) \/ (k, v) ∈ q_list (t2 s).

(** The entry that leaves [t1] or [t2] is a ghost afterwards, and nothing else changes. *)
Record driven s s' : Prop := {
  dr_wf : shard_wf s';
  dr_live : live s = S (live s');
  dr_ghosts : ghosts s' = S (ghosts s);
  dr_recent : seen_once s' = seen_once s;
  dr_t1 : q_map (t1 s') ⊆ q_map (t1 s); dr_t2 : q_map (t2 s') ⊆ q_map (t2 s);
  dr_b1 : q_map (b1 s) ⊆ q_map (b1 s') /\ q_map (b1 s') ⊆ q_map (b1 s) ∪ q_map (t1 s);
  dr_b2 : q_map (b2 s) ⊆ q_map (b2 s') /\ q_map (b2 s') ⊆ q_map (b2 s) ∪ q_map (t2 s);
  dr_kv : forall k v, holds_kv s' k v -> holds_kv s k v;
  dr_cap : sh_cap s' = sh_cap s; dr_p : sh_p s' = sh_p s }.

Lemma drive_t1_driven s : shard_wf s -> q_none (t1 s) = false -> driven s (drive_t1 s).
Proof.
  intros [H1 H2 H3 H4 D1 D2 D3] Hn. unfold drive_t1.
  destruct (q_back (t1 s)) as [k|] eqn:E; [|by rewrite q_back_None in Hn].
  pose proof (q_back_in _ _ H1 E) as Hk. pose proof (q_pop_map _ _ E) as Hm. pose proof (q_size_pop _ Hn) as Hs.
  split; unfold live, ghosts, seen_once, holds_kv; cbn [set_t1 set_b1 t1 t2 b1 b2 sh_cap sh_p]; rewrite ?q_size_push; try lia; try done.
  - split; cbn; rewrite ?Hm; try done; try (by apply q_ok_pop); try (apply q_ok_push; [done|]);
      clear - Hk D1 D2 D3; sets.
  - rewrite Hm. clear. sets.
  - cbn. clear - Hk. sets.
  - clear. sets.
  - intros k' v' [H|H]; [left; by apply q_pop_sub|by right].
Qed.

Lemma drive_t2_driven s : shard_wf s -> q_none (t2 s) = false -> driven s (drive_t2 s).
Proof.
  intros [H1 H2 H3 H4 D1 D2 D3] Hn. unfold drive_t2.
  destruct (q_back (t2 s)) as [k|] eqn:E; [|by rewrite q_back_None in Hn].
  pose proof (q_back_in _ _ H2 E) as Hk. pose proof (q_pop_map _ _ E) as Hm. pose proof (q_size_pop _ Hn) as Hs.
  split; unfold live, ghosts, seen_once, holds_kv; cbn [set_t2 set_b2 t1 t2 b1 b2 sh_cap sh_p]; rewrite ?q_size_push; try lia; try done.
  - split; cbn; rewrite ?Hm; try done; try (by apply q_ok_pop); try (apply q_ok_push; [done|]);
      clear - Hk D1 D2 D3; sets.
  - rewrite Hm. clear. sets.
  - clear. sets.
  - cbn. clear - Hk. sets.
  - intros k' v' [H|H]; [by left|right; by apply q_pop_sub].
Qed.

(** A shard with anything in it gives one entry up. *)
Lemma do_replace_driven f s : shard_wf s -> (0 < live s)%nat -> driven s (do_replace f s).
Proof.
  intros Hw Hl. unfold do_replace. destruct (_ && _) eqn:E.
  - b2p. by apply drive_t1_driven.
  - destruct (q_none (t2 s)) eqn:E2; [|by apply drive_t2_driven]. cbn.
    destruct (q_none (t1 s)) eqn:E1; [|by apply drive_t1_driven].
    rewrite q_none_size in E1, E2. b2p. unfold live in Hl. lia.
Qed.

(** One ghost less, when there is one. *)
Record dropped s s' : Prop := {
  dp_wf : shard_wf s';
  dp_t1 : t1 s' = t1 s; dp_t2 : t2 s' = t2 s;
  dp_ghosts : ghosts s = S (ghosts s');
  dp_recent : (seen_once s' <= seen_once s)%nat;
  dp_b1 : q_map (b1 s') ⊆ q_map (b1 s); dp_b2 : q_map (b2 s') ⊆ q_map (b2 s);
  dp_cap : sh_cap s' = sh_cap s; dp_p : sh_p s' = sh_p s }.

Lemma pop_b1_dropped s : shard_wf s -> q_none (b1 s) = false -> dropped s (set_b1 (q_pop (b1 s)) s).
Proof.
  intros [H1 H2 H3 H4 D1 D2 D3] Hn. pose proof (q_pop_map_sub (b1 s)) as Hm. pose proof (q_size_pop _ Hn) as Hs.
  split; unfold ghosts, seen_once; cbn [set_b1 t1 t2 b1 b2 sh_cap sh_p]; try lia; try done.
  split; cbn; try done; try (by apply q_ok_pop); clear - Hm D1 D2 D3; sets.
Qed.

Lemma pop_b2_dropped s : shard_wf s -> q_none (b2 s) = false -> dropped s (set_b2 (q_pop (b2 s)) s).
Proof.
  intros [H1 H2 H3 H4 D1 D2 D3] Hn. pose proof (q_pop_map_sub (b2 s)) as Hm. pose proof (q_size_pop _ Hn) as Hs.
  split; unfold ghosts, seen_once; cbn [set_b2 t1 t2 b1 b2 sh_cap sh_p]; try lia; try done.
  split; cbn; try done; try (by apply q_ok_pop); clear - Hm D1 D2 D3; sets.
Qed.

Lemma evict_ghost_dropped s : shard_wf s -> (0 < ghosts s)%nat -> dropped s (evict_ghost s).
Proof.
  intros Hw Hg. unfold evict_ghost. destruct (q_none (b1 s)) eqn:E1; [|by apply pop_b1_dropped]. cbn.
  destruct (q_none (b2 s)) eqn:E2; [|by apply pop_b2_dropped].
  rewrite q_none_size in E1, E2. b2p. unfold ghosts in Hg. lia.
Qed.

(** A key in no queue. *)
Definition absent k s : Prop :=
  (k ∉ q_map (t1 s)) /\ (k ∉ q_map (t2 s)) /\ (k ∉ q_map (b1 s)) /\ (k ∉ q_map (b2 s)).

Lemma driven_absent k s s' : driven s s' -> absent k s -> absent k s'.
Proof.
  intros [_ _ _ _ H1 H2 [_ H3] [_ H4] _ _ _] (A1 & A2 & A3 & A4). unfold absent.
  clear - H1 H2 H3 H4 A1 A2 A3 A4. sets.
Qed.

Lemma dropped_absent k s s' : dropped s s' -> absent k s -> absent k s'.
Proof.
  intros [_ H1 H2 _ _ H3 H4 _ _] (A1 & A2 & A3 & A4). unfold absent. rewrite H1, H2.
  clear - H3 H4 A1 A2 A3 A4. sets.
Qed.

Lemma push_t1_wf k v s : shard_wf s -> absent k s -> shard_wf (set_t1 (q_push k v (t1 s)) s).
Proof.
  intros [H1 H2 H3 H4 D1 D2 D3] (A1 & A2 & A3 & A4). split; cbn; try done; try (by apply q_ok_push);
    clear - A1 A2 A3 A4 D1 D2 D3; sets.
Qed.

Lemma push_t2_wf k v s : shard_wf s -> absent k s -> shard_wf (set_t2 (q_push k v (t2 s)) s).
Proof.
  intros [H1 H2 H3 H4 D1 D2 D3] (A1 & A2 & A3 & A4). split; cbn; try done; try (by apply q_ok_push);
    clear - A1 A2 A3 A4 D1 D2 D3; sets.
Qed.

(** A hit moves an entry to the front of [t2]. *)
Lemma promote_t1 k v w s : shard_wf s -> q_find k (t1 s) = Some w ->
  let s' := set_t2 (q_push k v (t2 s)) (set_t1 (q_erase k (t1 s)) s) in
  shard_wf s' /\ live s' = live s /\ ghosts s' = ghosts s /\ (seen_once s' <= seen_once s)%nat.
Proof.
  intros [H1 H2 H3 H4 D1 D2 D3] Hf. pose proof (q_size_erase _ _ _ Hf) as Hs.
  destruct (q_find_Some _ _ _ Hf) as [Hk _]. unfold live, ghosts, seen_once.
  cbn [set_t1 set_t2 t1 t2 b1 b2]. rewrite q_size_push. split_and!; [|lia|lia|lia].
  split; cbn; try done; try (by eapply q_ok_erase); try (apply q_ok_push; [done|]);
    clear - Hk D1 D2 D3; sets.
Qed.

Lemma promote_t2 k v w s : shard_wf s -> q_find k (t2 s) = Some w ->
  let s' := set_t2 (q_touch k v (t2 s)) s in
  shard_wf s' /\ live s' = live s /\ ghosts s' = ghosts s /\ (seen_once s' <= seen_once s)%nat.
Proof.
  intros [H1 H2 H3 H4 D1 D2 D3] Hf. unfold live, ghosts, seen_once. cbn [set_t2 t1 t2 b1 b2].
  rewrite (q_size_touch _ _ _ _ Hf). split_and!; [|lia|lia|lia]. split; cbn; try done. by eapply q_ok_touch.
Qed.

(** A ghost comes back: its key leaves the ghosts and enters [t2]. *)
Lemma revive_b1 k v w s : shard_wf s -> q_find k (b1 s) = Some w ->
  let s' := set_t2 (q_push k v (t2 s)) (set_b1 (q_erase k (b1 s)) s) in
  shard_wf s' /\ live s' = S (live s) /\ ghosts s = S (ghosts s') /\ seen_once s = S (seen_once s').
Proof.
  intros [H1 H2 H3 H4 D1 D2 D3] Hf. pose proof (q_size_erase _ _ _ Hf) as Hs.
  destruct (q_find_Some _ _ _ Hf) as [Hk _]. unfold live, ghosts, seen_once.
  cbn [set_b1 set_t2 t1 t2 b1 b2]. rewrite q_size_push. split_and!; [|lia|lia|lia].
  split; cbn; try done; try (by eapply q_ok_erase); try (apply q_ok_push; [done|]);
    clear - Hk D1 D2 D3; sets.
Qed.

Lemma revive_b2 k v w s : shard_wf s -> q_find k (b2 s) = Some w ->
  let s' := set_t2 (q_push k v (t2 s)) (set_b2 (q_erase k (b2 s)) s) in
  shard_wf s' /\ live s' = S (live s) /\ ghosts s = S (ghosts s') /\ seen_once s' = seen_once s.
Proof.
  intros [H1 H2 H3 H4 D1 D2 D3] Hf. pose proof (q_size_erase _ _ _ Hf) as Hs.
  destruct (q_find_Some _ _ _ Hf) as [Hk _]. unfold live, ghosts, seen_once.
  cbn [set_b2 set_t2 t1 t2 b1 b2]. rewrite q_size_push. split_and!; [|lia|lia|lia].
  split; cbn; try done; try (by eapply q_ok_erase); try (apply q_ok_push; [done|]);
    clear - Hk D1 D2 D3; sets.
Qed.

Lemma find_in k s (q : Queue unit) : q_ok q -> k ∈ q_map q -> exists w, q_find k q = Some w.
Proof.
  intros Hq Hk. destruct (q_find k q) as [w|] eqn:E; [by exists w|].
  by apply q_find_None in E.
Qed.

(** ** A lookup *)

Lemma shard_get_spec k s : shard_wf s -> shard_sizes s ->
  let '(o, s') := shard_get k s in
  shard_wf s' /\ shard_sizes s' /\ sh_cap s' = sh_cap s /\
  (forall v, o = Some v -> holds_kv s k v) /\ (forall k' v, holds_kv s' k' v -> holds_kv s k' v).
Proof.
  intros Hw Hz. unfold shard_get. destruct (q_find k (t1 s)) as [v|] eqn:E1.
  - destruct (promote_t1 k v v s Hw E1) as (Hw' & Hl & Hg & Hr). destruct (q_find_Some _ _ _ E1) as [_ Hin].
    split_and!; [done| |done|by intros ? [= <-]; left|].
    + destruct Hz as [[] Hz]. unfold shard_sizes. rewrite Hl, Hg. cbn [set_t1 set_t2 sh_cap sh_p] in *. split; [lia|done].
    + unfold holds_kv. cbn. intros k' v' [H|[[= -> ->]|H]%elem_of_cons]; [|by left|by right].
      left. by eapply node_erase_sub.
  - destruct (q_find k (t2 s)) as [v|] eqn:E2; [|done].
    destruct (promote_t2 k v v s Hw E2) as (Hw' & Hl & Hg & Hr). destruct (q_find_Some _ _ _ E2) as [_ Hin].
    split_and!; [done| |done|by intros ? [= <-]; right|].
    + destruct Hz as [[] Hz]. unfold shard_sizes. rewrite Hl, Hg. cbn [set_t1 set_t2 sh_cap sh_p] in *. split; [lia|done].
    + unfold holds_kv. cbn. intros k' v' [H|[[= -> ->]|H]%elem_of_cons]; [by left|by right|].
      right. by eapply node_erase_sub.
Qed.

(** ** An insertion *)

Record stored k v s s' : Prop := {
  st_wf : shard_wf s'; st_sizes : shard_sizes s'; st_cap : sh_cap s' = sh_cap s;
  st_has : holds_kv s' k v;
  st_old : forall k' v', holds_kv s' k' v' -> (k' = k /\ v' = v) \/ holds_kv s k' v' }.

Ltac sizes := unfold shard_sizes in *; cbn [set_t1 set_t2 set_b1 set_b2 set_p sh_cap sh_p] in *.

Lemma put_t1 k v w s : shard_wf s -> shard_sizes s -> q_find k (t1 s) = Some w ->
  stored k v s (set_t2 (q_push k v (t2 s)) (set_t1 (q_erase k (t1 s)) s)).
Proof.
  intros Hw Hz E. destruct (promote_t1 k v w s Hw E) as (Hw' & Hl & Hg & Hr).
  split; [done| |done|right; left|].
  - sizes. rewrite Hl, Hg. split; [lia|tauto].
  - unfold holds_kv. cbn. intros k' v' [H|[[= -> ->]|H]%elem_of_cons]; [|by left|by right; right].
    right. left. by eapply node_erase_sub.
Qed.

Lemma put_t2 k v w s : shard_wf s -> shard_sizes s -> q_find k (t2 s) = Some w ->
  stored k v s (set_t2 (q_touch k v (t2 s)) s).
Proof.
  intros Hw Hz E. destruct (promote_t2 k v w s Hw E) as (Hw' & Hl & Hg & Hr).
  split; [done| |done|right; left|].
  - sizes. rewrite Hl, Hg. split; [lia|tauto].
  - unfold holds_kv. cbn. intros k' v' [H|[[= -> ->]|H]%elem_of_cons]; [by right; left|by left|].
    right. right. by eapply node_erase_sub.
Qed.

(** The target does not matter to what a shard holds. *)
Lemma set_p_wf p s : shard_wf s -> shard_wf (set_p p s).
Proof. by intros []. Qed.

Lemma ghost_full s k w (q : Queue unit) : (q = b1 s \/ q = b2 s) -> q_find k q = Some w -> (0 < ghosts s)%nat.
Proof. unfold ghosts. intros [-> | ->] H%q_size_erase; lia. Qed.

Lemma put_b1 k v w p s : shard_wf s -> shard_sizes s -> q_find k (b1 s) = Some w -> (p <= sh_cap s)%nat ->
  let r := do_replace false (set_p p s) in
  stored k v s (set_t2 (q_push k v (t2 r)) (set_b1 (q_erase k (b1 r)) r)).
Proof.
  intros Hw Hz E Hp r. pose proof (ghost_full s k w (b1 s) (or_introl eq_refl) E) as Hg.
  destruct (q_find_Some _ _ _ E) as [Hk _].
  assert (Hd : driven (set_p p s) r).
  { apply do_replace_driven; [by apply set_p_wf|]. change (0 < live s)%nat. sizes. lia. }
  destruct Hd as [Rw Rl Rg Rr R1 R2 [R3 R3'] R4 Rkv Rc Rp]. cbn [set_p b1] in R3.
  destruct (find_in k r (b1 r)) as [w' E']; [by apply Rw|by apply R3|].
  destruct (revive_b1 k v w' r Rw E') as (Hw' & Hl & Hg' & Hr').
  change (live (set_p p s)) with (live s) in Rl. change (ghosts (set_p p s)) with (ghosts s) in Rg.
  change (seen_once (set_p p s)) with (seen_once s) in Rr.
  split; [done| |done|right; left|].
  - sizes. rewrite Hl. split; [lia|]. lia.
  - unfold holds_kv. cbn. intros k' v' [H|[[= -> ->]|H]%elem_of_cons];
      [right; apply (Rkv k' v'); by left|by left|right; apply (Rkv k' v'); by right].
Qed.

Lemma put_b2 k v w p s : shard_wf s -> shard_sizes s -> q_find k (b2 s) = Some w -> (p <= sh_cap s)%nat ->
  let r := do_replace true (set_p p s) in
  stored k v s (set_t2 (q_push k v (t2 r)) (set_b2 (q_erase k (b2 r)) r)).
Proof.
  intros Hw Hz E Hp r. pose proof (ghost_full s k w (b2 s) (or_intror eq_refl) E) as Hg.
  destruct (q_find_Some _ _ _ E) as [Hk _].
  assert (Hd : driven (set_p p s) r).
  { apply do_replace_driven; [by apply set_p_wf|]. change (0 < live s)%nat. sizes. lia. }
  destruct Hd as [Rw Rl Rg Rr R1 R2 R3 [R4 R4'] Rkv Rc Rp]. cbn [set_p b2] in R4.
  destruct (find_in k r (b2 r)) as [w' E']; [by apply Rw|by apply R4|].
  destruct (revive_b2 k v w' r Rw E') as (Hw' & Hl & Hg' & Hr').
  change (live (set_p p s)) with (live s) in Rl. change (ghosts (set_p p s)) with (ghosts s) in Rg.
  change (seen_once (set_p p s)) with (seen_once s) in Rr.
  split; [done| |done|right; left|].
  - sizes. rewrite Hl. split; [lia|]. lia.
  - unfold holds_kv. cbn. intros k' v' [H|[[= -> ->]|H]%elem_of_cons];
      [right; apply (Rkv k' v'); by left|by left|right; apply (Rkv k' v'); by right].
Qed.

(** A new key goes to the front of [t1], once there is room. *)
Lemma put_front k v s r : shard_wf r -> absent k r -> sh_cap r = sh_cap s -> sh_p r = sh_p s ->
  (sh_p s <= sh_cap s)%nat -> (live r < sh_cap s)%nat -> (ghosts r < sh_cap s)%nat -> (seen_once r < sh_cap s)%nat ->
  ((0 < ghosts r)%nat -> S (live r) = sh_cap s) ->
  (forall k' v', holds_kv r k' v' -> holds_kv s k' v') ->
  stored k v s (set_t1 (q_push k v (t1 r)) r).
Proof.
  intros Hw Ha Hc Hp Hps Hl Hg Hr Hf Hkv.
  split; [by apply push_t1_wf| |done|left; left|].
  - unfold shard_sizes, live, ghosts, seen_once in *. cbn [set_t1 t1 t2 b1 b2 sh_cap sh_p]. rewrite q_size_push, Hc, Hp.
    split; [lia|]. intros H. rewrite <- Hf by done. lia.
  - unfold holds_kv. cbn. intros k' v' [[[= -> ->]|H]%elem_of_cons|H]; [by left| |]; right; apply Hkv; [by left|by right].
Qed.

Lemma put_new_full k v s : shard_wf s -> shard_sizes s -> absent k s -> (sh_cap s <= seen_once s)%nat ->
  let r :=
    if (q_size (t1 s) <? sh_cap s)%nat then
      do_replace false (if negb (q_none (b1 s)) then set_b1 (q_pop (b1 s)) s else s)
    else if negb (q_none (t1 s)) then set_t1 (q_pop (t1 s)) s else s in
  stored k v s (set_t1 (q_push k v (t1 r)) r).
Proof.
  intros Hw Hz Ha Hr r. destruct (q_size (t1 s) <? sh_cap s)%nat eqn:Et; b2p; unfold r.
  - destruct (q_none (b1 s)) eqn:Eb; [rewrite q_none_size in Eb; b2p; unfold seen_once in Hr; lia|]. cbn [negb].
    pose proof (pop_b1_dropped s Hw Eb) as Hp. set (s1 := set_b1 (q_pop (b1 s)) s) in *.
    assert (Ha1 : absent k s1) by (by eapply dropped_absent).
    destruct Hp as [Pw Pt1 Pt2 Pg Pr _ _ Pc Pp].
    assert (Hl1 : live s1 = live s) by (unfold live; by rewrite Pt1, Pt2).
    destruct Hz as ((Z1 & Z2 & Z3 & Z4) & Z5). specialize (Z5 ltac:(lia)).
    assert (Hd : driven s1 (do_replace false s1)) by (apply do_replace_driven; [done|lia]).
    assert (Ha2 : absent k (do_replace false s1)) by (by eapply driven_absent).
    destruct Hd as [Rw Rl Rg Rr _ _ _ _ Rkv Rc Rp].
    assert (Hrec : seen_once s = S (seen_once s1)).
    { unfold seen_once. cbn [s1 set_b1 t1 b1]. rewrite (q_size_pop _ Eb). lia. }
    apply put_front; try done; try lia; try congruence.
  - destruct Hz as ((Z1 & Z2 & Z3 & Z4) & Z5). unfold live, ghosts, seen_once in *.
    destruct (q_none (t1 s)) eqn:En; [rewrite q_none_size in En; b2p; lia|]. cbn [negb].
    pose proof (q_size_pop _ En) as Hs.
    apply put_front; unfold live, ghosts, seen_once; cbn [set_t1 t1 t2 b1 b2 sh_cap sh_p]; try done; try lia.
    + destruct Hw as [H1 H2 H3 H4 D1 D2 D3]. pose proof (q_pop_map_sub (t1 s)) as Hm.
      split; cbn; try done; try (by apply q_ok_pop); clear - Hm D1 D2 D3; sets.
    + destruct Ha as (A1 & A2 & A3 & A4). pose proof (q_pop_map_sub (t1 s)) as Hm. unfold absent. cbn.
      clear - A1 A2 A3 A4 Hm. sets.
    + intros k' v' [H|H]; [left; by apply q_pop_sub|by right].
Qed.

Lemma put_new_room k v s : shard_wf s -> shard_sizes s -> absent k s -> (seen_once s < sh_cap s)%nat ->
  let r :=
    if (sh_cap s <=? live s)%nat then
      let s := do_replace false s in
      if (sh_cap s <=? ghosts s)%nat then evict_ghost s else s
    else s in
  stored k v s (set_t1 (q_push k v (t1 r)) r).
Proof.
  intros Hw Hz Ha Hr r. destruct Hz as ((Z1 & Z2 & Z3 & Z4) & Z5).
  destruct (sh_cap s <=? live s)%nat eqn:El; b2p; unfold r; [|apply put_front; try done; lia].
  assert (Hd : driven s (do_replace false s)) by (apply do_replace_driven; [done|lia]).
  assert (Ha1 : absent k (do_replace false s)) by (by eapply driven_absent).
  set (s1 := do_replace false s) in *. cbv zeta.
  destruct Hd as [Rw Rl Rg Rr _ _ _ _ Rkv Rc Rp]. rewrite Rc.
  destruct (sh_cap s <=? ghosts s1)%nat eqn:Eg; b2p; [|apply put_front; try done; try lia; congruence].
  pose proof (evict_ghost_dropped s1 Rw ltac:(lia)) as Hp.
  assert (Ha2 : absent k (evict_ghost s1)) by (by eapply dropped_absent).
  destruct Hp as [Pw Pt1 Pt2 Pg Pr _ _ Pc Pp].
  assert (Hl1 : live (evict_ghost s1) = live s1) by (unfold live; by rewrite Pt1, Pt2).
  apply put_front; try done; try lia; try congruence.
  intros k' v' H. apply Rkv. unfold holds_kv in *. by rewrite <- Pt1, <- Pt2.
Qed.

Lemma shard_put_stored k v s : shard_wf s -> shard_sizes s -> stored k v s (shard_put k v s).
Proof.
  intros Hw Hz. unfold shard_put.
  destruct (q_find k (t1 s)) eqn:E1; [by eapply put_t1|].
  destruct (q_find k (t2 s)) eqn:E2; [by eapply put_t2|].
  destruct (q_find k (b1 s)) eqn:E3.
  { eapply put_b1; try done. destruct (_ <? _)%nat eqn:E; b2p; lia. }
  destruct (q_find k (b2 s)) eqn:E4.
  { eapply put_b2; try done. destruct Hz as [(_ & _ & _ & ?) _]. destruct (_ <? _)%nat; lia. }
  assert (Ha : absent k s) by (destruct Hw; split_and!; by apply q_find_None).
  destruct (sh_cap s <=? _)%nat eqn:Er; b2p.
  - by apply put_new_full.
  - by apply put_new_room.
Qed.
End shard_lemmas.

(** ** The cache *)

Section arc_lemmas.
Context {V : Type} (hash : string -> nat).
Implicit Types a : Arc V.

(** A shard without capacity is never used. *)
Definition shard_inv (s : Shard V) : Prop :=
  shard_wf s /\ (if (sh_cap s =? 0)%nat then s = shard_init 0 else shard_sizes s).

Lemma shard_init_inv cap : shard_inv (shard_init cap).
Proof.
  split; [split; cbn; try apply q_ok_empty; set_solver|]. cbn.
  destruct (cap =? 0)%nat eqn:E; b2p; [by subst|]. unfold shard_sizes, live, ghosts, seen_once. cbn. lia.
Qed.

Lemma shard_init_empty cap k (v : V) : ~ holds_kv (shard_init cap) k v.
Proof. intros [H|H]; by apply elem_of_nil in H. Qed.

(** An entry is in the shard of its key, and is what was put. *)
Record arc_ok a (m : gmap string V) : Prop := {
  ao_inv : forall i s, m_shards a !! i = Some s -> shard_inv s;
  ao_used : forall i, (i < m_shardCount a)%nat -> exists s, m_shards a !! i = Some s /\ sh_cap s <> 0%nat;
  ao_kv : forall i s k v, m_shards a !! i = Some s -> holds_kv s k v ->
    m_shardCount a <> O /\ i = shard_of hash k a /\ m !! k = Some v }.

Lemma shard_of_lt a k : m_shardCount a <> O -> (shard_of hash k a < m_shardCount a)%nat.
Proof. intros H. by apply Nat.mod_upper_bound. Qed.

Lemma wf_unique (s : Shard V) k v v' : shard_wf s -> holds_kv s k v -> holds_kv s k v' -> v = v'.
Proof.
  intros [[N1 M1] [N2 M2] _ _ D _ _] H H'.
  assert (Hu : forall l : list (string * V), NoDup l.*1 -> (k, v) ∈ l -> (k, v') ∈ l -> v = v').
  { induction l as [|[k1 v1] l IH]; cbn; [by intros _ ?%elem_of_nil|]. intros [Hn Hl]%NoDup_cons.
    assert (Hk : forall w, (k, w) ∈ l -> k ∈ l.*1) by (intros w Hw; apply list_elem_of_fmap; by exists (k, w)).
    intros [[= <- <-]|Hv]%elem_of_cons [[= ?]|Hv']%elem_of_cons; simplify_eq; [done| | |by apply IH];
      exfalso; eauto. }
  assert (Hk : forall (l : list (string * V)) w, (k, w) ∈ l -> k ∈ l.*1)
    by (intros l w Hw; apply list_elem_of_fmap; by exists (k, w)).
  rewrite M1, M2 in D.
  destruct H as [H|H], H' as [H'|H']; [by apply (Hu (q_list (t1 s)))| | |by apply (Hu (q_list (t2 s)))];
    exfalso; apply Hk in H, H'; clear - D H H'; set_solver.
Qed.

(** The bounds of the shards, summed. *)
Definition total (f : Shard V -> nat) a : nat := list_sum (List.map f (m_shards a)).

Lemma total_le (f g : Shard V -> nat) a :
  (forall i s, m_shards a !! i = Some s -> (f s <= g s)%nat) -> (total f a <= total g a)%nat.
Proof.
  unfold total. generalize (m_shards a). intros l. induction l as [|s l IH]; cbn; [done|]. intros H.
  specialize (IH (fun i => H (S i))). specialize (H O s eq_refl). unfold list_sum in *. lia.
Qed.

Lemma total_insert (f : Shard V -> nat) l i s s' : l !! i = Some s -> f s' = f s ->
  List.map f (<[i := s']> l) = List.map f l.
Proof.
  revert i. induction l as [|x l IH]; intros [|i] H E; cbn in *; try done; [by simplify_eq; rewrite E|].
  by rewrite IH.
Qed.

Lemma arc_init_caps cap : total sh_cap (arc_init cap : Arc V) = cap.
Proof.
  unfold total, arc_init. destruct (cap =? 0)%nat eqn:E0; b2p; [by subst|].
  destruct (cap <? kShards)%nat eqn:E; b2p; cbn [m_shards]; unfold kShards in *.
  - do 16 (destruct cap as [|cap]; [try done; by vm_compute|]). lia.
  - pose proof (Nat.div_mod_eq cap 16). pose proof (Nat.mod_upper_bound cap 16 ltac:(lia)).
    cbn [seq List.map list_sum shard_init sh_cap Nat.ltb Nat.leb].
    set (b := Nat.div cap 16) in *. set (e := Nat.modulo cap 16) in *. clearbody b e.
    do 16 (destruct e as [|e]; [cbn; lia|]). lia.
Qed.

Lemma arc_init_ok cap : arc_ok (arc_init cap) ∅.
Proof.
  assert (H : forall i s, m_shards (arc_init cap : Arc V) !! i = Some s -> exists c, s = shard_init c).
  { unfold arc_init. destruct (cap =? 0)%nat; cbn [m_shards]; intros i s.
    - intros [-> _]%lookup_replicate. by exists O.
    - intros [j [-> _]]%list_lookup_fmap_Some. eauto. }
  split.
  - intros i s Hs. destruct (H i s Hs) as [c ->]. apply shard_init_inv.
  - intros i Hi. unfold arc_init in *. destruct (cap =? 0)%nat eqn:E0; b2p; cbn [m_shardCount m_shards] in *; [lia|].
    set (count := if (cap <? kShards)%nat then cap else kShards) in *.
    assert (Hc : (0 < count <= kShards)%nat).
    { unfold count. destruct (cap <? kShards)%nat eqn:E; b2p; unfold kShards in *; lia. }
    eexists. split; [apply list_lookup_fmap_Some; exists i; split; [done|]; by rewrite lookup_seq_lt by lia|].
    cbn [shard_init sh_cap]. replace (i <? count)%nat with true by (symmetry; by apply Nat.ltb_lt).
    assert (1 <= Nat.div cap count)%nat.
    { apply Nat.div_le_lower_bound; [lia|]. unfold count. destruct (cap <? kShards)%nat eqn:E; b2p; lia. }
    destruct (i <? Nat.modulo cap count)%nat; lia.
  - intros i s k v Hs Hkv. destruct (H i s Hs) as [c ->]. by apply shard_init_empty in Hkv.
Qed.

(** One shard replaced by one that is right and has the same capacity. *)
Lemma arc_ok_update a m m' i s s' : arc_ok a m -> m_shards a !! i = Some s ->
  shard_inv s' -> sh_cap s' = sh_cap s ->
  (forall k v, holds_kv s' k v -> m_shardCount a <> O /\ i = shard_of hash k a /\ m' !! k = Some v) ->
  (forall k v, i <> shard_of hash k a -> m !! k = Some v -> m' !! k = Some v) ->
  arc_ok (with_shards (<[i := s']> (m_shards a)) a) m'.
Proof.
  intros [H1 H2 H3] Hs Hi Hc Hkv Hm. pose proof (lookup_lt_Some _ _ _ Hs) as Hlt.
  assert (Hl : forall j t, <[i := s']> (m_shards a) !! j = Some t ->
                (j = i /\ t = s') \/ (j <> i /\ m_shards a !! j = Some t)).
  { intros j t. destruct (decide (j = i)) as [->|Hj].
    - rewrite list_lookup_insert_eq by done. intros [= <-]. by left.
    - rewrite list_lookup_insert_ne by done. by right. }
  split; cbn [with_shards m_shards m_shardCount].
  - intros j t [[-> ->]|[_ Hj]]%Hl; [done|by eapply H1].
  - intros j Hj. destruct (H2 j Hj) as (t & Ht & Hct). destruct (decide (j = i)) as [->|Hj'].
    + exists s'. rewrite list_lookup_insert_eq by done. split; [done|]. congruence.
    + exists t. by rewrite list_lookup_insert_ne.
  - intros j t k v [[-> ->]|[Hji Hj]]%Hl Hkv'; [by apply Hkv|].
    destruct (H3 j t k v Hj Hkv') as (Hn & E & Hm'). split_and!; [done|done|]. apply Hm; [|done].
    intros ->. apply Hji. by rewrite E.
Qed.

Lemma arc_ok_stats a m h n : arc_ok a m -> arc_ok (mkArc (m_shardCount a) (m_shards a) h n) m.
Proof. intros [H1 H2 H3]. by split. Qed.

Lemma shard_inv_used (s : Shard V) : sh_cap s <> O -> shard_inv s <-> shard_wf s /\ shard_sizes s.
Proof. intros H. unfold shard_inv. by rewrite (proj2 (Nat.eqb_neq _ _) H). Qed.

Lemma arc_get_ok k a m : arc_ok a m ->
  let '(o, a') := arc_get hash k a in
  arc_ok a' m /\ (forall v, o = Some v -> m !! k = Some v) /\ total sh_cap a' = total sh_cap a.
Proof.
  intros Ha. unfold arc_get. destruct (m_shardCount a =? 0)%nat eqn:E0; b2p; [split_and!; [by apply arc_ok_stats|done|done]|].
  destruct (ao_used _ _ Ha _ (shard_of_lt a k E0)) as (s & Hs & Hc). rewrite Hs.
  destruct (proj1 (shard_inv_used s Hc) (ao_inv _ _ Ha _ _ Hs)) as [Hw Hz].
  pose proof (shard_get_spec k s Hw Hz) as Hg. destruct (shard_get k s) as [[v|] s'];
    [|split_and!; [by apply arc_ok_stats|done|done]].
  destruct Hg as (Hw' & Hz' & Hc' & Ho & Hkv). split_and!.
  - unfold hit. apply arc_ok_stats. apply (arc_ok_update a m m _ s s'); try done.
    + apply shard_inv_used; [by rewrite Hc'|done].
    + intros k' v' H. apply (ao_kv _ _ Ha _ _ _ _ Hs). by apply Hkv.
  - intros w [= <-]. apply (ao_kv _ _ Ha _ _ _ _ Hs). by apply Ho.
  - unfold total. cbn. by rewrite (total_insert _ _ _ s).
Qed.

Lemma arc_put_ok k v a m : arc_ok a m ->
  let a' := arc_put hash k v a in
  arc_ok a' (<[k := v]> m) /\ total sh_cap a' = total sh_cap a /\ m_shardCount a' = m_shardCount a.
Proof.
  intros Ha. unfold arc_put. destruct (m_shardCount a =? 0)%nat eqn:E0; b2p.
  { split; [|done]. destruct Ha as [H1 H2 H3]. split; [done|done|]. intros i s k' v' Hs Hkv.
    by destruct (H3 i s k' v' Hs Hkv). }
  destruct (ao_used _ _ Ha _ (shard_of_lt a k E0)) as (s & Hs & Hc). rewrite Hs.
  destruct (proj1 (shard_inv_used s Hc) (ao_inv _ _ Ha _ _ Hs)) as [Hw Hz].
  destruct (shard_put_stored k v s Hw Hz) as [Hw' Hz' Hc' Hh Ho]. split_and!; [|unfold total; cbn; by rewrite (total_insert _ _ _ s)|done].
  apply (arc_ok_update a m _ _ s); try done.
  - apply shard_inv_used; [by rewrite Hc'|done].
  - intros k' v' H. destruct (decide (k' = k)) as [->|Hk].
    + rewrite lookup_insert_eq. split_and!; [done|done|]. f_equal. symmetry. by eapply wf_unique.
    + rewrite lookup_insert_ne by done. apply (ao_kv _ _ Ha _ _ _ _ Hs).
      destruct (Ho k' v' H) as [[-> _]|]; done.
  - intros k' v' Hk' Hm. rewrite lookup_insert_ne; [done|]. by intros ->.
Qed.

Lemma arc_clear_ok a m : arc_ok a m ->
  let a' := arc_invalidate a in
  arc_ok a' ∅ /\ total sh_cap a' = total sh_cap a /\ m_shardCount a' = m_shardCount a.
Proof.
  intros [H1 H2 H3]. split_and!; [|unfold total; cbn; by rewrite List.map_map|done].
  assert (Hl : forall i t, List.map shard_clear (m_shards a) !! i = Some t ->
             exists s, m_shards a !! i = Some s /\ t = shard_init (sh_cap s)).
  { intros i t [s [-> Hs]]%list_lookup_fmap_Some. by exists s. }
  split; cbn [arc_invalidate with_shards m_shards m_shardCount].
  - intros i t Ht. destruct (Hl i t Ht) as (s & Hs & ->). apply shard_init_inv.
  - intros i Hi. destruct (H2 i Hi) as (s & Hs & Hc). exists (shard_clear s). split; [|done].
    apply list_lookup_fmap_Some. by exists s.
  - intros i t k v Ht Hkv. destruct (Hl i t Ht) as (s & Hs & ->). by apply shard_init_empty in Hkv.
Qed.

(** The sums stay within the capacity. *)
Lemma arc_ok_bounds a m : arc_ok a m ->
  (total live a <= total sh_cap a)%nat /\ (total ghosts a <= total sh_cap a)%nat.
Proof.
  intros H. split; apply total_le; intros i s Hs; destruct (ao_inv _ _ H _ _ Hs) as [_ Hi];
    (destruct (sh_cap s =? 0)%nat eqn:E; b2p; [rewrite Hi; cbn; lia|destruct Hi; lia]).
Qed.

(** What was put last is there. *)
Lemma arc_put_get k v a m : arc_ok a m -> m_shardCount a <> O ->
  (arc_get hash k (arc_put hash k v a)).1 = Some v.
Proof.
  intros Ha Hn. pose proof (arc_put_ok k v a m Ha) as (Ha' & _ & Hc').
  unfold arc_put in *. rewrite (proj2 (Nat.eqb_neq _ _) Hn) in *.
  destruct (ao_used _ _ Ha _ (shard_of_lt a k Hn)) as (s & Hs & Hc). rewrite Hs in *.
  destruct (proj1 (shard_inv_used s Hc) (ao_inv _ _ Ha _ _ Hs)) as [Hw Hz].
  pose proof (shard_put_stored k v s Hw Hz) as [Hw' Hz' Hcp Hh Ho].
  unfold arc_get. cbn [with_shards m_shardCount m_shards]. rewrite (proj2 (Nat.eqb_neq _ _) Hn).
  change (shard_of hash k (with_shards _ a)) with (shard_of hash k a).
  rewrite list_lookup_insert_eq by (by eapply lookup_lt_Some).
  pose proof (shard_get_spec k _ Hw' Hz') as Hg. destruct (shard_get k (shard_put k v s)) as [[w|] s'] eqn:E; cbn.
  - destruct Hg as (_ & _ & _ & Hg & _). f_equal. eapply wf_unique; [apply Hw'| |apply Hh]. by apply Hg.
  - exfalso. unfold shard_get in E. destruct (q_find k (t1 _)) eqn:E1; [done|]. destruct (q_find k (t2 _)) eqn:E2; [done|].
    destruct Hw' as [Q1 Q2 _ _ _ _ _]. apply q_find_None in E1; [|done]. apply q_find_None in E2; [|done].
    rewrite (proj2 Q1), elem_of_list_to_set in E1. rewrite (proj2 Q2), elem_of_list_to_set in E2.
    destruct Hh as [Hh|Hh]; [apply E1|apply E2]; apply list_elem_of_fmap; by exists (k, v).
Qed.
End arc_lemmas.

(** ** Uses of a cache *)

Inductive ArcOp V := A_GET (k : string) | A_PUT (k : string) (v : V) | A_CLEAR.
Arguments A_GET {V}.
Arguments A_PUT {V}.
Arguments A_CLEAR {V}.

Section uses.
Context {V : Type} (hash : string -> nat).

Definition arc_op (a : Arc V) (o : ArcOp V) : Arc V :=
  match o with
  | A_GET k => (arc_get hash k a).2
  | A_PUT k v => arc_put hash k v a
  | A_CLEAR => arc_invalidate a
  end.

(** What was put and not cleared since, by key. *)
Definition put_last (m : gmap string V) (o : ArcOp V) : gmap string V :=
  match o with
  | A_GET _ => m
  | A_PUT k v => <[k := v]> m
  | A_CLEAR => ∅
  end.

Lemma arc_get_count k (a : Arc V) : m_shardCount (arc_get hash k a).2 = m_shardCount a.
Proof.
  unfold arc_get. destruct (_ =? _)%nat; [done|]. destruct (_ !! _); [|done].
  by destruct (shard_get k _) as [[?|] ?].
Qed.

Lemma arc_ops_ok ops a m : arc_ok hash a m ->
  let a' := fold_left arc_op ops a in
  arc_ok hash a' (fold_left put_last ops m) /\ total sh_cap a' = total sh_cap a /\ m_shardCount a' = m_shardCount a.
Proof.
  revert a m. induction ops as [|o ops IH]; intros a m Ha; [done|]. cbn [fold_left].
  assert (H : arc_ok hash (arc_op a o) (put_last m o) /\ total sh_cap (arc_op a o) = total sh_cap a
              /\ m_shardCount (arc_op a o) = m_shardCount a).
  { destruct o as [k|k v|]; cbn [arc_op put_last]; [|by apply arc_put_ok|by eapply arc_clear_ok].
    pose proof (arc_get_ok hash k a m Ha) as Hg. pose proof (arc_get_count k a) as Hc.
    destruct (arc_get hash k a) as [o a']. cbn in *. tauto. }
  destruct H as (Ho & Ht & Hc). destruct (IH _ _ Ho) as (IH1 & IH2 & IH3).
  split_and!; [done|by rewrite IH2|by rewrite IH3].
Qed.

(** C33: the route cache is a cache of what was put in it, within its capacity. For every
    hash, capacity and sequence of lookups, insertions and clearings: a lookup finds
    nothing or the last value put for the key since the last clearing; a value just put
    is found (unless the capacity is zero); the entries of all shards together are at
    most the capacity, and so are the ghosts. *)
Theorem arc_cache (cap : nat) (ops : list (ArcOp V)) (k : string) :
  let a := fold_left arc_op ops (arc_init cap) in
  (forall v, (arc_get hash k a).1 = Some v -> fold_left put_last ops ∅ !! k = Some v) /\
  (forall v, cap <> O -> (arc_get hash k (arc_put hash k v a)).1 = Some v) /\
  (total live a <= cap)%nat /\ (total ghosts a <= cap)%nat.
Proof.
  intros a. destruct (arc_ops_ok ops (arc_init cap) ∅ (arc_init_ok hash cap)) as (Ha & Ht & Hc).
  fold a in Ha, Ht, Hc. rewrite arc_init_caps in Ht. split_and!.
  - intros v Hv. pose proof (arc_get_ok hash k a _ Ha) as Hg. destruct (arc_get hash k a) as [o a'].
    destruct Hg as (_ & Hg & _). by apply Hg.
  - intros v Hcap. eapply arc_put_get; [done|]. rewrite Hc. unfold arc_init.
    rewrite (proj2 (Nat.eqb_neq _ _) Hcap). cbn [m_shardCount]. unfold kShards. destruct (cap <? 16)%nat; lia.
  - rewrite <- Ht. eapply arc_ok_bounds. done.
  - rewrite <- Ht. eapply arc_ok_bounds. done.
Qed.
End uses.

(** Used twice, [a] outlives [b], which becomes a ghost; when it comes back the target of
    [t1] grows and [a] goes in its place. *)
Example arc_adapts :
  let put k s := shard_put k 0 s in
  let s1 := put "c" (put "b" (shard_get "a" (put "a" (shard_init 2))).2) in
  let s2 := put "b" s1 in
  (q_list (t1 s1), q_list (t2 s1), q_list (b1 s1)) = ([("c", 0)], [("a", 0)], [("b", tt)])%string /\
  (q_list (t1 s2), q_list (t2 s2), q_list (b2 s2), sh_p s2) = ([("c", 0)], [("b", 0)], [("a", tt)], 1%nat)%string.
Proof. vm_compute. done. Qed.
