(* ===== verification/Router.v ===== *)
(** * Routing (src/gateway/router.cpp, router.h, rt_cache.h, arc_cache.h)

    A table of rules finds the best rule for a method, a host and a path; a router keeps
    the current table, numbers its changes and asks a cache first. The cache is a class,
    [RouteCache], which the adaptive cache of [Arc] and the empty cache implement. The
    first group of theorems compares the table with a reference order on rules; the
    second is about the router with matches and changes of the table interleaved. *)

From S2P Require Import Prelude Records Str HttpMsg Arc.

(** ** Lexicographic order *)

Fixpoint lex_lt (a b : list Z) : bool :=
  match a, b with
  | [], [] => false
  | [], _ :: _ => true
  | _ :: _, [] => false
  | x :: a, y :: b => (x <? y) || ((x =? y) && lex_lt a b)
  end.

#[export] Instance lex_lt_sw : StrictWeak lex_lt.
Proof.
  split.
  - intros a. induction a as [|x a IH]; cbn; [done|]. rewrite IH. lia.
  - intros a. induction a as [|x a IH]; intros [|y b] [|z c]; cbn; try done.
    intros H1 H2. specialize (IH b c). destruct (lex_lt a b), (lex_lt b c), (lex_lt a c); lia.
  - intros a. induction a as [|x a IH]; intros [|y b] [|z c]; cbn; try done; try tauto.
    intros H. specialize (IH b c). destruct (lex_lt a b), (lex_lt b c), (lex_lt a c); lia.
Qed.

(** [std::stable_sort] compares only elements of its range. *)
Class StableSort := {
  stable_sort : forall {A}, (A -> A -> bool) -> list A -> list A;
  stable_sort_perm : forall A (lt : A -> A -> bool) l, stable_sort lt l ≡ₚ l;
  stable_sort_sorted : forall A (lt : A -> A -> bool) l,
    StrictWeak lt -> StronglySorted (not_after lt) (stable_sort lt l);
  stable_sort_ext : forall A (lt lt' : A -> A -> bool) l,
    (forall a b, a ∈ l -> b ∈ l -> lt a b = lt' a b) -> stable_sort lt l = stable_sort lt' l }.

Lemma insert_sorted_ext {A} (lt lt' : A -> A -> bool) x l :
  (forall a, a ∈ l -> lt a x = lt' a x) -> insert_sorted lt x l = insert_sorted lt' x l.
Proof.
  induction l as [|y l IH]; cbn; intros H; [done|].
  rewrite (H y) by left. rewrite IH; [done|]. intros a Ha. apply H. by right.
Qed.

Lemma isort_ext {A} (lt lt' : A -> A -> bool) l :
  (forall a b, a ∈ l -> b ∈ l -> lt a b = lt' a b) -> isort lt l = isort lt' l.
Proof.
  induction l as [|x l IH]; intros H; [done|].
  change (insert_sorted lt x (isort lt l) = insert_sorted lt' x (isort lt' l)).
  rewrite IH by (intros a b Ha Hb; apply H; by right). apply insert_sorted_ext.
  intros a Ha. rewrite isort_perm in Ha. apply H; [by right|left].
Qed.

Definition insertion_StableSort : StableSort := {|
  stable_sort := fun A lt => isort lt;
  stable_sort_perm := fun A lt => isort_perm lt;
  stable_sort_sorted := fun A lt l SW => isort_sorted lt l;
  stable_sort_ext := fun A lt lt' l => isort_ext lt lt' l;
|}.

(** ** Rules *)

Inductive MatchType := EXACT | PREFIX.

(** What the router looks at of a rule; the rest (rewriting, limits, authorisation) it
    only carries along. *)
Record RouteRule (R : Type) := mkRule {
  rr_name : string; rr_matchType : MatchType; rr_pathPattern : string; rr_methods : list string;
  rr_host : string; rr_upstream : string; rr_priority : Z; rr_insertionIdx : Z; rr_rest : R }.
Arguments mkRule {R}.
Arguments rr_name {R}.
Arguments rr_matchType {R}.
Arguments rr_pathPattern {R}.
Arguments rr_methods {R}.
Arguments rr_host {R}.
Arguments rr_upstream {R}.
Arguments rr_priority {R}.
Arguments rr_insertionIdx {R}.
Arguments rr_rest {R}.

Definition method_match (allowed : list string) (method : string) : bool :=
  match allowed with
  | [] => true
  | _ => existsb (fun m => case_eqb m method) allowed
  end.

Definition host_blank (c : ascii) : bool := Ascii.eqb c SP || Ascii.eqb c TAB.

Definition norm_host (host : string) : string :=
  let host := trim_by host_blank host in
  let host :=
    match host with
    | String "[" rest => match break_at "]"%char rest with Some (inner, _) => inner | None => host end
    | _ =>
        match break_at COLON host with
        | Some (before, after) => if has_char COLON after then host else before
        | None => host
        end
    end in
  lower host.

Definition req_method_name (req : GwRequest) : string :=
  if String.eqb (rq_methodRaw req) "" then HttpMethodToString (rq_method req) else rq_methodRaw req.

Definition host_match (ruleHost reqHost : string) : bool :=
  if String.eqb ruleHost "" then true else String.eqb (norm_host ruleHost) reqHost.

(** [path.compare(0, prefix.size(), prefix) == 0]: what follows the prefix. *)
Fixpoint strip_prefix (prefix path : string) : option string :=
  match prefix, path with
  | EmptyString, _ => Some path
  | String a prefix', String b path' => if Ascii.eqb a b then strip_prefix prefix' path' else None
  | _, EmptyString => None
  end.

Definition slash_first (s : string) : bool := match s with String "/" _ => true | _ => false end.

Definition is_seg_prefix (path prefix : string) : bool :=
  if String.eqb prefix "/" then slash_first path
  else match strip_prefix prefix path with
       | Some EmptyString => true
       | Some rest => slash_first rest
       | None => false
       end.

Section table.
Context {R : Type}.
Implicit Types r : RouteRule R.

Definition ruleMatches r (method host path : string) : bool :=
  if negb (host_match (rr_host r) host) then false
  else if negb (method_match (rr_methods r) method) then false
  else match rr_matchType r with
       | EXACT => String.eqb path (rr_pathPattern r)
       | PREFIX => is_seg_prefix path (rr_pathPattern r)
       end.

Definition given_host r : Z := if String.eqb (rr_host r) "" then 0 else 1.
Definition given_methods r : Z := match rr_methods r with [] => 0 | _ => 1 end.

(** An [int]: a difference that leaves the type wraps around. *)
Definition compareRules (a b : RouteRule R) : Z :=
  if negb (given_host a =? given_host b) then given_host b - given_host a
  else if negb (given_methods a =? given_methods b) then given_methods b - given_methods a
  else if negb (rr_priority a =? rr_priority b) then wrap_int32 (rr_priority b - rr_priority a)
  else wrap_int32 (wrap_int32 (rr_insertionIdx a) - wrap_int32 (rr_insertionIdx b)).

(** ** Tables *)

Record RouteTable := mkTable {
  t_rules : list (RouteRule R); t_exactMap : gmap string (list nat); t_prefixVec : list nat }.

Definition table_init : RouteTable := mkTable [] ∅ [].

Definition with_idx (i : Z) r : RouteRule R :=
  mkRule (rr_name r) (rr_matchType r) (rr_pathPattern r) (rr_methods r) (rr_host r) (rr_upstream r)
    (rr_priority r) i (rr_rest r).

Definition addRule (rule : RouteRule R) (t : RouteTable) : RouteTable :=
  let idx := length (t_rules t) in
  let rule := with_idx (wrap32 (Z.of_nat idx)) rule in
  let rules := t_rules t ++ [rule] in
  match rr_matchType rule with
  | EXACT =>
      let p := rr_pathPattern rule in
      mkTable rules (<[p := default [] (t_exactMap t !! p) ++ [idx]]> (t_exactMap t)) (t_prefixVec t)
  | PREFIX => mkTable rules (t_exactMap t) (t_prefixVec t ++ [idx])
  end.

(** A comparison of the rules at two indices; an index out of range does not occur. *)
Definition at_idx (rules : list (RouteRule R)) (cmp : RouteRule R -> RouteRule R -> bool) (a b : nat) : bool :=
  match rules !! a, rules !! b with
  | Some ra, Some rb => cmp ra rb
  | _, _ => false
  end.

Definition exact_before (a b : RouteRule R) : bool := compareRules a b <? 0.

Definition path_len r : Z := Z.of_nat (String.length (rr_pathPattern r)).

Definition prefix_before (a b : RouteRule R) : bool :=
  if negb (path_len a =? path_len b) then path_len b <? path_len a
  else compareRules a b <? 0.

Definition build {ST : StableSort} (t : RouteTable) : RouteTable :=
  mkTable (t_rules t)
    (stable_sort (at_idx (t_rules t) exact_before) <$> t_exactMap t)
    (stable_sort (at_idx (t_rules t) prefix_before) (t_prefixVec t)).

Fixpoint first_match (rules : list (RouteRule R)) (method host path : string) (idxs : list nat)
    : option (RouteRule R) :=
  match idxs with
  | [] => None
  | i :: idxs =>
      match rules !! i with
      | Some r => if ruleMatches r method host path then Some r else first_match rules method host path idxs
      | None => first_match rules method host path idxs
      end
  end.

Definition table_match (method host path : string) (t : RouteTable) : option (RouteRule R) :=
  match first_match (t_rules t) method host path (default [] (t_exactMap t !! path)) with
  | Some r => Some r
  | None => first_match (t_rules t) method host path (t_prefixVec t)
  end.

Definition table_listRules (t : RouteTable) : list (RouteRule R) := t_rules t.
Definition table_ruleCount (t : RouteTable) : nat := length (t_rules t).

(** A table as a configuration makes it. *)
Definition table_of {ST : StableSort} (rules : list (RouteRule R)) : RouteTable :=
  build (fold_left (fun t r => addRule r t) rules table_init).

(** ** The reference order *)

(** Exact before prefix, the longer pattern, with a host, with methods, the higher
    priority, the earlier one. *)
Definition rank r : list Z :=
  [match rr_matchType r with EXACT => 0 | PREFIX => 1 end; - path_len r; - given_host r; - given_methods r;
   - rr_priority r; rr_insertionIdx r].

Definition better (a b : RouteRule R) : bool := lex_lt (rank a) (rank b).

#[export] Instance better_sw : StrictWeak better.
Proof.
  split; unfold better.
  - intros. apply sw_irrefl.
  - intros a b c. apply sw_trans.
  - intros a b c. apply sw_cotrans.
Qed.

(** Priorities whose differences are [int]s, and fewer rules than an [int] can number. *)
Definition moderate r : Prop := - 2 ^ 30 <= rr_priority r < 2 ^ 30.
End table.
Arguments RouteTable : clear implicits.

(** ** Comparisons *)

#[global] Arguments better : simpl never.

Section order.
Context {R : Type}.
Implicit Types r : RouteRule R.

Definition numbered (rules : list (RouteRule R)) : Prop :=
  forall i r, rules !! i = Some r -> moderate r /\ rr_insertionIdx r = Z.of_nat i /\ (Z.of_nat i < 2 ^ 31).

(** On rules as tables number them [compareRules] follows the reference order. *)
Lemma compare_rank (a b : RouteRule R) : moderate a -> moderate b ->
  0 <= rr_insertionIdx a < 2 ^ 31 -> 0 <= rr_insertionIdx b < 2 ^ 31 ->
  (compareRules a b <? 0) =
    lex_lt [- given_host a; - given_methods a; - rr_priority a; rr_insertionIdx a]
           [- given_host b; - given_methods b; - rr_priority b; rr_insertionIdx b].
Proof.
  unfold moderate, compareRules. intros Ha Hb Ia Ib.
  set (ha := given_host a). set (hb := given_host b). set (ma := given_methods a). set (mb := given_methods b).
  clearbody ha hb ma mb. rewrite (wrap_int32_id (rr_insertionIdx a)), (wrap_int32_id (rr_insertionIdx b)) by lia.
  rewrite !wrap_int32_id by lia. cbn [lex_lt].
  destruct (ha =? hb) eqn:E1; b2p; cbn [negb]; [|lia].
  destruct (ma =? mb) eqn:E2; b2p; cbn [negb]; [|lia].
  destruct (rr_priority a =? rr_priority b) eqn:E3; b2p; cbn [negb]; lia.
Qed.

Definition orank (rules : list (RouteRule R)) (i : nat) : list Z :=
  match rules !! i with Some r => 0 :: rank r | None => [1] end.

Definition idx_better (rules : list (RouteRule R)) (a b : nat) : bool := lex_lt (orank rules a) (orank rules b).

#[local] Arguments idx_better : simpl never.

#[export] Instance idx_better_sw rules : StrictWeak (idx_better rules).
Proof.
  split; unfold idx_better.
  - intros. apply sw_irrefl.
  - intros a b c. apply sw_trans.
  - intros a b c. apply sw_cotrans.
Qed.

Lemma idx_better_some rules a b ra rb : rules !! a = Some ra -> rules !! b = Some rb ->
  idx_better rules a b = better ra rb.
Proof. intros Ha Hb. unfold idx_better, orank. by rewrite Ha, Hb. Qed.

(** The comparisons of [build], on the lists it sorts. *)
Lemma exact_before_better rules a b ra rb : numbered rules ->
  rules !! a = Some ra -> rules !! b = Some rb ->
  rr_matchType ra = EXACT -> rr_matchType rb = EXACT -> rr_pathPattern ra = rr_pathPattern rb ->
  exact_before ra rb = better ra rb.
Proof.
  intros Hn Ha Hb Ta Tb Hp. destruct (Hn a ra Ha) as (Ma & Ia & La). destruct (Hn b rb Hb) as (Mb & Ib & Lb).
  unfold exact_before. rewrite compare_rank by (done || lia). unfold better, rank, path_len. rewrite Ta, Tb, Hp.
  cbn [lex_lt]. lia.
Qed.

Lemma prefix_before_better rules a b ra rb : numbered rules ->
  rules !! a = Some ra -> rules !! b = Some rb ->
  rr_matchType ra = PREFIX -> rr_matchType rb = PREFIX -> prefix_before ra rb = better ra rb.
Proof.
  intros Hn Ha Hb Ta Tb. destruct (Hn a ra Ha) as (Ma & Ia & La). destruct (Hn b rb Hb) as (Mb & Ib & Lb).
  unfold prefix_before, better, rank. rewrite Ta, Tb.
  set (x := path_len ra). set (y := path_len rb). clearbody x y.
  destruct (x =? y) eqn:E; b2p; cbn [negb].
  - rewrite compare_rank by (done || lia). cbn [lex_lt]. lia.
  - cbn [lex_lt]. lia.
Qed.

(** The first match in a sorted list is a best one. *)
Lemma first_match_best rules method host path l :
  StronglySorted (not_after (idx_better rules)) l ->
  best_in better (fun r => exists i, i ∈ l /\ rules !! i = Some r /\ ruleMatches r method host path = true)
    (first_match rules method host path l).
Proof.
  intros Hs. set (p i := match rules !! i with Some r => ruleMatches r method host path | None => false end).
  assert (Hf : first_match rules method host path l = List.find p l ≫= fun i => rules !! i).
  { clear Hs. induction l as [|i l IH]; [done|]. cbn. unfold p at 1. destruct (rules !! i) as [r|] eqn:E; [|done].
    destruct (ruleMatches r _ _ _); [cbn; by rewrite E|done]. }
  rewrite Hf. pose proof (find_sorted_best (idx_better rules) p l Hs) as Hb.
  destruct (List.find p l) as [i|]; cbn in *.
  - destruct Hb as [[Hi Hp] Hb]. unfold p in Hp. destruct (rules !! i) as [r|] eqn:E; [|done]. cbn. split.
    + by exists i.
    + intros y (j & Hj & Ej & Hy). rewrite <- (idx_better_some rules j i y r Ej E). apply Hb.
      split; [done|]. unfold p. by rewrite Ej.
  - intros y (j & Hj & Ej & Hy). apply (Hb j). split; [done|]. unfold p. by rewrite Ej.
Qed.

(** ** Tables *)

Record table_ok (t : RouteTable R) : Prop := {
  to_idx : forall i r, t_rules t !! i = Some r -> rr_insertionIdx r = wrap32 (Z.of_nat i);
  to_exact : forall p i, i ∈ default [] (t_exactMap t !! p) <->
    exists r, t_rules t !! i = Some r /\ rr_matchType r = EXACT /\ rr_pathPattern r = p;
  to_prefix : forall i, i ∈ t_prefixVec t <-> exists r, t_rules t !! i = Some r /\ rr_matchType r = PREFIX }.

Lemma table_init_ok : table_ok (@table_init R).
Proof.
  split; cbn; [done| |].
  - intros p i. rewrite lookup_empty. cbn. split; [by intros ?%elem_of_nil|by intros (r & ? & _)].
  - intros i. split; [by intros ?%elem_of_nil|by intros (r & ? & _)].
Qed.

Lemma lookup_snoc (l : list (RouteRule R)) x i r :
  (l ++ [x]) !! i = Some r <-> l !! i = Some r \/ (i = length l /\ r = x).
Proof.
  rewrite lookup_app_Some. split.
  - intros [H|[H1 H2]]; [by left|]. right. destruct (i - length l)%nat as [|n] eqn:E; cbn in H2; [|done].
    simplify_eq. split; [lia|done].
  - intros [H|[-> ->]]; [by left|]. right. split; [done|]. by rewrite Nat.sub_diag.
Qed.

Lemma addRule_ok rule t : table_ok t -> table_ok (addRule rule t).
Proof.
  intros [H1 H2 H3]. unfold addRule. set (n := length (t_rules t)). set (r := with_idx (wrap32 (Z.of_nat n)) rule).
  assert (Hidx : forall i r0, (t_rules t ++ [r]) !! i = Some r0 -> rr_insertionIdx r0 = wrap32 (Z.of_nat i)).
  { intros i r0 [H|[-> ->]]%lookup_snoc; [by apply H1|done]. }
  destruct (rr_matchType r) eqn:Et; split; cbn [t_rules t_exactMap t_prefixVec]; try done.
  - intros p i. destruct (decide (p = rr_pathPattern r)) as [->|Hp].
    + rewrite lookup_insert_eq. cbn. rewrite elem_of_app, list_elem_of_singleton, H2. setoid_rewrite lookup_snoc. split.
      * intros [(r0 & ? & ? & ?)| ->]; [exists r0; auto|exists r; auto].
      * intros (r0 & [?|[-> ->]] & ? & ?); [left; by exists r0|by right].
    + rewrite lookup_insert_ne by done. rewrite H2. setoid_rewrite lookup_snoc. split.
      * intros (r0 & ? & ? & ?). exists r0. auto.
      * intros (r0 & [?|[-> ->]] & ? & ?); [by exists r0|done].
  - intros i. rewrite H3. setoid_rewrite lookup_snoc. split.
    + intros (r0 & ? & ?). exists r0. auto.
    + intros (r0 & [?|[-> ->]] & ?); [by exists r0|congruence].
  - intros p i. rewrite H2. setoid_rewrite lookup_snoc. split.
    + intros (r0 & ? & ? & ?). exists r0. auto.
    + intros (r0 & [?|[-> ->]] & ? & ?); [by exists r0|congruence].
  - intros i. rewrite elem_of_app, list_elem_of_singleton, H3. setoid_rewrite lookup_snoc. split.
    + intros [(r0 & ? & ?)| ->]; [exists r0; auto|exists r; auto].
    + intros (r0 & [?|[-> ->]] & ?); [left; by exists r0|by right].
Qed.

Lemma addRules_ok rules t : table_ok t -> table_ok (fold_left (fun t r => addRule r t) rules t).
Proof. revert t. induction rules as [|r rules IH]; intros t H; [done|]. cbn. by apply IH, addRule_ok. Qed.

(** A rule of a table is one that was added, with its number. *)
Lemma addRules_rules rules t :
  t_rules (fold_left (fun t r => addRule r t) rules t) =
    t_rules t ++ imap (fun i r => with_idx (wrap32 (Z.of_nat (length (t_rules t) + i))) r) rules.
Proof.
  revert t. induction rules as [|r rules IH]; intros t; cbn; [by rewrite app_nil_r|].
  rewrite IH. unfold addRule. destruct (rr_matchType _); cbn [t_rules]; rewrite <- app_assoc; cbn;
    rewrite Nat.add_0_r; do 2 f_equal; apply imap_ext; intros i x _; cbn; rewrite length_app; cbn; do 3 f_equal; lia.
Qed.
End order.

Section table_match.
Context {R : Type} {ST : StableSort}.

Lemma sort_members {A} (lt : A -> A -> bool) l x : x ∈ stable_sort lt l <-> x ∈ l.
Proof. by rewrite stable_sort_perm. Qed.

Lemma sort_as (rules : list (RouteRule R)) cmp l :
  (forall a b, a ∈ l -> b ∈ l -> at_idx rules cmp a b = idx_better rules a b) ->
  StronglySorted (not_after (idx_better rules)) (stable_sort (at_idx rules cmp) l).
Proof. intros H. rewrite (stable_sort_ext _ _ (idx_better rules) l H). apply stable_sort_sorted, _. Qed.

(** A built table finds a best rule of those it has. *)
Lemma build_match_best (t : RouteTable R) method host path : table_ok t -> numbered (t_rules t) ->
  best_in better (fun r => r ∈ t_rules t /\ ruleMatches r method host path = true)
    (table_match method host path (build t)).
Proof.
  intros [H1 H2 H3] Hn. unfold table_match, build. cbn [t_rules t_exactMap t_prefixVec].
  set (rules := t_rules t) in *. rewrite lookup_fmap.
  set (le := default [] (stable_sort (at_idx rules exact_before) <$> t_exactMap t !! path)).
  set (lp := stable_sort (at_idx rules prefix_before) (t_prefixVec t)).
  assert (Me : forall i, i ∈ le <-> exists r, rules !! i = Some r /\ rr_matchType r = EXACT /\ rr_pathPattern r = path).
  { intros i. rewrite <- H2. unfold le. destruct (t_exactMap t !! path); cbn; [apply sort_members|done]. }
  assert (Mp : forall i, i ∈ lp <-> exists r, rules !! i = Some r /\ rr_matchType r = PREFIX).
  { intros i. rewrite <- H3. apply sort_members. }
  assert (Se : StronglySorted (not_after (idx_better rules)) le).
  { unfold le. pose proof (H2 path) as Hm. destruct (t_exactMap t !! path) as [l|]; cbn in *; [|constructor].
    apply sort_as. intros a b Ha Hb. apply Hm in Ha as (ra & Ea & Ta & Pa). apply Hm in Hb as (rb & Eb & Tb & Pb).
    unfold at_idx. rewrite Ea, Eb, (idx_better_some _ _ _ _ _ Ea Eb). eapply exact_before_better; try done. congruence. }
  assert (Sp : StronglySorted (not_after (idx_better rules)) lp).
  { apply sort_as. intros a b Ha Hb. apply H3 in Ha as (ra & Ea & Ta). apply H3 in Hb as (rb & Eb & Tb).
    unfold at_idx. rewrite Ea, Eb, (idx_better_some _ _ _ _ _ Ea Eb). by eapply prefix_before_better. }
  pose proof (first_match_best rules method host path le Se) as Be.
  pose proof (first_match_best rules method host path lp Sp) as Bp.
  assert (Hall : forall r, r ∈ rules /\ ruleMatches r method host path = true ->
    exists i, rules !! i = Some r /\ (i ∈ le \/ (i ∈ lp /\ rr_matchType r = PREFIX))).
  { intros r [Hr Hm]. apply list_elem_of_lookup in Hr as [i Hi]. exists i. split; [done|].
    destruct (rr_matchType r) eqn:Et; [left; apply Me|right; split; [apply Mp|done]]; [|by exists r].
    exists r. split_and!; [done|done|]. unfold ruleMatches in Hm. rewrite Et in Hm.
    destruct (negb _); [done|]. destruct (negb _); [done|]. by apply String.eqb_eq in Hm. }
  destruct (first_match rules method host path le) as [x|]; cbn in Be |- *.
  - destruct Be as [(i & Hi & Ei & Hx) Hb]. split; [split; [by eapply list_elem_of_lookup_2|done]|].
    intros y Hy. destruct (Hall y Hy) as (j & Ej & [Hj|[Hj Ty]]); [apply Hb; exists j; tauto|].
    apply Me in Hi as (x' & Ei' & Tx & _). simplify_eq. unfold better, rank. rewrite Tx, Ty. done.
  - destruct (first_match rules method host path lp) as [x|]; cbn in Bp |- *.
    + destruct Bp as [(i & Hi & Ei & Hx) Hb]. split; [split; [by eapply list_elem_of_lookup_2|done]|].
      intros y Hy. destruct (Hall y Hy) as (j & Ej & [Hj|[Hj Ty]]); [|apply Hb; exists j; tauto].
      exfalso. apply (Be y). exists j. tauto.
    + intros y Hy. destruct (Hall y Hy) as (j & Ej & [Hj|[Hj Ty]]); [apply (Be y)|apply (Bp y)]; exists j; tauto.
Qed.

(** C31: routing picks the best rule. In a table made of any rules, with priorities within
    2^30 of zero, the rule found for a method, a host and a path is one that matches and
    that no other matching rule comes before: an exact rule before a prefix rule, the
    longer prefix, a rule with a host, one with methods, the higher priority, the one
    added first. None is found only when none matches. The rules of the table are those
    added, with their place as number. *)
Theorem route_best (rules : list (RouteRule R)) (method host path : string) :
  Z.of_nat (length rules) < 2 ^ 31 -> Forall moderate rules ->
  let t := table_of rules in
  t_rules t = imap (fun i r => with_idx (Z.of_nat i) r) rules /\
  best_in better (fun r => r ∈ t_rules t /\ ruleMatches r method host path = true)
    (table_match method host path t).
Proof.
  intros Hl Hm t. pose proof (addRules_rules rules table_init) as Hr. cbn in Hr.
  assert (Hr' : t_rules (fold_left (fun t r => addRule r t) rules table_init)
                = imap (fun i r => with_idx (Z.of_nat i) r) rules).
  { rewrite Hr. apply imap_ext. intros i r Hi%lookup_lt_Some. f_equal. rewrite wrap32_id; [done|]. unfold is_u32. lia. }
  split; [done|].
  apply (build_match_best (fold_left (fun t r => addRule r t) rules table_init)); [apply addRules_ok, table_init_ok|].
  rewrite Hr'.
  intros i r. rewrite list_lookup_imap. destruct (rules !! i) as [r0|] eqn:E; [|done]. intros [= <-].
  pose proof (lookup_lt_Some _ _ _ E). split_and!; [|done|lia].
  rewrite Forall_forall in Hm. exact (Hm r0 (list_elem_of_lookup_2 _ _ _ E)).
Qed.
End table_match.

(** A rule of two for [/api], and what a method, a host and a longer path make of them. *)
Definition sample_rules : list (RouteRule unit) :=
  [mkRule "any" PREFIX "/" [] "" "web" 0 0 tt;
   mkRule "api" PREFIX "/api" [] "" "api" 5 0 tt;
   mkRule "post" PREFIX "/api" ["post"]%string "" "writer" 0 0 tt;
   mkRule "host" PREFIX "/api" [] "Example.com:443" "other" 0 0 tt;
   mkRule "exact" EXACT "/api/health" [] "" "health" 0 0 tt].

Definition sample_route (method host path : string) : option string :=
  rr_name <$> table_match method (norm_host host) path (@table_of unit insertion_StableSort sample_rules).

Lemma route_best_witness :
  sample_route "GET" "a" "/apix" = Some "any"%string /\
  sample_route "GET" "a" "/api/x" = Some "api"%string /\
  sample_route "POST" "a" "/api" = Some "post"%string /\
  sample_route "POST" " EXAMPLE.com:8080" "/api" = Some "host"%string /\
  sample_route "POST" "example.com" "/api/health" = Some "exact"%string /\
  t_rules (@table_of unit insertion_StableSort sample_rules) = imap (fun i r => with_idx (Z.of_nat i) r) sample_rules.
Proof.
  do 5 (split; [vm_compute; reflexivity|]).
  apply (@route_best unit insertion_StableSort sample_rules "GET" "" "/"); [done|].
  repeat constructor; done.
Defined.

(** A pattern that ends in a slash: the segment after it does not match. *)
Example trailing_slash :
  is_seg_prefix "/api/users" "/api" = true /\ is_seg_prefix "/api/users" "/api/" = false /\
  is_seg_prefix "/api/" "/api/" = true /\ is_seg_prefix "/api//users" "/api/" = true.
Proof. done. Qed.

(** Priorities far apart: the difference wraps and the lower one comes first. *)
Example priority_wraps :
  let high := mkRule "high" PREFIX "/" [] "" "a" (2 ^ 31 - 1) 0 tt in
  let low := mkRule "low" PREFIX "/" [] "" "b" (-2) 1 tt in
  prefix_before low high = true.
Proof. done. Qed.
