(* ===== verification/RouteCache.v ===== *)
(** * The router and its cache (src/gateway/router.cpp, rt_cache.h, arc_cache.h)

    A match takes the table, the key extractor and the generation under the router's
    mutex, and then asks the cache, computes and fills the cache without it; changes of
    the table go on meanwhile. Those steps interleave freely here, for any number of
    threads and any cache of the class [RouteCache]. *)

From S2P Require Import Prelude Records Str HttpMsg Arc Router.

(** What the router relies on: a cache holds at most what was put in it and not cleared. *)
Class RouteCache (V : Type) := {
  cache : Type;
  cache_get : string -> cache -> option V * cache;
  cache_put : string -> V -> cache -> cache;
  cache_invalidate : cache -> cache;
  cache_holds : cache -> gmap string V -> Prop;
  cache_get_ok : forall k c m, cache_holds c m ->
    cache_holds (cache_get k c).2 m /\ (forall v, (cache_get k c).1 = Some v -> m !! k = Some v);
  cache_put_ok : forall k v c m, cache_holds c m -> cache_holds (cache_put k v c) (<[k := v]> m);
  cache_invalidate_ok : forall c m, cache_holds c m -> exists m', m' ⊆ m /\ cache_holds (cache_invalidate c) m' }.

(** [NullRouteCache]: every lookup misses. *)
Definition NullRouteCache (V : Type) : RouteCache V.
Proof.
  refine {| cache := unit; cache_get := fun _ c => (None, c); cache_put := fun _ _ c => c;
            cache_invalidate := fun c => c; cache_holds := fun _ _ => True |}; try done.
  intros _ m _. by exists m.
Defined.

(** [ArcRouteCache]. *)
Definition ArcRouteCache (V : Type) (hash : string -> nat) : RouteCache V.
Proof.
  refine {| cache := Arc V; cache_get := arc_get hash; cache_put := arc_put hash;
            cache_invalidate := arc_invalidate; cache_holds := arc_ok hash |}.
  - intros k c m H. pose proof (arc_get_ok hash k c m H) as Hg. destruct (arc_get hash k c). cbn. tauto.
  - intros k v c m H. by apply arc_put_ok.
  - intros c m H. exists ∅. split; [apply map_empty_subseteq|]. by eapply arc_clear_ok.
Defined.

Section router.
Context {R G : Type} {ST : StableSort}.

Record RouteResult := mkResult {
  rt_matched : bool; rt_rule : option (RouteRule R); rt_upstream : option G; rt_routeKey : string }.

Definition no_route : RouteResult := mkResult false None None "".

Context {RC : RouteCache RouteResult}.

Definition KeyExtractor : Type := GwRequest -> string.
Definition default_extractor : KeyExtractor := rq_path.

Record Router := mkRouter {
  m_table : option (RouteTable R); m_cache : cache; m_gen : Z; m_key_extractor : option KeyExtractor;
  m_pending : list (RouteRule R) }.

Definition router_init (c : cache) : Router := mkRouter None c 0 (Some default_extractor) [].

(** Every change counts and clears the cache. *)
Definition changed (table : option (RouteTable R)) (ke : option KeyExtractor) (pending : list (RouteRule R))
    (r : Router) : Router :=
  mkRouter table (cache_invalidate (m_cache r)) (wrap32 (m_gen r + 1)) ke pending.

Definition setTable (table : option (RouteTable R)) (r : Router) : Router :=
  changed table (m_key_extractor r) (match table with Some t => table_listRules t | None => [] end) r.

Definition addRoute (rule : RouteRule R) (r : Router) : Router :=
  let pending := m_pending r ++ [rule] in
  changed (Some (table_of pending)) (m_key_extractor r) pending r.

Definition clearRoutes (r : Router) : Router := changed (Some table_init) (m_key_extractor r) [] r.

Definition setKeyExtractor (ke : option KeyExtractor) (r : Router) : Router :=
  changed (m_table r) ke (m_pending r) r.

Definition routeCount (r : Router) : nat := match m_table r with Some t => table_ruleCount t | None => O end.
Definition listRoutes (r : Router) : list (RouteRule R) := match m_table r with Some t => table_listRules t | None => [] end.

(** ** A match *)

(** What it takes under the mutex. *)
Record Taken := mkTaken { k_table : option (RouteTable R); k_extractor : option KeyExtractor; k_gen : Z }.

Definition take (r : Router) : Taken := mkTaken (m_table r) (m_key_extractor r) (m_gen r).

Definition route_path (ke : option KeyExtractor) (req : GwRequest) : string :=
  match ke with Some ke => ke req | None => rq_path req end.

Definition PIPE : ascii := "|"%char.

Definition route_key (gen : Z) (method host path : string) : string :=
  (to_string gen ++ String PIPE (method ++ String PIPE (host ++ String PIPE path)))%string.

Definition req_host (req : GwRequest) : string := norm_host (rq_getHeader "Host" "" req).

Definition match_key (k : Taken) (req : GwRequest) : string :=
  route_key (k_gen k) (req_method_name req) (req_host req) (route_path (k_extractor k) req).

(** Without the cache. *)
Definition compute (upstreams : string -> option G) (table : option (RouteTable R)) (method host path : string)
    : RouteResult :=
  match table with
  | None => no_route
  | Some t =>
      match table_match method host path t with
      | Some rule => mkResult true (Some rule) (upstreams (rr_upstream rule)) (rr_pathPattern rule)
      | None => no_route
      end
  end.

Definition with_cache (c : cache) (r : Router) : Router :=
  mkRouter (m_table r) c (m_gen r) (m_key_extractor r) (m_pending r).

(** The look into the cache. *)
Definition look (k : Taken) (req : GwRequest) (r : Router) : option RouteResult * Router :=
  let '(o, c) := cache_get (match_key k req) (m_cache r) in (o, with_cache c r).

Definition fill_cache (k : Taken) (req : GwRequest) (res : RouteResult) (r : Router) : Router :=
  with_cache (cache_put (match_key k req) res (m_cache r)) r.

Definition compute_req (upstreams : string -> option G) (k : Taken) (req : GwRequest) : RouteResult :=
  compute upstreams (k_table k) (req_method_name req) (req_host req) (route_path (k_extractor k) req).

(** One thread after another. *)
Definition router_match (upstreams : string -> option G) (req : GwRequest) (r : Router) : RouteResult * Router :=
  let k := take r in
  match look k req r with
  | (Some res, r) => (res, r)
  | (None, r) => let res := compute_req upstreams k req in (res, fill_cache k req res r)
  end.

(** ** Threads *)

Inductive Pc :=
  | P_LOOK (req : GwRequest) (k : Taken)
  | P_FILL (req : GwRequest) (k : Taken)
  | P_DONE (req : GwRequest) (k : Taken) (res : RouteResult).

(** [w_past]: the table and extractor of every generation so far, the first one first. *)
Record World := mkWorld {
  w_router : Router; w_threads : gmap nat Pc; w_past : list (option (RouteTable R) * option KeyExtractor) }.

Definition world_init (c : cache) : World :=
  mkWorld (router_init c) ∅ [(None, Some default_extractor)].

Definition world_change (r : Router) (w : World) : World :=
  mkWorld r (w_threads w) (w_past w ++ [(m_table r, m_key_extractor r)]).

Definition world_thread (tid : nat) (pc : Pc) (r : Router) (w : World) : World :=
  mkWorld r (<[tid := pc]> (w_threads w)) (w_past w).

Definition do_look (tid : nat) (req : GwRequest) (k : Taken) (w : World) : World :=
  let '(o, r) := look k req (w_router w) in
  world_thread tid (match o with Some res => P_DONE req k res | None => P_FILL req k end) r w.

Definition do_fill (upstreams : string -> option G) (tid : nat) (req : GwRequest) (k : Taken) (w : World) : World :=
  let res := compute_req upstreams k req in
  world_thread tid (P_DONE req k res) (fill_cache k req res (w_router w)) w.

(** What the generated parser admits in a method and, with the default extractor, in a
    path: no vertical bar. A host may have one. *)
Definition key_clean (k : Taken) (req : GwRequest) : bool :=
  negb (has_char PIPE (req_method_name req)) && negb (has_char PIPE (route_path (k_extractor k) req)).

(** A thread begins a match at any time, and changes come at any time. *)
Inductive step (upstreams : string -> option G) (w : World) : World -> Prop :=
  | step_set t : step upstreams w (world_change (setTable t (w_router w)) w)
  | step_add rule : step upstreams w (world_change (addRoute rule (w_router w)) w)
  | step_clear : step upstreams w (world_change (clearRoutes (w_router w)) w)
  | step_extractor ke : step upstreams w (world_change (setKeyExtractor ke (w_router w)) w)
  | step_take tid req : key_clean (take (w_router w)) req = true ->
      step upstreams w (world_thread tid (P_LOOK req (take (w_router w))) (w_router w) w)
  | step_look tid req k : w_threads w !! tid = Some (P_LOOK req k) -> step upstreams w (do_look tid req k w)
  | step_fill tid req k : w_threads w !! tid = Some (P_FILL req k) ->
      step upstreams w (do_fill upstreams tid req k w).

Inductive reachable (upstreams : string -> option G) (c : cache) : World -> Prop :=
  | reach_init : reachable upstreams c (world_init c)
  | reach_step w w' : reachable upstreams c w -> step upstreams w w' -> reachable upstreams c w'.

(** ** Keys *)

Lemma pipe_split_right h p h' p' : has_char PIPE p = false -> has_char PIPE p' = false ->
  (h ++ String PIPE p = h' ++ String PIPE p')%string -> h = h' /\ p = p'.
Proof.
  intros Hp Hp'. revert h'. induction h as [|c h IH]; intros [|c' h'] E.
  - change (String PIPE p = String PIPE p') in E. by simplify_eq.
  - change (String PIPE p = String c' (h' ++ String PIPE p')) in E. injection E as <- ->.
    rewrite has_char_app in Hp. cbn in Hp. rewrite Ascii.eqb_refl, orb_true_r in Hp. done.
  - change (String c (h ++ String PIPE p) = String PIPE p') in E. injection E as -> <-.
    rewrite has_char_app in Hp'. cbn in Hp'. rewrite Ascii.eqb_refl, orb_true_r in Hp'. done.
  - change (String c (h ++ String PIPE p) = String c' (h' ++ String PIPE p')) in E. injection E as -> E.
    destruct (IH h' E) as [-> ->]. done.
Qed.

Lemma pipe_split_left h p h' p' : has_char PIPE h = false -> has_char PIPE h' = false ->
  (h ++ String PIPE p = h' ++ String PIPE p')%string -> h = h' /\ p = p'.
Proof.
  intros Hh Hh' E. pose proof (break_at_app PIPE h p Hh) as B. pose proof (break_at_app PIPE h' p' Hh') as B'.
  rewrite E, B' in B. by simplify_eq.
Qed.

Lemma to_string_nat (n : nat) : to_string (Z.of_nat n) = udec (Z.of_nat n).
Proof. unfold to_string. by replace (Z.of_nat n <? 0) with false by (symmetry; apply Z.ltb_ge; lia). Qed.

Lemma udec_inj a b : 0 <= a -> 0 <= b -> udec a = udec b -> a = b.
Proof.
  intros Ha Hb E. destruct (scan_dec_udec a "" Ha eq_refl) as (k & _ & Ka).
  destruct (scan_dec_udec b "" Hb eq_refl) as (k' & _ & Kb). rewrite E, Kb in Ka. by simplify_eq.
Qed.

(** Two keys are the same only for the same generation, method, host and path. *)
Lemma route_key_inj (g g' : nat) m h p m' h' p' :
  has_char PIPE m = false -> has_char PIPE p = false -> has_char PIPE m' = false -> has_char PIPE p' = false ->
  route_key (Z.of_nat g) m h p = route_key (Z.of_nat g') m' h' p' -> g = g' /\ m = m' /\ h = h' /\ p = p'.
Proof.
  intros Hm Hp Hm' Hp' E. unfold route_key in E. rewrite !to_string_nat in E.
  apply pipe_split_left in E as [Eg E]; [|apply udec_has_char; [lia|done]..].
  apply udec_inj in Eg; [|lia|lia]. apply pipe_split_left in E as [-> E]; [|done|done].
  apply pipe_split_right in E as [-> ->]; [|done|done]. split_and!; [lia|done|done|done].
Qed.

(** ** The invariant *)

Section invariant.
Context (upstreams : string -> option G).

(** A key and a result that belong to a generation there was. *)
Definition entry_ok (past : list (option (RouteTable R) * option KeyExtractor)) (key : string) (res : RouteResult) : Prop :=
  exists g t ke method host path,
    past !! g = Some (t, ke) /\ has_char PIPE method = false /\ has_char PIPE path = false /\
    key = route_key (Z.of_nat g) method host path /\ res = compute upstreams t method host path.

Definition taken_ok (past : list (option (RouteTable R) * option KeyExtractor)) (req : GwRequest) (k : Taken) : Prop :=
  exists g : nat, k_gen k = Z.of_nat g /\ past !! g = Some (k_table k, k_extractor k) /\ key_clean k req = true.

Definition pc_ok past (pc : Pc) : Prop :=
  match pc with
  | P_LOOK req k => taken_ok past req k
  | P_FILL req k => taken_ok past req k
  | P_DONE req k res => taken_ok past req k /\ res = compute_req upstreams k req
  end.

Record world_ok (w : World) : Prop := {
  wo_gen : m_gen (w_router w) = Z.of_nat (length (w_past w)) - 1;
  wo_last : w_past w !! (length (w_past w) - 1)%nat = Some (m_table (w_router w), m_key_extractor (w_router w));
  wo_cache : exists m, cache_holds (m_cache (w_router w)) m /\
    (forall key res, m !! key = Some res -> entry_ok (w_past w) key res);
  wo_threads : forall tid pc, w_threads w !! tid = Some pc -> pc_ok (w_past w) pc }.

Lemma entry_ok_app past x key res : entry_ok past key res -> entry_ok (past ++ [x]) key res.
Proof.
  intros (g & t & ke & m & h & p & Hg & Hr). exists g, t, ke, m, h, p. split; [|done]. by apply lookup_app_l_Some.
Qed.

Lemma taken_ok_app past x req k : taken_ok past req k -> taken_ok (past ++ [x]) req k.
Proof. intros (g & Hk & Hg & Hc). exists g. split_and!; [done|by apply lookup_app_l_Some|done]. Qed.

Lemma pc_ok_app past x pc : pc_ok past pc -> pc_ok (past ++ [x]) pc.
Proof. destruct pc; cbn; [apply taken_ok_app|apply taken_ok_app|intros [? ?]; split; [by apply taken_ok_app|done]]. Qed.

(** What a thread computes belongs under its key. *)
Lemma computed_ok past req k : taken_ok past req k -> entry_ok past (match_key k req) (compute_req upstreams k req).
Proof.
  intros (g & Hk & Hg & Hc). unfold key_clean in Hc. b2p.
  exists g, (k_table k), (k_extractor k), (req_method_name req), (req_host req), (route_path (k_extractor k) req).
  split_and!; try done. unfold match_key. by rewrite Hk.
Qed.

(** And what is found under it is what it would compute. *)
Lemma found_ok past req k res : taken_ok past req k -> entry_ok past (match_key k req) res ->
  res = compute_req upstreams k req.
Proof.
  intros (g & Hk & Hg & Hc) (g' & t & ke & m & h & p & Hg' & Hm & Hp & E & ->). unfold key_clean in Hc. b2p.
  unfold match_key in E. rewrite Hk in E. apply route_key_inj in E as (-> & <- & <- & <-); try done.
  rewrite Hg in Hg'. by simplify_eq.
Qed.

Lemma change_ok t ke pending w : world_ok w -> Z.of_nat (length (w_past w)) < 2 ^ 32 ->
  world_ok (world_change (changed t ke pending (w_router w)) w).
Proof.
  intros [Hg Hl (m & Hc & Hm) Ht] Hb. split; cbn [world_change changed w_router w_past w_threads m_gen m_table m_key_extractor m_cache].
  - rewrite Hg, length_app. cbn. rewrite wrap32_id by (unfold is_u32; lia). lia.
  - rewrite length_app. cbn. rewrite lookup_app_r by lia. by replace (_ - _)%nat with O by lia.
  - destruct (cache_invalidate_ok _ _ Hc) as (m' & Hs & Hc'). exists m'. split; [done|].
    intros key res Hk. apply entry_ok_app, Hm. by eapply lookup_weaken.
  - intros tid pc Hpc. by apply pc_ok_app, (Ht tid).
Qed.

Lemma thread_ok tid pc c m w : world_ok w -> pc_ok (w_past w) pc -> cache_holds c m ->
  (forall key res, m !! key = Some res -> entry_ok (w_past w) key res) ->
  world_ok (world_thread tid pc (with_cache c (w_router w)) w).
Proof.
  intros [Hg Hl _ Ht] Hpc Hc Hm. split; cbn; [done|done|by exists m|].
  intros tid' pc'. destruct (decide (tid' = tid)) as [->|Hne].
  - rewrite lookup_insert_eq. by intros [= <-].
  - rewrite lookup_insert_ne by done. apply Ht.
Qed.

Lemma with_cache_same (r : Router) : with_cache (m_cache r) r = r.
Proof. by destruct r. Qed.

Lemma step_past w w' : step upstreams w w' -> (length (w_past w) <= length (w_past w'))%nat.
Proof.
  destruct 1; cbn; rewrite ?length_app; try lia.
  unfold do_look. destruct (look k req (w_router w)) as [o r]. cbn. lia.
Qed.

Lemma step_ok w w' : step upstreams w w' -> Z.of_nat (length (w_past w')) <= 2 ^ 32 -> world_ok w -> world_ok w'.
Proof.
  intros Hs Hb Hw. destruct Hs as [t|rule| |ke|tid req Hc|tid req k Hp|tid req k Hp]; cbn in Hb;
    rewrite ?length_app in Hb; cbn in Hb.
  1-4: apply change_ok; [done|lia].
  - destruct (wo_cache _ Hw) as (m & Hcc & Hm). pose proof (wo_gen _ Hw) as Hg. pose proof (wo_last _ Hw) as Hl.
    rewrite <- (with_cache_same (w_router w)) at 2. eapply thread_ok; try done.
    exists (length (w_past w) - 1)%nat. cbn. pose proof (lookup_lt_Some _ _ _ Hl).
    split_and!; [lia|done|done].
  - pose proof (wo_threads _ Hw _ _ Hp) as Hk. cbn in Hk. destruct (wo_cache _ Hw) as (m & Hc & Hm).
    unfold do_look, look. pose proof (cache_get_ok (match_key k req) _ _ Hc) as [Hc' Hf].
    destruct (cache_get (match_key k req) (m_cache (w_router w))) as [o c]. cbn in Hc', Hf.
    eapply thread_ok; try done. destruct o as [res|]; cbn; [|done].
    split; [done|]. apply (found_ok (w_past w)); [done|]. apply Hm. by apply Hf.
  - pose proof (wo_threads _ Hw _ _ Hp) as Hk. cbn in Hk. destruct (wo_cache _ Hw) as (m & Hc & Hm).
    eapply thread_ok; [done|by split|by apply cache_put_ok|].
    intros key v. destruct (decide (key = match_key k req)) as [->|Hne].
    + rewrite lookup_insert_eq. intros [= <-]. by apply computed_ok.
    + rewrite lookup_insert_ne by done. apply Hm.
Qed.

Lemma reachable_ok c w : cache_holds c ∅ -> reachable upstreams c w ->
  Z.of_nat (length (w_past w)) <= 2 ^ 32 -> world_ok w.
Proof.
  intros Hc. induction 1 as [|w w' Hr IH Hs]; intros Hb.
  - split; cbn; [done|done| |done]. by exists ∅.
  - eapply step_ok; [done|done|]. apply IH. pose proof (step_past _ _ Hs). lia.
Qed.

(** A match that nothing comes between answers with the current table. *)
Lemma router_match_current w req : world_ok w -> key_clean (take (w_router w)) req = true ->
  (router_match upstreams req (w_router w)).1 = compute_req upstreams (take (w_router w)) req.
Proof.
  intros Hw Hc. destruct (wo_cache _ Hw) as (m & Hcc & Hm). pose proof (wo_gen _ Hw) as Hg.
  pose proof (wo_last _ Hw) as Hl. pose proof (lookup_lt_Some _ _ _ Hl).
  unfold router_match, look. pose proof (cache_get_ok (match_key (take (w_router w)) req) _ _ Hcc) as [_ Hf].
  destruct (cache_get _ _) as [[res|] c]; [|done]. cbn in *. apply (found_ok (w_past w)).
  - exists (length (w_past w) - 1)%nat. split_and!; [cbn; lia|done|done].
  - apply Hm. by apply Hf.
Qed.

(** C32: the cache does not show. However matches of any number of threads and changes of
    the table interleave, with any cache that keeps to [RouteCache] and fewer than 2^32
    changes, a match that is done has the result that computing it without a cache would
    give: with the table and the extractor the router had when the match took them. *)
Theorem route_transparent (c : cache) (w : World) (tid : nat) (req : GwRequest) (k : Taken) (res : RouteResult) :
  cache_holds c ∅ -> reachable upstreams c w -> Z.of_nat (length (w_past w)) <= 2 ^ 32 ->
  w_threads w !! tid = Some (P_DONE req k res) ->
  res = compute upstreams (k_table k) (req_method_name req) (req_host req) (route_path (k_extractor k) req) /\
  (exists g : nat, k_gen k = Z.of_nat g /\ w_past w !! g = Some (k_table k, k_extractor k)).
Proof.
  intros Hc Hr Hb Ht. pose proof (reachable_ok _ _ Hc Hr Hb) as Hw.
  destruct (wo_threads _ Hw _ _ Ht) as [(g & Hg & Hp & _) ->]. split; [done|by exists g].
Qed.
End invariant.
End router.
Arguments RouteResult : clear implicits.

(** ** Instances *)

Definition sample_req (path : string) : GwRequest := rq_addHeader "Host" "a.example" (request_init <| rq_path := path |>).

Section sample.
#[local] Existing Instance insertion_StableSort.

#[local] Instance sample_cache : RouteCache (RouteResult unit nat) := ArcRouteCache (RouteResult unit nat) String.length.

Definition sample_upstreams (name : string) : option nat := if String.eqb name "api" then Some 7%nat else None.

Definition sample_arc : @cache _ sample_cache := @arc_init (RouteResult unit nat) 4.

(** A thread takes the first table, the table changes, and the thread still answers with
    the table it took. *)
Definition sample_w1 : World :=
  let w := world_init sample_arc in
  world_change (setTable (Some (table_of sample_rules)) (w_router w)) w.

Definition sample_taken : Taken :=
  take (setTable (Some (table_of sample_rules)) (router_init sample_arc)).

Definition sample_result : RouteResult unit nat :=
  mkResult true (table_match "GET" "a.example" "/api/x" (table_of sample_rules)) (Some 7%nat) "/api".

Definition sample_w2 : World := world_thread 1 (P_LOOK (sample_req "/api/x") sample_taken) (w_router sample_w1) sample_w1.
Definition sample_w3 : World := world_change (clearRoutes (w_router sample_w2)) sample_w2.
Definition sample_w4 : World := do_look 1 (sample_req "/api/x") sample_taken sample_w3.
Definition sample_world : World := do_fill sample_upstreams 1 (sample_req "/api/x") sample_taken sample_w4.

Lemma sample_reachable : reachable sample_upstreams sample_arc sample_world.
Proof.
  apply (reach_step _ _ sample_w4); [|apply step_fill; vm_compute; reflexivity].
  apply (reach_step _ _ sample_w3); [|apply step_look; vm_compute; reflexivity].
  apply (reach_step _ _ sample_w2); [|apply step_clear].
  apply (reach_step _ _ sample_w1); [|apply (step_take sample_upstreams sample_w1 1 (sample_req "/api/x")); vm_compute; reflexivity].
  apply (reach_step _ _ (world_init sample_arc)); [apply reach_init|apply step_set].
Qed.

Lemma route_transparent_witness :
  sample_result = compute sample_upstreams (k_table sample_taken) "GET" "a.example" "/api/x" /\
  (exists g : nat, k_gen sample_taken = Z.of_nat g /\
     w_past sample_world !! g = Some (k_table sample_taken, k_extractor sample_taken)).
Proof.
  apply (route_transparent sample_upstreams sample_arc sample_world 1 (sample_req "/api/x") sample_taken sample_result).
  - apply arc_init_ok.
  - apply sample_reachable.
  - vm_compute. discriminate.
  - vm_compute. reflexivity.
Defined.

(** With a bar in the path, as another extractor may give, two requests share a key. *)
Example key_collides : route_key 1 "GET" "a" "b|/c" = route_key 1 "GET" "a|b" "/c".
Proof. reflexivity. Qed.
End sample.
