(* ===== verification/Heads.v ===== *)
(** * Heads on their way through (src/gateway/upstream.cpp, conn.cpp)

    What the gateway sends upstream is not what it received: fields that concern one
    connection only are dropped, with those the [Connection] field names; forwarding
    fields and the framing are the gateway's own; a route may set and remove fields and
    change the path. The answer is treated alike. The theorems say, for every name, which
    fields are in the head that is sent. *)

From S2P Require Import Prelude Records Str HttpMsg Body.

Definition is_hop_hdr (key : string) : bool :=
  existsb (case_eqb key)
    ["Connection"; "Keep-Alive"; "Proxy-Authenticate"; "Proxy-Authorization"; "Proxy-Connection";
     "TE"; "Trailer"; "Trailers"; "Transfer-Encoding"; "Upgrade"]%string.

Definition is_expect_hdr (key : string) : bool := case_eqb key "Expect".

Definition is_fwd_hdr (key : string) : bool :=
  existsb (case_eqb key) ["X-Forwarded-For"; "X-Real-IP"; "X-Forwarded-Host"; "X-Forwarded-Proto"]%string.

(** Every part of the value, and there is one at least, is the token. *)
Definition only_token (value wanted : string) : bool :=
  forallb (fun part => negb (String.eqb (trim_ascii part) "") && case_eqb (trim_ascii part) wanted)
    (split_on COMMA value).

Definition can_retry (m : HttpMethod) : bool :=
  match m with M_GET | M_HEAD | M_OPTIONS => true | _ => false end.

Definition is_head (m : HttpMethod) : bool := match m with M_HEAD => true | _ => false end.

Definition resp_no_body (m : HttpMethod) (s : Z) : bool :=
  is_head m || ((100 <=? s) && (s <? 200)) || (s =? 204) || (s =? 304).

Definition rq_eff_headers (r : GwRequest) : HeaderList :=
  match rq_headerList r with [] => rq_headers r | l => l end.

Definition rs_eff_headers (r : GwResponse) : HeaderList :=
  match rs_headerList r with [] => rs_headers r | l => l end.

Definition clean_resp_hdrs (r : GwResponse) : GwResponse :=
  let headers := rs_eff_headers r in
  let connection := join_hdr_vals headers "Connection" in
  fold_left (fun r (h : string * string) =>
    if is_hop_hdr h.1 || hdr_has_token connection h.1 || is_fwd_hdr h.1 then rs_delHeader h.1 r else r) headers r.

(** ** Paths *)

Definition first_char (s : string) : option ascii := match s with String c _ => Some c | EmptyString => None end.

Fixpoint last_char (s : string) : option ascii :=
  match s with
  | EmptyString => None
  | String c EmptyString => Some c
  | String _ s => last_char s
  end.

Definition is_slash (c : option ascii) : bool := match c with Some c => Ascii.eqb c "/"%char | None => false end.

Definition tail (s : string) : string := match s with String _ s => s | EmptyString => EmptyString end.

Definition join_prefix (prefix path : string) : string :=
  let suffix := if String.eqb path "" then "/"%string else path in
  if String.eqb prefix "" then suffix
  else if String.eqb prefix "/" then (if is_slash (first_char suffix) then suffix else "/" ++ suffix)%string
  else if is_slash (last_char prefix) && is_slash (first_char suffix) then (prefix ++ tail suffix)%string
  else if negb (is_slash (last_char prefix)) && negb (is_slash (first_char suffix)) then (prefix ++ "/" ++ suffix)%string
  else (prefix ++ suffix)%string.

(** [path.substr(prefix.size())] when the path starts with the prefix. *)
Fixpoint cut_prefix (prefix path : string) : option string :=
  match prefix, path with
  | EmptyString, _ => Some path
  | String a prefix', String b path' => if Ascii.eqb a b then cut_prefix prefix' path' else None
  | _, EmptyString => None
  end.

(** ** Requests *)

(** What a route says about the request it forwards; [w_set] in the order of its map. *)
Record Rewrite := mkRewrite {
  w_pathPattern : string; w_stripPrefix : bool; w_rewritePrefix : string;
  w_set : list (string * string); w_remove : list string }.

Definition rewrite_path (rule : option Rewrite) (path : string) : string :=
  match rule with
  | None => path
  | Some w =>
      let path :=
        if w_stripPrefix w && negb (String.eqb (w_pathPattern w) "") then
          match cut_prefix (w_pathPattern w) path with
          | Some p => if is_slash (first_char p) then p else ("/" ++ p)%string
          | None => path
          end
        else path in
      if String.eqb (w_rewritePrefix w) "" then path else join_prefix (w_rewritePrefix w) path
  end.

(** The scheme: what a trusted proxy says, if it says [https] or [http]. *)
Definition fwd_proto (trustedPeer : bool) (req : GwRequest) : string :=
  if trustedPeer then
    let got := trim_ascii (rq_getHeader "X-Forwarded-Proto" "" req) in
    if case_eqb got "https" then "https" else "http"
  else "http".

Definition passes (connection : string) (key : string) : bool :=
  negb (is_hop_hdr key || hdr_has_token connection key || is_fwd_hdr key || is_expect_hdr key).

Definition copy_headers (req up : GwRequest) : GwRequest :=
  let headers := rq_eff_headers req in
  let connection := join_hdr_vals headers "Connection" in
  fold_left (fun up (h : string * string) => if passes connection h.1 then rq_addHeader h.1 h.2 up else up)
    headers up.

Definition rule_headers (w : Rewrite) (up : GwRequest) : GwRequest :=
  let connection := join_hdr_vals (w_set w) "Connection" in
  let up := fold_left (fun up (kv : string * string) =>
    if passes connection kv.1 then rq_setHeader kv.1 kv.2 up else up) (w_set w) up in
  fold_left (fun up k => rq_delHeader k up) (w_remove w) up.

Definition own_headers (clientIp origHost proto upHost : string) (upPort : Z) (framing : BodyFraming) (clen : Z)
    (up : GwRequest) : GwRequest :=
  let up := if String.eqb clientIp "" then up
            else rq_setHeader "X-Real-IP" clientIp (rq_setHeader "X-Forwarded-For" clientIp up) in
  let up := if String.eqb origHost "" then up else rq_setHeader "X-Forwarded-Host" origHost up in
  let up := rq_setHeader "X-Forwarded-Proto" proto up in
  let up := rq_setHeader "Host" (host_port upHost upPort) up in
  let up :=
    match framing with
    | F_CHUNKED => rq_setHeader "Transfer-Encoding" "chunked" (rq_delHeader "Content-Length" up)
    | F_CONTENT_LENGTH => rq_setHeader "Content-Length" (to_string clen) (rq_delHeader "Transfer-Encoding" up)
    | _ => rq_delHeader "Transfer-Encoding" (rq_delHeader "Content-Length" up)
    end in
  rq_setHeader "Connection" "keep-alive" up.

(** [clientIp] is empty when the client's address is not known. *)
Definition up_request (req : GwRequest) (rule : option Rewrite) (clientIp : string) (trustedPeer : bool)
    (upHost : string) (upPort : Z) (framing : BodyFraming) (clen : Z) : GwRequest :=
  let method := if String.eqb (rq_methodRaw req) "" then HttpMethodToString (rq_method req) else rq_methodRaw req in
  let up := mkRequest (rq_method req) method (rewrite_path rule (rq_path req)) (rq_query req) "" 17 false false [] [] in
  let up := copy_headers req up in
  let up := match rule with Some w => rule_headers w up | None => up end in
  own_headers clientIp (rq_getHeader "Host" "" req) (fwd_proto trustedPeer req) upHost upPort framing clen up.

Definition build_req_head (req : GwRequest) (rule : option Rewrite) (clientIp : string) (trustedPeer : bool)
    (upHost : string) (upPort : Z) (framing : BodyFraming) (clen : Z) : string :=
  rq_dumpHead (up_request req rule clientIp trustedPeer upHost upPort framing clen).

(** ** Responses *)

Definition applyHeaders (extra : HeaderMap) (r : GwResponse) : GwResponse :=
  fold_left (fun r (h : string * string) => rs_setHeader h.1 h.2 r) extra r.

Definition copy_resp (rsp : GwResponse) : GwResponse :=
  let headers := rs_eff_headers rsp in
  let connection := join_hdr_vals headers "Connection" in
  fold_left (fun out (h : string * string) =>
    if is_hop_hdr h.1 || hdr_has_token connection h.1 || is_fwd_hdr h.1 then out else rs_addHeader h.1 h.2 out)
    headers (mkResponse (rs_status rsp) (rs_reason rsp) 17 false [] []).

Definition frame_resp (method : HttpMethod) (framing : BodyFraming) (clen : Z) (rsp out : GwResponse) : GwResponse :=
  match framing with
  | F_CHUNKED | F_UNTIL_CLOSE => rs_setHeader "Transfer-Encoding" "chunked" (rs_delHeader "Content-Length" out)
  | F_CONTENT_LENGTH => rs_setHeader "Content-Length" (to_string clen) (rs_delHeader "Transfer-Encoding" out)
  | F_NONE =>
      let out := rs_delHeader "Transfer-Encoding" out in
      if is_head method then
        if rs_hasHeader "Content-Length" rsp
        then rs_setHeader "Content-Length" (rs_getHeader "Content-Length" "" rsp) out
        else rs_delHeader "Content-Length" out
      else if resp_no_body method (rs_status rsp) then rs_delHeader "Content-Length" out
      else rs_setHeader "Content-Length" "0" out
  end.

(** The answer as it goes to the client; [framing] is that of the upstream's body, [F_NONE]
    where there is none. *)
Definition out_response (method : HttpMethod) (framing : BodyFraming) (clen : Z) (extra : HeaderMap) (rsp : GwResponse)
    : GwResponse :=
  frame_resp method framing clen rsp (clean_resp_hdrs (applyHeaders extra (copy_resp rsp))).

(** [sendResponseHeadRaw], up to the bytes; the request's body was read without an error by
    then, so [force_body_err] leaves the answer as it is. *)
Definition raw_head (version : Z) (close : bool) (out : GwResponse) : GwResponse :=
  rs_setHeader "Connection" (if close then "close" else "keep-alive") (out <| rs_version := version |>).

(** ** The fields of a name *)

Definition fields (k : string) (r : GwRequest) : list string := values_of k (rq_headerList r).
Definition rs_fields (k : string) (r : GwResponse) : list string := values_of k (rs_headerList r).

Lemma fields_set k a v r : fields k (rq_setHeader a v r) = if case_eqb a k then [v] else fields k r.
Proof.
  unfold fields. cbn. rewrite values_of_app, values_of_erase, values_of_one.
  by destruct (case_eqb a k); rewrite ?app_nil_r.
Qed.

Lemma fields_add k a v r : fields k (rq_addHeader a v r) = fields k r ++ (if case_eqb a k then [v] else []).
Proof. unfold fields. cbn. by rewrite values_of_app, values_of_one. Qed.

Lemma fields_del k a r : fields k (rq_delHeader a r) = if case_eqb a k then [] else fields k r.
Proof. unfold fields. cbn. by rewrite values_of_erase. Qed.

Lemma rs_fields_add k a v r : rs_fields k (rs_addHeader a v r) = rs_fields k r ++ (if case_eqb a k then [v] else []).
Proof. unfold rs_fields. cbn. by rewrite values_of_app, values_of_one. Qed.

Lemma rs_fields_del k a r : rs_fields k (rs_delHeader a r) = if case_eqb a k then [] else rs_fields k r.
Proof. unfold rs_fields. cbn. by rewrite values_of_erase. Qed.

(** Setting anything but [Vary] replaces; [Vary] only matters to [Vary]. *)
Lemma rs_fields_put k a v r : rs_fields k (rs_put a v r) = if case_eqb a k then [v] else rs_fields k r.
Proof.
  unfold rs_fields. cbn. rewrite values_of_app, values_of_erase, values_of_one.
  by destruct (case_eqb a k); rewrite ?app_nil_r.
Qed.

Lemma rs_fields_set k a v r : case_eqb a "Vary" = false ->
  rs_fields k (rs_setHeader a v r) = if case_eqb a k then [v] else rs_fields k r.
Proof.
  intros Ha. unfold rs_setHeader. rewrite Ha. cbn [andb].
  destruct (hm_find "Vary" (rs_headers r)); apply rs_fields_put.
Qed.

Lemma rs_fields_set_other k a v r : case_eqb a k = false -> rs_fields k (rs_setHeader a v r) = rs_fields k r.
Proof.
  intros Ha. unfold rs_setHeader.
  assert (Hp : rs_fields k (rs_put a v r) = rs_fields k r) by by rewrite rs_fields_put, Ha.
  destruct (hm_find "Vary" (rs_headers r)) as [old|]; [|done].
  destruct (case_eqb a "Vary") eqn:E; [|done]. cbn [andb]. destruct (negb _); [|done].
  destruct (hdr_has_token old v); [done|]. unfold rs_fields. cbn. rewrite values_of_app, values_of_erase, values_of_one.
  rewrite (case_eqb_cong _ _ k (hm_key_case "Vary" _)), <- (case_eqb_cong _ _ k E), Ha. by rewrite app_nil_r.
Qed.

Create Rewrite HintDb fields.
#[export] Hint Rewrite fields_set fields_add fields_del rs_fields_add rs_fields_del : fields.

(** Names compare up to case in every test. *)
Lemma existsb_case_cong a b l : case_eqb a b = true -> existsb (case_eqb a) l = existsb (case_eqb b) l.
Proof. intros H. induction l as [|x l IH]; [done|]. cbn. by rewrite IH, (case_eqb_cong _ _ x H). Qed.

Lemma case_nonempty a b : case_eqb a b = true -> c_str b <> EmptyString -> String.eqb a "" = false.
Proof.
  intros H%case_eqb_key Hb. apply String.eqb_neq. intros ->. cbn in H. by destruct (c_str b).
Qed.

Lemma has_token_cong v a b : case_eqb a b = true -> c_str b <> EmptyString -> hdr_has_token v a = hdr_has_token v b.
Proof.
  intros H Hb. unfold hdr_has_token. rewrite (case_nonempty _ _ H Hb), (case_nonempty b b (case_eqb_refl b) Hb).
  induction (split_on COMMA v) as [|p l IH]; [done|]. cbn. by rewrite IH, (case_eqb_cong_r _ _ _ H).
Qed.

Lemma passes_cong conn a b : case_eqb a b = true -> c_str b <> EmptyString -> passes conn a = passes conn b.
Proof.
  intros H Hb. unfold passes, is_hop_hdr, is_fwd_hdr, is_expect_hdr.
  by rewrite !(existsb_case_cong a b), (has_token_cong conn a b), (case_eqb_cong _ _ "Expect" H).
Qed.

(** ** Requests *)

Lemma copy_fields k conn l up : c_str k <> EmptyString ->
  fields k (fold_left (fun up (h : string * string) => if passes conn h.1 then rq_addHeader h.1 h.2 up else up) l up) =
    fields k up ++ (if passes conn k then values_of k l else []).
Proof.
  intros Hk. revert up. induction l as [|[a v] l IH]; intros up; cbn [fold_left].
  { unfold values_of. cbn. by destruct (passes conn k); rewrite app_nil_r. }
  rewrite IH. cbn [fst snd]. change ((a, v) :: l) with ([(a, v)] ++ l). rewrite values_of_app, values_of_one.
  destruct (case_eqb a k) eqn:E.
  - rewrite (passes_cong conn a k E Hk). destruct (passes conn k); [|done].
    autorewrite with fields. by rewrite E, <- app_assoc.
  - cbn [app]. f_equal. destruct (passes conn a); [|done]. autorewrite with fields. by rewrite E, app_nil_r.
Qed.

(** What the route sets a name to, the last one counting. *)
Definition set_value (w : Rewrite) (k : string) : option string :=
  let connection := join_hdr_vals (w_set w) "Connection" in
  fold_left (fun acc (kv : string * string) => if passes connection kv.1 && case_eqb kv.1 k then Some kv.2 else acc)
    (w_set w) None.

Lemma set_fields k conn l up acc :
  fields k up = match acc with Some v => [v] | None => fields k up end ->
  fields k (fold_left (fun up (kv : string * string) => if passes conn kv.1 then rq_setHeader kv.1 kv.2 up else up) l up) =
    match fold_left (fun acc (kv : string * string) => if passes conn kv.1 && case_eqb kv.1 k then Some kv.2 else acc) l acc with
    | Some v => [v]
    | None => fields k up
    end.
Proof.
  revert up acc. induction l as [|[a v] l IH]; intros up acc H; cbn [fold_left fst snd]; [done|].
  destruct (passes conn a) eqn:Ep; cbn [andb]; [|by apply IH].
  destruct (case_eqb a k) eqn:E.
  - rewrite (IH _ (Some v)); [|autorewrite with fields; by rewrite E].
    assert (Hs : forall l acc, acc <> None ->
      fold_left (fun acc (kv : string * string) => if passes conn kv.1 && case_eqb kv.1 k then Some kv.2 else acc) l acc <> None).
    { clear. intros l. induction l as [|x l IH]; intros acc Ha; cbn; [done|]. apply IH. by destruct (_ && _). }
    specialize (Hs l (Some v) ltac:(done)). by destruct (fold_left _ l (Some v)).
  - rewrite (IH _ acc); autorewrite with fields; by rewrite E.
Qed.

Lemma del_fields k l up :
  fields k (fold_left (fun up a => rq_delHeader a up) l up) =
    if existsb (fun a => case_eqb a k) l then [] else fields k up.
Proof.
  revert up. induction l as [|a l IH]; intros up; cbn [fold_left existsb]; [done|].
  rewrite IH. autorewrite with fields. destruct (case_eqb a k); cbn [orb]; [by destruct (existsb _ l)|done].
Qed.

(** The fields of a name after the route's changes, given those before. *)
Definition ruled (rule : option Rewrite) (k : string) (before : list string) : list string :=
  match rule with
  | None => before
  | Some w =>
      if existsb (fun a => case_eqb a k) (w_remove w) then []
      else match set_value w k with Some v => [v] | None => before end
  end.

Lemma rule_fields rule k up :
  fields k (match rule with Some w => rule_headers w up | None => up end) = ruled rule k (fields k up).
Proof.
  destruct rule as [w|]; [|done]. unfold rule_headers, ruled, set_value. rewrite del_fields.
  by rewrite (set_fields k _ (w_set w) up None).
Qed.

(** A name that is the connection's, or the gateway's own, is neither copied nor set. *)
Lemma ruled_blocked rule k : (forall conn, passes conn k = false) -> c_str k <> EmptyString -> ruled rule k [] = [].
Proof.
  intros Hp Hk. destruct rule as [w|]; [|done]. cbn. destruct (existsb _ _); [done|]. unfold set_value.
  generalize (join_hdr_vals (w_set w) "Connection") as conn. intros conn.
  assert (H : forall l, fold_left (fun acc (kv : string * string) =>
    if passes conn kv.1 && case_eqb kv.1 k then Some kv.2 else acc) l None = None); [|by rewrite H].
  intros l. induction l as [|[a v] l IH]; [done|]. cbn. destruct (case_eqb a k) eqn:E.
  - by rewrite (passes_cong conn a k E Hk), Hp.
  - by rewrite andb_false_r.
Qed.

(** The names the gateway answers for itself. *)
Definition own_names : list string :=
  ["X-Forwarded-For"; "X-Real-IP"; "X-Forwarded-Host"; "X-Forwarded-Proto"; "Host";
   "Content-Length"; "Transfer-Encoding"; "Connection"]%string.

Lemma own_fields_other k clientIp origHost proto upHost upPort framing clen up :
  existsb (case_eqb k) own_names = false ->
  fields k (own_headers clientIp origHost proto upHost upPort framing clen up) = fields k up.
Proof.
  cbn. rewrite !(case_eqb_sym k). intros H. b2p.
  unfold own_headers.
  destruct framing, (String.eqb origHost ""), (String.eqb clientIp ""); autorewrite with fields;
    repeat match goal with E : case_eqb _ k = false |- _ => rewrite ?E; clear E end; done.
Qed.

(** What of the copied fields is left, with the route's. *)
Definition middle (req : GwRequest) (rule : option Rewrite) (k : string) : list string :=
  ruled rule k (if passes (join_hdr_vals (rq_headerList req) "Connection") k then fields k req else []).

Lemma middle_fields req rule k meth path : rq_agree req -> c_str k <> EmptyString ->
  let up := mkRequest (rq_method req) meth path (rq_query req) "" 17 false false [] [] in
  fields k (match rule with Some w => rule_headers w (copy_headers req up) | None => copy_headers req up end) =
    middle req rule k.
Proof.
  intros Ha Hk up. rewrite rule_fields. unfold middle, copy_headers.
  assert (He : rq_eff_headers req = rq_headerList req).
  { unfold rq_eff_headers. destruct (rq_headerList req) eqn:E; [by apply rq_agree_nil|done]. }
  rewrite He, copy_fields by done. done.
Qed.

Lemma middle_blocked req rule k : (forall conn, passes conn k = false) -> c_str k <> EmptyString ->
  middle req rule k = [].
Proof. intros Hp Hk. unfold middle. rewrite Hp. by apply ruled_blocked. Qed.

Lemma hop_blocked conn k : is_hop_hdr k = true -> passes conn k = false.
Proof. intros H. unfold passes. by rewrite H. Qed.

Lemma fwd_blocked conn k : is_fwd_hdr k = true -> passes conn k = false.
Proof. intros H. unfold passes. by rewrite H, !orb_true_r. Qed.

(** C29: what the upstream is sent. Of the names that are the gateway's own there is
    exactly what the gateway computed, whatever the client or the route says: one value
    of the client's address (none when it is unknown), of the scheme and of the host;
    exactly one framing, the one the body is sent in; one [Connection]. Any other name
    has what the route makes of it: nothing when it removes it, its own value when it
    sets it, and else the client's fields, unless they concern one connection only. *)
Theorem request_head (req : GwRequest) (rule : option Rewrite) (clientIp : string) (trustedPeer : bool)
    (upHost : string) (upPort : Z) (framing : BodyFraming) (clen : Z) :
  rq_agree req ->
  let up := up_request req rule clientIp trustedPeer upHost upPort framing clen in
  let client := if String.eqb clientIp "" then [] else [clientIp] in
  let host := rq_getHeader "Host" "" req in
  (fields "X-Forwarded-For" up = client /\ fields "X-Real-IP" up = client /\
   fields "X-Forwarded-Host" up = (if String.eqb host "" then [] else [host]) /\
   fields "X-Forwarded-Proto" up = [fwd_proto trustedPeer req] /\
   fields "Host" up = [host_port upHost upPort] /\ fields "Connection" up = ["keep-alive"%string]) /\
  (fields "Transfer-Encoding" up, fields "Content-Length" up) =
    match framing with
    | F_CHUNKED => (["chunked"%string], [])
    | F_CONTENT_LENGTH => ([], [to_string clen])
    | _ => ([], [])
    end /\
  (forall k, c_str k <> EmptyString -> existsb (case_eqb k) own_names = false -> fields k up = middle req rule k).
Proof.
  intros Ha up client host. unfold up, up_request.
  set (meth := if String.eqb (rq_methodRaw req) "" then _ else _).
  pose proof (fun k => middle_fields req rule k meth (rewrite_path rule (rq_path req)) Ha) as Hm. cbn zeta in Hm.
  set (up1 := match rule with Some w => rule_headers w _ | None => _ end) in *. clearbody up1.
  assert (Hb : forall k, is_fwd_hdr k = true -> c_str k <> EmptyString -> fields k up1 = []).
  { intros k Hk Hn. rewrite Hm by done. apply middle_blocked; [|done]. intros. by apply fwd_blocked. }
  pose proof (Hb "X-Forwarded-For"%string eq_refl ltac:(done)) as B1.
  pose proof (Hb "X-Real-IP"%string eq_refl ltac:(done)) as B2.
  pose proof (Hb "X-Forwarded-Host"%string eq_refl ltac:(done)) as B3.
  split; [|split; [|intros k Hk Ho; rewrite own_fields_other by done; by apply Hm]].
  - unfold own_headers. fold host client.
    split_and!; destruct framing, (String.eqb clientIp "") eqn:E1, (String.eqb host "") eqn:E2; unfold client; rewrite ?E1;
      autorewrite with fields; first [reflexivity|exact B1|exact B2|exact B3].
  - unfold own_headers. destruct framing, (String.eqb clientIp "") eqn:E1, (String.eqb host "") eqn:E2;
      autorewrite with fields; first [reflexivity|exact B1|exact B2|exact B3].
Qed.

(** ** Responses *)

Definition dropped (connection key : string) : bool :=
  is_hop_hdr key || hdr_has_token connection key || is_fwd_hdr key.

Lemma dropped_cong conn a b : case_eqb a b = true -> c_str b <> EmptyString -> dropped conn a = dropped conn b.
Proof.
  intros H Hb. unfold dropped, is_hop_hdr, is_fwd_hdr. by rewrite !(existsb_case_cong a b), (has_token_cong conn a b).
Qed.

Lemma copy_resp_loop k conn l out : c_str k <> EmptyString ->
  rs_fields k (fold_left (fun out (h : string * string) =>
      if is_hop_hdr h.1 || hdr_has_token conn h.1 || is_fwd_hdr h.1 then out else rs_addHeader h.1 h.2 out) l out) =
    rs_fields k out ++ (if dropped conn k then [] else values_of k l).
Proof.
  intros Hk. revert out. induction l as [|[a v] l IH]; intros out; cbn [fold_left].
  { unfold values_of. cbn. by destruct (dropped conn k); rewrite app_nil_r. }
  rewrite IH. cbn [fst snd]. fold (dropped conn a). change ((a, v) :: l) with ([(a, v)] ++ l).
  rewrite values_of_app, values_of_one. destruct (case_eqb a k) eqn:E.
  - rewrite (dropped_cong conn a k E Hk). destruct (dropped conn k); [done|].
    autorewrite with fields. by rewrite E, <- app_assoc.
  - cbn [app]. f_equal. destruct (dropped conn a); [done|]. autorewrite with fields. by rewrite E, app_nil_r.
Qed.

Lemma copy_resp_fields k rsp : c_str k <> EmptyString -> rs_agree rsp ->
  rs_fields k (copy_resp rsp) =
    if dropped (join_hdr_vals (rs_headerList rsp) "Connection") k then [] else rs_fields k rsp.
Proof.
  intros Hk Ha. unfold copy_resp.
  assert (He : rs_eff_headers rsp = rs_headerList rsp).
  { unfold rs_eff_headers. destruct (rs_headerList rsp) eqn:E; [by apply rs_agree_nil|done]. }
  rewrite He. by apply copy_resp_loop.
Qed.

Definition clean_step (conn : string) (r : GwResponse) (h : string * string) : GwResponse :=
  if is_hop_hdr h.1 || hdr_has_token conn h.1 || is_fwd_hdr h.1 then rs_delHeader h.1 r else r.

Lemma clean_keeps k conn l r : c_str k <> EmptyString -> dropped conn k = false ->
  rs_fields k (fold_left (clean_step conn) l r) = rs_fields k r.
Proof.
  intros Hk Hd. revert r. induction l as [|[a v] l IH]; intros r; cbn [fold_left]; [done|].
  rewrite IH. unfold clean_step. cbn [fst]. fold (dropped conn a). destruct (dropped conn a) eqn:Ed; [|done].
  autorewrite with fields. destruct (case_eqb a k) eqn:E; [|done]. by rewrite (dropped_cong conn a k E Hk), Hd in Ed.
Qed.

Lemma clean_drops k conn l r : c_str k <> EmptyString -> dropped conn k = true ->
  (rs_fields k r <> [] -> existsb (fun h => case_eqb h.1 k) l = true) ->
  rs_fields k (fold_left (clean_step conn) l r) = [].
Proof.
  intros Hk Hd. revert r. induction l as [|[a v] l IH]; intros r Hl; cbn [fold_left].
  { destruct (rs_fields k r); [done|]. by specialize (Hl ltac:(done)). }
  apply IH. unfold clean_step. cbn [fst existsb] in *. fold (dropped conn a).
  destruct (case_eqb a k) eqn:E; cbn [orb] in Hl.
  - rewrite (dropped_cong conn a k E Hk), Hd. autorewrite with fields. by rewrite E.
  - destruct (dropped conn a); autorewrite with fields; [by rewrite E|done].
Qed.

Lemma clean_fields k r : c_str k <> EmptyString ->
  rs_fields k (clean_resp_hdrs r) =
    if dropped (join_hdr_vals (rs_eff_headers r) "Connection") k then [] else rs_fields k r.
Proof.
  intros Hk. unfold clean_resp_hdrs. generalize (join_hdr_vals (rs_eff_headers r) "Connection") as conn. intros conn.
  change (rs_fields k (fold_left (clean_step conn) (rs_eff_headers r) r) = if dropped conn k then [] else rs_fields k r).
  destruct (dropped conn k) eqn:Ed; [|by apply clean_keeps]. apply clean_drops; [done|done|].
  unfold rs_fields, rs_eff_headers, values_of. destruct (rs_headerList r) as [|h l] eqn:E; [done|].
  generalize (h :: l) as l'. clear. intros l'. induction l' as [|x l' IH]; [done|]. cbn.
  by destruct (case_eqb x.1 k).
Qed.

Lemma apply_fields_other k extra r : Forall (fun h => case_eqb h.1 k = false) extra ->
  rs_fields k (applyHeaders extra r) = rs_fields k r.
Proof.
  intros H. unfold applyHeaders. revert r. induction H as [|h extra Hh He IH]; intros r; cbn [fold_left]; [done|].
  rewrite IH. by apply rs_fields_set_other.
Qed.

(** No [Connection] field: no name is named by one. *)
Lemma join_hdr_vals_none l key : values_of key l = [] -> join_hdr_vals l key = EmptyString.
Proof.
  unfold join_hdr_vals. generalize EmptyString as out. induction l as [|[a v] l IH]; intros out; [done|].
  change ((a, v) :: l) with ([(a, v)] ++ l). rewrite values_of_app, values_of_one. cbn [fold_left app fst].
  destruct (case_eqb a key); [done|]. cbn. apply IH.
Qed.

Lemma has_token_empty k : c_str k <> EmptyString -> hdr_has_token "" k = false.
Proof.
  intros Hk. unfold hdr_has_token. destruct (String.eqb k ""); [done|]. cbn. rewrite orb_false_r.
  destruct (case_eqb _ k) eqn:E; [|done]. by apply case_nonempty in E.
Qed.

Lemma frame_fields k method framing clen rsp out :
  rs_fields k (frame_resp method framing clen rsp out) =
    if case_eqb "Transfer-Encoding" k then
      match framing with F_CHUNKED | F_UNTIL_CLOSE => ["chunked"%string] | _ => [] end
    else if case_eqb "Content-Length" k then
      match framing with
      | F_CHUNKED | F_UNTIL_CLOSE => []
      | F_CONTENT_LENGTH => [to_string clen]
      | F_NONE =>
          if is_head method then
            (if rs_hasHeader "Content-Length" rsp then [rs_getHeader "Content-Length" "" rsp] else [])
          else if resp_no_body method (rs_status rsp) then [] else ["0"%string]
      end
    else rs_fields k out.
Proof.
  assert (Hx : case_eqb "Transfer-Encoding" k = true -> case_eqb "Content-Length" k = false).
  { intros E. rewrite <- (case_eqb_cong_r _ _ "Content-Length" E). done. }
  unfold frame_resp. destruct framing, (is_head method), (rs_hasHeader "Content-Length" rsp), (resp_no_body method (rs_status rsp));
    rewrite ?rs_fields_set by done; autorewrite with fields;
    destruct (case_eqb "Transfer-Encoding" k) eqn:E1, (case_eqb "Content-Length" k) eqn:E2; try done;
    by specialize (Hx eq_refl).
Qed.

Lemma raw_fields k version close out :
  rs_fields k (raw_head version close out) =
    if case_eqb "Connection" k then [if close then "close" else "keep-alive"]%string else rs_fields k out.
Proof. unfold raw_head. by rewrite rs_fields_set. Qed.

(** What is built field by field has its map and its list in agreement. *)
Lemma out_agree extra rsp : rs_agree (applyHeaders extra (copy_resp rsp)).
Proof.
  assert (H : forall r, rs_agree r -> rs_agree (applyHeaders extra r)).
  { unfold applyHeaders. induction extra as [|[a v] l IH]; intros r H; [done|]. cbn.
    apply IH, (rs_agree_op _ (H_SET a v)), H. }
  apply H. unfold copy_resp. set (out := mkResponse _ _ _ _ _ _).
  assert (Ho : rs_agree out) by done. clearbody out. revert out Ho. generalize (rs_eff_headers rsp) at 2 as l.
  intros l. induction l as [|[a v] l IH]; intros out Ho; [done|]. cbn [fold_left fst snd]. apply IH.
  destruct (_ || _); [done|]. by apply (rs_agree_op _ (H_ADD a v)).
Qed.

(** What the client is sent. Exactly one framing, the one the body is sent in: chunks
    for a body in chunks or without an announced end, a length for one with a length, and
    for none the length a HEAD answer announces, or zero, or nothing where the status
    forbids it; exactly one [Connection]. No other field that concerns one connection and
    no forwarding field of the upstream passes; any name that the gateway does not add
    itself has the upstream's fields, unless the upstream's [Connection] names it. *)
Theorem response_head (method : HttpMethod) (framing : BodyFraming) (clen : Z) (extra : HeaderMap) (rsp : GwResponse)
    (version : Z) (close : bool) :
  rs_agree rsp -> Forall (fun h => case_eqb h.1 "Connection" = false) extra ->
  let out := raw_head version close (out_response method framing clen extra rsp) in
  (rs_fields "Transfer-Encoding" out, rs_fields "Content-Length" out) =
    match framing with
    | F_CHUNKED | F_UNTIL_CLOSE => (["chunked"%string], [])
    | F_CONTENT_LENGTH => ([], [to_string clen])
    | F_NONE =>
        ([], if is_head method then
               (if rs_hasHeader "Content-Length" rsp then [rs_getHeader "Content-Length" "" rsp] else [])
             else if resp_no_body method (rs_status rsp) then [] else ["0"%string])
    end /\
  rs_fields "Connection" out = [if close then "close" else "keep-alive"]%string /\
  (forall k, c_str k <> EmptyString ->
     existsb (case_eqb k) ["Transfer-Encoding"; "Content-Length"; "Connection"]%string = false ->
     Forall (fun h => case_eqb h.1 k = false) extra ->
     rs_fields k out =
       if dropped (join_hdr_vals (rs_headerList rsp) "Connection") k then [] else rs_fields k rsp).
Proof.
  intros Ha Hx out. unfold out, out_response. split_and!.
  - rewrite !raw_fields, !frame_fields. by destruct framing.
  - by rewrite raw_fields.
  - intros k Hk Ho He. cbn [existsb] in Ho. b2p. rewrite raw_fields, (case_eqb_sym _ k), H1.
    rewrite frame_fields, (case_eqb_sym "Transfer-Encoding"), (case_eqb_sym "Content-Length"), H, H0.
    rewrite clean_fields by done. set (r := applyHeaders extra (copy_resp rsp)).
    assert (Hc : values_of "Connection" (rs_eff_headers r) = []).
    { assert (Hf : rs_fields "Connection" r = []).
      { unfold r. rewrite apply_fields_other by done. rewrite copy_resp_fields by done. done. }
      unfold rs_fields in Hf. unfold rs_eff_headers.
      destruct (rs_headerList r) as [|h l] eqn:E; [|exact Hf].
      by rewrite (rs_agree_nil r (out_agree extra rsp) E). }
    rewrite (join_hdr_vals_none _ _ Hc). unfold r. rewrite apply_fields_other by done. rewrite copy_resp_fields by done.
    destruct (dropped (join_hdr_vals (rs_headerList rsp) "Connection") k) eqn:Ed; [by destruct (dropped "" k)|].
    unfold dropped in *. rewrite has_token_empty by done. b2p. by rewrite H3, H4.
Qed.

(** A request with forged forwarding fields and one that names a field of its own. *)
Definition forged : GwRequest :=
  fold_left rq_op
    [H_ADD "Host" "shop.example"; H_ADD "X-Forwarded-For" "127.0.0.1"; H_ADD "x-real-ip" "127.0.0.1";
     H_ADD "Transfer-Encoding" "chunked"; H_ADD "Connection" "X-Secret"; H_ADD "x-secret" "1"; H_ADD "Accept" "a";
     H_ADD "accept" "b"; H_ADD "X-Old" "o"]%string request_init.

Definition sample_rewrite : Rewrite := mkRewrite "/api" true "/v1/" [("Host", "evil"); ("X-New", "n")]%string ["x-old"]%string.

Lemma request_head_witness :
  let up := up_request forged (Some sample_rewrite) "203.0.113.9" false "::1" 8080 F_CHUNKED 0 in
  fields "X-Forwarded-For" up = ["203.0.113.9"%string] /\
  fields "Host" up = ["[::1]:8080"%string] /\
  fields "Transfer-Encoding" up = ["chunked"%string] /\
  fields "Accept" up = ["a"; "b"]%string /\ fields "X-Secret" up = [] /\ fields "X-Old" up = [] /\
  fields "X-New" up = ["n"%string].
Proof.
  pose proof (request_head forged (Some sample_rewrite) "203.0.113.9" false "::1" 8080 F_CHUNKED 0
    ltac:(by apply rq_agree_ops)) as [H1 [H2 H3]].
  destruct H1 as (E1 & _ & _ & _ & E2 & _). apply (f_equal fst) in H2 as E3.
  split; [exact E1|]. split; [exact E2|]. split; [exact E3|].
  split_and!; rewrite H3; first [reflexivity|discriminate].
Defined.

Lemma response_head_witness :
  let rsp := fold_left rs_op [H_ADD "Connection" "close, X-Debug"; H_ADD "X-Debug" "1"; H_ADD "Content-Length" "7";
                              H_ADD "Set-Cookie" "a"; H_ADD "Set-Cookie" "b"] response_init in
  let out := raw_head 17 false (out_response M_GET F_CONTENT_LENGTH 7 [("X-Frame-Options", "DENY")]%string rsp) in
  rs_fields "Content-Length" out = ["7"%string] /\ rs_fields "Connection" out = ["keep-alive"%string] /\
  rs_fields "Set-Cookie" out = ["a"; "b"]%string /\ rs_fields "X-Debug" out = [].
Proof.
  intros rsp out.
  pose proof (response_head M_GET F_CONTENT_LENGTH 7 [("X-Frame-Options", "DENY")]%string rsp 17 false
    ltac:(by apply rs_agree_ops) ltac:(by repeat constructor)) as (H1 & H2 & H3).
  apply (f_equal snd) in H1 as E1. split; [exact E1|]. split; [exact H2|].
  split; (rewrite H3; [reflexivity|discriminate|reflexivity|by repeat constructor]).
Defined.

(** An identity the gateway put in, dropped because the client's [Connection] names it. *)
Example identity_dropped :
  let req := rq_setHeader "X-User-Id" "alice" (rq_addHeader "Connection" "X-User-Id" request_init) in
  fields "X-User-Id" (up_request req None "" false "a" 80 F_NONE 0) = [].
Proof. vm_compute. reflexivity. Qed.

(** An answer in chunks to a client that speaks HTTP/1.0. *)
Example old_client_chunked :
  let out := raw_head 16 true (out_response M_GET F_UNTIL_CLOSE 0 [] response_init) in
  status_line out = "HTTP/1.0 200 OK"%string /\ rs_fields "Transfer-Encoding" out = ["chunked"%string].
Proof. vm_compute. done. Qed.
