(* ===== verification/Forward.v ===== *)
(** * The forwarding loop (src/gateway/upstream.cpp, [Upstream::forward])

    One request forwarded over one connection of an upstream group: the head and body go
    out, the answer's head comes back, then its body is relayed. The code has more than
    twenty exits; each step here may go on or leave, so the exits are those of the code.
    What the world does (the clock, whether a write succeeds, what a connection gives) is
    read from an environment turn by turn; what the gateway does is recorded as events.
    The theorems hold for every environment. *)

From S2P Require Import Prelude Records Str HttpMsg Body Buf HttpParse Breaker UpsGroup Heads.

Inductive ForwardResult :=
  | R_OK | R_CONNECT_FAIL | R_SEND_FAIL | R_UPSTREAM_TIMEOUT | R_BAD_RESPONSE | R_BAD_REQUEST_BODY
  | R_REQUEST_TOO_LARGE | R_EXPECT_FAIL | R_UPSTREAM_BUSY.

Definition fwdName (r : ForwardResult) : string :=
  match r with
  | R_OK => "OK" | R_CONNECT_FAIL => "CONNECT_FAIL" | R_SEND_FAIL => "SEND_FAIL"
  | R_UPSTREAM_TIMEOUT => "UPSTREAM_TIMEOUT" | R_BAD_RESPONSE => "BAD_RESPONSE"
  | R_BAD_REQUEST_BODY => "BAD_REQUEST_BODY" | R_REQUEST_TOO_LARGE => "REQUEST_TOO_LARGE"
  | R_EXPECT_FAIL => "EXPECT_FAIL" | R_UPSTREAM_BUSY => "UPSTREAM_BUSY"
  end.

(** One answer of the world: the clock in nanoseconds, whether an operation succeeded, and
    if not whether [errno] is [ETIMEDOUT]. *)
Record Turn := mkTurn { u_now : Z; u_ok : bool; u_timeout : bool }.

Inductive Ev :=
  | V_ACQ_FAIL | V_CIRCUIT_OPEN | V_NO_HEALTHY      (* counters of failed searches *)
  | V_HEAD (head : string) (ok : bool)    (* the request head, to the upstream *)
  | V_READ (b : BodyReader)               (* where the reader of the request's body is now *)
  | V_BLOCK (block : list ascii) (ok : bool)
  | V_FRESH (ok : bool)                   (* another connection to the endpoint *)
  | V_CONTINUE (ok : bool)                (* 100 Continue, to the client *)
  | V_MARK (ret : UpRet)                  (* reported to the endpoint before the end *)
  | V_COUNT (ret : UpRet)                 (* recorded in the metrics *)
  | V_RELEASE (ret : UpRet) (reusable : bool)
  | V_CLIENT_HEAD (head : GwResponse) (ok : bool)
  | V_COMMIT (status : Z)                 (* the answer of the request is settled: a stream *)
  | V_CLIENT_BLOCK (block : list ascii) (ok : bool)
  | V_CLIENT_CLOSE                        (* the client's connection is to be closed *)
  | V_WRITE_FAIL.                         (* a write to the client failed, or it got half an answer *)

(** [f_turn]: how many turns of the environment were used; [f_in]: what the connection in
    use still gives; [f_next]: what another one would. *)
Record Fw := mkFw {
  f_turn : nat; f_reused : bool; f_buf : list ascii; f_in : list Input; f_next : list Input; f_evs : list Ev }.

(** A step goes on with a value or leaves with a result; [Spin] is a reading loop that did
    not end within its fuel. *)
Inductive Out (A : Type) := Go (a : A) (s : Fw) | Leave (r : ForwardResult) (s : Fw) | Spin.
Arguments Go {A}.
Arguments Leave {A}.
Arguments Spin {A}.

Definition M (A : Type) : Type := Fw -> Out A.
Definition ret_ {A} (a : A) : M A := fun s => Go a s.
Definition bind_ {A B} (m : M A) (f : A -> M B) : M B :=
  fun s => match m s with Go a s => f a s | Leave r s => Leave r s | Spin => Spin end.

Declare Scope fw_scope.
Delimit Scope fw_scope with fw.
Notation "x <- m ;; k" := (bind_ m (fun x => k)) (at level 100, m at next level, right associativity) : fw_scope.
Notation "m ;;; k" := (bind_ m (fun _ => k)) (at level 100, right associativity) : fw_scope.
#[local] Open Scope fw_scope.

Definition emit (e : Ev) : M unit := fun s => Go tt (s <| f_evs := f_evs s ++ [e] |>).
Definition leave {A} (r : ForwardResult) : M A := fun s => Leave r s.

(** One request: its head as it goes to an endpoint, its body, and what of the route, the
    client's connection and the time limits matters. *)
Record Req := mkReq {
  g_head : nat -> string;                  (* [build_req_head] for the endpoint *)
  g_retry : bool;                          (* no body, and a method that may be repeated *)
  g_sendContinue : bool;
  g_reqFraming : BodyFraming;
  g_body : option BodyReader;
  g_method : HttpMethod;
  g_dueMs : Z; g_connectMs : Z; g_readMs : Z; g_begin : Z;
  g_cb : CbCfg;
  g_extra : HeaderMap; g_version : Z; g_close : bool }.

(** Reads a body to its end, block by block. *)
Fixpoint read_blocks (fuel : nat) (b : BodyReader) : option (list (list ascii) * BodyReader) :=
  match fuel with
  | O => None
  | S fuel =>
      let '(n, chunk, b) := readChunk [] b in
      if n >? 0 then
        match read_blocks fuel b with
        | Some (blocks, b) => Some (chunk :: blocks, b)
        | None => None
        end
      else Some ([], b)
  end.

(** Every block takes a byte off the stream, so one call more than there are bytes is
    enough ([body_blocks_ends]). *)
Definition body_blocks (b : BodyReader) : option (list (list ascii) * BodyReader) :=
  read_blocks (S (length (stream b))) b.

(** The generated parser on a head: what it found, whether it finished, whether it failed. *)
Record Parsed := mkParsed { d_events : list RespEvent; d_finished : bool; d_failed : bool }.

Section forward.
Context (env : nat -> Turn) (parse : list ascii -> Parsed) (g : Req) (ep : nat).

Definition tick : M Turn := fun s => Go (env (f_turn s)) (s <| f_turn := S (f_turn s) |>).

(** [cap(want)]. *)
Definition cap (want now : Z) : Z := if g_dueMs g =? 0 then want else Z.min want (leftMs (g_dueMs g) now).

(** [arm(want)]: false when no time is left. *)
Definition arm (want : Z) : M bool := t <- tick;; ret_ (negb (cap want (u_now t) =? 0)).

Definition overdue (now : Z) : bool := negb (g_dueMs g =? 0) && (leftMs (g_dueMs g) now =? 0).

Definition mk_ret (mark : UpMark) (why : UpWhy) : UpRet := mkUpRet mark why 0 0 false.

(** The lambda [end]: gives the connection back and records the result. *)
Definition end_ {A} (out : ForwardResult) (ret : UpRet) : M A :=
  t <- tick;;
  let ret := if r_costMs ret =? 0 then ret <| r_costMs := wrap64 (upMs (u_now t) - g_begin g) |> else ret in
  emit (V_RELEASE ret false);;; emit (V_COUNT ret);;; leave out.

Definition end_timeout {A} : M A := end_ R_UPSTREAM_TIMEOUT (mk_ret M_FAIL U_TIMEOUT).

(** A failure that was a timeout when [errno] says so or the deadline is over. *)
Definition end_or_timeout {A} (t : Turn) (out : ForwardResult) (why : UpWhy) : M A :=
  t' <- tick;;
  if u_timeout t || overdue (u_now t') then end_timeout else end_ out (mk_ret M_FAIL why).

Definition armed (want : Z) : M unit := ok <- arm want;; if ok : bool then ret_ tt else end_timeout.

Definition send_head : M Turn := t <- tick;; emit (V_HEAD (g_head g ep) (u_ok t));;; ret_ t.

(** Another connection takes the place of the one in use. *)
Definition switch : M unit := fun s => Go tt ((s <| f_reused := false |>) <| f_in := f_next s |>).

Definition is_reused : M bool := fun s => Go (f_reused s) s.
Definition buf_empty : M bool := fun s => Go (match f_buf s with [] => true | _ => false end) s.

(** [wait ? createFresh(wait) : nullptr]: the wait, the outcome. *)
Definition try_fresh : M (Z * Turn) :=
  t <- tick;;
  let wait := cap (g_connectMs g) (u_now t) in
  if wait =? 0 then ret_ (wait, mkTurn (u_now t) false false)
  else t <- tick;; emit (V_FRESH (u_ok t));;; ret_ (wait, t).

(** The head once more, on the connection just opened. *)
Definition resend : M unit :=
  switch;;; armed (g_readMs g);;;
  t <- send_head;;
  if u_ok t then ret_ tt else end_or_timeout t R_SEND_FAIL U_SEND.

Definition send_request : M unit :=
  armed (g_readMs g);;;
  t <- send_head;;
  if u_ok t then ret_ tt
  else
    reused <- is_reused;;
    if reused && g_retry g then
      f <- try_fresh;;
      let '(wait, t) := f in
      if u_ok t then resend
      else if (wait =? 0) || u_timeout t then end_timeout
      else end_ R_CONNECT_FAIL (mk_ret M_FAIL U_CONNECT)
    else end_or_timeout t R_SEND_FAIL U_SEND.

Definition send_continue : M unit :=
  if g_sendContinue g then
    t <- tick;; emit (V_CONTINUE (u_ok t));;;
    if u_ok t then ret_ tt else emit V_WRITE_FAIL;;; end_ R_OK (mk_ret M_SKIP U_BAD_BODY)
  else ret_ tt.

(** ** The request body *)

Definition up_framing : BodyFraming := match g_reqFraming g with F_CHUNKED => F_CHUNKED | _ => F_CONTENT_LENGTH end.

Definition send_block (bytes : list ascii) : M unit :=
  t <- tick;; emit (V_BLOCK bytes (u_ok t));;;
  if u_ok t then ret_ tt else end_or_timeout t R_SEND_FAIL U_SEND.

Definition spin {A} : M A := fun _ => Spin.

(** Reads the body and sends it, a block at a time. *)
Fixpoint send_blocks (fuel : nat) (b : BodyReader) : M BodyReader :=
  match fuel with
  | O => spin
  | S fuel =>
      let '(n, chunk, b) := readChunk [] b in
      emit (V_READ b);;;
      if n >? 0 then armed (g_readMs g);;; send_block (encodeChunk up_framing chunk);;; send_blocks fuel b
      else ret_ b
  end.

Definition send_body : M unit :=
  match g_body g with
  | None => ret_ tt
  | Some b =>
      b <- send_blocks (S (length (stream b))) b;;
      if m_error b then
        match m_errorCode b with
        | RE_TOO_LARGE => end_ R_REQUEST_TOO_LARGE (mk_ret M_SKIP U_BAD_BODY)
        | _ => end_ R_BAD_REQUEST_BODY (mk_ret M_SKIP U_BAD_BODY)
        end
      else
        match encodeEnd up_framing with
        | [] => ret_ tt
        | tail => send_block tail
        end
  end.

(** ** The head of the answer *)

Definition kMaxHead : Z := 64 * 1024.

Definition bad_resp {A} : M A := end_ R_BAD_RESPONSE (mk_ret M_FAIL U_BAD_RESP).

Definition put_in (buf : list ascii) (rest : list Input) : M unit := fun s => Go tt ((s <| f_buf := buf |>) <| f_in := rest |>).

(** Reads until the buffer has a whole head; [on_eof]: what to do when the upstream has
    closed. Structural on what the connection gives. *)
Fixpoint await_head (on_eof : M unit) (script : list Input) (buf : list ascii) : M unit :=
  if negb (header_end buf =? 0) then put_in buf script
  else if kMaxHead <=? Z.of_nat (length buf) then bad_resp
  else
    armed (g_readMs g);;;
    match script with
    | I_DATA c cs :: script => await_head on_eof script (buf ++ c :: cs)
    | I_ERR :: _ => t <- tick;; end_or_timeout t R_BAD_RESPONSE U_BAD_RESP
    | I_EOF :: script => put_in buf script;;; on_eof
    | [] => put_in buf [];;; on_eof
    end.

Definition await (on_eof : M unit) : M unit := fun s => await_head on_eof (f_in s) (f_buf s) s.

(** A connection that was reused and gave nothing: the request may go out once more. *)
Definition retry_read : M unit :=
  reused <- is_reused;; empty <- buf_empty;;
  if reused && g_retry g && empty then
    f <- try_fresh;;
    if u_ok f.2 then resend;;; await bad_resp else bad_resp
  else bad_resp.

Definition await_answer : M unit :=
  await retry_read;;;
  fun s => if kMaxHead <? header_end (f_buf s) then bad_resp s else Go tt s.

(** [read_up_head]: a further head, without another connection. *)
Fixpoint read_more (script : list Input) (buf : list ascii) : M (option ForwardResult) :=
  if negb (header_end buf =? 0) then put_in buf script;;; ret_ None
  else if kMaxHead <=? Z.of_nat (length buf) then put_in buf script;;; ret_ (Some R_BAD_RESPONSE)
  else
    t <- tick;;
    if negb (g_dueMs g =? 0) && (Z.min (g_readMs g) (leftMs (g_dueMs g) (u_now t)) =? 0)
    then put_in buf script;;; ret_ (Some R_UPSTREAM_TIMEOUT)
    else
      match script with
      | I_DATA c cs :: script => read_more script (buf ++ c :: cs)
      | I_ERR :: script =>
          t <- tick;; put_in buf script;;;
          ret_ (Some (if u_timeout t then R_UPSTREAM_TIMEOUT else R_BAD_RESPONSE))
      | I_EOF :: script => put_in buf script;;; ret_ (Some R_BAD_RESPONSE)
      | [] => put_in buf [];;; ret_ (Some R_BAD_RESPONSE)
      end.

(** The head in the buffer is parsed and taken off it. *)
Definition parse_up_head : M (HttpRespParser + ForwardResult) :=
  fun s =>
    let n := header_end (f_buf s) in
    if kMaxHead <? n then Go (inr R_BAD_RESPONSE) s
    else
      let d := parse (take (Z.to_nat n) (f_buf s)) in
      let p := resp_events (d_events d) in
      if negb (r_error p =? 0) || d_failed d || negb (d_finished d) then Go (inr R_BAD_RESPONSE) s
      else Go (inl p) (s <| f_buf := drop (Z.to_nat n) (f_buf s) |>).

Definition read_up_head : M (HttpRespParser + ForwardResult) :=
  fun s =>
    (r <- read_more (f_in s) (f_buf s);;
     match r with
     | Some out => ret_ (inr out)
     | None => parse_up_head
     end) s.

Definition is_timeout_res (r : ForwardResult) : bool := match r with R_UPSTREAM_TIMEOUT => true | _ => false end.

(** At most eight interim answers; [more]: how many more are let pass. *)
Fixpoint final_head (more : nat) : M HttpRespParser :=
  armed (g_readMs g);;;
  r <- read_up_head;;
  match r with
  | inr out =>
      t <- tick;;
      if is_timeout_res out || overdue (u_now t) then end_timeout
      else end_ out (mk_ret M_FAIL U_BAD_RESP)
  | inl p =>
      let status := rs_status (r_data p) in
      if status =? 101 then bad_resp
      else if (status <? 100) || (200 <=? status) then ret_ p
      else match more with
           | O => bad_resp
           | S more => final_head more
           end
  end.

(** ** The answer *)

Definition is_none (f : BodyFraming) : bool := match f with F_NONE => true | _ => false end.
Definition until_close (f : BodyFraming) : bool := match f with F_UNTIL_CLOSE => true | _ => false end.

Definition is_sse (rsp : GwResponse) : bool :=
  let ct := trim_ascii (rs_getHeader "Content-Type" "" rsp) in
  match cut_prefix "text/event-stream" (lower (c_str ct)) with Some _ => true | None => false end.

(** The lambda [finish]. *)
Definition finish_ (counted : bool) (ret : UpRet) (reusable : bool) : M unit :=
  emit (V_RELEASE ret reusable);;; (if counted then ret_ tt else emit (V_COUNT ret)).

Definition client_framing (f : BodyFraming) : BodyFraming :=
  match f with F_CHUNKED | F_UNTIL_CLOSE => F_CHUNKED | _ => F_CONTENT_LENGTH end.

(** The result is reported as soon as the head is there when nothing that follows can
    change it, and for a stream of events, which may never end. *)
Definition counted_of (bad : bool) (framing : BodyFraming) (rsp : GwResponse) : bool :=
  bad || is_none framing || is_sse rsp.

Definition head_ret (status now : Z) : UpRet :=
  let bad := badStatus status (g_cb g) in
  mkUpRet (if bad then M_FAIL else M_OK) (if bad then U_STATUS else U_NONE) status (wrap64 (upMs now - g_begin g)) false.

(** The answer has no body: by the method or the status. *)
Definition no_body (p : HttpRespParser) : bool := resp_no_body (g_method g) (rs_status (r_data p)).

Definition answer_framing (p : HttpRespParser) : BodyFraming := if no_body p then F_NONE else resp_getBodyFraming p.
Definition answer_clen (p : HttpRespParser) : Z := if no_body p then 0 else r_clen p.

Definition client_fails (counted : bool) (ret : UpRet) : M unit :=
  emit V_WRITE_FAIL;;; finish_ counted ret false;;; leave R_OK.

Fixpoint relay (f : BodyFraming) (on_fail : M unit) (blocks : list (list ascii)) : M unit :=
  match blocks with
  | [] => ret_ tt
  | b :: blocks =>
      t <- tick;; emit (V_CLIENT_BLOCK (encodeChunk f b) (u_ok t));;;
      if u_ok t then relay f on_fail blocks else on_fail
  end.

(** The end of the body, as the client needs it. *)
Definition relay_end (f : BodyFraming) : M unit :=
  match encodeEnd f with
  | [] => ret_ tt
  | tail => t <- tick;; emit (V_CLIENT_BLOCK tail (u_ok t));;; if u_ok t then ret_ tt else emit V_WRITE_FAIL
  end.

Definition reusable (b : BodyReader) (p : HttpRespParser) : bool :=
  negb (m_error b) && negb (rs_close (r_data p)) && negb (until_close (answer_framing p))
  && match m_buf b with [] => true | _ => false end.

Definition body_ret (counted : bool) (b : BodyReader) (headRet : UpRet) : UpRet :=
  if m_error b && negb counted then (headRet <| r_mark := M_FAIL |>) <| r_why := U_BAD_BODY |> else headRet.

Definition client_head (p : HttpRespParser) : GwResponse :=
  raw_head (g_version g) (g_close g)
    (out_response (g_method g) (answer_framing p) (answer_clen p) (g_extra g) (r_data p)).

(** The body of the answer and the end of the forwarding. *)
Definition answer_body (p : HttpRespParser) (counted : bool) (headRet : UpRet) : M unit :=
  fun s =>
    match body_blocks (reader_init (answer_framing p) (answer_clen p) (f_buf s) (f_in s) true) with
    | None => Spin
    | Some (blocks, b) =>
        let f := client_framing (answer_framing p) in
        (relay f (client_fails counted headRet) (if no_body p then [] else blocks);;;
         (if m_error b then emit V_WRITE_FAIL;;; emit V_CLIENT_CLOSE else relay_end f);;;
         finish_ counted (body_ret counted b headRet) (reusable b p)) s
    end.

Definition answer (p : HttpRespParser) : M unit :=
  t <- tick;;
  let headRet := head_ret (rs_status (r_data p)) (u_now t) in
  let counted := counted_of (is_fail (r_mark headRet)) (answer_framing p) (r_data p) in
  (if counted then emit (V_MARK headRet);;; emit (V_COUNT headRet) else ret_ tt);;;
  t <- tick;; emit (V_CLIENT_HEAD (client_head p) (u_ok t));;;
  if negb (u_ok t) then client_fails counted headRet
  else emit (V_COMMIT (rs_status (r_data p)));;; answer_body p counted headRet.

(** ** All of it, with a connection *)

Definition ask : M HttpRespParser := send_request;;; send_continue;;; send_body;;; await_answer;;; final_head 8.

Definition forward_conn : M unit := p <- ask;; answer p.

Definition fw_init (acq : AcqConn) (script next : list Input) : Fw := mkFw 0 (a_reused acq) [] script next [].

(** A search for a connection that failed. *)
Definition no_connection (why : AcqWhy) : M unit :=
  emit V_ACQ_FAIL;;;
  t <- tick;;
  let cost := wrap64 (upMs (u_now t) - g_begin g) in
  match why with
  | A_OPEN => emit V_CIRCUIT_OPEN;;; leave R_UPSTREAM_BUSY
  | A_DOWN => emit V_NO_HEALTHY;;; leave R_UPSTREAM_BUSY
  | A_BUSY => leave R_UPSTREAM_BUSY
  | A_DEADLINE => leave R_UPSTREAM_TIMEOUT
  | A_TIMEOUT => emit (V_COUNT (mkUpRet M_FAIL (acqWhy why) 0 cost false));;; leave R_UPSTREAM_TIMEOUT
  | A_CONNECT | A_NONE => emit (V_COUNT (mkUpRet M_FAIL U_CONNECT 0 cost false));;; leave R_CONNECT_FAIL
  end.
End forward.

(** [expectOk]: there is no [Expect], or it is [100-continue]; [acq]: what the search for a
    connection gave, [None] without a group; [script]: what the connection found gives, and
    [next] another one to the same endpoint. *)
Definition forward (env : nat -> Turn) (parse : list ascii -> Parsed) (g : Req) (expectOk : bool)
    (acq : option AcqConn) (script next : list Input) : option (ForwardResult * list Ev) :=
  if negb expectOk then Some (R_EXPECT_FAIL, [])
  else match acq with
       | None => Some (R_CONNECT_FAIL, [])
       | Some acq =>
           let m := match a_endpoint acq with
                    | Some ep => forward_conn env parse g ep
                    | None => no_connection env g (a_why acq)
                    end in
           match m (fw_init acq script next) with
           | Go _ s => Some (R_OK, f_evs s)
           | Leave r s => Some (r, f_evs s)
           | Spin => None
           end
       end.

(** How [forward] settles a request before it looks for a connection. *)
Definition expect_ok (headers : HeaderList) : bool :=
  let expect := join_hdr_vals headers "Expect" in
  String.eqb expect "" || only_token expect "100-continue".

Definition send_continue_of (headers : HeaderList) (framing : BodyFraming) : bool :=
  negb (is_none framing) && negb (String.eqb (join_hdr_vals headers "Expect") "").

Definition retry_of (framing : BodyFraming) (method : HttpMethod) : bool := is_none framing && can_retry method.

Definition due_of (totalMs begin_ : Z) : Z :=
  let due := if totalMs =? 0 then 0 else wrap64 (begin_ + totalMs) in
  if negb (due =? 0) && (due <? begin_) then UINT64_MAX else due.

(** ** Steps and what holds after them *)

Definition after {A} (m : M A) (s : Fw) (Q : A -> Fw -> Prop) (E : ForwardResult -> Fw -> Prop) (K : Prop) : Prop :=
  match m s with Go a s' => Q a s' | Leave r s' => E r s' | Spin => K end.

Lemma after_bind {A B} (m : M A) (f : A -> M B) s Q E K :
  after m s (fun a s' => after (f a) s' Q E K) E K -> after (bind_ m f) s Q E K.
Proof. unfold after, bind_. by destruct (m s). Qed.

Lemma after_mono {A} (m : M A) s (Q Q' : A -> Fw -> Prop) (E E' : ForwardResult -> Fw -> Prop) (K K' : Prop) :
  after m s Q E K -> (forall a s', Q a s' -> Q' a s') -> (forall r s', E r s' -> E' r s') -> (K -> K') ->
  after m s Q' E' K'.
Proof. unfold after. destruct (m s); auto. Qed.

Lemma after_both {A} (m : M A) s (Q Q' : A -> Fw -> Prop) (E E' : ForwardResult -> Fw -> Prop) (K K' : Prop) :
  after m s Q E K -> after m s Q' E' K' ->
  after m s (fun a s => Q a s /\ Q' a s) (fun r s => E r s /\ E' r s) (K /\ K').
Proof. unfold after. by destruct (m s). Qed.

(** ** What is so until the answer starts *)

(** Events that report nothing and show the client nothing but [100 Continue]. *)
Definition early (e : Ev) : bool :=
  match e with V_HEAD _ _ | V_READ _ | V_BLOCK _ _ | V_FRESH _ | V_CONTINUE _ | V_WRITE_FAIL => true | _ => false end.

Definition is_head_ev (e : Ev) : bool := match e with V_HEAD _ _ => true | _ => false end.
Definition is_block_ev (e : Ev) : bool := match e with V_BLOCK _ _ => true | _ => false end.
Definition is_fail_ev (e : Ev) : bool := match e with V_WRITE_FAIL => true | _ => false end.

Definition heads (evs : list Ev) : nat := length (List.filter is_head_ev evs).

(** Bytes that are there and still come, fewer than 2 GiB. *)
Definition small (s : Fw) : Prop :=
  Z.of_nat (length (f_buf s ++ datas (f_in s))) < 2 ^ 31 /\ Z.of_nat (length (datas (f_next s))) < 2 ^ 31.

Definition body_small (b : BodyReader) : Prop :=
  good (m_framing b) (m_remaining b) (m_maxBodySize b) [] b /\ (m_framing b = F_NONE -> m_finished b = true).

(** A call that gives bytes leaves a shorter stream. *)
Lemma readChunk_step b n chunk b' : body_small b -> readChunk [] b = (n, chunk, b') -> 0 < n ->
  (length (stream b') < length (stream b))%nat /\ body_small b'.
Proof.
  intros [HG Hn] E Hp. pose proof (readChunk_post _ _ _ [] b Hn HG) as HP. rewrite E in HP.
  destruct HP as (gone & Hs & _ & _ & _ & H & _). destruct (H ltac:(lia)) as [Hne [G1 G2 G3 G4 G5 G6 G7]]. split.
  - rewrite Hs, length_app. destruct gone; [done|cbn; lia].
  - split.
    + split; rewrite ?G1; try done; [cbn; lia|]. intros Hc. destruct (G7 Hc) as (? & ? & ?). cbn. split_and!; [done|lia|done].
    + rewrite G1. intros Hx. exfalso. unfold readChunk in E. rewrite (Hn Hx) in E. injection E as <- _ _. lia.
Qed.

(** Reading a body ends. *)
Lemma read_blocks_ends fuel b : (length (stream b) < fuel)%nat -> body_small b ->
  exists blocks b', read_blocks fuel b = Some (blocks, b').
Proof.
  revert b. induction fuel as [|fuel IH]; intros b Hf Hb; [lia|]. cbn [read_blocks].
  destruct (readChunk [] b) as [[n chunk] b'] eqn:E. btest (n >? 0); [|by eexists _, _].
  destruct (readChunk_step b n chunk b' Hb E) as [Hl Hb']; [lia|].
  destruct (IH b') as (blocks & b2 & E2); [lia|done|]. rewrite E2. by eexists _, _.
Qed.

Lemma body_blocks_ends b : body_small b -> body_blocks b <> None.
Proof. intros H. unfold body_blocks. destruct (read_blocks_ends (S (length (stream b))) b) as (? & ? & ->); [lia|done|done]. Qed.

Section early.
Context (env : nat -> Turn) (parse : list ascii -> Parsed) (g : Req) (ep : nat) (reused0 : bool) (fits : Prop).

(** Nothing to send after the head. *)
Definition bodyless : Prop := g_reqFraming g = F_NONE /\ forall b, g_body g = Some b -> m_finished b = true.

Definition few_heads (evs : list Ev) (reused : bool) : Prop :=
  (heads evs <= 1)%nat \/ (heads evs = 2%nat /\ reused0 = true /\ g_retry g = true /\ reused = false).

Record pre_evs (evs : list Ev) (reused : bool) : Prop := {
  pe_early : Forall (fun e => early e = true) evs;
  pe_heads : few_heads evs reused;
  pe_reused : reused = true -> reused0 = true;
  pe_blocks : bodyless -> List.filter is_block_ev evs = [] }.

Definition room (buf : list ascii) (script : list Input) : Prop :=
  fits -> Z.of_nat (length (buf ++ datas script)) < 2 ^ 31.

Record pre (s : Fw) : Prop := {
  pr_evs : pre_evs (f_evs s) (f_reused s);
  pr_fail : List.filter is_fail_ev (f_evs s) = [];
  pr_room : room (f_buf s) (f_in s);
  pr_next : room [] (f_next s) }.

(** How a request ends that got no answer. *)
Definition early_end (r : ForwardResult) (s : Fw) : Prop :=
  exists evs ret reused, f_evs s = evs ++ [V_RELEASE ret false; V_COUNT ret] /\ pre_evs evs reused /\
    (r = R_OK <-> List.filter is_fail_ev evs <> []).

#[local] Abbreviation ends m s Q := (after m s Q early_end (~ fits)).

Lemma tick_step {A} (f : Turn -> M A) s Q E K :
  after (bind_ (tick env) f) s Q E K = after (f (env (f_turn s))) (s <| f_turn := S (f_turn s) |>) Q E K.
Proof. done. Qed.

Lemma emit_step {A} e (f : unit -> M A) s Q E K :
  after (bind_ (emit e) f) s Q E K = after (f tt) (s <| f_evs := f_evs s ++ [e] |>) Q E K.
Proof. done. Qed.

Lemma pre_turn s n : pre s -> pre (s <| f_turn := n |>).
Proof. intros []. by split. Qed.

Lemma end_ends {A} out ret s (Q : A -> Fw -> Prop) : pre_evs (f_evs s) (f_reused s) ->
  (out = R_OK <-> List.filter is_fail_ev (f_evs s) <> []) -> ends (end_ env g out ret) s Q.
Proof.
  intros Hp Ho. unfold end_. rewrite tick_step, !emit_step. cbn -[wrap64 upMs].
  eexists _, _, _. split; [by rewrite <- app_assoc|]. by split.
Qed.

Lemma end_early {A} out ret s (Q : A -> Fw -> Prop) : pre s -> out <> R_OK -> ends (end_ env g out ret) s Q.
Proof. intros [H1 H2 _ _] Ho. apply end_ends; [done|]. by rewrite H2. Qed.

Lemma end_timeout_early {A} s (Q : A -> Fw -> Prop) : pre s -> ends (end_timeout env g) s Q.
Proof. intros H. by apply end_early. Qed.

Lemma bad_resp_early {A} s (Q : A -> Fw -> Prop) : pre s -> ends (bad_resp env g) s Q.
Proof. intros H. by apply end_early. Qed.

Lemma end_or_timeout_early {A} t out why s (Q : A -> Fw -> Prop) : pre s -> out <> R_OK ->
  ends (end_or_timeout env g t out why) s Q.
Proof.
  intros H Ho. unfold end_or_timeout. rewrite tick_step. destruct (_ || _); apply end_early; try done; by apply pre_turn.
Qed.

Lemma armed_early want s (Q : unit -> Fw -> Prop) : pre s -> (forall n, Q tt (s <| f_turn := n |>)) ->
  ends (armed env g want) s Q.
Proof.
  intros H HQ. unfold armed, arm. apply after_bind. rewrite tick_step. cbn -[cap].
  destruct (negb _); [apply HQ|]. by apply end_timeout_early, pre_turn.
Qed.

(** ** Each step *)

Lemma pre_evs_snoc evs e reused : pre_evs evs reused -> early e = true -> is_head_ev e = false ->
  (bodyless -> is_block_ev e = false) -> pre_evs (evs ++ [e]) reused.
Proof.
  intros [H1 H2 H3 H4] He Hh Hb. split; [|by unfold few_heads, heads; rewrite List.filter_app; cbn; rewrite Hh, app_nil_r|done|].
  - apply Forall_app. split; [done|]. by constructor.
  - intros B. rewrite List.filter_app, (H4 B). cbn. by rewrite (Hb B).
Qed.

Lemma pre_snoc s e : pre s -> early e = true -> is_head_ev e = false -> (bodyless -> is_block_ev e = false) ->
  is_fail_ev e = false -> pre (s <| f_evs := f_evs s ++ [e] |>).
Proof.
  intros [H1 H2 H3 H4] He Hh Hb Hf. split; try done; cbn; [by apply pre_evs_snoc|].
  rewrite List.filter_app, H2. cbn. by rewrite Hf.
Qed.

Lemma pre_head s h ok : pre s -> (heads (f_evs s) = 0%nat \/
    (heads (f_evs s) <= 1)%nat /\ reused0 = true /\ g_retry g = true /\ f_reused s = false) ->
  pre (s <| f_evs := f_evs s ++ [V_HEAD h ok] |>).
Proof.
  intros [[H1 H2 H3 H4] H5 H6 H7] Hh. split; try done; cbn; [|by rewrite List.filter_app, H5]. split; try done.
  - apply Forall_app. split; [done|]. by constructor.
  - unfold few_heads in *. unfold heads in *. rewrite List.filter_app, length_app. cbn. destruct Hh as [->|(Hl & Hr)]; [left; lia|].
    destruct (decide (length (List.filter is_head_ev (f_evs s)) = 0%nat)) as [->|]; [left; lia|right]. split; [lia|done].
  - intros B. by rewrite List.filter_app, (H4 B).
Qed.

Lemma send_head_early s (Q : Turn -> Fw -> Prop) : pre s -> (heads (f_evs s) = 0%nat \/
    (heads (f_evs s) <= 1)%nat /\ reused0 = true /\ g_retry g = true /\ f_reused s = false) ->
  (forall t s', pre s' -> f_reused s' = f_reused s -> f_buf s' = f_buf s -> Q t s') ->
  ends (send_head env g ep) s Q.
Proof.
  intros H Hh HQ. unfold send_head. rewrite tick_step, emit_step. apply HQ; try done.
  apply (pre_head (s <| f_turn := S (f_turn s) |>)); [by apply pre_turn|done].
Qed.

Lemma resend_early s : pre s -> f_reused s = true -> g_retry g = true -> f_buf s = [] ->
  ends (resend env g ep) s (fun _ => pre).
Proof.
  intros [[H1 H2 H3 H4] H5 H6 H7] Hr Hg Hb. unfold resend. apply after_bind. cbn.
  assert (Hp : pre ((s <| f_reused := false |>) <| f_in := f_next s |>)).
  { split; try done; [|unfold room in *; cbn; by rewrite Hb]. split; try done.
    destruct H2 as [H2|(_ & _ & _ & H2)]; [by left|congruence]. }
  destruct H2 as [H2|(_ & _ & _ & H2)]; [|congruence]. specialize (H3 Hr).
  apply after_bind, armed_early; [done|]. intros n. apply after_bind, send_head_early; [by apply pre_turn|by right|].
  intros t s' Hs' _ _. destruct (u_ok t); [done|]. by apply end_or_timeout_early.
Qed.

Lemma try_fresh_early s (Q : Z * Turn -> Fw -> Prop) : pre s ->
  (forall f s', pre s' -> f_reused s' = f_reused s -> f_buf s' = f_buf s -> Q f s') ->
  ends (try_fresh env g) s Q.
Proof.
  intros H HQ. unfold try_fresh. rewrite tick_step.
  destruct (_ =? 0); [apply HQ; [by apply pre_turn|done|done]|]. rewrite tick_step, emit_step. apply HQ; try done.
  apply (pre_snoc ((s <| f_turn := S (f_turn s) |>) <| f_turn := S (S (f_turn s)) |>)); try done. by do 2 apply pre_turn.
Qed.

Lemma send_request_early s : pre s -> heads (f_evs s) = 0%nat -> f_buf s = [] ->
  ends (send_request env g ep) s (fun _ => pre).
Proof.
  intros H Hh Hb. unfold send_request. apply after_bind, armed_early; [done|]. intros n.
  apply after_bind, send_head_early; [by apply pre_turn|by left|]. intros t s1 H1 Hr1 Hb1.
  destruct (u_ok t); [done|]. apply after_bind. cbn. destruct (f_reused s1 && g_retry g) eqn:E.
  - apply andb_true_iff in E as [E1 E2]. apply after_bind, try_fresh_early; [done|]. intros [wait t'] s2 H2 Hr2 Hb2.
    destruct (u_ok t'); [cbn in Hb1; apply resend_early; [done|congruence..]|]. destruct (_ || _); by apply end_early.
  - by apply end_or_timeout_early.
Qed.

Lemma send_continue_early s : pre s -> ends (send_continue env g) s (fun _ => pre).
Proof.
  intros H. unfold send_continue. destruct (g_sendContinue g); [|done]. rewrite tick_step, emit_step.
  set (s' := _ <| f_evs := _ |>). assert (H' : pre s') by (by apply pre_snoc; [apply pre_turn|..]).
  destruct (u_ok _); [done|]. rewrite emit_step. apply end_ends; cbn [f_evs f_reused].
  - apply pre_evs_snoc; try done. apply H'.
  - split; [|done]. intros _. cbn. rewrite List.filter_app. cbn. by destruct (List.filter _ _).
Qed.

Lemma send_block_early bytes s : pre s -> ~ bodyless -> ends (send_block env g bytes) s (fun _ => pre).
Proof.
  intros H Hn. unfold send_block. rewrite tick_step, emit_step.
  set (s' := _ <| f_evs := _ |>). assert (H' : pre s') by (by apply pre_snoc; [apply pre_turn|..]).
  destruct (u_ok _); [done|]. by apply end_or_timeout_early.
Qed.

Lemma send_blocks_early fuel b s : pre s -> (fits -> body_small b /\ (length (stream b) < fuel)%nat) ->
  (bodyless -> m_finished b = true) -> ends (send_blocks env g fuel b) s (fun _ => pre).
Proof.
  revert b s. induction fuel as [|fuel IH]; intros b s H Hf Hn; cbn [send_blocks].
  { intros F. destruct (Hf F). lia. }
  destruct (readChunk [] b) as [[n chunk] b'] eqn:E. rewrite emit_step.
  assert (H' : pre (s <| f_evs := f_evs s ++ [V_READ b'] |>)) by (by apply pre_snoc).
  btest (n >? 0); [|done].
  assert (B : ~ bodyless).
  { intros B. unfold readChunk in E. rewrite (Hn B) in E. injection E as <- _ _. lia. }
  apply after_bind, armed_early; [done|]. intros m. apply after_bind.
  eapply after_mono; [apply send_block_early; [by apply pre_turn|done]| |done|done]. cbn. intros _ s' Hs'.
  apply IH; [done| |done]. intros F. destruct (Hf F) as [Hb Hl].
  destruct (readChunk_step b n chunk b' Hb E) as [Hl' Hb']; [lia|]. split; [done|lia].
Qed.

Lemma send_body_early s : pre s -> (fits -> forall b, g_body g = Some b -> body_small b) ->
  ends (send_body env g) s (fun _ => pre).
Proof.
  intros H Hf. unfold send_body. destruct (g_body g) as [b|] eqn:Eg; [|done].
  apply after_bind. eapply after_mono; [apply send_blocks_early| |done|done].
  - done.
  - intros F. split; [by apply Hf|lia].
  - intros [_ B]. by apply B.
  - cbn. intros b' s' H'.
    destruct (m_error b'); [destruct (m_errorCode b'); by apply end_early|].
    destruct (encodeEnd (up_framing g)) as [|c l] eqn:Ee; [done|]. apply send_block_early; [done|].
    intros [B _]. unfold up_framing in Ee. by rewrite B in Ee.
Qed.

Lemma pre_put s buf rest : pre s -> room buf rest -> pre ((s <| f_buf := buf |>) <| f_in := rest |>).
Proof. intros [] H. by split. Qed.

Lemma put_step {A} buf rest (f : unit -> M A) s Q E K :
  after (bind_ (put_in buf rest) f) s Q E K = after (f tt) ((s <| f_buf := buf |>) <| f_in := rest |>) Q E K.
Proof. done. Qed.

Lemma room_step buf c cs script : room buf (I_DATA c cs :: script) -> room (buf ++ c :: cs) script.
Proof. unfold room. cbn. by rewrite <- app_assoc. Qed.

Lemma await_head_early on_eof script buf s : pre s -> room buf script ->
  (forall s', pre s' -> ends on_eof s' (fun _ => pre)) -> ends (await_head env g on_eof script buf) s (fun _ => pre).
Proof.
  intros H Hr He. revert buf s H Hr. induction script as [|i script IH]; intros buf s H Hr; cbn [await_head].
  all: destruct (negb _); [by apply pre_put|].
  all: destruct (_ <=? _); [by apply bad_resp_early|].
  all: apply after_bind, armed_early; [done|]; intros n; apply (pre_turn _ n) in H.
  - rewrite put_step. apply He. by apply pre_put.
  - destruct i as [c cs| |].
    + apply IH; [done|]. by apply room_step.
    + rewrite put_step. apply He. by apply pre_put.
    + rewrite tick_step. apply end_or_timeout_early; [by apply pre_turn|done].
Qed.

Lemma retry_read_early s : pre s -> ends (retry_read env g ep) s (fun _ => pre).
Proof.
  intros H. unfold retry_read. do 2 (apply after_bind; cbn -[try_fresh]).
  destruct (f_reused s && g_retry g && _) eqn:E; [|by apply bad_resp_early].
  apply andb_true_iff in E as [E Eb]. apply andb_true_iff in E as [Er Eg].
  assert (Hb : f_buf s = []) by by destruct (f_buf s).
  apply after_bind, try_fresh_early; [done|]. intros f s1 H1 Hr1 Hb1.
  destruct (u_ok f.2); [|by apply bad_resp_early]. apply after_bind.
  eapply after_mono; [apply resend_early; [done|congruence..]| |done|done]. cbn. intros _ s2 H2.
  unfold await. apply (await_head_early _ (f_in s2) (f_buf s2) s2); [done|apply H2|]. intros s3 H3. by apply bad_resp_early.
Qed.

Lemma await_answer_early s : pre s -> ends (await_answer env g ep) s (fun _ => pre).
Proof.
  intros H. unfold await_answer. apply after_bind. eapply after_mono with (Q := fun _ => pre); [| |done|done].
  - apply (await_head_early _ (f_in s) (f_buf s) s); [done|apply H|]. apply retry_read_early.
  - cbn. intros _ s' H'. unfold after at 1. destruct (_ <? _); [exact (@bad_resp_early unit s' (fun _ => pre) H')|done].
Qed.

Lemma read_more_early script buf s (Q : option ForwardResult -> Fw -> Prop) : pre s -> room buf script ->
  (forall r s', pre s' -> r <> Some R_OK -> Q r s') -> ends (read_more env g script buf) s Q.
Proof.
  intros H Hr HQ. revert buf s H Hr. induction script as [|i script IH]; intros buf s H Hr; cbn [read_more].
  all: destruct (negb _); [rewrite put_step; apply HQ; [by apply pre_put|done]|].
  all: destruct (_ <=? _); [rewrite put_step; apply HQ; [by apply pre_put|done]|].
  all: rewrite tick_step; apply (pre_turn _ (S (f_turn s))) in H.
  all: destruct (negb _ && _); [rewrite put_step; apply HQ; [by apply pre_put|done]|].
  - rewrite put_step. apply HQ; [by apply pre_put|done].
  - destruct i as [c cs| |].
    + apply IH; [done|]. by apply room_step.
    + rewrite put_step. apply HQ; [by apply pre_put|done].
    + rewrite tick_step, put_step. apply HQ; [by apply pre_put; [apply pre_turn|]|]. by destruct (u_timeout _).
Qed.

(** A further head was read by the parser out of what the connection gave. *)
Lemma read_up_head_early s (Q : HttpRespParser + ForwardResult -> Fw -> Prop) : pre s ->
  (forall r s', pre s' -> match r with inl p => exists evs, p = resp_events evs /\ r_error p = 0 | inr out => out <> R_OK end -> Q r s') ->
  ends (read_up_head env parse g) s Q.
Proof.
  intros H HQ. unfold read_up_head. set (k := fun r : option _ => _).
  change (ends (bind_ (read_more env g (f_in s) (f_buf s)) k) s Q).
  apply after_bind, read_more_early; [done|apply H|]. intros r s' H' Hr. unfold k. destruct r as [r|].
  - apply HQ; [done|]. by intros ->.
  - unfold parse_up_head, after. destruct (_ <? _); [by apply HQ|]. destruct (_ || _) eqn:E; [by apply HQ|]. apply HQ.
    + destruct H' as [H1 H2 H3 H4]. split; try done. intros F. specialize (H3 F). cbn.
      rewrite length_app in *. rewrite length_drop. lia.
    + b2p. by eexists.
Qed.

Lemma final_head_early more s : pre s ->
  ends (final_head env parse g more) s (fun p s' => pre s' /\ exists evs, p = resp_events evs /\ r_error p = 0).
Proof.
  revert s. induction more as [|more IH]; intros s H; cbn [final_head].
  all: apply after_bind, armed_early; [done|]; intros n; apply (pre_turn _ n) in H.
  all: apply after_bind, read_up_head_early; [done|]; intros r s' H' Hr; destruct r as [p|out].
  2, 4: rewrite tick_step; apply (pre_turn _ (S (f_turn s'))) in H'; destruct (_ || _);
    [by apply end_timeout_early|by apply end_early].
  all: destruct (_ =? 101); [by apply bad_resp_early|]; destruct (_ || _); [done|].
  - by apply bad_resp_early.
  - by apply IH.
Qed.

Lemma ask_early s : pre s -> heads (f_evs s) = 0%nat -> f_buf s = [] ->
  (fits -> forall b, g_body g = Some b -> body_small b) ->
  ends (ask env parse g ep) s (fun p s' => pre s' /\ exists evs, p = resp_events evs /\ r_error p = 0).
Proof.
  intros H Hh Hb Hf. unfold ask.
  apply after_bind. eapply after_mono; [by apply send_request_early| |done|done]. cbn beta. intros _ s1 H1.
  apply after_bind. eapply after_mono; [by apply send_continue_early| |done|done]. cbn beta. intros _ s2 H2.
  apply after_bind. eapply after_mono; [by apply send_body_early| |done|done]. cbn beta. intros _ s3 H3.
  apply after_bind. eapply after_mono; [by apply await_answer_early| |done|done]. cbn beta. intros _ s4 H4.
  by apply final_head_early.
Qed.
End early.

(** ** Which answer is read *)

Definition is_data (i : Input) : bool := match i with I_DATA _ _ => true | _ => false end.

(** [h] is one head block and the parser makes [p] of it. *)
Definition head_of (parse : list ascii -> Parsed) (h : list ascii) (p : HttpRespParser) : Prop :=
  header_end h = Z.of_nat (length h) /\ h <> [] /\ p = resp_events (d_events (parse h)) /\
  d_finished (parse h) = true /\ d_failed (parse h) = false /\ r_error p = 0.

Definition interim (parse : list ascii -> Parsed) (h : list ascii) : Prop :=
  exists p, head_of parse h p /\ 100 <= rs_status (r_data p) < 200 /\ rs_status (r_data p) <> 101.

(** What was read when the final head [p] of an answer is there: at most eight interim
    heads, then the final one, all from the beginning of [src]; [buf] is what was received
    behind it and [rest] is still to come. Nothing is received beyond the piece in which
    the final head ends. *)
Definition answer_at (parse : list ascii -> Parsed) (src : list Input) (p : HttpRespParser) (buf : list ascii) (rest : list Input) : Prop :=
  exists taken c cs hs h,
    src = (taken ++ [I_DATA c cs]) ++ rest /\ Forall (fun i => is_data i = true) taken /\
    datas (taken ++ [I_DATA c cs]) = concat hs ++ h ++ buf /\ (length buf <= length cs)%nat /\
    Forall (interim parse) hs /\ (length hs <= 8)%nat /\
    head_of parse h p /\ ~ (100 <= rs_status (r_data p) < 200).

Lemma header_end_take buf : header_end buf <> 0 ->
  header_end (take (Z.to_nat (header_end buf)) buf) = header_end buf /\
  Z.of_nat (length (take (Z.to_nat (header_end buf)) buf)) = header_end buf.
Proof.
  intros H. destruct (header_end_split buf H) as (pre & post & El & En). rewrite En.
  assert (Et : take (Z.to_nat (Z.of_nat (length pre) + 4)) buf = pre ++ CRLFCRLF).
  { replace (Z.to_nat _) with (length (pre ++ CRLFCRLF)) by (rewrite length_app; cbn; lia).
    by rewrite El, app_assoc, take_app_length. }
  rewrite Et, length_app. cbn [length CRLFCRLF]. split; [|lia].
  pose proof (header_end_found (pre ++ CRLFCRLF) pre [] ltac:(by rewrite app_nil_r)) as Hf.
  rewrite <- (header_end_stable (pre ++ CRLFCRLF) post) by lia. by rewrite <- app_assoc, <- El, En.
Qed.

Lemma header_end_longer pre m : header_end pre = 0 -> header_end (pre ++ m) <> 0 ->
  Z.of_nat (length pre) < header_end (pre ++ m).
Proof.
  intros H0 Hn. destruct (header_end_take (pre ++ m) Hn) as [H1 H2].
  destruct (Z.ltb_spec (Z.of_nat (length pre)) (header_end (pre ++ m))) as [|Hle]; [done|]. exfalso.
  rewrite take_app_le in H1 by lia. apply Hn. rewrite <- H1.
  destruct (Z.eq_dec (header_end (take (Z.to_nat (header_end (pre ++ m))) pre)) 0) as [E|E]; [done|].
  pose proof (header_end_stable _ (drop (Z.to_nat (header_end (pre ++ m))) pre) E) as Hs.
  rewrite take_drop in Hs. lia.
Qed.

Lemma datas_app a b : datas (a ++ b) = datas a ++ datas b.
Proof. induction a as [|[c cs| |] a IH]; cbn; [done| |done|done]. by rewrite IH, <- app_assoc. Qed.

(** [used] was taken off [src] and [buf] is what was received behind it; no piece was
    received but for want of a head. *)
Definition reached (src : list Input) (used buf : list ascii) (rest : list Input) : Prop :=
  exists taken, src = taken ++ rest /\ Forall (fun i => is_data i = true) taken /\ datas taken = used ++ buf /\
    (taken = [] \/ exists t c cs, taken = t ++ [I_DATA c cs] /\
       ((length buf <= length cs)%nat \/ exists pre, buf = pre ++ c :: cs /\ header_end pre = 0)).

Lemma reached_more src used buf c cs rest : header_end buf = 0 ->
  reached src used buf (I_DATA c cs :: rest) -> reached src used (buf ++ c :: cs) rest.
Proof.
  intros H0 (taken & E & Hd & Hu & _). exists (taken ++ [I_DATA c cs]). split; [by rewrite <- app_assoc|].
  split; [apply Forall_app; split; [done|by constructor]|].
  split; [rewrite datas_app, Hu, <- app_assoc; cbn; by rewrite app_nil_r|].
  right. exists taken, c, cs. split; [done|]. right. by exists buf.
Qed.

(** A head is taken off the buffer. *)
Lemma reached_head src used buf rest : header_end buf <> 0 -> reached src used buf rest ->
  let n := Z.to_nat (header_end buf) in
  exists taken c cs, src = (taken ++ [I_DATA c cs]) ++ rest /\ Forall (fun i => is_data i = true) taken /\
    datas (taken ++ [I_DATA c cs]) = used ++ take n buf ++ drop n buf /\ (length (drop n buf) <= length cs)%nat.
Proof.
  intros Hn (taken & E & Hd & Hu & Hl) n. pose proof (header_end_take buf Hn) as [_ Hlen]. fold n in Hlen.
  rewrite length_take in Hlen.
  destruct Hl as [->|(t & c & cs & -> & Hl)].
  - destruct buf; [done|]. by destruct used.
  - exists t, c, cs. split; [done|]. split; [by apply Forall_app in Hd as [Hd _]|]. rewrite take_drop. split; [done|].
    rewrite length_drop. destruct Hl as [Hl|(pre & -> & Hp)]; [lia|].
    pose proof (header_end_longer pre (c :: cs) Hp Hn). rewrite length_app in *. cbn [length] in *. lia.
Qed.

Lemma reached_next src used buf rest : header_end buf <> 0 -> reached src used buf rest ->
  let n := Z.to_nat (header_end buf) in reached src (used ++ take n buf) (drop n buf) rest.
Proof.
  intros Hn H n. destruct (reached_head src used buf rest Hn H) as (t & c & cs & E & Hd & Hu & Hl).
  exists (t ++ [I_DATA c cs]). split; [done|]. split; [apply Forall_app; split; [done|by constructor]|].
  split; [by rewrite Hu, app_assoc|]. right. exists t, c, cs. split; [done|]. by left.
Qed.

Lemma head_of_unique parse h p h' p' t t' : head_of parse h p -> head_of parse h' p' -> h ++ t = h' ++ t' ->
  h = h' /\ p = p' /\ t = t'.
Proof.
  intros (H1 & Hn & -> & _) (H2 & Hn' & -> & _) E.
  assert (L : length h = length h').
  { destruct h as [|c h]; [done|]. destruct h' as [|c' h']; [done|].
    pose proof (header_end_stable (c :: h) t) as S1. pose proof (header_end_stable (c' :: h') t') as S2.
    rewrite E in S1. cbn [length] in *. rewrite H1 in S1. rewrite H2 in S2. lia. }
  destruct (app_inj_1 h h' t t' L E) as [-> ->]. done.
Qed.

Lemma heads_unique parse hs h p t hs' h' p' t' :
  Forall (interim parse) hs -> head_of parse h p -> ~ (100 <= rs_status (r_data p) < 200) ->
  Forall (interim parse) hs' -> head_of parse h' p' -> ~ (100 <= rs_status (r_data p') < 200) ->
  concat hs ++ h ++ t = concat hs' ++ h' ++ t' -> concat hs ++ h = concat hs' ++ h' /\ p = p' /\ t = t'.
Proof.
  intros Hi Hh Hp Hi' Hh' Hp'. revert hs' Hi'. induction Hi as [|i hs (q & Hq & Hs & _) _ IH]; intros hs' Hi' E.
  - destruct Hi' as [|i' hs' (q' & Hq' & Hs' & _) _]; cbn in E.
    + by destruct (head_of_unique parse h p h' p' t t' Hh Hh' E) as (-> & -> & ->).
    + rewrite <- app_assoc in E. destruct (head_of_unique _ _ _ _ _ _ _ Hh Hq' E) as (_ & -> & _). by destruct Hp.
  - destruct Hi' as [|i' hs' (q' & Hq' & Hs' & _) Hi']; cbn in E; rewrite <- app_assoc in E.
    + destruct (head_of_unique _ _ _ _ _ _ _ Hq Hh' E) as (_ & -> & _). by destruct Hp'.
    + rewrite <- (app_assoc i') in E. destruct (head_of_unique _ _ _ _ _ _ _ Hq Hq' E) as (-> & _ & E2).
      destruct (IH hs' Hi' E2) as (E3 & -> & ->). split; [cbn; by rewrite <- !app_assoc, E3|done].
Qed.

(** What a connection gives determines the answer read from it. *)
Lemma answer_at_unique parse src p buf rest p' buf' rest' :
  answer_at parse src p buf rest -> answer_at parse src p' buf' rest' -> p = p' /\ buf = buf' /\ rest = rest'.
Proof.
  assert (W : forall t1 i1 rest1 t2 i2 rest2 u b1 b2, (t1 ++ [i1]) ++ rest1 = (t2 ++ [i2]) ++ rest2 ->
    datas (t1 ++ [i1]) = u ++ b1 -> datas (t2 ++ [i2]) = u ++ b2 -> (length b2 < length (datas [i2]))%nat ->
    (length (t2 ++ [i2]) <= length (t1 ++ [i1]))%nat).
  { intros t1 i1 rest1 t2 i2 rest2 u b1 b2 E D1 D2 Hb.
    destruct (Nat.le_gt_cases (length (t2 ++ [i2])) (length (t1 ++ [i1]))) as [|Hl]; [done|]. exfalso.
    assert (Et : exists x, t2 = (t1 ++ [i1]) ++ x).
    { exists (drop (length (t1 ++ [i1])) t2). rewrite <- (take_drop (length (t1 ++ [i1])) t2) at 1. f_equal.
      apply (f_equal (take (length (t1 ++ [i1])))) in E. rewrite take_app_length, <- app_assoc in E.
      rewrite (length_app t2) in Hl. cbn [length] in Hl. by rewrite take_app_le in E by lia. }
    destruct Et as [x ->]. apply (f_equal length) in D1, D2. rewrite !datas_app, !length_app in *. lia. }
  intros (t & c & cs & hs & h & E & _ & D & Hb & Hi & _ & Hh & Hp) (t' & c' & cs' & hs' & h' & E' & _ & D' & Hb' & Hi' & _ & Hh' & Hp').
  assert (U : concat hs ++ h = concat hs' ++ h' /\ p = p').
  { assert (X : exists x x', datas (t ++ [I_DATA c cs]) ++ x = datas (t' ++ [I_DATA c' cs']) ++ x').
    { exists (datas rest), (datas rest'). rewrite <- !datas_app. congruence. }
    destruct X as (x & x' & X). rewrite D, D', <- !app_assoc in X.
    by destruct (heads_unique parse hs h p _ hs' h' p' _ Hi Hh Hp Hi' Hh' Hp' X) as (? & ? & _). }
  destruct U as [U ->]. rewrite app_assoc in D, D'. rewrite <- U in D'. rewrite E in E'.
  assert (L : length (t ++ [I_DATA c cs]) = length (t' ++ [I_DATA c' cs'])).
  { apply Nat.le_antisymm.
    - apply (W t' (I_DATA c' cs') rest' t (I_DATA c cs) rest _ _ _ (eq_sym E') D' D). cbn. rewrite app_nil_r. lia.
    - apply (W t (I_DATA c cs) rest t' (I_DATA c' cs') rest' _ _ _ E' D D'). cbn. rewrite app_nil_r. lia. }
  destruct (app_inj_1 _ _ _ _ L E') as [Et ->]. split; [done|]. split; [|done].
  rewrite Et, D' in D. by apply app_inv_head in D.
Qed.

(** ** Every step until then *)

Section reads.
Context (env : nat -> Turn) (parse : list ascii -> Parsed) (g : Req) (ep : nat) (script next : list Input).

(** The connection the answer comes from: the first, or the other one when the request was
    sent a second time. *)
Definition source (evs : list Ev) : list Input := if Nat.eqb (heads evs) 2 then next else script.

Record asked (s : Fw) : Prop := {
  as_buf : f_buf s = [];
  as_in : f_in s = source (f_evs s);
  as_next : f_next s = next;
  as_heads : heads (f_evs s) = 1%nat \/ heads (f_evs s) = 2%nat /\ f_reused s = false }.

#[local] Arguments heads : simpl never.

#[local] Abbreviation gets m s Q := (after m s Q (fun _ _ => True) True).

Definition still (s s' : Fw) : Prop :=
  f_buf s' = f_buf s /\ f_in s' = f_in s /\ f_next s' = f_next s /\ f_reused s' = f_reused s /\ heads (f_evs s') = heads (f_evs s).

Lemma asked_still s s' : still s s' -> asked s -> asked s'.
Proof. intros (E1 & E2 & E3 & E4 & E5) [H1 H2 H3 H4]. unfold source in *. split; unfold source; rewrite ?E1, ?E2, ?E3, ?E4, ?E5; done. Qed.

Lemma gets_bind_still {A B} (m : M A) (f : A -> M B) s Q : gets m s (fun _ s' => still s s') ->
  (forall a s', still s s' -> gets (f a) s' Q) -> gets (bind_ m f) s Q.
Proof. intros H Hf. apply after_bind. eapply after_mono; [exact H| |done|done]. cbn. auto. Qed.

Lemma still_trans s s1 s2 : still s s1 -> still s1 s2 -> still s s2.
Proof. intros (?&?&?&?&?) (?&?&?&?&?). unfold still. split_and!; congruence. Qed.

Lemma still_evs s n e : is_head_ev e = false -> still s ((s <| f_turn := n |>) <| f_evs := f_evs s ++ [e] |>).
Proof. intros H. unfold still, heads. cbn. rewrite List.filter_app. cbn. by rewrite H, app_nil_r. Qed.

Lemma after_ret {A} (a : A) s (Q : A -> Fw -> Prop) E K : after (ret_ a) s Q E K = Q a s.
Proof. done. Qed.

Lemma end_gets {A} out ret s (Q : A -> Fw -> Prop) : gets (end_ env g out ret) s Q.
Proof. done. Qed.

Lemma end_or_timeout_gets {A} t out why s (Q : A -> Fw -> Prop) : gets (end_or_timeout env g t out why) s Q.
Proof. unfold end_or_timeout. rewrite tick_step. by destruct (_ || _). Qed.

Lemma armed_gets want s : gets (armed env g want) s (fun _ s' => still s s').
Proof. unfold armed, arm. apply after_bind. rewrite tick_step. cbn -[cap]. by destruct (negb _). Qed.

Lemma send_continue_gets s : gets (send_continue env g) s (fun _ s' => still s s').
Proof.
  unfold send_continue. destruct (g_sendContinue g); [|done]. rewrite tick_step, emit_step.
  destruct (u_ok _); [by apply (still_evs s (S (f_turn s)))|done].
Qed.

Lemma send_block_gets bytes s : gets (send_block env g bytes) s (fun _ s' => still s s').
Proof. unfold send_block. rewrite tick_step, emit_step. destruct (u_ok _); [by apply (still_evs s (S (f_turn s)))|apply end_or_timeout_gets]. Qed.

Lemma gets_still {A} (m : M A) s0 s : still s0 s -> gets m s (fun _ s' => still s s') -> gets m s (fun _ s' => still s0 s').
Proof. intros H0 H. eapply after_mono; [exact H| |done|done]. cbn. intros _ s'. by apply still_trans. Qed.

Lemma send_blocks_gets fuel b s : gets (send_blocks env g fuel b) s (fun _ s' => still s s').
Proof.
  revert b s. induction fuel as [|fuel IH]; intros b s; cbn [send_blocks]; [done|].
  destruct (readChunk [] b) as [[n chunk] b'] eqn:E. rewrite emit_step.
  pose proof (still_evs s (f_turn s) (V_READ b') eq_refl) as H0. destruct (n >? 0); [|exact H0].
  apply gets_bind_still; [apply armed_gets|]. intros _ s1 H1.
  apply gets_bind_still; [apply send_block_gets|]. intros _ s2 H2.
  apply (gets_still _ s); [|apply IH]. eapply still_trans; [exact H0|]. by eapply still_trans.
Qed.

Lemma send_body_gets s : gets (send_body env g) s (fun _ s' => still s s').
Proof.
  unfold send_body. destruct (g_body g) as [b|]; [|done]. apply gets_bind_still; [apply send_blocks_gets|].
  intros b' s' H'. destruct (m_error b'); [by destruct (m_errorCode b')|].
  destruct (encodeEnd _); [exact H'|]. apply (gets_still _ s); [exact H'|apply send_block_gets].
Qed.

(** The first head is out. *)
Definition first_out (s : Fw) : Prop := heads (f_evs s) = 1%nat /\ f_buf s = [] /\ f_in s = script /\ f_next s = next.

Lemma heads_snoc evs h ok : heads (evs ++ [V_HEAD h ok]) = S (heads evs).
Proof. unfold heads. rewrite List.filter_app, length_app. cbn. lia. Qed.

Lemma resend_gets s : heads (f_evs s) = 1%nat -> f_buf s = [] -> f_next s = next ->
  gets (resend env g ep) s (fun _ s' => asked s').
Proof.
  intros Hh Hb Hn. unfold resend. apply after_bind. set (s0 := (s <| f_reused := false |>) <| f_in := f_next s |>).
  change (gets (bind_ (armed env g (g_readMs g)) (fun _ => bind_ (send_head env g ep)
    (fun t => if u_ok t then ret_ tt else end_or_timeout env g t R_SEND_FAIL U_SEND))) s0 (fun _ s' => asked s')).
  apply gets_bind_still; [apply armed_gets|]. intros _ s1 (E1 & E2 & E3 & E4 & E5).
  apply after_bind. unfold send_head. rewrite tick_step, emit_step. set (s2 := _ <| f_evs := _ |>).
  assert (H2 : heads (f_evs s2) = 2%nat) by (unfold s2; cbn; rewrite heads_snoc, E5; unfold s0; cbn; lia).
  rewrite after_ret. destruct (u_ok _); [rewrite after_ret|apply end_or_timeout_gets].
  split; unfold source; rewrite ?H2; cbn; unfold s0 in *; cbn in *; try congruence. by right.
Qed.

Lemma try_fresh_gets s : gets (try_fresh env g) s (fun _ s' => still s s').
Proof.
  unfold try_fresh. rewrite tick_step. destruct (_ =? 0); [done|]. rewrite tick_step, emit_step.
  apply (still_trans _ (s <| f_turn := S (f_turn s) |>)); [done|]. by apply (still_evs (s <| f_turn := S (f_turn s) |>) (S (S (f_turn s)))).
Qed.

Lemma send_request_gets s : heads (f_evs s) = 0%nat -> f_buf s = [] -> f_in s = script -> f_next s = next ->
  gets (send_request env g ep) s (fun _ s' => asked s').
Proof.
  intros Hh Hb Hi Hn. unfold send_request. apply gets_bind_still; [apply armed_gets|]. intros _ s1 (E1 & E2 & E3 & E4 & E5).
  apply after_bind. unfold send_head. rewrite tick_step, emit_step. set (s2 := _ <| f_evs := _ |>).
  assert (H2 : heads (f_evs s2) = 1%nat) by (unfold s2; cbn; rewrite heads_snoc; lia).
  rewrite after_ret. destruct (u_ok _); [rewrite after_ret|].
  { split; unfold source; rewrite ?H2; cbn; try congruence. by left. }
  apply after_bind. unfold is_reused, after at 1. destruct (_ && _); [|apply end_or_timeout_gets].
  apply gets_bind_still; [apply try_fresh_gets|]. intros [wait t] s3 (F1 & F2 & F3 & F4 & F5). destruct (u_ok t).
  - apply resend_gets; rewrite ?F1, ?F3, ?F5; try done; unfold s2; cbn; congruence.
  - by destruct (_ || _).
Qed.

(** Something is read, of what the connection the request went out on gives. *)
Definition reading (used : list ascii) (s : Fw) : Prop := reached (source (f_evs s)) used (f_buf s) (f_in s).

Definition sent_out (s : Fw) : Prop :=
  f_next s = next /\ (heads (f_evs s) = 1%nat \/ heads (f_evs s) = 2%nat /\ f_reused s = false).

Lemma sent_out_still s s' : still s s' -> sent_out s -> sent_out s'.
Proof. intros (E1 & E2 & E3 & E4 & E5). unfold sent_out. by rewrite E3, E4, E5. Qed.

Lemma asked_reading s : asked s -> sent_out s /\ reading [] s.
Proof.
  intros [H1 H2 H3 H4]. split; [by split|]. unfold reading. rewrite H1, H2. exists []. split; [done|]. split; [by constructor|]. split; [done|]. by left.
Qed.

Lemma source_still s s' : still s s' -> source (f_evs s') = source (f_evs s).
Proof. intros (_ & _ & _ & _ & E). unfold source. by rewrite E. Qed.

Lemma await_head_gets on_eof scr buf s : sent_out s -> reached (source (f_evs s)) [] buf scr ->
  (forall s', sent_out s' -> gets on_eof s' (fun _ s' => reading [] s')) ->
  gets (await_head env g on_eof scr buf) s (fun _ s' => reading [] s').
Proof.
  intros Hs Hr He. revert buf s Hs Hr. induction scr as [|i scr IH]; intros buf s Hs Hr; cbn [await_head].
  all: destruct (Z.eqb_spec (header_end buf) 0) as [H0|H0]; cbn [negb]; [|exact Hr].
  all: destruct (_ <=? _); [done|]; apply gets_bind_still; [apply armed_gets|]; intros _ s1 H1.
  - rewrite put_step. apply He. exact (sent_out_still s s1 H1 Hs).
  - destruct i as [c cs| |].
    + apply IH; [by apply (sent_out_still s)|]. rewrite (source_still s s1 H1). by apply reached_more.
    + rewrite put_step. apply He. exact (sent_out_still s s1 H1 Hs).
    + rewrite tick_step. apply end_or_timeout_gets.
Qed.

Lemma retry_read_gets s : sent_out s -> gets (retry_read env g ep) s (fun _ s' => reading [] s').
Proof.
  intros [Hn Hh]. unfold retry_read. do 2 (apply after_bind; cbn -[try_fresh]).
  destruct (f_reused s && g_retry g && _) eqn:E; [|done]. b2p.
  destruct Hh as [Hh|[_ Hh]]; [|congruence]. apply gets_bind_still; [apply try_fresh_gets|].
  intros f s1 (E1 & E2 & E3 & E4 & E5). destruct (u_ok f.2); [|done].
  apply after_bind. eapply after_mono; [apply resend_gets|..]; [congruence| |congruence| |done|done].
  { rewrite E1. by destruct (f_buf s). }
  cbn. intros _ s2 H2. apply asked_reading in H2 as [H2 H3]. unfold await.
  apply (await_head_gets _ (f_in s2) (f_buf s2) s2); [done|exact H3|done].
Qed.

Lemma await_answer_gets s : asked s -> gets (await_answer env g ep) s (fun _ s' => reading [] s').
Proof.
  intros H. apply asked_reading in H as [H1 H2]. unfold await_answer. apply after_bind.
  eapply after_mono with (Q := fun _ => reading []); [| |done|done].
  - apply (await_head_gets _ (f_in s) (f_buf s) s); [done|exact H2|]. apply retry_read_gets.
  - cbn. intros _ s' H'. unfold after at 1. by destruct (_ <? _).
Qed.

(** A further head is in the buffer. *)
Lemma read_more_gets used scr buf s : reached (source (f_evs s)) used buf scr ->
  gets (read_more env g scr buf) s (fun r s' => r = None -> reading used s' /\ header_end (f_buf s') <> 0).
Proof.
  revert buf s. induction scr as [|i scr IH]; intros buf s Hr; cbn [read_more].
  all: destruct (Z.eqb_spec (header_end buf) 0) as [H0|H0]; cbn [negb]; [|by rewrite put_step].
  all: destruct (_ <=? _); [by rewrite put_step|]; rewrite tick_step; (destruct (_ && _); [by rewrite put_step|]).
  - by rewrite put_step.
  - destruct i as [c cs| |]; [|by rewrite put_step|by rewrite tick_step, put_step].
    apply IH. by apply reached_more.
Qed.

(** It was parsed and taken off. *)
Definition head_read (used : list ascii) (p : HttpRespParser) (s : Fw) : Prop :=
  exists taken c cs h, source (f_evs s) = (taken ++ [I_DATA c cs]) ++ f_in s /\ Forall (fun i => is_data i = true) taken /\
    datas (taken ++ [I_DATA c cs]) = used ++ h ++ f_buf s /\ (length (f_buf s) <= length cs)%nat /\
    head_of parse h p /\ reading (used ++ h) s.

Lemma read_up_head_gets used s : reading used s ->
  gets (read_up_head env parse g) s (fun r s' => match r with inl p => head_read used p s' | inr _ => True end).
Proof.
  intros Hr. unfold read_up_head. set (k := fun r : option _ => _).
  change (gets (bind_ (read_more env g (f_in s) (f_buf s)) k) s
    (fun r s' => match r with inl p => head_read used p s' | inr _ => True end)).
  apply after_bind. eapply after_mono; [by apply (read_more_gets used)| |done|done]. cbn beta. intros r s1 H1. unfold k.
  destruct r as [r|]; [done|]. destruct (H1 eq_refl) as [H2 Hn]. clear H1.
  unfold parse_up_head, after. destruct (_ <? _); [done|]. destruct (_ || _) eqn:E; [done|]. b2p.
  destruct (header_end_take (f_buf s1) Hn) as [L1 L2].
  destruct (reached_head _ _ _ _ Hn H2) as (t & c & cs & E1 & E2 & E3 & E4).
  exists t, c, cs, (take (Z.to_nat (header_end (f_buf s1))) (f_buf s1)). split_and!; try done.
  - split; [congruence|]. split; [intros Hx; rewrite Hx in L2; cbn in L2; lia|]. split_and!; try done.
  - by apply reached_next.
Qed.

Lemma final_head_gets more hs s : reading (concat hs) s -> Forall (interim parse) hs -> (length hs + more <= 8)%nat ->
  gets (final_head env parse g more) s (fun p s' => answer_at parse (source (f_evs s')) p (f_buf s') (f_in s')).
Proof.
  revert hs s. induction more as [|more IH]; intros hs s Hr Hi Hl; cbn [final_head].
  all: apply gets_bind_still; [apply armed_gets|]; intros _ s1 H1.
  all: assert (Hr1 : reading (concat hs) s1)
    by (unfold reading in *; rewrite (source_still s s1 H1); destruct H1 as (-> & -> & _); exact Hr).
  all: apply after_bind; eapply after_mono; [by apply read_up_head_gets| |done|done]; cbn beta; intros r s2 H2.
  all: destruct r as [p|out]; [|by rewrite tick_step; destruct (_ || _)].
  all: destruct H2 as (t & c & cs & h & E1 & E2 & E3 & E4 & E5 & E6).
  all: destruct (Z.eqb_spec (rs_status (r_data p)) 101) as [|N1]; [done|].
  all: destruct (_ || _) eqn:Es; [exists t, c, cs, hs, h; split_and!; try done; [lia|]; b2p; lia|].
  - done.
  - b2p. apply (IH (hs ++ [h])); [by rewrite concat_app; cbn; rewrite app_nil_r|
      |rewrite length_app; cbn; lia]. apply Forall_app. split; [done|]. constructor; [|done]. exists p. split; [done|]. lia.
Qed.

Lemma ask_gets s : heads (f_evs s) = 0%nat -> f_buf s = [] -> f_in s = script -> f_next s = next ->
  gets (ask env parse g ep) s (fun p s' => answer_at parse (source (f_evs s')) p (f_buf s') (f_in s')).
Proof.
  intros Hh Hb Hi Hn. unfold ask. apply after_bind. eapply after_mono; [by apply send_request_gets| |done|done].
  cbn beta. intros _ s1 H1. apply gets_bind_still; [apply send_continue_gets|]. intros _ s2 H2.
  apply gets_bind_still; [apply send_body_gets|]. intros _ s3 H3.
  apply after_bind. eapply after_mono; [apply await_answer_gets| |done|done].
  - apply (asked_still s2); [done|]. by apply (asked_still s1).
  - cbn beta. intros _ s4 H4. apply (final_head_gets 8 []); [exact H4|by constructor|done].
Qed.
End reads.

(** ** The answer *)

Section answered.
Context (env : nat -> Turn) (parse : list ascii -> Parsed) (g : Req) (ep : nat).

Definition marks (counted : bool) (ret : UpRet) : list Ev := if counted then [V_MARK ret; V_COUNT ret] else [].
Definition closing (counted : bool) (ret : UpRet) (keep : bool) : list Ev :=
  V_RELEASE ret keep :: (if counted then [] else [V_COUNT ret]).
Definition sent (f : BodyFraming) (blocks : list (list ascii)) : list Ev :=
  map (fun b => V_CLIENT_BLOCK (encodeChunk f b) true) blocks.
Definition sent_end (f : BodyFraming) (ok : bool) : list Ev :=
  match encodeEnd f with
  | [] => []
  | tail => if ok then [V_CLIENT_BLOCK tail true] else [V_CLIENT_BLOCK tail false; V_WRITE_FAIL]
  end.

(** What is written of the body: nothing where there is none. *)
Definition shown (p : HttpRespParser) (blocks : list (list ascii)) : list (list ascii) := if no_body g p then [] else blocks.

Definition framing_out (p : HttpRespParser) : BodyFraming := client_framing (answer_framing g p).

Definition reader_of (p : HttpRespParser) (buf : list ascii) (script : list Input) : BodyReader :=
  reader_init (answer_framing g p) (answer_clen g p) buf script true.

Definition body_end (p : HttpRespParser) (b : BodyReader) (ok : bool) : list Ev :=
  if m_error b then [V_WRITE_FAIL; V_CLIENT_CLOSE] else sent_end (framing_out p) ok.

(** The whole answer was read, out of [buf] and what then came, and, as far as the client
    took it, written. *)
Definition answered (p : HttpRespParser) (buf : list ascii) (rest : list Input) (evs : list Ev) : Prop :=
  exists counted ret blocks b ok,
    body_blocks (reader_of p buf rest) = Some (blocks, b) /\
    evs = marks counted ret ++ [V_CLIENT_HEAD (client_head g p) true; V_COMMIT (rs_status (r_data p))] ++
      sent (framing_out p) (shown p blocks) ++ body_end p b ok ++ closing counted (body_ret counted b ret) (reusable g b p).

(** A write to the client failed. *)
Definition cut_off (p : HttpRespParser) (evs : list Ev) : Prop :=
  exists counted ret shown_, evs = marks counted ret ++ shown_ ++ V_WRITE_FAIL :: closing counted ret false /\
    (shown_ = [V_CLIENT_HEAD (client_head g p) false] \/
     exists done_ b, shown_ = [V_CLIENT_HEAD (client_head g p) true; V_COMMIT (rs_status (r_data p))] ++
       sent (framing_out p) done_ ++ [V_CLIENT_BLOCK b false]).

Lemma finish_spec counted ret keep s (Q : unit -> Fw -> Prop) E K :
  (forall s', f_evs s' = f_evs s ++ closing counted ret keep -> Q tt s') -> after (finish_ counted ret keep) s Q E K.
Proof.
  intros HQ. unfold finish_. rewrite emit_step. destruct counted; apply HQ; [done|]. cbn. by rewrite <- app_assoc.
Qed.

Lemma client_fails_spec counted ret s (Q : unit -> Fw -> Prop) E K :
  (forall s', f_evs s' = f_evs s ++ V_WRITE_FAIL :: closing counted ret false -> E R_OK s') ->
  after (client_fails counted ret) s Q E K.
Proof.
  intros HE. unfold client_fails. rewrite emit_step. apply after_bind, finish_spec. intros s' Hs'. apply HE.
  rewrite Hs'. cbn. by rewrite <- app_assoc.
Qed.

Lemma relay_spec f on_fail blocks s (Q : unit -> Fw -> Prop) E K :
  (forall s', f_evs s' = f_evs s ++ sent f blocks -> Q tt s') ->
  (forall done_ b s', f_evs s' = f_evs s ++ sent f done_ ++ [V_CLIENT_BLOCK b false] -> after on_fail s' Q E K) ->
  after (relay env f on_fail blocks) s Q E K.
Proof.
  revert s. induction blocks as [|b blocks IH]; intros s HQ HE; cbn [relay].
  - apply HQ. by rewrite app_nil_r.
  - rewrite tick_step, emit_step. destruct (u_ok _).
    + apply IH; intros; [apply HQ|eapply (HE (b :: done_))]; cbn in *; by rewrite H, <- app_assoc.
    + eapply (HE []). done.
Qed.

Lemma relay_end_spec f s (Q : unit -> Fw -> Prop) E K :
  (forall ok s', f_evs s' = f_evs s ++ sent_end f ok -> Q tt s') -> after (relay_end env f) s Q E K.
Proof.
  intros HQ. unfold relay_end, sent_end in *. destruct (encodeEnd f) as [|c l].
  - apply (HQ true). by rewrite app_nil_r.
  - rewrite tick_step, emit_step. destruct (u_ok _) eqn:E0; [by apply (HQ true)|].
    apply (HQ false). cbn. by rewrite <- app_assoc.
Qed.

Lemma answer_body_spec p counted ret s (Q : unit -> Fw -> Prop) E K :
  (forall blocks b ok s', body_blocks (reader_of p (f_buf s) (f_in s)) = Some (blocks, b) ->
    f_evs s' = f_evs s ++ sent (framing_out p) (shown p blocks) ++ body_end p b ok ++
      closing counted (body_ret counted b ret) (reusable g b p) -> Q tt s') ->
  (forall done_ b s', f_evs s' = f_evs s ++ sent (framing_out p) done_ ++
      V_CLIENT_BLOCK b false :: V_WRITE_FAIL :: closing counted ret false -> E R_OK s') ->
  (body_blocks (reader_of p (f_buf s) (f_in s)) = None -> K) ->
  after (answer_body env g p counted ret) s Q E K.
Proof.
  intros HQ HE HK. unfold answer_body, after at 1. unfold reader_of in *.
  destruct (body_blocks _) as [[blocks b]|] eqn:Eb; [|by apply HK]. specialize (HQ blocks b). cbn zeta.
  set (m := bind_ (relay _ _ _ _) _). change (after m s Q E K). unfold m. clear m.
  apply after_bind, relay_spec.
  - intros s1 H1. apply after_bind.
    apply after_mono with (fun _ s2 => exists ok, f_evs s2 = f_evs s1 ++ body_end p b ok) (fun _ _ => False) False; [|clear HK|done|done].
    + unfold body_end. destruct (m_error b); [exists true; cbn; by rewrite <- app_assoc|].
      apply relay_end_spec. intros ok s2 H2. by exists ok.
    + intros [] s2 [ok H2]. apply finish_spec. intros s3 H3. apply (HQ ok); [done|]. by rewrite H3, H2, H1, <- !app_assoc.
  - intros done_ b' s1 H1. apply client_fails_spec. intros s2 H2. apply (HE done_ b'). by rewrite H2, H1, <- !app_assoc.
Qed.

Lemma answer_spec p s (K : Prop) : (body_blocks (reader_of p (f_buf s) (f_in s)) = None -> K) ->
  after (answer env g p) s (fun _ s' => exists evs, f_evs s' = f_evs s ++ evs /\ answered p (f_buf s) (f_in s) evs)
    (fun r s' => r = R_OK /\ exists evs, f_evs s' = f_evs s ++ evs /\ cut_off p evs) K.
Proof.
  intros HK. unfold answer. rewrite tick_step. set (ret := head_ret _ _ _). set (counted := counted_of _ _ _).
  apply after_bind.
  set (Q0 := fun (_ : unit) s1 => f_evs s1 = f_evs s ++ marks counted ret /\ f_buf s1 = f_buf s /\ f_in s1 = f_in s).
  apply after_mono with Q0 (fun _ _ => False) False; [| |done|done].
  { destruct counted; unfold Q0; cbn; by rewrite ?app_nil_r, <- ?app_assoc. }
  intros [] s1 (H1 & H2 & H3). rewrite tick_step, emit_step. destruct (u_ok _) eqn:Eok; cbn [negb].
  - rewrite emit_step. apply answer_body_spec; cbn [f_buf f_in]; cbn; rewrite ?H2, ?H3; [| |done].
    + intros blocks b ok s2 Eb Hs2. rewrite H1 in Hs2. eexists. split; [rewrite Hs2, <- !app_assoc; done|].
      by exists counted, ret, blocks, b, ok.
    + intros done_ b s2 Hs2. rewrite H1 in Hs2. split; [done|]. eexists. split; [rewrite Hs2, <- !app_assoc; done|].
      exists counted, ret, ([V_CLIENT_HEAD (client_head g p) true; V_COMMIT (rs_status (r_data p))] ++
        sent (framing_out p) done_ ++ [V_CLIENT_BLOCK b false]).
      split; [cbn; by rewrite <- !app_assoc|]. right. by exists done_, b.
  - apply client_fails_spec. intros s2 Hs2. split; [done|]. cbn in Hs2. rewrite H1 in Hs2.
    eexists. split; [rewrite Hs2; by rewrite <- !app_assoc|]. exists counted, ret, [V_CLIENT_HEAD (client_head g p) false].
    split; [done|by left].
Qed.
End answered.

(** ** All the exits *)

(** Every body is within what the readers count ([body_small]) and each connection gives
    less than 2 GiB. *)
Definition all_fit (g : Req) (script next : list Input) : Prop :=
  (forall b, g_body g = Some b -> body_small b) /\
  Z.of_nat (length (datas script)) < 2 ^ 31 /\ Z.of_nat (length (datas next)) < 2 ^ 31.

Inductive outcome (parse : list ascii -> Parsed) (g : Req) (reused0 : bool) (script next : list Input) : ForwardResult -> list Ev -> Prop :=
  | O_EARLY r evs ret reused : pre_evs g reused0 evs reused -> (r = R_OK <-> List.filter is_fail_ev evs <> []) ->
      outcome parse g reused0 script next r (evs ++ [V_RELEASE ret false; V_COUNT ret])
  | O_ANSWER evs reused p buf rest tail : pre_evs g reused0 evs reused -> List.filter is_fail_ev evs = [] ->
      answer_at parse (source script next evs) p buf rest -> answered g p buf rest tail \/ cut_off g p tail ->
      outcome parse g reused0 script next R_OK (evs ++ tail).

Lemma cl_number_nonneg v n : cl_number v = Some n -> 0 <= n.
Proof.
  unfold cl_number. destruct (all_digits (trimOWS v)) eqn:E; [|done].
  unfold all_digits in E. b2p. destruct (scan_dec_all (trimOWS v) 0 0) as (z & Ez & Hz); [done|].
  rewrite Ez. destruct (_ <=? _); [|done]. intros [= <-]. lia.
Qed.

Lemma resp_clen_nonneg pes : 0 <= r_clen (resp_events pes).
Proof.
  unfold resp_events. set (P := fun r => 0 <= r_clen r). change (P (fold_left resp_event pes resp_parser_init)).
  assert (H : P resp_parser_init) by done. revert H. generalize resp_parser_init. induction pes as [|e pes IH]; [done|].
  intros r H. apply IH. destruct e as [| | | |k v]; try exact H. cbn. unfold resp_onHttpField.
  rewrite parse_cl_spec. unfold P in *. destruct (cl_number v) as [n|] eqn:En.
  - apply cl_number_nonneg in En. repeat case_match; done.
  - repeat case_match; done.
Qed.

Lemma answer_body_fits g p buf script : 0 <= r_clen p -> Z.of_nat (length (buf ++ datas script)) < 2 ^ 31 ->
  body_blocks (reader_of g p buf script) <> None.
Proof.
  intros Hc Hs. apply body_blocks_ends. unfold reader_of. set (fr := answer_framing g p).
  assert (Hl : 0 <= answer_clen g p) by (unfold answer_clen; by destruct (no_body g p)). split.
  - split; try done. intros Hf. cbn. split_and!; [done|lia|]. cbn in Hf. rewrite Hf. intros H. by b2p.
  - cbn. by intros ->.
Qed.

Section outcome.
Context (env : nat -> Turn) (parse : list ascii -> Parsed) (g : Req).
Context (acq : AcqConn) (ep : nat) (script next : list Input) (Hep : a_endpoint acq = Some ep).

Lemma forward_outcome :
  match forward env parse g true (Some acq) script next with
  | Some (r, evs) => outcome parse g (a_reused acq) script next r evs
  | None => ~ all_fit g script next
  end.
Proof.
  unfold forward. rewrite Hep. cbn [negb]. set (fits := all_fit g script next). set (s0 := fw_init acq script next).
  assert (H0 : pre g (a_reused acq) fits s0).
  { split; try done; [split; try done; left; cbn; lia|intros (_ & F & _)|intros (_ & _ & F)]; exact F. }
  assert (A : after (forward_conn env parse g ep) s0 (fun _ s => outcome parse g (a_reused acq) script next R_OK (f_evs s))
                (fun r s => outcome parse g (a_reused acq) script next r (f_evs s)) (~ fits)).
  { unfold forward_conn. apply after_bind.
    eapply after_mono; [apply after_both; [apply (ask_early env parse g ep (a_reused acq) fits); try done; by intros (F & _)
                                          |by apply (ask_gets env parse g ep script next)]| | |].
    - cbn beta. intros p s [[[H1 H2 H3 H4] (pes & -> & Hpe)] Ha].
      eapply after_mono; [apply (answer_spec env g (resp_events pes) s (~ fits))| | |done].
      + intros Hn F. apply (answer_body_fits g (resp_events pes) (f_buf s) (f_in s)); [apply resp_clen_nonneg|by apply H3|done].
      + cbn. intros _ s' (evs & -> & Ht). eapply O_ANSWER; eauto.
      + cbn. intros r s' (-> & evs & -> & Ht). eapply O_ANSWER; eauto.
    - intros r s [(evs & ret & reused & -> & Hp & Hr) _]. by eapply O_EARLY.
    - by intros [K _]. }
  unfold after in A. by destruct (forward_conn env parse g ep s0).
Qed.
End outcome.

(** ** What the events report *)

Definition report_of (e : Ev) : option UpRet := match e with V_MARK ret | V_RELEASE ret _ => Some ret | _ => None end.
Definition count_of (e : Ev) : option UpRet := match e with V_COUNT ret => Some ret | _ => None end.
Definition release_of (e : Ev) : option bool := match e with V_RELEASE _ keep => Some keep | _ => None end.
(** What the client is given of an answer. *)
Definition client_of (e : Ev) : option Ev :=
  match e with V_CLIENT_HEAD _ _ | V_CLIENT_BLOCK _ _ | V_COMMIT _ => Some e | _ => None end.

Lemma early_none {B} (f : Ev -> option B) evs : (forall e, early e = true -> f e = None) ->
  Forall (fun e => early e = true) evs -> omap f evs = [].
Proof. intros Hf. induction 1 as [|e evs He _ IH]; [done|]. cbn. by rewrite (Hf e He). Qed.

Lemma sent_none {B} (f : Ev -> option B) fr blocks : (forall b ok, f (V_CLIENT_BLOCK b ok) = None) ->
  omap f (sent fr blocks) = [].
Proof. intros Hf. induction blocks as [|b blocks IH]; [done|]. cbn. by rewrite Hf. Qed.

Lemma sent_shown fr blocks : omap client_of (sent fr blocks) = sent fr blocks.
Proof. induction blocks as [|b blocks IH]; [done|]. cbn. f_equal. exact IH. Qed.

Lemma sent_no_fail fr blocks : List.filter is_fail_ev (sent fr blocks) = [].
Proof. by induction blocks. Qed.

(** An answer's events as [f] sees them, when it sees nothing of what the client is given. *)
Lemma answered_omap {B} (f : Ev -> option B) g p b ok blocks counted ret ret' keep :
  (forall h ok, f (V_CLIENT_HEAD h ok) = None) -> (forall b ok, f (V_CLIENT_BLOCK b ok) = None) ->
  (forall st, f (V_COMMIT st) = None) -> f V_WRITE_FAIL = None -> f V_CLIENT_CLOSE = None ->
  omap f (marks counted ret ++ [V_CLIENT_HEAD (client_head g p) true; V_COMMIT (rs_status (r_data p))] ++
      sent (framing_out g p) blocks ++ body_end g p b ok ++ closing counted ret' keep) =
    omap f (marks counted ret ++ closing counted ret' keep).
Proof.
  intros F1 F2 F3 F4 F5. rewrite !omap_app, sent_none by done.
  assert (E : omap f (body_end g p b ok) = []).
  { unfold body_end, sent_end. destruct (m_error b); [cbn; by rewrite F4, F5|].
    destruct (encodeEnd _); [done|]. destruct ok; cbn; by rewrite !F2, ?F4. }
  rewrite E. cbn. by rewrite F1, F3.
Qed.

Lemma cut_off_omap {B} (f : Ev -> option B) g p shown_ counted ret :
  (forall h ok, f (V_CLIENT_HEAD h ok) = None) -> (forall b ok, f (V_CLIENT_BLOCK b ok) = None) ->
  (forall st, f (V_COMMIT st) = None) -> f V_WRITE_FAIL = None ->
  (shown_ = [V_CLIENT_HEAD (client_head g p) false] \/
   exists done_ b, shown_ = [V_CLIENT_HEAD (client_head g p) true; V_COMMIT (rs_status (r_data p))] ++
     sent (framing_out g p) done_ ++ [V_CLIENT_BLOCK b false]) ->
  omap f (marks counted ret ++ shown_ ++ V_WRITE_FAIL :: closing counted ret false) =
    omap f (marks counted ret ++ closing counted ret false).
Proof.
  intros F1 F2 F3 F4 H. rewrite !omap_app. f_equal. change (V_WRITE_FAIL :: closing counted ret false) with ([V_WRITE_FAIL] ++ closing counted ret false).
  rewrite omap_app. cbn [omap list_omap]. 
  assert (E : omap f shown_ = []).
  { destruct H as [->|(d & b & ->)]; [cbn; by rewrite F1|]. rewrite !omap_app, sent_none by done. cbn. by rewrite F1, F2, F3. }
  rewrite E. cbn. by rewrite F4.
Qed.

(** Nothing goes upstream once the answer has started. *)
Definition late (e : Ev) : bool := negb (is_head_ev e) && negb (is_block_ev e).

Lemma sent_late f blocks : Forall (fun e => late e = true) (sent f blocks).
Proof. induction blocks; by constructor. Qed.

Lemma answer_late g p buf rest tail : answered g p buf rest tail \/ cut_off g p tail -> Forall (fun e => late e = true) tail.
Proof.
  assert (C : forall counted ret keep, Forall (fun e => late e = true) (closing counted ret keep)) by (intros []; by repeat constructor).
  assert (M : forall counted ret, Forall (fun e => late e = true) (marks counted ret)) by (intros []; by repeat constructor).
  intros [(counted & ret & blocks & b & ok & _ & ->)|(counted & ret & sh & -> & Hsh)];
    apply Forall_app; (split; [apply M|]).
  - constructor; [done|]. constructor; [done|]. apply Forall_app. split; [apply sent_late|]. apply Forall_app. split; [|apply C].
    unfold body_end, sent_end. repeat case_match; by repeat constructor.
  - apply Forall_app. split; [|constructor; [done|apply C]]. destruct Hsh as [->|(d & b & ->)]; [by repeat constructor|].
    constructor; [done|]. constructor; [done|]. apply Forall_app. split; [apply sent_late|by repeat constructor].
Qed.

Lemma late_none f evs : (forall e, late e = true -> f e = false) -> Forall (fun e => late e = true) evs -> List.filter f evs = [].
Proof. intros Hf. induction 1 as [|e evs He _ IH]; [done|]. cbn. by rewrite (Hf e He). Qed.

Lemma answer_tail_none g p buf rest tail : answered g p buf rest tail \/ cut_off g p tail ->
  List.filter is_head_ev tail = [] /\ List.filter is_block_ev tail = [].
Proof. intros H. apply answer_late in H. split; (apply late_none; [by intros []|done]). Qed.

(** A body written without a failure. *)
Lemma body_end_clean g p b ok : List.filter is_fail_ev (body_end g p b ok) = [] ->
  m_error b = false /\ body_end g p b ok = sent_end (framing_out g p) true.
Proof.
  unfold body_end, sent_end. destruct (m_error b); [done|]. destruct (encodeEnd _); [done|]. by destruct ok.
Qed.

Lemma answered_shown g p fr blocks e1 e2 counted ret ret' keep : client_of e1 = Some e1 -> client_of e2 = Some e2 ->
  omap client_of (marks counted ret ++ [e1; e2] ++ sent fr blocks ++ sent_end (framing_out g p) true ++ closing counted ret' keep) =
    [e1; e2] ++ sent fr blocks ++ sent_end (framing_out g p) true.
Proof.
  intros H1 H2. rewrite !omap_app, sent_shown. 
  assert (E : omap client_of (sent_end (framing_out g p) true) = sent_end (framing_out g p) true).
  { unfold sent_end. by destruct (encodeEnd _). }
  rewrite E. assert (E2 : omap client_of [e1; e2] = [e1; e2]) by (cbn; by rewrite H1, H2). rewrite E2.
  assert (E3 : omap client_of (marks counted ret) = []) by by destruct counted. rewrite E3.
  assert (E4 : omap client_of (closing counted ret' keep) = []) by by destruct counted. by rewrite E4, app_nil_r.
Qed.

(** The tail of an answer asks for nothing more. *)
Lemma source_tail script next evs tail : List.filter is_head_ev tail = [] ->
  source script next (evs ++ tail) = source script next evs.
Proof. intros H. unfold source, heads. by rewrite List.filter_app, H, app_nil_r. Qed.

(** ** Theorems *)

(** C17: the books of one forwarded request balance, whichever of the exits it takes: the
    connection is given back exactly once, exactly one result is counted, and it is the
    one first reported to the endpoint. The connection is kept for another request only
    after a clean answer of its own: [answer_at] finds that answer in what the connection
    the request last went out on gives, and [answer_at_unique] says there is no other. The
    client got its head, its body was read to its announced end without an error, nothing
    was received behind it, and it does not ask to close. *)
Theorem forward_accounts (env : nat -> Turn) (parse : list ascii -> Parsed) (g : Req) (acq : AcqConn)
    (script next : list Input) (r : ForwardResult) (evs : list Ev) :
  a_endpoint acq <> None -> forward env parse g true (Some acq) script next = Some (r, evs) ->
  exists keep ret, omap release_of evs = [keep] /\ omap count_of evs = [ret] /\ head (omap report_of evs) = Some ret /\
    (keep = true -> exists p buf rest blocks b, answer_at parse (source script next evs) p buf rest /\
       In (V_CLIENT_HEAD (client_head g p) true) evs /\
       body_blocks (reader_of g p buf rest) = Some (blocks, b) /\ m_error b = false /\ m_buf b = [] /\
       rs_close (r_data p) = false /\ answer_framing g p <> F_UNTIL_CLOSE).
Proof.
  intros Hep E. destruct (a_endpoint acq) as [ep|] eqn:Ea; [|done].
  pose proof (forward_outcome env parse g acq ep script next Ea) as H. rewrite E in H. clear E.
  assert (X : forall evs0 reused, pre_evs g (a_reused acq) evs0 reused ->
    omap release_of evs0 = [] /\ omap count_of evs0 = [] /\ omap report_of evs0 = []).
  { intros evs0 reused [He _ _ _]. split_and!; (apply early_none; [by intros []|done]). }
  destruct H as [r evs ret reused Hp Hr|evs reused p buf rest tail Hp Hf He Ht]; destruct (X _ _ Hp) as (X1 & X2 & X3);
    rewrite !omap_app, X1, X2, X3; [by exists false, ret|]. cbn [app].
  rewrite source_tail by (by apply (answer_tail_none g p buf rest)).
  destruct Ht as [(counted & ret & blocks & b & ok & Eb & ->)|(counted & ret & sh & -> & Hsh)].
  - rewrite !answered_omap by done. set (keep := reusable g b p).
    exists keep, (if counted then ret else body_ret counted b ret). split_and!; try by destruct counted.
    unfold keep, reusable. intros K. b2p. exists p, buf, rest, blocks, b. split; [done|].
    split; [rewrite !in_app_iff; cbn; auto|]. split_and!; try done; [by destruct (m_buf b)|].
    by destruct (answer_framing g p).
  - rewrite !(cut_off_omap _ g p) by done. exists false, ret. by destruct counted.
Qed.

(** C19: the request goes upstream at most twice, the second time only when the first was on
    a connection kept from an earlier request, and only for a GET, HEAD or OPTIONS without
    a body; nothing of a body goes out in that case. *)
Theorem forward_retry (env : nat -> Turn) (parse : list ascii -> Parsed) (g : Req) (acq : AcqConn)
    (script next : list Input) (r : ForwardResult) (evs : list Ev) :
  a_endpoint acq <> None -> forward env parse g true (Some acq) script next = Some (r, evs) ->
  g_retry g = retry_of (g_reqFraming g) (g_method g) -> (forall b, g_body g = Some b -> m_framing b = g_reqFraming g /\
    (m_framing b = F_NONE -> m_finished b = true)) ->
  (heads evs <= 2)%nat /\
  (heads evs = 2%nat -> a_reused acq = true /\ g_reqFraming g = F_NONE /\ can_retry (g_method g) = true /\
     List.filter is_block_ev evs = []).
Proof.
  intros Hep E Hr Hb. destruct (a_endpoint acq) as [ep|] eqn:Ea; [|done].
  pose proof (forward_outcome env parse g acq ep script next Ea) as H. rewrite E in H. clear E.
  assert (X : exists evs0 reused tail, evs = evs0 ++ tail /\ pre_evs g (a_reused acq) evs0 reused /\
    List.filter is_head_ev tail = [] /\ List.filter is_block_ev tail = []).
  { destruct H as [r evs ret reused Hp _|evs reused p buf rest tail Hp _ _ Ht]; [by eexists _, _, _|].
    exists evs, reused, tail. split_and!; try done; by apply (answer_tail_none g p buf rest). }
  destruct X as (evs0 & reused & tail & -> & [_ Hh _ Hk] & T1 & T2). unfold few_heads, heads in *.
  rewrite !List.filter_app, T1, T2, !app_nil_r. split; [lia|]. intros H2. destruct Hh as [Hh|(_ & H3 & H4 & _)]; [lia|].
  rewrite Hr in H4. unfold retry_of in H4. apply andb_true_iff in H4 as [H4 H5].
  assert (Hn : g_reqFraming g = F_NONE) by (by destruct (g_reqFraming g)). split_and!; try done. apply Hk.
  split; [done|]. intros b Eb. destruct (Hb b Eb) as [F1 F2]. apply F2. by rewrite F1.
Qed.

(** C18: how a request ends for its client. With any result but [OK] the client was given
    nothing but [100 Continue] and no write to it failed, so an error page can still be
    sent. With [OK] and no failed write, the upstream's answer - the one [answer_at] finds
    in what the connection the request last went out on gives - reached it whole: the head
    of that answer, settled as an answer, then every block of its body, which was read to
    its end without an error, then the end of it. *)
Theorem forward_answers (env : nat -> Turn) (parse : list ascii -> Parsed) (g : Req) (acq : AcqConn)
    (script next : list Input) (r : ForwardResult) (evs : list Ev) :
  a_endpoint acq <> None -> forward env parse g true (Some acq) script next = Some (r, evs) ->
  (r <> R_OK -> omap client_of evs = [] /\ List.filter is_fail_ev evs = []) /\
  (r = R_OK -> List.filter is_fail_ev evs = [] ->
     exists p buf rest blocks b, answer_at parse (source script next evs) p buf rest /\
       body_blocks (reader_of g p buf rest) = Some (blocks, b) /\ m_error b = false /\
       omap client_of evs =
         [V_CLIENT_HEAD (client_head g p) true; V_COMMIT (rs_status (r_data p))] ++
         sent (framing_out g p) (shown g p blocks) ++ sent_end (framing_out g p) true).
Proof.
  intros Hep E. destruct (a_endpoint acq) as [ep|] eqn:Ea; [|done].
  pose proof (forward_outcome env parse g acq ep script next Ea) as H. rewrite E in H. clear E.
  assert (X : forall evs0 reused, pre_evs g (a_reused acq) evs0 reused -> omap client_of evs0 = []).
  { intros evs0 reused [He _ _ _]. apply early_none; [by intros []|done]. }
  destruct H as [r evs ret reused Hp Hr|evs reused p buf rest tail Hp Hf He Ht]; pose proof (X _ _ Hp) as Xp.
  - rewrite omap_app, Xp, List.filter_app. cbn. rewrite app_nil_r. split; [|intros H Hn; by apply Hr in H].
    intros Hn. split; [done|]. destruct (List.filter is_fail_ev evs) eqn:Ef; [done|]. exfalso. by apply Hn, Hr.
  - split; [done|]. intros _. rewrite source_tail by (by apply (answer_tail_none g p buf rest)).
    rewrite List.filter_app, omap_app, Xp, Hf. cbn [app].
    destruct Ht as [(counted & ret & blocks & b & ok & Eb & ->)|(counted & ret & sh & -> & _)].
    + rewrite !List.filter_app, sent_no_fail. intros Hn. do 3 apply app_eq_nil in Hn as [_ Hn]. apply app_eq_nil in Hn as [Hn _].
      apply body_end_clean in Hn as [Herr ->]. rewrite answered_shown by done. by exists p, buf, rest, blocks, b.
    + rewrite !List.filter_app. intros Hn. exfalso. apply app_eq_nil in Hn as [_ Hn]. by apply app_eq_nil in Hn as [_ Hn].
Qed.

(** Forwarding ends, whatever the world does: no loop of it runs out of its fuel. *)
Theorem forward_ends (env : nat -> Turn) (parse : list ascii -> Parsed) (g : Req) (expectOk : bool)
    (acq : option AcqConn) (script next : list Input) :
  all_fit g script next -> forward env parse g expectOk acq script next <> None.
Proof.
  intros F. destruct expectOk; [|done]. destruct acq as [acq|]; [|done].
  destruct (a_endpoint acq) as [ep|] eqn:Ea.
  - pose proof (forward_outcome env parse g acq ep script next Ea) as H.
    destruct (forward env parse g true (Some acq) script next) as [[r evs]|]; [done|]. by intros _; apply H.
  - unfold forward. rewrite Ea. cbn. unfold no_connection. by destruct (a_why acq).
Qed.

(** ** Witnesses *)

(** Everything succeeds, a millisecond a turn. *)
Definition calm (n : nat) : Turn := mkTurn (Z.of_nat n * 1000000) true false.

Definition sample_cb : CbCfg := mkCbCfg 5 10000 10 10 50 1000 50 5000 60000 3 2 [502; 503].

Definition sample_get : Req :=
  mkReq (fun _ => "GET / HTTP/1.1"%string) true false F_NONE None M_GET 0 1000 1000 0 sample_cb [] 17 false.

Definition sample_parse (_ : list ascii) : Parsed :=
  mkParsed [A_STATUS "200"; A_FIELD "Content-Length" "5"]%string true false.

Definition sample_acq : AcqConn := mkAcq (Some 0%nat) true A_NONE 0 false true.

(** The kept connection is closed at once; the next one answers. *)
Definition sample_answer : list Input :=
  [I_DATA "H" (chars "TTP/1.1 200 OK" ++ [CR; LF] ++ chars "Content-Length: 5" ++ [CR; LF; CR; LF] ++ chars "he");
   I_DATA "l" (chars "lo")].

Definition sample_run := Eval vm_compute in forward calm sample_parse sample_get true (Some sample_acq) [I_EOF] sample_answer.

Lemma forward_accounts_witness :
  exists evs ret, sample_run = Some (R_OK, evs) /\ omap release_of evs = [true] /\ omap count_of evs = [ret].
Proof.
  destruct (forward_accounts calm sample_parse sample_get sample_acq [I_EOF] sample_answer R_OK
    (match sample_run with Some (_, evs) => evs | None => [] end)) as (keep & ret & H1 & H2 & _); [done|by vm_compute|].
  eexists _, ret. split; [reflexivity|]. split; [by vm_compute|exact H2].
Defined.

Lemma forward_retry_witness :
  exists evs, sample_run = Some (R_OK, evs) /\ heads evs = 2%nat /\ List.filter is_block_ev evs = [].
Proof.
  destruct (forward_retry calm sample_parse sample_get sample_acq [I_EOF] sample_answer R_OK
    (match sample_run with Some (_, evs) => evs | None => [] end)) as [_ H]; [done|by vm_compute|done|done|].
  eexists. split; [reflexivity|]. split; [by vm_compute|]. by apply H.
Defined.

Lemma forward_answers_witness :
  exists evs, sample_run = Some (R_OK, evs) /\
    (exists p buf rest blocks b, answer_at sample_parse sample_answer p buf rest /\
       body_blocks (reader_of sample_get p buf rest) = Some (blocks, b) /\ m_error b = false) /\
    drop 2 (omap client_of evs) = [V_CLIENT_BLOCK (chars "he") true; V_CLIENT_BLOCK (chars "llo") true].
Proof.
  destruct (forward_answers calm sample_parse sample_get sample_acq [I_EOF] sample_answer R_OK
    (match sample_run with Some (_, evs) => evs | None => [] end)) as [_ H]; [done|by vm_compute|].
  destruct (H eq_refl eq_refl) as (p & buf & rest & blocks & b & Ha & Eb & Er & _).
  eexists. split; [reflexivity|]. split; [by exists p, buf, rest, blocks, b|by vm_compute].
Defined.

Lemma forward_ends_witness :
  exists r, forward calm sample_parse sample_get true (Some sample_acq) [I_EOF] sample_answer = Some r.
Proof.
  pose proof (forward_ends calm sample_parse sample_get true (Some sample_acq) [I_EOF] sample_answer) as H.
  destruct (forward _ _ _ _ _ _ _) as [r|]; [by exists r|]. exfalso. apply H; [|done].
  split; [done|]. split; by vm_compute.
Defined.

(** A request with a body is not repeated. *)
Example post_not_repeated :
  forward calm sample_parse (sample_get <| g_retry := false |>) true (Some sample_acq) [I_EOF] sample_answer =
    Some (R_BAD_RESPONSE,
      [V_HEAD "GET / HTTP/1.1" true; V_RELEASE (mkUpRet M_FAIL U_BAD_RESP 0 3 false) false;
       V_COUNT (mkUpRet M_FAIL U_BAD_RESP 0 3 false)]).
Proof. by vm_compute. Qed.
