(* ===== verification/RateLimit.v ===== *)
(** * Token buckets and the state of the limiter (src/gateway/include/middlewares/builtin.cpp)

    The code counts tokens in doubles. The bucket is written over the class [Arith]:
    [double] is IEEE binary64 (the standard library's [spec_float]), which is what runs, and
    [exact] the rationals, for which the rate of a bucket is bounded. A bucket is shared by
    pointers, so buckets live in a store and the table of the limiter holds their places. *)

From Stdlib Require Import QArith Qround Lqa SpecFloat.
From S2P Require Import Prelude Records.

(** ** Arithmetic *)

Class Arith := {
  num : Type;
  n_of : Z -> num;
  n_add : num -> num -> num; n_sub : num -> num -> num; n_mul : num -> num -> num; n_div : num -> num -> num;
  n_eq : num -> num -> bool; n_lt : num -> num -> bool; n_le : num -> num -> bool;
  n_finite : num -> bool;
  n_ceil : num -> Z }.

Definition sf_finite (x : spec_float) : bool :=
  match x with S754_zero _ | S754_finite _ _ _ => true | _ => false end.

(** [std::ceil], on finite numbers. *)
Definition sf_ceil (x : spec_float) : Z :=
  match x with
  | S754_finite s m e =>
      let m := if s then Z.neg m else Z.pos m in
      if 0 <=? e then m * 2 ^ e else - (- m / 2 ^ (- e))
  | _ => 0
  end.

Definition double : Arith := {|
  num := spec_float; n_of z := binary_normalize 53 1024 z 0 false;
  n_add := SFadd 53 1024; n_sub := SFsub 53 1024; n_mul := SFmul 53 1024; n_div := SFdiv 53 1024;
  n_eq := SFeqb; n_lt := SFltb; n_le := SFleb; n_finite := sf_finite; n_ceil := sf_ceil |}.

Definition exact : Arith := {|
  num := Q; n_of := inject_Z; n_add := Qplus; n_sub := Qminus; n_mul := Qmult; n_div := Qdiv;
  n_eq := Qeq_bool; n_lt x y := negb (Qle_bool y x); n_le := Qle_bool; n_finite _ := true; n_ceil := Qceiling |}.

Section bucket.
Context {A : Arith}.

Record TokenBucket := mkBucket { tb_capacity : num; tb_refill_per_sec : num; tb_tokens : num; tb_lastMs : Z }.

Definition positive_or_zero (x : num) : num := if n_finite x && n_lt (n_of 0) x then x else n_of 0.

Definition bucket_init (capacity refillPerSec : num) (now : Z) : TokenBucket :=
  mkBucket (positive_or_zero capacity) (positive_or_zero refillPerSec) (positive_or_zero capacity) now.

Definition refill_locked (now : Z) (b : TokenBucket) : TokenBucket :=
  let b :=
    if (tb_lastMs b <? now) && n_lt (n_of 0) (tb_refill_per_sec b) then
      let elapsed := n_div (n_of (now - tb_lastMs b)) (n_of 1000) in
      let tokens := n_add (tb_tokens b) (n_mul elapsed (tb_refill_per_sec b)) in
      b <| tb_tokens := if n_lt (tb_capacity b) tokens then tb_capacity b else tokens |>
    else b in
  b <| tb_lastMs := now |>.

Definition retry_after_locked (n : num) (b : TokenBucket) : Z :=
  if n_le n (tb_tokens b) then 0
  else if n_lt (tb_capacity b) n || n_le (tb_refill_per_sec b) (n_of 0) then 1
  else
    let wait := n_div (n_sub n (tb_tokens b)) (tb_refill_per_sec b) in
    if n_le wait (n_of 0) then 1
    else if n_le (n_of UINT32_MAX) wait then UINT32_MAX
    else let sec := wrap32 (n_ceil wait) in if sec =? 0 then 1 else sec.

(** Whether there were tokens, the seconds to wait if not, the bucket. *)
Definition tryAcquire (n : num) (now : Z) (b : TokenBucket) : bool * Z * TokenBucket :=
  if n_le n (n_of 0) then (true, 0, b)
  else
    let b := refill_locked now b in
    if n_le n (tb_tokens b) then (true, 0, b <| tb_tokens := n_sub (tb_tokens b) n |>)
    else (false, retry_after_locked n b, b).

(** ** The limiter's state *)

Record Entry := mkEntry { e_bucket : nat; e_lastSeenMs : Z; e_capacity : num; e_refillPerSec : num }.
Record Hit := mkHit { h_n : Z; h_winStartMs : Z }.

(** [rs_heap]: the buckets, by their place; [full] is at 0. *)
Record RateState := mkRate {
  rs_heap : gmap nat TokenBucket; rs_fresh : nat;
  rs_buckets : gmap string Entry; rs_hits : gmap string Hit; rs_bucketMax : Z; rs_nextCleanupMs : Z }.

Definition FULL : nat := 0.

Definition rate_init (bucketMax now : Z) : RateState :=
  mkRate {[ FULL := bucket_init (n_of 0) (n_of 0) now ]} 1 ∅ ∅ (if bucketMax =? 0 then 1 else bucketMax) 0.

Definition kBucketIdleTtlMs : Z := 10 * 60 * 1000.
Definition kBucketCleanupIntervalMs : Z := 60 * 1000.

(** [now >= since && now - since > ttl]. *)
Definition stale (now since ttl : Z) : bool := (since <=? now) && (ttl <? now - since).

(** The order of [std::pair<uint64_t, std::string>]. *)
Definition age_lt (a b : Z * string) : bool := (a.1 <? b.1) || ((a.1 =? b.1) && String.ltb a.2 b.2).

Definition evict_oldest (hits : gmap string Hit) : gmap string Hit :=
  if 10000 <? Z.of_nat (size hits) then
    let ages := isort age_lt (map (fun kv : string * Hit => (h_winStartMs kv.2, kv.1)) (map_to_list hits)) in
    fold_left (fun m (a : Z * string) => delete a.2 m) (take (size hits / 5) ages) hits
  else hits.

Definition cleanupLocked (now windowMs : Z) (st : RateState) : RateState :=
  let buckets := filter (fun kv : string * Entry => stale now (e_lastSeenMs kv.2) kBucketIdleTtlMs = false) (rs_buckets st) in
  let hitsTtl := Z.max (wrap64 (windowMs * 3)) (5 * 60 * 1000) in
  let hits := filter (fun kv : string * Hit => stale now (h_winStartMs kv.2) hitsTtl = false) (rs_hits st) in
  ((st <| rs_buckets := buckets |>) <| rs_hits := evict_oldest hits |>)
    <| rs_nextCleanupMs := wrap64 (now + kBucketCleanupIntervalMs) |>.

(** The place of the bucket to ask. *)
Definition get (k : string) (cap refill : num) (windowMs now : Z) (st : RateState) : nat * RateState :=
  let st := if (rs_nextCleanupMs st =? 0) || (rs_nextCleanupMs st <=? now) then cleanupLocked now windowMs st else st in
  let seen := rs_buckets st !! k in
  let st := match seen with
            | Some e => st <| rs_buckets := <[k := e <| e_lastSeenMs := now |>]> (rs_buckets st) |>
            | None => st
            end in
  let fresh st :=
    if rs_bucketMax st <=? Z.of_nat (size (rs_buckets st)) then (FULL, st)
    else
      let p := rs_fresh st in
      (p, ((st <| rs_heap := <[p := bucket_init cap refill now]> (rs_heap st) |>) <| rs_fresh := S p |>)
            <| rs_buckets := <[k := mkEntry p now cap refill]> (rs_buckets st) |>) in
  match seen with
  | Some e => if n_eq (e_capacity e) cap && n_eq (e_refillPerSec e) refill then (e_bucket e, st) else fresh st
  | None => fresh st
  end.

(** [tryAcquire] through a pointer. *)
Definition acquire (p : nat) (n : num) (now : Z) (st : RateState) : bool * Z * RateState :=
  match rs_heap st !! p with
  | Some b => let '(ok, retry, b) := tryAcquire n now b in (ok, retry, st <| rs_heap := <[p := b]> (rs_heap st) |>)
  | None => (false, 1, st)
  end.

(** One more 429 of an address: the start of its window when it had enough, or 0. *)
Definition bump429 (ip : string) (hitsMax windowMs now : Z) (st : RateState) : Z * RateState :=
  let h := default (mkHit 0 0) (rs_hits st !! ip) in
  let h := if (h_winStartMs h =? 0) || (now <? h_winStartMs h) || (windowMs <? now - h_winStartMs h)
           then mkHit 0 now else h in
  let h := h <| h_n := wrap32 (h_n h + 1) |> in
  if hitsMax <=? h_n h then (h_winStartMs h, st <| rs_hits := <[ip := mkHit 0 now]> (rs_hits st) |>)
  else (0, st <| rs_hits := <[ip := h]> (rs_hits st) |>).
End bucket.

(** ** The rate, in exact arithmetic *)

Section exact.
#[local] Existing Instance exact.

(** How many of the requests at these times are let through. *)
Fixpoint granted (b : TokenBucket) (times : list Z) : Z * TokenBucket :=
  match times with
  | [] => (0, b)
  | t :: times =>
      let '(ok, _, b) := tryAcquire (n_of 1) t b in
      let '(n, b) := granted b times in (if ok then n + 1 else n, b)
  end.

(** Times that do not go back, the last of them. *)
Fixpoint in_order (t : Z) (times : list Z) : Prop :=
  match times with [] => True | t' :: times => t <= t' /\ in_order t' times end.

Lemma last_default (a : Z) l d d' : List.last (a :: l) d = List.last (a :: l) d'.
Proof. revert a. induction l as [|b l IH]; intros a; [done|]. apply (IH b). Qed.

Lemma positive_or_zero_nonneg (x : num) : (0 <= positive_or_zero x)%Q.
Proof.
  unfold positive_or_zero. cbn. destruct (Qle_bool x (inject_Z 0)) eqn:E; cbn; [apply Qle_refl|].
  apply Qlt_le_weak, Qnot_le_lt. intros H. apply Qle_bool_iff in H. exact (eq_true_false_abs _ H E).
Qed.

Lemma refill_exact now b : (0 <= tb_refill_per_sec b)%Q -> (tb_tokens b <= tb_capacity b)%Q -> tb_lastMs b <= now ->
  let b' := refill_locked now b in
  tb_capacity b' = tb_capacity b /\ tb_refill_per_sec b' = tb_refill_per_sec b /\ tb_lastMs b' = now /\
  (tb_tokens b <= tb_tokens b')%Q /\ (tb_tokens b' <= tb_capacity b)%Q /\
  (tb_tokens b' <= tb_tokens b + inject_Z (now - tb_lastMs b) / inject_Z 1000 * tb_refill_per_sec b)%Q.
Proof.
  intros Hr Ht Hn. unfold refill_locked. cbn.
  assert (Hd : (0 <= inject_Z (now - tb_lastMs b) / inject_Z 1000)%Q).
  { apply Qle_shift_div_l; [done|]. rewrite Qmult_0_l. change (inject_Z 0 <= inject_Z (now - tb_lastMs b))%Q.
    rewrite <- Zle_Qle. lia. }
  set (d := (inject_Z (now - tb_lastMs b) / inject_Z 1000)%Q) in *.
  assert (Hp : (0 <= d * tb_refill_per_sec b)%Q) by by apply Qmult_le_0_compat.
  destruct (_ && _); cbn; [|split_and!; try done; lra].
  destruct (Qle_bool _ (tb_capacity b)) eqn:E; cbn; split_and!; try done; try lra; [by apply Qle_bool_iff|].
  apply Qlt_le_weak, Qnot_le_lt. intros H. apply Qle_bool_iff in H. exact (eq_true_false_abs _ H E).
Qed.

Lemma granted_bound times b : (0 <= tb_refill_per_sec b)%Q -> (0 <= tb_tokens b)%Q -> (tb_tokens b <= tb_capacity b)%Q ->
  in_order (tb_lastMs b) times ->
  let '(n, b') := granted b times in
  tb_lastMs b' = List.last times (tb_lastMs b) /\ (0 <= tb_tokens b')%Q /\
  (inject_Z n + tb_tokens b' <=
     tb_tokens b + inject_Z (tb_lastMs b' - tb_lastMs b) / inject_Z 1000 * tb_refill_per_sec b)%Q.
Proof.
  revert b. induction times as [|t times IH]; intros b Hr H0 Ht Ho; cbn [granted].
  - split_and!; [done..|]. rewrite Z.sub_diag. change (inject_Z 0) with 0%Q. unfold Qdiv. lra.
  - destruct Ho as [Hle Ho]. unfold tryAcquire. change (n_le (n_of 1) (n_of 0)) with false. cbn iota.
    destruct (refill_exact t b Hr Ht Hle) as (E1 & E2 & E3 & E0 & E4 & E5).
    set (b1 := refill_locked t b) in *. clearbody b1.
    assert (S : forall n b2 b', tb_capacity b2 = tb_capacity b -> tb_refill_per_sec b2 = tb_refill_per_sec b -> tb_lastMs b2 = t ->
      (tb_tokens b2 + inject_Z n <= tb_tokens b1)%Q -> (0 <= tb_tokens b2)%Q ->
      forall m, (tb_lastMs b' = List.last times (tb_lastMs b2) /\ (0 <= tb_tokens b')%Q /\
        (inject_Z m + tb_tokens b' <= tb_tokens b2 + inject_Z (tb_lastMs b' - tb_lastMs b2) / inject_Z 1000 * tb_refill_per_sec b2)%Q) ->
      tb_lastMs b' = List.last (t :: times) (tb_lastMs b) /\ (0 <= tb_tokens b')%Q /\
      (inject_Z (m + n) + tb_tokens b' <= tb_tokens b + inject_Z (tb_lastMs b' - tb_lastMs b) / inject_Z 1000 * tb_refill_per_sec b)%Q).
    { intros n b2 b' F1 F2 F3 F4 F5 m (G1 & G2 & G3). rewrite F3 in *. rewrite F2 in *. split_and!; [|done|].
      - rewrite G1. destruct times as [|t' times]; [done|]. apply (last_default t' times).
      - replace (tb_lastMs b' - tb_lastMs b) with ((tb_lastMs b' - t) + (t - tb_lastMs b)) by lia.
        rewrite !inject_Z_plus. unfold Qdiv in *.
        set (x := inject_Z (tb_lastMs b' - t)) in *. set (y := inject_Z (t - tb_lastMs b)) in *. 
        rewrite !Qmult_plus_distr_l. lra. }
    destruct (n_le (n_of 1) (tb_tokens b1)) eqn:Eq.
    + apply Qle_bool_iff in Eq. change (n_of 1) with 1%Q in *.
      set (b2 := b1 <| tb_tokens := n_sub (tb_tokens b1) 1%Q |>).
      assert (B2 : (tb_tokens b2 + 1 <= tb_tokens b1)%Q /\ (0 <= tb_tokens b2)%Q /\ (tb_tokens b2 <= tb_capacity b2)%Q).
      { unfold b2. cbn. rewrite E1. split_and!; lra. }
      destruct B2 as (B1 & B2 & B3). specialize (IH b2). destruct (granted b2 times) as [m b'].
      apply (S 1 b2 b'); try done. apply IH; try done; unfold b2; cbn; [by rewrite E2|by rewrite E3].
    + specialize (IH b1). destruct (granted b1 times) as [m b']. rewrite <- (Z.add_0_r m).
      apply (S 0 b1 b'); try done; [|lra|]; [change (inject_Z 0) with 0%Q; lra|].
      rewrite E1, E2, E3 in *. apply IH; try done. lra.
Qed.
End exact.

(** ** The table *)

Section table.
Context {A : Arith}.

Lemma evict_oldest_sub hits k h : evict_oldest hits !! k = Some h -> hits !! k = Some h.
Proof.
  unfold evict_oldest. destruct (_ <? _); [|done]. generalize (take (size hits / 5)
    (isort age_lt (map (fun kv : string * Hit => (h_winStartMs kv.2, kv.1)) (map_to_list hits)))) as l.
  intros l. revert hits. induction l as [|a l IH]; intros hits; [done|]. cbn [fold_left]. intros E.
  apply IH in E. by apply lookup_delete_Some in E as [_ E].
Qed.

Lemma cleanup_hits now w st k h : rs_hits (cleanupLocked now w st) !! k = Some h -> rs_hits st !! k = Some h.
Proof. intros E. apply evict_oldest_sub in E. by apply map_lookup_filter_Some in E as [E _]. Qed.

Lemma cleanup_buckets now w st : rs_buckets (cleanupLocked now w st) ⊆ rs_buckets st.
Proof. apply map_filter_subseteq. Qed.

(** The state [get] works on once it has swept the table. *)
Definition swept (windowMs now : Z) (st : RateState) : RateState :=
  if (rs_nextCleanupMs st =? 0) || (rs_nextCleanupMs st <=? now) then cleanupLocked now windowMs st else st.

Lemma swept_sub w now st : rs_buckets (swept w now st) ⊆ rs_buckets st /\ rs_heap (swept w now st) = rs_heap st /\
  rs_fresh (swept w now st) = rs_fresh st /\ rs_bucketMax (swept w now st) = rs_bucketMax st /\
  (forall k h, rs_hits (swept w now st) !! k = Some h -> rs_hits st !! k = Some h).
Proof.
  unfold swept. destruct (_ || _); [|done]. split; [apply cleanup_buckets|]. split_and!; try done. apply cleanup_hits.
Qed.

(** What [get] answers. *)
Lemma get_spec k cap refill w now st p st' : get k cap refill w now st = (p, st') ->
  let s := swept w now st in
  rs_hits st' = rs_hits s /\ rs_bucketMax st' = rs_bucketMax s /\
  ((exists e, rs_buckets s !! k = Some e /\ p = e_bucket e /\ rs_heap st' = rs_heap s /\ rs_fresh st' = rs_fresh s /\
      rs_buckets st' = <[k := e <| e_lastSeenMs := now |>]> (rs_buckets s) /\
      n_eq (e_capacity e) cap && n_eq (e_refillPerSec e) refill = true) \/
   (p = FULL /\ rs_heap st' = rs_heap s /\ rs_fresh st' = rs_fresh s /\ rs_bucketMax s <= Z.of_nat (size (rs_buckets st')) /\
      (rs_buckets s !! k = None /\ rs_buckets st' = rs_buckets s \/
       exists e, rs_buckets s !! k = Some e /\ rs_buckets st' = <[k := e <| e_lastSeenMs := now |>]> (rs_buckets s))) \/
   (p = rs_fresh s /\ rs_fresh st' = S p /\ rs_heap st' = <[p := bucket_init cap refill now]> (rs_heap s) /\
      rs_buckets st' = <[k := mkEntry p now cap refill]> (rs_buckets s) /\
      Z.of_nat (size (rs_buckets s)) < rs_bucketMax s)).
Proof.
  unfold get. fold (swept w now st). set (s := swept w now st). cbv zeta.
  destruct (rs_buckets s !! k) as [e|] eqn:Ek.
  - assert (Es : size (<[k := e <| e_lastSeenMs := now |>]> (rs_buckets s)) = size (rs_buckets s)).
    { by rewrite map_size_insert_Some by by exists e. }
    destruct (_ && _) eqn:Ec.
    + intros [= <- <-]. split; [done|]. split; [done|]. left. exists e. by split_and!.
    + cbn in Es |- *. rewrite Es. destruct (_ <=? _) eqn:Em; intros [= <- <-]; (split; [done|]); (split; [done|]); right; b2p.
      * left. split_and!; try done. { cbn. by rewrite Es. } right. by exists e.
      * right. cbn. split_and!; try done. by rewrite insert_insert_eq.
  - destruct (_ <=? _) eqn:Em; intros [= <- <-]; (split; [done|]); (split; [done|]); right; b2p.
    + left. split_and!; try done. by left.
    + right. by split_and!.
Qed.

(** Every entry has a bucket of its own. *)
Record tidy (st : RateState) : Prop := {
  ty_max : Z.of_nat (size (rs_buckets st)) <= rs_bucketMax st;
  ty_full : is_Some (rs_heap st !! FULL);
  ty_fresh : (0 < rs_fresh st)%nat;
  ty_place : forall k e, rs_buckets st !! k = Some e ->
    is_Some (rs_heap st !! e_bucket e) /\ (0 < e_bucket e < rs_fresh st)%nat;
  ty_own : forall k k' e e', rs_buckets st !! k = Some e -> rs_buckets st !! k' = Some e' -> e_bucket e = e_bucket e' -> k = k' }.

Definition bucket_of (st : RateState) (k : string) : option TokenBucket :=
  match rs_buckets st !! k with Some e => rs_heap st !! e_bucket e | None => None end.

Lemma tidy_sub st st' : rs_buckets st' ⊆ rs_buckets st -> rs_heap st' = rs_heap st -> rs_fresh st' = rs_fresh st ->
  rs_bucketMax st' = rs_bucketMax st -> tidy st -> tidy st'.
Proof.
  intros Hs Eh Ef Em [H1 H2 H3 H4 H5]. split; rewrite ?Eh, ?Ef, ?Em; try done.
  - pose proof (map_subseteq_size _ _ Hs). lia.
  - intros k e E. apply (H4 k). by eapply lookup_weaken.
  - intros k k' e e' E E'. apply H5; by eapply lookup_weaken.
Qed.

(** Only when it was last seen changes. *)
Lemma tidy_seen st st' k e now : rs_buckets st !! k = Some e -> rs_buckets st' = <[k := e <| e_lastSeenMs := now |>]> (rs_buckets st) ->
  rs_heap st' = rs_heap st -> rs_fresh st' = rs_fresh st -> rs_bucketMax st' = rs_bucketMax st -> tidy st ->
  tidy st' /\ forall k', bucket_of st' k' = bucket_of st k'.
Proof.
  intros Ek Eb Eh Ef Em [H1 H2 H3 H4 H5].
  assert (X : forall k' e', rs_buckets st' !! k' = Some e' -> exists e0, rs_buckets st !! k' = Some e0 /\ e_bucket e0 = e_bucket e').
  { intros k' e'. rewrite Eb. destruct (decide (k = k')) as [<-|Hk]; [rewrite lookup_insert_eq; intros [= <-]; by exists e|].
    rewrite lookup_insert_ne by done. intros E. by exists e'. }
  split; [split; rewrite ?Eh, ?Ef, ?Em; try done|].
  - rewrite Eb, map_size_insert_Some by by exists e. done.
  - intros k' e' E. destruct (X _ _ E) as (e0 & E0 & <-). by eapply H4.
  - intros k1 k2 e1 e2 E1 E2 E. destruct (X _ _ E1) as (f1 & F1 & G1), (X _ _ E2) as (f2 & F2 & G2).
    apply (H5 k1 k2 f1 f2); congruence.
  - intros k'. unfold bucket_of. rewrite Eb, Eh. destruct (decide (k = k')) as [<-|Hk]; [by rewrite lookup_insert_eq, Ek|].
    by rewrite lookup_insert_ne.
Qed.

Lemma swept_tidy w now st : tidy st -> tidy (swept w now st).
Proof. destruct (swept_sub w now st) as (S1 & S2 & S3 & S4 & _). by apply tidy_sub. Qed.

(** What is left of a key: its bucket, unless it was not asked for in ten minutes. *)
Definition kept (now : Z) (st st' : RateState) (k : string) : Prop :=
  bucket_of st' k = bucket_of st k \/
  bucket_of st' k = None /\ exists e, rs_buckets st !! k = Some e /\ e_lastSeenMs e + 600000 < now.

Lemma swept_kept w now st k : kept now st (swept w now st) k.
Proof.
  unfold kept, swept. destruct (_ || _); [|by left]. unfold bucket_of. cbn.
  rewrite map_lookup_filter. destruct (rs_buckets st !! k) as [e|] eqn:E; cbn; [|by left].
  case_guard as Hs; cbn; [by left|right]. split; [done|]. exists e. split; [done|].
  unfold stale, kBucketIdleTtlMs in Hs. destruct (_ && _) eqn:Eb in Hs; [b2p; lia|done].
Qed.

Lemma get_tidy k cap refill w now st p st' : tidy st -> get k cap refill w now st = (p, st') ->
  tidy st' /\ (forall k', k' <> k -> kept now st st' k') /\
  (p = FULL \/ exists e, rs_buckets st' !! k = Some e /\ e_bucket e = p).
Proof.
  intros Ht Eg. apply get_spec in Eg. set (s := swept w now st) in *. destruct Eg as (_ & Em & H).
  pose proof (swept_tidy w now st Ht) as Hs. fold s in Hs. pose proof (swept_kept w now st) as Hk. fold s in Hk.
  destruct H as [(e & Ek & -> & Eh & Ef & Eb & _)|[(-> & Eh & Ef & _ & [[_ Eb]|(e & Ek & Eb)])|(-> & Ef & Eh & Eb & Hm)]].
  - destruct (tidy_seen s st' k e now Ek Eb Eh Ef Em Hs) as [T B]. split; [done|]. split.
    + intros k' _. unfold kept. rewrite B. apply Hk.
    + right. eexists. rewrite Eb, lookup_insert_eq. by split.
  - split; [|split; [|by left]].
    + by apply (tidy_sub s); rewrite ?Eb.
    + intros k' _. assert (E : bucket_of st' k' = bucket_of s k') by (unfold bucket_of; by rewrite Eb, Eh). unfold kept. rewrite E. apply Hk.
  - destruct (tidy_seen s st' k e now Ek Eb Eh Ef Em Hs) as [T B]. split; [done|]. split; [|by left].
    intros k' _. unfold kept. rewrite B. apply Hk.
  - destruct Hs as [H1 H2 H3 H4 H5]. split; [|split].
    + split.
      * rewrite Eb, Em. destruct (rs_buckets s !! k) eqn:E; [rewrite map_size_insert_Some by (by eexists); lia|].
        rewrite map_size_insert_None by done. lia.
      * rewrite Eh. rewrite lookup_insert_ne; [done|]. unfold FULL. lia.
      * rewrite Ef. lia.
      * rewrite Eb, Ef, Eh. intros k' e'. destruct (decide (k = k')) as [<-|Hn].
        -- rewrite lookup_insert_eq. intros [= <-]. cbn. rewrite lookup_insert_eq. split; [done|lia].
        -- rewrite lookup_insert_ne by done. intros E. destruct (H4 _ _ E). rewrite lookup_insert_ne by lia. split; [done|lia].
      * rewrite Eb. intros k1 k2 e1 e2.
        destruct (decide (k = k1)) as [<-|N1], (decide (k = k2)) as [<-|N2]; rewrite ?lookup_insert_eq, ?lookup_insert_ne by done;
          try done; intros E1 E2 E; try (by eapply H5); exfalso; simplify_eq;
          [destruct (H4 _ _ E2)|destruct (H4 _ _ E1)]; cbn in E; lia.
    + intros k' Hn. assert (E : bucket_of st' k' = bucket_of s k'); [|unfold kept; rewrite E; apply Hk].
      unfold bucket_of. rewrite Eb, lookup_insert_ne by done. destruct (rs_buckets s !! k') as [e'|] eqn:E; [|done].
      rewrite Eh, lookup_insert_ne; [done|]. destruct (H4 _ _ E). lia.
    + right. eexists. rewrite Eb, lookup_insert_eq. by split.
Qed.

Lemma acquire_tidy p n now st ok retry st' : acquire p n now st = (ok, retry, st') -> tidy st ->
  tidy st' /\ rs_buckets st' = rs_buckets st /\ rs_hits st' = rs_hits st /\
  forall k, (forall e, rs_buckets st !! k = Some e -> e_bucket e <> p) -> bucket_of st' k = bucket_of st k.
Proof.
  unfold acquire. destruct (rs_heap st !! p) as [b|] eqn:Eb; [|by intros [= <- <- <-]].
  destruct (tryAcquire n now b) as [[o r] b']. intros [= <- <- <-] [H1 H2 H3 H4 H5]. split_and!; try done.
  - split; cbn; try done.
    + destruct (decide (p = FULL)) as [->|Hn]; [by rewrite lookup_insert_eq|by rewrite lookup_insert_ne].
    + intros k e E. destruct (H4 k e E). split; [|done]. destruct (decide (p = e_bucket e)) as [->|Hn]; [by rewrite lookup_insert_eq|].
      by rewrite lookup_insert_ne.
  - intros k Hk. unfold bucket_of. cbn. destruct (rs_buckets st !! k) as [e|]; [|done]. rewrite lookup_insert_ne; [done|].
    intros ->. by apply (Hk e).
Qed.
End table.

(** ** Reports *)

Section reports.
Context {A : Arith} (hitsMax windowMs : Z).

(** What the limiter is asked, by any thread and for any request. *)
Inductive RateOp := Q_GET (k : string) (cap refill : num) (now : Z) | Q_ACQUIRE (p : nat) (now : Z) | Q_429 (ip : string) (now : Z).

(** A step, and the report it gives rise to: an address and the start of its window. *)
Definition rate_step (op : RateOp) (st : RateState) : list (string * Z) * RateState :=
  match op with
  | Q_GET k cap refill now => ([], (get k cap refill windowMs now st).2)
  | Q_ACQUIRE p now => ([], (acquire p (n_of 1) now st).2)
  | Q_429 ip now => let '(win, st) := bump429 ip hitsMax windowMs now st in ((if win =? 0 then [] else [(ip, win)]), st)
  end.

Definition rate_run (ops : list RateOp) (st : RateState) : list (string * Z) * RateState :=
  fold_left (fun s op => let '(r, st) := rate_step op s.2 in (s.1 ++ r, st)) ops ([], st).

(** When an address was refused. *)
Definition refused_at (ip : string) (op : RateOp) : list Z :=
  match op with Q_429 ip' now => if String.eqb ip' ip then [now] else [] | _ => [] end.
Definition refusals (ip : string) (ops : list RateOp) : list Z := flat_map (refused_at ip) ops.

Definition reports_of (ip : string) (reports : list (string * Z)) : Z :=
  Z.of_nat (length (List.filter (fun r : string * Z => String.eqb r.1 ip) reports)).

(** The refusals of an address from a moment on, within the window. *)
Definition in_window (win : Z) (times : list Z) : Z :=
  Z.of_nat (length (List.filter (fun t => (win <=? t) && (t <=? win + windowMs)) times)).

Definition hits_of (st : RateState) (ip : string) : Z := match rs_hits st !! ip with Some h => h_n h | None => 0 end.

Record counted (ops : list RateOp) (s : list (string * Z) * RateState) : Prop := {
  cn_range : forall ip h, rs_hits s.2 !! ip = Some h -> 0 <= h_n h < hitsMax;
  cn_window : forall ip h, rs_hits s.2 !! ip = Some h -> h_n h <= in_window (h_winStartMs h) (refusals ip ops);
  cn_total : forall ip, hitsMax * reports_of ip s.1 + hits_of s.2 ip <= Z.of_nat (length (refusals ip ops)) }.

Context (Hmax : 1 <= hitsMax <= UINT32_MAX) (Hwin : 0 <= windowMs).

Lemma refusals_snoc ip ops op : refusals ip (ops ++ [op]) = refusals ip ops ++ refused_at ip op.
Proof. unfold refusals. rewrite flat_map_app. cbn. by rewrite app_nil_r. Qed.

Lemma in_window_app win l l' : in_window win (l ++ l') = in_window win l + in_window win l'.
Proof. unfold in_window. rewrite List.filter_app, length_app. lia. Qed.

Lemma in_window_nonneg win l : 0 <= in_window win l.
Proof. unfold in_window. lia. Qed.

(** Steps that count nothing. *)
Lemma counted_quiet ops op s st' : (forall ip h, rs_hits st' !! ip = Some h -> rs_hits s.2 !! ip = Some h) ->
  counted ops s -> counted (ops ++ [op]) (s.1 ++ [], st').
Proof.
  intros Hs [H1 H2 H3]. split; cbn.
  - intros ip h E. by apply (H1 ip), Hs.
  - intros ip h E. rewrite refusals_snoc, in_window_app. pose proof (H2 ip h (Hs _ _ E)).
    pose proof (in_window_nonneg (h_winStartMs h) (refused_at ip op)). lia.
  - intros ip. rewrite refusals_snoc, app_nil_r, length_app. specialize (H3 ip). unfold hits_of in *. specialize (Hs ip).
    destruct (rs_hits st' !! ip) as [h|]; [rewrite (Hs h eq_refl) in H3; lia|].
    destruct (rs_hits s.2 !! ip) as [h|] eqn:E; [pose proof (H1 ip h E)|]; lia.
Qed.

(** One more refusal. *)
Lemma bump429_spec ip now st win st' : bump429 ip hitsMax windowMs now st = (win, st') ->
  (forall h, rs_hits st !! ip = Some h -> 0 <= h_n h < hitsMax) ->
  exists h, (h = mkHit 0 now \/ (rs_hits st !! ip = Some h /\ h_winStartMs h <= now <= h_winStartMs h + windowMs)) /\ 0 <= h_n h < hitsMax /\
    if hitsMax <=? h_n h + 1 then win = h_winStartMs h /\ st' = st <| rs_hits := <[ip := mkHit 0 now]> (rs_hits st) |>
    else win = 0 /\ st' = st <| rs_hits := <[ip := mkHit (h_n h + 1) (h_winStartMs h)]> (rs_hits st) |>.
Proof.
  unfold bump429. intros E Hr.
  set (h0 := default (mkHit 0 0) (rs_hits st !! ip)) in *. set (h := if _ || _ then mkHit 0 now else h0) in *.
  assert (Hh : (h = mkHit 0 now \/ (rs_hits st !! ip = Some h /\ h_winStartMs h <= now <= h_winStartMs h + windowMs)) /\ 0 <= h_n h < hitsMax).
  { unfold h. destruct (_ || _) eqn:Eb; [split; [by left|cbn; lia]|]. b2p. unfold h0 in *.
    destruct (rs_hits st !! ip) as [h1|]; [|done]. cbn [default from_option id] in *.
    split; [right; split; [done|lia]|by apply Hr]. }
  destruct Hh as [Hh Hn]. exists h. split; [done|]. split; [done|].
  replace (wrap32 (h_n h + 1)) with (h_n h + 1) in E by (symmetry; apply wrap32_id; unfold is_u32, UINT32_MAX in *; lia).
  cbn in E. clearbody h. destruct (hitsMax <=? h_n h + 1); by injection E as <- <-.
Qed.

Lemma reports_of_app ip l l' : reports_of ip (l ++ l') = reports_of ip l + reports_of ip l'.
Proof. unfold reports_of. rewrite List.filter_app, length_app. lia. Qed.

Lemma counted_429 ops ip now s win st' : 0 < now -> counted ops s -> bump429 ip hitsMax windowMs now s.2 = (win, st') ->
  counted (ops ++ [Q_429 ip now]) (s.1 ++ (if win =? 0 then [] else [(ip, win)]), st') /\
  (win <> 0 -> hitsMax <= in_window win (refusals ip (ops ++ [Q_429 ip now]))).
Proof.
  intros Hnow [H1 H2 H3] E. apply bump429_spec in E as (h & Hh & Hn & E); [|apply H1].
  assert (Hw : h_n h + 1 <= in_window (h_winStartMs h) (refusals ip (ops ++ [Q_429 ip now]))).
  { rewrite refusals_snoc, in_window_app. unfold refused_at, in_window at 2. rewrite String.eqb_refl. cbn.
    assert (Hi : (h_winStartMs h <=? now) && (now <=? h_winStartMs h + windowMs) = true).
    { destruct Hh as [->|[_ Hh]]; apply andb_true_iff; rewrite !Z.leb_le; cbn; lia. }
    rewrite Hi. cbn [length]. destruct Hh as [->|[Eh _]]; [|pose proof (H2 ip h Eh); lia].
    cbn. pose proof (in_window_nonneg now (refusals ip ops)). lia. }
  assert (Hk : h_n h <= hits_of s.2 ip).
  { unfold hits_of. destruct Hh as [->|[-> _]]; [|lia]. cbn. destruct (rs_hits s.2 !! ip) as [h'|] eqn:E'; [|lia].
    by pose proof (H1 ip h' E'); lia. }
  assert (Ho : forall ip' v st, rs_hits st = <[ip := v]> (rs_hits s.2) -> ip' <> ip -> rs_hits st !! ip' = rs_hits s.2 !! ip').
  { intros ip' v st Es Hne. rewrite Es. by apply lookup_insert_ne. }
  set (v := if hitsMax <=? h_n h + 1 then mkHit 0 now else mkHit (h_n h + 1) (h_winStartMs h)).
  assert (Es : rs_hits st' = <[ip := v]> (rs_hits s.2)) by (unfold v; destruct (hitsMax <=? h_n h + 1); destruct E as [_ ->]; done).
  assert (Hv : 0 <= h_n v < hitsMax) by (unfold v; destruct (hitsMax <=? h_n h + 1) eqn:Ec; b2p; cbn; lia).
  split; [split; cbn|].
  - intros ip' h'. destruct (decide (ip' = ip)) as [->|Hne]; [|rewrite (Ho ip' v) by done; apply H1].
    rewrite Es, lookup_insert_eq. by intros [= <-].
  - intros ip' h'. destruct (decide (ip' = ip)) as [->|Hne].
    + rewrite Es, lookup_insert_eq. intros [= <-]. unfold v in *. destruct (hitsMax <=? h_n h + 1); [|exact Hw].
      apply in_window_nonneg.
    + rewrite (Ho ip' v) by done. intros E'. rewrite refusals_snoc, in_window_app. pose proof (H2 _ _ E').
      pose proof (in_window_nonneg (h_winStartMs h') (refused_at ip' (Q_429 ip now))). lia.
  - intros ip'. rewrite refusals_snoc, reports_of_app, length_app. specialize (H3 ip'). unfold refused_at.
    destruct (decide (ip' = ip)) as [->|Hne].
    + rewrite String.eqb_refl. unfold hits_of at 1. rewrite Es, lookup_insert_eq. cbn [length].
      assert (Hr : reports_of ip (if win =? 0 then [] else [(ip, win)]) = if win =? 0 then 0 else 1).
      { destruct (win =? 0); [done|]. unfold reports_of. cbn. by rewrite String.eqb_refl. }
      rewrite Hr. unfold v in *. destruct (hitsMax <=? h_n h + 1) eqn:Ec; destruct E as [-> _]; b2p; cbn [h_n].
      * destruct (_ =? 0); lia.
      * cbn. lia.
    + assert (En : String.eqb ip ip' = false) by (by apply String.eqb_neq). rewrite En. unfold hits_of in *.
      rewrite (Ho ip' v) by done.
      assert (Hr : reports_of ip' (if win =? 0 then [] else [(ip, win)]) = 0).
      { destruct (win =? 0); [done|]. unfold reports_of. cbn. by rewrite En. }
      rewrite Hr. cbn. lia.
  - intros Hw0. destruct (hitsMax <=? h_n h + 1) eqn:Ec; destruct E as [-> _]; b2p; lia.
Qed.

(** No clock reads 0. *)
Definition timed (op : RateOp) : Prop := match op with Q_429 _ now => 0 < now | _ => True end.

Lemma rate_run_snoc ops op st :
  rate_run (ops ++ [op]) st =
  ((rate_run ops st).1 ++ (rate_step op (rate_run ops st).2).1, (rate_step op (rate_run ops st).2).2).
Proof. unfold rate_run. rewrite fold_left_app. cbn. by destruct (rate_step op _). Qed.

Lemma rate_run_counted st ops : rs_hits st = ∅ -> Forall timed ops -> counted ops (rate_run ops st).
Proof.
  intros H0. induction ops as [|op ops IH] using rev_ind; intros Ht.
  - split; cbn; rewrite ?H0; try done. intros ip. unfold hits_of, reports_of. cbn. rewrite H0, lookup_empty. lia.
  - apply Forall_app in Ht as [Ht Hop]. apply Forall_cons in Hop as [Hop _]. specialize (IH Ht). rewrite rate_run_snoc.
    destruct op as [k cap refill now|p now|ip now]; cbn [rate_step].
    + apply counted_quiet; [|done]. cbn. intros ip h E. destruct (get k cap refill windowMs now _) as [p st'] eqn:Eg.
      apply get_spec in Eg as (Eh & _). cbn in E. rewrite Eh in E. by apply (swept_sub windowMs now) in E.
    + apply counted_quiet; [|done]. intros ip h E. unfold acquire in E. destruct (_ !! p); [|done].
      by destruct (tryAcquire (n_of 1) now t) as [[? ?] ?].
    + destruct (bump429 ip hitsMax windowMs now (rate_run ops st).2) as [win st'] eqn:Eb. cbn.
      by destruct (counted_429 ops ip now (rate_run ops st) win st' Hop IH Eb).
Qed.
End reports.

(** An address is reported for too many refusals only when it has them: of each address
    there are never more reports than its refusals divided by the threshold, whatever the
    other requests do and whenever the tables are swept; and the refusals a report stands
    for all lie within one window from the moment it names. *)
Theorem rate_reports {A : Arith} (hitsMax windowMs : Z) (st : RateState) (ops : list RateOp) (ip : string) :
  1 <= hitsMax <= UINT32_MAX -> 0 <= windowMs -> rs_hits st = ∅ -> Forall timed ops ->
  hitsMax * reports_of ip (rate_run hitsMax windowMs ops st).1 <= Z.of_nat (length (refusals ip ops)) /\
  (forall ops0 now win, ops = ops0 ++ [Q_429 ip now] ->
     (rate_step hitsMax windowMs (Q_429 ip now) (rate_run hitsMax windowMs ops0 st).2).1 = [(ip, win)] ->
     hitsMax <= in_window windowMs win (refusals ip ops)).
Proof.
  intros Hm Hw H0 Ht. pose proof (rate_run_counted hitsMax windowMs Hm Hw st ops H0 Ht) as [Hr _ Hc]. split.
  - specialize (Hc ip). unfold hits_of in Hc. destruct (rs_hits _ !! ip) as [h|] eqn:E; [pose proof (Hr ip h E)|]; lia.
  - intros ops0 now win -> E. apply Forall_app in Ht as [Ht Hn]. apply Forall_cons in Hn as [Hn _]. cbn in E.
    destruct (bump429 ip hitsMax windowMs now _) as [w st'] eqn:Eb. cbn in E. destruct (w =? 0) eqn:Ew; [done|].
    injection E as ->. b2p. 
    destruct (counted_429 hitsMax windowMs Hm Hw ops0 ip now (rate_run hitsMax windowMs ops0 st) win st' Hn
      (rate_run_counted hitsMax windowMs Hm Hw st ops0 H0 Ht) Eb) as [_ Hb]. by apply Hb.
Qed.

(** ** Keys do not disturb one another *)

(** What the limiter does for one request. *)
Definition ask {A : Arith} (k : string) (cap refill : num) (windowMs now now' : Z) (st : RateState) : bool * Z * RateState :=
  let '(p, st) := get k cap refill windowMs now st in acquire p (n_of 1) now' st.

Lemma rate_init_tidy {A : Arith} bucketMax now : 0 <= bucketMax -> tidy (rate_init bucketMax now).
Proof.
  intros H. split; cbn; try done; [|lia]. rewrite map_size_empty. destruct (bucketMax =? 0); lia.
Qed.

Lemma rate_run_tidy {A : Arith} hitsMax windowMs ops st : tidy st ->
  tidy (rate_run hitsMax windowMs ops st).2 /\ rs_bucketMax (rate_run hitsMax windowMs ops st).2 = rs_bucketMax st.
Proof.
  intros Ht. induction ops as [|op ops [IH Em]] using rev_ind; [done|]. rewrite rate_run_snoc. cbn [snd].
  set (s := (rate_run hitsMax windowMs ops st).2) in *. rewrite <- Em. destruct op as [k cap refill now|p now|ip now]; cbn [rate_step].
  - destruct (get k cap refill windowMs now s) as [p st'] eqn:Eg. split; [by apply get_tidy in Eg as [? _]|].
    cbn [snd]. apply get_spec in Eg as (_ & -> & _). by destruct (swept_sub windowMs now s) as (_ & _ & _ & -> & _).
  - destruct (acquire p (n_of 1) now s) as [[o r] st'] eqn:Ea. split; [by apply acquire_tidy in Ea as [? _]|].
    unfold acquire in Ea. cbn [snd]. destruct (rs_heap s !! p) as [b|]; [|by injection Ea as <- <- <-].
    destruct (tryAcquire _ _ _) as [[? ?] ?]. by injection Ea as <- <- <-.
  - unfold bump429. destruct IH. by destruct (hitsMax <=? _).
Qed.

Lemma ask_kept {A : Arith} k cap refill windowMs now now' st ok retry st' : tidy st ->
  ask k cap refill windowMs now now' st = (ok, retry, st') ->
  tidy st' /\ forall k', k' <> k -> kept now st st' k'.
Proof.
  unfold ask. intros Ht E. destruct (get k cap refill windowMs now st) as [p s] eqn:Eg.
  apply get_tidy in Eg as (Hs & Hk & Hp); [|done]. apply acquire_tidy in E as (Ht' & Eb & _ & Ho); [|done].
  split; [done|]. intros k' Hn. unfold kept. rewrite Ho; [by apply Hk|]. intros e E <-. destruct Hs as [_ _ _ H4 H5]. destruct Hp as [Hp|(e0 & E0 & Hp)].
  - destruct (H4 _ _ E). unfold FULL in Hp. lia.
  - by apply Hn, (H5 k' k e e0).
Qed.

(** When a key was asked for last. *)
Fixpoint last_asked {A : Arith} (k : string) (ops : list RateOp) (t : option Z) : option Z :=
  match ops with
  | [] => t
  | Q_GET k' _ _ now :: ops => last_asked k ops (if String.eqb k' k then Some now else t)
  | _ :: ops => last_asked k ops t
  end.

Lemma last_asked_snoc {A : Arith} k ops op t : last_asked k (ops ++ [op]) t =
  match op with Q_GET k' _ _ now => if String.eqb k' k then Some now else last_asked k ops t | _ => last_asked k ops t end.
Proof.
  revert t. induction ops as [|o ops IH]; intros t; cbn; [by destruct op|]. destruct o; by rewrite IH.
Qed.

(** The table knows it. *)
Lemma run_last_asked {A : Arith} hitsMax windowMs ops bucketMax now0 k e :
  rs_buckets (rate_run hitsMax windowMs ops (rate_init bucketMax now0)).2 !! k = Some e -> last_asked k ops None = Some (e_lastSeenMs e).
Proof.
  revert k e. induction ops as [|op ops IH] using rev_ind; intros k e; [cbn; by rewrite lookup_empty|].
  rewrite rate_run_snoc, last_asked_snoc. cbn [snd]. set (s := (rate_run _ _ ops _).2) in *.
  destruct op as [k' cap refill now|p now|ip now]; cbn [rate_step].
  - destruct (get k' cap refill windowMs now s) as [p st'] eqn:Eg. cbn [snd]. apply get_spec in Eg as (_ & _ & H).
    destruct (swept_sub windowMs now s) as (Hsub & _).
    assert (Hold : rs_buckets (swept windowMs now s) !! k = Some e -> last_asked k ops None = Some (e_lastSeenMs e))
      by (intros E; apply IH; by eapply lookup_weaken).
    destruct (String.eqb k' k) eqn:Ek.
    + apply String.eqb_eq in Ek as ->. destruct H as [(e0 & _ & _ & _ & _ & -> & _)|[(_ & _ & _ & _ & [[En ->]|(e0 & _ & ->)])|(_ & _ & _ & -> & _)]];
        try (rewrite lookup_insert_eq; by intros [= <-]).
      by rewrite En.
    + apply String.eqb_neq in Ek. destruct H as [(e0 & _ & _ & _ & _ & -> & _)|[(_ & _ & _ & _ & [[_ ->]|(e0 & _ & ->)])|(_ & _ & _ & -> & _)]];
        rewrite ?lookup_insert_ne by done; exact Hold.
  - unfold acquire. destruct (_ !! p); [|apply IH]. destruct (tryAcquire _ _ _) as [[? ?] ?]. apply IH.
  - unfold bump429. by destruct (hitsMax <=? _); apply IH.
Qed.

(** C9: whatever the limiter was asked before, it keeps no more keys than its bound, and a
    request on one key leaves the bucket of every other key as it is, unless nobody asked for
    that key in the last ten minutes, and then it may drop it: no client uses up or resets the
    tokens of another one. *)
Theorem limiter_isolated {A : Arith} (bucketMax now0 hitsMax windowMs : Z) (ops : list RateOp)
    (k : string) (cap refill : num) (now now' : Z) :
  0 <= bucketMax ->
  let st := (rate_run hitsMax windowMs ops (rate_init bucketMax now0)).2 in
  Z.of_nat (size (rs_buckets st)) <= Z.max 1 bucketMax /\
  forall k', k' <> k ->
    let st' := (ask k cap refill windowMs now now' st).2 in
    bucket_of st' k' = bucket_of st k' \/
    bucket_of st' k' = None /\ exists t, last_asked k' ops None = Some t /\ t + 600000 < now.
Proof.
  intros H st. destruct (rate_run_tidy hitsMax windowMs ops _ (rate_init_tidy bucketMax now0 H)) as [Ht Em]. fold st in Ht, Em.
  split.
  - destruct Ht as [Ht _ _ _ _]. rewrite Em in Ht. cbn in Ht. destruct (bucketMax =? 0) eqn:E; b2p; lia.
  - intros k' Hn st'. unfold st'. destruct (ask k cap refill windowMs now now' st) as [[ok retry] s'] eqn:E.
    apply ask_kept in E as [_ E]; [|done]. destruct (E k' Hn) as [|(Hd & e & Ee & Hi)]; [by left|right].
    split; [done|]. exists (e_lastSeenMs e). split; [by eapply run_last_asked|done].
Qed.

(** The rate of a bucket, in exact arithmetic and for a clock that does not go back: of
    the requests that ask it, no more get through than it holds at first and what is
    refilled until the last of them. *)
Theorem bucket_rate (capacity refillPerSec : Q) (t0 : Z) (times : list Z) : in_order t0 times ->
  (inject_Z (granted (bucket_init (A := exact) capacity refillPerSec t0) times).1 <=
   positive_or_zero (A := exact) capacity +
   inject_Z (List.last times t0 - t0) / inject_Z 1000 * positive_or_zero (A := exact) refillPerSec)%Q.
Proof.
  intros H. pose proof (granted_bound times (bucket_init (A := exact) capacity refillPerSec t0)) as G.
  destruct (granted _ times) as [n b']. cbn [fst]. destruct G as (G1 & G2 & G3).
  - apply positive_or_zero_nonneg.
  - apply positive_or_zero_nonneg.
  - apply Qle_refl.
  - done.
  - cbn [tb_lastMs bucket_init tb_tokens tb_refill_per_sec] in *. rewrite G1 in G3. lra.
Qed.

(** ** Doubles *)

Lemma double_positive_or_zero (x : num (Arith := double)) : n_lt x (n_of 0) = false \/ positive_or_zero x = n_of 0.
Proof.
  unfold positive_or_zero. destruct (n_finite x && n_lt (n_of 0) x) eqn:E; [left|by right]. apply andb_true_iff in E as [_ E].
  cbn in *. by destruct x as [[]|[]| |[] m e].
Qed.

(** The bucket a full table gives to new keys lets nothing through. *)
Lemma full_refuses now0 now :
  (tryAcquire (A := double) (n_of 1) now (bucket_init (n_of 0) (n_of 0) now0)).1 = (false, 1).
Proof. unfold tryAcquire, refill_locked, retry_after_locked. cbn. by destruct (now0 <? now). Qed.

(** The seconds a refused request is told are never none. *)
Lemma retry_range {A : Arith} (n : num) now (b : TokenBucket) ok retry b' : tryAcquire n now b = (ok, retry, b') ->
  if ok : bool then retry = 0 else 0 < retry <= UINT32_MAX.
Proof.
  unfold tryAcquire. destruct (n_le n (n_of 0)); [by intros [= <- <- <-]|]. destruct (n_le n (tb_tokens _)) eqn:E.
  - by intros [= <- <- <-].
  - intros [= <- <- _]. unfold retry_after_locked. rewrite E. cbv zeta. destruct (_ || _); [done|].
    destruct (n_le (n_div _ _) _); [done|].
    destruct (n_le _ (n_div _ _)); [done|]. generalize (n_ceil (n_div (n_sub n (tb_tokens (refill_locked now b)))
      (tb_refill_per_sec (refill_locked now b)))). intros z. pose proof (Z.mod_pos_bound z (2 ^ 32) eq_refl).
    unfold wrap32, UINT32_MAX. destruct (_ =? 0) eqn:E0; b2p; lia.
Qed.

(** ** Witnesses *)

Definition sample_ops : list (RateOp (A := double)) :=
  [Q_429 "a" 1000; Q_GET "k" (n_of 1) (n_of 1) 1001; Q_429 "b" 1002; Q_429 "a" 1003; Q_429 "a" 1004]%string.

Lemma rate_reports_witness :
  (rate_run 2 60000 sample_ops (rate_init (A := double) 10 0)).1 = [("a"%string, 1000)] /\
  2 * reports_of "a" (rate_run 2 60000 sample_ops (rate_init 10 0)).1 <= Z.of_nat (length (refusals "a" sample_ops)).
Proof.
  split; [by vm_compute|]. apply (rate_reports 2 60000 (rate_init (A := double) 10 0) sample_ops "a"); [done|done|done|].
  by repeat constructor.
Defined.

(** A bucket of two tokens, one a second: two of three requests at once, then one after a
    second. *)
Lemma bucket_rate_witness :
  (granted (bucket_init (A := exact) (inject_Z 2) (inject_Z 1) 0) [0; 0; 0; 1000; 1000]).1 = 3 /\
  (inject_Z 3 <= inject_Z 2 + inject_Z (1000 - 0) / inject_Z 1000 * inject_Z 1)%Q.
Proof.
  split; [by vm_compute|]. apply (bucket_rate (inject_Z 2) (inject_Z 1) 0 [0; 0; 0; 1000; 1000]). repeat split; lia.
Defined.

Lemma limiter_isolated_witness :
  let st := (rate_run 2 60000 sample_ops (rate_init (A := double) 1 0)).2 in
  Z.of_nat (size (rs_buckets st)) <= 1 /\
  is_Some (bucket_of st "k") /\ bucket_of (ask "l" (n_of 5) (n_of 1) 60000 1005 1005 st).2 "k" = bucket_of st "k".
Proof.
  destruct (limiter_isolated (A := double) 1 0 2 60000 sample_ops "l" (n_of 5) (n_of 1) 1005 1005) as [H1 H2]; [lia|].
  split; [exact H1|]. split; [eexists; vm_compute; reflexivity|]. destruct (H2 "k"%string) as [H|(H & _)]; [done|exact H|by vm_compute in H].
Defined.

(** The doubles of the code on the same times. *)
Example double_rate :
  let b0 := bucket_init (A := double) (n_of 2) (n_of 1) 0 in
  let '(ok1, _, b1) := tryAcquire (n_of 1) 0 b0 in
  let '(ok2, _, b2) := tryAcquire (n_of 1) 0 b1 in
  let '(ok3, wait3, b3) := tryAcquire (n_of 1) 500 b2 in
  let '(ok4, _, _) := tryAcquire (n_of 1) 1000 b3 in
  (ok1, ok2, ok3, wait3, ok4) = (true, true, false, 1, true).
Proof. by vm_compute. Qed.

(** A key whose limits were changed while the table is full gets the bucket that lets
    nothing through, although it has a place in the table. *)
Example changed_while_full :
  let st0 := (ask "k" (n_of 5) (n_of 1) 60000 1000 1000 (rate_init (A := double) 1 0)).2 in
  (get "k" (n_of 6) (n_of 1) 60000 1001 st0).1 = FULL /\ (ask "k" (n_of 6) (n_of 1) 60000 1001 1001 st0).1 = (false, 1).
Proof. by vm_compute. Qed.
