(* ===== verification/Ctx.v ===== *)
(** * A request on its way through the gateway (src/gateway/include/ctx.h, mw.h, mw.cpp, conn.cpp)

    The context of a request, the part of the client's connection that answers it, and the
    onion of middlewares. A middleware takes what comes after it as a function. The request
    object is shared by the connection and every middleware, so it lives once, in the
    connection. The invariant [settled] says what the state of the response promises about
    what was written; a middleware that keeps it is [lawful], and so is a chain of them. *)

From S2P Require Import Prelude Records Str HttpMsg Body Buf HttpParse Ip Rule Router RouteCache Breaker UpsGroup Heads Forward RateLimit.

Inductive ReqCut := Q_NONE | Q_BAD_HEADER | Q_BODY_TOO_LARGE | Q_HEADER_TOO_LARGE | Q_BAD_BODY | Q_NO_RESPONSE.

(** What was written to the client: a whole answer, what forwarding wrote, the head a tunnel
    wrote itself, bytes that follow it. *)
Inductive Sent :=
  | L_FULL (rsp : GwResponse) (body : string) (ok : bool)
  | L_FORWARDED (e : Ev)
  | L_RAW (rsp : GwResponse) (ok : bool)
  | L_BYTES (bytes : list ascii) (ok : bool).

(** The connection of a client, as far as answering a request goes. *)
Record Client := mkClient {
  l_request : option GwRequest; l_reader : option BodyReader; l_framing : BodyFraming; l_clen : Z; l_keepAlive : bool;
  l_responded : bool; l_writeFailed : bool; l_lastStatus : Z; l_cut : ReqCut;
  l_turn : nat; l_out : list Sent }.

Inductive RespState := OPEN | SENT | STREAM | TUNNEL | WRITE_FAIL.

Record ClientAddr := mkAddr { ca_peer : Ip; ca_client : Ip; ca_ok : bool }.

(** [std::any] as the middlewares use it. *)
Inductive Attr := AT_BOOL (b : bool) | AT_STR (v : string) | AT_LIST (l : list string).

(** What a route says to the middlewares. *)
Record RuleCfg := mkRuleCfg {
  rc_authPolicy : string; rc_reqScopes : list string; rc_reqRoles : list string;
  rc_rateLimitEnabled : bool; rc_rateLimitKey : string;
  rc_rateLimitCapacity : @num double; rc_rateLimitRefillPerSec : @num double;
  rc_rewrite : Rewrite }.

Section ctx.
Context {G : Type}.

(** [c_rate]: the state of the limiter, which requests share; [c_reports]: what was handed to
    the reporter. *)
Record ReqCtx := mkCtx {
  c_conn : Client; c_response : option GwResponse; c_resp_body : string; c_handled : bool;
  c_addr : option ClientAddr; c_state : RespState; c_startMs : Z; c_commitMs : Z; c_status : Z;
  c_route : @RouteResult RuleCfg G; c_extra : HeaderMap; c_attrs : gmap string Attr;
  c_rate : @RateState double; c_reports : list Risk }.

(** The constructor for a connection. *)
Definition ctx_init (conn : Client) (rate : @RateState double) (now : Z) : ReqCtx :=
  mkCtx conn None "" false None OPEN now 0 0 no_route [] ∅ rate [].

Definition request (c : ReqCtx) : option GwRequest := l_request (c_conn c).

Definition on_request (f : GwRequest -> GwRequest) (c : ReqCtx) : ReqCtx :=
  c <| c_conn := (c_conn c) <| l_request := f <$> l_request (c_conn c) |> |>.

Definition setAttr (k : string) (v : Attr) (c : ReqCtx) : ReqCtx := c <| c_attrs := <[k := v]> (c_attrs c) |>.

Definition attr_bool (k : string) (c : ReqCtx) : option bool :=
  match c_attrs c !! k with Some (AT_BOOL b) => Some b | _ => None end.
Definition attr_str (k : string) (c : ReqCtx) : option string :=
  match c_attrs c !! k with Some (AT_STR v) => Some v | _ => None end.
Definition attr_list (k : string) (c : ReqCtx) : option (list string) :=
  match c_attrs c !! k with Some (AT_LIST l) => Some l | _ => None end.

Definition is_open (st : RespState) : bool := match st with OPEN => true | _ => false end.
Definition is_write_fail (st : RespState) : bool := match st with WRITE_FAIL => true | _ => false end.

Definition commitResp (st : RespState) (status now : Z) (c : ReqCtx) : ReqCtx :=
  if negb (is_open (c_state c)) then
    if negb (is_write_fail st) || is_write_fail (c_state c) then c
    else c <| c_state := WRITE_FAIL |> <| c_status := if c_status c =? 0 then status else c_status c |>
  else ((c <| c_state := st |>) <| c_status := status |>) <| c_commitMs := now |>.

Definition add_resp_hdr (k v : string) (c : ReqCtx) : ReqCtx :=
  let m := c_extra c in
  if case_eqb k "Vary" then
    match hm_find "Vary" m with
    | None => c <| c_extra := hm_set k v m |>
    | Some old =>
        if String.eqb (trim_ascii old) "" then c <| c_extra := hm_set k v m |>
        else if hdr_has_token old v then c
        else c <| c_extra := hm_set "Vary" (old ++ ", " ++ v)%string m |>
    end
  else c <| c_extra := hm_set k v m |>.

(** ** Answering on the connection *)

Definition close_request (cl : Client) : Client :=
  cl <| l_request := (fun r => r <| rq_close := true |>) <$> l_request cl |>.

Definition wants_close (cl : Client) : bool :=
  negb (l_keepAlive cl) || match l_request cl with Some r => rq_close r | None => false end.

Definition answer_no_body (req : option GwRequest) (status : Z) : bool :=
  match req with Some r => is_head (rq_method r) | None => false end
  || ((100 <=? status) && (status <? 200)) || (status =? 204) || (status =? 304).

Definition req_body_err_status (cl : Client) : Z :=
  match l_reader cl with
  | Some b => if m_error b then match m_errorCode b with RE_TOO_LARGE => 413 | _ => 400 end else 0
  | None => 0
  end.

(** A request whose body could not be read is not answered as a success. *)
Definition force_body_err (rsp : GwResponse) (body : string) (cl : Client) : GwResponse * string * Client :=
  let status := req_body_err_status cl in
  if (status =? 0) || (400 <=? rs_status rsp) then (rsp, body, cl)
  else
    let rsp := rs_setHeader "Content-Type" "text/plain" ((rsp <| rs_status := status |>) <| rs_reason := "" |>) in
    (rsp, (HttpStatusReason status ++ String LF "")%string,
     close_request (cl <| l_cut := if status =? 413 then Q_BODY_TOO_LARGE else Q_BAD_BODY |>)).

Context (env : nat -> Turn).

Definition write (e : bool -> Sent) (cl : Client) : bool * Client :=
  let ok := u_ok (env (l_turn cl)) in
  (ok, ((cl <| l_turn := S (l_turn cl) |>) <| l_writeFailed := l_writeFailed cl || negb ok |>)
         <| l_out := l_out cl ++ [e ok] |>).

Definition version_of (cl : Client) : Z := match l_request cl with Some r => rq_version r | None => 17 end.

Definition sendResponse (rsp : GwResponse) (body : string) (cl : Client) : bool * GwResponse * Client :=
  let rsp := rsp <| rs_version := version_of cl |> in
  let '(rsp, body, cl) := force_body_err rsp body cl in
  let close := wants_close cl in
  let noBody := answer_no_body (l_request cl) (rs_status rsp) in
  let isHead := match l_request cl with Some r => is_head (rq_method r) | None => false end in
  let rsp := rsp <| rs_close := close |> in
  let rsp :=
    if noBody && negb isHead then rs_delHeader "Content-Length" rsp
    else rs_setHeader "Content-Length" (to_string (Z.of_nat (String.length body))) rsp in
  let rsp := rs_setHeader "Connection" (if close then "close" else "keep-alive") rsp in
  let '(ok, cl) := write (L_FULL rsp (if noBody then "" else body)) cl in
  let cl := cl <| l_lastStatus := rs_status rsp |> in
  if ok then
    let cl := cl <| l_responded := true |> in
    (true, rsp, if close then close_request cl else cl)
  else (false, rsp, close_request cl).

Definition plain_error (status : Z) : GwResponse :=
  rs_setHeader "Content-Type" "text/plain" (response_init <| rs_status := status |>).

Definition reason_line (status : Z) : string := (HttpStatusReason status ++ String LF "")%string.

Definition sendError (status : Z) (cl : Client) : Client :=
  (sendResponse (plain_error status) (reason_line status) (close_request cl)).2.

Definition mark_raw_sent (status : Z) (cl : Client) : Client :=
  close_request ((cl <| l_responded := true |>) <| l_lastStatus := status |>).

Definition markWriteFail (status : Z) (cl : Client) : Client :=
  let cl := cl <| l_writeFailed := true |> in
  close_request (if 0 <? status then cl <| l_lastStatus := status |> else cl).

(** ** Replies of the middlewares *)

Context (now : nat -> Z).

Definition nowMs (c : ReqCtx) : Z := now (l_turn (c_conn c)).

Definition writeFail (c : ReqCtx) : ReqCtx :=
  let status := match c_response c with Some r => rs_status r | None => 0 end in
  let c := c <| c_conn := markWriteFail status (c_conn c) |> in
  let c := commitResp WRITE_FAIL status (nowMs c) c in
  on_request (fun r => r <| rq_close := true |>) (c <| c_handled := true |>).

Definition reply (status : Z) (body : string) (headers : HeaderMap) (close : bool) (c : ReqCtx) : ReqCtx :=
  if negb (is_open (c_state c)) then c
  else
    let rsp := applyHeaders (c_extra c) (response_init <| rs_status := status |>) in
    let rsp := fold_left (fun r (h : string * string) => rs_setHeader h.1 h.2 r) headers rsp in
    let rsp := if negb (String.eqb body "") && negb (rs_hasHeader "Content-Type" rsp)
               then rs_setHeader "Content-Type" "text/plain" rsp else rsp in
    let c := (c <| c_resp_body := body |>) <| c_handled := true |> in
    let c := if close then on_request (fun r => r <| rq_close := true |>) c else c in
    let '(ok, rsp, cl) := sendResponse rsp body (c_conn c) in
    let c := (c <| c_response := Some rsp |>) <| c_conn := cl |> in
    if ok then commitResp SENT (rs_status rsp) (nowMs c) c else writeFail c.

Definition reply_status (status : Z) (c : ReqCtx) : ReqCtx := reply status (reason_line status) [] false c.

(** ** The onion *)

Definition Next : Type := ReqCtx -> ReqCtx.
Definition Middleware : Type := Next -> ReqCtx -> ReqCtx.

(** [MwChain::run]: [dispatch i] is [run] of what is left of the chain. *)
Fixpoint run (mws : list Middleware) (c : ReqCtx) : ReqCtx :=
  match mws with
  | [] => c
  | m :: mws => if c_handled c then c else m (run mws) c
  end.

(** ** What the state of the response promises *)

(** Heads of final answers that were tried. *)
Definition is_attempt (x : Sent) : bool :=
  match x with
  | L_FULL _ _ _ | L_RAW _ _ | L_FORWARDED (V_CLIENT_HEAD _ _) => true
  | _ => false
  end.

Definition attempts (cl : Client) : nat := length (List.filter is_attempt (l_out cl)).

Definition settled (c : ReqCtx) : Prop :=
  let cl := c_conn c in
  match c_state c with
  | OPEN => attempts cl = 0%nat /\ l_responded cl = false /\ l_writeFailed cl = false /\ c_handled c = false
  | WRITE_FAIL => (attempts cl <= 1)%nat /\ l_writeFailed cl = true /\ c_handled c = true
  | _ => attempts cl = 1%nat /\ l_responded cl = true /\ c_handled c = true
  end.

Definition answered_ctx (c : ReqCtx) : Prop := settled c /\ c_state c <> OPEN.

(** [c'] has answered as far as [c]. *)
Record same_answer (c c' : ReqCtx) : Prop := {
  sa_state : c_state c' = c_state c; sa_handled : c_handled c' = c_handled c;
  sa_responded : l_responded (c_conn c') = l_responded (c_conn c);
  sa_failed : l_writeFailed (c_conn c') = l_writeFailed (c_conn c);
  sa_attempts : attempts (c_conn c') = attempts (c_conn c) }.

Lemma same_answer_refl c : same_answer c c.
Proof. done. Qed.

Lemma same_answer_trans c c' c'' : same_answer c c' -> same_answer c' c'' -> same_answer c c''.
Proof. intros [] []. split; congruence. Qed.

Lemma settled_same c c' : same_answer c c' -> settled c -> settled c'.
Proof. intros [E1 E2 E3 E4 E5]. unfold settled. by rewrite E1, E2, E3, E4, E5. Qed.

Lemma on_request_same f c : same_answer c (on_request f c).
Proof. done. Qed.

Lemma setAttr_same k v c : same_answer c (setAttr k v c).
Proof. done. Qed.

Lemma add_resp_hdr_same k v c : same_answer c (add_resp_hdr k v c).
Proof. unfold add_resp_hdr. repeat case_match; done. Qed.

Lemma on_request_after f c c' : same_answer c c' -> same_answer c (on_request f c').
Proof. intros H. by apply (same_answer_trans c c'). Qed.

Lemma setAttr_after k v c c' : same_answer c c' -> same_answer c (setAttr k v c').
Proof. intros H. by apply (same_answer_trans c c'). Qed.

Lemma add_resp_hdr_after k v c c' : same_answer c c' -> same_answer c (add_resp_hdr k v c').
Proof. intros H. apply (same_answer_trans c c'); [done|]. apply add_resp_hdr_same. Qed.

(** ** Answering keeps it *)

Lemma force_body_err_keeps rsp body cl rsp' body' cl' : force_body_err rsp body cl = (rsp', body', cl') ->
  l_responded cl' = l_responded cl /\ l_writeFailed cl' = l_writeFailed cl /\ attempts cl' = attempts cl /\
  l_turn cl' = l_turn cl.
Proof. unfold force_body_err. destruct (_ || _); by intros [= <- <- <-]. Qed.

Lemma sendResponse_sends rsp body cl ok rsp' cl' : sendResponse rsp body cl = (ok, rsp', cl') ->
  attempts cl' = S (attempts cl) /\
  if ok : bool then l_responded cl' = true /\ l_writeFailed cl' = l_writeFailed cl
  else l_responded cl' = l_responded cl /\ l_writeFailed cl' = true.
Proof.
  unfold sendResponse. destruct (force_body_err _ _ _) as [[r b] k] eqn:E.
  apply force_body_err_keeps in E as (E1 & E2 & E3 & E4). unfold write. cbn zeta.
  set (ok' := u_ok _). set (r2 := rs_setHeader "Connection" _ _).
  assert (A : forall x, attempts (k <| l_out := l_out k ++ [L_FULL r2 x ok'] |>) = S (attempts cl)).
  { intros x. unfold attempts. cbn. rewrite List.filter_app, length_app. cbn. unfold attempts in E3. lia. }
  specialize (A (if answer_no_body (l_request k) (rs_status r) then "" else b)%string).
  destruct ok' eqn:Eo; intros [= <- _ <-]; cbn.
  - destruct (wants_close k); cbn; (split; [exact A|]); by rewrite E2, orb_false_r.
  - split; [exact A|]. by rewrite orb_true_r.
Qed.

Lemma writeFail_settled c : (attempts (c_conn c) <= 1)%nat -> answered_ctx (writeFail c).
Proof.
  intros H. unfold answered_ctx, settled, writeFail, commitResp, on_request, markWriteFail.
  set (st := match c_response c with Some r => rs_status r | None => 0 end).
  destruct (0 <? st), (c_state c) eqn:E; cbn; rewrite ?E; cbn; rewrite ?E; (split; [|done]); (split; [exact H|done]).
Qed.

Lemma reply_settled status body headers close c : settled c -> answered_ctx (reply status body headers close c).
Proof.
  intros H. unfold reply. destruct (is_open (c_state c)) eqn:Eo; cbn [negb].
  2: { split; [done|]. intros E. by rewrite E in Eo. }
  assert (Es : c_state c = OPEN) by by destruct (c_state c).
  unfold settled in H. rewrite Es in H. destruct H as (H1 & H2 & H3 & H4).
  set (rsp := if negb (String.eqb body "") && _ then _ else _).
  set (c1 := if close then _ else _).
  assert (S1 : attempts (c_conn c1) = 0%nat /\ c_state c1 = OPEN /\ c_handled c1 = true) by by destruct close.
  destruct S1 as (S1 & S2 & S3). destruct (sendResponse rsp body (c_conn c1)) as [[ok r] cl] eqn:E.
  apply sendResponse_sends in E as [E1 E2]. destruct ok.
  - unfold answered_ctx, settled, commitResp. cbn. rewrite S2. cbn. split; [|done]. split_and!; [lia|by destruct E2|done].
  - apply writeFail_settled. cbn. lia.
Qed.

(** ** Middlewares that keep it *)

Definition lawful (m : Middleware) : Prop :=
  forall next, (forall c, settled c -> settled (next c)) ->
    forall c, settled c -> c_handled c = false -> settled (m next c).

(** Always answers if what comes after it does. *)
Definition transparent (m : Middleware) : Prop :=
  forall next, (forall c, settled c -> c_handled c = false -> answered_ctx (next c)) ->
    forall c, settled c -> c_handled c = false -> answered_ctx (m next c).

(** Answers whatever comes after it. *)
Definition closing (m : Middleware) : Prop :=
  forall next, (forall c, settled c -> settled (next c)) ->
    forall c, settled c -> c_handled c = false -> answered_ctx (m next c).

Lemma run_settled mws c : Forall lawful mws -> settled c -> settled (run mws c).
Proof.
  intros H. revert c. induction H as [|m mws Hm _ IH]; intros c Hc; [done|]. cbn [run].
  destruct (c_handled c) eqn:E; [done|]. by apply Hm.
Qed.

Lemma unhandled_open c : settled c -> c_handled c = true -> c_state c <> OPEN.
Proof. intros H E Eo. unfold settled in H. rewrite Eo in H. destruct H as (_ & _ & _ & H). congruence. Qed.

(** A chain with a middleware that always answers behind some that are transparent. *)
Lemma run_answers outer m inner c : Forall transparent outer -> closing m -> Forall lawful inner ->
  settled c -> c_handled c = false -> answered_ctx (run (outer ++ m :: inner) c).
Proof.
  intros Ho Hm Hi. revert c. induction Ho as [|o outer Hom _ IH]; intros c Hc Hh; cbn [run app]; rewrite Hh.
  - apply Hm; try done. intros. by apply run_settled.
  - apply Hom; try done.
Qed.

(** A middleware that changes nothing of the answer before it goes on. *)
Lemma before_next_lawful (f : ReqCtx -> ReqCtx) : (forall c, same_answer c (f c)) -> lawful (fun next c => next (f c)).
Proof. intros Hf next Hn c Hc _. apply Hn. by apply (settled_same c). Qed.

Lemma before_next_transparent (f : ReqCtx -> ReqCtx) : (forall c, same_answer c (f c)) -> transparent (fun next c => next (f c)).
Proof.
  intros Hf next Hn c Hc Hh. apply Hn; [by apply (settled_same c)|]. by rewrite (sa_handled _ _ (Hf c)).
Qed.

(** One that goes on or replies. *)
Lemma reply_or_next_lawful (f : ReqCtx -> ReqCtx) (d : ReqCtx -> option (Z * string * HeaderMap * bool)) :
  (forall c, same_answer c (f c)) ->
  lawful (fun next c => let c := f c in
    match d c with Some (st, b, h, cl) => reply st b h cl c | None => next c end).
Proof.
  intros Hf next Hn c Hc _. assert (H : settled (f c)) by by apply (settled_same c). cbn zeta.
  destruct (d (f c)) as [[[[st b] h] cl]|]; [by apply reply_settled|by apply Hn].
Qed.
End ctx.

(** Closes [same_answer c c'] for a [c'] that is [c] after some of these. *)
Ltac same_answer :=
  cbv zeta;
  repeat first
    [ apply same_answer_refl | assumption
    | apply on_request_after | apply setAttr_after | apply add_resp_hdr_after
    | match goal with |- same_answer _ (if ?b then _ else _) => destruct b end
    | match goal with |- same_answer _ (match ?o with Some _ => _ | None => _ end) => destruct o end ].
