(* ===== verification/Mw.v ===== *)
(** * The built-in middlewares (src/gateway/include/middlewares/builtin.cpp, proxy.cpp, src/ipban/banmw.cpp)

    Each middleware of the chain but for the token checks (Auth), with the laws of Ctx: all
    are lawful, those in front of the closing one are transparent. What they count and log
    is left out. *)

From S2P Require Import Prelude Records Str HttpMsg Body Ip Rule Snap Router RouteCache Breaker UpsGroup Heads Forward RateLimit Ctx.

(** Whether a path starts with a prefix. *)
Definition starts_with (prefix path : string) : bool :=
  match cut_prefix prefix path with Some _ => true | None => false end.

Record CorsOptions := mkCors {
  co_enabled : bool; co_allowOrigin : string; co_allowOrigins : list string; co_allowMethods : string;
  co_allowHeaders : string; co_allowCredentials : bool; co_maxAge : Z; co_shortCircuitPreflight : bool }.

Record RedirectRule := mkRedirect { rd_fromPrefix : string; rd_toLocation : string; rd_status : Z }.

Record SecurityHeadersOptions := mkSec {
  so_csp : string; so_sts : string; so_frame : string; so_ctype : string; so_referrer : string }.

Record MaintOptions := mkMaint { mo_retryAfterSec : Z; mo_body : string }.

Definition security_defaults : SecurityHeadersOptions :=
  mkSec "default-src 'self'" "max-age=31536000" "DENY" "nosniff" "no-referrer".

(** The address of a socket that has none. *)
Definition ip_none : Ip := mkIp V4 32 (replicate 16 0).

(** ** Cross-origin requests *)

Definition header_of (req : option GwRequest) (k : string) : string :=
  match req with Some r => rq_getHeader k "" r | None => "" end.

Definition is_cors_preflight (req : option GwRequest) : bool :=
  match req with
  | None => false
  | Some r =>
      match rq_method r with M_OPTIONS => true | _ => false end
      && negb (String.eqb (trim_ascii (rq_getHeader "Origin" "" r)) "")
      && negb (String.eqb (trim_ascii (rq_getHeader "Access-Control-Request-Method" "" r)) "")
  end.

(** What one entry of the list answers. *)
Definition origin_entry (opts : CorsOptions) (reqOrigin v : string) : option string :=
  if String.eqb v "*" then Some (if co_allowCredentials opts then reqOrigin else "*"%string)
  else if case_eqb v reqOrigin then Some reqOrigin else None.

Definition pick_origin (opts : CorsOptions) (origin : string) : string :=
  let reqOrigin := trim_ascii origin in
  if String.eqb reqOrigin "" then ""
  else
    match list_find (fun v => origin_entry opts reqOrigin (trim_ascii v) <> None) (co_allowOrigins opts) with
    | Some (_, v) => default ""%string (origin_entry opts reqOrigin (trim_ascii v))
    | None =>
        if negb (match co_allowOrigins opts with [] => true | _ => false end) then ""
        else
          let single := trim_ascii (co_allowOrigin opts) in
          if String.eqb single "" then "" else default ""%string (origin_entry opts reqOrigin single)
    end.

(** ** Request identifiers *)

(** Sixteen digits; the number is turned round as they are taken. *)
Fixpoint hex16 (n : nat) (mix : Z) : string :=
  match n with
  | O => ""
  | S n => String (hex_digit (Z.land mix 15)) (hex16 n (Z.lor (Z.shiftr mix 4) (wrap64 (Z.shiftl mix 60))))
  end.

Section mw.
Context {G : Type} (env : nat -> Turn) (now : nat -> Z).

#[local] Abbreviation Ctx := (@ReqCtx G).
#[local] Abbreviation Middleware := (@Middleware G).

(** [next] under some conditions, a reply otherwise. *)
Definition refuse (status : Z) (body : string) (headers : HeaderMap) (close : bool) (c : Ctx) : Ctx :=
  reply env now status body headers close c.

Definition add_cors_hdrs (opts : CorsOptions) (preflight : bool) (c : Ctx) : Ctx :=
  if negb (co_enabled opts) then c
  else match request c with
  | None => c
  | Some req =>
      let allowed := pick_origin opts (trim_ascii (rq_getHeader "Origin" "" req)) in
      if String.eqb allowed "" then c
      else
        let c := add_resp_hdr "Access-Control-Allow-Origin" allowed c in
        let c := if String.eqb allowed "*" then c else add_resp_hdr "Vary" "Origin" c in
        let c := if co_allowCredentials opts then add_resp_hdr "Access-Control-Allow-Credentials" "true" c else c in
        if preflight then
          let reqHeaders := trim_ascii (rq_getHeader "Access-Control-Request-Headers" "" req) in
          let c := add_resp_hdr "Access-Control-Allow-Methods" (co_allowMethods opts) c in
          let c := add_resp_hdr "Access-Control-Allow-Headers"
                     (if String.eqb reqHeaders "" then co_allowHeaders opts else reqHeaders) c in
          add_resp_hdr "Access-Control-Max-Age" (to_string (co_maxAge opts)) c
        else c
  end.

Definition cors_prepare (opts : CorsOptions) (c : Ctx) : Ctx :=
  if negb (co_enabled opts) then setAttr "cors_short" (AT_BOOL false) (setAttr "cors_preflight" (AT_BOOL false) c)
  else
    let preflight := is_cors_preflight (request c) in
    let c := add_cors_hdrs opts preflight c in
    setAttr "cors_short" (AT_BOOL (co_shortCircuitPreflight opts)) (setAttr "cors_preflight" (AT_BOOL preflight) c).

Definition MakeCorsPrepareMiddleware (opts : CorsOptions) : Middleware := fun next c => next (cors_prepare opts c).

Definition MakeCorsPreflightMiddleware : Middleware := fun next c =>
  if default false (attr_bool "cors_preflight" c) && default false (attr_bool "cors_short" c)
  then refuse 204 "" [] false c else next c.

Definition MakeCorsMiddleware (opts : CorsOptions) : Middleware := fun next c =>
  MakeCorsPrepareMiddleware opts (MakeCorsPreflightMiddleware next) c.

(** ** Short answers *)

Definition MakeRedirectMiddleware (rules : list RedirectRule) : Middleware := fun next c =>
  match request c with
  | None => next c
  | Some req =>
      match list_find (fun r => starts_with (rd_fromPrefix r) (rq_path req) = true) rules with
      | Some (_, r) => refuse (rd_status r) "" [("Location", rd_toLocation r)]%string false c
      | None => next c
      end
  end.

Definition MakeHealthCheckMiddleware (path : string) : Middleware := fun next c =>
  match request c with
  | Some req => if String.eqb (rq_path req) path then refuse 200 ("OK" ++ String LF "")%string [] false c else next c
  | None => next c
  end.

(** [gate]: the switch of the administrator. *)
Definition MakeMaintenanceMiddleware (opts : MaintOptions) (gate : bool) : Middleware := fun next c =>
  if negb gate then next c
  else refuse 503 (mo_body opts) [("Retry-After", to_string (mo_retryAfterSec opts))]%string false c.

(** ** Fields and attributes *)

Definition security_headers (opts : SecurityHeadersOptions) (c : Ctx) : Ctx :=
  fold_left (fun c (h : string * string) => if String.eqb h.2 "" then c else add_resp_hdr h.1 h.2 c)
    [("Content-Security-Policy", so_csp opts); ("Strict-Transport-Security", so_sts opts); ("X-Frame-Options", so_frame opts);
     ("X-Content-Type-Options", so_ctype opts); ("Referrer-Policy", so_referrer opts)]%string c.

Definition MakeSecurityHeadersMiddleware (opts : SecurityHeadersOptions) : Middleware :=
  fun next c => next (security_headers opts c).

(** [mix]: the clock, a counter and an address, mixed. *)
Definition request_id (headerName : string) (mix : Z) (c : Ctx) : Ctx :=
  let id := header_of (request c) headerName in
  let fresh := hex16 16 mix in
  let c := if String.eqb id "" then on_request (rq_setHeader headerName fresh) c else c in
  let id := if String.eqb id "" then fresh else id in
  setAttr "request_id" (AT_STR id) (add_resp_hdr headerName id c).

Definition MakeRequestIdMiddleware (headerName : string) (mix : Z) : Middleware :=
  fun next c => next (request_id headerName mix c).

(** ** The client's address *)

Section addr.
Context `{Inet} (peer : option Ip) (trusted : list Ip).

(** [peer]: the address of the socket's other end, if it has one. *)
Definition loadClientAddr (c : Ctx) : bool * Ctx :=
  match c_addr c with
  | Some a => (ca_ok a, c)
  | None =>
      let a :=
        match peer with
        | Some p =>
            let '(ok, client) := resolveClientAddr p (header_of (request c) "X-Forwarded-For") trusted in
            mkAddr p client ok
        | None => mkAddr ip_none ip_none false
        end in
      (ca_ok a, c <| c_addr := Some a |>)
  end.

Definition MakeClientAddrMiddleware : Middleware := fun next c => next (loadClientAddr c).2.

(** [eval]: the decision of the ledger. *)
Definition MakeBanMiddleware (on : bool) (eval : Ip -> Verdict) : Middleware := fun next c =>
  if negb on then next c
  else
    let '(ok, c) := loadClientAddr c in
    if negb ok then refuse 403 ("Forbidden" ++ String LF "")%string [] true c
    else
      match c_addr c with
      | Some a =>
          match v_action (eval (ca_client a)) with
          | DENY => refuse 403 ("Forbidden" ++ String LF "")%string [] true c
          | ALLOW => next c
          end
      | None => next c
      end.
End addr.

(** ** The ends of the chain *)

Definition MakeFinishMiddleware : Middleware := fun next c =>
  let c := next c in
  if is_open (c_state c) then reply env now 500 (reason_line 500) [] true c else c.

(** The access log looks at the request when it is over. *)
Definition MakeStructuredAccessLogMiddleware : Middleware := fun next c => next c.

(** [match_]: what [Router::match] answers. *)
Definition MakeRouterMiddleware (match_ : GwRequest -> @RouteResult RuleCfg G) : Middleware := fun next c =>
  let res := match request c with Some req => match_ req | None => no_route end in
  let c := c <| c_route := res |> in
  if negb (rt_matched res) then reply_status env now 404 c
  else match rt_upstream res with
       | None => reply_status env now 503 c
       | Some _ => next c
       end.
End mw.

(** ** The laws *)

Section laws.
Context {G : Type} (env : nat -> Turn) (now : nat -> Z).
#[local] Abbreviation Ctx := (@ReqCtx G).

(** A middleware that replies or goes on, on a condition. *)
Lemma branch_lawful (b : Ctx -> bool) (r f : Ctx -> Ctx) : (forall c, settled c -> settled (r c)) ->
  (forall c, same_answer c (f c)) -> lawful (fun next c => if b c then r c else next (f c)).
Proof.
  intros Hr Hf next Hn c Hc _. destruct (b c); [by apply Hr|]. apply Hn. by apply (settled_same c).
Qed.

Lemma refuse_settled st b h cl (c : Ctx) : settled c -> settled (refuse env now st b h cl c).
Proof. intros H. apply (reply_settled env now st b h cl c H). Qed.

Lemma add_cors_hdrs_same opts pf (c : Ctx) : same_answer c (add_cors_hdrs opts pf c).
Proof. unfold add_cors_hdrs. same_answer. Qed.

Lemma cors_prepare_same opts (c : Ctx) : same_answer c (cors_prepare opts c).
Proof.
  unfold cors_prepare. pose proof (add_cors_hdrs_same opts (is_cors_preflight (request c)) c). same_answer.
Qed.

Lemma security_headers_same opts (c : Ctx) : same_answer c (security_headers opts c).
Proof. unfold security_headers. cbn [fold_left fst snd]. same_answer. Qed.

Lemma request_id_same h mix (c : Ctx) : same_answer c (request_id h mix c).
Proof. unfold request_id. same_answer. Qed.

Lemma loadClientAddr_same `{Inet} peer trusted (c : Ctx) : same_answer c (loadClientAddr peer trusted c).2.
Proof.
  unfold loadClientAddr. destruct (c_addr c); [done|]. destruct peer as [p|]; [|done].
  by destruct (resolveClientAddr _ _ _).
Qed.

Lemma cors_prepare_lawful opts : lawful (G := G) (MakeCorsPrepareMiddleware opts).
Proof. apply before_next_lawful, cors_prepare_same. Qed.

Lemma cors_prepare_transparent opts : transparent (G := G) (MakeCorsPrepareMiddleware opts).
Proof. apply before_next_transparent, cors_prepare_same. Qed.

Lemma security_transparent opts : transparent (G := G) (MakeSecurityHeadersMiddleware opts).
Proof. apply before_next_transparent, security_headers_same. Qed.

Lemma request_id_transparent h mix : transparent (G := G) (MakeRequestIdMiddleware h mix).
Proof. apply before_next_transparent, request_id_same. Qed.

Lemma client_addr_transparent `{Inet} peer trusted : transparent (G := G) (MakeClientAddrMiddleware peer trusted).
Proof. apply before_next_transparent, loadClientAddr_same. Qed.

Lemma access_log_transparent : transparent (G := G) MakeStructuredAccessLogMiddleware.
Proof. intros next Hn. exact Hn. Qed.

Lemma finish_closing : closing (G := G) (MakeFinishMiddleware env now).
Proof.
  intros next Hn c Hc _. unfold MakeFinishMiddleware. pose proof (Hn c Hc) as H. cbv zeta.
  destruct (is_open (c_state (next c))) eqn:E; [by apply reply_settled|]. split; [done|]. intros E'. by rewrite E' in E.
Qed.

Lemma cors_preflight_lawful : lawful (G := G) (MakeCorsPreflightMiddleware env now).
Proof.
  intros next Hn c Hc _. unfold MakeCorsPreflightMiddleware. destruct (_ && _); [by apply refuse_settled|by apply Hn].
Qed.

Lemma redirect_lawful rules : lawful (G := G) (MakeRedirectMiddleware env now rules).
Proof.
  intros next Hn c Hc _. unfold MakeRedirectMiddleware. destruct (request c); [|by apply Hn].
  destruct (list_find _ _) as [[? ?]|]; [by apply refuse_settled|by apply Hn].
Qed.

Lemma health_lawful path : lawful (G := G) (MakeHealthCheckMiddleware env now path).
Proof.
  intros next Hn c Hc _. unfold MakeHealthCheckMiddleware. destruct (request c); [|by apply Hn].
  destruct (String.eqb _ _); [by apply refuse_settled|by apply Hn].
Qed.

Lemma maintenance_lawful opts gate : lawful (G := G) (MakeMaintenanceMiddleware env now opts gate).
Proof.
  intros next Hn c Hc _. unfold MakeMaintenanceMiddleware. destruct (negb gate); [by apply Hn|by apply refuse_settled].
Qed.

Lemma ban_lawful `{Inet} peer trusted on eval : lawful (G := G) (MakeBanMiddleware env now peer trusted on eval).
Proof.
  intros next Hn c Hc _. unfold MakeBanMiddleware. destruct (negb on); [by apply Hn|].
  pose proof (settled_same _ _ (loadClientAddr_same peer trusted c) Hc) as H'.
  destruct (loadClientAddr peer trusted c) as [ok c']. cbn in H'. destruct (negb ok); [by apply refuse_settled|].
  destruct (c_addr c') as [a|]; [|by apply Hn]. destruct (v_action _); [by apply Hn|by apply refuse_settled].
Qed.

Lemma router_lawful match_ : lawful (G := G) (MakeRouterMiddleware env now match_).
Proof.
  intros next Hn c Hc _. unfold MakeRouterMiddleware. set (res := match request c with Some _ => _ | None => _ end).
  set (c' := c <| c_route := res |>). assert (H : settled c') by by apply (settled_same c).
  cbv zeta. destruct (negb _); [by apply reply_settled|]. destruct (rt_upstream res); [by apply Hn|by apply reply_settled].
Qed.
End laws.
