(* ===== verification/Waf.v ===== *)
(** * The request filter (src/gateway/include/middlewares/waf.cpp)

    Regular expressions with a matcher by derivatives, the four rules, the layers of
    percent-encoding that are taken off, and the middleware that refuses. The matcher is
    proved against what an expression means, and the filter against the rules. *)

From S2P Require Import Prelude Records Str HttpMsg Body HttpParse Ip InetText Rule Snap Router RouteCache Breaker UpsGroup Heads Forward RateLimit Ctx Mw.

(** ** Regular expressions *)

(** What the four rules use of ECMAScript's: characters, classes, concatenation,
    alternatives and repetition. *)
Inductive Re :=
  | X_NONE | X_EMPTY | X_CHAR (p : ascii -> bool) | X_SEQ (a b : Re) | X_ALT (a b : Re) | X_STAR (a : Re).

Inductive matches : Re -> list ascii -> Prop :=
  | MT_EMPTY : matches X_EMPTY []
  | MT_CHAR p c : p c = true -> matches (X_CHAR p) [c]
  | MT_SEQ a b s t : matches a s -> matches b t -> matches (X_SEQ a b) (s ++ t)
  | MT_LEFT a b s : matches a s -> matches (X_ALT a b) s
  | MT_RIGHT a b s : matches b s -> matches (X_ALT a b) s
  | MT_STOP a : matches (X_STAR a) []
  | MT_MORE a s t : matches a s -> matches (X_STAR a) t -> matches (X_STAR a) (s ++ t).

Fixpoint nullable (r : Re) : bool :=
  match r with
  | X_NONE | X_CHAR _ => false
  | X_EMPTY | X_STAR _ => true
  | X_SEQ a b => nullable a && nullable b
  | X_ALT a b => nullable a || nullable b
  end.

Definition seq_ (a b : Re) : Re := match a with X_NONE => X_NONE | X_EMPTY => b | _ => X_SEQ a b end.
Definition alt_ (a b : Re) : Re := match a, b with X_NONE, _ => b | _, X_NONE => a | _, _ => X_ALT a b end.

(** What is left of an expression after a character. *)
Fixpoint deriv (c : ascii) (r : Re) : Re :=
  match r with
  | X_NONE | X_EMPTY => X_NONE
  | X_CHAR p => if p c then X_EMPTY else X_NONE
  | X_SEQ a b => if nullable a then alt_ (seq_ (deriv c a) b) (deriv c b) else seq_ (deriv c a) b
  | X_ALT a b => alt_ (deriv c a) (deriv c b)
  | X_STAR a => seq_ (deriv c a) (X_STAR a)
  end.

(** A match at the start of the text. *)
Fixpoint match_at (r : Re) (s : list ascii) : bool :=
  nullable r || match s with [] => false | c :: s => match_at (deriv c r) s end.

(** [std::regex_search]. *)
Fixpoint search (r : Re) (s : list ascii) : bool :=
  match_at r s || match s with [] => false | _ :: s => search r s end.

(** [std::regex::icase]. *)
Definition ic (x : ascii) : Re := X_CHAR (fun c => Ascii.eqb (tolower c) (tolower x)).
Fixpoint text (s : list ascii) : Re := match s with [] => X_EMPTY | c :: s => X_SEQ (ic c) (text s) end.
Definition lit (s : string) : Re := text (list_ascii_of_string s).
Definition plus_ (r : Re) : Re := X_SEQ r (X_STAR r).
Definition blank : Re := X_CHAR isspace.
Definition not_gt : Re := X_CHAR (fun c => negb (Ascii.eqb c ">")).
Definition any_of (l : list Re) : Re := foldr X_ALT X_NONE l.
Definition in_order_of (l : list Re) : Re := foldr X_SEQ X_EMPTY l.

Definition rules : list (string * Re) :=
  [("sqli", any_of [in_order_of [lit "union"; plus_ blank; lit "select"];
                    in_order_of [lit "or"; plus_ blank; lit "1"; X_STAR blank; lit "="; X_STAR blank; lit "1"];
                    lit "';"; in_order_of [lit "--"; blank]; lit "/*";
                    in_order_of [lit "sleep"; X_STAR blank; lit "("]; in_order_of [lit "benchmark"; X_STAR blank; lit "("]]);
   ("xss", any_of [lit "<script"; lit "javascript:"; in_order_of [lit "onerror"; X_STAR blank; lit "="];
                   in_order_of [lit "onload"; X_STAR blank; lit "="]; in_order_of [lit "<img"; plus_ not_gt; lit "src"]]);
   ("travers", any_of [lit "../"; lit "..\"; lit "%2e%2e/"; lit "/etc/passwd"; lit "c:\windows"]);
   ("scanner", any_of [lit "sqlmap"; lit "nikto"; lit "nmap"; lit "masscan"; lit "acunetix"; lit "nessus"; lit "zgrab"])]%string.

Definition scan (s : string) : option string :=
  if String.eqb s "" then None
  else fst <$> List.find (fun r : string * Re => search r.2 (list_ascii_of_string s)) rules.

(** ** Percent-encoding *)

Definition hex (c : ascii) : option Z :=
  if (code "0" <=? code c) && (code c <=? code "9") then Some (code c - code "0")
  else if (code "a" <=? code c) && (code c <=? code "f") then Some (code c - code "a" + 10)
  else if (code "A" <=? code c) && (code c <=? code "F") then Some (code c - code "A" + 10)
  else None.

Definition unescape_one (plusSpace : bool) (c : ascii) : ascii := if plusSpace && Ascii.eqb c "+" then SP else c.

Fixpoint unescape (plusSpace : bool) (s : string) : string :=
  match s with
  | EmptyString => EmptyString
  | String c s' =>
      let plain := String (unescape_one plusSpace c) (unescape plusSpace s') in
      if Ascii.eqb c "%" then
        match s' with
        | String a (String b s'') =>
            match hex a, hex b with
            | Some hi, Some lo => String (chr (wrap8 (Z.lor (Z.shiftl hi 4) lo))) (unescape plusSpace s'')
            | _, _ => plain
            end
        | _ => plain
        end
      else plain
  end.

(** [layers] more layers are taken off while that changes the text. *)
Fixpoint scan_layers (layers : nat) (plusSpace : bool) (cur : string) : option string :=
  match scan cur with
  | Some hit => Some hit
  | None =>
      match layers with
      | O => None
      | S layers =>
          let next := unescape plusSpace cur in
          if String.eqb next cur then None else scan_layers layers plusSpace next
      end
  end.

Definition scanUrl (s : string) (plusSpace : bool) : option string := scan_layers 2 plusSpace s.

Definition watchedHeader (key : string) : bool :=
  case_eqb key "User-Agent" || case_eqb key "Referer" || case_eqb key "Cookie".

Definition or_else {A} (a b : option A) : option A := match a with Some _ => a | None => b end.

(** The first watched field that a rule matches. *)
Fixpoint scan_headers (l : HeaderList) : option string :=
  match l with
  | [] => None
  | h :: l => or_else (if watchedHeader h.1 then scanUrl h.2 false else None) (scan_headers l)
  end.

Definition inspect (req : option GwRequest) : option string :=
  match req with
  | None => None
  | Some req => or_else (scanUrl (rq_path req) false) (or_else (scanUrl (rq_query req) true) (scan_headers (rq_headerList req)))
  end.

Definition ruleSlot (hit : string) : nat :=
  if String.eqb hit "sqli" then 0%nat else if String.eqb hit "xss" then 1%nat else if String.eqb hit "travers" then 2%nat else 3%nat.

Record WafCfg := mkWaf { wc_on : bool; wc_banMs : Z }.

Section waf.
Context {G : Type} (env : nat -> Turn) (now : nat -> Z) {IN : Inet} (peer : option Ip) (trusted : list Ip).
#[local] Abbreviation Ctx := (@ReqCtx G).

(** [reporter]: whether there is one. *)
Definition MakeWaf (cfg : WafCfg) (reporter : bool) : @Middleware G := fun next c =>
  if negb (wc_on cfg) then next c
  else
    match inspect (request c) with
    | None => next c
    | Some hit =>
        let '(haveIp, c) := loadClientAddr peer trusted c in
        let ip := match c_addr c with Some a => ca_client a | None => ip_none end in
        let c :=
          if reporter && haveIp then
            c <| c_reports := c_reports c ++
                   [mkRisk (ip_toString ip ++ "@waf") ip WAF INJECT 1 (wc_banMs cfg) (nowMs now c) ("waf " ++ hit)] |>
          else c in
        reply env now 403 ("Forbidden" ++ String LF "")%string [] true c
    end.
End waf.

(** ** The matcher against the meaning of an expression *)

Lemma nullable_spec r : nullable r = true <-> matches r [].
Proof.
  induction r as [| |p|a IHa b IHb|a IHa b IHb|a IHa]; cbn; rewrite ?andb_true_iff, ?orb_true_iff, ?IHa, ?IHb; split; try done.
  - by inversion 1.
  - by constructor.
  - by inversion 1.
  - intros [Ha Hb]. by apply (MT_SEQ a b [] []).
  - inversion 1 as [| |? ? s t Ha Hb E E'| | | |]; subst. by apply app_eq_nil in E' as [-> ->].
  - intros [H|H]; by constructor.
  - inversion 1; subst; auto.
  - by constructor.
Qed.

Lemma seq_spec a b s : matches (seq_ a b) s <-> matches (X_SEQ a b) s.
Proof.
  destruct a; cbn; try done; split; intros H.
  - inversion H.
  - by inversion H as [| |? ? ? ? H1| | | |]; inversion H1.
  - by apply (MT_SEQ X_EMPTY b [] s); [constructor|].
  - inversion H as [| |? ? ? ? H1 H2| | | |]; subst. by inversion H1; subst.
Qed.

Lemma alt_spec a b s : matches (alt_ a b) s <-> matches (X_ALT a b) s.
Proof.
  assert (L : forall r, matches r s <-> matches (X_ALT X_NONE r) s).
  { intros r. split; [by apply MT_RIGHT|]. inversion 1 as [| | |? ? ? H1| | |]; subst; [by inversion H1|done]. }
  assert (R : forall r, matches r s <-> matches (X_ALT r X_NONE) s).
  { intros r. split; [by apply MT_LEFT|]. inversion 1 as [| | | |? ? ? H1| |]; subst; [done|by inversion H1]. }
  destruct a; [exact (L b)|..]; destruct b; cbn; first [done|apply R].
Qed.

Lemma matches_alt a b s : matches (X_ALT a b) s <-> matches a s \/ matches b s.
Proof. split; [inversion 1; auto|intros [H|H]; by constructor]. Qed.

Lemma star_more a c s : matches (X_STAR a) (c :: s) -> exists s1 s2, s = s1 ++ s2 /\ matches a (c :: s1) /\ matches (X_STAR a) s2.
Proof.
  remember (X_STAR a) as r eqn:Er. remember (c :: s) as t eqn:Et. intros H. revert Er c s Et.
  induction H as [| | | | |?|? s t Hs _ Ht IH]; intros Er; try done. injection Er as ->. intros c u E.
  destruct s as [|c' s]; [cbn in E; by apply IH|]. injection E as -> <-. by exists s, t.
Qed.

Lemma deriv_spec c r s : matches (deriv c r) s <-> matches r (c :: s).
Proof.
  revert s. induction r as [| |p|a IHa b IHb|a IHa b IHb|a IHa]; intros s; cbn [deriv].
  - split; by inversion 1.
  - split; by inversion 1.
  - destruct (p c) eqn:E; split; inversion 1; subst; try congruence; by constructor.
  - assert (S : matches (seq_ (deriv c a) b) s <-> exists s1 s2, s = s1 ++ s2 /\ matches a (c :: s1) /\ matches b s2).
    { rewrite seq_spec. split.
      - inversion 1 as [| |? ? s1 s2 H1 H2| | | |]; subst. exists s1, s2. by rewrite <- IHa.
      - intros (s1 & s2 & -> & H1 & H2). constructor; [by apply IHa|done]. }
    assert (T : matches (X_SEQ a b) (c :: s) <->
      (exists s1 s2, s = s1 ++ s2 /\ matches a (c :: s1) /\ matches b s2) \/ (nullable a = true /\ matches b (c :: s))).
    { rewrite nullable_spec. split.
      - inversion 1 as [| |? ? s1 s2 H1 H2 E1 E2| | | |]; subst. destruct s1 as [|c' s1]; [right; by cbn in E2; subst|].
        injection E2 as -> <-. left. by exists s1, s2.
      - intros [(s1 & s2 & -> & H1 & H2)|[H1 H2]]; [by apply (MT_SEQ a b (c :: s1) s2)|by apply (MT_SEQ a b [] (c :: s))]. }
    rewrite T. destruct (nullable a); [|rewrite S; naive_solver]. rewrite alt_spec, matches_alt, S, IHb. naive_solver.
  - by rewrite alt_spec, !matches_alt, IHa, IHb.
  - rewrite seq_spec. split.
    + inversion 1 as [| |? ? s1 s2 H1 H2| | | |]; subst. apply (MT_MORE a (c :: s1) s2); [by apply IHa|done].
    + intros H. apply star_more in H as (s1 & s2 & -> & H1 & H2). constructor; [by apply IHa|done].
Qed.

Lemma match_at_spec r s : match_at r s = true <-> exists m post, s = m ++ post /\ matches r m.
Proof.
  revert r. induction s as [|c s IH]; intros r; cbn [match_at]; rewrite orb_true_iff, nullable_spec.
  - split; [intros [H|H]; [by exists [], []|done]|]. intros (m & post & E & H). symmetry in E. apply app_eq_nil in E as [-> _]. by left.
  - rewrite IH. split.
    + intros [H|(m & post & -> & H)]; [by exists [], (c :: s)|]. exists (c :: m), post. by rewrite <- deriv_spec.
    + intros (m & post & E & H). destruct m as [|c' m]; [by left|]. injection E as -> ->. right. exists m, post. by rewrite deriv_spec.
Qed.

(** Some part of the text is in the language of the expression. *)
Definition occurs (r : Re) (s : list ascii) : Prop := exists pre m post, s = pre ++ m ++ post /\ matches r m.

Lemma search_spec r s : search r s = true <-> occurs r s.
Proof.
  induction s as [|c s IH]; cbn [search]; rewrite orb_true_iff, match_at_spec; split.
  - intros [(m & post & E & H)|H]; [by exists [], m, post|done].
  - intros (pre & m & post & E & H). symmetry in E. apply app_eq_nil in E as [-> E]. left. by exists m, post.
  - intros [(m & post & E & H)|H]; [by exists [], m, post|]. apply IH in H as (pre & m & post & -> & H). by exists (c :: pre), m, post.
  - intros (pre & m & post & E & H). destruct pre as [|c' pre]; [left; by exists m, post|].
    injection E as -> ->. right. apply IH. by exists pre, m, post.
Qed.

(** ** The filter against the rules *)

(** A rule of this name matches somewhere in the text. *)
Definition rule_hits (s : string) (name : string) : Prop := exists r, In (name, r) rules /\ occurs r (list_ascii_of_string s).

Lemma scan_hit s hit : scan s = Some hit -> rule_hits s hit.
Proof.
  unfold scan. destruct (String.eqb s ""); [done|]. destruct (List.find _ _) as [[n r]|] eqn:E; [|done].
  apply List.find_some in E as [Hin Hs]. intros [= <-]. exists r. split; [done|]. by apply search_spec.
Qed.

Lemma scan_miss s name : scan s = None -> ~ rule_hits s name.
Proof.
  unfold scan. intros E (r & Hin & Ho). destruct (String.eqb_spec s "") as [->|_].
  - destruct Ho as (pre & m & post & E0 & Hm). cbn in E0. symmetry in E0. apply app_eq_nil in E0 as [_ E0].
    apply app_eq_nil in E0 as [-> _]. apply nullable_spec in Hm.
    assert (Hf : forallb (fun r : string * Re => negb (nullable r.2)) rules = true) by by vm_compute.
    rewrite forallb_forall in Hf. specialize (Hf _ Hin). cbn in Hf. by rewrite Hm in Hf.
  - destruct (List.find _ _) as [[? ?]|] eqn:Ef; [done|]. apply (List.find_none _ _ Ef) in Hin. cbn in Hin.
    apply search_spec in Ho. congruence.
Qed.

(** What is left of a text when layers are taken off. *)
Definition layer (k : nat) (plusSpace : bool) (s : string) : string := Nat.iter k (unescape plusSpace) s.

Lemma layer_S k p s : layer (S k) p s = layer k p (unescape p s).
Proof. unfold layer. induction k as [|k IH]; [done|]. cbn in *. by rewrite IH. Qed.

Lemma layer_fixed k p s : unescape p s = s -> layer k p s = s.
Proof. intros E. induction k as [|k IH]; [done|]. by rewrite layer_S, E. Qed.

Lemma scan_layers_hit n p s hit : scan_layers n p s = Some hit -> exists k, (k <= n)%nat /\ rule_hits (layer k p s) hit.
Proof.
  revert s. induction n as [|n IH]; intros s; cbn [scan_layers]; destruct (scan s) as [h|] eqn:E; intros Hs.
  - injection Hs as <-. exists 0%nat. split; [lia|]. by apply scan_hit.
  - done.
  - injection Hs as <-. exists 0%nat. split; [lia|]. by apply scan_hit.
  - destruct (String.eqb _ s); [done|]. apply IH in Hs as (k & Hk & H). exists (S k). rewrite layer_S. split; [lia|done].
Qed.

Lemma scan_layers_miss n p s : scan_layers n p s = None -> forall k name, (k <= n)%nat -> ~ rule_hits (layer k p s) name.
Proof.
  revert s. induction n as [|n IH]; intros s; cbn [scan_layers]; destruct (scan s) eqn:E; try done.
  - intros _ k name Hk. replace k with 0%nat by lia. by apply scan_miss.
  - destruct (String.eqb_spec (unescape p s) s) as [Ef|_].
    + intros _ k name _. rewrite layer_fixed by done. by apply scan_miss.
    + intros Hs [|k] name Hk; [by apply scan_miss|]. rewrite layer_S. apply IH; [done|lia].
Qed.

(** The texts of a request that are looked at, and whether a plus is a blank there. *)
Definition watched (req : GwRequest) : list (string * bool) :=
  (rq_path req, false) :: (rq_query req, true) ::
  map (fun h : string * string => (h.2, false)) (List.filter (fun h : string * string => watchedHeader h.1) (rq_headerList req)).

(** A rule matches a watched text, or what is left of it with one or two layers of encoding
    taken off. *)
Definition attack (req : GwRequest) (name : string) : Prop :=
  exists s p k, In (s, p) (watched req) /\ (k <= 2)%nat /\ rule_hits (layer k p s) name.

Lemma inspect_first req : inspect (Some req) = foldr or_else None (map (fun t : string * bool => scanUrl t.1 t.2) (watched req)).
Proof.
  unfold inspect, watched. cbn [map foldr fst snd]. do 2 f_equal.
  induction (rq_headerList req) as [|h l IH]; [done|]. cbn. destruct (watchedHeader h.1); cbn; by rewrite IH.
Qed.

Lemma or_else_fold {A} (l : list (option A)) : foldr or_else None l = None <-> Forall (fun o => o = None) l.
Proof.
  induction l as [|o l IH]; cbn; [done|]. rewrite Forall_cons, <- IH. destruct o; cbn; [|tauto]. split; [done|by intros []].
Qed.

Lemma or_else_in {A} (l : list (option A)) x : foldr or_else None l = Some x -> In (Some x) l.
Proof. induction l as [|o l IH]; cbn; [done|]. destruct o; cbn; [intros [= ->]; auto|auto]. Qed.

Lemma inspect_spec req :
  match inspect (Some req) with Some hit => attack req hit | None => forall name, ~ attack req name end.
Proof.
  rewrite inspect_first. destruct (foldr _ _ _) as [hit|] eqn:E.
  - apply or_else_in, in_map_iff in E as ([s p] & E & Hin). apply scan_layers_hit in E as (k & Hk & H). by exists s, p, k.
  - apply or_else_fold in E. intros name (s & p & k & Hin & Hk & H).
    rewrite List.Forall_forall in E. specialize (E (scanUrl s p)).
    apply (scan_layers_miss 2 p s) in H; [done| |done]. apply E. apply in_map_iff. by exists (s, p).
Qed.

(** ** Encoded attacks *)

(** Every byte percent-encoded. *)
Fixpoint pct (s : string) : string :=
  match s with
  | EmptyString => EmptyString
  | String c s => String "%" (String (hex_digit (code c / 16)) (String (hex_digit (code c mod 16)) (pct s)))
  end.

Lemma hex_byte c : exists hi lo, hex (hex_digit (code c / 16)) = Some hi /\ hex (hex_digit (code c mod 16)) = Some lo /\
  chr (wrap8 (Z.lor (Z.shiftl hi 4) lo)) = c.
Proof.
  exists (code c / 16), (code c mod 16). destruct c as [[] [] [] [] [] [] [] []]; by vm_compute.
Qed.

Lemma unescape_pct p s t : unescape p (pct s ++ t)%string = (s ++ unescape p t)%string.
Proof.
  induction s as [|c s IH]; [done|]. destruct (hex_byte c) as (hi & lo & E1 & E2 & E3).
  simpl. by rewrite E1, E2, E3, IH.
Qed.

(** The equation of [unescape] on three characters, and where the second or third of them
    is a percent sign. *)
Lemma unescape_three p c a b s : unescape p (String c (String a (String b s))) =
  if Ascii.eqb c "%" then
    match hex a, hex b with
    | Some hi, Some lo => String (chr (wrap8 (Z.lor (Z.shiftl hi 4) lo))) (unescape p s)
    | _, _ => String (unescape_one p c) (unescape p (String a (String b s)))
    end
  else String (unescape_one p c) (unescape p (String a (String b s))).
Proof. done. Qed.

Lemma unescape_two p c a : unescape p (String c (String a "")) = String (unescape_one p c) (unescape p (String a "")).
Proof. simpl. by destruct (Ascii.eqb c "%"). Qed.

Lemma unescape_cut p c y : unescape p (String c (String "%" y)) = String (unescape_one p c) (unescape p (String "%" y)).
Proof. destruct y as [|d y]; [apply unescape_two|]. rewrite unescape_three. by destruct (Ascii.eqb c "%"). Qed.

Lemma unescape_cut2 p c a y :
  unescape p (String c (String a (String "%" y))) = String (unescape_one p c) (unescape p (String a (String "%" y))).
Proof. rewrite unescape_three. by destruct (Ascii.eqb c "%"), (hex a). Qed.

(** A sequence that starts with a percent sign is not part of one before it. *)
Lemma unescape_app p x y : unescape p (x ++ String "%" y)%string = (unescape p x ++ unescape p (String "%" y))%string.
Proof.
  assert (X : forall n x, (String.length x <= n)%nat ->
    unescape p (x ++ String "%" y)%string = (unescape p x ++ unescape p (String "%" y))%string).
  { intros n. induction n as [|n IH]; intros [|c [|a [|b x']]] Hn; try done; try (cbn in Hn; lia).
    - change (String c "" ++ String "%" y)%string with (String c (String "%" y)). rewrite unescape_cut. simpl (unescape p (String c "")).
      by destruct (Ascii.eqb c "%").
    - change (String c (String a "") ++ String "%" y)%string with (String c (String a (String "%" y))).
      rewrite unescape_cut2, unescape_two. pose proof (IH (String a "")) as IH1. cbn in Hn.
      change (String a "" ++ String "%" y)%string with (String a (String "%" y)) in IH1. rewrite IH1 by (cbn; lia). done.
    - change (String c (String a (String b x')) ++ String "%" y)%string with (String c (String a (String b (x' ++ String "%" y)%string))).
      rewrite !unescape_three. pose proof (IH (String a (String b x'))) as IH1. pose proof (IH x') as IH2. cbn in Hn.
      change (String a (String b x') ++ String "%" y)%string with (String a (String b (x' ++ String "%" y)%string)) in IH1.
      rewrite IH1, IH2 by (cbn; lia). by destruct (Ascii.eqb c "%"), (hex a), (hex b). }
  by apply (X (String.length x)).
Qed.

Lemma pct_percent s : s <> ""%string -> exists t, pct s = String "%" t.
Proof. destruct s as [|c s]; [done|]. intros _. by eexists. Qed.

Lemma pct_iter_nonempty k a : a <> ""%string -> Nat.iter k pct a <> ""%string.
Proof.
  intros Ha. induction k as [|k IH]; [done|]. change (Nat.iter (S k) pct a) with (pct (Nat.iter k pct a)).
  by destruct (pct_percent _ IH) as [t ->].
Qed.

(** Encoded [k] times in the middle of a text, seen again after [k] layers. *)
Lemma layer_pct p k a : a <> ""%string -> forall x y, exists x' y', layer k p (x ++ Nat.iter k pct a ++ y)%string = (x' ++ a ++ y')%string.
Proof.
  intros Ha. induction k as [|k IH]; intros x y; [by exists x, y|]. rewrite layer_S.
  change (Nat.iter (S k) pct a) with (pct (Nat.iter k pct a)).
  destruct (pct_percent _ (pct_iter_nonempty k a Ha)) as [t Et].
  assert (E : (pct (Nat.iter k pct a) ++ y)%string = String "%" (t ++ y)%string) by by rewrite Et.
  rewrite E, unescape_app, <- E, unescape_pct. apply IH.
Qed.

Lemma occurs_app r s pre post : occurs r s -> occurs r (pre ++ s ++ post).
Proof.
  intros (x & m & y & -> & H). exists (pre ++ x), m, (y ++ post). by rewrite <- !app_assoc.
Qed.

Lemma list_of_app s t : list_ascii_of_string (s ++ t)%string = list_ascii_of_string s ++ list_ascii_of_string t.
Proof. induction s as [|c s IH]; [done|]. exact (f_equal (cons c) IH). Qed.

Lemma rule_hits_app a name x y : rule_hits a name -> rule_hits (x ++ a ++ y)%string name.
Proof.
  intros (r & Hin & Ho). exists r. split; [done|]. rewrite !list_of_app. by apply occurs_app.
Qed.

Lemma rule_hits_nonempty a name : rule_hits a name -> a <> ""%string.
Proof. intros H ->. by apply (scan_miss "" name). Qed.

(** ** The middleware *)

Section exact.
Context {G : Type} (env : nat -> Turn) (now : nat -> Z) {IN : Inet} (peer : option Ip) (trusted : list Ip).
#[local] Abbreviation Ctx := (@ReqCtx G).

Lemma waf_lawful cfg reporter : lawful (MakeWaf (G := G) env now peer trusted cfg reporter).
Proof.
  intros next Hn c Hc _. unfold MakeWaf. destruct (negb _); [by apply Hn|]. destruct (inspect _); [|by apply Hn].
  pose proof (settled_same _ _ (loadClientAddr_same peer trusted c) Hc) as H'. destruct (loadClientAddr peer trusted c) as [ok c'].
  cbn in H'. cbv zeta. apply reply_settled. by destruct (_ && _).
Qed.

(** What the filter makes of a request with an attack. *)
Lemma waf_refuses cfg reporter (c : Ctx) req name : wc_on cfg = true -> request c = Some req -> attack req name ->
  exists c', (forall next, MakeWaf env now peer trusted cfg reporter next c = reply env now 403 ("Forbidden" ++ String LF "")%string [] true c') /\
    same_answer c c'.
Proof.
  intros Hon Hr Ha. pose proof (inspect_spec req) as H. unfold MakeWaf. rewrite Hon, Hr. cbn [negb].
  destruct (inspect (Some req)) as [hit|]; [|by apply H in Ha].
  pose proof (loadClientAddr_same peer trusted c) as Hs. destruct (loadClientAddr peer trusted c) as [ok c']. cbn in Hs.
  eexists. split; [intros next; cbv zeta; reflexivity|]. destruct (reporter && ok); [by destruct Hs; split|done].
Qed.
End exact.

(** C8: the filter refuses exactly the requests that a rule matches. When some rule matches
    the path, the query or a watched field, as it is or with one or two layers of
    percent-encoding taken off, the request is answered 403 and nothing behind the filter
    sees it; when none does, the filter changes nothing. *)
Theorem waf_exact {G : Type} (env : nat -> Turn) (now : nat -> Z) {IN : Inet} (peer : option Ip) (trusted : list Ip)
    (cfg : WafCfg) (reporter : bool) (c : @ReqCtx G) (req : GwRequest) :
  wc_on cfg = true -> request c = Some req -> settled c ->
  ((forall name, ~ attack req name) -> forall next, MakeWaf env now peer trusted cfg reporter next c = next c) /\
  (forall name, attack req name -> exists c', answered_ctx c' /\ forall next, MakeWaf env now peer trusted cfg reporter next c = c').
Proof.
  intros Hon Hr Hc. split.
  - intros Hno next. unfold MakeWaf. rewrite Hon, Hr. cbn [negb]. pose proof (inspect_spec req) as H.
    destruct (inspect (Some req)) as [hit|]; [by apply Hno in H|done].
  - intros name Ha. destruct (waf_refuses env now peer trusted cfg reporter c req name Hon Hr Ha) as (c' & Hw & Hs).
    eexists. split; [|exact Hw]. apply reply_settled. by apply (settled_same c).
Qed.

(** Encoding does not hide an attack: a text that a rule matches, percent-encoded once,
    twice or not at all and put anywhere in the path, the query or a watched field, is
    refused. *)
Theorem waf_encoded {G : Type} (env : nat -> Turn) (now : nat -> Z) {IN : Inet} (peer : option Ip) (trusted : list Ip)
    (cfg : WafCfg) (reporter : bool) (c : @ReqCtx G) (req : GwRequest) (a name x y : string) (plusSpace : bool) (k : nat) :
  wc_on cfg = true -> request c = Some req -> rule_hits a name -> (k <= 2)%nat ->
  In ((x ++ Nat.iter k pct a ++ y)%string, plusSpace) (watched req) ->
  exists c', same_answer c c' /\
    forall next, MakeWaf env now peer trusted cfg reporter next c = reply env now 403 ("Forbidden" ++ String LF "")%string [] true c'.
Proof.
  intros Hon Hr Ha Hk Hin.
  assert (Hat : attack req name).
  { exists (x ++ Nat.iter k pct a ++ y)%string, plusSpace, k. split; [done|]. split; [done|].
    destruct (layer_pct plusSpace k a (rule_hits_nonempty a name Ha) x y) as (x' & y' & ->). by apply rule_hits_app. }
  destruct (waf_refuses env now peer trusted cfg reporter c req name Hon Hr Hat) as (c' & Hw & Hs). by exists c'.
Qed.

(** ** Witnesses *)

Definition sample_query (query : string) : GwRequest := request_init <| rq_query := query |>.

Definition sample_waf_ctx (query : string) : @ReqCtx unit :=
  ctx_init (mkClient (Some (sample_query query)) None F_NONE 0 true false false 0 Q_NONE 0 []) (rate_init 1 0) 0.

Definition sample_waf : WafCfg := mkWaf true 600000.

Definition sample_attack : string := "UNION  select".

Lemma waf_exact_witness :
  (forall next, MakeWaf (IN := TextInet) calm (fun _ => 0) None [] sample_waf true next (sample_waf_ctx "id=1") = next (sample_waf_ctx "id=1")) /\
  exists c', answered_ctx c' /\
    forall next, MakeWaf (IN := TextInet) calm (fun _ => 0) None [] sample_waf true next (sample_waf_ctx sample_attack) = c'.
Proof.
  split.
  - apply (waf_exact (IN := TextInet) calm (fun _ => 0) None [] sample_waf true (sample_waf_ctx "id=1") (sample_query "id=1"));
      [reflexivity|reflexivity|by split_and!|]. pose proof (inspect_spec (sample_query "id=1")) as Hi.
    assert (Ei : inspect (Some (sample_query "id=1")) = None) by (vm_compute; reflexivity). rewrite Ei in Hi. exact Hi.
  - apply (proj2 (waf_exact (IN := TextInet) calm (fun _ => 0) None [] sample_waf true (sample_waf_ctx sample_attack)
      (sample_query sample_attack) eq_refl eq_refl ltac:(by split_and!)) "sqli"%string).
    exists sample_attack, true, 0%nat. split; [right; left; reflexivity|]. split; [lia|]. apply scan_hit. by vm_compute.
Defined.

Lemma waf_encoded_witness :
  let c := sample_waf_ctx ("id=" ++ pct (pct sample_attack) ++ "&x")%string in
  exists c', same_answer c c' /\ forall next,
    MakeWaf (IN := TextInet) calm (fun _ => 0) None [] sample_waf true next c =
    reply calm (fun _ => 0) 403 ("Forbidden" ++ String LF "")%string [] true c'.
Proof.
  apply (waf_encoded (IN := TextInet) calm (fun _ => 0) None [] sample_waf true _
    (sample_query ("id=" ++ pct (pct sample_attack) ++ "&x")%string) sample_attack "sqli" "id=" "&x" true 2); [done|done| |lia|].
  - apply scan_hit. by vm_compute.
  - right. left. reflexivity.
Defined.

(** What each rule finds, and a text that none does. *)
Example rules_find :
  (scan "x Or  1 = 1", scan "<IMG a=b src", scan "..\", scan "/Nikto", scan "a -- b", scan "order 1=1", inspect None) =
  (Some "sqli", Some "xss", Some "travers", Some "scanner", Some "sqli", None, None)%string.
Proof. by vm_compute. Qed.

(** A plus is a blank in the query only. *)
Example plus_in_query : (scanUrl "1+or+1=1" true, scanUrl "1+or+1=1" false) = (Some "sqli"%string, None).
Proof. by vm_compute. Qed.
