(* ===== verification/Auth.v ===== *)
(** * Who may pass (src/gateway/jwt.cpp, builtin.cpp: route_auth)

    The token check and the middleware that applies a route's policy: nobody, a bearer
    token or a key. What passes has shown what its route asks for, and the identity the
    upstream is told is the one that was shown. The token library and the hash are
    arguments. *)

From S2P Require Import Prelude Records Str HttpMsg Body HttpParse Ip Router RouteCache Breaker UpsGroup Heads Forward RateLimit Ctx Mw.

Inductive AuthErr :=
  | E_Ok | E_NoToken | E_BadToken | E_BadKey | E_BadSig | E_Expired | E_BadIss | E_BadAud | E_BadAlg
  | E_Scope | E_Role | E_BadPolicy.

#[global] Instance AuthErr_eq_dec : EqDecision AuthErr.
Proof. solve_decision. Defined.

Definition auth_name (e : AuthErr) : string :=
  match e with
  | E_Ok => "ok" | E_NoToken => "missing" | E_BadToken => "bad_token" | E_BadKey => "bad_key"
  | E_BadSig => "bad_sig" | E_Expired => "expired" | E_BadIss => "bad_iss" | E_BadAud => "bad_aud"
  | E_BadAlg => "bad_alg" | E_Scope => "scope" | E_Role => "role" | E_BadPolicy => "bad_policy"
  end.

Record JwtKey := mkJwtKey { jk_kid : string; jk_algo : string; jk_pubKey : string }.

Record JwtAuthConfig := mkJwtCfg {
  jc_algo : string; jc_secret : string; jc_pubKey : string; jc_issuer : string; jc_audience : string;
  jc_leewaySec : Z; jc_keys : list JwtKey }.

Record ApiKey := mkApiKey { ak_id : string; ak_hash : string; ak_enabled : bool; ak_scopes : list string }.

Record RouteAuthConfig := mkAuthCfg {
  au_globalJwtEnabled : bool; au_apiKeyHeader : string; au_apiKeys : list string; au_keys : list ApiKey;
  au_fwdUser : bool; au_stripBearer : bool; au_stripApiKey : bool; au_fwdPrefix : string }.

(** A claim of a token: absent, of a type the accessor throws on, or its value. *)
Inductive Claim (A : Type) := K_ABSENT | K_BAD | K_VAL (a : A).
Arguments K_ABSENT {A}.
Arguments K_BAD {A}.
Arguments K_VAL {A}.

(** What a token says, as the accessors of the token library give it. *)
Record Token := mkToken {
  tk_alg : Claim string; tk_kid : Claim string; tk_exp : Claim unit; tk_iss : Claim string;
  tk_aud : Claim (list string); tk_sub : Claim string; tk_scope : Claim string;
  tk_roles : Claim (list (option string)) }.

Inductive VerifyRes := VR_OK | VR_EXPIRED | VR_BAD.

(** The token library: [None] where it throws. *)
Class JwtLib := {
  jwt_decode : string -> option Token;
  jwt_verify : string -> string -> Z -> string -> option VerifyRes  (* algorithm, key, leeway, token *)
}.

(** The words of a text, as [>>] reads them. *)
Fixpoint words_acc (s : string) (cur : string) : list string :=
  match s with
  | EmptyString => if String.eqb cur "" then [] else [cur]
  | String c s =>
      if isspace c then (if String.eqb cur "" then words_acc s "" else cur :: words_acc s "")
      else words_acc s (cur ++ String c "")%string
  end.

Definition split_ws (s : string) : list string := words_acc s "".

(** ** Comparing keys *)

Definition code_at (s : string) (i : nat) : Z := match String.get i s with Some c => code c | None => 0 end.

Definition const_time_eq (a b : string) : bool :=
  let maxLen := Nat.max (String.length a) (String.length b) in
  let diff := if Nat.eqb (String.length a) (String.length b) then 0 else 1 in
  fold_left (fun d i => Z.lor d (Z.lxor (code_at a i) (code_at b i))) (seq 0 maxLen) diff =? 0.

Definition apikey_ok (keys : list string) (got : string) : bool :=
  negb (String.eqb got "") && fold_left (fun ok k => const_time_eq k got || ok) keys false.

Definition DOT : ascii := "."%char.

(** ** Values for the upstream *)

Definition bad_user_char (c : ascii) : bool := (code c <=? 32) || (code c =? 127) || Ascii.eqb c COMMA.

Definition good_user_val (v : string) : bool :=
  negb (String.eqb v "") && string_forallb (fun c => negb (bad_user_char c)) v.

Definition join_comma (l : list string) : string := join_with "," l.

Definition join_user_vals (vals : list string) : string := join_comma (List.filter good_user_val vals).

Section auth.
Context {G : Type}.
#[local] Abbreviation Ctx := (@ReqCtx G).
#[local] Abbreviation Middleware := (@Middleware G).

Section keys.
Context (SHA256 : string -> list Z).

Definition key_hash (s : string) : string :=
  of_chars (flat_map (fun c => [hex_digit (Z.shiftr c 4); hex_digit (Z.land c 15)]) (SHA256 s)).

Definition key_matches (id hash : string) (k : ApiKey) : bool :=
  String.eqb (ak_id k) id && ak_enabled k && Nat.eqb (String.length (ak_hash k)) (String.length hash)
  && const_time_eq (ak_hash k) hash.

Definition apikey_find (keys : list ApiKey) (got : string) : option ApiKey :=
  match break_at DOT got with
  | None => None
  | Some (id, rest) =>
      if String.eqb id "" || String.eqb rest "" then None
      else
        let hash := key_hash rest in
        fold_left (fun found k =>
          if negb (String.eqb (ak_id k) id) || negb (ak_enabled k)
             || negb (Nat.eqb (String.length (ak_hash k)) (String.length hash)) then found
          else if const_time_eq (ak_hash k) hash && match found with None => true | Some _ => false end then Some k
          else found) keys None
  end.
End keys.

(** ** Bearer tokens *)

Section jwt.
Context `{JwtLib} (cfg : JwtAuthConfig).

Definition asym : bool := String.eqb (jc_algo cfg) "RS256" || String.eqb (jc_algo cfg) "ES256".
Definition no_keys : bool := match jc_keys cfg with [] => true | _ => false end.

Definition bearer (req : GwRequest) : option string :=
  let auth := rq_getHeader "Authorization" "" req in
  if (String.length auth <? 8)%nat then None
  else if case_eqb (substring 0 7 auth) "Bearer " then Some (substring 7 (String.length auth - 7) auth) else None.

(** The key of the token: the configured one, or that of its [kid]. *)
Definition key_of (t : Token) : AuthErr + string :=
  if no_keys then inr (jc_pubKey cfg)
  else match tk_kid t with
       | K_ABSENT => inl E_BadSig
       | K_BAD => inl E_BadToken
       | K_VAL kid =>
           match List.find (fun k => String.eqb (jk_kid k) kid) (jc_keys cfg) with
           | None => inl E_BadSig
           | Some k => if negb (String.eqb (jk_algo k) (jc_algo cfg)) || String.eqb (jk_pubKey k) "" then inl E_BadSig
                       else inr (jk_pubKey k)
           end
       end.

Definition check_alg (t : Token) : AuthErr :=
  match tk_alg t with
  | K_VAL alg => if String.eqb alg "none" || negb (String.eqb alg (jc_algo cfg)) then E_BadAlg else E_Ok
  | _ => E_BadToken
  end.

Definition check_exp (t : Token) : AuthErr := match tk_exp t with K_VAL _ => E_Ok | _ => E_BadToken end.

Definition check_sig (key token : string) : AuthErr :=
  if negb (String.eqb (jc_algo cfg) "HS256" || asym) then E_BadAlg
  else
    match jwt_verify (jc_algo cfg) (if asym then key else jc_secret cfg) (jc_leewaySec cfg) token with
    | None => E_BadToken
    | Some VR_OK => E_Ok
    | Some VR_EXPIRED => E_Expired
    | Some VR_BAD => E_BadSig
    end.

Definition check_iss (t : Token) : AuthErr :=
  if String.eqb (jc_issuer cfg) "" then E_Ok
  else match tk_iss t with
       | K_ABSENT => E_BadIss
       | K_BAD => E_BadToken
       | K_VAL i => if String.eqb i (jc_issuer cfg) then E_Ok else E_BadIss
       end.

Definition check_aud (t : Token) : AuthErr :=
  if String.eqb (jc_audience cfg) "" then E_Ok
  else match tk_aud t with
       | K_ABSENT => E_BadAud
       | K_BAD => E_BadToken
       | K_VAL auds => if existsb (String.eqb (jc_audience cfg)) auds then E_Ok else E_BadAud
       end.

Definition token_sub (t : Token) : string := match tk_sub t with K_VAL v => v | _ => ""%string end.
Definition token_scopes (t : Token) : list string := match tk_scope t with K_VAL v => split_ws v | _ => [] end.
Definition token_roles (t : Token) : list string := match tk_roles t with K_VAL l => omap id l | _ => [] end.

Definition store_claims (t : Token) (c : Ctx) : Ctx :=
  setAttr "jwt_roles" (AT_LIST (token_roles t))
    (setAttr "auth_scopes" (AT_LIST (token_scopes t))
      (setAttr "jwt_scopes" (AT_LIST (token_scopes t)) (setAttr "jwt_sub" (AT_STR (token_sub t)) c))).

(** The first check that fails. *)
Definition and_then (e : AuthErr) (k : AuthErr) : AuthErr := match e with E_Ok => k | _ => e end.

Definition check_token (token : string) : AuthErr + Token :=
  match jwt_decode token with
  | None => inl E_BadToken
  | Some t =>
      match check_alg t with
      | E_Ok =>
          match key_of t with
          | inl e => inl e
          | inr key =>
              match and_then (check_exp t) (and_then (check_sig key token) (and_then (check_iss t) (check_aud t))) with
              | E_Ok => inr t
              | e => inl e
              end
          end
      | e => inl e
      end
  end.

Definition authenticate (c : Ctx) : AuthErr * Ctx :=
  if negb asym && (negb no_keys || String.eqb (jc_secret cfg) "") then (E_BadSig, c)
  else if asym && no_keys && String.eqb (jc_pubKey cfg) "" then (E_BadSig, c)
  else if asym && negb no_keys && negb (String.eqb (jc_pubKey cfg) "") then (E_BadSig, c)
  else match request c with
  | None => (E_NoToken, c)
  | Some req =>
      match bearer req with
      | None => (E_NoToken, c)
      | Some token =>
          match check_token token with
          | inl e => (e, c)
          | inr t => (E_Ok, store_claims t c)
          end
      end
  end.
End jwt.

(** ** Authorization *)

(** Every scope the route asks for, and one of its roles. *)
Definition authz_err (rule : RuleCfg) (c : Ctx) : AuthErr :=
  let scopes := match attr_list "auth_scopes" c with Some l => l | None => default [] (attr_list "jwt_scopes" c) end in
  let roles := default [] (attr_list "jwt_roles" c) in
  if negb (forallb (fun need => existsb (String.eqb need) scopes) (rc_reqScopes rule)) then E_Scope
  else match rc_reqRoles rule with
       | [] => E_Ok
       | needs => if existsb (fun need => existsb (String.eqb need) roles) needs then E_Ok else E_Role
       end.

Definition user_hdr (cfg : RouteAuthConfig) (what : string) : string := (au_fwdPrefix cfg ++ what)%string.

Definition strip_user_hdrs (cfg : RouteAuthConfig) (c : Ctx) : Ctx :=
  if negb (au_fwdUser cfg) then c
  else on_request (fun r => rq_delHeader (user_hdr cfg "Roles")
                              (rq_delHeader (user_hdr cfg "Scopes") (rq_delHeader (user_hdr cfg "Id") r))) c.

Definition set_user_vals (name : string) (vals : option (list string)) (r : GwRequest) : GwRequest :=
  match vals with
  | Some vals => let v := join_user_vals vals in if String.eqb v "" then r else rq_setHeader name v r
  | None => r
  end.

Definition fwd_user (cfg : RouteAuthConfig) (c : Ctx) : Ctx :=
  if negb (au_fwdUser cfg) then c
  else on_request (fun r =>
    let r := match attr_str "jwt_sub" c with
             | Some sub => if good_user_val sub then rq_setHeader (user_hdr cfg "Id") sub r else r
             | None => r
             end in
    let r := set_user_vals (user_hdr cfg "Scopes") (attr_list "jwt_scopes" c) r in
    set_user_vals (user_hdr cfg "Roles") (attr_list "jwt_roles" c) r) c.

Definition mark_auth (scheme : string) (e : AuthErr) (c : Ctx) : Ctx :=
  setAttr "auth_result" (AT_STR (auth_name e)) (setAttr "auth" (AT_STR scheme) c).

Definition nonempty_list (l : list string) : bool := match l with [] => false | _ => true end.

(** [RouteRule]'s part the middlewares read. *)
Definition rule_of (c : Ctx) : option RuleCfg := rr_rest <$> rt_rule (c_route c).

(** What the route says, [inherit] resolved. *)
Definition policy_of (cfg : RouteAuthConfig) (c : Ctx) : string :=
  let policy :=
    match rule_of c with
    | Some rule => if String.eqb (rc_authPolicy rule) "" then "inherit"%string else rc_authPolicy rule
    | None => "none"%string
    end in
  if String.eqb policy "inherit" then (if au_globalJwtEnabled cfg then "jwt" else "none")%string else policy.

(** The route asks for what its policy cannot show. *)
Definition bad_policy (policy : string) (rule : option RuleCfg) : bool :=
  match rule with
  | Some rule =>
      nonempty_list (rc_reqScopes rule) && negb (String.eqb policy "jwt") && negb (String.eqb policy "api_key")
      || nonempty_list (rc_reqRoles rule) && negb (String.eqb policy "jwt")
  | None => false
  end.

Definition needs_user (cfg : RouteAuthConfig) (rule : option RuleCfg) : bool :=
  match rule with Some rule => au_fwdUser cfg || String.eqb (rc_rateLimitKey rule) "user" | None => false end.

Definition good_sub (c : Ctx) : bool := match attr_str "jwt_sub" c with Some v => good_user_val v | None => false end.

Definition rule_authz (c : Ctx) : AuthErr := match rule_of c with Some rule => authz_err rule c | None => E_Ok end.

Section route_auth.
Context (SHA256 : string -> list Z) (jwtAuth : option (Ctx -> AuthErr * Ctx)) (cfg : RouteAuthConfig).

Definition jwt_policy (c : Ctx) : option Z * Ctx :=
  let '(e, c) := match jwtAuth with Some auth => auth c | None => (E_BadSig, c) end in
  let e := match e with
           | E_Ok => if needs_user cfg (rule_of c) && negb (good_sub c) then E_BadToken else E_Ok
           | _ => e
           end in
  if negb (bool_decide (e = E_Ok)) then (Some 401, mark_auth "jwt" e c)
  else
    let authz := rule_authz c in
    if negb (bool_decide (authz = E_Ok)) then (Some 403, mark_auth "jwt" authz c)
    else
      let c := mark_auth "jwt" E_Ok c in
      let c := if au_stripBearer cfg then on_request (rq_delHeader "Authorization") c else c in
      (None, fwd_user cfg c).

Definition api_key_policy (c : Ctx) : option Z * Ctx :=
  let key := header_of (request c) (au_apiKeyHeader cfg) in
  let found := apikey_find SHA256 (au_keys cfg) key in
  if match found with Some _ => true | None => false end || apikey_ok (au_apiKeys cfg) key then
    let c := match found with
             | Some k => setAttr "auth_scopes" (AT_LIST (ak_scopes k)) (setAttr "api_key_id" (AT_STR (ak_id k)) c)
             | None => c
             end in
    let authz := rule_authz c in
    if negb (bool_decide (authz = E_Ok)) then (Some 403, mark_auth "api_key" authz c)
    else
      let c := if au_stripApiKey cfg then on_request (rq_delHeader (au_apiKeyHeader cfg)) c else c in
      (None, mark_auth "api_key" E_Ok c)
  else (Some 401, mark_auth "api_key" (if String.eqb key "" then E_NoToken else E_BadKey) c).

(** [None]: the request goes on. *)
Definition route_auth (c : Ctx) : option Z * Ctx :=
  let c := strip_user_hdrs cfg c in
  let policy := policy_of cfg c in
  if bad_policy policy (rule_of c) then (Some 403, mark_auth (if String.eqb policy "api_key" then "api_key" else "other") E_BadPolicy c)
  else if String.eqb policy "none" then (None, mark_auth "other" E_Ok c)
  else if String.eqb policy "jwt" then jwt_policy c
  else if String.eqb policy "api_key" then api_key_policy c
  else (Some 403, mark_auth "other" E_BadPolicy c).

Definition deny_body (status : Z) : string :=
  ((if (status =? 401)%Z then "Unauthorized" else "Forbidden") ++ String LF "")%string.

Definition MakeRouteAuthMiddleware (env : nat -> Turn) (now : nat -> Z) : Middleware := fun next c =>
  match route_auth c with
  | (None, c) => next c
  | (Some status, c) => refuse env now status (deny_body status) [] false c
  end.
End route_auth.

(** ** Lemmas *)

Lemma code_inj a b : code a = code b -> a = b.
Proof. unfold code. intros H%N2Z.inj. rewrite <- (ascii_N_embedding a), <- (ascii_N_embedding b). by f_equal. Qed.

Lemma fold_lor_zero (f : nat -> Z) l d :
  fold_left (fun d i => Z.lor d (f i)) l d = 0 <-> d = 0 /\ Forall (fun i => f i = 0) l.
Proof.
  revert d. induction l as [|i l IH]; intros d; cbn [fold_left].
  - split; [done|by intros [H _]].
  - rewrite IH, Z.lor_eq_0_iff, Forall_cons. tauto.
Qed.

Lemma same_codes a b : String.length a = String.length b ->
  (forall i, (i < String.length a)%nat -> code_at a i = code_at b i) -> a = b.
Proof.
  revert b. induction a as [|x a IH]; intros [|y b] Hl Hc; try done. cbn in Hl. f_equal.
  - apply code_inj. apply (Hc 0%nat). cbn. lia.
  - apply IH; [lia|]. intros i Hi. apply (Hc (S i)). cbn. lia.
Qed.

(** The comparison that takes the same time for every key is equality. *)
Lemma const_time_eq_spec a b : const_time_eq a b = String.eqb a b.
Proof.
  apply eq_true_iff_eq. unfold const_time_eq. rewrite Z.eqb_eq, fold_lor_zero, String.eqb_eq. split.
  - intros [Hl Hf]. destruct (Nat.eqb _ _) eqn:E; [|done]. apply Nat.eqb_eq in E. apply same_codes; [done|].
    intros i Hi. rewrite Forall_forall in Hf. apply Z.lxor_eq, Hf. apply list_elem_of_In, in_seq. lia.
  - intros ->. rewrite Nat.eqb_refl. split; [done|]. apply Forall_true. intros i. by apply Z.lxor_nilpotent.
Qed.

Lemma apikey_ok_spec keys got : apikey_ok keys got = true <-> got <> EmptyString /\ In got keys.
Proof.
  unfold apikey_ok. rewrite andb_true_iff, negb_true_iff, String.eqb_neq.
  assert (H : forall ok, fold_left (fun ok k => const_time_eq k got || ok) keys ok = true <-> In got keys \/ ok = true).
  { induction keys as [|k keys IH]; intros ok; cbn [fold_left]; [cbn; tauto|].
    rewrite IH, orb_true_iff, const_time_eq_spec, String.eqb_eq. cbn. tauto. }
  rewrite H. intuition congruence.
Qed.

Lemma break_at_split c s a b : break_at c s = Some (a, b) -> s = (a ++ String c b)%string.
Proof.
  revert a. induction s as [|d s IH]; intros a; cbn [break_at]; [done|]. destruct (Ascii.eqb c d) eqn:E.
  - apply Ascii.eqb_eq in E as <-. by intros [= <- <-].
  - destruct (break_at c s) as [[a' b']|]; [|done]. intros [= <- <-]. rewrite (IH a' eq_refl). done.
Qed.

(** Whatever a fold that only ever stores what has [Q] gives, has [Q]. *)
Lemma fold_option_inv {A B} (Q : B -> Prop) (f : option B -> A -> option B) l acc :
  (forall acc x, In x l -> (forall k, acc = Some k -> Q k) -> forall k, f acc x = Some k -> Q k) ->
  (forall k, acc = Some k -> Q k) -> forall k, fold_left f l acc = Some k -> Q k.
Proof.
  revert acc. induction l as [|x l IH]; intros acc Hf Ha; cbn [fold_left]; [done|].
  apply IH; [intros; eapply Hf; [by right|done|done]|]. apply Hf; [by left|done].
Qed.

Lemma apikey_find_spec SHA256 keys got k : apikey_find SHA256 keys got = Some k ->
  In k keys /\ ak_enabled k = true /\ exists rest, got = (ak_id k ++ String DOT rest)%string /\
    ak_id k <> EmptyString /\ rest <> EmptyString /\ ak_hash k = key_hash SHA256 rest.
Proof.
  unfold apikey_find. destruct (break_at DOT got) as [[id rest]|] eqn:E; [|done].
  destruct (String.eqb id "" || String.eqb rest "") eqn:En; [done|]. apply orb_false_iff in En as [E1%String.eqb_neq E2%String.eqb_neq]. set (h := key_hash SHA256 rest). intros Hf.
  assert (HP : In k keys /\ ak_id k = id /\ ak_enabled k = true /\ ak_hash k = h).
  { revert k Hf. apply fold_option_inv; [|done]. intros acc x Hx Ha k.
    destruct (negb (String.eqb (ak_id x) id)) eqn:F1; [by apply Ha|]. destruct (negb (ak_enabled x)) eqn:F2; [by apply Ha|].
    destruct (negb (Nat.eqb _ _)) eqn:E3; [by apply Ha|]. cbn [orb]. rewrite const_time_eq_spec.
    destruct (String.eqb_spec (ak_hash x) h) as [Eh|]; cbn [andb]; [|by apply Ha].
    destruct acc; [by apply Ha|]. intros [= <-]. apply negb_false_iff in F1, F2. apply String.eqb_eq in F1. done. }
  destruct HP as (H1 & <- & H2 & H3). split_and!; try done. exists rest. split_and!; try done. by apply break_at_split.
Qed.

(** ** Attributes and headers *)

Lemma attr_list_set k k' v (c : Ctx) :
  attr_list k (setAttr k' v c) = if String.eqb k k' then match v with AT_LIST l => Some l | _ => None end else attr_list k c.
Proof.
  unfold attr_list, setAttr. cbn. destruct (String.eqb_spec k k') as [->|Hk]; [by rewrite lookup_insert_eq|].
  by rewrite lookup_insert_ne by congruence.
Qed.

Lemma attr_str_set k k' v (c : Ctx) :
  attr_str k (setAttr k' v c) = if String.eqb k k' then match v with AT_STR l => Some l | _ => None end else attr_str k c.
Proof.
  unfold attr_str, setAttr. cbn. destruct (String.eqb_spec k k') as [->|Hk]; [by rewrite lookup_insert_eq|].
  by rewrite lookup_insert_ne by congruence.
Qed.

Lemma case_eqb_prefix p a b : has_char NUL p = false -> case_eqb (p ++ a) (p ++ b) = case_eqb a b.
Proof.
  unfold case_eqb. induction p as [|x p IH]; [done|]. cbn [has_char]. intros H. apply orb_false_iff in H as [H1 H2].
  change ((String x p ++ a)%string) with (String x (p ++ a)). change ((String x p ++ b)%string) with (String x (p ++ b)).
  cbn [c_str]. rewrite Ascii.eqb_sym, H1. cbn [lower String.eqb]. rewrite Ascii.eqb_refl. by apply IH.
Qed.

Lemma in_list_existsb x l : existsb (String.eqb x) l = true <-> In x l.
Proof.
  rewrite existsb_exists. split; [intros (y & Hy & E); apply String.eqb_eq in E; by subst|].
  intros H. exists x. by rewrite String.eqb_refl.
Qed.

(** What was asked of a request is shown by lists of scopes and roles. *)
Definition shows (rule : option RuleCfg) (scopes roles : list string) : Prop :=
  match rule with
  | Some rule =>
      (forall need, In need (rc_reqScopes rule) -> In need scopes) /\
      (rc_reqRoles rule <> [] -> exists role, In role (rc_reqRoles rule) /\ In role roles)
  | None => True
  end.

Lemma authz_ok (c : Ctx) scopes roles : rule_authz c = E_Ok -> attr_list "auth_scopes" c = Some scopes \/
    attr_list "auth_scopes" c = None /\ attr_list "jwt_scopes" c = None /\ scopes = [] ->
  default [] (attr_list "jwt_roles" c) = roles -> shows (rule_of c) scopes roles.
Proof.
  unfold rule_authz, shows. destruct (rule_of c) as [rule|]; [|done]. unfold authz_err. intros H Hs Hr. rewrite Hr in H.
  assert (E : match attr_list "auth_scopes" c with Some l => l | None => default [] (attr_list "jwt_scopes" c) end = scopes).
  { destruct Hs as [->|(-> & -> & ->)]; done. }
  rewrite E in H. destruct (forallb _ _) eqn:Ef; [|done]. cbn [negb] in H. rewrite forallb_forall in Ef. split.
  - intros need Hn. by apply in_list_existsb, Ef.
  - intros Hne. destruct (rc_reqRoles rule) as [|x l]; [done|]. destruct (existsb _ (x :: l)) eqn:Ex; [|done].
    apply existsb_exists in Ex as (role & H1 & H2%in_list_existsb). by exists role.
Qed.

(** ** What the checks promise *)

Section promises.
Context (SHA256 : string -> list Z) `{JwtLib} (jcfg : JwtAuthConfig) (cfg : RouteAuthConfig).

(** A token that passes every check of the configuration. *)
Definition valid_token (token : string) (t : Token) : Prop :=
  jwt_decode token = Some t /\ tk_alg t = K_VAL (jc_algo jcfg) /\ In (jc_algo jcfg) ["HS256"; "RS256"; "ES256"]%string /\
  (exists u, tk_exp t = K_VAL u) /\
  (exists key, key_of jcfg t = inr key /\
     jwt_verify (jc_algo jcfg) (if asym jcfg then key else jc_secret jcfg) (jc_leewaySec jcfg) token = Some VR_OK) /\
  (jc_issuer jcfg <> EmptyString -> tk_iss t = K_VAL (jc_issuer jcfg)) /\
  (jc_audience jcfg <> EmptyString -> exists auds, tk_aud t = K_VAL auds /\ In (jc_audience jcfg) auds).

Lemma and_then_ok e k : and_then e k = E_Ok -> e = E_Ok /\ k = E_Ok.
Proof. by destruct e. Qed.

Lemma check_token_valid token t : check_token jcfg token = inr t -> valid_token token t.
Proof.
  unfold check_token, valid_token. destruct (jwt_decode token) as [t'|] eqn:Ed; [|done].
  destruct (check_alg jcfg t') eqn:Ea; try done. destruct (key_of jcfg t') as [|key] eqn:Ek; [done|].
  destruct (and_then _ _) eqn:Ec; try done. intros [= <-].
  apply and_then_ok in Ec as [Ex [Es [Ei Eu]%and_then_ok]%and_then_ok].
  unfold check_alg in Ea. destruct (tk_alg t') as [| |alg] eqn:Eal; try done.
  destruct (String.eqb alg "none" || negb (String.eqb alg (jc_algo jcfg))) eqn:E1; [done|].
  apply orb_false_iff in E1 as [_ E1]. apply negb_false_iff, String.eqb_eq in E1 as ->.
  unfold check_sig in Es. destruct (negb _) eqn:E2 in Es; [done|]. apply negb_false_iff in E2.
  split_and!; try done.
  - unfold asym in E2. rewrite !orb_true_iff, !String.eqb_eq in E2. cbn. intuition congruence.
  - unfold check_exp in Ex. destruct (tk_exp t') as [| |u]; try done. by exists u.
  - exists key. split; [done|]. destruct (jwt_verify _ _ _ _) as [[]|] in Es |- *; done.
  - intros Hi. unfold check_iss in Ei. apply String.eqb_neq in Hi. rewrite Hi in Ei. destruct (tk_iss t') as [| |i]; try done.
    destruct (String.eqb_spec i (jc_issuer jcfg)); [by subst|done].
  - intros Hi. unfold check_aud in Eu. apply String.eqb_neq in Hi. rewrite Hi in Eu. destruct (tk_aud t') as [| |auds]; try done.
    destruct (existsb _ _) eqn:Ee; [|done]. exists auds. split; [done|]. by apply in_list_existsb.
Qed.

Lemma check_token_err token : check_token jcfg token <> inl E_Ok.
Proof.
  unfold check_token. destruct (jwt_decode token) as [t|]; [|done]. destruct (check_alg jcfg t); try done.
  destruct (key_of jcfg t) as [e|key] eqn:Ek.
  - intros [= ->]. revert Ek. unfold key_of. repeat case_match; congruence.
  - by destruct (and_then _ _).
Qed.

Lemma authenticate_ok (c c' : Ctx) : authenticate jcfg c = (E_Ok, c') ->
  exists req token t, request c = Some req /\ bearer req = Some token /\ valid_token token t /\ c' = store_claims t c.
Proof.
  unfold authenticate. do 3 (destruct (_ && _); [done|]).
  destruct (request c) as [req|]; [|done]. destruct (bearer req) as [token|] eqn:Eb; [|done].
  destruct (check_token jcfg token) as [e|t] eqn:Et.
  - intros [= -> <-]. by apply check_token_err in Et.
  - intros [= <-]. exists req, token, t. split_and!; try done. by apply check_token_valid.
Qed.

(** A request in which nobody has been recognised yet. *)
Record unknown (c : Ctx) : Prop := {
  uk_auth_scopes : c_attrs c !! "auth_scopes"%string = None; uk_jwt_scopes : c_attrs c !! "jwt_scopes"%string = None;
  uk_jwt_roles : c_attrs c !! "jwt_roles"%string = None }.

(** What was shown under a policy: its scopes, its roles, and who. *)
Inductive credential (c : Ctx) : string -> list string -> list string -> option string -> Prop :=
  | CR_NONE : credential c "none" [] [] None
  | CR_JWT req token t : request c = Some req -> bearer req = Some token -> valid_token token t ->
      credential c "jwt" (token_scopes t) (token_roles t) (Some (token_sub t))
  | CR_KEY k rest : In k (au_keys cfg) -> ak_enabled k = true -> ak_id k <> EmptyString -> rest <> EmptyString ->
      header_of (request c) (au_apiKeyHeader cfg) = (ak_id k ++ String DOT rest)%string ->
      ak_hash k = key_hash SHA256 rest -> credential c "api_key" (ak_scopes k) [] None
  | CR_LEGACY key : header_of (request c) (au_apiKeyHeader cfg) = key -> key <> EmptyString -> In key (au_apiKeys cfg) ->
      credential c "api_key" [] [] None.

Lemma attr_none k (c : Ctx) : c_attrs c !! k = None -> attr_list k c = None.
Proof. unfold attr_list. by intros ->. Qed.

Lemma rule_authz_mark scheme e (c : Ctx) : rule_of (mark_auth scheme e c) = rule_of c.
Proof. done. Qed.

Lemma good_sub_stored t (c : Ctx) : good_sub (store_claims t c) = good_user_val (token_sub t).
Proof. unfold good_sub, store_claims. rewrite !attr_str_set. reflexivity. Qed.

(** What the token policy lets pass. *)
Lemma jwt_policy_ok (c c' : Ctx) : jwt_policy (Some (authenticate jcfg)) cfg c = (None, c') ->
  exists req token t, request c = Some req /\ bearer req = Some token /\ valid_token token t /\
    shows (rule_of c) (token_scopes t) (token_roles t) /\
    (needs_user cfg (rule_of c) = true -> good_user_val (token_sub t) = true) /\
    c' = fwd_user cfg (if au_stripBearer cfg then on_request (rq_delHeader "Authorization") (mark_auth "jwt" E_Ok (store_claims t c))
                       else mark_auth "jwt" E_Ok (store_claims t c)).
Proof.
  unfold jwt_policy. destruct (authenticate jcfg c) as [e c1] eqn:Ea.
  destruct (bool_decide _) eqn:E1; cbn [negb]; [|done]. apply bool_decide_eq_true in E1.
  assert (e = E_Ok) as -> by by destruct e. apply authenticate_ok in Ea as (req & token & t & Hr & Hb & Ht & ->).
  change (rule_of (store_claims t c)) with (rule_of c) in E1.
  destruct (bool_decide (rule_authz _ = E_Ok)) eqn:E2; cbn [negb]; [|done]. apply bool_decide_eq_true in E2. intros [= <-].
  exists req, token, t. split_and!; try done.
  - change (rule_of c) with (rule_of (store_claims t c)). apply authz_ok; [done|left|]; unfold store_claims;
      rewrite !attr_list_set; reflexivity.
  - intros Hn. rewrite Hn, good_sub_stored in E1. cbn [andb] in E1. by destruct (good_user_val (token_sub t)).
Qed.

(** What the key policy lets pass. *)
Lemma api_key_policy_ok (c c' : Ctx) : unknown c -> api_key_policy SHA256 cfg c = (None, c') ->
  exists scopes, credential c "api_key" scopes [] None /\ shows (rule_of c) scopes [] /\
    request c' = (if au_stripApiKey cfg then rq_delHeader (au_apiKeyHeader cfg) <$> request c else request c).
Proof.
  intros [U1 U2 U3]. unfold api_key_policy. destruct (apikey_find _ _ _) as [k|] eqn:Ef; cbn [orb].
  - destruct (bool_decide _) eqn:E; cbn [negb]; [|done]. apply bool_decide_eq_true in E. intros [= <-].
    apply apikey_find_spec in Ef as (H1 & H2 & rest & H3 & H4 & H5 & H6). exists (ak_scopes k).
    split; [by eapply CR_KEY|]. split; [|by destruct (au_stripApiKey cfg)].
    apply (authz_ok _ (ak_scopes k) []) in E; [exact E|left; rewrite attr_list_set; reflexivity|].
    rewrite !attr_list_set. etransitivity; [|reflexivity]. by rewrite (attr_none _ _ U3).
  - destruct (apikey_ok _ _) eqn:Ek; [|done]. apply apikey_ok_spec in Ek as [H1 H2].
    destruct (bool_decide _) eqn:E; cbn [negb]; [|done]. apply bool_decide_eq_true in E. intros [= <-].
    exists []. split; [by eapply CR_LEGACY|]. split; [|by destruct (au_stripApiKey cfg)].
    apply (authz_ok _ [] []) in E; [exact E|right|by rewrite (attr_none _ _ U3)].
    by rewrite (attr_none _ _ U1), (attr_none _ _ U2).
Qed.

Lemma strip_rule (c : Ctx) : rule_of (strip_user_hdrs cfg c) = rule_of c.
Proof. unfold strip_user_hdrs. by destruct (negb _). Qed.

Lemma strip_attrs (c : Ctx) : c_attrs (strip_user_hdrs cfg c) = c_attrs c.
Proof. unfold strip_user_hdrs. by destruct (negb _). Qed.

Lemma policy_strip (c : Ctx) : policy_of cfg (strip_user_hdrs cfg c) = policy_of cfg c.
Proof. unfold policy_of. by rewrite strip_rule. Qed.

Lemma no_policy_shows rule : bad_policy "none" rule = false -> shows rule [] [].
Proof.
  destruct rule as [rule|]; [|done]. cbn. rewrite !andb_true_r. intros Hb. apply orb_false_iff in Hb as [H1 H2].
  destruct (rc_reqScopes rule); [|done]. by destruct (rc_reqRoles rule).
Qed.
End promises.
End auth.

(** ** Theorems *)

(** C7: no request passes without what its route asks for. With policy [none] the route asks
    for nothing; with [jwt] the request carries a bearer token of the one configured
    algorithm, verified with the configured key, of the configured issuer and audience and
    with an expiry; with [api_key] a key of the list, by its identifier and hash, or one
    given in clear; and every scope the route names and one of its roles are among those
    of that token or key. Any other policy refuses. *)
Theorem auth_sound {G : Type} (SHA256 : string -> list Z) `{JwtLib} (jcfg : JwtAuthConfig) (cfg : RouteAuthConfig)
    (c c' : @ReqCtx G) :
  unknown c -> route_auth SHA256 (Some (authenticate jcfg)) cfg c = (None, c') ->
  exists scopes roles who, credential SHA256 jcfg cfg (strip_user_hdrs cfg c) (policy_of cfg c) scopes roles who /\
    shows (rule_of c) scopes roles.
Proof.
  intros [U1 U2 U3]. unfold route_auth. set (c0 := strip_user_hdrs cfg c).
  assert (U : unknown c0) by (split; unfold c0; by rewrite strip_attrs).
  assert (E1 : policy_of cfg c0 = policy_of cfg c) by apply policy_strip.
  assert (E2 : rule_of c0 = rule_of c) by apply strip_rule. cbv zeta. rewrite E1, E2.
  destruct (bad_policy _ _) eqn:Eb; [done|]. destruct (String.eqb_spec (policy_of cfg c) "none") as [Ep|_].
  { intros _. rewrite Ep in *. exists [], [], None. split; [constructor|by apply no_policy_shows]. }
  destruct (String.eqb_spec (policy_of cfg c) "jwt") as [Ep|_].
  { rewrite Ep. intros (req & token & t & H1 & H2 & H3 & H4 & _)%(jwt_policy_ok SHA256). rewrite E2 in H4.
    eexists _, _, _. split; [by eapply CR_JWT|done]. }
  destruct (String.eqb_spec (policy_of cfg c) "api_key") as [Ep|_]; [|done].
  rewrite Ep. intros (scopes & H1 & H2 & _)%(api_key_policy_ok SHA256 jcfg); [|done]. rewrite E2 in H2.
  by exists scopes, [], None.
Qed.

(** What the upstream is told: one value, or none. *)
Definition told (vals : list string) : list string :=
  let v := join_user_vals vals in if String.eqb v "" then [] else [v].

Section identity.
Context {G : Type} (cfg : RouteAuthConfig) (Hp : has_char NUL (au_fwdPrefix cfg) = false) (Hf : au_fwdUser cfg = true).

Lemma user_hdr_case a b : case_eqb (user_hdr cfg a) (user_hdr cfg b) = case_eqb a b.
Proof. by apply case_eqb_prefix. Qed.

Lemma strip_fields a (r : GwRequest) : In a ["Id"; "Scopes"; "Roles"]%string ->
  fields (user_hdr cfg a) (rq_delHeader (user_hdr cfg "Roles")
    (rq_delHeader (user_hdr cfg "Scopes") (rq_delHeader (user_hdr cfg "Id") r))) = [].
Proof. intros Ha. autorewrite with fields. rewrite !user_hdr_case. destruct Ha as [<-|[<-|[<-|[]]]]; reflexivity. Qed.

(** A name that is none of those the check touches. *)
Lemma other_fields k r : existsb (fun a => case_eqb a k) [user_hdr cfg "Id"; user_hdr cfg "Scopes"; user_hdr cfg "Roles";
    "Authorization"%string; au_apiKeyHeader cfg] = false ->
  fields k (rq_delHeader (user_hdr cfg "Roles") (rq_delHeader (user_hdr cfg "Scopes") (rq_delHeader (user_hdr cfg "Id") r))) = fields k r.
Proof.
  cbn [existsb]. rewrite !orb_false_iff. intros (E1 & E2 & E3 & _). autorewrite with fields. by rewrite E1, E2, E3.
Qed.

Lemma set_user_vals_fields k name vals r : fields k (set_user_vals name vals r) =
  if case_eqb name k then (match told (default [] vals) with [] => fields k r | l => l end) else fields k r.
Proof.
  unfold set_user_vals, told. destruct vals as [vals|]; cbn [from_option]; unfold id.
  - cbv zeta. destruct (String.eqb (join_user_vals vals) ""); [by destruct (case_eqb name k)|]. by rewrite fields_set.
  - by destruct (case_eqb name k).
Qed.

(** The request as it goes on after a token. *)
Definition told_request (t : Token) (r : GwRequest) : GwRequest :=
  set_user_vals (user_hdr cfg "Roles") (Some (token_roles t))
    (set_user_vals (user_hdr cfg "Scopes") (Some (token_scopes t)) (rq_setHeader (user_hdr cfg "Id") (token_sub t) r)).

Lemma fwd_user_request t (c : @ReqCtx G) r : good_user_val (token_sub t) = true -> request c = Some r ->
  request (fwd_user cfg (if au_stripBearer cfg then on_request (rq_delHeader "Authorization") (mark_auth "jwt" E_Ok (store_claims t c))
                         else mark_auth "jwt" E_Ok (store_claims t c))) =
    Some (told_request t (if au_stripBearer cfg then rq_delHeader "Authorization" r else r)).
Proof.
  intros Hg Hr. unfold fwd_user. rewrite Hf. cbn [negb].
  set (c2 := mark_auth "jwt" E_Ok (store_claims t c)).
  assert (A : forall c1 : @ReqCtx G, c_attrs c1 = c_attrs c2 ->
    attr_str "jwt_sub" c1 = Some (token_sub t) /\ attr_list "jwt_scopes" c1 = Some (token_scopes t) /\
    attr_list "jwt_roles" c1 = Some (token_roles t)).
  { intros c1 E. assert (E' : forall k, attr_str k c1 = attr_str k c2 /\ attr_list k c1 = attr_list k c2).
    { intros k. unfold attr_str, attr_list. by rewrite E. }
    rewrite (proj1 (E' _)), !(proj2 (E' _)). unfold c2, mark_auth, store_claims. rewrite !attr_str_set, !attr_list_set.
    split_and!; reflexivity. }
  unfold request in Hr. destruct (au_stripBearer cfg).
  - destruct (A (on_request (rq_delHeader "Authorization") c2) eq_refl) as (-> & -> & ->).
    rewrite Hg. unfold c2, request, on_request, mark_auth, store_claims, setAttr. cbn. by rewrite Hr.
  - destruct (A c2 eq_refl) as (-> & -> & ->).
    rewrite Hg. unfold c2, request, on_request, mark_auth, store_claims, setAttr. cbn. by rewrite Hr.
Qed.

Lemma told_request_fields t r : (forall a, In a ["Id"; "Scopes"; "Roles"]%string -> fields (user_hdr cfg a) r = []) ->
  (fields (user_hdr cfg "Id") (told_request t r), fields (user_hdr cfg "Scopes") (told_request t r),
   fields (user_hdr cfg "Roles") (told_request t r)) = ([token_sub t], told (token_scopes t), told (token_roles t)).
Proof.
  intros Hs. unfold told_request. rewrite !set_user_vals_fields, !fields_set, !user_hdr_case.
  change (case_eqb "Roles" "Id") with false. change (case_eqb "Scopes" "Id") with false. change (case_eqb "Id" "Id") with true.
  change (case_eqb "Roles" "Scopes") with false. change (case_eqb "Scopes" "Scopes") with true. change (case_eqb "Id" "Scopes") with false.
  change (case_eqb "Roles" "Roles") with true. change (case_eqb "Scopes" "Roles") with false. change (case_eqb "Id" "Roles") with false.
  cbn [from_option]. unfold id. rewrite !Hs by (cbn; auto). by destruct (told (token_scopes t)), (told (token_roles t)).
Qed.

Lemma told_request_other t r k : existsb (fun a => case_eqb a k) [user_hdr cfg "Id"; user_hdr cfg "Scopes"; user_hdr cfg "Roles";
    "Authorization"%string; au_apiKeyHeader cfg] = false -> fields k (told_request t r) = fields k r.
Proof.
  cbn [existsb]. rewrite !orb_false_iff. intros (E1 & E2 & E3 & _). unfold told_request.
  by rewrite !set_user_vals_fields, fields_set, E1, E2, E3.
Qed.
End identity.

(** The upstream is told who the client is by the gateway alone. When identity is passed
    on, the fields for it are, of what the client sent, none; after a valid token exactly its
    subject, its scopes and its roles, with the values that cannot break out of a field; and
    under any other policy there are none. Every other field but the credentials is as it
    was. *)
Theorem auth_identity {G : Type} (SHA256 : string -> list Z) `{JwtLib} (jcfg : JwtAuthConfig) (cfg : RouteAuthConfig)
    (c c' : @ReqCtx G) (req : GwRequest) :
  has_char NUL (au_fwdPrefix cfg) = false -> au_fwdUser cfg = true -> request c = Some req ->
  unknown c -> route_auth SHA256 (Some (authenticate jcfg)) cfg c = (None, c') ->
  exists req' scopes roles who, request c' = Some req' /\
    credential SHA256 jcfg cfg (strip_user_hdrs cfg c) (policy_of cfg c) scopes roles who /\
    (fields (user_hdr cfg "Id") req', fields (user_hdr cfg "Scopes") req', fields (user_hdr cfg "Roles") req') =
      match who with Some sub => ([sub], told scopes, told roles) | None => ([], [], []) end /\
    match who with Some sub => good_user_val sub = true | None => True end /\
    (forall k, existsb (fun a => case_eqb a k) [user_hdr cfg "Id"; user_hdr cfg "Scopes"; user_hdr cfg "Roles";
         "Authorization"%string; au_apiKeyHeader cfg] = false -> fields k req' = fields k req).
Proof.
  intros Hp Hf Hr [U1 U2 U3]. unfold route_auth. set (c0 := strip_user_hdrs cfg c).
  assert (U : unknown c0) by (split; unfold c0; by rewrite strip_attrs).
  assert (E1 : policy_of cfg c0 = policy_of cfg c) by apply policy_strip.
  assert (E2 : rule_of c0 = rule_of c) by apply strip_rule. cbv zeta. rewrite E1, E2.
  set (req0 := rq_delHeader (user_hdr cfg "Roles") (rq_delHeader (user_hdr cfg "Scopes") (rq_delHeader (user_hdr cfg "Id") req))).
  assert (Hr0 : request c0 = Some req0).
  { unfold c0, strip_user_hdrs. rewrite Hf. cbn. unfold request in Hr. by rewrite Hr. }
  destruct (bad_policy _ _) eqn:Eb; [done|]. destruct (String.eqb_spec (policy_of cfg c) "none") as [Ep|_].
  { rewrite Ep. intros [= <-]. exists req0, [], [], None. split; [done|]. split; [constructor|]. split; [|split; [done|]].
    - unfold req0. by rewrite !strip_fields by (cbn; auto).
    - intros k Hk. unfold req0. by apply other_fields. }
  destruct (String.eqb_spec (policy_of cfg c) "jwt") as [Ep|_].
  { rewrite Ep. intros (rq & token & t & H1 & H2 & H3 & H4 & H5 & ->)%(jwt_policy_ok SHA256). rewrite Hr0 in H1. injection H1 as <-.
    assert (Hg : good_user_val (token_sub t) = true).
    { apply H5. rewrite E2. unfold needs_user, policy_of in *. rewrite Hf. by destruct (rule_of c). }
    set (r1 := if au_stripBearer cfg then rq_delHeader "Authorization" req0 else req0).
    exists (told_request cfg t r1), (token_scopes t), (token_roles t), (Some (token_sub t)).
    split; [by apply fwd_user_request|]. split; [by eapply CR_JWT|]. split; [|split; [done|]].
    - assert (Hs : forall a, In a ["Id"; "Scopes"; "Roles"]%string -> fields (user_hdr cfg a) r1 = []).
      { intros a Ha. unfold r1. destruct (au_stripBearer cfg); [|by apply strip_fields].
        rewrite fields_del. destruct (case_eqb _ _); [done|by apply strip_fields]. }
      by apply told_request_fields.
    - intros k Hk. rewrite told_request_other by done. unfold r1. destruct (au_stripBearer cfg); [|by apply other_fields].
      rewrite fields_del. pose proof Hk as Hk'. cbn [existsb] in Hk'. rewrite !orb_false_iff in Hk'.
      destruct Hk' as (_ & _ & _ & -> & _). by apply other_fields. }
  destruct (String.eqb_spec (policy_of cfg c) "api_key") as [Ep|_]; [|done].
  rewrite Ep. intros (scopes & H1 & H2 & H3)%(api_key_policy_ok SHA256 jcfg); [|done]. rewrite Hr0 in H3.
  exists (if au_stripApiKey cfg then rq_delHeader (au_apiKeyHeader cfg) req0 else req0), scopes, [], None.
  split; [by destruct (au_stripApiKey cfg)|]. split; [done|]. split; [|split; [done|]].
  - assert (Hs : forall a, In a ["Id"; "Scopes"; "Roles"]%string ->
      fields (user_hdr cfg a) (if au_stripApiKey cfg then rq_delHeader (au_apiKeyHeader cfg) req0 else req0) = []).
    { intros a Ha. destruct (au_stripApiKey cfg); [|by apply strip_fields].
      rewrite fields_del. destruct (case_eqb _ _); [done|by apply strip_fields]. }
    by rewrite !Hs by (cbn; auto).
  - intros k Hk. destruct (au_stripApiKey cfg); [|by apply other_fields].
    rewrite fields_del. pose proof Hk as Hk'. cbn [existsb] in Hk'. rewrite !orb_false_iff in Hk'.
    destruct Hk' as (_ & _ & _ & _ & -> & _). by apply other_fields.
Qed.

(** ** Witnesses *)

Definition sample_token : Token :=
  mkToken (K_VAL "HS256") K_ABSENT (K_VAL tt) (K_VAL "issuer") K_ABSENT (K_VAL "alice") (K_VAL "read write")
    (K_VAL [Some "admin"; None])%string.

(** One token there is, signed with one secret. *)
#[local] Instance sample_lib : JwtLib := {
  jwt_decode := fun text => if String.eqb text "good" then Some sample_token else None;
  jwt_verify := fun alg key _ text => Some (if String.eqb key "secret" then VR_OK else VR_BAD) }.

Definition sample_jwt : JwtAuthConfig := mkJwtCfg "HS256" "secret" "" "issuer" "" 0 [].

Definition sample_auth : RouteAuthConfig := mkAuthCfg true "X-API-Key" [] [] true true true "X-User-".

Definition sample_rule : RouteRule RuleCfg :=
  mkRule "r" PREFIX "/" [] "" "g" 0 0 (mkRuleCfg "" ["read"] ["admin"; "root"] false "ip" (n_of 0) (n_of 0) (mkRewrite "/" false "" [] []))%string.

(** Alice, who claims to be root besides. *)
Definition sample_user : GwRequest :=
  fold_left rq_op [H_ADD "Authorization" "bearer good"; H_ADD "x-user-id" "root"; H_ADD "Accept" "a"]%string request_init.

Definition sample_ctx : @ReqCtx unit :=
  (ctx_init (mkClient (Some sample_user) None F_NONE 0 true false false 0 Q_NONE 0 []) (rate_init 1 0) 0)
    <| c_route := mkResult true (Some sample_rule) (Some tt) "/" |>.

Definition no_hash (_ : string) : list Z := [].

Definition sample_passed : @ReqCtx unit := (route_auth no_hash (Some (authenticate sample_jwt)) sample_auth sample_ctx).2.

Lemma auth_sound_witness :
  (route_auth no_hash (Some (authenticate sample_jwt)) sample_auth sample_ctx).1 = None /\
  exists scopes roles who, credential no_hash sample_jwt sample_auth (strip_user_hdrs sample_auth sample_ctx) "jwt" scopes roles who /\
    shows (Some (rr_rest sample_rule)) scopes roles.
Proof.
  split; [by vm_compute|].
  exact (auth_sound no_hash sample_jwt sample_auth sample_ctx sample_passed ltac:(by split; vm_compute) ltac:(by vm_compute)).
Defined.

Lemma auth_identity_witness :
  exists req', request sample_passed = Some req' /\ fields "X-User-Id" req' = ["alice"%string] /\
    fields "X-User-Scopes" req' = ["read,write"%string] /\ fields "Accept" req' = ["a"%string].
Proof.
  destruct (auth_identity no_hash sample_jwt sample_auth sample_ctx sample_passed sample_user) as (req' & sc & ro & who & E & _ & _ & _ & H);
    [done|done|by vm_compute|by split; vm_compute|by vm_compute|].
  exists req'. split; [exact E|]. split; [|split].
  - vm_compute in E. injection E as <-. by vm_compute.
  - vm_compute in E. injection E as <-. by vm_compute.
  - rewrite H; by vm_compute.
Defined.

(** A request without a token, and one with a token for another route. *)
Example no_token_refused :
  (route_auth no_hash (Some (authenticate sample_jwt)) sample_auth
     (on_request (rq_delHeader "Authorization") sample_ctx)).1 = Some 401.
Proof. by vm_compute. Qed.

Example role_refused :
  let rule := sample_rule <| rr_rest := mkRuleCfg "jwt" [] ["root"] false "ip" (n_of 0) (n_of 0) (mkRewrite "/" false "" [] []) |> in
  (route_auth no_hash (Some (authenticate sample_jwt)) sample_auth
     (sample_ctx <| c_route := mkResult true (Some rule) (Some tt) "/" |>)).1 = Some 403.
Proof. by vm_compute. Qed.
