(* ===== verification/Limits.v ===== *)
(** * Limits and lists in the chain (src/gateway/include/middlewares/builtin.cpp, stubs.cpp)

    The middlewares that refuse by rate and by the address of the socket, and the plain
    check of a token. The state of the limiter is that of RateLimit, in the context. *)

From S2P Require Import Prelude Records Proto Str HttpMsg Body HttpParse Ip InetText Rule Snap Router RouteCache Breaker UpsGroup Heads Forward RateLimit Ctx Mw Auth.

Record RateBanCfg := mkRateBan { rb_on : bool; rb_hits : Z; rb_windowMs : Z; rb_banMs : Z }.

(** The dotted-decimal filter: networks of 32-bit addresses. *)
Record CidrRule := mkCidr { cr_network : Z; cr_mask : Z; cr_valid : bool }.
Record IPFilterConfig := mkIpFilter { if_enabled : bool; if_mode : string; if_cidrs : list string }.

Section limits.
Context {G : Type} (env : nat -> Turn) (now : nat -> Z) {IN : Inet} (peer : option Ip) (trusted : list Ip).
#[local] Abbreviation Ctx := (@ReqCtx G).
#[local] Abbreviation Middleware := (@Middleware G).
#[local] Existing Instance double.

(** [h["Retry-After"]]. *)
Definition too_many (retryAfter : Z) (c : Ctx) : Ctx :=
  reply env now 429 ("Too Many Requests" ++ String LF "")%string
    [("Retry-After", to_string (if (retryAfter =? 0)%Z then 1 else retryAfter))]%string false c.

(** One bucket for everything, [place] in the store. *)
Definition MakeRateLimitMiddleware (place : nat) : Middleware := fun next c =>
  let '(ok, retryAfter, st) := acquire place (n_of 1) (nowMs now c) (c_rate c) in
  let c := c <| c_rate := st |> in
  if negb ok then too_many retryAfter c else next c.

Definition resolved_client_ip (c : Ctx) : string * Ctx :=
  let '(ok, c) := loadClientAddr peer trusted c in
  (if ok then match c_addr c with Some a => ip_toString (ca_client a) | None => "" end else "", c)%string.

(** What the requests of a route are counted by. *)
Definition rate_subject (rule : RuleCfg) (c : Ctx) : string * string * Ctx :=
  let by_ip := let '(v, c) := resolved_client_ip c in ("ip", v, c)%string in
  let '(keyType, keyVal, c) :=
    if String.eqb (rc_rateLimitKey rule) "user" then
      match attr_str "jwt_sub" c with
      | Some sub => if String.eqb sub "" then by_ip else ("user"%string, sub, c)
      | None => by_ip
      end
    else by_ip in
  (keyType, if String.eqb keyVal "" then "unknown"%string else keyVal, c).

Definition route_name (rule : RouteRule RuleCfg) (routeKey : string) : string :=
  let name := if String.eqb (rr_name rule) "" then routeKey else rr_name rule in
  if String.eqb name "" then rr_pathPattern rule else name.

(** [std::max(0.0, x)]. *)
Definition max0 (x : num) : num := if n_lt (n_of 0) x then x else n_of 0.

(** The report of an address that was refused often enough. *)
Definition rate_report (banCfg : RateBanCfg) (name : string) (c : Ctx) : Ctx :=
  let '(ipStr, c) := resolved_client_ip c in
  if String.eqb ipStr "" then c
  else match parseCidr ipStr with
  | None => c
  | Some ip =>
      let '(win, st) := bump429 ipStr (rb_hits banCfg) (rb_windowMs banCfg) (nowMs now c) (c_rate c) in
      let c := c <| c_rate := st |> in
      if win =? 0 then c
      else c <| c_reports := c_reports c ++
             [mkRisk (ipStr ++ "@" ++ to_string win) ip RATE RATE_ABUSE 1 (rb_banMs banCfg) (nowMs now c)
                ("rate abuse route=" ++ name)] |>
  end.

Definition MakePerRouteRateLimitMiddleware (reporter : bool) (banCfg : RateBanCfg) : Middleware := fun next c =>
  match rt_matched (c_route c), rt_rule (c_route c) with
  | true, Some route =>
      let rule := rr_rest route in
      if negb (rc_rateLimitEnabled rule) then next c
      else
        let '(keyType, keyVal, c) := rate_subject rule c in
        let name := route_name route (rt_routeKey (c_route c)) in
        let cap := max0 (rc_rateLimitCapacity rule) in
        let refill := max0 (rc_rateLimitRefillPerSec rule) in
        let '(ok, retryAfter, st) :=
          ask (name ++ "|" ++ keyType ++ ":" ++ keyVal)%string cap refill (rb_windowMs banCfg) (nowMs now c) (nowMs now c) (c_rate c) in
        let c := c <| c_rate := st |> in
        if negb ok then
          let c := too_many retryAfter c in
          if reporter && rb_on banCfg then rate_report banCfg name c else c
        else next c
  | _, _ => next c
  end.

(** ** The filter by the socket's address *)

(** [ntohl] of the four bytes. *)
Definition parseIPv4 (ip : string) : option Z :=
  match inet_pton4 (c_str ip) with
  | Some l => Some (fold_left (fun v b => Z.lor (Z.shiftl v 8) b) l 0)
  | None => None
  end.

Definition no_cidr : CidrRule := mkCidr 0 UINT32_MAX false.

(** The address and the prefix of an entry. *)
Definition cidr_parts (raw : string) : option (string * Z) :=
  match break_at "/" raw with
  | None => Some (raw, 32)
  | Some (ip, p) =>
      if String.eqb p "" then None
      else match strtol10 (c_str p) with
           | Some (v, rest) => if negb (String.eqb rest "") || (v <? 0) || (32 <? v) then None else Some (ip, v)
           | None => None
           end
  end.

Definition parse_cidr (raw : string) : CidrRule :=
  match cidr_parts raw with
  | None => no_cidr
  | Some (ip, prefix) =>
      match parseIPv4 ip with
      | None => no_cidr
      | Some addr =>
          let mask := if prefix =? 0 then 0 else wrap32 (Z.shiftl UINT32_MAX (32 - prefix)) in
          mkCidr (Z.land addr mask) mask true
      end
  end.

Definition cidr_has (rules : list CidrRule) (ip : string) : bool :=
  match parseIPv4 ip with
  | None => false
  | Some addr => existsb (fun r => cr_valid r && (Z.land addr (cr_mask r) =? cr_network r)) rules
  end.

(** [peerAddr]: the text of the socket's other end. *)
Definition MakeIPFilterMiddleware (cfg : IPFilterConfig) (peerAddr : string) : Middleware :=
  let rules := List.filter cr_valid (map parse_cidr (if_cidrs cfg)) in
  let denylist := negb (String.eqb (if_mode cfg) "allowlist") in
  fun next c =>
    if negb (if_enabled cfg) then next c
    else
      let inList := cidr_has rules peerAddr in
      if (if denylist then inList else negb inList) then reply env now 403 ("Forbidden" ++ String LF "")%string [] false c
      else next c.

(** ** The plain check of a token *)

Definition MakeAuthMiddleware (auth : option (Ctx -> AuthErr * Ctx)) : Middleware := fun next c =>
  match auth with
  | None => next c
  | Some auth =>
      match auth c with
      | (E_Ok, c) => next c
      | (_, c) => reply env now 401 ("Unauthorized" ++ String LF "")%string [] false c
      end
  end.
End limits.

(** ** Networks *)

(** The mask of a prefix keeps its bits. *)
Lemma land_mask a k : 0 <= a < 2 ^ 32 -> 0 <= k < 32 ->
  Z.land a (wrap32 (Z.shiftl UINT32_MAX k)) = Z.shiftl (Z.shiftr a k) k.
Proof.
  intros Ha Hk. apply Z.bits_inj'. intros n Hn. unfold wrap32. rewrite Z.land_spec, Z.testbit_mod_pow2 by lia.
  change UINT32_MAX with (Z.ones 32). rewrite !Z.shiftl_spec by lia. destruct (Z.ltb_spec n k) as [Hnk|Hnk].
  - rewrite !(Z.testbit_neg_r _ (n - k)) by lia. by rewrite andb_false_r, andb_false_r.
  - rewrite Z.testbit_ones_nonneg, Z.shiftr_spec by lia. replace (n - k + k) with n by lia. destruct (Z.ltb_spec n 32) as [Hn32|Hn32].
    + rewrite (proj2 (Z.ltb_lt (n - k) 32)) by lia. by rewrite !andb_true_r.
    + rewrite andb_false_r. symmetry. apply Z.bits_above_log2; [lia|].
      destruct (Z.eq_dec a 0) as [->|Hz]; [cbn; lia|]. apply Z.lt_le_trans with 32; [|lia]. apply Z.log2_lt_pow2; lia.
Qed.

(** Whether an address is in a network of a prefix: the bits of the prefix agree. *)
Lemma land_mask_eqb a b p : 0 <= a < 2 ^ 32 -> 0 <= b < 2 ^ 32 -> 0 <= p <= 32 ->
  let mask := if p =? 0 then 0 else wrap32 (Z.shiftl UINT32_MAX (32 - p)) in
  (Z.land a mask =? Z.land b mask) = (Z.shiftr a (32 - p) =? Z.shiftr b (32 - p)).
Proof.
  intros Ha Hb Hp mask. unfold mask. destruct (p =? 0) eqn:E; b2p.
  - subst p. rewrite !Z.land_0_r, !Z.shiftr_div_pow2, !Z.div_small by lia. done.
  - rewrite !land_mask by lia. apply eq_true_iff_eq. rewrite !Z.eqb_eq. split; [|by intros ->].
    intros H. apply (f_equal (fun z => Z.shiftr z (32 - p))) in H.
    rewrite !Z.shiftr_shiftl_l, !Z.sub_diag, !Z.shiftl_0_r in H by lia. done.
Qed.

Section nets.
Context {IN : Inet} {IL : @InetLaws IN}.

Lemma parseIPv4_range ip v : parseIPv4 ip = Some v -> 0 <= v < 2 ^ 32.
Proof.
  unfold parseIPv4. destruct (inet_pton4 (c_str ip)) as [l|] eqn:E; [|done]. apply pton4_bytes in E as [Hl Hb].
  destruct l as [|a [|b [|c [|d [|? ?]]]]]; try done. repeat (apply Forall_cons in Hb as [? Hb]). unfold is_u8 in *.
  intros [= <-]. cbn [fold_left]. rewrite !lor_shiftl_add by lia. lia.
Qed.

Lemma cidr_parts_range raw ip p : cidr_parts raw = Some (ip, p) -> 0 <= p <= 32.
Proof.
  unfold cidr_parts. destruct (break_at "/" raw) as [[i q]|]; [|by intros [= <- <-]].
  destruct (String.eqb q ""); [done|]. destruct (strtol10 (c_str q)) as [[v rest]|]; [|done].
  destruct (_ || _) eqn:E; [done|]. intros [= <- <-]. b2p. lia.
Qed.

(** An address is in an entry of a list. *)
Definition listed (cidrs : list string) (addr : Z) : Prop :=
  exists raw ip p net, In raw cidrs /\ cidr_parts raw = Some (ip, p) /\ parseIPv4 ip = Some net /\
    Z.shiftr addr (32 - p) = Z.shiftr net (32 - p).

Lemma cidr_has_spec cidrs ip : cidr_has (List.filter cr_valid (map parse_cidr cidrs)) ip = true <->
  exists addr, parseIPv4 ip = Some addr /\ listed cidrs addr.
Proof.
  unfold cidr_has. destruct (parseIPv4 ip) as [addr|] eqn:Ea; [|split; [done|by intros (? & ? & _)]].
  apply parseIPv4_range in Ea. rewrite existsb_exists. split.
  - intros (r & Hin & Hr). apply filter_In in Hin as [Hin _]. apply in_map_iff in Hin as (raw & <- & Hin). exists addr. split; [done|].
    unfold parse_cidr in Hr. destruct (cidr_parts raw) as [[i p]|] eqn:Ep; [|done]. destruct (parseIPv4 i) as [net|] eqn:En; [|done].
    cbn in Hr. rewrite land_mask_eqb in Hr; [|done|by eapply parseIPv4_range|by eapply cidr_parts_range]. apply Z.eqb_eq in Hr.
    by exists raw, i, p, net.
  - intros (addr' & [= <-] & raw & i & p & net & Hin & Ep & En & Hs). exists (parse_cidr raw). split.
    + apply filter_In. split; [by apply in_map|]. unfold parse_cidr. by rewrite Ep, En.
    + unfold parse_cidr. rewrite Ep, En. cbn. rewrite land_mask_eqb; [by apply Z.eqb_eq|done|by eapply parseIPv4_range|by eapply cidr_parts_range].
Qed.
End nets.

(** ** The laws *)

Section laws.
Context {G : Type} (env : nat -> Turn) (now : nat -> Z) {IN : Inet} (peer : option Ip) (trusted : list Ip).
#[local] Abbreviation Ctx := (@ReqCtx G).
#[local] Existing Instance double.

(** Something of the context that is no part of the answer. *)
Lemma other_same (c c' : Ctx) (r : RateState) (l : list Risk) : same_answer c c' ->
  same_answer c ((c' <| c_rate := r |>) <| c_reports := l |>).
Proof. intros []. by split. Qed.

Lemma with_rate_same (c c' : Ctx) (r : RateState) : same_answer c c' -> same_answer c (c' <| c_rate := r |>).
Proof. intros []. by split. Qed.

Lemma resolved_same (c : Ctx) : same_answer c (resolved_client_ip peer trusted c).2.
Proof.
  unfold resolved_client_ip. pose proof (loadClientAddr_same peer trusted c) as H. by destruct (loadClientAddr peer trusted c).
Qed.

Lemma rate_subject_same rule (c : Ctx) : same_answer c (rate_subject peer trusted rule c).2.
Proof.
  unfold rate_subject. pose proof (resolved_same c) as H. destruct (resolved_client_ip peer trusted c) as [v c']. cbn in H.
  destruct (String.eqb _ "user"); [|done]. destruct (attr_str "jwt_sub" c) as [sub|]; [|done]. by destruct (String.eqb sub "").
Qed.

Lemma rate_report_same cfg name (c : Ctx) : same_answer c (rate_report now peer trusted cfg name c).
Proof.
  unfold rate_report. pose proof (resolved_same c) as H. destruct (resolved_client_ip peer trusted c) as [v c']. cbn in H.
  destruct (String.eqb v ""); [done|]. destruct (parseCidr v); [|done]. destruct (bump429 _ _ _ _ _) as [win st]. cbv zeta.
  destruct (win =? 0); [by apply with_rate_same|]. by apply other_same.
Qed.

Lemma rate_limit_lawful place : lawful (MakeRateLimitMiddleware (G := G) env now place).
Proof.
  intros next Hn c Hc _. unfold MakeRateLimitMiddleware. destruct (acquire _ _ _ _) as [[ok r] st]. cbv zeta.
  assert (H : settled (c <| c_rate := st |>)) by (apply (settled_same c); [by apply with_rate_same|done]).
  destruct (negb ok); [by apply reply_settled|by apply Hn].
Qed.

Lemma route_rate_lawful reporter cfg : lawful (MakePerRouteRateLimitMiddleware (G := G) env now peer trusted reporter cfg).
Proof.
  intros next Hn c Hc _. unfold MakePerRouteRateLimitMiddleware. destruct (rt_matched _); [|by apply Hn].
  destruct (rt_rule _) as [route|]; [|by apply Hn]. cbv zeta. destruct (negb _); [by apply Hn|].
  pose proof (rate_subject_same (rr_rest route) c) as Hs. destruct (rate_subject _ _ _ _) as [[kt kv] c']. cbn in Hs.
  destruct (ask _ _ _ _ _ _ _) as [[ok r] st]. set (c2 := c' <| c_rate := st |>).
  assert (H : settled c2) by (apply (settled_same c); [by apply with_rate_same|done]).
  destruct (negb ok); [|by apply Hn]. pose proof (reply_settled env now 429 ("Too Many Requests" ++ String LF "")%string
    [("Retry-After", to_string (if (r =? 0)%Z then 1 else r))]%string false c2 H) as [Hr _]. fold (too_many env now r c2) in Hr.
  destruct (reporter && _); [|done]. by apply (settled_same (too_many env now r c2)); [apply rate_report_same|].
Qed.

Lemma ip_filter_lawful cfg addr : lawful (MakeIPFilterMiddleware (G := G) env now cfg addr).
Proof.
  intros next Hn c Hc _. unfold MakeIPFilterMiddleware. destruct (negb (if_enabled cfg)); [by apply Hn|].
  destruct (if negb _ then _ else _); [by apply reply_settled|by apply Hn].
Qed.

Lemma auth_mw_lawful auth : (forall f c, auth = Some f -> same_answer c (f c).2) -> lawful (MakeAuthMiddleware (G := G) env now auth).
Proof.
  intros Ha next Hn c Hc _. unfold MakeAuthMiddleware. destruct auth as [f|]; [|by apply Hn].
  pose proof (settled_same _ _ (Ha f c eq_refl) Hc) as H. destruct (f c) as [[] c']; first [by apply Hn|by apply reply_settled].
Qed.
End laws.

(** The filter by the socket's address lets through exactly what its list says: in
    [allowlist] mode the addresses of its networks, otherwise all but those; an address is in
    a network when the bits of the prefix agree. Every other request is answered and goes
    no further. *)
Theorem ip_filter_exact {G : Type} (env : nat -> Turn) (now : nat -> Z) {IN : Inet} {IL : @InetLaws IN}
    (cfg : IPFilterConfig) (peerAddr : string) (c : @ReqCtx G) :
  if_enabled cfg = true -> settled c ->
  let inside := exists addr, parseIPv4 peerAddr = Some addr /\ listed (if_cidrs cfg) addr in
  let allowed := if String.eqb (if_mode cfg) "allowlist" then inside else ~ inside in
  (allowed -> forall next, MakeIPFilterMiddleware env now cfg peerAddr next c = next c) /\
  (~ allowed -> exists c', answered_ctx c' /\ forall next, MakeIPFilterMiddleware env now cfg peerAddr next c = c').
Proof.
  intros He Hc inside allowed. unfold MakeIPFilterMiddleware. rewrite He. cbn [negb].
  pose proof (cidr_has_spec (if_cidrs cfg) peerAddr) as Hs. fold inside in Hs.
  set (has := cidr_has _ peerAddr) in *.
  assert (Hb : (if negb (String.eqb (if_mode cfg) "allowlist") then has else negb has) = false <-> allowed).
  { unfold allowed. destruct (String.eqb _ _); cbn [negb]; rewrite <- Hs; destruct has; cbn; split; try done; by intros []. }
  destruct (if negb _ then _ else _).
  - split; [intros Ha; by apply Hb in Ha|]. intros _. eexists. split; [|reflexivity]. by apply reply_settled.
  - split; [done|]. intros Hn. exfalso. by apply Hn, Hb.
Qed.

(** ** Witnesses *)

Definition sample_list : IPFilterConfig := mkIpFilter true "denylist" ["10.1.0.0/16"; "bad"; "192.168.0.7"]%string.

Definition sample_plain : @ReqCtx unit :=
  ctx_init (mkClient (Some request_init) None F_NONE 0 true false false 0 Q_NONE 0 []) (rate_init (A := double) 1 0) 0.

Lemma ip_filter_exact_witness :
  exists c', answered_ctx c' /\
    forall next, MakeIPFilterMiddleware (IN := TextInet) calm (fun _ => 0) sample_list "10.1.2.3" next sample_plain = c'.
Proof.
  destruct (ip_filter_exact (IN := TextInet) calm (fun _ => 0) sample_list "10.1.2.3" sample_plain) as [_ H];
    [done|by split_and!|]. apply H. intros Ha. apply Ha. exists 167838211. split; [by vm_compute|].
  exists "10.1.0.0/16"%string, "10.1.0.0"%string, 16, 167837696. split; [by left|]. by vm_compute.
Defined.

(** The limit of a route: one request, then 429 with a second to wait. *)
Example route_limit :
  let rule := mkRule "r" PREFIX "/" [] "" "g" 0 0
                (mkRuleCfg "" [] [] true "ip" (n_of (Arith := double) 1) (n_of (Arith := double) 1) (mkRewrite "/" false "" [] []))%string in
  let c := sample_plain <| c_route := mkResult true (Some rule) (Some tt) "/" |> in
  let mw := MakePerRouteRateLimitMiddleware (IN := TextInet) calm (fun _ => 5) None [] true (mkRateBan true 1 1000 1000) (fun c => c) in
  let c1 := mw c in
  c_state c1 = OPEN /\
  (exists rsp b ok, l_out (c_conn (mw c1)) = [L_FULL rsp b ok] /\ rs_status rsp = 429 /\ rs_getHeader "Retry-After" "" rsp = "1"%string).
Proof. split; [by vm_compute|]. do 3 eexists. split; [by vm_compute|]. by vm_compute. Qed.
