(* ===== verification/Ws.v ===== *)
(** * WebSocket upgrades (src/gateway/include/middlewares/ws.cpp, src/gateway/hash.cc)

    The handshake of a tunnel: the request that goes upstream, the check of the answer, what
    the client is told, and everything that is done until the pumps run (Tunnel). *)

From S2P Require Import Prelude Records Str HttpMsg Body Buf HttpParse Ip Rule Snap Router RouteCache Breaker UpsGroup Heads Forward RateLimit Ctx Mw Auth.

(** What forwarding needs of the group of a route. *)
Record GroupCfg := mkGroup {
  gr_totalMs : Z; gr_connectMs : Z; gr_readMs : Z; gr_cb : CbCfg; gr_endpoint : nat -> string * Z }.

Definition or_default (v dflt : Z) : Z := if v =? 0 then dflt else v.

(** ** The accept key *)

Definition base64_char (d : Z) : ascii :=
  if d <? 26 then chr (65 + d) else if d <? 52 then chr (71 + d) else if d <? 62 then chr (d - 4)
  else if d =? 62 then "+"%char else "/"%char.

(** Three bytes to four characters; the last one or two are padded. *)
Fixpoint base64encode (l : list ascii) : string :=
  match l with
  | [] => ""
  | [a] =>
      let packed := Z.shiftl (code a) 16 in
      String (base64_char (Z.shiftr packed 18)) (String (base64_char (Z.land (Z.shiftr packed 12) 63)) "==")
  | [a; b] =>
      let packed := Z.shiftl (Z.lor (Z.shiftl (code a) 8) (code b)) 8 in
      String (base64_char (Z.shiftr packed 18)) (String (base64_char (Z.land (Z.shiftr packed 12) 63))
        (String (base64_char (Z.land (Z.shiftr packed 6) 63)) "="))
  | a :: b :: c :: l =>
      let packed := Z.lor (Z.shiftl (Z.lor (Z.shiftl (code a) 8) (code b)) 8) (code c) in
      String (base64_char (Z.shiftr packed 18)) (String (base64_char (Z.land (Z.shiftr packed 12) 63))
        (String (base64_char (Z.land (Z.shiftr packed 6) 63)) (String (base64_char (Z.land packed 63)) (base64encode l))))
  end.

Definition kGuid : string := "258EAFA5-E914-47DA-95CA-C5AB0DC85B11".

(** ** The request *)

Definition is_hop_hdr_keepup (key : string) : bool :=
  existsb (case_eqb key)
    ["Keep-Alive"; "Proxy-Authenticate"; "Proxy-Authorization"; "Proxy-Connection"; "TE"; "Trailer"; "Trailers";
     "Transfer-Encoding"]%string.

Definition ws_rewrite_path (rule : option Rewrite) (path : string) : string :=
  let path :=
    match rule with
    | Some w =>
        if w_stripPrefix w && negb (String.eqb (w_pathPattern w) "") then
          match cut_prefix (w_pathPattern w) path with
          | Some p => if is_slash (first_char p) then p else ("/" ++ p)%string
          | None => path
          end
        else path
    | None => path
    end in
  let path :=
    match rule with
    | Some w =>
        let prefix := w_rewritePrefix w in
        if String.eqb prefix "" then path
        else if String.eqb prefix "/" then (if is_slash (first_char path) then path else "/" ++ path)%string
        else if negb (String.eqb path "") && is_slash (last_char prefix) && is_slash (first_char path)
        then (prefix ++ tail path)%string
        else if negb (String.eqb path "") && negb (is_slash (last_char prefix)) && negb (is_slash (first_char path))
        then (prefix ++ "/" ++ path)%string
        else (prefix ++ path)%string
    | None => path
    end in
  if String.eqb path "" then "/" else path.

(** A field of the client's request that goes on. *)
Definition ws_passes (connection key : string) : bool :=
  negb (is_hop_hdr_keepup key || (negb (case_eqb key "Upgrade") && hdr_has_token connection key)).

Definition ws_copy_headers (req up : GwRequest) : GwRequest :=
  let headers := rq_eff_headers req in
  let connection := join_hdr_vals headers "Connection" in
  fold_left (fun up (h : string * string) => if ws_passes connection h.1 then rq_addHeader h.1 h.2 up else up) headers up.

Definition ws_rule_headers (w : Rewrite) (up : GwRequest) : GwRequest :=
  let connection := join_hdr_vals (w_set w) "Connection" in
  let up := fold_left (fun up (kv : string * string) =>
    if is_hop_hdr_keepup kv.1 || hdr_has_token connection kv.1 || case_eqb kv.1 "Connection" || case_eqb kv.1 "Upgrade"
    then up else rq_setHeader kv.1 kv.2 up) (w_set w) up in
  fold_left (fun up k => rq_delHeader k up) (w_remove w) up.

Definition upgrade_request (req : GwRequest) (rule : option Rewrite) (upHost : string) (upPort : Z) : GwRequest :=
  let method := if String.eqb (rq_methodRaw req) "" then HttpMethodToString (rq_method req) else rq_methodRaw req in
  let up := mkRequest (rq_method req) method (ws_rewrite_path rule (rq_path req)) (rq_query req) "" 17 false false [] [] in
  let up := ws_copy_headers req up in
  let up := match rule with Some w => ws_rule_headers w up | None => up end in
  let up := rq_setHeader "Host" (host_port upHost upPort) up in
  let up := rq_setHeader "Upgrade" "websocket" (rq_setHeader "Connection" "Upgrade" up) in
  rq_delHeader "Transfer-Encoding" (rq_delHeader "Content-Length" up).

Definition build_upgrade_req (req : GwRequest) (rule : option Rewrite) (upHost : string) (upPort : Z) : string :=
  rq_dumpHead (upgrade_request req rule upHost upPort).

(** What happens to the upstream side. *)
Inductive WsEv :=
  | W_ACQ_FAIL | W_CIRCUIT_OPEN | W_NO_HEALTHY
  | W_HEAD (head : string) (ok : bool)
  | W_BYTES (bytes : list ascii) (ok : bool)   (* what the client had sent already *)
  | W_MARK (ret : UpRet) | W_COUNT (ret : UpRet) | W_RELEASE (ret : UpRet)
  | W_PUMPS                                    (* the connection is the pumps' *)
  | W_DROP.                                    (* the hold is dropped without them *)

(** What a tunnel finds outside. [w_pumps]: whether a pump failed to write, or [None] when the
    descriptor they wake the tunnel with could not be made. *)
Record WsOutside := mkWsOutside { w_acq : AcqConn; w_script : list Input; w_pumps : option bool }.

Section tunnel.
Context (env : nat -> Turn) (now : nat -> Z) (parse : list ascii -> Parsed) (sha1sum : string -> list ascii).
#[local] Abbreviation Ctx := (@ReqCtx GroupCfg).

Definition ws_accept_key (key : string) : string := base64encode (sha1sum (key ++ kGuid)%string).

Definition tick_ctx (c : Ctx) : Turn * Ctx :=
  (env (l_turn (c_conn c)), c <| c_conn := (c_conn c) <| l_turn := S (l_turn (c_conn c)) |> |>).

(** Milliseconds until the deadline, at most [want]. *)
Definition ws_cap (dueMs want now : Z) : Z := if dueMs =? 0 then want else Z.min want (leftMs dueMs now).

(** The head up to the blank line and what came with it. [false] when it failed because time
    was up. *)
Fixpoint read_resp_head (recvMs dueMs : Z) (script : list Input) (c : Ctx) (buf : list ascii)
    : option (list ascii * list ascii) * bool * Ctx :=
  let n := header_end buf in
  if negb (n =? 0) then (Some (firstn (Z.to_nat n) buf, skipn (Z.to_nat n) buf), false, c)
  else if 65536 <? Z.of_nat (length buf) then (None, u_timeout (env (l_turn (c_conn c))), c)
  else
    let '(t, c) := tick_ctx c in
    if negb (dueMs =? 0) && (ws_cap dueMs recvMs (u_now t) =? 0) then (None, true, c)
    else match script with
         | I_DATA a cs :: script => read_resp_head recvMs dueMs script c (buf ++ a :: cs)
         | _ => (None, u_timeout t, c)
         end.

(** The answer, if it accepts the upgrade. *)
Definition parse_101 (head : list ascii) (clientKey : string) : option GwResponse :=
  let d := parse head in
  let p := resp_events (d_events d) in
  if negb (r_error p =? 0) || d_failed d || negb (d_finished d) then None
  else
    let rsp := r_data p in
    let key := trim_ascii clientKey in
    if (rs_status rsp =? 101)
       && case_eqb (trim_ascii (rs_getHeader "Upgrade" "" rsp)) "websocket"
       && hdr_has_token (rs_getHeader "Connection" "" rsp) "Upgrade"
       && negb (String.eqb key "")
       && String.eqb (trim_ascii (rs_getHeader "Sec-WebSocket-Accept" "" rsp)) (ws_accept_key key)
    then Some rsp else None.

Definition client_101 (c : Ctx) (upstream : GwResponse) : GwResponse :=
  let rsp := (response_init <| rs_status := 101 |>) <| rs_reason := rs_reason upstream |> in
  let rsp := rs_setHeader "Connection" "Upgrade" (rs_setHeader "Upgrade" "websocket" rsp) in
  let rsp := fold_left (fun rsp name =>
    let value := rs_getHeader name "" upstream in
    if String.eqb value "" then rsp else rs_setHeader name value rsp)
    ["Sec-WebSocket-Accept"; "Sec-WebSocket-Protocol"; "Sec-WebSocket-Extensions"]%string rsp in
  applyHeaders (c_extra c) rsp.

(** The lambda [release], then the reply. *)
Definition release_failed (begin_ : Z) (ret : UpRet) (status : Z) (s : list WsEv * Ctx) : list WsEv * Ctx :=
  let '(t, c) := tick_ctx s.2 in
  let ret := if r_costMs ret =? 0 then ret <| r_costMs := wrap64 (upMs (u_now t) - begin_) |> else ret in
  (s.1 ++ [W_RELEASE ret; W_COUNT ret], reply_status env now status c).

(** No connection was found. *)
Definition ws_no_connection (begin_ : Z) (why : AcqWhy) (c : Ctx) : list WsEv * Ctx :=
  let '(t, c) := tick_ctx c in
  let cost := wrap64 (upMs (u_now t) - begin_) in
  let ret mark := mkUpRet mark (acqWhy why) 0 cost false in
  let '(evs, status) :=
    match why with
    | A_OPEN => ([W_CIRCUIT_OPEN; W_COUNT (ret M_SKIP)], 503)
    | A_DOWN => ([W_NO_HEALTHY; W_COUNT (ret M_SKIP)], 503)
    | A_BUSY => ([W_COUNT (ret M_SKIP)], 503)
    | A_DEADLINE => ([W_COUNT (ret M_SKIP)], 504)
    | A_TIMEOUT => ([W_COUNT (ret M_FAIL)], 504)
    | A_CONNECT | A_NONE => ([W_COUNT ((ret M_FAIL) <| r_why := U_CONNECT |>)], 502)
    end in
  (W_ACQ_FAIL :: evs, reply_status env now status c).

(** [SendAll] straight to the client's socket. *)
Definition send_client (e : bool -> Sent) (c : Ctx) : bool * Ctx :=
  let '(t, c) := tick_ctx c in
  (u_ok t, c <| c_conn := (c_conn c) <| l_out := l_out (c_conn c) ++ [e (u_ok t)] |> |>).

Definition takeBufferedInput (c : Ctx) : list ascii * Ctx :=
  match l_reader (c_conn c) with
  | Some b => (m_buf b, c <| c_conn := (c_conn c) <| l_reader := Some (b <| m_buf := [] |>) |> |>)
  | None => ([], c)
  end.

(** The pumps, once all that was read before them is sent on. *)
Definition run_pumps (w : WsOutside) (evs : list WsEv) (c : Ctx) : list WsEv * Ctx :=
  match w_pumps w with
  | None => (evs ++ [W_DROP], writeFail now c)
  | Some failed => (evs ++ [W_PUMPS], if failed : bool then writeFail now c else c)
  end.

(** From the upstream's 101 on. *)
Definition upgrade (w : WsOutside) (headRet : UpRet) (extra : list ascii) (rsp : GwResponse) (s : list WsEv * Ctx)
    : list WsEv * Ctx :=
  let '(evs, c) := s in
  let evs := evs ++ [W_MARK headRet; W_COUNT headRet] in
  let rsp := client_101 c rsp in
  let c := c <| c_response := Some rsp |> in
  let '(ok, c) := send_client (L_RAW rsp) c in
  let fail evs c := (evs ++ [W_RELEASE headRet], writeFail now c) in
  if negb ok then fail evs c
  else
    let c := c <| c_handled := true |> in
    let c := c <| c_conn := mark_raw_sent 101 (c_conn c) |> in
    let c := commitResp TUNNEL 101 (nowMs now c) c in
    let '(ok, c) := match extra with [] => (true, c) | _ => send_client (L_BYTES extra) c end in
    if negb ok then fail evs c
    else
      let '(buffered, c) := takeBufferedInput c in
      let '(ok, evs, c) :=
        match buffered with
        | [] => (true, evs, c)
        | _ => let '(t, c) := tick_ctx c in (u_ok t, evs ++ [W_BYTES buffered (u_ok t)], c)
        end in
      if negb ok then fail evs c
      else run_pumps w evs c.

Definition tunnel (connectMs recvMs : Z) (w : WsOutside) (c : Ctx) : list WsEv * Ctx :=
  match rt_upstream (c_route c), request c with
  | Some gr, Some req =>
      let '(t, c) := tick_ctx c in
      let begin_ := upMs (u_now t) in
      let headMs := or_default (gr_readMs gr) recvMs in
      let dueMs := due_of (or_default (gr_totalMs gr) recvMs) begin_ in
      match a_endpoint (w_acq w) with
      | None => ws_no_connection begin_ (a_why (w_acq w)) c
      | Some ep =>
          let '(t, c) := tick_ctx c in
          if ws_cap dueMs headMs (u_now t) =? 0 then
            let ret := mk_ret M_FAIL U_TIMEOUT in
            ([W_RELEASE ret; W_COUNT ret], reply_status env now 504 c)
          else
            let '(host, port) := gr_endpoint gr ep in
            let head := build_upgrade_req req (rc_rewrite <$> rule_of c) host port in
            let '(t, c) := tick_ctx c in
            let evs := [W_HEAD head (u_ok t)] in
            let overdue now := negb (dueMs =? 0) && (leftMs dueMs now =? 0) in
            if negb (u_ok t) then
              let '(t', c) := tick_ctx c in
              if u_timeout t || overdue (u_now t') then release_failed begin_ (mk_ret M_FAIL U_TIMEOUT) 504 (evs, c)
              else release_failed begin_ (mk_ret M_FAIL U_SEND) 502 (evs, c)
            else
              let '(t, c) := tick_ctx c in
              let wait := ws_cap dueMs headMs (u_now t) in
              let '(got, timeout, c) :=
                if wait =? 0 then (None, true, c) else read_resp_head wait dueMs (w_script w) c [] in
              match got with
              | None =>
                  let '(t', c) := tick_ctx c in
                  if timeout || overdue (u_now t') then release_failed begin_ (mk_ret M_FAIL U_TIMEOUT) 504 (evs, c)
                  else release_failed begin_ (mk_ret M_FAIL U_BAD_RESP) 502 (evs, c)
              | Some (head, extra) =>
                  match parse_101 head (rq_getHeader "Sec-WebSocket-Key" "" req) with
                  | None => release_failed begin_ (mk_ret M_FAIL U_BAD_RESP) 502 (evs, c)
                  | Some rsp =>
                      let '(t, c) := tick_ctx c in
                      upgrade w (mkUpRet M_OK U_NONE 101 (wrap64 (upMs (u_now t) - begin_)) false) extra rsp (evs, c)
                  end
              end
      end
  | None, _ => ([], reply_status env now 502 c)
  | _, None => ([], reply_status env now 503 c)
  end.

Definition MakeWebSocketTunnelStub (connectMs idleMs : Z) (w : WsOutside) : Middleware := fun next c =>
  match request c with
  | Some req => if rq_websocket req then (tunnel connectMs idleMs w c).2 else next c
  | None => next c
  end.
End tunnel.

(** ** The paths of the two heads *)

(** The tunnel rewrites a path as forwarding does. *)
Lemma cut_prefix_nonempty rule path : path <> ""%string -> ws_rewrite_path rule path = rewrite_path rule path.
Proof.
  intros Hp. destruct rule as [w|]; [|by destruct path]. unfold ws_rewrite_path, rewrite_path.
  set (p := if w_stripPrefix w && _ then _ else path).
  assert (Hn : p <> ""%string).
  { unfold p. destruct (_ && _); [|done]. destruct (cut_prefix _ _) as [q|]; [|done]. by destruct q as [|a q]; [|cbn; destruct (Ascii.eqb a "/")]. }
  clearbody p. destruct (String.eqb_spec (w_rewritePrefix w) "") as [_|Hw]; [by destruct p|].
  unfold join_prefix. assert (E : String.eqb p "" = false) by (by apply String.eqb_neq). rewrite E. cbn [negb andb].
  rewrite (proj2 (String.eqb_neq _ _) Hw).
  assert (X : forall s, (w_rewritePrefix w ++ s)%string <> ""%string) by (intros s; by destruct (w_rewritePrefix w)).
  destruct (String.eqb (w_rewritePrefix w) "/").
  - destruct (is_slash (first_char p)); [by rewrite E|done].
  - destruct (is_slash (last_char _) && _); [by rewrite (proj2 (String.eqb_neq _ _) (X _))|].
    destruct (negb _ && negb _); by rewrite (proj2 (String.eqb_neq _ _) (X _)).
Qed.

(** ** What a tunnel does to the answer *)

Section laws.
Context (env : nat -> Turn) (now : nat -> Z) (parse : list ascii -> Parsed) (sha1sum : string -> list ascii).
#[local] Abbreviation Ctx := (@ReqCtx GroupCfg).

(** [c'] is [c] some turns of the environment later: nothing else of it is different. *)
Definition turned (c c' : Ctx) : Prop := exists n, c' = c <| c_conn := (c_conn c) <| l_turn := n |> |>.

Lemma turned_tick (c : Ctx) : turned c (tick_ctx env c).2.
Proof. by eexists. Qed.

Lemma turned_refl (c : Ctx) : turned c c.
Proof. exists (l_turn (c_conn c)). by destruct c as [[]]. Qed.

Lemma turned_trans (c1 c2 c3 : Ctx) : turned c1 c2 -> turned c2 c3 -> turned c1 c3.
Proof. intros [n ->] [m ->]. by exists m. Qed.

Lemma turned_same (c c' : Ctx) : turned c c' -> same_answer c c'.
Proof. intros [n ->]. by split. Qed.

Definition input_bytes (i : Input) : list ascii := match i with I_DATA a cs => a :: cs | _ => [] end.

Lemma head_length buf : header_end buf <> 0 -> Z.of_nat (length (firstn (Z.to_nat (header_end buf)) buf)) = header_end buf.
Proof.
  intros H. destruct (header_end_split buf H) as (pre & post & E & Hn). rewrite List.length_firstn.
  apply (f_equal length) in E. rewrite !length_app in E. cbn in E. lia.
Qed.

(** The head is what was read up to the first blank line, and the rest of it is kept. *)
Lemma read_resp_head_spec recvMs dueMs script (c : Ctx) buf got timeout c' :
  read_resp_head env recvMs dueMs script c buf = (got, timeout, c') ->
  turned c c' /\
  forall head extra, got = Some (head, extra) ->
    Z.of_nat (length head) = header_end (head ++ extra) /\ head <> [] /\
    exists pre post, script = pre ++ post /\ head ++ extra = buf ++ flat_map input_bytes pre.
Proof.
  revert c buf. induction script as [|i script IH]; intros c buf; cbn [read_resp_head]; cbv zeta.
  all: destruct (Z.eqb_spec (header_end buf) 0) as [_|Hne]; cbn [negb].
  2,4: intros [= <- <- <-]; split; [apply turned_refl|]; intros h x [= <- <-]; rewrite List.firstn_skipn;
    pose proof (head_length buf Hne) as Hl; split; [done|]; split; [intros Hx; rewrite Hx in Hl; cbn in Hl; lia|];
    exists []; eexists; split; [reflexivity|]; by rewrite app_nil_r.
  - destruct (65536 <? _); [intros [= <- <- <-]; split; [apply turned_refl|done]|]. unfold tick_ctx.
    destruct (_ && _); intros [= <- <- <-]; (split; [by eexists|done]).
  - destruct (65536 <? _); [intros [= <- <- <-]; split; [apply turned_refl|done]|]. unfold tick_ctx.
    destruct (_ && _); [intros [= <- <- <-]; split; [by eexists|done]|].
    destruct i as [a cs| |]; [|intros [= <- <- <-]; (split; [by eexists|done])..]. intros E. apply IH in E as [Hs Hr].
    split; [by apply (turned_trans _ _ _ (turned_tick c))|].
    intros h x Eg. destruct (Hr h x Eg) as (H1 & Hne & pre & post & -> & H2). split; [done|]. split; [done|].
    exists (I_DATA a cs :: pre), post. split; [done|]. by rewrite H2, <- app_assoc.
Qed.

(** ** The two ways a tunnel with a connection ends *)

Inductive ws_outcome (w : WsOutside) (req : GwRequest) (c : Ctx) : list WsEv * Ctx -> Prop :=
  | WO_GIVE_UP evs ret status c' : Forall (fun e => match e with W_HEAD _ _ => True | _ => False end) evs -> same_answer c c' ->
      r_mark ret = M_FAIL -> ws_outcome w req c (evs ++ [W_RELEASE ret; W_COUNT ret], reply_status env now status c')
  | WO_UPGRADE h head extra rsp ret c' : turned c c' -> r_mark ret = M_OK ->
      parse_101 parse sha1sum head (rq_getHeader "Sec-WebSocket-Key" "" req) = Some rsp ->
      Z.of_nat (length head) = header_end (head ++ extra) -> head <> [] ->
      (exists pre post, w_script w = pre ++ post /\ head ++ extra = flat_map input_bytes pre) ->
      ws_outcome w req c (upgrade env now w ret extra rsp ([W_HEAD h true], c')).

Lemma tunnel_outcome connectMs recvMs w (c : Ctx) gr req ep : rt_upstream (c_route c) = Some gr -> request c = Some req ->
  a_endpoint (w_acq w) = Some ep -> ws_outcome w req c (tunnel env now parse sha1sum connectMs recvMs w c).
Proof.
  intros Hu Hr He. unfold tunnel. rewrite Hu, Hr, He. unfold tick_ctx at 1 2. cbv zeta.
  destruct (ws_cap _ _ _ =? 0); [by apply (WO_GIVE_UP w req c [])|].
  destruct (gr_endpoint gr ep) as [host port]. unfold tick_ctx at 1. destruct (u_ok _) eqn:Eok; cbn [negb].
  2: { unfold tick_ctx at 1, release_failed. destruct (_ || _); unfold tick_ctx; cbn; by apply (WO_GIVE_UP w req c [W_HEAD _ false]); [constructor|..]. }
  unfold tick_ctx at 1. destruct (if ws_cap _ _ _ =? 0 then _ else _) as [[got timeout] c4] eqn:Eg.
  assert (Hg : turned c c4 /\ forall head extra, got = Some (head, extra) ->
    Z.of_nat (length head) = header_end (head ++ extra) /\ head <> [] /\
    exists pre post, w_script w = pre ++ post /\ head ++ extra = flat_map input_bytes pre).
  { destruct (ws_cap _ _ _ =? 0); [injection Eg as <- <- <-; split; [by eexists|done]|].
    apply read_resp_head_spec in Eg as [Hs Hx]. split; [|exact Hx]. eapply turned_trans; [|exact Hs]. by eexists. }
  clear Eg. destruct Hg as [Ht Hx]. pose proof (turned_same _ _ Ht) as Hs. destruct got as [[head extra]|].
  - destruct (parse_101 _ _ _ _) as [rsp|] eqn:Ep.
    + destruct (Hx head extra eq_refl) as (Hl & Hne & Hp). unfold tick_ctx at 1.
      eapply WO_UPGRADE; [exact (turned_trans _ _ _ Ht (turned_tick c4))|done|exact Ep|exact Hl|exact Hne|exact Hp].
    + unfold release_failed, tick_ctx. cbn. apply (WO_GIVE_UP w req c [W_HEAD _ true]); [by repeat constructor| |done].
      by destruct Hs; split.
  - unfold tick_ctx at 1, release_failed. destruct (_ || _); unfold tick_ctx; cbn;
      (apply (WO_GIVE_UP w req c [W_HEAD _ true]); [by repeat constructor|by destruct Hs; split|done]).
Qed.

Lemma commitResp_conn st status t (c : Ctx) : c_conn (commitResp st status t c) = c_conn c.
Proof. unfold commitResp. destruct (negb (is_open _)); [destruct (_ || _)|]; done. Qed.

Lemma close_if_out (b : bool) (cl : Client) : l_out (if b then close_request cl else cl) = l_out cl.
Proof. by destruct b. Qed.

Lemma writeFail_out (c : Ctx) : l_out (c_conn (writeFail now c)) = l_out (c_conn c).
Proof.
  unfold writeFail, commitResp, markWriteFail, on_request, close_request. cbn.
  destruct (0 <? _), (is_open _), (is_write_fail (c_state c)); done.
Qed.

Lemma reply_out status body headers close (c : Ctx) : exists l, l_out (c_conn (reply env now status body headers close c)) =
  l_out (c_conn c) ++ l /\ Forall (fun x => match x with L_FULL _ _ _ => True | _ => False end) l.
Proof.
  unfold reply. destruct (negb (is_open _)); [exists []; by rewrite app_nil_r|].
  set (rsp := if negb (String.eqb body "") && _ then _ else _). set (c1 := if close then _ else _).
  assert (E1 : l_out (c_conn c1) = l_out (c_conn c)) by by destruct close. clearbody rsp c1.
  unfold sendResponse. destruct (force_body_err _ _ _) as [[r b] cl] eqn:Ef.
  assert (E2 : l_out cl = l_out (c_conn c1)) by (unfold force_body_err in Ef; destruct (_ || _); by injection Ef as <- <- <-).
  unfold write. cbv zeta. destruct (u_ok _).
  - eexists. split; [rewrite commitResp_conn; cbn; rewrite close_if_out; cbn; rewrite E2, E1; reflexivity|by repeat constructor].
  - eexists. split; [rewrite writeFail_out; cbn; rewrite E2, E1; reflexivity|by repeat constructor].
Qed.


Definition buffered_of (c : Ctx) : list ascii := match l_reader (c_conn c) with Some b => m_buf b | None => [] end.

Definition sent_bytes {A} (f : list ascii -> A) (l : list ascii) : list A := match l with [] => [] | _ => [f l] end.

(** How it ends: a write failed and the connection is given back, or the pumps have it, or
    nothing could wake the tunnel. *)
Inductive upgrade_end (c : Ctx) (rsp : GwResponse) (extra : list ascii) (ret : UpRet) : list WsEv -> list Sent -> Prop :=
  | UE_HEAD : upgrade_end c rsp extra ret [W_RELEASE ret] [L_RAW rsp false]
  | UE_EXTRA : extra <> [] -> upgrade_end c rsp extra ret [W_RELEASE ret] [L_RAW rsp true; L_BYTES extra false]
  | UE_BUFFERED : buffered_of c <> [] ->
      upgrade_end c rsp extra ret [W_BYTES (buffered_of c) false; W_RELEASE ret]
        (L_RAW rsp true :: sent_bytes (fun b => L_BYTES b true) extra)
  | UE_TUNNEL last : last = W_PUMPS \/ last = W_DROP ->
      upgrade_end c rsp extra ret (sent_bytes (fun b => W_BYTES b true) (buffered_of c) ++ [last])
        (L_RAW rsp true :: sent_bytes (fun b => L_BYTES b true) extra).

Lemma attempts_cons_out (cl : Client) x : attempts (cl <| l_out := l_out cl ++ [x] |>) =
  (attempts cl + if is_attempt x then 1 else 0)%nat.
Proof. unfold attempts. cbn. rewrite List.filter_app, length_app. cbn. by destruct (is_attempt x). Qed.

Lemma attempts_of (cl cl' : Client) : l_out cl' = l_out cl -> attempts cl' = attempts cl.
Proof. unfold attempts. by intros ->. Qed.

(** A head that was sent, and bytes after it. *)
Lemma answered_bytes (c c' : Ctx) x : answered_ctx c -> is_attempt x = false -> c_state c' = c_state c -> c_handled c' = c_handled c ->
  l_responded (c_conn c') = l_responded (c_conn c) -> l_writeFailed (c_conn c') = l_writeFailed (c_conn c) ->
  l_out (c_conn c') = l_out (c_conn c) ++ [x] -> answered_ctx c'.
Proof.
  intros [H Ho] Hx E1 E2 E3 E4 E5. assert (Hs : same_answer c c').
  { split; try done. unfold attempts. rewrite E5, List.filter_app, length_app. cbn. rewrite Hx. cbn. lia. }
  split; [by apply (settled_same c)|by rewrite E1].
Qed.

Lemma send_client_spec e (c : Ctx) : exists ok c', send_client env e c = (ok, c') /\ c_state c' = c_state c /\ c_handled c' = c_handled c /\
  l_responded (c_conn c') = l_responded (c_conn c) /\ l_writeFailed (c_conn c') = l_writeFailed (c_conn c) /\
  l_reader (c_conn c') = l_reader (c_conn c) /\ l_out (c_conn c') = l_out (c_conn c) ++ [e ok].
Proof. unfold send_client, tick_ctx. cbn. eexists _, _. by split_and!. Qed.

Lemma few_after (c : Ctx) : answered_ctx c -> (attempts (c_conn c) <= 1)%nat.
Proof. intros [H _]. unfold settled in H. destruct (c_state c); lia. Qed.

Lemma upgrade_spec w ret extra rsp evs (c : Ctx) : settled c -> c_state c = OPEN ->
  exists evs' out, upgrade_end c (client_101 c rsp) extra ret evs' out /\
    (upgrade env now w ret extra rsp (evs, c)).1 = evs ++ [W_MARK ret; W_COUNT ret] ++ evs' /\
    l_out (c_conn (upgrade env now w ret extra rsp (evs, c)).2) = l_out (c_conn c) ++ out /\
    answered_ctx (upgrade env now w ret extra rsp (evs, c)).2.
Proof.
  intros Hc Ho. unfold settled in Hc. rewrite Ho in Hc. destruct Hc as (A1 & A2 & A3 & A4). unfold upgrade. cbv zeta.
  set (r := client_101 c rsp). set (c0 := c <| c_response := Some r |>).
  destruct (send_client_spec (L_RAW r) c0) as (ok & c1 & -> & S1 & S2 & S3 & S4 & S5 & S6). cbn in S1, S2, S3, S4, S5, S6.
  assert (T1 : attempts (c_conn c1) = 1%nat).
  { unfold attempts in *. rewrite S6, List.filter_app, length_app. cbn. lia. }
  destruct ok; cbn [negb].
  2: { exists [W_RELEASE ret], [L_RAW r false]. split; [constructor|]. cbn [fst snd]. rewrite <- app_assoc. split; [done|].
       rewrite writeFail_out. split; [done|]. apply writeFail_settled. lia. }
  set (c2 := commitResp TUNNEL 101 _ _).
  assert (H2 : c_state c2 = TUNNEL /\ c_handled c2 = true /\ l_responded (c_conn c2) = true /\ l_out (c_conn c2) = l_out (c_conn c1) /\
    l_reader (c_conn c2) = l_reader (c_conn c)).
  { unfold c2, commitResp. cbn. rewrite S1, Ho. cbn. by rewrite S5. }
  destruct H2 as (U1 & U2 & U3 & U4 & U5).
  assert (H2 : answered_ctx c2).
  { unfold answered_ctx, settled. rewrite U1. split; [|done]. split; [|done]. rewrite (attempts_of _ _ U4). done. }
  clearbody c2. rewrite S6 in U4.
  set (q := match extra with [] => (true, c2) | _ => send_client env (L_BYTES extra) c2 end).
  assert (Hq : exists ok c3, q = (ok, c3) /\ answered_ctx c3 /\ l_reader (c_conn c3) = l_reader (c_conn c2) /\
    if ok : bool then l_out (c_conn c3) = l_out (c_conn c2) ++ sent_bytes (fun b => L_BYTES b true) extra
    else extra <> [] /\ l_out (c_conn c3) = l_out (c_conn c2) ++ [L_BYTES extra false]).
  { unfold q. destruct extra as [|a l]; [exists true, c2; by rewrite app_nil_r|].
    destruct (send_client_spec (L_BYTES (a :: l)) c2) as (ok & c3 & -> & V1 & V2 & V3 & V4 & V5 & V6). exists ok, c3.
    split; [done|]. split; [by apply (answered_bytes c2 c3 (L_BYTES (a :: l) ok))|]. split; [done|]. by destruct ok. }
  clearbody q. destruct Hq as (ok & c3 & -> & W1 & W2 & W3). destruct ok; cbn [negb].
  2: { destruct W3 as [W3 W4]. exists [W_RELEASE ret], [L_RAW r true; L_BYTES extra false]. split; [by constructor|]. cbn [fst snd].
       rewrite <- app_assoc. split; [done|]. rewrite writeFail_out, W4, U4, <- app_assoc. split; [done|].
       by apply writeFail_settled, few_after. }
  unfold takeBufferedInput. set (q := match l_reader (c_conn c3) with Some b => _ | None => _ end).
  assert (Hq : exists c4, q = (buffered_of c, c4) /\ same_answer c3 c4 /\ l_out (c_conn c4) = l_out (c_conn c3)).
  { unfold q, buffered_of. rewrite W2, U5. destruct (l_reader (c_conn c)); (eexists; split; [reflexivity|done]). }
  clearbody q. destruct Hq as (c4 & -> & X1 & X2).
  assert (Y : answered_ctx c4).
  { destruct W1 as [W1 W1']. split; [by apply (settled_same c3)|]. by rewrite (sa_state _ _ X1). }
  set (last := match w_pumps w with Some _ => W_PUMPS | None => W_DROP end).
  assert (Hl : last = W_PUMPS \/ last = W_DROP) by (unfold last; destruct (w_pumps w); auto).
  assert (Z : forall evs' c5, answered_ctx c5 -> l_out (c_conn c5) = l_out (c_conn c4) ->
    let fin := run_pumps now w evs' c5 in
    fin.1 = evs' ++ [last] /\ l_out (c_conn fin.2) = l_out (c_conn c4) /\ answered_ctx fin.2).
  { intros evs' c5 H5 E5. unfold last, run_pumps. destruct (w_pumps w) as [[]|]; cbn [fst snd]; rewrite ?writeFail_out; split_and!; try done;
      by apply writeFail_settled, few_after. }
  destruct (buffered_of c) as [|a l] eqn:Eb.
  - specialize (Z (evs ++ [W_MARK ret; W_COUNT ret]) c4 Y eq_refl). cbn [negb]. destruct (run_pumps _ _ _ _).
    destruct Z as (Z1 & Z2 & Z3). cbn [fst snd] in *. eexists _, _. split; [by apply (UE_TUNNEL _ _ _ _ last)|]. rewrite Eb.
    split; [by rewrite Z1, <- app_assoc|]. split; [|done]. by rewrite Z2, X2, W3, U4, <- app_assoc.
  - unfold tick_ctx. destruct (u_ok (env (l_turn (c_conn c4)))) eqn:Eok; cbn [negb].
    + set (c5 := c4 <| c_conn := _ |>).
      assert (H5 : answered_ctx c5) by (destruct Y as [Y1 Y2]; split; [by apply (settled_same c4)|done]).
      specialize (Z ((evs ++ [W_MARK ret; W_COUNT ret]) ++ [W_BYTES (a :: l) true]) c5 H5 eq_refl).
      destruct (run_pumps _ _ _ _). destruct Z as (Z1 & Z2 & Z3). cbn [fst snd] in *.
      eexists _, _. split; [by apply (UE_TUNNEL _ _ _ _ last)|]. rewrite Eb. split; [by rewrite Z1, <- !app_assoc|].
      split; [|done]. by rewrite Z2, X2, W3, U4, <- app_assoc.
    + eexists _, _. split; [apply UE_BUFFERED; by rewrite Eb|]. cbn [fst snd]. rewrite Eb, <- !app_assoc. split; [done|].
      rewrite writeFail_out. split; [cbn; by rewrite X2, W3, U4, <- app_assoc|]. apply writeFail_settled. exact (few_after c4 Y).
Qed.

Lemma tunnel_answers connectMs recvMs w (c : Ctx) : settled c -> c_state c = OPEN ->
  answered_ctx (tunnel env now parse sha1sum connectMs recvMs w c).2.
Proof.
  intros Hc Ho. destruct (rt_upstream (c_route c)) as [gr|] eqn:Eu; [destruct (request c) as [req|] eqn:Er|].
  - destruct (a_endpoint (w_acq w)) as [ep|] eqn:Ea.
    + destruct (tunnel_outcome connectMs recvMs w c gr req ep Eu Er Ea) as [evs ret status c' _ Hs|h head extra rsp ret c' Ht _ _ _ _ _].
      * by apply reply_settled, (settled_same c).
      * pose proof (turned_same _ _ Ht) as Hs. assert (H' : settled c') by by apply (settled_same c). assert (O' : c_state c' = OPEN) by by rewrite (sa_state _ _ Hs).
        destruct (upgrade_spec w ret extra rsp [W_HEAD h true] c' H' O') as (? & ? & _ & _ & _ & Ha). exact Ha.
    + unfold tunnel. rewrite Eu, Er, Ea. unfold tick_ctx, ws_no_connection, tick_ctx. cbv zeta.
      destruct (a_why (w_acq w)); apply reply_settled; by apply (settled_same c).
  - unfold tunnel. rewrite Eu, Er. by apply reply_settled.
  - unfold tunnel. rewrite Eu. by apply reply_settled.
Qed.

Lemma ws_lawful connectMs idleMs w : lawful (MakeWebSocketTunnelStub env now parse sha1sum connectMs idleMs w).
Proof.
  intros next Hn c Hc Hh. unfold MakeWebSocketTunnelStub. destruct (request c) as [req|]; [|by apply Hn].
  destruct (rq_websocket req); [|by apply Hn]. apply tunnel_answers; [done|].
  unfold settled in Hc. destruct (c_state c); try done; destruct Hc as (_ & _ & Hc); congruence.
Qed.

Lemma parse_101_spec head key rsp : parse_101 parse sha1sum head key = Some rsp ->
  let d := parse head in
  d_finished d = true /\ d_failed d = false /\ r_error (resp_events (d_events d)) = 0 /\ rsp = r_data (resp_events (d_events d)) /\
  rs_status rsp = 101 /\ trim_ascii key <> ""%string /\
  trim_ascii (rs_getHeader "Sec-WebSocket-Accept" "" rsp) = base64encode (sha1sum (trim_ascii key ++ kGuid)%string).
Proof.
  unfold parse_101. destruct (_ || _ || _) eqn:E; [done|]. destruct (_ && _) eqn:E'; [|done]. intros [= <-].
  b2p. split_and!; try done; try (by destruct (d_finished _)); try (by destruct (d_failed _));
    [by apply String.eqb_neq|by apply String.eqb_eq].
Qed.
End laws.

Definition gives_up_hold (e : WsEv) : bool := match e with W_RELEASE _ | W_PUMPS | W_DROP => true | _ => false end.
Definition counts (e : WsEv) : bool := match e with W_COUNT _ => true | _ => false end.

(** A tunnel that got a connection gives up its hold on the endpoint exactly once, be it
    that the handshake fails, a write to the client fails or the pumps take the connection
    over; and it counts one outcome. *)
Theorem tunnel_accounts (env : nat -> Turn) (now : nat -> Z) (parse : list ascii -> Parsed) (sha1sum : string -> list ascii)
    (connectMs recvMs : Z) (w : WsOutside) (c : @ReqCtx GroupCfg) :
  settled c -> c_state c = OPEN -> rt_upstream (c_route c) <> None -> request c <> None -> a_endpoint (w_acq w) <> None ->
  let evs := (tunnel env now parse sha1sum connectMs recvMs w c).1 in
  length (List.filter gives_up_hold evs) = 1%nat /\ length (List.filter counts evs) = 1%nat.
Proof.
  intros Hc Ho Hu Hr Ha evs. unfold evs. clear evs. destruct (rt_upstream _) as [gr|] eqn:Eu; [|done].
  destruct (request c) as [req|] eqn:Er; [|done]. destruct (a_endpoint _) as [ep|] eqn:Ea; [|done].
  destruct (tunnel_outcome env now parse sha1sum connectMs recvMs w c gr req ep Eu Er Ea)
    as [evs ret status c' He _|h head extra rsp ret c' Ht _ _ _ _ _]; cbn [fst].
  - rewrite !List.filter_app, !length_app. assert (X : List.filter gives_up_hold evs = [] /\ List.filter counts evs = []).
    { clear Ho Hc. induction He as [|e evs He _ IH]; [done|]. by destruct e. }
    by destruct X as [-> ->].
  - pose proof (turned_same _ _ Ht) as Hs.
    assert (H' : settled c') by by apply (settled_same c). assert (O' : c_state c' = OPEN) by by rewrite (sa_state _ _ Hs).
    destruct (upgrade_spec env now w ret extra rsp [W_HEAD h true] c' H' O') as (evs' & out & Hend & -> & _).
    cbn. destruct Hend as [| | |last [-> | ->]]; try done; by destruct (buffered_of c').
Qed.

(** C20: the client is told that protocols were switched only when the upstream said so: its
    head was read whole, parses, is a 101 and carries the accept key of the client's key.
    Then, before the pumps run, what the upstream sent behind its head goes to the client
    next, and what the reader of the client's request had received behind that request
    goes to the upstream: no byte of either stream is lost or overtaken. *)
Theorem tunnel_upgrade (env : nat -> Turn) (now : nat -> Z) (parse : list ascii -> Parsed) (sha1sum : string -> list ascii)
    (connectMs recvMs : Z) (w : WsOutside) (c : @ReqCtx GroupCfg) (req : GwRequest) (rsp : GwResponse) (ok : bool) :
  settled c -> c_state c = OPEN -> request c = Some req -> a_endpoint (w_acq w) <> None ->
  let '(evs, c') := tunnel env now parse sha1sum connectMs recvMs w c in
  In (L_RAW rsp ok) (l_out (c_conn c')) ->
  exists head extra up pre post,
    let d := parse head in
    let key := trim_ascii (rq_getHeader "Sec-WebSocket-Key" "" req) in
    w_script w = pre ++ post /\ head ++ extra = flat_map input_bytes pre /\
    Z.of_nat (length head) = header_end (head ++ extra) /\ head <> [] /\
    d_finished d = true /\ d_failed d = false /\ up = r_data (resp_events (d_events d)) /\ rs_status up = 101 /\
    trim_ascii (rs_getHeader "Sec-WebSocket-Accept" "" up) = base64encode (sha1sum (key ++ kGuid)%string) /\
    rsp = client_101 c up /\
    (In W_PUMPS evs ->
       l_out (c_conn c') = l_out (c_conn c) ++ L_RAW rsp true :: sent_bytes (fun b => L_BYTES b true) extra /\
       exists before, evs = before ++ sent_bytes (fun b => W_BYTES b true) (buffered_of c) ++ [W_PUMPS]).
Proof.
  intros Hc Ho Hr Ha. destruct (tunnel env now parse sha1sum connectMs recvMs w c) as [evs c'] eqn:Et. intros Hin.
  assert (N : forall (c0 : @ReqCtx GroupCfg), settled c0 -> c_state c0 = OPEN -> ~ In (L_RAW rsp ok) (l_out (c_conn c0))).
  { intros c0 H0 O0 Hi. unfold settled in H0. rewrite O0 in H0. destruct H0 as (A & _). unfold attempts in A.
    assert (F : In (L_RAW rsp ok) (List.filter is_attempt (l_out (c_conn c0)))) by by apply filter_In.
    by destruct (List.filter is_attempt (l_out (c_conn c0))). }
  assert (R : forall st (c0 : @ReqCtx GroupCfg), settled c0 -> c_state c0 = OPEN -> ~ In (L_RAW rsp ok) (l_out (c_conn (reply_status env now st c0)))).
  { intros st c0 H0 O0 Hi. destruct (reply_out env now st (reason_line st) [] false c0) as (l & El & Hl).
    unfold reply_status in Hi. rewrite El in Hi. apply in_app_iff in Hi as [Hi|Hi]; [by apply (N c0)|].
    rewrite List.Forall_forall in Hl. by apply Hl in Hi. }
  destruct (rt_upstream (c_route c)) as [gr|] eqn:Eu.
  2: { unfold tunnel in Et. rewrite Eu in Et. injection Et as <- <-. by apply R in Hin. }
  destruct (a_endpoint (w_acq w)) as [ep|] eqn:Ea; [|done].
  pose proof (tunnel_outcome env now parse sha1sum connectMs recvMs w c gr req ep Eu Hr Ea) as H. rewrite Et in H.
  remember (evs, c') as res eqn:Eres.
  destruct H as [evs0 ret status c1 He Hs Hm|h head extra up ret c1 Ht Hm Hp Hlen Hne (pre & post & Es & Eh)].
  - exfalso. injection Eres as <- <-. apply (R status c1) in Hin; [done|by apply (settled_same c)|by rewrite (sa_state _ _ Hs)].
  - pose proof (turned_same _ _ Ht) as Hs.
    assert (Hc1 : client_101 c1 up = client_101 c up /\ l_out (c_conn c1) = l_out (c_conn c) /\ buffered_of c1 = buffered_of c)
      by by destruct Ht as [n ->].
    destruct Hc1 as (C1 & C2 & C3).
    assert (H' : settled c1) by by apply (settled_same c). assert (O' : c_state c1 = OPEN) by by rewrite (sa_state _ _ Hs).
    destruct (upgrade_spec env now w ret extra up [W_HEAD h true] c1 H' O') as (evs' & out & Hend & E1 & E2 & _).
    rewrite Eres in E1, E2. cbn [fst snd] in E1, E2. rewrite E2 in Hin. apply in_app_iff in Hin as [Hin|Hin]; [by apply N in Hin|].
    apply parse_101_spec in Hp as (P1 & P2 & P3 & P4 & P5 & P6 & P7).
    assert (Hrsp : rsp = client_101 c1 up).
    { destruct Hend as [|Hx|Hx|last Hl]; cbn in Hin; repeat (destruct Hin as [Hin|Hin]; [by injection Hin as <- <-|]); try done;
        exfalso; by destruct extra; cbn in Hin; [|destruct Hin]. }
    exists head, extra, up, pre, post. rewrite <- C1, <- C2, <- C3. split_and!; try done. intros Hpump. rewrite E1 in Hpump. rewrite E2, Hrsp.
    destruct Hend as [|Hx|Hx|last [-> | ->]]; cbn in Hpump;
      try (exfalso; repeat (destruct Hpump as [Hpump|Hpump]; [done|]); done).
    + split; [done|]. exists ([W_HEAD h true] ++ [W_MARK ret; W_COUNT ret]). by rewrite E1, <- app_assoc.
    + exfalso. do 3 (destruct Hpump as [Hpump|Hpump]; [done|]). destruct (buffered_of c1); cbn in Hpump;
        repeat (destruct Hpump as [Hpump|Hpump]; [done|]); done.
Qed.

(** ** Fields of the upgrade *)

Lemma ws_passes_cong connection a k : case_eqb a k = true -> c_str k <> EmptyString -> ws_passes connection a = ws_passes connection k.
Proof.
  intros E Hk. unfold ws_passes, is_hop_hdr_keepup.
  by rewrite (existsb_case_cong a k), (has_token_cong connection a k), (case_eqb_cong _ _ "Upgrade" E).
Qed.

Lemma ws_copy_fields k connection headers up : c_str k <> EmptyString ->
  fields k (fold_left (fun up (h : string * string) => if ws_passes connection h.1 then rq_addHeader h.1 h.2 up else up) headers up) =
  fields k up ++ (if ws_passes connection k then values_of k headers else []).
Proof.
  intros Hk. revert up. induction headers as [|[a v] headers IH]; intros up; cbn [fold_left fst snd].
  { by destruct (ws_passes connection k); rewrite app_nil_r. }
  rewrite IH. change ((a, v) :: headers) with ([(a, v)] ++ headers). rewrite values_of_app, values_of_one.
  destruct (case_eqb a k) eqn:Ea.
  - rewrite (ws_passes_cong connection a k Ea Hk). destruct (ws_passes connection k); [|done].
    by rewrite fields_add, Ea, <- app_assoc.
  - destruct (ws_passes connection a); [by rewrite fields_add, Ea, app_nil_r|done].
Qed.

(** The fields a route without rules sends upstream: those of the client, whatever they are.
    A field by which the gateway says who the client is is no exception. *)
Lemma upgrade_fields k req host port : c_str k <> EmptyString ->
  existsb (case_eqb k) ["Host"; "Connection"; "Upgrade"; "Content-Length"; "Transfer-Encoding"]%string = false ->
  fields k (upgrade_request req None host port) =
  if ws_passes (join_hdr_vals (rq_eff_headers req) "Connection") k then values_of k (rq_eff_headers req) else [].
Proof.
  intros Hk He. cbn [existsb] in He. rewrite !orb_false_iff in He. destruct He as (E1 & E2 & E3 & E4 & E5 & _).
  unfold upgrade_request, ws_copy_headers. cbv zeta. autorewrite with fields.
  rewrite !(case_eqb_sym _ k), E1, E2, E3, E4, E5, ws_copy_fields by done. done.
Qed.

(** ** Witnesses *)

Definition sample_sha1 (s : string) : list ascii := [chr (Z.of_nat (String.length s)); "b"; "c"; "d"]%char.

Definition sample_upgrade : GwRequest :=
  fold_left rq_op [H_ADD "Connection" "keep-alive, Upgrade"; H_ADD "Upgrade" "websocket"; H_ADD "Sec-WebSocket-Key" "a2V5";
                   H_ADD "X-Forwarded-For" "6.6.6.6"]%string (request_init <| rq_websocket := true |>).

Definition sample_101 (_ : list ascii) : Parsed :=
  mkParsed [A_STATUS "101"; A_FIELD "Upgrade" "websocket"; A_FIELD "Connection" "Upgrade";
            A_FIELD "Sec-WebSocket-Accept" (base64encode (sample_sha1 ("a2V5" ++ kGuid)))]%string true false.

(** The upstream's head with two bytes of the stream behind it; the client has sent a byte. *)
Definition sample_ws : WsOutside :=
  mkWsOutside (mkAcq (Some 0%nat) false A_NONE 0 false true)
    [I_DATA "H" (chars "TTP/1.1 101" ++ [CR; LF; CR]); I_DATA LF (chars "hi")] (Some false).

Definition sample_ws_ctx : @ReqCtx GroupCfg :=
  (ctx_init (mkClient (Some sample_upgrade) (Some (reader_init F_NONE 0 (chars "x") [] false)) F_NONE 0 true false false 0 Q_NONE 0 [])
     (rate_init (A := double) 1 0) 0)
    <| c_route := mkResult true None (Some (mkGroup 0 0 0 sample_cb (fun _ => ("up"%string, 80)))) "/" |>.

Definition sample_tunnel : list WsEv * @ReqCtx GroupCfg := tunnel calm (fun _ => 5) sample_101 sample_sha1 3000 60000 sample_ws sample_ws_ctx.

Lemma tunnel_accounts_witness :
  length (List.filter gives_up_hold sample_tunnel.1) = 1%nat /\ length (List.filter counts sample_tunnel.1) = 1%nat.
Proof.
  apply (tunnel_accounts calm (fun _ => 5) sample_101 sample_sha1 3000 60000 sample_ws sample_ws_ctx); try done.
Defined.

Lemma tunnel_upgrade_witness :
  exists rsp extra before, l_out (c_conn sample_tunnel.2) = L_RAW rsp true :: sent_bytes (fun b => L_BYTES b true) extra /\
    sample_tunnel.1 = before ++ [W_BYTES (chars "x") true; W_PUMPS] /\ rs_status rsp = 101.
Proof.
  pose (rsp := match l_out (c_conn sample_tunnel.2) with L_RAW r _ :: _ => r | _ => response_init end).
  pose proof (tunnel_upgrade calm (fun _ => 5) sample_101 sample_sha1 3000 60000 sample_ws sample_ws_ctx sample_upgrade rsp true) as H.
  assert (E : exists evs c', tunnel calm (fun _ => 5) sample_101 sample_sha1 3000 60000 sample_ws sample_ws_ctx = (evs, c') /\
    sample_tunnel = (evs, c') /\ In (L_RAW rsp true) (l_out (c_conn c')) /\ In W_PUMPS evs).
  { eexists _, _. split; [vm_compute; reflexivity|]. split; [vm_compute; reflexivity|]. split; [by left|]. vm_compute. tauto. }
  destruct E as (evs & c' & E & E' & Hin & Hp). rewrite E in H. rewrite E'.
  destruct H as (head & extra & up & pre & post & _ & _ & _ & _ & _ & _ & _ & _ & _ & _ & Hx); [by split_and!|done|done|done|exact Hin|].
  destruct (Hx Hp) as [H1 [before H2]]. exists rsp, extra, before. split; [exact H1|]. split; [exact H2|]. by vm_compute.
Defined.

(** The order of the streams. *)
Example tunnel_streams :
  exists rsp ret, (l_out (c_conn sample_tunnel.2), drop 1 sample_tunnel.1) =
    ([L_RAW rsp true; L_BYTES (chars "hi") true], [W_MARK ret; W_COUNT ret; W_BYTES (chars "x") true; W_PUMPS]).
Proof. do 2 eexists. by vm_compute. Qed.

(** The client's own word on where it comes from reaches the upstream. *)
Example forged_upgrade : fields "X-Forwarded-For" (upgrade_request sample_upgrade None "up" 80) = ["6.6.6.6"]%string.
Proof. by vm_compute. Qed.

(** RFC 4648. *)
Example base64_foobar : base64encode (chars "foobar") = "Zm9vYmFy"%string /\ base64encode (chars "fo") = "Zm8="%string.
Proof. by vm_compute. Qed.
