(* ===== verification/Tunnel.v ===== *)
(** * The pumps of a websocket (src/gateway/include/middlewares/ws.cpp)

    Two coroutines copy bytes, one each way, on any two threads of the worker pool, while the
    request waits for both. Every access to what they share is a step, and steps interleave
    freely: atomics, calls on the sockets, the wake-up. *)

From S2P Require Import Prelude Records.

(** ** State *)

(** What [recv] says when it gives no byte, and [SendAll] when it fails. *)
Inductive Errno := E_AGAIN | E_TIMEDOUT | E_CANCELED | E_BADF | E_PIPE | E_CONNRESET | E_OTHER.
#[export] Instance Errno_eq_dec : EqDecision Errno. Proof. solve_decision. Defined.

(** Where a pump is. [fatal] travels with it, as the local of [pump_tunnel] does. *)
Inductive PumpPc :=
  | K_TEST                                    (* the test of [closed] *)
  | K_RECV
  | K_SEND (buf : list ascii)
  | K_IDLE (end_ : Z) (fatal : bool)          (* idle.store(true) *)
  | K_WF (fatal : bool)                       (* writeFailed.store(true) *)
  | K_END (end_ : Z) (fatal : bool)           (* set_end *)
  | K_HALF                                    (* half_close_wr *)
  | K_CAS | K_SHUT_C | K_SHUT_U               (* close_tunnel *)
  | K_SUB                                     (* activePumps.fetch_sub(1) *)
  | K_REL | K_DROP                            (* release_tunnel *)
  | K_CLOSE_C | K_CLOSE_U | K_WAKE
  | K_DONE.

(** A pump: where it is, what it has received, what the other socket took, and whether bytes
    were lost to a failed send. *)
Record Pump := mkPump { p_pc : PumpPc; p_in : list ascii; p_out : list ascii; p_lost : bool }.

(** A socket: open, and its writing side shut down. *)
Record Sock := mkSock { k_open : bool; k_shut : bool }.

(** Where the request is: in its own pump, or after it. *)
Inductive MainPc := M_PUMP | M_LOAD | M_WAIT | M_END | M_CAS | M_SHUT_C | M_SHUT_U | M_WF | M_CLOSE | M_RET.

(** [TunnelState], the event descriptor of [PumpWait], and the three threads of control.
    [t_holds] counts the calls of [dropHold]; [t_stray] the wake-ups written after the
    descriptor was closed; [t_waitFailed]: waiting failed; [t_told]: [writeFail] was called. *)
Record Tun := mkTun {
  t_closed : bool; t_released : bool; t_writeFailed : bool; t_idle : bool; t_active : Z; t_end : Z;
  t_client : Sock; t_up : Sock; t_holds : nat; t_event : nat; t_fdOpen : bool; t_stray : nat;
  t_fromC : Pump; t_fromU : Pump; t_main : MainPc; t_waitFailed : bool; t_told : bool }.

(** The pump of the request reads from the client; the one that is posted, from the upstream.
    Without an I/O manager ([posted] is [false]) only the first one runs. *)
Inductive Who := FROM_CLIENT | FROM_UPSTREAM.
#[export] Instance Who_eq_dec : EqDecision Who. Proof. solve_decision. Defined.

Definition pump (d : Who) (s : Tun) : Pump := match d with FROM_CLIENT => t_fromC s | FROM_UPSTREAM => t_fromU s end.

Definition set_pump (d : Who) (p : Pump) (s : Tun) : Tun :=
  match d with FROM_CLIENT => s <| t_fromC := p |> | FROM_UPSTREAM => s <| t_fromU := p |> end.

Definition other (d : Who) : Who := match d with FROM_CLIENT => FROM_UPSTREAM | FROM_UPSTREAM => FROM_CLIENT end.

Definition pump_start : Pump := mkPump K_TEST [] [] false.

Definition tun_start (posted : bool) : Tun :=
  mkTun false false false false (if posted then 2 else 1) 0 (mkSock true false) (mkSock true false) 0 0 true 0
        pump_start (if posted then pump_start else mkPump K_DONE [] [] false) M_PUMP false false.

(** ** What the world answers to a step *)

Inductive Ans :=
  | A_GO                                      (* nothing to answer *)
  | A_DATA (bytes : list ascii)               (* recv *)
  | A_EOF
  | A_ERR (e : Errno) (late : bool)           (* ...an error, and whether the idle deadline is over *)
  | A_SENT                                    (* SendAll *)
  | A_CUT (taken : nat) (e : Errno)
  | A_INTR                                    (* a write or a read cut by a signal *)
  | A_BROKEN.                                 (* the read of the descriptor fails *)

(** ** Shared operations *)

Definition set_end (end_ : Z) (s : Tun) : Tun := if t_end s =? 0 then s <| t_end := end_ |> else s.

Definition sock_to (d : Who) (s : Tun) : Sock := match d with FROM_CLIENT => t_up s | FROM_UPSTREAM => t_client s end.

Definition shut (k : Sock) : Sock := if k_open k then k <| k_shut := true |> else k.

(** [shutdown] of the side the pump writes to. *)
Definition half_close_wr (d : Who) (s : Tun) : Tun :=
  match d with
  | FROM_CLIENT => s <| t_up := shut (t_up s) |>
  | FROM_UPSTREAM => s <| t_client := shut (t_client s) |>
  end.

(** The exchange of [close_tunnel]: whoever wins it shuts both sockets down. *)
Definition close_cas (s : Tun) : bool * Tun := (negb (t_closed s), s <| t_closed := true |>).

Definition release_cas (s : Tun) : bool * Tun := (negb (t_released s), s <| t_released := true |>).

Definition wake_pump (s : Tun) : Tun :=
  if t_fdOpen s then s <| t_event := S (t_event s) |> else s <| t_stray := S (t_stray s) |>.

(** ** A pump *)

Definition kBuf : nat := Z.to_nat (16 * 1024).

Definition goto (d : Who) (pc : PumpPc) (s : Tun) : Tun := set_pump d ((pump d s) <| p_pc := pc |>) s.

(** The end of [pump_tunnel]: the writing side is shut down, or all of the tunnel. *)
Definition leave (fatal : bool) : PumpPc := if fatal then K_CAS else K_HALF.

Definition pump_recv (d : Who) (a : Ans) (s : Tun) : option Tun :=
  match a with
  | A_DATA bytes =>
      if (0 <? length bytes)%nat && (length bytes <=? kBuf)%nat then
        Some (set_pump d (((pump d s) <| p_in := p_in (pump d s) ++ bytes |>) <| p_pc := K_SEND bytes |>) s)
      else None
  | A_EOF => Some (goto d (K_END 1 false) s)
  | A_ERR E_AGAIN late => Some (goto d (if late : bool then K_IDLE 2 false else K_TEST) s)
  | A_ERR E_TIMEDOUT _ => Some (goto d (K_IDLE 2 false) s)
  | A_ERR E_CANCELED _ | A_ERR E_BADF _ => Some (goto d (K_END 3 false) s)
  | A_ERR _ _ => Some (goto d (K_END 3 true) s)
  | _ => None
  end.

Definition send_fatal (e : Errno) : bool :=
  negb (bool_decide (e = E_PIPE) || bool_decide (e = E_CONNRESET) || bool_decide (e = E_CANCELED)).

Definition pump_send (d : Who) (buf : list ascii) (a : Ans) (s : Tun) : option Tun :=
  let p := pump d s in
  match a with
  | A_SENT => Some (set_pump d ((p <| p_out := p_out p ++ buf |>) <| p_pc := K_TEST |>) s)
  | A_CUT taken e =>
      Some (set_pump d (((p <| p_out := p_out p ++ firstn taken buf |>) <| p_lost := true |>) <| p_pc := K_WF (send_fatal e) |>) s)
  | _ => None
  end.

(** [finish_pump], from the count on; the last one clears up. *)
Definition finish_pump (d : Who) (s : Tun) : Tun :=
  let left := t_active s - 1 in
  goto d (if left =? 0 then K_REL else K_DONE) (s <| t_active := left |>).

Definition pump_step (d : Who) (a : Ans) (s : Tun) : option Tun :=
  match p_pc (pump d s), a with
  | K_RECV, _ => pump_recv d a s
  | K_SEND buf, _ => pump_send d buf a s
  | K_WAKE, A_INTR => Some s
  | K_TEST, A_GO => Some (goto d (if t_closed s then K_HALF else K_RECV) s)
  | K_IDLE e fatal, A_GO => Some (goto d (K_END e fatal) (s <| t_idle := true |>))
  | K_WF fatal, A_GO => Some (goto d (K_END 4 fatal) (s <| t_writeFailed := true |>))
  | K_END e fatal, A_GO => Some (goto d (leave fatal) (set_end e s))
  | K_HALF, A_GO => Some (goto d K_SUB (half_close_wr d s))
  | K_CAS, A_GO => let '(won, s) := close_cas s in Some (goto d (if won : bool then K_SHUT_C else K_SUB) s)
  | K_SHUT_C, A_GO => Some (goto d K_SHUT_U (s <| t_client := shut (t_client s) |>))
  | K_SHUT_U, A_GO => Some (goto d K_SUB (s <| t_up := shut (t_up s) |>))
  | K_SUB, A_GO => Some (finish_pump d s)
  | K_REL, A_GO => let '(won, s) := release_cas s in Some (goto d (if won : bool then K_DROP else K_CLOSE_C) s)
  | K_DROP, A_GO => Some (goto d K_CLOSE_C (s <| t_holds := S (t_holds s) |>))
  | K_CLOSE_C, A_GO => Some (goto d K_CLOSE_U (s <| t_client := (t_client s) <| k_open := false |> |>))
  | K_CLOSE_U, A_GO => Some (goto d K_WAKE (s <| t_up := (t_up s) <| k_open := false |> |>))
  | K_WAKE, A_GO => Some (goto d K_DONE (wake_pump s))
  | _, _ => None
  end.

(** ** The request, after its own pump *)

Definition main_step (a : Ans) (s : Tun) : option Tun :=
  match t_main s, a with
  | M_PUMP, A_GO => match p_pc (t_fromC s) with K_DONE => Some (s <| t_main := M_LOAD |>) | _ => None end
  | M_LOAD, A_GO => Some (s <| t_main := if t_active s >? 0 then M_WAIT else M_WF |>)
  | M_WAIT, A_GO => match t_event s with O => None | S _ => Some ((s <| t_event := O |>) <| t_main := M_WF |>) end
  | M_WAIT, A_INTR => Some s
  | M_WAIT, A_BROKEN => Some ((s <| t_waitFailed := true |>) <| t_main := M_END |>)
  | M_END, A_GO => Some ((set_end 3 s) <| t_main := M_CAS |>)
  | M_CAS, A_GO => let '(won, s) := close_cas s in Some (s <| t_main := if won : bool then M_SHUT_C else M_WF |>)
  | M_SHUT_C, A_GO => Some ((s <| t_client := shut (t_client s) |>) <| t_main := M_SHUT_U |>)
  | M_SHUT_U, A_GO => Some ((s <| t_up := shut (t_up s) |>) <| t_main := M_WF |>)
  | M_WF, A_GO => Some ((s <| t_told := t_writeFailed s |>) <| t_main := M_CLOSE |>)
  | M_CLOSE, A_GO => Some ((s <| t_fdOpen := false |>) <| t_main := M_RET |>)
  | _, _ => None
  end.

Inductive Label := PUMP (d : Who) (a : Ans) | MAIN (a : Ans).

Definition tun_step (l : Label) (s : Tun) : option Tun :=
  match l with PUMP d a => pump_step d a s | MAIN a => main_step a s end.

Fixpoint tun_run (ls : list Label) (s : Tun) : option Tun :=
  match ls with [] => Some s | l :: ls => match tun_step l s with Some s => tun_run ls s | None => None end end.

(** The states a tunnel can be in. *)
Inductive reachable (posted : bool) : Tun -> Prop :=
  | R_START : reachable posted (tun_start posted)
  | R_STEP s l s' : reachable posted s -> tun_step l s = Some s' -> reachable posted s'.

(** ** Who clears up

    [live]: not yet counted out. Of two pumps that are counted out at most one is on its way
    through the clearing up; [cleared] says how far it has come. *)

Definition live (pc : PumpPc) : bool :=
  match pc with K_REL | K_DROP | K_CLOSE_C | K_CLOSE_U | K_WAKE | K_DONE => false | _ => true end.

Definition stage (pc : PumpPc) : nat :=
  match pc with K_REL => 1 | K_DROP => 2 | K_CLOSE_C => 3 | K_CLOSE_U => 4 | K_WAKE => 5 | _ => 0 end.

Definition cleared (a b : PumpPc) : nat :=
  if live a || live b then 0 else match stage a + stage b with O => 6 | n => n end.

Definition progress (s : Tun) : nat := cleared (p_pc (t_fromC s)) (p_pc (t_fromU s)).

Record orderly (s : Tun) : Prop := {
  or_active : t_active s = Z.b2z (live (p_pc (t_fromC s))) + Z.b2z (live (p_pc (t_fromU s)));
  or_one : forall d, stage (p_pc (pump d s)) = O \/ p_pc (pump (other d) s) = K_DONE;
  or_released : t_released s = (2 <=? progress s)%nat;
  or_holds : t_holds s = if (3 <=? progress s)%nat then 1%nat else O;
  or_client : k_open (t_client s) = (progress s <=? 3)%nat;
  or_up : k_open (t_up s) = (progress s <=? 4)%nat }.

Lemma cleared_sym a b : cleared a b = cleared b a.
Proof. unfold cleared. by rewrite orb_comm, Nat.add_comm. Qed.

Lemma live_stage pc : live pc = true -> stage pc = O.
Proof. by destruct pc. Qed.

Lemma pump_set d p s : pump d (set_pump d p s) = p.
Proof. by destruct d. Qed.

Lemma pump_set_other d p s : pump (other d) (set_pump d p s) = pump (other d) s.
Proof. by destruct d. Qed.

Ltac open_tun s :=
  destruct s as [closed released writeFailed idle active end_ [copen cshut] [uopen ushut] holds event fdOpen stray
    [pc1 in1 out1 lost1] [pc2 in2 out2 lost2] main waitFailed told].

(** Every step of a pump, one by one. *)
Ltac pump_cases H :=
  match type of H with pump_step ?d ?a _ = Some _ =>
    unfold pump_step, pump_recv, pump_send, finish_pump, wake_pump, set_end, goto, leave in H; destruct d; cbn -[Z.sub kBuf firstn] in H;
    match type of H with (match ?pc with K_TEST => _ | _ => _ end = _) => destruct pc end; 
    destruct a as [|?| |[] []| |? ?| |]; cbn -[Z.sub kBuf firstn] in H; try discriminate H;
    repeat match type of H with
    | (if ?b then _ else _) = _ => destruct b eqn:?
    | Some (if ?b then _ else _) = _ => destruct b eqn:?
    | context [if ?b then _ else _] => destruct b eqn:?
    end; try discriminate H; injection H as <-
  end.

Lemma pump_orderly d a s s' : orderly s -> pump_step d a s = Some s' -> orderly s'.
Proof.
  intros [H1 H2 H3 H4 H5 H6] H. open_tun s. unfold progress in *.
  pose proof (H2 FROM_CLIENT) as H2c. pose proof (H2 FROM_UPSTREAM) as H2u. clear H2. cbn in *.
  pump_cases H; (split; [| |unfold progress..]; cbn -[Z.sub] in *; [|intros []; cbn| ..]); try done.
  all: destruct H2c as [H2c|H2c], H2u as [H2u|H2u]; try discriminate; subst; auto.
  all: unfold cleared in *; rewrite ?orb_true_r, ?orb_false_r, ?Nat.add_0_r in *; cbn -[Z.sub] in *; auto.
  all: try (rewrite ?H2c, ?H2u; destruct (live _) eqn:?; cbn -[Z.sub] in *; b2p; subst; try done; try lia).
  all: first [discriminate | match goal with pc : PumpPc |- _ => right; by destruct pc end].
Qed.

(** ** The streams *)

Definition in_hand (pc : PumpPc) : list ascii := match pc with K_SEND buf => buf | _ => [] end.

Definition copying (pc : PumpPc) : bool := match pc with K_TEST | K_RECV | K_SEND _ => true | _ => false end.

Definition owes_wf (pc : PumpPc) : bool := match pc with K_WF _ => true | _ => false end.

(** Past the point where the end of the stream is passed on. *)
Definition passed_on (pc : PumpPc) : bool := match pc with K_SUB => true | _ => negb (live pc) end.

Definition shutting (pc : PumpPc) : bool := match pc with K_SHUT_C | K_SHUT_U => true | _ => false end.

Definition main_shutting (m : MainPc) : bool := match m with M_SHUT_C | M_SHUT_U => true | _ => false end.

Record flows (p : Pump) : Prop := {
  fl_prefix : p_out p `prefix_of` p_in p;
  fl_whole : p_lost p = false -> p_in p = p_out p ++ in_hand (p_pc p);
  fl_lost : p_lost p = true -> copying (p_pc p) = false;
  fl_owes : owes_wf (p_pc p) = true -> p_lost p = true }.

Record streams (s : Tun) : Prop := {
  st_flows : forall d, flows (pump d s);
  st_failed : t_writeFailed s = (p_lost (t_fromC s) && negb (owes_wf (p_pc (t_fromC s))))
                                || (p_lost (t_fromU s) && negb (owes_wf (p_pc (t_fromU s))));
  st_shut : forall d, k_shut (sock_to d s) = true -> t_closed s = true \/ passed_on (p_pc (pump d s)) = true;
  st_shutting : forall d, shutting (p_pc (pump d s)) = true -> t_closed s = true;
  st_main : main_shutting (t_main s) = true -> t_closed s = true }.

Lemma pump_flows d a s s' : flows (pump d s) -> pump_step d a s = Some s' -> flows (pump d s').
Proof.
  intros [H1 H2 H3 H4] H. open_tun s. cbn in *. pump_cases H; cbn in *;
    (match type of H3 with ?l = true -> _ => destruct l end; [specialize (H3 eq_refl)|specialize (H2 eq_refl); clear H1]); try discriminate; rewrite ?app_nil_r in *;
    split; cbn in *; intros; try done; subst; rewrite ?app_nil_r, <- ?app_assoc; try done.
  all: first [by apply prefix_app_r | by apply prefix_app, prefix_take].
Qed.

Lemma pump_frame d a s s' : pump_step d a s = Some s' ->
  pump (other d) s' = pump (other d) s /\ t_main s' = t_main s /\ t_fdOpen s' = t_fdOpen s /\
  t_waitFailed s' = t_waitFailed s /\ t_told s' = t_told s.
Proof. intros H. open_tun s. pump_cases H; done. Qed.

Lemma every_pump (P : Pump -> Prop) d s : P (pump d s) -> P (pump (other d) s) -> forall d', P (pump d' s).
Proof. by intros H1 H2 []; destruct d. Qed.

Lemma pump_streams d a s s' : streams s -> pump_step d a s = Some s' -> streams s'.
Proof.
  intros [H1 H2 H3 H4 H5] H. pose proof (pump_frame d a s s' H) as (F1 & F2 & _).
  split; [apply (every_pump _ d); [by apply (pump_flows d a s)|by rewrite F1]|..].
  - pose proof (fl_lost _ (H1 d)) as L. pose proof (fl_owes _ (H1 d)) as W. clear -H H2 L W. open_tun s. cbn in *.
    pump_cases H; cbn in *; try done; match type of L with ?l = true -> _ => destruct l end; try (by specialize (L eq_refl)); try (by specialize (W eq_refl));
      subst; cbn; rewrite ?orb_true_r, ?orb_false_r; try done.
  - pose proof (H3 FROM_CLIENT) as H3c. pose proof (H3 FROM_UPSTREAM) as H3u. pose proof (H4 d) as H4d.
    clear -H H3c H3u H4d. open_tun s. cbn in *. pump_cases H; intros []; cbn in *; auto; intuition.
  - pose proof (H4 FROM_CLIENT) as H4c. pose proof (H4 FROM_UPSTREAM) as H4u.
    clear -H H4c H4u. open_tun s. cbn in *. pump_cases H; intros []; cbn in *; auto.
  - rewrite F2. clear -H H5. open_tun s. cbn in *. pump_cases H; cbn in *; auto.
Qed.

(** ** The request waits for both *)

Definition before_end (m : MainPc) : bool := match m with M_PUMP | M_LOAD | M_WAIT => true | _ => false end.
Definition unwinding (m : MainPc) : bool := match m with M_END | M_CAS | M_SHUT_C | M_SHUT_U => true | _ => false end.
Definition returned (m : MainPc) : bool := match m with M_RET => true | _ => false end.
Definition has_told (m : MainPc) : bool := match m with M_CLOSE | M_RET => true | _ => false end.

Record awaited (s : Tun) : Prop := {
  aw_own : t_main s <> M_PUMP -> p_pc (t_fromC s) = K_DONE;
  aw_event : before_end (t_main s) = true ->
    t_waitFailed s = false /\ t_event s = if (progress s =? 6)%nat then 1%nat else O;
  aw_fd : t_fdOpen s = negb (returned (t_main s));
  aw_unwinding : unwinding (t_main s) = true -> t_waitFailed s = true;
  aw_over : before_end (t_main s) = false -> t_waitFailed s = true \/ live (p_pc (t_fromU s)) = false;
  aw_told : has_told (t_main s) = true -> t_waitFailed s = true \/ t_told s = t_writeFailed s;
  aw_stray : t_stray s <> O -> t_main s = M_RET }.

Lemma live_stays d a s s' : pump_step d a s = Some s' ->
  (live (p_pc (pump d s)) = false -> live (p_pc (pump d s')) = false) /\
  (live (p_pc (pump d s)) = false -> t_writeFailed s' = t_writeFailed s).
Proof. intros H. open_tun s. pump_cases H; done. Qed.

Lemma done_stuck d a s s' : p_pc (pump d s) = K_DONE -> pump_step d a s = Some s' -> False.
Proof. intros Hp H. unfold pump_step in H. rewrite Hp in H. by destruct a. Qed.

(** The event is raised exactly when the clearing up is over. *)
Lemma pump_event d a s s' : orderly s -> t_fdOpen s = true -> pump_step d a s = Some s' ->
  t_event s = (if (progress s =? 6)%nat then 1%nat else O) -> t_event s' = (if (progress s' =? 6)%nat then 1%nat else O).
Proof.
  intros [H1 H2 _ _ _ _] Hf H. open_tun s. unfold progress in *.
  pose proof (H2 FROM_CLIENT) as H2c. pose proof (H2 FROM_UPSTREAM) as H2u. clear H2. cbn in *.
  pump_cases H; destruct H2c as [H2c|H2c], H2u as [H2u|H2u]; try discriminate; subst; cbn -[Z.sub] in *; try done;
    unfold cleared in *; rewrite ?orb_true_r, ?orb_false_r, ?Nat.add_0_r in *; cbn -[Z.sub] in *; auto.
  all: try (rewrite ?H2c, ?H2u; destruct (live _) eqn:?; cbn -[Z.sub] in *; b2p; subst; try done; try lia).
Qed.

Lemma pump_awaited d a s s' : orderly s -> awaited s -> pump_step d a s = Some s' -> awaited s'.
Proof.
  intros Ho [H1 H2 H3 H4 H5 H6 H7] H. pose proof (pump_frame d a s s' H) as (F1 & F2 & F3 & F4 & F5).
  pose proof (live_stays d a s s' H) as [L1 L2].
  assert (Hd : t_main s <> M_PUMP -> d = FROM_UPSTREAM).
  { intros Hm. destruct d; [|done]. exfalso. by apply (done_stuck FROM_CLIENT a s s'); [apply H1|]. }
  split; rewrite ?F2, ?F3, ?F4, ?F5; try done.
  - intros Hm. specialize (Hd Hm) as ->. cbn in F1. rewrite F1. by apply H1.
  - intros Hm. destruct (H2 Hm) as [E1 E2]. split; [done|]. apply (pump_event d a s s' Ho); try done.
    rewrite H3. by destruct (t_main s).
  - intros Hm. assert (d = FROM_UPSTREAM) as -> by (apply Hd; by destruct (t_main s)). destruct (H5 Hm); auto.
  - intros Hm. assert (d = FROM_UPSTREAM) as -> by (apply Hd; by destruct (t_main s)).
    destruct (H6 Hm) as [|Ht]; [auto|]. destruct (H5 ltac:(by destruct (t_main s))) as [|Hl]; [auto|]. right. by rewrite L2.
  - intros Hm. clear -H H3 H7 Hm. destruct (t_main s) eqn:E; try done; exfalso; apply Hm; cbn in *;
      (assert (t_stray s = O) by (destruct (t_stray s); [done|by specialize (H7 ltac:(done))]));
      open_tun s; cbn in *; subst; pump_cases H; done.
Qed.

Ltac main_cases H a :=
  unfold main_step, set_end, close_cas in H; cbn in H;
  match type of H with (match ?m with M_PUMP => _ | _ => _ end = _) => destruct m end;
  destruct a; cbn in H; try discriminate H;
  repeat match type of H with
  | match ?b with _ => _ end = _ => destruct b eqn:?
  | context [match ?b with _ => _ end] => destruct b eqn:?
  end; try discriminate H; injection H as <-.

Lemma main_orderly a s s' : orderly s -> main_step a s = Some s' -> orderly s'.
Proof.
  intros [H1 H2 H3 H4 H5 H6] H. open_tun s. unfold progress in *.
  pose proof (H2 FROM_CLIENT) as H2c. pose proof (H2 FROM_UPSTREAM) as H2u. clear H2. cbn in *.
  main_cases H a; (split; cbn; [|intros []|..]); cbn; try done;
    try (unfold shut; cbn; by destruct copen); unfold shut; cbn; by destruct uopen.
Qed.

Lemma main_frame a s s' : main_step a s = Some s' ->
  (forall d, pump d s' = pump d s) /\ t_writeFailed s' = t_writeFailed s /\ (t_closed s = true -> t_closed s' = true) /\
  progress s' = progress s /\ t_active s' = t_active s /\ t_stray s' = t_stray s.
Proof.
  intros H. open_tun s. unfold progress. cbn in *.
  main_cases H a; (split_and!; [by intros []|..]); done.
Qed.

Lemma main_streams a s s' : streams s -> main_step a s = Some s' -> streams s'.
Proof.
  intros [H1 H2 H3 H4 H5] H. pose proof (main_frame a s s' H) as (F1 & F2 & F3 & _).
  split.
  - intros d. by rewrite F1.
  - rewrite F2. pose proof (F1 FROM_CLIENT) as E1. pose proof (F1 FROM_UPSTREAM) as E2. cbn in E1, E2. by rewrite E1, E2.
  - intros d Hk. rewrite F1. destruct (t_closed s') eqn:Ec; [auto|right].
    assert (Hc : t_closed s = false) by (destruct (t_closed s); [by specialize (F3 eq_refl)|done]).
    assert (Hs : sock_to d s' = sock_to d s).
    { clear -H H5 Hc. open_tun s. cbn in *. subst. main_cases H a; try (by specialize (H5 eq_refl)); by destruct d. }
    rewrite Hs in Hk. destruct (H3 d Hk) as [E|]; [congruence|done].
  - intros d. rewrite F1. intros Hd. by apply F3, (H4 d).
  - intros Hm. clear -H Hm H5. open_tun s. cbn in *. main_cases H a; cbn in *; auto; done.
Qed.

Lemma main_awaited a s s' : orderly s -> awaited s -> main_step a s = Some s' -> awaited s'.
Proof.
  intros Ho [H1 H2 H3 H4 H5 H6 H7] H. pose proof (or_active s Ho) as Ha. clear Ho.
  pose proof (main_frame a s s' H) as (F1 & F2 & _ & F4 & F5 & F6).
  pose proof (F1 FROM_CLIENT) as E1. pose proof (F1 FROM_UPSTREAM) as E2. cbn in E1, E2.
  split; rewrite ?E1, ?E2, ?F2, ?F4, ?F6; clear E1 E2 F1 F2 F4 F5 F6; open_tun s; unfold progress in *; cbn in *; main_cases H a; cbn in *;
    try done; auto; intuition try done.
  - right. destruct (live pc1), (live pc2); cbn in *; b2p; done || lia.
  - right. unfold cleared in *. destruct (live pc2); [by rewrite orb_true_r in *|done].
Qed.

(** ** Every state *)

Record good (s : Tun) : Prop := { gd_orderly : orderly s; gd_streams : streams s; gd_awaited : awaited s }.

Lemma good_start posted : good (tun_start posted).
Proof.
  split; split; try (by destruct posted); by intros []; destruct posted; auto.
Qed.

Lemma good_step l s s' : good s -> tun_step l s = Some s' -> good s'.
Proof.
  intros [H1 H2 H3] H. destruct l as [d a|a]; cbn in H.
  - split; [by apply (pump_orderly d a s)|by apply (pump_streams d a s)|by apply (pump_awaited d a s)].
  - split; [by apply (main_orderly a s)|by apply (main_streams a s)|by apply (main_awaited a s)].
Qed.

Lemma good_reachable posted s : reachable posted s -> good s.
Proof. induction 1 as [|s l s' _ IH H]; [apply good_start|by apply (good_step l s)]. Qed.

(** ** What the tunnel promises *)

(** How far a pump and the request have to go, but for what is still received. *)
Definition pump_left (pc : PumpPc) : nat :=
  match pc with
  | K_SEND _ => 16 | K_TEST => 15 | K_RECV => 14 | K_IDLE _ _ | K_WF _ => 13 | K_END _ _ => 12 | K_HALF | K_CAS => 11
  | K_SHUT_C => 10 | K_SHUT_U => 9 | K_SUB => 8 | K_REL => 7 | K_DROP => 6 | K_CLOSE_C => 5 | K_CLOSE_U => 4 | K_WAKE => 3
  | K_DONE => 0
  end.

Definition main_left (m : MainPc) : nat :=
  match m with
  | M_PUMP => 10 | M_LOAD => 9 | M_WAIT => 8 | M_END => 7 | M_CAS => 6 | M_SHUT_C => 5 | M_SHUT_U => 4 | M_WF => 3
  | M_CLOSE => 2 | M_RET => 0
  end.

Definition steps_left (s : Tun) : nat :=
  pump_left (p_pc (t_fromC s)) + pump_left (p_pc (t_fromU s)) + main_left (t_main s).

(** What the world adds: bytes that come in, calls to repeat. *)
Definition is_input (l : Label) : bool :=
  match l with PUMP _ (A_DATA _) | PUMP _ (A_ERR E_AGAIN _) | PUMP _ A_INTR | MAIN A_INTR => true | _ => false end.

Definition inputs (ls : list Label) : nat := length (List.filter is_input ls).

Lemma step_left l s s' : tun_step l s = Some s' -> (S (steps_left s') <= steps_left s + if is_input l then 3 else 0)%nat.
Proof.
  destruct l as [d a|a]; cbn; intros H; open_tun s; unfold steps_left; cbn.
  - pump_cases H; cbn; lia.
  - main_cases H a; cbn; lia.
Qed.

Lemma run_left ls s s' : tun_run ls s = Some s' -> (length ls + steps_left s' <= steps_left s + 3 * inputs ls)%nat.
Proof.
  revert s. induction ls as [|l ls IH]; cbn; intros s H; [injection H as <-; lia|].
  destruct (tun_step l s) as [s1|] eqn:E; [|done]. apply IH in H. apply step_left in E. unfold inputs in *. cbn.
  destruct (is_input l); cbn; lia.
Qed.

Definition over (s : Tun) : Prop := t_main s = M_RET /\ forall d, p_pc (pump d s) = K_DONE.

(** A pump that has not ended has a step to make whatever the other threads do. *)
Lemma pump_moves d s : p_pc (pump d s) <> K_DONE -> exists a s', is_input (PUMP d a) = false /\ pump_step d a s = Some s'.
Proof.
  intros Hp. unfold pump_step. destruct (p_pc (pump d s)) eqn:E; try done.
  2: { by exists A_EOF; eexists. }
  2: { by exists A_SENT; eexists. }
  all: exists A_GO; eexists; split; [done|]; reflexivity.
Qed.

Lemma never_stuck posted s : reachable posted s -> over s \/ exists l s', is_input l = false /\ tun_step l s = Some s'.
Proof.
  intros Hr. pose proof (good_reachable posted s Hr) as [_ _ [H1 H2 _ _ _ _ _]].
  assert (P : forall d, p_pc (pump d s) = K_DONE \/ exists l s', is_input l = false /\ tun_step l s = Some s').
  { intros d. destruct (p_pc (pump d s)) eqn:E; [..|by left];
      (right; destruct (pump_moves d s) as (a & s' & Ha & Hs); [by rewrite E|]; by exists (PUMP d a), s'). }
  destruct (P FROM_CLIENT) as [Ec|]; [|auto]. destruct (P FROM_UPSTREAM) as [Eu|]; [|auto]. cbn in Ec, Eu.
  destruct (t_main s) eqn:Em; [..|left; split; [done|by intros []]].
  all: right; exists (MAIN A_GO); cbn; unfold main_step; rewrite Em; try (eexists; split; [done|]; reflexivity).
  - rewrite Ec. by eexists.
  - destruct (H2 eq_refl) as [_ He]. unfold progress, cleared in He. rewrite Ec, Eu in He. cbn in He. rewrite He. by eexists.
Qed.

Lemma run_reachable posted ls s : tun_run ls (tun_start posted) = Some s -> reachable posted s.
Proof.
  assert (G : forall ls s0, reachable posted s0 -> tun_run ls s0 = Some s -> reachable posted s).
  { clear. induction ls as [|l ls' IH]; cbn; intros s0 H0 H; [by injection H as <-|].
    destruct (tun_step l s0) as [s1|] eqn:E; [|done]. by apply (IH s1); [eapply R_STEP|]. }
  intros H. by eapply G; [apply R_START|].
Qed.

(** C26: the endpoint a tunnel holds is given up exactly once, by the last pump to end: as long
    as a pump is copying, its hold and both its sockets are there, and when both have ended
    the hold is given up and the sockets are closed, whatever the two threads and the
    request interleave, and whatever the sockets do. *)
Theorem tunnel_clears_up (posted : bool) (s : Tun) : reachable posted s ->
  (t_holds s <= 1)%nat /\
  (forall d, live (p_pc (pump d s)) = true -> t_holds s = O /\ k_open (t_client s) = true /\ k_open (t_up s) = true) /\
  ((forall d, p_pc (pump d s) = K_DONE) -> t_holds s = 1%nat /\ k_open (t_client s) = false /\ k_open (t_up s) = false).
Proof.
  intros Hr. destruct (good_reachable posted s Hr) as [[_ _ _ H4 H5 H6] _ _]. unfold progress, cleared in *.
  split_and!.
  - rewrite H4. by destruct (3 <=? _)%nat; lia.
  - intros d Hd. rewrite H4, H5, H6. destruct d; cbn in Hd; rewrite Hd; [done|]. by rewrite orb_true_r.
  - intros Hd. pose proof (Hd FROM_CLIENT) as E1. pose proof (Hd FROM_UPSTREAM) as E2. cbn in E1, E2.
    by rewrite H4, H5, H6, E1, E2.
Qed.

(** C27: the bytes of a tunnel. Each way the socket written to has taken a prefix of what was
    received, in order; a pump that has ended without a failed send has passed on all of it;
    the end of a stream is passed on only after all its bytes, unless a send failed or the
    tunnel is being torn down. When the request returns from a wait that did not fail, both
    pumps have stopped copying, and a failed write is reported exactly when some bytes were
    lost. *)
Theorem tunnel_keeps_bytes (posted : bool) (s : Tun) : reachable posted s ->
  (forall d, p_out (pump d s) `prefix_of` p_in (pump d s) /\
     (copying (p_pc (pump d s)) = false -> p_lost (pump d s) = false -> p_in (pump d s) = p_out (pump d s)) /\
     (k_shut (sock_to d s) = true -> t_closed s = true \/ p_lost (pump d s) = true \/ p_in (pump d s) = p_out (pump d s))) /\
  (t_main s = M_RET -> t_waitFailed s = false ->
     (forall d, live (p_pc (pump d s)) = false) /\ t_told s = p_lost (t_fromC s) || p_lost (t_fromU s)).
Proof.
  intros Hr. destruct (good_reachable posted s Hr) as [_ [H1 H2 H3 _ _] [A1 _ _ _ A5 A6 _]].
  assert (W : forall d, copying (p_pc (pump d s)) = false -> p_lost (pump d s) = false -> p_in (pump d s) = p_out (pump d s)).
  { intros d Hc Hl. destruct (H1 d) as [_ F _ _]. rewrite (F Hl). destruct (p_pc (pump d s)); try done; cbn; by rewrite app_nil_r. }
  split; [intros d; split_and!; [apply H1|by apply W|]|].
  - intros Hk. destruct (H3 d Hk) as [|Hp]; [auto|right]. destruct (p_lost (pump d s)) eqn:El; [auto|right].
    apply W; [|done]. by destruct (p_pc (pump d s)).
  - intros Hm Hw. rewrite Hm in *. specialize (A1 ltac:(done)). destruct (A5 eq_refl) as [|Hu]; [congruence|].
    destruct (A6 eq_refl) as [|Ht]; [congruence|]. split; [intros []; cbn; [by rewrite A1|done]|].
    rewrite Ht, H2, A1. cbn. destruct (p_pc (t_fromU s)); try done; by rewrite !andb_true_r.
Qed.

(** C28: a tunnel ends. A run takes at most forty steps and three more for every time bytes
    come in or a call has to be repeated; and it never comes to a stop before the request
    has returned and both pumps have ended: there is always a step that waits for no bytes,
    so no wake-up is lost. *)
Theorem tunnel_ends (posted : bool) (ls : list Label) (s : Tun) : tun_run ls (tun_start posted) = Some s ->
  (length ls <= 40 + 3 * inputs ls)%nat /\ (over s \/ exists l s', is_input l = false /\ tun_step l s = Some s').
Proof.
  intros H. split.
  - apply run_left in H. assert (steps_left (tun_start posted) <= 40)%nat by (destruct posted; cbn; lia). lia.
  - apply (never_stuck posted). by apply (run_reachable posted ls).
Qed.

(** ** Examples and witnesses *)

(** Both peers close at once and the upstream's pump is the last. *)
Definition both_close : list Label :=
  map (PUMP FROM_CLIENT) [A_GO; A_EOF; A_GO; A_GO; A_GO] ++ map (PUMP FROM_UPSTREAM) [A_GO; A_EOF; A_GO; A_GO; A_GO].

Definition clear_up : list Label := map (PUMP FROM_UPSTREAM) [A_GO; A_GO; A_GO; A_GO; A_GO].

(** The request finds both pumps counted out, does not wait and closes the descriptor while
    the last pump has yet to write to it: by then the number may be another connection's. *)
Example stale_wake :
  (fun s => (t_stray s, t_fdOpen s, t_waitFailed s)) <$>
    tun_run (both_close ++ map MAIN [A_GO; A_GO; A_GO; A_GO] ++ clear_up) (tun_start true) = Some (1%nat, false, false).
Proof. reflexivity. Qed.

(** The same on one thread, where the clearing up is not interrupted. *)
Example clean_end :
  (fun s => (t_stray s, t_holds s, t_told s)) <$>
    tun_run (both_close ++ clear_up ++ map MAIN [A_GO; A_GO; A_GO; A_GO]) (tun_start true) = Some (O, 1%nat, false).
Proof. reflexivity. Qed.

(** A frame from the client of which the upstream takes two bytes. *)
Definition cut_frame : list Label :=
  map (PUMP FROM_CLIENT) [A_GO; A_DATA (chars "frame"); A_CUT 2 E_CONNRESET; A_GO; A_GO; A_GO; A_GO]
  ++ map (PUMP FROM_UPSTREAM) [A_GO; A_EOF; A_GO; A_GO; A_GO] ++ clear_up ++ map MAIN [A_GO; A_GO; A_GO; A_GO].

Definition cut_end : Tun :=
  Eval vm_compute in match tun_run cut_frame (tun_start true) with Some s => s | None => tun_start true end.

Lemma tunnel_ends_witness : tun_run cut_frame (tun_start true) = Some cut_end /\
  ((length cut_frame <= 40 + 3 * inputs cut_frame)%nat /\ (over cut_end \/ exists l s', is_input l = false /\ tun_step l cut_end = Some s')).
Proof. split; [vm_compute; reflexivity|]. apply (tunnel_ends true). vm_compute. reflexivity. Defined.

Lemma tunnel_clears_up_witness : reachable true cut_end /\
  ((t_holds cut_end <= 1)%nat /\
   (forall d, live (p_pc (pump d cut_end)) = true ->
      t_holds cut_end = O /\ k_open (t_client cut_end) = true /\ k_open (t_up cut_end) = true) /\
   ((forall d, p_pc (pump d cut_end) = K_DONE) ->
      t_holds cut_end = 1%nat /\ k_open (t_client cut_end) = false /\ k_open (t_up cut_end) = false)).
Proof.
  assert (H : reachable true cut_end) by (apply (run_reachable true cut_frame); vm_compute; reflexivity).
  split; [exact H|]. exact (tunnel_clears_up true cut_end H).
Defined.

Lemma tunnel_keeps_bytes_witness : reachable true cut_end /\ t_told cut_end = true /\
  p_out (t_fromC cut_end) = chars "fr" /\ p_out (pump FROM_CLIENT cut_end) `prefix_of` p_in (pump FROM_CLIENT cut_end) /\
  t_told cut_end = p_lost (t_fromC cut_end) || p_lost (t_fromU cut_end).
Proof.
  assert (H : reachable true cut_end) by (apply (run_reachable true cut_frame); vm_compute; reflexivity).
  destruct (tunnel_keeps_bytes true cut_end H) as [H1 H2]. split; [exact H|]. split; [reflexivity|]. split; [reflexivity|].
  split; [apply (H1 FROM_CLIENT)|]. apply H2; reflexivity.
Defined.
