(* ===== verification/Chain.v ===== *)
(** * The chain of the gateway (src/gateway/include/middlewares/proxy.cpp, conf.cpp)

    The middleware that forwards, built on [Forward], and the chain in the order the
    configuration puts it together. Every request that enters the chain leaves it answered,
    and the client is sent one head at most. *)

From S2P Require Import Prelude Records Str HttpMsg Body HttpParse Ip InetText Rule Snap Router RouteCache Breaker UpsGroup Heads Forward RateLimit Ctx Mw Waf Auth Limits Ws.

(** What forwarding finds outside: its own clock and sockets, the parser, the connection the
    search gives and what it and another one send. *)
Record Outside := mkOutside {
  o_env : nat -> Turn; o_parse : list ascii -> Parsed; o_acq : AcqConn; o_script : list Input; o_next : list Input;
  o_begin : Z }.

Section chain.
Context (env : nat -> Turn) (now : nat -> Z) {IN : Inet} (peer : option Ip) (trusted : list Ip).
#[local] Abbreviation Ctx := (@ReqCtx GroupCfg).
#[local] Abbreviation Middleware := (@Middleware GroupCfg).

(** What [Upstream::forward] works out of the context before it looks for a connection. *)
Definition proxy_req (connectMs recvMs : Z) (gr : GroupCfg) (out : Outside) (req : GwRequest) (c : Ctx) : Req :=
  let cl := c_conn c in
  let '(clientOk, addr) :=
    match c_addr (loadClientAddr peer trusted c).2 with Some a => (ca_ok a, a) | None => (false, mkAddr ip_none ip_none false) end in
  let clientIp := if clientOk then ip_toString (ca_client addr) else ""%string in
  let trustedPeer := clientOk && isTrustedProxy (ca_peer addr) trusted in
  let rule := rc_rewrite <$> rule_of c in
  let begin_ := upMs (o_begin out) in
  mkReq
    (fun ep => let '(host, port) := gr_endpoint gr ep in
       build_req_head req rule clientIp trustedPeer host port (l_framing cl) (l_clen cl))
    (retry_of (l_framing cl) (rq_method req)) (send_continue_of (rq_eff_headers req) (l_framing cl))
    (l_framing cl) (l_reader cl) (rq_method req)
    (due_of (or_default (gr_totalMs gr) recvMs) begin_) (or_default (gr_connectMs gr) connectMs)
    (or_default (gr_readMs gr) recvMs) begin_ (gr_cb gr)
    (c_extra c) (version_of cl) (wants_close cl).

(** What an event of forwarding does to the context and to the client's connection. *)
Definition apply_event (c : Ctx) (e : Ev) : Ctx :=
  let cl := c_conn c in
  let logged ok := (cl <| l_out := l_out cl ++ [L_FORWARDED e] |>) <| l_writeFailed := l_writeFailed cl || negb ok |> in
  match e with
  | V_READ b => c <| c_conn := cl <| l_reader := Some b |> |>
  | V_CONTINUE ok => c <| c_conn := cl <| l_out := l_out cl ++ [L_FORWARDED e] |> |>
  | V_CLIENT_HEAD rsp ok =>
      let cl := (logged ok) <| l_lastStatus := rs_status rsp |> in
      let cl := if ok then cl <| l_responded := true |> else cl in
      (c <| c_response := Some rsp |>) <| c_conn := if negb ok || wants_close cl then close_request cl else cl |>
  | V_COMMIT status => commitResp STREAM status (nowMs now c) (c <| c_handled := true |>)
  | V_CLIENT_BLOCK _ ok => c <| c_conn := logged ok |>
  | V_WRITE_FAIL => writeFail now c
  | V_CLIENT_CLOSE => on_request (fun r => r <| rq_close := true |>) c
  | _ => c
  end.

Definition reply_result (r : ForwardResult) (c : Ctx) : Ctx :=
  match r with
  | R_OK => c
  | R_CONNECT_FAIL | R_SEND_FAIL | R_BAD_RESPONSE => reply_status env now 502 c
  | R_UPSTREAM_TIMEOUT => reply_status env now 504 c
  | R_UPSTREAM_BUSY => reply_status env now 503 c
  | R_BAD_REQUEST_BODY => reply_status env now 400 c
  | R_REQUEST_TOO_LARGE => reply_status env now 413 c
  | R_EXPECT_FAIL => reply_status env now 417 (on_request (fun r => r <| rq_close := true |>) c)
  end.

(** The end of the chain. Forwarding that does not end ([Forward.forward_ends] says when it
    does) leaves the context as it is. *)
Definition MakeProxyMiddleware (connectMs recvMs : Z) (out : Outside) : Middleware := fun _ c =>
  if negb (rt_matched (c_route c)) then reply_status env now 404 c
  else match rt_upstream (c_route c), request c with
  | Some gr, Some req =>
      let g := proxy_req connectMs recvMs gr out req c in
      match forward (o_env out) (o_parse out) g (expect_ok (rq_eff_headers req)) (Some (o_acq out)) (o_script out) (o_next out) with
      | Some (r, evs) => reply_result r (fold_left apply_event evs c)
      | None => c
      end
  | _, _ => reply_status env now 503 c
  end.

(** ** What the events do to the answer *)

Definition neutral (e : Ev) : bool :=
  match e with V_CLIENT_HEAD _ _ | V_COMMIT _ | V_CLIENT_BLOCK _ _ | V_WRITE_FAIL => false | _ => true end.

Definition after_head (e : Ev) : bool := match e with V_CLIENT_HEAD _ _ | V_COMMIT _ => false | _ => true end.

Lemma attempts_log (cl : Client) x : attempts (cl <| l_out := l_out cl ++ [x] |>) =
  (attempts cl + if is_attempt x then 1 else 0)%nat.
Proof. unfold attempts. cbn. rewrite List.filter_app, length_app. cbn. by destruct (is_attempt x). Qed.

Lemma neutral_same e (c : Ctx) : neutral e = true -> same_answer c (apply_event c e).
Proof.
  destruct e; try done. intros _. split; try done. cbn. pose proof (attempts_log (c_conn c) (L_FORWARDED (V_CONTINUE ok))) as A.
  cbn in A. lia.
Qed.

Lemma block_answered b ok (c : Ctx) : answered_ctx c -> answered_ctx (apply_event c (V_CLIENT_BLOCK b ok)).
Proof.
  intros [H Ho]. split; [|done]. pose proof (attempts_log (c_conn c) (L_FORWARDED (V_CLIENT_BLOCK b ok))) as A.
  unfold settled, attempts in *. cbn in *. destruct (c_state c); try done; destruct H as (H1 & H2 & H3);
    (split; [lia|]); (split; [|done]); [done..|by rewrite H2].
Qed.

Lemma few_attempts (c : Ctx) : settled c -> (attempts (c_conn c) <= 1)%nat.
Proof. unfold settled. destruct (c_state c); lia. Qed.

Lemma late_answered e (c : Ctx) : after_head e = true -> answered_ctx c -> answered_ctx (apply_event c e).
Proof.
  intros He H. destruct (neutral e) eqn:En.
  - destruct H as [H Ho]. pose proof (neutral_same e c En) as Hs. split; [by apply (settled_same c)|]. by rewrite (sa_state _ _ Hs).
  - destruct e; try done; [by apply block_answered|]. apply writeFail_settled, few_attempts, H.
Qed.

Lemma late_fold evs (c : Ctx) : Forall (fun e => after_head e = true) evs -> answered_ctx c -> answered_ctx (fold_left apply_event evs c).
Proof. intros H. revert c. induction H as [|e evs He _ IH]; intros c Hc; [done|]. by apply IH, late_answered. Qed.

Lemma neutral_fold evs (c : Ctx) : Forall (fun e => neutral e = true) evs -> same_answer c (fold_left apply_event evs c).
Proof.
  intros H. revert c. induction H as [|e evs He _ IH]; intros c; [done|].
  eapply same_answer_trans; [by apply neutral_same|apply IH].
Qed.

Lemma early_neutral evs : Forall (fun e => early e = true) evs -> List.filter is_fail_ev evs = [] ->
  Forall (fun e => neutral e = true) evs.
Proof. induction 1 as [|e evs He _ IH]; [done|]. cbn. destruct e; try done; intros; constructor; auto. Qed.

Lemma early_late evs : Forall (fun e => early e = true) evs -> Forall (fun e => after_head e = true) evs.
Proof. induction 1 as [|e evs He _ IH]; constructor; [by destruct e|done]. Qed.

(** Among early events one that failed to write ends the answer. *)
Lemma early_fold evs (c : Ctx) : Forall (fun e => early e = true) evs -> List.filter is_fail_ev evs <> [] -> settled c ->
  answered_ctx (fold_left apply_event evs c).
Proof.
  intros H. revert c. induction H as [|e evs He Hevs IH]; intros c Hf Hc; [done|]. cbn [fold_left].
  destruct (is_fail_ev e) eqn:Ee.
  - destruct e; try done. apply late_fold; [by apply early_late|]. by apply writeFail_settled, few_attempts.
  - cbn [List.filter] in Hf. rewrite Ee in Hf. apply IH; [done|]. apply (settled_same c); [|done]. apply neutral_same. by destruct e.
Qed.

(** The head of an answer and its settling. *)
Lemma head_commit rsp st (c : Ctx) : settled c -> c_state c = OPEN ->
  answered_ctx (fold_left apply_event [V_CLIENT_HEAD rsp true; V_COMMIT st] c).
Proof.
  intros H Ho. unfold settled in H. rewrite Ho in H. destruct H as (H1 & H2 & H3 & H4). cbn.
  assert (A : attempts ((c_conn c) <| l_out := l_out (c_conn c) ++ [L_FORWARDED (V_CLIENT_HEAD rsp true)] |>) = 1%nat).
  { rewrite attempts_log. cbn. lia. }
  unfold answered_ctx, settled, commitResp. cbn. rewrite Ho. cbn. split; [|done].
  match goal with |- context [wants_close ?x] => destruct (wants_close x) end; (split; [exact A|done]).
Qed.

Lemma head_fails rsp (c : Ctx) : settled c -> c_state c = OPEN ->
  answered_ctx (fold_left apply_event [V_CLIENT_HEAD rsp false; V_WRITE_FAIL] c).
Proof.
  intros H Ho. unfold settled in H. rewrite Ho in H. destruct H as (H1 & _). cbn [fold_left]. apply writeFail_settled.
  pose proof (attempts_log (c_conn c) (L_FORWARDED (V_CLIENT_HEAD rsp false))) as A. unfold attempts in *. cbn in *. lia.
Qed.

Lemma marks_neutral counted ret : Forall (fun e => neutral e = true) (marks counted ret).
Proof. destruct counted; by repeat constructor. Qed.

Lemma closing_late counted ret keep : Forall (fun e => after_head e = true) (Forward.closing counted ret keep).
Proof. destruct counted; by repeat constructor. Qed.

Lemma sent_after_head f blocks : Forall (fun e => after_head e = true) (sent f blocks).
Proof. induction blocks; by constructor. Qed.

Lemma tail_answers g p buf coming tail (c : Ctx) : answered g p buf coming tail \/ cut_off g p tail -> settled c -> c_state c = OPEN ->
  answered_ctx (fold_left apply_event tail c).
Proof.
  intros Ht Hc Ho.
  assert (M : forall counted ret rest, (forall c', settled c' -> c_state c' = OPEN -> answered_ctx (fold_left apply_event rest c')) ->
    answered_ctx (fold_left apply_event (marks counted ret ++ rest) c)).
  { intros counted ret rest Hr. rewrite fold_left_app. pose proof (neutral_fold _ c (marks_neutral counted ret)) as Hs.
    apply Hr; [by apply (settled_same c)|]. by rewrite (sa_state _ _ Hs). }
  destruct Ht as [(counted & ret & blocks & b & ok & _ & ->)|(counted & ret & sh & -> & Hsh)]; apply M; clear dependent c;
    intros c Hc Ho.
  - rewrite fold_left_app. apply late_fold; [|by apply head_commit]. apply Forall_app. split; [apply sent_after_head|].
    apply Forall_app. split; [|apply closing_late]. unfold body_end, sent_end. repeat case_match; by repeat constructor.
  - destruct Hsh as [->|(d & b & ->)].
    + change (?x ++ V_WRITE_FAIL :: Forward.closing counted ret false) with ((x ++ [V_WRITE_FAIL]) ++ Forward.closing counted ret false).
      rewrite fold_left_app. apply late_fold; [apply closing_late|]. by apply head_fails.
    + rewrite <- !app_assoc, fold_left_app. apply late_fold; [|by apply head_commit].
      apply Forall_app. split; [apply sent_after_head|]. constructor; [done|]. constructor; [done|]. apply closing_late.
Qed.

(** A search for a connection that failed shows the client nothing. *)
Lemma no_connection_neutral env' g why s : exists r evs s', no_connection env' g why s = Leave r s' /\ r <> R_OK /\
  f_evs s' = f_evs s ++ evs /\ Forall (fun e => neutral e = true) evs.
Proof.
  unfold no_connection, bind_, emit, leave. destruct why; cbn; do 3 eexists; (split; [done|]); (split; [done|]); cbn;
    rewrite <- ?app_assoc; (split; [done|]); by repeat constructor.
Qed.

(** What forwarding does to an answer that is open. *)
Lemma forward_story env' parse g eok acq script nxt r evs (c : Ctx) :
  forward env' parse g eok (Some acq) script nxt = Some (r, evs) -> settled c -> c_state c = OPEN ->
  settled (fold_left apply_event evs c) /\ (r = R_OK -> c_state (fold_left apply_event evs c) <> OPEN).
Proof.
  intros E Hc Ho.
  assert (N : forall evs', Forall (fun e => neutral e = true) evs' ->
    settled (fold_left apply_event evs' c) /\ c_state (fold_left apply_event evs' c) = OPEN).
  { intros evs' Hn. pose proof (neutral_fold _ c Hn) as Hs. split; [by apply (settled_same c)|]. by rewrite (sa_state _ _ Hs). }
  destruct eok; [|injection E as <- <-; by split].
  destruct (a_endpoint acq) as [ep|] eqn:Ea.
  - pose proof (forward_outcome env' parse g acq ep script nxt Ea) as H. rewrite E in H.
    destruct H as [r evs ret reused [He _ _ _] Hr|evs reused p buf rest tail [He _ _ _] Hf _ Ht]; rewrite fold_left_app.
    + destruct (List.filter is_fail_ev evs) eqn:Ef.
      * destruct (N evs (early_neutral _ He Ef)) as [N1 _]. split; [exact N1|]. intros Hok. by apply Hr in Hok.
      * apply early_fold with (c := c) in He as [H1 H2]; [|by rewrite Ef|done]. by split.
    + destruct (N evs (early_neutral _ He Hf)) as [N1 N2]. by destruct (tail_answers g p buf rest tail _ Ht N1 N2).
  - unfold forward in E. rewrite Ea in E. cbn [negb] in E.
    destruct (no_connection_neutral env' g (a_why acq) (fw_init acq script nxt)) as (r' & evs' & s' & E' & Hr & He & Hn).
    rewrite E' in E. injection E as <- <-. rewrite He. destruct (N evs' Hn). by split.
Qed.

Lemma reply_result_settled r (c : Ctx) : settled c -> (r = R_OK -> c_state c <> OPEN) -> answered_ctx (reply_result r c).
Proof.
  intros Hc Hr. destruct r; cbn [reply_result]; try (by apply reply_settled). by split; [|apply Hr].
Qed.

Lemma proxy_lawful connectMs recvMs out : lawful (MakeProxyMiddleware connectMs recvMs out).
Proof.
  intros next Hn c Hc Hh. unfold MakeProxyMiddleware. destruct (negb _); [by apply reply_settled|].
  destruct (rt_upstream _) as [gr|]; [|by apply reply_settled]. destruct (request c) as [req|]; [|by apply reply_settled].
  cbv zeta. destruct (forward _ _ _ _ _ _ _) as [[r evs]|] eqn:E; [|done].
  assert (Ho : c_state c = OPEN) by (unfold settled in Hc; destruct (c_state c); try done; destruct Hc as (_ & _ & Hc); congruence).
  destruct (forward_story _ _ _ _ _ _ _ _ _ c E Hc Ho). by apply reply_result_settled.
Qed.
End chain.

(** ** The chain *)

(** What the configuration decides, and what each middleware finds outside. [ch_guard]: the
    switch and the decisions of the ledger, if there is one; [ch_gate]: the switch for
    maintenance; [ch_jwt]: the check of tokens, if it is on. *)
Record ChainCfg := mkChain {
  ch_mix : Z; ch_cors : CorsOptions;
  ch_guard : option (bool * (Ip -> Verdict)); ch_ipFilter : IPFilterConfig; ch_gate : bool;
  ch_waf : WafCfg; ch_reporter : bool;
  ch_match : GwRequest -> @RouteResult RuleCfg GroupCfg;
  ch_jwt : option JwtAuthConfig; ch_auth : RouteAuthConfig;
  ch_rateBan : RateBanCfg; ch_ws : WsOutside; ch_out : Outside }.

Section gateway.
Context (env : nat -> Turn) (now : nat -> Z) {IN : Inet} (peer : option Ip) (peerAddr : string) (trusted : list Ip).
Context {JL : JwtLib} (SHA256 : string -> list Z) (sha1sum : string -> list ascii).
#[local] Abbreviation Ctx := (@ReqCtx GroupCfg).
#[local] Abbreviation Middleware := (@Middleware GroupCfg).

(** In front of the middleware that always answers. *)
Definition outer_chain (cfg : ChainCfg) : list Middleware :=
  [MakeRequestIdMiddleware "X-Request-Id" (ch_mix cfg); MakeClientAddrMiddleware peer trusted;
   MakeStructuredAccessLogMiddleware; MakeSecurityHeadersMiddleware security_defaults;
   MakeCorsPrepareMiddleware (ch_cors cfg)].

Definition inner_chain (cfg : ChainCfg) : list Middleware :=
  [match ch_guard cfg with
   | Some (on, eval) => MakeBanMiddleware env now peer trusted on eval
   | None => MakeIPFilterMiddleware env now (ch_ipFilter cfg) peerAddr
   end;
   MakeHealthCheckMiddleware env now "/healthz"; MakeCorsPreflightMiddleware env now;
   MakeMaintenanceMiddleware env now (mkMaint 30 ("Service Unavailable" ++ String LF "")) (ch_gate cfg)]
  ++ (if wc_on (ch_waf cfg) then [MakeWaf env now peer trusted (ch_waf cfg) (ch_reporter cfg)] else [])
  ++ [MakeRouterMiddleware env now (ch_match cfg); MakeRouteAuthMiddleware SHA256 (authenticate <$> ch_jwt cfg) (ch_auth cfg) env now;
      MakePerRouteRateLimitMiddleware env now peer trusted (ch_reporter cfg) (ch_rateBan cfg);
      MakeWebSocketTunnelStub env now (o_parse (ch_out cfg)) sha1sum 3000 60000 (ch_ws cfg);
      MakeProxyMiddleware env now peer trusted 3000 30000 (ch_out cfg)].

Definition gateway_chain (cfg : ChainCfg) : list Middleware :=
  outer_chain cfg ++ MakeFinishMiddleware env now :: inner_chain cfg.

Lemma outer_transparent cfg : Forall transparent (outer_chain cfg).
Proof.
  unfold outer_chain. repeat first [apply Forall_nil_2|apply Forall_cons_2];
    [apply request_id_transparent|apply client_addr_transparent|apply access_log_transparent
    |apply security_transparent|apply cors_prepare_transparent].
Qed.

(** ** The checks of tokens and keys keep the answer *)

Lemma store_claims_same t (c : Ctx) : same_answer c (store_claims t c).
Proof. unfold store_claims. same_answer. Qed.

Lemma authenticate_same jcfg (c : Ctx) : same_answer c (authenticate jcfg c).2.
Proof.
  unfold authenticate. do 3 (destruct (_ && _); [done|]). destruct (request c); [|done]. destruct (bearer _); [|done].
  destruct (check_token _ _); [done|]. apply store_claims_same.
Qed.

Lemma mark_auth_same scheme e (c : Ctx) : same_answer c (mark_auth scheme e c).
Proof. unfold mark_auth. same_answer. Qed.

Lemma strip_same cfg (c : Ctx) : same_answer c (strip_user_hdrs cfg c).
Proof. unfold strip_user_hdrs. same_answer. Qed.

Lemma fwd_user_same cfg (c : Ctx) : same_answer c (fwd_user cfg c).
Proof. unfold fwd_user. same_answer. Qed.

Lemma mark_after scheme e (c c' : Ctx) : same_answer c c' -> same_answer c (mark_auth scheme e c').
Proof. intros H. eapply same_answer_trans; [exact H|apply mark_auth_same]. Qed.

Lemma jwt_policy_same jwt cfg (c : Ctx) : (forall f, jwt = Some f -> same_answer c (f c).2) ->
  same_answer c (jwt_policy jwt cfg c).2.
Proof.
  intros Hj. unfold jwt_policy. set (q := match jwt with Some auth => auth c | None => (E_BadSig, c) end).
  assert (Hq : same_answer c q.2) by (unfold q; destruct jwt; [by apply Hj|done]). clearbody q. destruct q as [e c1]. cbn in Hq. cbv zeta.
  destruct (negb _); [by apply mark_after|]. destruct (negb _); [by apply mark_after|]. cbn [snd].
  eapply same_answer_trans; [|apply fwd_user_same]. destruct (au_stripBearer cfg); [apply on_request_after|]; by apply mark_after.
Qed.

Lemma api_key_policy_same cfg (c : Ctx) : same_answer c (api_key_policy SHA256 cfg c).2.
Proof.
  unfold api_key_policy. destruct (_ || _); [|apply mark_auth_same].
  set (c1 := match apikey_find _ _ _ with Some _ => _ | None => c end).
  assert (H : same_answer c c1) by (unfold c1; same_answer). clearbody c1. cbv zeta. destruct (negb _); [by apply mark_after|].
  cbn [snd]. apply mark_after. by destruct (au_stripApiKey cfg); [apply on_request_after|].
Qed.

Lemma route_auth_same jwt cfg (c : Ctx) : (forall f c, jwt = Some f -> same_answer c (f c).2) ->
  same_answer c (route_auth SHA256 jwt cfg c).2.
Proof.
  intros Hj. unfold route_auth. cbv zeta. eapply same_answer_trans; [apply (strip_same cfg)|]. set (c1 := strip_user_hdrs cfg c).
  repeat match goal with |- context [if ?b then _ else _] => destruct b end; cbn [snd];
    first [apply mark_auth_same|apply jwt_policy_same; intros f; apply Hj|apply api_key_policy_same].
Qed.

Lemma route_auth_lawful jwt cfg : (forall f c, jwt = Some f -> same_answer c (f c).2) ->
  lawful (G := GroupCfg) (MakeRouteAuthMiddleware SHA256 jwt cfg env now).
Proof.
  intros Hj next Hn c Hc _. unfold MakeRouteAuthMiddleware. pose proof (settled_same _ _ (route_auth_same jwt cfg c Hj) Hc) as H.
  destruct (route_auth _ _ _ c) as [[st|] c']; [by apply refuse_settled|by apply Hn].
Qed.

Lemma inner_lawful cfg : Forall lawful (inner_chain cfg).
Proof.
  unfold inner_chain. apply Forall_app. split; [|apply Forall_app; split].
  - repeat first [apply Forall_nil_2|apply Forall_cons_2];
      [|apply health_lawful|apply cors_preflight_lawful|apply maintenance_lawful].
    destruct (ch_guard cfg) as [[on eval]|]; [apply ban_lawful|apply ip_filter_lawful].
  - destruct (wc_on _); repeat first [apply Forall_nil_2|apply Forall_cons_2]. apply waf_lawful.
  - repeat first [apply Forall_nil_2|apply Forall_cons_2];
      [apply router_lawful|apply route_auth_lawful|apply route_rate_lawful|apply ws_lawful|apply proxy_lawful].
    intros f c E. destruct (ch_jwt cfg); [|done]. injection E as <-. apply authenticate_same.
Qed.
End gateway.

(** C4: every request that enters the chain leaves it answered: the connection tried exactly
    one head if a response is said to be sent, at most one if a write failed, and there is no
    third case. Whatever the middlewares, the upstream and the client do, no request gets two
    answers and none gets none (for forwarding that ends, as [Forward.forward_ends] says it
    does). *)
Theorem chain_answers (env : nat -> Turn) (now : nat -> Z) {IN : Inet} (peer : option Ip) (peerAddr : string) (trusted : list Ip)
    {JL : JwtLib} (SHA256 : string -> list Z) (sha1sum : string -> list ascii) (cfg : ChainCfg)
    (conn : Client) (rate : @RateState double) (start : Z) :
  attempts conn = 0%nat -> l_responded conn = false -> l_writeFailed conn = false ->
  let c := run (gateway_chain env now peer peerAddr trusted SHA256 sha1sum cfg) (ctx_init conn rate start) in
  c_state c <> OPEN /\ c_handled c = true /\ (attempts (c_conn c) <= 1)%nat /\
  (c_state c <> WRITE_FAIL -> attempts (c_conn c) = 1%nat /\ l_responded (c_conn c) = true) /\
  (c_state c = WRITE_FAIL -> l_writeFailed (c_conn c) = true).
Proof.
  intros H1 H2 H3. unfold gateway_chain.
  destruct (run_answers (outer_chain peer trusted cfg) (MakeFinishMiddleware env now)
    (inner_chain env now peer peerAddr trusted SHA256 sha1sum cfg) (ctx_init conn rate start)) as [Hs Ho];
    [apply outer_transparent|apply finish_closing|apply inner_lawful|done|done|].
  cbv zeta. split; [exact Ho|]. unfold settled in Hs. destruct (c_state _) eqn:E; try done;
    destruct Hs as (A1 & A2 & A3); split_and!; try done; lia.
Qed.

(** ** Witnesses *)

Definition sample_group : GroupCfg := mkGroup 0 0 0 sample_cb (fun _ => ("10.0.0.1"%string, 8080)).

Definition sample_route : RouteRule RuleCfg :=
  mkRule "r" PREFIX "/" [] "" "g" 0 0
    (mkRuleCfg "none" [] [] true "ip" (n_of (Arith := double) 2) (n_of (Arith := double) 1) (mkRewrite "/" false "" [] []))%string.

Definition sample_chain (waf : bool) : ChainCfg :=
  mkChain 7 (mkCors true "*" [] "GET" "" false 60 true) None (mkIpFilter true "denylist" ["192.168.0.0/16"%string]) false
    (mkWaf waf 1000) true (fun _ => mkResult true (Some sample_route) (Some sample_group) "/") None
    (mkAuthCfg false "X-API-Key" [] [] true true true "X-User-") (mkRateBan true 20 60000 1000)
    sample_ws (mkOutside calm sample_parse sample_acq [I_EOF] sample_answer 0).

Definition sample_client (req : GwRequest) : Client := mkClient (Some req) None F_NONE 0 true false false 0 Q_NONE 0 [].

#[local] Abbreviation sample_chain_run req :=
  (run (gateway_chain (IN := TextInet) calm (fun _ => 9) None "10.0.0.9" [] (JL := sample_lib) no_hash sample_sha1 (sample_chain true))
    (ctx_init (sample_client req) (rate_init (A := double) 10 0) 9)).

Lemma chain_answers_witness :
  let c := sample_chain_run (request_init <| rq_path := "/"%string |>) in
  c_state c = STREAM /\ attempts (c_conn c) = 1%nat /\ l_responded (c_conn c) = true.
Proof.
  pose proof (chain_answers (IN := TextInet) calm (fun _ => 9) None "10.0.0.9" [] (JL := sample_lib) no_hash sample_sha1 (sample_chain true)
    (sample_client (request_init <| rq_path := "/"%string |>)) (rate_init (A := double) 10 0) 9 eq_refl eq_refl eq_refl) as T.
  cbv zeta in T |- *. set (c := run _ _) in *.
  assert (E : c_state c = STREAM) by (vm_compute; reflexivity). clearbody c. destruct T as (_ & _ & _ & H & _).
  split; [exact E|]. apply H. by rewrite E.
Defined.

(** What the client is sent first: an answer of the upstream, a refusal of the filter, the
    answer of the health check, with the fields the outer middlewares ask for. *)
Example chain_statuses :
  map (fun path => let c := sample_chain_run (request_init <| rq_path := path |>) in
         (c_status c, match l_out (c_conn c) with L_FULL rsp _ _ :: _ => rs_getHeader "X-Frame-Options" "" rsp
                      | L_FORWARDED (V_CLIENT_HEAD rsp _) :: _ => rs_getHeader "X-Frame-Options" "" rsp | _ => ""%string end))
    ["/"; "/%2e%2e/etc/passwd"; "/healthz"]%string = [(200, "DENY"); (403, "DENY"); (200, "DENY")]%string.
Proof. by vm_compute. Qed.
