(* ===== verification/Conn.v ===== *)
(** * The request loop of a client connection (conn.cpp, opts.h)

    Heads are taken out of the stream one after another, each is handed to the handler with a
    reader for its body, what the handler left of the body is read and dropped, and the next
    head begins there. What the handler may do to the connection is the class
    [RequestHandler]. *)

From S2P Require Import Prelude Records Str HttpMsg Body Chunks Buf HttpParse Forward Ctx.

(** [GatewayOptions], without the time-outs, which are the socket's. *)
Record GatewayOptions := mkOptions {
  o_maxHeaderSize : Z; o_maxBodySize : Z; o_maxKeepAliveRequests : Z; o_keepAlive : bool }.

(** What the generated parser finds in a head. *)
Record ReqParsed := mkReqParsed { q_events : list ReqEvent; q_finished : bool; q_failed : bool }.

Inductive ReqStage := STAGE_HEAD | STAGE_HANDLE.
Inductive ReqResult := RES_OK | RES_REJECT | RES_WRITE_FAIL.

(** What is counted of a request, and what was written for it. *)
Record Served := mkServed {
  sv_stage : ReqStage; sv_result : ReqResult; sv_status : Z; sv_cut : ReqCut; sv_out : list Sent }.

(** The connection: what has been read and what the socket will give; the part a request uses;
    how many requests there were, and in how many rounds in a row little of the buffer was
    used; how often the server was asked whether it drains; and what lies behind. [n_shared]
    is what the handler keeps from request to request. *)
Record Conn {S : Type} := mkConn {
  n_buf : list ascii; n_in : list Input; n_cl : Client; n_shared : S;
  n_req_count : Z; n_low_rounds : Z; n_polls : nat; n_served : list Served }.
Arguments Conn : clear implicits.
Arguments mkConn {S}.

Section conn.
Context {S : Type} (env : nat -> Turn) (parse : list ascii -> ReqParsed) (opts : GatewayOptions)
  (draining : nat -> bool) (handler : option (S -> Client -> Client * S)) (use : nat -> Z * Z).
#[local] Abbreviation Conn := (Conn S).

Definition conn_start (keepAliveIn : list Input) (s : S) : Conn :=
  mkConn [] keepAliveIn (mkClient None None F_NONE 0 (o_keepAlive opts) false false 0 Q_NONE 0 []) s 0 0 0 [].

(** ** Heads *)

Inductive HeadEnd := HE_HEAD (len : Z) | HE_LARGE | HE_CUT | HE_CLOSED | HE_ERR (pending : bool).

Definition is_nil {A} (l : list A) : bool := match l with [] => true | _ => false end.

(** Until the end of a head is in the buffer. *)
Fixpoint head_loop (script : list Input) (buf : list ascii) : HeadEnd * list ascii * list Input :=
  let headLen := header_end buf in
  if negb (headLen =? 0) then (HE_HEAD headLen, buf, script)
  else if Z.of_nat (length buf) >? o_maxHeaderSize opts then (HE_LARGE, buf, script)
  else
    match script with
    | I_DATA c cs :: s => head_loop s (buf ++ c :: cs)
    | I_ERR :: s => (HE_ERR (negb (is_nil buf)), buf, s)
    | I_EOF :: s => (if is_nil buf then HE_CLOSED else HE_CUT, buf, s)
    | [] => (if is_nil buf then HE_CLOSED else HE_CUT, buf, [])
    end.

Definition reject (cut : ReqCut) (status : Z) (c : Conn) : Z * Conn :=
  (-1, c <| n_cl := sendError env status ((n_cl c) <| l_cut := cut |>) |>).

(** What the parser makes of a request once its head has parsed: an old client closes. *)
Definition parsed_request (p : HttpReqParser) : GwRequest :=
  let req := p_data p in
  if (rq_version req =? 16) && negb (rq_hasHeader "Connection" req) then req <| rq_close := true |> else req.

Definition body_reader (framing : BodyFraming) (clen : Z) (buf : list ascii) (script : list Input) : BodyReader :=
  setMaxBodySize (o_maxBodySize opts) (reader_init framing clen buf script true).

Definition is_clen (f : BodyFraming) : bool := match f with F_CONTENT_LENGTH => true | _ => false end.

(** A head of [headLen] bytes is in the buffer. *)
Definition take_head (headLen : Z) (c : Conn) : Z * Conn :=
  if headLen >? o_maxHeaderSize opts then reject Q_HEADER_TOO_LARGE 431 c
  else
    let d := parse (firstn (Z.to_nat headLen) (n_buf c)) in
    let p := req_events (q_events d) in
    if negb (p_error p =? 0) || q_failed d || negb (q_finished d) then reject Q_BAD_HEADER 400 c
    else
      let c := c <| n_cl := (n_cl c) <| l_request := Some (parsed_request p) |> |> in
      let '(framing, p) := getBodyFraming p in
      let c := c <| n_cl := (n_cl c) <| l_framing := framing |> |> in
      if negb (p_error p =? 0) then reject Q_BAD_HEADER 400 c
      else
        let c := c <| n_cl := (n_cl c) <| l_clen := p_clen p |> |> in
        if is_clen framing && (p_clen p >? o_maxBodySize opts) then reject Q_BODY_TOO_LARGE 413 c
        else
          let c := c <| n_buf := skipn (Z.to_nat headLen) (n_buf c) |> in
          (1, c <| n_cl := (n_cl c) <| l_reader := Some (body_reader framing (p_clen p) (n_buf c) (n_in c)) |> |>).

Definition read_req_head (c : Conn) : Z * Conn :=
  let '(e, buf, script) := head_loop (n_in c) (n_buf c) in
  let c := (c <| n_buf := buf |>) <| n_in := script |> in
  match e with
  | HE_HEAD headLen => take_head headLen c
  | HE_LARGE => reject Q_HEADER_TOO_LARGE 431 c
  | HE_CUT => reject Q_BAD_HEADER 400 c
  | HE_CLOSED => (0, c)
  | HE_ERR pending => (-1, if pending then c <| n_cl := (n_cl c) <| l_cut := Q_BAD_HEADER |> |> else c)
  end.

(** ** The end of a request *)

(** The reader has the buffer and the socket while a request lasts. *)
Definition give_back (b : BodyReader) (c : Conn) : Conn :=
  ((c <| n_buf := m_buf b |>) <| n_in := m_in b |>) <| n_cl := (n_cl c) <| l_reader := Some b |> |>.

Definition drain_req_body (c : Conn) : bool * Conn :=
  match l_reader (n_cl c) with
  | None => (true, c)
  | Some b =>
      if m_finished b then (true, give_back b c)
      else match read_all (Datatypes.S (length (stream b))) [] b with
      | Some (_, _, b) => (negb (m_error b), give_back b c)
      | None => (false, c)
      end
  end.

Definition kShrinkCapacityThreshold : Z := 64 * 1024.
Definition kLowUsageThreshold : Z := 8 * 1024.
Definition kRequiredLowUsageRounds : Z := 4.

(** Whether the buffer is trimmed, of its capacity, what it holds, and the most it held in
    this round. *)
Definition trim_round (cap cur peak low : Z) : bool * Z :=
  if cap <? kShrinkCapacityThreshold then (false, 0)
  else if (peak >? kLowUsageThreshold) || (cur >? kLowUsageThreshold) then (false, 0)
  else if low + 1 >=? kRequiredLowUsageRounds then (true, 0)
  else (false, low + 1).

Definition maybe_trim_buf (c : Conn) : Conn :=
  let '(cap, peak) := use (Z.to_nat (n_req_count c)) in
  c <| n_low_rounds := (trim_round cap (Z.of_nat (length (n_buf c))) peak (n_low_rounds c)).2 |>.

Definition no_cut (q : ReqCut) : bool := match q with Q_NONE => true | _ => false end.

Definition finishReq (stage : ReqStage) (result : ReqResult) (c : Conn) : Conn :=
  let cl := n_cl c in
  c <| n_served := n_served c ++ [mkServed stage result (l_lastStatus cl) (l_cut cl) (l_out cl)] |>.

(** ** A round of the loop *)

Definition poll (c : Conn) : bool * Conn := (draining (n_polls c), c <| n_polls := Datatypes.S (n_polls c) |>).

Definition begin_request (c : Conn) : Conn :=
  let cl := n_cl c in
  c <| n_cl := mkClient None None (l_framing cl) (l_clen cl) (l_keepAlive cl) false false 0 Q_NONE (l_turn cl) [] |>.

Definition run_handler (c : Conn) : Conn :=
  match handler with
  | Some h => let '(cl, s) := h (n_shared c) (n_cl c) in (c <| n_cl := cl |>) <| n_shared := s |>
  | None => c <| n_cl := (sendResponse env (response_init <| rs_status := 200 |>) "" (n_cl c)).2 |>
  end.

(** A body that could not be read, or no answer at all. *)
Definition answer_rest (c : Conn) : bool * Conn :=
  let '(stop, c) :=
    match l_reader (n_cl c) with
    | Some b =>
        if m_error b && negb (l_responded (n_cl c)) then
          let large := match m_errorCode b with RE_TOO_LARGE => true | _ => false end in
          let cl := (n_cl c) <| l_cut := if large then Q_BODY_TOO_LARGE else Q_BAD_BODY |> in
          (true, c <| n_cl := sendError env (if large then 413 else 400) cl |>)
        else (false, c)
    | None => (false, c)
    end in
  if l_responded (n_cl c) then (stop, c)
  else
    (true, if l_writeFailed (n_cl c) then c
           else c <| n_cl := sendError env 500 ((n_cl c) <| l_cut := Q_NO_RESPONSE |>) |>).

Definition handle_result (cl : Client) : ReqResult :=
  if l_writeFailed cl then RES_WRITE_FAIL else if no_cut (l_cut cl) then RES_OK else RES_REJECT.

Definition closes (c : Conn) : bool :=
  negb (o_keepAlive opts) || match l_request (n_cl c) with Some r => rq_close r | None => false end.

(** A request whose head was read. *)
Definition handle_request (c : Conn) : bool * Conn :=
  let c := c <| n_req_count := wrap32 (n_req_count c + 1) |> in
  let c := run_handler c in
  let '(stop, c) := answer_rest c in
  let c := finishReq STAGE_HANDLE (handle_result (n_cl c)) c in
  if stop then (false, c)
  else if closes c then (false, c)
  else
    let '(d, c) := poll c in
    if d then (false, c)
    else
      let '(ok, c) := drain_req_body c in
      if negb ok then (false, c) else (true, maybe_trim_buf c).

Definition round (c : Conn) : bool * Conn :=
  let '(d, c) := poll c in
  if d then (false, c)
  else if n_req_count c >=? o_maxKeepAliveRequests opts then (false, c)
  else
    let '(rt, c) := read_req_head (begin_request c) in
    if rt <=? 0 then
      (false,
       if (rt <? 0) && (negb (l_lastStatus (n_cl c) =? 0) || negb (no_cut (l_cut (n_cl c)))) then
         finishReq STAGE_HEAD (if l_writeFailed (n_cl c) then RES_WRITE_FAIL else RES_REJECT) c
       else c)
    else handle_request c.

(** The loop; each round that goes on has counted a request. *)
Fixpoint process_loop (fuel : nat) (c : Conn) : option Conn :=
  match fuel with
  | O => None
  | Datatypes.S fuel => let '(more, c) := round c in if more : bool then process_loop fuel c else Some c
  end.

Definition process (c : Conn) : option Conn := process_loop (Datatypes.S (Z.to_nat (o_maxKeepAliveRequests opts))) c.
End conn.

(** ** What a handler may do *)

(** Calls of the reader. *)
Inductive reads (b : BodyReader) : BodyReader -> Prop :=
  | RD_NONE : reads b b
  | RD_CALL b1 out : reads b b1 -> reads b (readChunk out b1).2.

Lemma reads_trans b b1 b2 : reads b b1 -> reads b1 b2 -> reads b b2.
Proof. intros H1 H2. induction H2 as [|b2 out _ IH]; [done|by apply RD_CALL]. Qed.

(** Nothing was answered, or one answer was tried and did not fail, or a write failed. *)
Definition settled_client (cl : Client) : Prop :=
  (attempts cl = 0%nat /\ l_responded cl = false /\ l_writeFailed cl = false) \/
  (attempts cl = 1%nat /\ l_responded cl = true) \/
  ((attempts cl <= 1)%nat /\ l_writeFailed cl = true).

Definition must_close (cl : Client) : Prop := exists r, l_request cl = Some r /\ rq_close r = true.

(** The contract: at most one answer is tried, the request stays, and the body is taken by
    calls of the reader alone, unless the connection is to be closed. *)
Class RequestHandler {S : Type} (h : S -> Client -> Client * S) : Prop := {
  rh_settles s cl : attempts cl = 0%nat -> l_responded cl = false -> l_writeFailed cl = false ->
    settled_client (h s cl).1;
  rh_reads s cl b : l_request cl <> None -> l_reader cl = Some b ->
    must_close (h s cl).1 \/ exists b', l_reader (h s cl).1 = Some b' /\ reads b b' }.

(** ** The loop ends *)

Section loop.
Context {S : Type} (env : nat -> Turn) (parse : list ascii -> ReqParsed) (opts : GatewayOptions)
  (draining : nat -> bool) (handler : option (S -> Client -> Client * S)) (use : nat -> Z * Z).
#[local] Abbreviation Conn := (Conn S).
#[local] Abbreviation round := (@round S env parse opts draining handler use).

Lemma reject_count cut status (c : Conn) : n_req_count (reject env cut status c).2 = n_req_count c /\ (reject env cut status c).1 = -1.
Proof. done. Qed.

Lemma read_req_head_count (c : Conn) : n_req_count (read_req_head env parse opts c).2 = n_req_count c.
Proof.
  unfold read_req_head. destruct (head_loop _ _ _) as [[e buf] script]. destruct e as [len| | | |[]]; try done.
  unfold take_head. destruct (_ >? _); [done|]. destruct (_ || _); [done|]. destruct (getBodyFraming _) as [fr p].
  destruct (negb _); [done|]. destruct (_ && _); done.
Qed.

Lemma answer_rest_count (c : Conn) : n_req_count (answer_rest env c).2 = n_req_count c.
Proof.
  unfold answer_rest. destruct (l_reader _) as [b|]; [destruct (m_error b && _)|]; cbn;
    repeat case_match; done.
Qed.

Lemma run_handler_count (c : Conn) : n_req_count (run_handler env handler c) = n_req_count c.
Proof. unfold run_handler. destruct handler as [h|]; [by destruct (h _ _)|done]. Qed.

Lemma drain_count (c : Conn) : n_req_count (drain_req_body c).2 = n_req_count c.
Proof. unfold drain_req_body. repeat case_match; done. Qed.

Lemma handle_request_count (c : Conn) : n_req_count (handle_request env opts draining handler use c).2 = wrap32 (n_req_count c + 1).
Proof.
  unfold handle_request. set (c1 := c <| n_req_count := _ |>).
  pose proof (run_handler_count c1) as E1. set (c2 := run_handler env handler c1) in *.
  pose proof (answer_rest_count c2) as E2. destruct (answer_rest env c2) as [stop c3]. cbn [snd] in E2. cbv zeta.
  set (c4 := finishReq _ _ c3). assert (E4 : n_req_count c4 = wrap32 (n_req_count c + 1)) by (transitivity (n_req_count c3); [done|]; rewrite E2; exact E1).
  destruct stop; [done|]. destruct (closes opts c4); [done|]. unfold poll. destruct (draining _); [done|].
  set (c5 := c4 <| n_polls := _ |>). pose proof (drain_count c5) as E5. destruct (drain_req_body c5) as [ok c6]. cbn [snd] in E5.
  assert (E6 : n_req_count c6 = wrap32 (n_req_count c + 1)) by (rewrite E5; exact E4).
  destruct ok; [|done]. cbn. unfold maybe_trim_buf. by destruct (use _).
Qed.

(** A round that goes on has counted one request. *)
Lemma round_count (c c' : Conn) : round c = (true, c') ->
  n_req_count c < o_maxKeepAliveRequests opts /\ n_req_count c' = wrap32 (n_req_count c + 1).
Proof.
  unfold Conn.round, poll. destruct (draining _); [done|]. set (c1 := c <| n_polls := _ |>).
  btest (n_req_count c1 >=? o_maxKeepAliveRequests opts); [done|].
  pose proof (read_req_head_count (begin_request c1)) as E. destruct (read_req_head _ _ _ _) as [rt c2]. cbn [snd] in E.
  destruct (rt <=? 0); [done|]. intros H. split; [subst c1; cbn in *; lia|].
  pose proof (handle_request_count c2) as E2. rewrite H in E2. cbn [snd] in E2. rewrite E2, E. done.
Qed.

Lemma process_loop_ends fuel (c : Conn) : 0 <= n_req_count c <= o_maxKeepAliveRequests opts -> o_maxKeepAliveRequests opts <= UINT32_MAX ->
  o_maxKeepAliveRequests opts - n_req_count c < Z.of_nat fuel ->
  exists c', process_loop env parse opts draining handler use fuel c = Some c'.
Proof.
  revert c. induction fuel as [|fuel IH]; intros c H0 Hm Hf; [lia|]. cbn [process_loop].
  destruct (round c) as [[] c'] eqn:E; [|by exists c']. apply round_count in E as [E1 E2].
  rewrite wrap32_id in E2 by (unfold is_u32, UINT32_MAX in *; lia). apply IH; lia.
Qed.

(** ** What is served *)

Definition tries (sv : Served) : nat := length (List.filter is_attempt (sv_out sv)).

(** Exactly one answer was tried for a request, unless a write failed; then a second one
    only because the body could not be read; for a head that was refused at most one. *)
Definition served_ok (sv : Served) : Prop :=
  match sv_stage sv with
  | STAGE_HEAD => (tries sv <= 1)%nat
  | STAGE_HANDLE =>
      match sv_result sv with
      | RES_WRITE_FAIL => (tries sv <= 1)%nat \/ (tries sv <= 2)%nat /\ (sv_cut sv = Q_BAD_BODY \/ sv_cut sv = Q_BODY_TOO_LARGE)
      | _ => tries sv = 1%nat
      end
  end.

Definition handled (sv : Served) : bool := match sv_stage sv with STAGE_HANDLE => true | _ => false end.

Lemma sendResponse_cut rsp body (cl : Client) : 400 <= rs_status rsp -> l_cut (sendResponse env rsp body cl).2 = l_cut cl.
Proof.
  intros H. unfold sendResponse, force_body_err. cbn [rs_status].
  change (rs_status (rsp <| rs_version := version_of cl |>)) with (rs_status rsp).
  replace (400 <=? rs_status rsp) with true by (symmetry; by apply Z.leb_le). rewrite orb_true_r.
  unfold write. cbn zeta. destruct (u_ok _); [destruct (wants_close cl)|]; done.
Qed.

Lemma sendError_sends status (cl : Client) : 400 <= status ->
  attempts (sendError env status cl) = Datatypes.S (attempts cl) /\ l_cut (sendError env status cl) = l_cut cl /\
  (l_responded (sendError env status cl) = true \/ l_writeFailed (sendError env status cl) = true) /\
  (l_writeFailed cl = true -> l_writeFailed (sendError env status cl) = true).
Proof.
  intros H. unfold sendError. pose proof (sendResponse_cut (plain_error status) (reason_line status) (close_request cl) H) as Ec.
  destruct (sendResponse _ _ _ _) as [[ok r] cl'] eqn:E. apply sendResponse_sends in E as [E1 E2]. cbn [snd] in *.
  split; [exact E1|]. split; [exact Ec|].
  destruct ok; (split; [first [left; apply E2|right; apply E2]|intros Hw]); destruct E2 as [_ E2]; rewrite E2; [exact Hw|done].
Qed.

(** One try, or a failed write. *)
Definition one_try (cl : Client) : Prop :=
  (l_writeFailed cl = true /\
     ((attempts cl <= 1)%nat \/ (attempts cl <= 2)%nat /\ (l_cut cl = Q_BAD_BODY \/ l_cut cl = Q_BODY_TOO_LARGE))) \/
  (l_writeFailed cl = false /\ attempts cl = 1%nat).

Lemma one_try_once (cl : Client) : attempts cl = 1%nat -> one_try cl.
Proof. intros H. unfold one_try. rewrite H. destruct (l_writeFailed cl); auto. Qed.

Lemma answer_rest_answers (c c' : Conn) stop : settled_client (n_cl c) -> answer_rest env c = (stop, c') ->
  (stop = false -> l_responded (n_cl c') = true) /\ n_served c' = n_served c /\ one_try (n_cl c').
Proof.
  unfold answer_rest. intros Hs.
  set (q := match l_reader (n_cl c) with Some b => _ | None => _ end).
  assert (Hq : (q.2 = c \/ (l_responded (n_cl c) = false /\ n_served q.2 = n_served c /\
      attempts (n_cl q.2) = Datatypes.S (attempts (n_cl c)) /\
      (l_responded (n_cl q.2) = true \/ l_writeFailed (n_cl q.2) = true) /\
      (l_writeFailed (n_cl c) = true -> l_writeFailed (n_cl q.2) = true) /\
      (l_cut (n_cl q.2) = Q_BAD_BODY \/ l_cut (n_cl q.2) = Q_BODY_TOO_LARGE)))).
  { unfold q. destruct (l_reader (n_cl c)) as [b|]; [|by left]. destruct (m_error b && negb (l_responded (n_cl c))) eqn:Eb; [|by left].
    right. apply andb_true_iff in Eb as [_ Eb]. apply negb_true_iff in Eb.
    set (large := match m_errorCode b with RE_TOO_LARGE => true | _ => false end).
    destruct (sendError_sends (if large then 413 else 400) ((n_cl c) <| l_cut := if large then Q_BODY_TOO_LARGE else Q_BAD_BODY |>))
      as (E1 & E2 & E3 & E4); [destruct large; lia|]. cbn [snd n_cl n_served set]. 
    clearbody large. destruct large; split_and!; try done; [right|left]; exact E2. }
  clearbody q. destruct q as [stop0 c1]. cbn [snd] in Hq.
  destruct Hq as [->|(R & N & A & W & W2 & Q)].
  - destruct (l_responded (n_cl c)) eqn:Er; intros E%pair_equal_spec; destruct E as [<- <-].
    + split_and!; [done..|]. destruct Hs as [(_ & E & _)|[[E _]|[E1 E2]]]; [congruence|by apply one_try_once|].
      left. auto.
    + destruct Hs as [(E1 & _ & E3)|[[_ E]|[E1 E2]]]; [|congruence|].
      * rewrite E3. split_and!; [done..|].
        destruct (sendError_sends 500 ((n_cl c) <| l_cut := Q_NO_RESPONSE |>)) as (H1 & _); [lia|].
        apply one_try_once. refine (eq_trans H1 _). apply f_equal. exact E1.
      * rewrite E2. split_and!; [done..|]. left. auto.
  - assert (A2 : one_try (n_cl c1)).
    { destruct Hs as [(E & _)|[[_ E]|[E E2]]]; [apply one_try_once; congruence|congruence|].
      left. split; [by apply W2|]. right. split; [lia|done]. }
    destruct (l_responded (n_cl c1)) eqn:Er1; intros E%pair_equal_spec; destruct E as [<- <-]; [by split_and!|].
    destruct W as [|W]; [congruence|]. rewrite W. by split_and!.
Qed.

Definition fresh (cl : Client) : Prop := attempts cl = 0%nat /\ l_responded cl = false /\ l_writeFailed cl = false.

Lemma reject_once cut status (c : Conn) : 400 <= status -> fresh (n_cl c) ->
  let '(rt, c') := reject env cut status c in rt = -1 /\ (attempts (n_cl c') <= 1)%nat /\ n_served c' = n_served c.
Proof.
  intros Hs (A & _ & _). cbn [reject]. split; [done|]. split; [|done].
  destruct (sendError_sends status ((n_cl c) <| l_cut := cut |>) Hs) as [E _].
  assert (X : attempts (sendError env status ((n_cl c) <| l_cut := cut |>)) = 1%nat) by (rewrite E; apply f_equal; exact A).
  apply Nat.eq_le_incl, X.
Qed.

Lemma read_req_head_fresh (c : Conn) : fresh (n_cl c) ->
  let '(rt, c') := read_req_head env parse opts c in
  n_served c' = n_served c /\ n_shared c' = n_shared c /\
  if rt <=? 0 then (attempts (n_cl c') <= 1)%nat
  else fresh (n_cl c') /\ l_request (n_cl c') <> None /\ l_reader (n_cl c') <> None.
Proof.
  intros Hf. unfold read_req_head. destruct (head_loop _ _ _) as [[e buf] script].
  assert (R : forall cut status (c0 : Conn), 400 <= status -> fresh (n_cl c0) -> n_served c0 = n_served c -> n_shared c0 = n_shared c ->
    let '(rt, c') := reject env cut status c0 in
    n_served c' = n_served c /\ n_shared c' = n_shared c /\
    if rt <=? 0 then (attempts (n_cl c') <= 1)%nat
    else fresh (n_cl c') /\ l_request (n_cl c') <> None /\ l_reader (n_cl c') <> None).
  { intros cut status c0 Hs H0 E1 E2. pose proof (reject_once cut status c0 Hs H0) as R. cbn [reject] in *.
    destruct R as (_ & R & _). split_and!; [exact E1|exact E2|exact R]. }
  destruct Hf as (F1 & F2 & F3). destruct e as [len| | | |pending]; [|by apply R..| |].
  - unfold take_head. destruct (len >? _); [by apply R|]. destruct (_ || _); [by apply R|].
    destruct (getBodyFraming _) as [fr p]. destruct (negb _); [by apply R|]. destruct (_ && _); [by apply R|].
    cbn. split_and!; done.
  - cbn. split_and!; try done. change (attempts (n_cl c) <= 1)%nat. lia.
  - destruct pending; cbn; (split_and!; [done..|]); change (attempts (n_cl c) <= 1)%nat; lia.
Qed.

Lemma drain_served (c : Conn) : n_served (drain_req_body c).2 = n_served c.
Proof. unfold drain_req_body. repeat case_match; done. Qed.

Lemma run_handler_settled (H : forall h, handler = Some h -> RequestHandler h) (c : Conn) : fresh (n_cl c) ->
  settled_client (n_cl (run_handler env handler c)) /\ n_served (run_handler env handler c) = n_served c.
Proof.
  intros (F1 & F2 & F3). unfold run_handler. destruct handler as [h|].
  - pose proof (rh_settles (RequestHandler := H h eq_refl) (n_shared c) (n_cl c) F1 F2 F3) as Hs. by destruct (h _ _).
  - split; [|done]. change (settled_client (sendResponse env (response_init <| rs_status := 200 |>) "" (n_cl c)).2).
    destruct (sendResponse _ _ _ _) as [[ok r] cl] eqn:E. apply sendResponse_sends in E as [E1 E2]. cbn [snd].
    rewrite F1 in E1. destruct ok; [right; left|right; right]; (split; [lia || done|apply E2]).
Qed.

Lemma handle_request_serves (H : forall h, handler = Some h -> RequestHandler h) (c : Conn) : fresh (n_cl c) ->
  exists sv, n_served (handle_request env opts draining handler use c).2 = n_served c ++ [sv] /\ handled sv = true /\ served_ok sv.
Proof.
  intros Hf. unfold handle_request. set (c1 := c <| n_req_count := _ |>).
  destruct (run_handler_settled H c1 Hf) as [Hs E1]. set (c2 := run_handler env handler c1) in *.
  destruct (answer_rest env c2) as [stop c3] eqn:E. apply answer_rest_answers in E as (_ & E2 & Ho); [|done]. cbv zeta.
  set (sv := mkServed STAGE_HANDLE (handle_result (n_cl c3)) (l_lastStatus (n_cl c3)) (l_cut (n_cl c3)) (l_out (n_cl c3))).
  exists sv. assert (Hsv : handled sv = true /\ served_ok sv).
  { split; [done|]. unfold served_ok. cbn. unfold handle_result, tries. cbn.
    destruct Ho as [[-> Ho]|[-> Ho]]; [exact Ho|]. destruct (no_cut _); exact Ho. }
  set (c4 := finishReq _ _ c3). assert (E4 : n_served c4 = n_served c ++ [sv]).
  { change (n_served c4) with (n_served c3 ++ [sv]). by rewrite E2, E1. }
  destruct stop; [done|]. destruct (closes opts c4); [done|]. unfold poll. destruct (draining _); [done|].
  set (c5 := c4 <| n_polls := _ |>). pose proof (drain_served c5) as E5. destruct (drain_req_body c5) as [ok c6]. cbn [snd] in E5.
  assert (E6 : n_served c6 = n_served c ++ [sv]) by (rewrite E5; exact E4).
  destruct ok; [|done]. cbn. unfold maybe_trim_buf. by destruct (use _).
Qed.

Lemma round_serves (H : forall h, handler = Some h -> RequestHandler h) (c : Conn) :
  exists l, n_served (round c).2 = n_served c ++ l /\ Forall served_ok l /\ (length l <= 1)%nat /\
    n_req_count (round c).2 = (if existsb handled l then wrap32 (n_req_count c + 1) else n_req_count c) /\
    (existsb handled l = true -> n_req_count c < o_maxKeepAliveRequests opts).
Proof.
  unfold Conn.round, poll. destruct (draining _); [exists []; rewrite app_nil_r; split_and!; done || (cbn; lia)|]. set (c1 := c <| n_polls := _ |>).
  btest (n_req_count c1 >=? o_maxKeepAliveRequests opts); [exists []; rewrite app_nil_r; split_and!; done || (cbn; lia)|].
  pose proof (read_req_head_count (begin_request c1)) as Ec.
  pose proof (read_req_head_fresh (begin_request c1) ltac:(done)) as Hr.
  destruct (read_req_head _ _ _ _) as [rt c2]. cbn [snd] in Ec. destruct Hr as (E1 & _ & Hr).
  destruct (rt <=? 0).
  - destruct (_ && _); [|exists []; rewrite app_nil_r; split_and!; done || exact Ec || (cbn; lia)]. eexists [_]. split; [cbn; by rewrite E1|].
    split; [by apply Forall_singleton|]. by split_and!.
  - destruct Hr as (Hf & _). destruct (handle_request_serves H c2 Hf) as (sv & Es & Hh & Ho).
    exists [sv]. rewrite handle_request_count, Ec. cbn [existsb]. rewrite Hh. cbn. rewrite Es, E1.
    split_and!; try done; first [by apply Forall_singleton|subst c1; cbn in *; lia].
Qed.

Lemma process_loop_serves (H : forall h, handler = Some h -> RequestHandler h) fuel (c c' : Conn) :
  o_maxKeepAliveRequests opts <= UINT32_MAX -> 0 <= n_req_count c <= Z.max 0 (o_maxKeepAliveRequests opts) ->
  Forall served_ok (n_served c) -> Z.of_nat (length (List.filter handled (n_served c))) = n_req_count c ->
  process_loop env parse opts draining handler use fuel c = Some c' ->
  Forall served_ok (n_served c') /\ Z.of_nat (length (List.filter handled (n_served c'))) = n_req_count c' /\
  n_req_count c' <= Z.max 0 (o_maxKeepAliveRequests opts).
Proof.
  intros Hm. revert c. induction fuel as [|fuel IH]; intros c H0 Hs Hc; [done|]. cbn [process_loop].
  destruct (round_serves H c) as (l & E1 & E2 & E3 & E4 & E5). destruct (round c) as [more c1]. cbn [snd] in *.
  assert (Hw : existsb handled l = true -> wrap32 (n_req_count c + 1) = n_req_count c + 1).
  { intros Hl. specialize (E5 Hl). apply wrap32_id. unfold is_u32, UINT32_MAX in *. lia. }
  assert (S1 : Forall served_ok (n_served c1)) by (rewrite E1; by apply Forall_app).
  assert (C1 : Z.of_nat (length (List.filter handled (n_served c1))) = n_req_count c1 /\
    0 <= n_req_count c1 <= Z.max 0 (o_maxKeepAliveRequests opts)).
  { rewrite E1, List.filter_app, length_app, E4. destruct l as [|sv [|]]; [|cbn in *|cbn in E3; lia].
    - cbn in *. lia.
    - destruct (handled sv); cbn in *; [rewrite (Hw eq_refl); specialize (E5 eq_refl)|]; lia. }
  destruct C1 as [C1 C2]. destruct more; [by apply IH|]. intros [= <-]. split_and!; [done|done|lia].
Qed.
End loop.

(** C5: every request of a connection is answered. For a handler of the contract, whatever
    the client sends, the loop ends after at most the configured number of requests; for each
    whose head was read exactly one answer was tried, unless a write failed, and then at most
    one more when the body could not be read either; and for a head that is refused at most
    one. *)
Theorem conn_serves {S : Type} (env : nat -> Turn) (parse : list ascii -> ReqParsed) (opts : GatewayOptions)
    (draining : nat -> bool) (h : S -> Client -> Client * S) (HL : RequestHandler h) (use : nat -> Z * Z)
    (script : list Input) (s : S) :
  0 <= o_maxKeepAliveRequests opts <= UINT32_MAX ->
  exists c', process env parse opts draining (Some h) use (conn_start opts script s) = Some c' /\
    Forall served_ok (n_served c') /\
    Z.of_nat (length (List.filter handled (n_served c'))) = n_req_count c' /\ n_req_count c' <= o_maxKeepAliveRequests opts.
Proof.
  intros [H0 Hm]. unfold process.
  destruct (process_loop_ends env parse opts draining (Some h) use (Datatypes.S (Z.to_nat (o_maxKeepAliveRequests opts)))
    (conn_start opts script s)) as [c' E]; [done|done|cbn; lia|].
  exists c'. split; [exact E|].
  apply process_loop_serves in E as (E1 & E2 & E3); [split_and!; [done|done|lia]|by intros ? [= <-]|done|cbn; lia|done|done].
Qed.

(** ** Where the next request begins *)

Lemma readChunk_error out b : m_error b = true -> m_finished b = false -> readChunk out b = (-1, out, b).
Proof. intros H1 H2. unfold readChunk. by rewrite H1, H2. Qed.

(** Part of a body of [clen] bytes has been taken off [rest]. *)
Record clen_at (clen : Z) (rest : list ascii) (b : BodyReader) : Prop := {
  ca_framing : m_framing b = F_CONTENT_LENGTH; ca_sock : m_sock b = true;
  ca_place : m_error b = false -> exists body, rest = body ++ avail b /\ Z.of_nat (length body) + m_remaining b = clen /\
    0 <= m_remaining b /\ (m_finished b = true -> m_remaining b = 0) }.

Lemma setError_at code b : m_framing (setError code b) = m_framing b /\ m_sock (setError code b) = m_sock b.
Proof. unfold setError. by destruct (no_error _). Qed.

Lemma clen_at_error clen rest b : m_framing b = F_CONTENT_LENGTH -> m_sock b = true -> m_error b = true -> clen_at clen rest b.
Proof. intros H1 H2 H3. split; try done. congruence. Qed.

Lemma clen_call clen rest out b : Z.of_nat (length rest) < 2 ^ 31 -> clen_at clen rest b ->
  let '(rt, _, b') := readChunk out b in
  clen_at clen rest b' /\ (rt <= 0 -> m_error b' = false -> m_finished b' = true).
Proof.
  intros Hsm [H1 H2 H3]. destruct (m_error b) eqn:Ee.
  { unfold readChunk. rewrite Ee. destruct (m_finished b); (split; [by apply clen_at_error|congruence]). }
  destruct (H3 eq_refl) as (body & E1 & E2 & E3 & E4). clear H3.
  unfold readChunk. destruct (m_finished b) eqn:Ef; [split; [split; try done; intros _; exists body; auto|done]|].
  rewrite Ee, H1. unfold read_clen. btest (m_remaining b =? 0).
  { split; [|done]. split; try done. intros _. exists body. split_and!; try done. }
  destruct (some_bytes b) as [rt b1] eqn:Es. destruct rt as [rt|].
  { assert (Hb : m_framing b1 = F_CONTENT_LENGTH /\ m_sock b1 = true).
    { clear -Es H1 H2. unfold some_bytes, Body.fill in Es. repeat case_match; by simplify_eq/=. }
    destruct (setError_at RE_IO b1) as [F1 F2]. split.
    - apply clen_at_error; cbn; [by rewrite F1; apply Hb|by rewrite F2; apply Hb|apply setError_error].
    - cbn. by rewrite setError_error. }
  apply some_bytes_none in Es as (A & Sm & N); [|done]. pose proof Sm as [S1 S2 S3 S4 S5 S6 S7 S8 S9].
  rewrite S2. set (n := Z.min (Z.of_nat (length (m_buf b1))) (m_remaining b)).
  assert (Hn : 0 < n <= Z.of_nat (length (m_buf b1))) by (unfold n; destruct (m_buf b1); [done|cbn [length]; lia]).
  unfold accountBytes. destruct (_ || _).
  { split; [|cbn; by rewrite setError_error]. destruct (setError_at RE_TOO_LARGE b1) as [F1 F2].
    apply clen_at_error; cbn; [by rewrite F1, S1|by rewrite F2, S3|apply setError_error]. }
  unfold give. set (b2 := b1 <| m_totalRead := _ |>).
  destruct (consume_avail (Z.to_nat n) b2) as (A2 & T2 & Sm2); [cbn; lia|].
  set (b3 := Body.consume (Z.to_nat n) b2) in *. destruct Sm2 as [U1 U2 U3 U4 U5 U6 U7 U8 U9].
  set (b4 := b3 <| m_remaining := _ |>).
  assert (Hr : m_remaining b4 = m_remaining b - n) by (change (m_remaining b4) with (m_remaining b3 - n); rewrite U2; by rewrite <- S2).
  assert (Ha : avail b4 = drop (Z.to_nat n) (avail b)) by (change (avail b4) with (avail b3); rewrite A2; exact (f_equal (drop (Z.to_nat n)) A)).
  assert (Hlen : n <= Z.of_nat (length (avail b))) by (rewrite <- A; unfold avail; rewrite length_app; lia).
  assert (Hb : clen_at clen rest (if m_remaining b4 =? 0 then finish b4 else b4)).
  { assert (P : exists body', rest = body' ++ avail b4 /\ Z.of_nat (length body') + m_remaining b4 = clen /\ 0 <= m_remaining b4).
    { exists (body ++ take (Z.to_nat n) (avail b)). rewrite Ha, Hr, length_app, length_take, <- app_assoc, take_drop.
      split_and!; [done|lia|unfold n; lia]. }
    assert (G : m_framing b4 = F_CONTENT_LENGTH /\ m_sock b4 = true /\ m_finished b4 = false).
    { change (m_framing b3 = F_CONTENT_LENGTH /\ m_sock b3 = true /\ m_finished b3 = false). rewrite U1, U3, U4.
      by rewrite <- S1, <- S3, <- S4 in *. }
    destruct G as (G1 & G2 & G3), P as (body' & P1 & P2 & P3). btest (m_remaining b4 =? 0); split; try done; intros _; exists body';
      split_and!; try done; congruence. }
  split; [done|]. intros Hrt _. exfalso.
  assert (Hs : n < 2 ^ 31) by (rewrite E1, length_app in Hsm; lia).
  rewrite wrap_int32_id in Hrt by lia. lia.
Qed.

Section drained.
Context (I : BodyReader -> Prop)
  (Icall : forall out b, I b -> let '(rt, _, b') := readChunk out b in I b' /\ (rt <= 0 -> m_error b' = false -> m_finished b' = true)).

Lemma reads_keep b b' : I b -> reads b b' -> I b'.
Proof.
  intros Hb H. induction H as [|b1 out _ IH]; [done|]. pose proof (Icall out b1 IH) as P.
  destruct (readChunk out b1) as [[rt x] b2]. apply P.
Qed.

Lemma read_all_keep fuel out b rt out' b' : I b -> read_all fuel out b = Some (rt, out', b') ->
  I b' /\ (m_error b' = false -> m_finished b' = true).
Proof.
  revert out b. induction fuel as [|fuel IH]; intros out b Hb; [done|]. cbn [read_all].
  pose proof (Icall out b Hb) as P. destruct (readChunk out b) as [[n x] b1]. destruct P as [P1 P2].
  btest (n >? 0); [by apply IH|]. intros [= <- <- <-]. auto.
Qed.

(** Calls, and then whatever is left. *)
Definition ended (b0 b : BodyReader) : Prop :=
  exists b1, reads b0 b1 /\ ((b = b1 /\ m_finished b1 = true) \/ exists fuel rt out, read_all fuel [] b1 = Some (rt, out, b)).

Lemma ended_keep b0 b : I b0 -> ended b0 b -> I b /\ (m_error b = false -> m_finished b = true).
Proof.
  intros H0 (b1 & H1 & [[-> Hf]|(fuel & rt & out & H2)]); [by split; [apply (reads_keep b0)|]|].
  eapply read_all_keep; [|exact H2]. by apply (reads_keep b0).
Qed.
End drained.

(** The bytes of a connection that come before its stream first stops. *)
Definition coming {S : Type} (c : Conn S) : list ascii := n_buf c ++ flat (n_in c).

(** How what is left begins after a body. *)
Definition body_ends (framing : BodyFraming) (clen : Z) (rest after : list ascii) : Prop :=
  match framing with
  | F_NONE => after = rest
  | F_CONTENT_LENGTH => exists body, Z.of_nat (length body) = clen /\ rest = body ++ after
  | F_CHUNKED => chunks_end rest after
  | F_UNTIL_CLOSE => False
  end.

Definition broken_body (cl : Client) : Prop := exists b, l_reader cl = Some b /\ m_error b = true.

(** A reader that has ended without an error has taken the body and nothing else. *)
Lemma body_ended maxBody framing clen buf script b :
  framing <> F_UNTIL_CLOSE -> (framing = F_CONTENT_LENGTH -> 0 <= clen) -> Z.of_nat (length (buf ++ flat script)) < 2 ^ 31 ->
  ended (setMaxBodySize maxBody (reader_init framing clen buf script true)) b ->
  m_error b = false -> body_ends framing clen (buf ++ flat script) (avail b).
Proof.
  intros Hu Hc Hs He Eb. set (b0 := setMaxBodySize _ _) in *. destruct framing; [| | |done].
  - assert (N : forall out b1, b1 = b0 -> let '(rt, _, b') := readChunk out b1 in b' = b0 /\ (rt <= 0 -> m_error b' = false -> m_finished b' = true))
      by (by intros out b1 ->).
    by destruct (ended_keep (fun b => b = b0) N b0 b eq_refl He) as [-> _].
  - destruct (ended_keep (clen_at clen (buf ++ flat script)) (fun out b => clen_call clen _ out b Hs) b0 b) as [[_ _ Hp] Hf]; [|done|].
    { split; [done..|]. intros _. exists []. cbn. split_and!; try done; [by apply Hc|intros E; by apply Z.eqb_eq in E]. }
    destruct (Hp Eb) as (body & E1 & E2 & _ & E3). exists body. split; [|done]. specialize (E3 (Hf Eb)). specialize (Hc eq_refl). lia.
  - destruct (ended_keep (fun b => m_error b = false -> wire_at (buf ++ flat script) b) (fun out b => chunked_call _ out b Hs) b0 b) as [HW Hf];
      [intros _; apply wire_at_start|exact He|]. by apply wire_at_end; [apply HW|apply Hf].
Qed.

(** ** A round that goes on *)

Section boundary.
Context {S : Type} (env : nat -> Turn) (parse : list ascii -> ReqParsed) (opts : GatewayOptions)
  (draining : nat -> bool) (handler : option (S -> Client -> Client * S)) (use : nat -> Z * Z).
#[local] Abbreviation Conn := (Conn S).
#[local] Abbreviation round := (@round S env parse opts draining handler use).

Lemma head_loop_head script buf len buf' script' : head_loop opts script buf = (HE_HEAD len, buf', script') ->
  len = header_end buf' /\ len <> 0 /\ buf' ++ flat script' = buf ++ flat script.
Proof.
  revert buf. induction script as [|i script IH]; intros buf; cbn [head_loop];
    (btest (header_end buf =? 0); cbn [negb]; [|by intros [= <- <- <-]]).
  - destruct (_ >? _); [done|]. by destruct (is_nil buf).
  - destruct (_ >? _); [done|]. destruct i as [c cs| |]; [|by destruct (is_nil buf)|done].
    intros H%IH. destruct H as (H1 & H2 & H3). split_and!; [done|done|]. rewrite H3. cbn [flat]. by rewrite <- app_assoc.
Qed.

(** A head that was accepted, and the reader it leaves. *)
Lemma read_req_head_took (c c' : Conn) rt : read_req_head env parse opts c = (rt, c') -> 0 < rt ->
  exists head framing p, coming c = head ++ coming c' /\ header_end head = Z.of_nat (length head) /\
    (let d := parse head in q_finished d = true /\ q_failed d = false /\ p_error (req_events (q_events d)) = 0 /\
       getBodyFraming (req_events (q_events d)) = (framing, p)) /\ p_error p = 0 /\
    l_reader (n_cl c') = Some (body_reader opts framing (p_clen p) (n_buf c') (n_in c')) /\
    l_request (n_cl c') = Some (parsed_request (req_events (q_events (parse head)))).
Proof.
  unfold read_req_head. destruct (head_loop _ _ _) as [[e buf] script] eqn:El. intros H Hrt.
  destruct e as [len| | | |pending]; try (by injection H as <- _).
  apply head_loop_head in El as (-> & Hne & Ec). unfold take_head in H. cbn [n_buf] in H.
  destruct (_ >? _); [by injection H as <- _|]. destruct (_ || _) eqn:Eo; [by injection H as <- _|].
  destruct (getBodyFraming _) as [framing p] eqn:Eg. destruct (negb (p_error p =? 0)) eqn:Ee; [by injection H as <- _|].
  destruct (_ && _); [by injection H as <- _|]. injection H as _ <-.
  destruct (header_end_split _ Hne) as (pre & post & El & En). change (n_buf ((c <| n_buf := buf |>) <| n_in := script |>)) with buf in *.
  exists (firstn (Z.to_nat (header_end buf)) buf), framing, p. set (head := firstn _ buf) in *.
  assert (Eh : head = pre ++ CRLFCRLF).
  { unfold head. rewrite En, El, app_assoc. rewrite take_app_length'; [done|]. rewrite length_app. cbn. lia. }
  b2p. split_and!; try done.
  - unfold coming at 1. rewrite <- Ec.
    change (buf ++ flat script = head ++ (drop (Z.to_nat (header_end buf)) buf ++ flat script)).
    rewrite app_assoc. unfold head. by rewrite take_drop.
  - rewrite Eh. pose proof (header_end_found (pre ++ CRLFCRLF) pre [] ltac:(by rewrite app_nil_r)) as Hf.
    rewrite <- (header_end_stable (pre ++ CRLFCRLF) post) by lia. rewrite <- app_assoc, <- El, En, length_app. cbn. lia.
Qed.

Lemma answer_rest_go (c c' : Conn) : answer_rest env c = (false, c') -> c' = c.
Proof.
  unfold answer_rest. destruct (l_reader (n_cl c)) as [b|]; [destruct (m_error b && _)|];
    destruct (l_responded _); intros E%pair_equal_spec; destruct E; done.
Qed.

Lemma drain_ended (c c' : Conn) b : l_reader (n_cl c) = Some b -> drain_req_body c = (true, c') ->
  exists b', l_reader (n_cl c') = Some b' /\ coming c' = avail b' /\
    ((b' = b /\ m_finished b = true) \/ exists fuel rt out, read_all fuel [] b = Some (rt, out, b')).
Proof.
  intros Hb. unfold drain_req_body. rewrite Hb. destruct (m_finished b) eqn:Ef.
  - intros E%pair_equal_spec. destruct E as [_ <-]. exists b. auto.
  - destruct (read_all _ _ _) as [[[rt out] b']|] eqn:E; [|done]. intros E'%pair_equal_spec. destruct E' as [_ <-].
    exists b'. split; [done|]. split; [done|]. right. by eexists _, rt, out.
Qed.

Lemma handle_request_ended h (HL : RequestHandler h) (Hh : handler = Some h) (c c' : Conn) b0 :
  l_request (n_cl c) <> None -> l_reader (n_cl c) = Some b0 ->
  handle_request env opts draining handler use c = (true, c') ->
  exists b, l_reader (n_cl c') = Some b /\ coming c' = avail b /\ ended b0 b.
Proof.
  intros Hr Hb. unfold handle_request. set (c1 := c <| n_req_count := _ |>).
  assert (Ec : run_handler env handler c1 = ((c1 <| n_cl := (h (n_shared c1) (n_cl c1)).1 |>) <| n_shared := (h (n_shared c1) (n_cl c1)).2 |>)).
  { unfold run_handler. rewrite Hh. by destruct (h _ _). }
  rewrite Ec. set (cl := (h (n_shared c1) (n_cl c1)).1). set (c2 := _ <| n_shared := _ |>).
  destruct (answer_rest env c2) as [stop c3] eqn:Ea. cbv zeta. destruct stop; [done|].
  apply answer_rest_go in Ea as ->. set (c4 := finishReq _ _ c2).
  destruct (closes opts c4) eqn:Ecl; [done|]. unfold poll. destruct (draining _); [done|].
  set (c5 := c4 <| n_polls := _ |>). destruct (drain_req_body c5) as [ok c6] eqn:Ed. destruct ok; [|done].
  intros E%pair_equal_spec. destruct E as [_ <-].
  destruct (rh_reads (n_shared c1) (n_cl c1) b0 Hr Hb) as [(r & R1 & R2)|(b1 & B1 & B2)].
  { exfalso. unfold closes in Ecl. change (n_cl c4) with cl in Ecl. unfold cl in Ecl. rewrite R1, R2 in Ecl. by rewrite orb_true_r in Ecl. }
  destruct (drain_ended c5 c6 b1 B1 Ed) as (b & D1 & D2 & D3).
  assert (Em : n_cl (maybe_trim_buf use c6) = n_cl c6 /\ coming (maybe_trim_buf use c6) = coming c6)
    by (unfold maybe_trim_buf; by destruct (use _)).
  destruct Em as [Em1 Em2]. exists b. rewrite Em1, Em2. split; [done|]. split; [done|]. exists b1. split; [done|].
  destruct D3 as [[-> D3]|D3]; auto.
Qed.
End boundary.

(** C6: where a request ends. When the loop goes on to another request, the bytes it took
    are a whole head, accepted by the parser with one framing, and exactly the body that
    framing says: none, as many bytes as announced, or the one chunked body the rest begins
    with - sizes, extensions, data and trailer by the grammar of [Chunks] - however
    much of it the handler had read; the next request begins with the byte after it. The
    one exception is a body whose reader has failed, see [body_as_request]. *)
Theorem conn_boundaries {S : Type} (env : nat -> Turn) (parse : list ascii -> ReqParsed) (opts : GatewayOptions)
    (draining : nat -> bool) (h : S -> Client -> Client * S) (HL : RequestHandler h) (use : nat -> Z * Z) (c c' : Conn S) :
  Z.of_nat (length (coming c)) < 2 ^ 31 ->
  round env parse opts draining (Some h) use c = (true, c') ->
  exists head rest framing p, coming c = head ++ rest /\ header_end head = Z.of_nat (length head) /\
    (let d := parse head in q_finished d = true /\ q_failed d = false /\ p_error (req_events (q_events d)) = 0 /\
       getBodyFraming (req_events (q_events d)) = (framing, p)) /\ p_error p = 0 /\
    (broken_body (n_cl c') \/ body_ends framing (p_clen p) rest (coming c')).
Proof.
  intros Hs. unfold round, poll. destruct (draining _); [done|]. destruct (_ >=? _); [done|].
  set (c1 := begin_request _). destruct (read_req_head env parse opts c1) as [rt c2] eqn:Er.
  btest (rt <=? 0); [done|]. apply read_req_head_took in Er as (head & framing & p & E1 & E2 & E3 & E4 & E5 & E6); [|lia].
  intros Hh. destruct (handle_request_ended env opts draining (Some h) use h HL eq_refl c2 c' _ ltac:(by rewrite E6) E5 Hh)
    as (b & B1 & B2 & B3).
  exists head, (coming c2), framing, p. split; [exact E1|]. split; [done|]. split; [exact E3|]. split; [done|].
  destruct (m_error b) eqn:Eb; [left; by exists b|right]. rewrite B2. destruct E3 as (_ & _ & _ & Eg).
  apply (body_ended (o_maxBodySize opts) framing (p_clen p) (n_buf c2) (n_in c2)); try done.
  - intros ->. unfold getBodyFraming in Eg. repeat case_match; simplify_eq/=.
  - intros ->. unfold getBodyFraming in Eg. repeat case_match; simplify_eq/=; b2p; lia.
  - change (Z.of_nat (length (coming c2)) < 2 ^ 31). change (coming c1) with (coming c) in E1.
    rewrite E1, length_app in Hs. lia.
Qed.

(** ** Examples and witnesses *)

Definition crlf_line (l : string) : list ascii := chars l ++ [CR; LF].

Definition get_head : list ascii := crlf_line "GET /x HTTP/1.1" ++ [CR; LF].
Definition clen_head : list ascii := crlf_line "POST /b HTTP/1.1" ++ crlf_line "Content-Length: 5" ++ [CR; LF].
Definition chunked_head : list ascii := crlf_line "POST /a HTTP/1.1" ++ crlf_line "Transfer-Encoding: chunked" ++ [CR; LF].

Definition sample_events (m path : string) (fields : HeaderList) : ReqParsed :=
  mkReqParsed ([E_METHOD m; E_PATH path; E_VERSION "HTTP/1.1"] ++ map (fun h : string * string => E_FIELD h.1 h.2) fields ++ [E_DONE]) true false.

(** The generated parser on three heads. *)
Definition sample_parse (head : list ascii) : ReqParsed :=
  if bool_decide (head = get_head) then sample_events "GET" "/x" []
  else if bool_decide (head = clen_head) then sample_events "POST" "/b" [("Content-Length", "5")]%string
  else if bool_decide (head = chunked_head) then sample_events "POST" "/a" [("Transfer-Encoding", "chunked")]%string
  else mkReqParsed [] false true.

Definition calm (n : nat) : Turn := mkTurn 0 true false.

Definition sample_opts : GatewayOptions := mkOptions 64 100 10 true.

(** Answers 200 and leaves the body. *)
Definition answer_200 (s : unit) (cl : Client) : Client * unit :=
  ((sendResponse calm (response_init <| rs_status := 200 |>) "ok" cl).2, s).

(** Reads a block of the body and answers 413 when it is too large, as the proxy does. *)
Definition answer_413 (s : unit) (cl : Client) : Client * unit :=
  match l_reader cl with
  | Some b =>
      let b := (readChunk [] b).2 in
      let cl := cl <| l_reader := Some b |> in
      if m_error b then ((sendResponse calm (plain_error 413) (reason_line 413) cl).2, s) else answer_200 s cl
  | None => answer_200 s cl
  end.

Definition served_summary {S : Type} (c : Conn S) : list (bool * Z * nat) :=
  map (fun sv => (handled sv, sv_status sv, tries sv)) (n_served c).

Definition input_of (l : list ascii) : list Input := match l with [] => [] | c :: cs => [I_DATA c cs] end.

(** A body that is too large, its length announced in a chunk: the proxy answers 413 and does
    not close, the reader counts as finished, and the loop takes the chunk's data for the
    next request. *)
Definition smuggled : list Input := input_of (chunked_head ++ crlf_line "ff" ++ get_head).

Example body_as_request :
  served_summary <$> process calm sample_parse sample_opts (fun _ => false) (Some answer_413) (fun _ => (0, 0)) (conn_start sample_opts smuggled tt)
  = Some [(true, 413, 1%nat); (true, 200, 1%nat)].
Proof. vm_compute. reflexivity. Qed.

(** An error before there is a request is answered with [Connection: keep-alive], and the
    connection is closed. *)
Example early_error_keeps_alive :
  (fun c => map (fun sv => map (fun x => match x with L_FULL rsp _ _ => (rs_status rsp, rs_getHeader "Connection" "" rsp) | _ => (0, ""%string) end) (sv_out sv))
              (n_served c)) <$>
    process calm sample_parse sample_opts (fun _ => false) (Some answer_200) (fun _ => (0, 0)) (conn_start sample_opts (input_of (crlf_line "junk")) tt)
  = Some [[(400, "keep-alive"%string)]].
Proof. vm_compute. reflexivity. Qed.

Lemma sendResponse_reader env rsp body cl : l_reader (sendResponse env rsp body cl).2 = l_reader cl.
Proof.
  unfold sendResponse, force_body_err. destruct (_ || _); cbn zeta; unfold write; destruct (u_ok _);
    cbn; try done; destruct (wants_close _); done.
Qed.

#[export] Instance answer_200_handler : RequestHandler answer_200.
Proof.
  split; intros s cl.
  - intros H1 H2 H3. unfold answer_200. cbn [fst]. destruct (sendResponse _ _ _ _) as [[ok r] cl'] eqn:E.
    apply sendResponse_sends in E as [E1 E2]. rewrite H1 in E1.
    destruct ok; [right; left|right; right]; (split; [cbn; lia || done|apply E2]).
  - intros b _ Hb. right. exists b.
    split; [unfold answer_200; cbn [fst]; by rewrite sendResponse_reader|apply RD_NONE].
Qed.

(** Two requests in one segment; the body of the first is left to the loop. *)
Definition pipelined : list Input := input_of (clen_head ++ chars "hello" ++ get_head).

Lemma conn_serves_witness : exists c',
  process calm sample_parse sample_opts (fun _ => false) (Some answer_200) (fun _ => (0, 0)) (conn_start sample_opts pipelined tt) = Some c' /\
  Forall served_ok (n_served c') /\ served_summary c' = [(true, 200, 1%nat); (true, 200, 1%nat)].
Proof.
  destruct (conn_serves calm sample_parse sample_opts (fun _ => false) answer_200 answer_200_handler (fun _ => (0, 0)) pipelined tt)
    as (c' & E & H & _); [vm_compute; split; discriminate|].
  exists c'. split; [exact E|]. split; [exact H|].
  assert (X : served_summary <$> process calm sample_parse sample_opts (fun _ => false) (Some answer_200) (fun _ => (0, 0))
    (conn_start sample_opts pipelined tt) = Some [(true, 200, 1%nat); (true, 200, 1%nat)]) by (vm_compute; reflexivity).
  rewrite E in X. cbn in X. by injection X.
Defined.

Definition sample_round : bool * Conn unit :=
  Eval vm_compute in round calm sample_parse sample_opts (fun _ => false) (Some answer_200) (fun _ => (0, 0)) (conn_start sample_opts pipelined tt).

Lemma conn_boundaries_witness : exists head rest framing p,
  coming (conn_start sample_opts pipelined tt) = head ++ rest /\ header_end head = Z.of_nat (length head) /\
  getBodyFraming (req_events (q_events (sample_parse head))) = (framing, p) /\
  body_ends framing (p_clen p) rest (coming sample_round.2) /\ coming sample_round.2 = get_head.
Proof.
  destruct (conn_boundaries calm sample_parse sample_opts (fun _ => false) answer_200 answer_200_handler (fun _ => (0, 0))
    (conn_start sample_opts pipelined tt) sample_round.2) as (head & rest & framing & p & H1 & H2 & (_ & _ & _ & H3) & _ & H5);
    [vm_compute; reflexivity|vm_compute; reflexivity|].
  exists head, rest, framing, p. split; [exact H1|]. split; [exact H2|]. split; [exact H3|]. split; [|vm_compute; reflexivity].
  destruct H5 as [(b & Hb & He)|H5]; [|exact H5]. vm_compute in Hb. injection Hb as <-. discriminate He.
Defined.
