(* ===== verification/Gateway.v ===== *)
(** * The gateway as a whole: the request loop with the chain (api_gw/gw.cpp, conn.cpp)

    The handler the server installs runs the chain of the current configuration. It is shown
    to keep the contract of the request loop: it tries at most one answer, and it takes the
    body of a request by calls of its reader alone, or has the connection closed. *)

From S2P Require Import Prelude Records Str HttpMsg Body Buf HttpParse Ip InetText Rule Snap Router RouteCache Breaker UpsGroup Heads Forward RateLimit Ctx Mw Waf Auth Limits Ws Chain Conn.

(** ** What forwarding does to the body *)

Definition emits {A} (P : Ev -> Prop) (m : M A) : Prop :=
  forall s, Forall P (f_evs s) -> after m s (fun _ s' => Forall P (f_evs s')) (fun _ s' => Forall P (f_evs s')) True.

Section emits.
Context (P : Ev -> Prop).

Lemma emits_bind {A B} (m : M A) (f : A -> M B) : emits P m -> (forall a, emits P (f a)) -> emits P (bind_ m f).
Proof.
  intros Hm Hf s Hs. apply after_bind. eapply after_mono; [by apply Hm| |done|done]. intros a s' H. by apply Hf.
Qed.

Lemma emits_quiet {A} (m : M A) : (forall s, match m s with Go _ s' | Leave _ s' => f_evs s' = f_evs s | Spin => True end) -> emits P m.
Proof. intros H s Hs. unfold after. specialize (H s). destruct (m s); [by rewrite H..|done]. Qed.

Lemma emits_emit e : P e -> emits P (emit e).
Proof. intros He s Hs. unfold after, emit. cbn. by apply Forall_app_2; [|apply Forall_singleton]. Qed.

Lemma emits_self {A} (f : Fw -> M A) : (forall s, emits P (f s)) -> emits P (fun s => f s s).
Proof. intros H s Hs. by apply H. Qed.
End emits.

Section reading.
Context (env : nat -> Turn) (parse : list ascii -> Parsed) (g : Req) (ep : nat).

(** Every place the reader is said to be at is reached by calls. *)
Definition from_body (e : Ev) : Prop := match e with V_READ x => exists b, g_body g = Some b /\ reads b x | _ => True end.

Ltac emits_more := fail.
Ltac emits :=
  repeat first
    [ progress cbv zeta | solve [emits_more] | match goal with |- emits _ (bind_ _ _) => apply emits_bind; [|intros ?] | |- emits _ (emit _) => apply emits_emit; exact Logic.I end
    | match goal with
      | |- emits _ (tick _) => idtac | |- emits _ (ret_ _) => idtac | |- emits _ (leave _) => idtac | |- emits _ spin => idtac
      | |- emits _ (put_in _ _) => idtac | |- emits _ switch => idtac | |- emits _ is_reused => idtac | |- emits _ buf_empty => idtac
      end; apply emits_quiet; intros ?; reflexivity
    | match goal with |- emits _ (if ?b then _ else _) => destruct b | |- emits _ (match ?o with _ => _ end) => destruct o end ].

Lemma emits_end {A} out ret : emits from_body (end_ env g out ret : M A).
Proof. unfold end_. emits. Qed.

Ltac emits_more ::= match goal with |- emits _ (end_ _ _ _ _) => apply emits_end end.

Lemma emits_or_timeout {A} t out why : emits from_body (end_or_timeout env g t out why : M A).
Proof. unfold end_or_timeout, end_timeout. emits. Qed.

Lemma emits_armed want : emits from_body (armed env g want).
Proof. unfold armed, arm, end_timeout. emits. Qed.

Ltac emits_more ::= match goal with
  | |- emits _ (end_ _ _ _ _) => apply emits_end
  | |- emits _ (end_or_timeout _ _ _ _ _) => apply emits_or_timeout
  | |- emits _ (armed _ _ _) => apply emits_armed
  end.

Lemma emits_fresh : emits from_body (try_fresh env g).
Proof. unfold try_fresh. emits. Qed.

Lemma emits_resend : emits from_body (resend env g ep).
Proof. unfold resend, send_head. emits. Qed.

Lemma emits_send_request : emits from_body (send_request env g ep).
Proof. unfold send_request, send_head, end_timeout. emits; first [apply emits_fresh|apply emits_resend]. Qed.

Lemma emits_send_continue : emits from_body (send_continue env g).
Proof. unfold send_continue. emits. Qed.

Lemma emits_send_block bytes : emits from_body (send_block env g bytes).
Proof. unfold send_block. emits. Qed.

Lemma emits_send_blocks fuel b0 b : g_body g = Some b0 -> reads b0 b -> emits from_body (send_blocks env g fuel b).
Proof.
  intros Hb. revert b. induction fuel as [|fuel IH]; intros b Hr; cbn [send_blocks]; [emits|].
  destruct (readChunk [] b) as [[n chunk] b'] eqn:E.
  assert (Hr' : reads b0 b') by (replace b' with (readChunk [] b).2 by (by rewrite E); by apply RD_CALL).
  apply emits_bind; [apply emits_emit; by exists b0|intros _]. emits; [apply emits_send_block|by apply IH].
Qed.

Lemma emits_send_body : emits from_body (send_body env g).
Proof.
  unfold send_body. destruct (g_body g) as [b|] eqn:Eb; [|by apply emits_quiet].
  apply emits_bind; [apply (emits_send_blocks _ b b Eb), RD_NONE|intros b']. emits; apply emits_send_block.
Qed.

Lemma emits_await_head on_eof script buf : emits from_body on_eof -> emits from_body (await_head env g on_eof script buf).
Proof.
  intros He. revert buf. induction script as [|i script IH]; intros buf; cbn [await_head]; unfold bad_resp; emits; auto.
Qed.

Lemma emits_await_answer : emits from_body (await_answer env g ep).
Proof.
  assert (A : forall m, emits from_body m -> emits from_body (await env g m)).
  { intros m Hm. apply (emits_self from_body (fun s => await_head env g m (f_in s) (f_buf s))). intros s. by apply emits_await_head. }
  assert (B : emits from_body (bad_resp env g : M unit)) by (unfold bad_resp; emits).
  unfold await_answer. apply emits_bind; [apply A|intros _].
  - unfold retry_read. emits; first [apply emits_fresh|apply emits_resend|by apply A|exact B].
  - intros s Hs. unfold after. destruct (kMaxHead <? header_end (f_buf s)); [exact (B s Hs)|exact Hs].
Qed.

Lemma emits_read_more script buf : emits from_body (read_more env g script buf).
Proof.
  revert buf. induction script as [|i script IH]; intros buf; cbn [read_more]; emits; auto.
Qed.

Lemma emits_final_head more : emits from_body (final_head env parse g more).
Proof.
  induction more as [|more IH]; cbn [final_head]; unfold bad_resp, end_timeout; (apply emits_bind; [emits|intros _]);
    (apply emits_bind; [unfold read_up_head|intros r; emits; auto]).
  all: apply (emits_self from_body (fun s => r <- read_more env g (f_in s) (f_buf s);;
     match r with Some out => ret_ (inr out) | None => parse_up_head parse end)%fw); intros s;
    (apply emits_bind; [apply emits_read_more|intros r]); emits;
    apply emits_quiet; intros s'; unfold parse_up_head; cbv zeta; (destruct (_ <? _); [done|]); by destruct (_ || _).
Qed.

Lemma emits_relay f on_fail blocks : emits from_body on_fail -> emits from_body (relay env f on_fail blocks).
Proof. intros H. induction blocks as [|b blocks IH]; cbn [relay]; emits; auto. Qed.

Lemma emits_answer p : emits from_body (answer env g p).
Proof.
  assert (C : forall counted ret, emits from_body (client_fails counted ret)) by (intros; unfold client_fails, finish_; emits).
  unfold answer. emits; [apply C|]. unfold answer_body. intros s Hs. unfold after. destruct (body_blocks _) as [[blocks b]|]; [|done].
  cbv zeta. set (f := client_framing _). set (counted := counted_of _ _ _). set (hr := head_ret _ _ _).
  match goal with |- match ?m s with _ => _ end => assert (E : emits from_body m) end; [|exact (E s Hs)].
  apply emits_bind; [by apply emits_relay|intros _]. unfold relay_end, finish_. emits.
Qed.

End reading.

Lemma forward_reads env parse g eok acq script next r evs : forward env parse g eok (Some acq) script next = Some (r, evs) -> Forall (from_body g) evs.
Proof.
  unfold forward. destruct eok; [|by intros [= <- <-]]. cbn [negb].
  set (m := match a_endpoint acq with Some _ => _ | None => _ end).
  assert (Hm : emits (from_body g) m).
  { unfold m. destruct (a_endpoint acq) as [e|].
    - unfold forward_conn, Forward.ask.
      repeat match goal with |- emits _ (bind_ _ _) => apply emits_bind; [|intros ?] end;
        first [apply emits_send_request|apply emits_send_continue|apply emits_send_body|apply emits_await_answer|apply emits_final_head|apply emits_answer].
    - unfold no_connection. repeat first
        [ match goal with |- emits _ (bind_ _ _) => apply emits_bind; [|intros ?] | |- emits _ (emit _) => apply emits_emit; exact Logic.I
            | |- emits _ (match ?o with _ => _ end) => destruct o end
        | progress cbv zeta | apply emits_quiet; intros ?; reflexivity ]. }
  clearbody m. specialize (Hm (fw_init acq script next) (Forall_nil_2 _)). unfold after in Hm.
  by destruct (m _); intros [= <- <-].
Qed.

(** ** What a middleware does to the request and its body *)

(** The request stays and stays closed, and the body is taken by calls of the reader, unless
    the connection is to be closed; the loop's own reason to refuse is not given. *)
Record kept (cl cl' : Client) : Prop := {
  kp_request : l_request cl <> None -> l_request cl' <> None;
  kp_close : must_close cl -> must_close cl';
  kp_body b : l_request cl <> None -> l_reader cl = Some b ->
    must_close cl' \/ exists b', l_reader cl' = Some b' /\ reads b b';
  kp_cut : l_cut cl <> Q_NO_RESPONSE -> l_cut cl' <> Q_NO_RESPONSE }.

Lemma kept_same cl cl' : l_request cl' = l_request cl -> l_reader cl' = l_reader cl -> l_cut cl' = l_cut cl -> kept cl cl'.
Proof.
  intros E1 E2 E3. split; unfold must_close; rewrite ?E1, ?E2, ?E3; try done. intros b _ Hb. right. exists b. split; [done|apply RD_NONE].
Qed.

Lemma kept_trans cl cl' cl'' : kept cl cl' -> kept cl' cl'' -> kept cl cl''.
Proof.
  intros [A1 A2 A3 A4] [B1 B2 B3 B4]. split; [by auto..| |by auto]. intros b Hr Hb. destruct (A3 b Hr Hb) as [H|(b1 & H1 & H2)]; [left; by auto|].
  destruct (B3 b1 (A1 Hr) H1) as [H|(b2 & H3 & H4)]; [by left|right]. exists b2. split; [done|by apply (reads_trans b b1)].
Qed.

(** A change of the request that does not open it again. *)
Definition stays_closed (f : GwRequest -> GwRequest) : Prop := forall r, rq_close r = true -> rq_close (f r) = true.

Lemma kept_request f cl cl' : stays_closed f -> l_request cl' = f <$> l_request cl -> l_reader cl' = l_reader cl ->
  (l_cut cl <> Q_NO_RESPONSE -> l_cut cl' <> Q_NO_RESPONSE) -> kept cl cl'.
Proof.
  intros Hf E1 E2 E3. split.
  - rewrite E1. by destruct (l_request cl).
  - intros (r & H1 & H2). exists (f r). rewrite E1, H1. split; [done|by apply Hf].
  - intros b _ Hb. right. exists b. split; [by rewrite E2|apply RD_NONE].
  - exact E3.
Qed.

Lemma kept_closing cl : kept cl (close_request cl).
Proof. by apply (kept_request (fun r => r <| rq_close := true |>)). Qed.

(** Nothing is asked of the body of a request that closes. *)
Lemma kept_closed cl cl' : must_close cl -> l_request cl' = l_request cl -> l_cut cl' = l_cut cl -> kept cl cl'.
Proof. intros H E E2. split; unfold must_close; rewrite ?E, ?E2; auto. Qed.

Lemma close_closes cl : l_request cl <> None -> must_close (close_request cl).
Proof. intros H. unfold must_close, close_request. cbn. destruct (l_request cl) as [r|]; [|done]. eexists. split; [done|done]. Qed.

Section keeping.
Context {G : Type}.
#[local] Abbreviation Ctx := (@ReqCtx G).

Definition keeps (c c' : Ctx) : Prop := kept (c_conn c) (c_conn c').

Lemma keeps_conn (c c' : Ctx) : c_conn c' = c_conn c -> keeps c c'.
Proof. intros E. apply kept_same; by rewrite E. Qed.

Lemma keeps_trans (c c' c'' : Ctx) : keeps c c' -> keeps c' c'' -> keeps c c''.
Proof. apply kept_trans. Qed.

Lemma keeps_refl (c : Ctx) : keeps c c.
Proof. by apply keeps_conn. Qed.

Lemma on_request_keeps f (c : Ctx) : stays_closed f -> keeps c (on_request f c).
Proof. intros H. by apply (kept_request f). Qed.

Lemma commitResp_keeps st status t (c : Ctx) : keeps c (commitResp st status t c).
Proof. apply keeps_conn. unfold commitResp. destruct (negb (is_open _)); [destruct (_ || _)|]; done. Qed.

Lemma add_resp_hdr_keeps k v (c : Ctx) : keeps c (add_resp_hdr k v c).
Proof. apply keeps_conn. unfold add_resp_hdr. repeat case_match; done. Qed.

(** After [c'], which keeps what [c] had. *)
Lemma on_request_later f (c c' : Ctx) : stays_closed f -> keeps c c' -> keeps c (on_request f c').
Proof. intros Hf H. eapply keeps_trans; [exact H|by apply on_request_keeps]. Qed.

Lemma setAttr_later k v (c c' : Ctx) : keeps c c' -> keeps c (setAttr k v c').
Proof. intros H. eapply keeps_trans; [exact H|by apply keeps_conn]. Qed.

Lemma add_resp_hdr_later k v (c c' : Ctx) : keeps c c' -> keeps c (add_resp_hdr k v c').
Proof. intros H. eapply keeps_trans; [exact H|apply add_resp_hdr_keeps]. Qed.

Lemma commitResp_later st status t (c c' : Ctx) : keeps c c' -> keeps c (commitResp st status t c').
Proof. intros H. eapply keeps_trans; [exact H|apply commitResp_keeps]. Qed.

Lemma same_conn_later (c c' c'' : Ctx) : c_conn c'' = c_conn c' -> keeps c c' -> keeps c c''.
Proof. intros E H. eapply keeps_trans; [exact H|by apply keeps_conn]. Qed.

Section answering.
Context (env : nat -> Turn) (now : nat -> Z).

Lemma sendResponse_kept rsp body cl : kept cl (sendResponse env rsp body cl).2.
Proof.
  unfold sendResponse. destruct (force_body_err _ _ _) as [[r b] cl1] eqn:E.
  assert (H : kept cl cl1).
  { unfold force_body_err in E. destruct (_ || _); injection E as _ _ <-; [by apply kept_same|].
    apply (kept_request (fun r => r <| rq_close := true |>)); try done. intros _. cbn. by destruct (_ =? 413). }
  unfold write. cbn zeta. destruct (u_ok _); cbn [snd].
  - destruct (wants_close cl1); (eapply kept_trans; [exact H|]); [by apply (kept_request (fun r => r <| rq_close := true |>))|by apply kept_same].
  - eapply kept_trans; [exact H|]. by apply (kept_request (fun r => r <| rq_close := true |>)).
Qed.

Lemma writeFail_keeps (c : Ctx) : keeps c (writeFail now c).
Proof.
  unfold writeFail. cbv zeta. apply on_request_later; [done|]. eapply (same_conn_later _ (commitResp _ _ _ _)); [reflexivity|].
  apply commitResp_later. unfold markWriteFail. cbv zeta. destruct (0 <? _); by apply (kept_request (fun r => r <| rq_close := true |>)).
Qed.

Lemma reply_keeps status body headers close (c : Ctx) : keeps c (reply env now status body headers close c).
Proof.
  unfold reply. destruct (negb (is_open _)); [apply keeps_refl|]. cbv zeta.
  set (rsp := if negb (String.eqb body "") && _ then _ else _). set (c1 := if close then _ else _).
  assert (H : keeps c c1) by (unfold c1; destruct close; [by apply on_request_later, keeps_conn|by apply keeps_conn]).
  clearbody c1 rsp. pose proof (sendResponse_kept rsp body (c_conn c1)) as Hs. destruct (sendResponse _ _ _ _) as [[ok r] cl]. cbn in Hs.
  set (c2 := (c1 <| c_response := _ |>) <| c_conn := cl |>). assert (H2 : keeps c c2) by (apply (kept_trans _ _ _ H Hs)).
  destruct ok; [by apply commitResp_later|eapply keeps_trans; [exact H2|apply writeFail_keeps]].
Qed.

Lemma reply_later status body headers close (c c' : Ctx) : keeps c c' -> keeps c (reply env now status body headers close c').
Proof. intros H. eapply keeps_trans; [exact H|apply reply_keeps]. Qed.

Lemma writeFail_later (c c' : Ctx) : keeps c c' -> keeps c (writeFail now c').
Proof. intros H. eapply keeps_trans; [exact H|apply writeFail_keeps]. Qed.
End answering.

(** A middleware that keeps what it is given, if what comes after it does. *)
Definition keeping (m : @Middleware G) : Prop := forall next, (forall c, keeps c (next c)) -> forall c, keeps c (m next c).

Lemma run_keeps mws (c : Ctx) : Forall keeping mws -> keeps c (run mws c).
Proof.
  intros H. revert c. induction H as [|m mws Hm _ IH]; intros c; [apply keeps_refl|]. cbn [run].
  destruct (c_handled c); [apply keeps_refl|]. by apply Hm.
Qed.

Lemma next_later (next : Ctx -> Ctx) (c c' : Ctx) : (forall c, keeps c (next c)) -> keeps c c' -> keeps c (next c').
Proof. intros Hn H. eapply keeps_trans; [exact H|apply Hn]. Qed.
End keeping.

Ltac closed := solve [intros ? ?; first [reflexivity|assumption]].

(** Closes [keeps c c'] for a [c'] that is [c] after some of these. *)
Ltac keeps :=
  repeat first
    [ progress cbv zeta | apply keeps_refl | assumption
    | match goal with Hn : forall c, keeps c (?next c) |- keeps _ (?next _) => apply next_later; [exact Hn|] end
    | match goal with
      | |- keeps _ (reply _ _ _ _ _ _ _) => apply reply_later | |- keeps _ (refuse _ _ _ _ _ _ _) => apply reply_later
      | |- keeps _ (reply_status _ _ _ _) => apply reply_later | |- keeps _ (writeFail _ _) => apply writeFail_later
      | |- keeps _ (commitResp _ _ _ _) => apply commitResp_later
      | |- keeps _ (on_request _ _) => apply on_request_later; [closed|]
      | |- keeps _ (setAttr _ _ _) => apply setAttr_later | |- keeps _ (add_resp_hdr _ _ _) => apply add_resp_hdr_later
      | |- keeps _ (if ?b then _ else _) => destruct b
      | |- keeps _ (match ?o with _ => _ end) => destruct o
      end ].

(** ** The middlewares *)

Section middlewares.
Context {G : Type} (env : nat -> Turn) (now : nat -> Z) {IN : Inet} (peer : option Ip) (trusted : list Ip).
#[local] Abbreviation Ctx := (@ReqCtx G).
#[local] Abbreviation keeping := (@keeping G).

Lemma loadClientAddr_keeps (c : Ctx) : keeps c (loadClientAddr peer trusted c).2.
Proof.
  apply keeps_conn. unfold loadClientAddr. destruct (c_addr c); [done|]. destruct peer as [p|]; [|done]. by destruct (resolveClientAddr _ _ _).
Qed.

Lemma resolved_keeps (c : Ctx) : keeps c (resolved_client_ip peer trusted c).2.
Proof. unfold resolved_client_ip. pose proof (loadClientAddr_keeps c) as H. by destruct (loadClientAddr peer trusted c). Qed.

Lemma request_id_keeping h mix : keeping (MakeRequestIdMiddleware h mix).
Proof. intros next Hn c. unfold MakeRequestIdMiddleware, request_id. keeps. Qed.

Lemma client_addr_keeping : keeping (MakeClientAddrMiddleware peer trusted).
Proof. intros next Hn c. apply (next_later next c _ Hn), loadClientAddr_keeps. Qed.

Lemma access_log_keeping : keeping MakeStructuredAccessLogMiddleware.
Proof. intros next Hn c. apply Hn. Qed.

Lemma security_keeping opts : keeping (MakeSecurityHeadersMiddleware opts).
Proof. intros next Hn c. unfold MakeSecurityHeadersMiddleware, security_headers. cbn [fold_left fst snd]. keeps. Qed.

Lemma add_cors_hdrs_keeps opts pf (c : Ctx) : keeps c (add_cors_hdrs opts pf c).
Proof. unfold add_cors_hdrs. keeps. Qed.

Lemma cors_prepare_keeping opts : keeping (MakeCorsPrepareMiddleware opts).
Proof.
  intros next Hn c. unfold MakeCorsPrepareMiddleware, cors_prepare. pose proof (add_cors_hdrs_keeps opts (is_cors_preflight (request c)) c). keeps.
Qed.

Lemma finish_keeping : keeping (MakeFinishMiddleware env now).
Proof. intros next Hn c. unfold MakeFinishMiddleware. keeps. Qed.

Lemma ban_keeping on eval : keeping (MakeBanMiddleware env now peer trusted on eval).
Proof.
  intros next Hn c. unfold MakeBanMiddleware. destruct (negb on); [apply Hn|].
  pose proof (loadClientAddr_keeps c). destruct (loadClientAddr peer trusted c) as [ok c1]. cbn in *. keeps.
Qed.

Lemma ip_filter_keeping cfg addr : keeping (MakeIPFilterMiddleware env now cfg addr).
Proof. intros next Hn c. unfold MakeIPFilterMiddleware. keeps. Qed.

Lemma health_keeping path : keeping (MakeHealthCheckMiddleware env now path).
Proof. intros next Hn c. unfold MakeHealthCheckMiddleware. keeps. Qed.

Lemma cors_preflight_keeping : keeping (MakeCorsPreflightMiddleware env now).
Proof. intros next Hn c. unfold MakeCorsPreflightMiddleware. keeps. Qed.

Lemma maintenance_keeping opts gate : keeping (MakeMaintenanceMiddleware env now opts gate).
Proof. intros next Hn c. unfold MakeMaintenanceMiddleware. keeps. Qed.

Lemma waf_keeping cfg reporter : keeping (MakeWaf env now peer trusted cfg reporter).
Proof.
  intros next Hn c. unfold MakeWaf. destruct (negb _); [apply Hn|]. destruct (inspect _); [|apply Hn].
  pose proof (loadClientAddr_keeps c) as H. destruct (loadClientAddr peer trusted c) as [ok c1]. cbn in H. cbv zeta.
  apply reply_later. destruct (_ && _); [|done]. by apply (same_conn_later c c1).
Qed.

Lemma router_keeping match_ : keeping (MakeRouterMiddleware env now match_).
Proof.
  intros next Hn c. unfold MakeRouterMiddleware. cbv zeta. set (c1 := c <| c_route := _ |>).
  assert (H : keeps c c1) by by apply keeps_conn. clearbody c1. keeps.
Qed.

#[local] Existing Instance double.

Lemma rate_subject_keeps rule (c : Ctx) : keeps c (rate_subject peer trusted rule c).2.
Proof.
  unfold rate_subject. pose proof (resolved_keeps c) as H. destruct (resolved_client_ip peer trusted c) as [v c']. cbn in H.
  destruct (String.eqb _ "user"); [|done]. destruct (attr_str "jwt_sub" c) as [sub|]; [|done]. destruct (String.eqb sub ""); [done|apply keeps_refl].
Qed.

Lemma rate_report_keeps cfg name (c : Ctx) : keeps c (rate_report now peer trusted cfg name c).
Proof.
  unfold rate_report. pose proof (resolved_keeps c) as H. destruct (resolved_client_ip peer trusted c) as [v c']. cbn in H.
  destruct (String.eqb v ""); [done|]. destruct (parseCidr v); [|done]. destruct (bump429 _ _ _ _ _) as [win st]. cbv zeta.
  destruct (win =? 0); (eapply (same_conn_later c c'); [reflexivity|exact H]).
Qed.

Lemma route_rate_keeping reporter cfg : keeping (MakePerRouteRateLimitMiddleware env now peer trusted reporter cfg).
Proof.
  intros next Hn c. unfold MakePerRouteRateLimitMiddleware. destruct (rt_matched _); [|apply Hn].
  destruct (rt_rule _) as [route|]; [|apply Hn]. cbv zeta. destruct (negb _); [apply Hn|].
  pose proof (rate_subject_keeps (rr_rest route) c) as Hs. destruct (rate_subject _ _ _ _) as [[kt kv] c1]. cbn in Hs.
  destruct (ask _ _ _ _ _ _ _) as [[ok r] st]. set (c2 := c1 <| c_rate := st |>). assert (H : keeps c c2) by by apply (same_conn_later c c1).
  clearbody c2. destruct (negb ok); [|by apply next_later]. unfold too_many. destruct (reporter && _); [|by apply reply_later].
  eapply keeps_trans; [|apply rate_report_keeps]. by apply reply_later.
Qed.

Lemma set_user_vals_closed name vals : stays_closed (set_user_vals name vals).
Proof. intros r H. unfold set_user_vals. destruct vals as [l|]; [|done]. cbv zeta. by destruct (String.eqb _ ""). Qed.

Lemma fwd_user_later cfg (c c' : Ctx) : keeps c c' -> keeps c (fwd_user cfg c').
Proof.
  intros H. unfold fwd_user. destruct (negb _); [done|]. apply on_request_later; [|done]. intros r Hr. cbv zeta. do 2 apply set_user_vals_closed.
  destruct (attr_str _ c') as [sub|]; [|done]. by destruct (good_user_val sub).
Qed.

Lemma authenticate_keeps `{JwtLib} jcfg (c : Ctx) : keeps c (authenticate jcfg c).2.
Proof.
  unfold authenticate. do 3 (destruct (_ && _); [apply keeps_refl|]). destruct (request c); [|apply keeps_refl].
  destruct (bearer _); [|apply keeps_refl]. destruct (check_token _ _); [apply keeps_refl|]. cbn [snd]. unfold store_claims. keeps.
Qed.

Lemma route_auth_keeps SHA256 jwt cfg (c : Ctx) : (forall f c, jwt = Some f -> keeps c (f c).2) -> keeps c (route_auth SHA256 jwt cfg c).2.
Proof.
  intros Hj. unfold route_auth. cbv zeta. assert (H0 : keeps c (strip_user_hdrs cfg c)) by (unfold strip_user_hdrs; keeps).
  eapply keeps_trans; [exact H0|]. clear H0. generalize (strip_user_hdrs cfg c). clear c. intros c.
  repeat match goal with |- context [if ?b then _ else _] => destruct b end; cbn [snd]; try (unfold mark_auth; keeps).
  - unfold jwt_policy. set (q := match jwt with Some auth => auth c | None => (E_BadSig, c) end).
    assert (Hq : keeps c q.2) by (unfold q; destruct jwt as [f|]; [by apply Hj|apply keeps_refl]). clearbody q. destruct q as [e c1].
    cbn in Hq. cbv zeta. unfold mark_auth. do 2 (destruct (negb _); [cbn [snd]; keeps|]). cbn [snd]. apply fwd_user_later. keeps.
  - unfold api_key_policy, mark_auth. destruct (_ || _); [|cbn [snd]; keeps]. cbv zeta.
    set (c1 := match apikey_find _ _ _ with Some _ => _ | None => c end). assert (H : keeps c c1) by (unfold c1; keeps). clearbody c1.
    destruct (negb _); cbn [snd]; keeps.
Qed.

Lemma route_auth_keeping SHA256 jwt cfg : (forall f c, jwt = Some f -> keeps c (f c).2) ->
  keeping (MakeRouteAuthMiddleware SHA256 jwt cfg env now).
Proof.
  intros Hj next Hn c. unfold MakeRouteAuthMiddleware. pose proof (route_auth_keeps SHA256 jwt cfg c Hj) as H.
  destruct (route_auth _ _ _ c) as [[st|] c1]; cbn in H; keeps.
Qed.
End middlewares.

(** ** Upgrades *)

Section upgrades.
Context (env : nat -> Turn) (now : nat -> Z) (parse : list ascii -> Parsed) (sha1sum : string -> list ascii).
#[local] Abbreviation Ctx := (@ReqCtx GroupCfg).

Lemma tick_later (c c' : Ctx) : keeps c c' -> keeps c (tick_ctx env c').2.
Proof. intros H. eapply keeps_trans; [exact H|by apply kept_same]. Qed.

Lemma read_resp_head_keeps recvMs dueMs script (c : Ctx) buf : keeps c (read_resp_head env recvMs dueMs script c buf).2.
Proof.
  revert c buf. induction script as [|i script IH]; intros c buf; cbn [read_resp_head]; cbv zeta; unfold tick_ctx;
    (destruct (negb _); [apply keeps_refl|]); (destruct (65536 <? _); [apply keeps_refl|]); (destruct (_ && _); [by apply kept_same|]).
  - by apply kept_same.
  - destruct i as [a cs| |]; [|by apply kept_same..]. eapply keeps_trans; [|apply IH]. by apply kept_same.
Qed.

Lemma release_failed_keeps begin_ ret status evs (c c' : Ctx) : keeps c c' -> keeps c (release_failed env now begin_ ret status (evs, c')).2.
Proof. intros H. unfold release_failed, tick_ctx. cbn [fst snd]. apply reply_later. eapply keeps_trans; [exact H|by apply kept_same]. Qed.

Lemma send_client_keeps e (c : Ctx) : keeps c (send_client env e c).2.
Proof. by apply kept_same. Qed.

Lemma upgrade_keeps w ret extra rsp evs (c : Ctx) : request c <> None -> keeps c (upgrade env now w ret extra rsp (evs, c)).2.
Proof.
  intros Hr. unfold upgrade. cbv zeta. set (c0 := c <| c_response := _ |>). assert (H0 : keeps c c0) by by apply keeps_conn.
  assert (Hr0 : request c0 <> None) by exact Hr. clearbody c0. pose proof (send_client_keeps (L_RAW (client_101 c rsp)) c0) as H1.
  assert (Hr1 : request (send_client env (L_RAW (client_101 c rsp)) c0).2 <> None) by exact Hr0.
  destruct (send_client env _ c0) as [ok c1]. cbn [snd] in H1, Hr1. pose proof (keeps_trans _ _ _ H0 H1) as K1. destruct (negb ok); [by apply writeFail_later|].
  set (c2 := commitResp TUNNEL 101 _ _).
  assert (H2 : keeps c1 c2 /\ must_close (c_conn c2)).
  { unfold c2. split; [apply commitResp_later; by apply (kept_request (fun r => r <| rq_close := true |>))|].
    eapply kp_close; [apply commitResp_keeps|]. by apply close_closes. }
  destruct H2 as [H2 M2]. pose proof (keeps_trans _ _ _ K1 H2) as K2. clearbody c2.
  set (q := match extra with [] => (true, c2) | _ => send_client env (L_BYTES extra) c2 end).
  assert (H3 : keeps c2 q.2) by (unfold q; destruct extra; [apply keeps_refl|apply send_client_keeps]).
  clearbody q. destruct q as [ok3 c3]. cbn in H3. pose proof (keeps_trans _ _ _ K2 H3) as K3. destruct (negb ok3); [by apply writeFail_later|].
  assert (H4 : keeps c3 (takeBufferedInput c3).2).
  { apply kept_closed; [by apply H3|..]; unfold takeBufferedInput; by destruct (l_reader _). }
  destruct (takeBufferedInput c3) as [buffered c4]. cbn [snd] in H4. pose proof (keeps_trans _ _ _ K3 H4) as K4.
  set (q := match buffered with [] => (true, _, c4) | _ => _ end).
  assert (H5 : keeps c4 q.2) by (unfold q; destruct buffered; [apply keeps_refl|by apply kept_same]).
  clearbody q. destruct q as [[ok5 evs5] c5]. cbn in H5. pose proof (keeps_trans _ _ _ K4 H5) as K5. destruct (negb ok5); [by apply writeFail_later|].
  unfold run_pumps. destruct (w_pumps w) as [failed|]; [|by apply writeFail_later]. cbn [snd]. destruct failed; [by apply writeFail_later|done].
Qed.

Lemma tunnel_keeps connectMs recvMs w (c : Ctx) : keeps c (tunnel env now parse sha1sum connectMs recvMs w c).2.
Proof.
  assert (T : forall c' : Ctx, keeps c' (c' <| c_conn := (c_conn c') <| l_turn := S (l_turn (c_conn c')) |> |>)) by (intros c'; by apply kept_same).
  unfold tunnel. destruct (rt_upstream _) as [gr|]; [|apply reply_keeps]. destruct (request c) as [req|] eqn:Hr; [|apply reply_keeps].
  assert (Hn : request c <> None) by by rewrite Hr. clear Hr. unfold tick_ctx at 1. cbv zeta.
  set (c1 := c <| c_conn := _ |>). assert (K1 : keeps c c1) by apply T. assert (N1 : request c1 <> None) by exact Hn. clearbody c1.
  destruct (a_endpoint _) as [ep|].
  2: { unfold ws_no_connection, tick_ctx. cbv zeta. destruct (a_why _); apply reply_later; (eapply keeps_trans; [exact K1|apply T]). }
  unfold tick_ctx at 1. set (c2 := c1 <| c_conn := _ |>). assert (K2 : keeps c c2) by (eapply keeps_trans; [exact K1|apply T]).
  assert (N2 : request c2 <> None) by exact N1. clearbody c2. destruct (_ =? 0); [by apply reply_later|].
  destruct (gr_endpoint gr ep) as [host port]. unfold tick_ctx at 1. set (c3 := c2 <| c_conn := _ |>).
  assert (K3 : keeps c c3) by (eapply keeps_trans; [exact K2|apply T]). assert (N3 : request c3 <> None) by exact N2. clearbody c3.
  destruct (negb _).
  { unfold tick_ctx at 1. destruct (_ || _); apply release_failed_keeps; (eapply keeps_trans; [exact K3|apply T]). }
  unfold tick_ctx at 1. set (c4 := c3 <| c_conn := _ |>). assert (K4 : keeps c c4) by (eapply keeps_trans; [exact K3|apply T]).
  assert (N4 : request c4 <> None) by exact N3. clearbody c4.
  set (q := if _ =? 0 then (None, true, c4) else _).
  assert (H5 : keeps c4 q.2) by (unfold q; destruct (_ =? 0); [apply keeps_refl|apply read_resp_head_keeps]). clearbody q.
  destruct q as [[got timeout] c5]. cbn in H5. pose proof (keeps_trans _ _ _ K4 H5) as K5. pose proof (kp_request _ _ H5 N4) as N5.
  destruct got as [[head extra]|].
  - destruct (parse_101 _ _ _ _) as [rsp|]; [|by apply release_failed_keeps]. unfold tick_ctx at 1.
    eapply keeps_trans; [|apply upgrade_keeps; exact N5]. eapply keeps_trans; [exact K5|apply T].
  - unfold tick_ctx at 1. destruct (_ || _); apply release_failed_keeps; (eapply keeps_trans; [exact K5|apply T]).
Qed.

Lemma ws_keeping connectMs idleMs w : keeping (MakeWebSocketTunnelStub env now parse sha1sum connectMs idleMs w).
Proof.
  intros next Hn c. unfold MakeWebSocketTunnelStub. destruct (request c) as [req|]; [|apply Hn].
  destruct (rq_websocket req); [apply tunnel_keeps|apply Hn].
Qed.
End upgrades.

(** ** Forwarding *)

Section forwarding.
Context (env : nat -> Turn) (now : nat -> Z) {IN : Inet} (peer : option Ip) (trusted : list Ip).
#[local] Abbreviation Ctx := (@ReqCtx GroupCfg).

(** An event leaves the body where forwarding says it is. *)
Lemma apply_event_keeps g e (c0 c : Ctx) : g_body g = l_reader (c_conn c0) -> from_body g e -> keeps c0 c -> keeps c0 (apply_event now c e).
Proof.
  intros Hg He H. destruct e; cbn [apply_event]; cbv zeta; try exact H;
    try solve [first [apply commitResp_later; by apply (same_conn_later c0 c)|by apply writeFail_later
      |apply on_request_later; [closed|done]|eapply keeps_trans; [exact H|by apply kept_same]]].
  - destruct H as [H1 H2 _ H4]. split; [exact H1|exact H2| |exact H4]. intros b0 _ Hb. right.
    destruct He as (b1 & E & Hr). rewrite Hg, Hb in E. injection E as <-. eexists. split; [reflexivity|exact Hr].
  - eapply keeps_trans; [exact H|]. unfold keeps. cbn [c_conn set].
    destruct ok; cbn [negb orb]; [|by apply (kept_request (fun r => r <| rq_close := true |>))].
    match goal with |- context [wants_close ?x] => destruct (wants_close x) end;
      [by apply (kept_request (fun r => r <| rq_close := true |>))|by apply kept_same].
Qed.

Lemma events_keep g evs (c0 c : Ctx) : g_body g = l_reader (c_conn c0) -> Forall (from_body g) evs -> keeps c0 c ->
  keeps c0 (fold_left (apply_event now) evs c).
Proof.
  intros Hg H. revert c. induction H as [|e evs He _ IH]; intros c Hc; [done|]. by apply IH, (apply_event_keeps g).
Qed.

Lemma proxy_keeping connectMs recvMs out : keeping (MakeProxyMiddleware env now peer trusted connectMs recvMs out).
Proof.
  intros next _ c. unfold MakeProxyMiddleware. destruct (negb _); [apply reply_keeps|].
  destruct (rt_upstream _) as [gr|]; [|apply reply_keeps]. destruct (request c) as [req|]; [|apply reply_keeps]. cbv zeta.
  destruct (forward _ _ _ _ _ _ _) as [[r evs]|] eqn:E; [|apply keeps_refl]. apply forward_reads in E.
  assert (H : keeps c (fold_left (apply_event now) evs c)).
  { eapply events_keep; [|exact E|apply keeps_refl]. unfold proxy_req. by destruct (c_addr _). }
  set (c1 := fold_left _ _ _) in *. clearbody c1. unfold reply_result. keeps.
Qed.
End forwarding.

(** ** The handler *)

(** What the handler of the [n]-th request of a connection finds: the configuration of the
    moment with its trusted proxies, the state of the limiter, which all connections share,
    whether requests are traced, and the clock. *)
Record World := mkWorld {
  wd_cfg : nat -> option (list Ip * ChainCfg); wd_rate : nat -> @RateState double; wd_trace : nat -> bool; wd_start : nat -> Z }.

Section handler.
Context (env : nat -> Turn) (now : nat -> Z) {IN : Inet} (peer : option Ip) (peerAddr : string)
  {JL : JwtLib} (SHA256 : string -> list Z) (sha1sum : string -> list ascii) (w : World).

(** The lambda the process installs. Without a configuration it does nothing. *)
Definition handle (n : nat) (cl : Client) : Client * nat :=
  match wd_cfg w n with
  | None => (cl, S n)
  | Some (trusted, cfg) =>
      let c := ctx_init cl (wd_rate w n) (wd_start w n) in
      let c := if wd_trace w n then (loadClientAddr peer trusted c).2 else c in
      (c_conn (run (gateway_chain env now peer peerAddr trusted SHA256 sha1sum cfg) c), S n)
  end.

Lemma gateway_chain_keeping trusted cfg : Forall keeping (gateway_chain env now peer peerAddr trusted SHA256 sha1sum cfg).
Proof.
  unfold gateway_chain, outer_chain, inner_chain. apply Forall_app. split.
  { repeat first [apply Forall_nil_2|apply Forall_cons_2];
      [apply request_id_keeping|apply client_addr_keeping|apply access_log_keeping|apply security_keeping|apply cors_prepare_keeping]. }
  apply Forall_cons. split; [apply finish_keeping|]. apply Forall_app. split; [|apply Forall_app; split].
  - repeat first [apply Forall_nil_2|apply Forall_cons_2];
      [destruct (ch_guard cfg) as [[on eval]|]; [apply ban_keeping|apply ip_filter_keeping]
      |apply health_keeping|apply cors_preflight_keeping|apply maintenance_keeping].
  - destruct (wc_on _); repeat first [apply Forall_nil_2|apply Forall_cons_2]. apply waf_keeping.
  - repeat first [apply Forall_nil_2|apply Forall_cons_2];
      [apply router_keeping|apply route_auth_keeping|apply route_rate_keeping|apply ws_keeping|apply proxy_keeping].
    intros f c E. destruct (ch_jwt cfg); [|done]. injection E as <-. apply authenticate_keeps.
Qed.

Lemma handle_answers n cl trusted cfg : wd_cfg w n = Some (trusted, cfg) -> fresh cl ->
  settled_client (handle n cl).1 /\ (l_responded (handle n cl).1 = true \/ l_writeFailed (handle n cl).1 = true).
Proof.
  intros E (F1 & F2 & F3). unfold handle. rewrite E. cbn [fst]. set (c0 := ctx_init _ _ _). set (c := if wd_trace w n then _ else c0).
  assert (Hs : same_answer c0 c) by (unfold c; destruct (wd_trace w n); [apply loadClientAddr_same|done]).
  destruct (run_answers (outer_chain peer trusted cfg) (MakeFinishMiddleware env now)
    (inner_chain env now peer peerAddr trusted SHA256 sha1sum cfg) c) as [H Ho];
    [apply outer_transparent|apply finish_closing|apply inner_lawful|by apply (settled_same c0)|by destruct Hs as [_ -> _ _ _]|].
  unfold gateway_chain. unfold settled, settled_client in *. destruct (c_state _); try done; destruct H as (A1 & A2 & A3); auto.
Qed.

Lemma handle_keeps n cl : kept cl (handle n cl).1.
Proof.
  unfold handle. destruct (wd_cfg w n) as [[trusted cfg]|]; [|by apply kept_same]. cbn [fst].
  set (c0 := ctx_init _ _ _). set (c := if wd_trace w n then _ else c0). change cl with (c_conn c0). apply (kept_trans _ (c_conn c)).
  - unfold c. destruct (wd_trace w n); [apply loadClientAddr_keeps|by apply kept_same].
  - apply run_keeps, gateway_chain_keeping.
Qed.

(** The contract of the request loop. *)
#[export] Instance handle_lawful : RequestHandler handle.
Proof.
  split.
  - intros n cl F1 F2 F3. destruct (wd_cfg w n) as [[trusted cfg]|] eqn:E; [by apply (handle_answers n cl trusted cfg)|].
    unfold handle. rewrite E. by left.
  - intros n cl b. apply handle_keeps.
Qed.
End handler.

(** ** No request is left to the loop *)

Section left.
Context {S : Type} (env : nat -> Turn) (parse : list ascii -> ReqParsed) (opts : GatewayOptions)
  (draining : nat -> bool) (h : S -> Client -> Client * S) (use : nat -> Z * Z).
#[local] Abbreviation Conn := (Conn S).

(** What a handler that always answers promises. *)
Context (Hans : forall s cl, fresh cl -> l_cut cl <> Q_NO_RESPONSE ->
  (l_responded (h s cl).1 = true \/ l_writeFailed (h s cl).1 = true) /\ l_cut (h s cl).1 <> Q_NO_RESPONSE).

Definition answered_by_handler (sv : Served) : Prop := handled sv = true -> sv_cut sv <> Q_NO_RESPONSE.

Lemma answer_rest_cut (c : Conn) : l_responded (n_cl c) = true \/ l_writeFailed (n_cl c) = true -> l_cut (n_cl c) <> Q_NO_RESPONSE ->
  l_cut (n_cl (answer_rest env c).2) <> Q_NO_RESPONSE.
Proof.
  intros Ha Hc. unfold answer_rest. set (q := match l_reader (n_cl c) with Some b => _ | None => _ end).
  assert (Hq : (l_responded (n_cl q.2) = true \/ l_writeFailed (n_cl q.2) = true) /\ l_cut (n_cl q.2) <> Q_NO_RESPONSE).
  { unfold q. destruct (l_reader (n_cl c)) as [b|]; [|done]. destruct (_ && _); [|done]. cbv zeta.
    set (large := match m_errorCode b with RE_TOO_LARGE => true | _ => false end). set (cl := (n_cl c) <| l_cut := _ |>).
    destruct (sendError_sends env (if large then 413 else 400) cl) as (_ & E2 & E3 & _); [by destruct large|].
    split; [exact E3|]. cbn [snd]. change (l_cut (sendError env (if large then 413 else 400) cl) <> Q_NO_RESPONSE).
    rewrite E2. unfold cl. cbn. by destruct large. }
  clearbody q. destruct q as [stop c1]. destruct Hq as [Hq1 Hq2]. cbn [snd] in Hq1, Hq2. cbv iota beta. destruct (l_responded (n_cl c1)); [exact Hq2|].
  by destruct Hq1 as [?| ->].
Qed.

Lemma handle_request_cut (c : Conn) : fresh (n_cl c) -> l_cut (n_cl c) <> Q_NO_RESPONSE ->
  Forall answered_by_handler (n_served c) -> Forall answered_by_handler (n_served (handle_request env opts draining (Some h) use c).2).
Proof.
  intros Hf Hc Hs. unfold handle_request, run_handler. cbn [n_cl n_shared set].
  destruct (Hans (n_shared c) (n_cl c) Hf Hc) as [A1 A2]. destruct (h (n_shared c) (n_cl c)) as [cl s]. cbn [fst] in A1, A2.
  match goal with |- context [answer_rest env ?x] => set (c2 := x) end. pose proof (answer_rest_cut c2 A1 A2) as A3.
  assert (A4 : n_served (answer_rest env c2).2 = n_served c).
  { unfold answer_rest. destruct (l_reader _) as [b|]; [destruct (_ && _)|]; repeat case_match; done. }
  destruct (answer_rest env c2) as [stop c3]. cbn [snd] in A3, A4. cbv zeta. set (c4 := finishReq _ _ c3).
  assert (H4 : Forall answered_by_handler (n_served c4)).
  { change (n_served c4) with (n_served c3 ++ [mkServed STAGE_HANDLE (handle_result (n_cl c3)) (l_lastStatus (n_cl c3)) (l_cut (n_cl c3)) (l_out (n_cl c3))]).
    rewrite A4. apply Forall_app. split; [done|]. apply Forall_singleton. by intros _. }
  clearbody c4. destruct stop; [done|]. destruct (closes opts c4); [done|]. unfold poll. destruct (draining _); [done|].
  set (c5 := c4 <| n_polls := _ |>). pose proof (drain_served c5) as E5. destruct (drain_req_body c5) as [ok c6]. cbn [snd] in E5.
  assert (H6 : Forall answered_by_handler (n_served c6)) by (rewrite E5; exact H4).
  destruct ok; [|done]. cbn. unfold maybe_trim_buf. by destruct (use _).
Qed.

(** A head that was read gives no reason to refuse. *)
Lemma read_req_head_cut (c : Conn) : let '(rt, c') := read_req_head env parse opts c in 0 < rt -> l_cut (n_cl c') = l_cut (n_cl c).
Proof.
  unfold read_req_head. destruct (head_loop _ _ _) as [[e buf] script]. destruct e as [len| | | |pending]; try done.
  unfold take_head. destruct (_ >? _); [done|]. destruct (_ || _); [done|]. destruct (getBodyFraming _) as [fr p].
  destruct (negb _); [done|]. by destruct (_ && _).
Qed.

Lemma round_cut (c : Conn) : Forall answered_by_handler (n_served c) ->
  Forall answered_by_handler (n_served (round env parse opts draining (Some h) use c).2).
Proof.
  intros Hs. unfold round, poll. destruct (draining _); [done|]. destruct (_ >=? _); [done|]. set (c1 := begin_request _).
  pose proof (read_req_head_fresh env parse opts c1 ltac:(done)) as Hr. pose proof (read_req_head_cut c1) as Hc.
  destruct (read_req_head env parse opts c1) as [rt c2]. destruct Hr as (E1 & _ & Hr).
  assert (Hs2 : Forall answered_by_handler (n_served c2)) by (rewrite E1; exact Hs). btest (rt <=? 0).
  - destruct (_ && _); [|done]. cbn. apply Forall_app. split; [done|]. apply Forall_singleton. done.
  - apply handle_request_cut; [by apply Hr| |done]. rewrite Hc by lia. done.
Qed.

Lemma process_loop_cut fuel (c c' : Conn) : Forall answered_by_handler (n_served c) ->
  process_loop env parse opts draining (Some h) use fuel c = Some c' -> Forall answered_by_handler (n_served c').
Proof.
  revert c. induction fuel as [|fuel IH]; intros c Hs; [done|]. cbn [process_loop]. pose proof (round_cut c Hs) as H.
  destruct (round env parse opts draining (Some h) use c) as [more c1]. destruct more; [by apply IH|]. by intros [= <-].
Qed.
End left.

(** C3: the gateway as a whole. A connection to a gateway with a configuration is served to
    its end, whatever the client sends, however the upstreams answer and however the
    configuration, the limiter and the clock change from request to request: for every
    request whose head was read the chain tried exactly one answer, or a write failed, and
    after at most one more when the body could not be read; no request is left to the loop's
    own 500; and their number is the one the loop counts, at most the configured one. *)
Theorem gateway_serves (env : nat -> Turn) (now : nat -> Z) {IN : Inet} (peer : option Ip) (peerAddr : string)
    {JL : JwtLib} (SHA256 : string -> list Z) (sha1sum : string -> list ascii) (w : World)
    (parse : list ascii -> ReqParsed) (opts : GatewayOptions) (draining : nat -> bool) (use : nat -> Z * Z) (script : list Input) :
  0 <= o_maxKeepAliveRequests opts <= UINT32_MAX -> (forall n, wd_cfg w n <> None) ->
  exists c', process env parse opts draining (Some (handle env now peer peerAddr SHA256 sha1sum w)) use (conn_start opts script 0%nat) = Some c' /\
    Forall served_ok (n_served c') /\ Forall answered_by_handler (n_served c') /\
    Z.of_nat (length (List.filter handled (n_served c'))) = n_req_count c' /\ n_req_count c' <= o_maxKeepAliveRequests opts.
Proof.
  intros [H0 Hm] Hcfg. set (h := handle _ _ _ _ _ _ _). unfold process.
  destruct (process_loop_ends env parse opts draining (Some h) use (Datatypes.S (Z.to_nat (o_maxKeepAliveRequests opts)))
    (conn_start opts script 0%nat)) as [c' E]; [done|done|cbn; lia|].
  exists c'. split; [exact E|]. pose proof E as E'. apply process_loop_serves in E as (E1 & E2 & E3);
    [|by intros ? [= <-]; apply handle_lawful|done|cbn; lia|done|done].
  split; [done|]. split; [|by split; [|lia]]. refine (process_loop_cut env parse opts draining h use _ _ (conn_start opts script 0%nat) c' (Forall_nil_2 _) E').
  intros n cl Hf Hc. destruct (wd_cfg w n) as [[trusted cfg]|] eqn:En; [|by apply Hcfg in En].
  split; [by apply (handle_answers _ _ _ _ _ _ _ n cl trusted cfg)|by apply handle_keeps].
Qed.

(** ** Witness *)

Definition sample_world : World :=
  mkWorld (fun _ => Some ([], sample_chain true)) (fun _ => rate_init (A := double) 10 0) (fun _ => true) (fun _ => 9).

#[local] Abbreviation sample_handle :=
  (handle (IN := TextInet) Conn.calm (fun _ => 9) None "10.0.0.9" (JL := sample_lib) no_hash sample_sha1 sample_world).

(** Two requests in one segment. The upstream closes on the first, whose body the chain leaves
    behind, and answers the second. *)
Lemma gateway_serves_witness : exists c',
  process Conn.calm Conn.sample_parse sample_opts (fun _ => false) (Some sample_handle) (fun _ => (0, 0)) (conn_start sample_opts pipelined 0%nat) = Some c' /\
  Forall served_ok (n_served c') /\ Forall answered_by_handler (n_served c') /\
  served_summary c' = [(true, 502, 1%nat); (true, 200, 1%nat)] /\ coming c' = [].
Proof.
  destruct (gateway_serves (IN := TextInet) Conn.calm (fun _ => 9) None "10.0.0.9" (JL := sample_lib) no_hash sample_sha1 sample_world
    Conn.sample_parse sample_opts (fun _ => false) (fun _ => (0, 0)) pipelined) as (c' & E & H1 & H2 & _);
    [vm_compute; split; discriminate|intros n E; discriminate E|].
  exists c'. split; [exact E|]. split; [exact H1|]. split; [exact H2|].
  assert (X : (fun c => (served_summary c, coming c)) <$> process Conn.calm Conn.sample_parse sample_opts (fun _ => false) (Some sample_handle)
    (fun _ => (0, 0)) (conn_start sample_opts pipelined 0%nat) = Some ([(true, 502, 1%nat); (true, 200, 1%nat)], []))
    by (vm_compute; reflexivity).
  rewrite E in X. cbn [fmap option_fmap option_map] in X. injection X as X1 X2. by split.
Defined.
