(* ===== verification/Daemon.v ===== *)
(** * The process of the hub (src/ipban/include/daemon.h, src/ipban/daemon.cpp, the registry of
      src/ipban/session.cpp)

    Three acceptors, a coroutine for every connection, the sessions, a timer, and threads that
    start and stop: every critical section and every other access to what they share is a
    step, and steps interleave freely. What the kernel, the peers, the clock and the database
    answer is the label of the step. A session is what [Session] models; here it lives, may
    become ready, and at some time ends. Log lines and the removal of socket files are left
    out. *)

From S2P Require Import Prelude Records Ip InetText Rule Snap Json Wire Guard Db PolicyState Engine EngineCore EnginePersist Proto Session.

(** ** Data *)

Record DaemonOpts := mkDaemonOpts {
  do_submitPath : string; do_subscribePath : string; do_adminPath : string; do_expiryTickMs : Z; do_helloTimeoutMs : Z;
  do_ackTimeoutMs : Z; do_stopTimeoutMs : Z; do_sameUidOnly : bool; do_dbPath : string; do_persistMinTtlMs : Z }.

Inductive Side := SIDE_SUBMIT | SIDE_SUB | SIDE_ADMIN.

(** The counters of links. *)
Record LinkStat := mkLinkStat {
  l_accepts : Z; l_closes : Z; l_link0 : Z; l_link1 : Z; l_link2 : Z; l_frameErr : Z; l_msgErr : Z;
  l_ackTimeout : Z; l_pongTimeout : Z; l_forced : Z; l_peak : Z }.

(** How a session ended. *)
Record Ending := mkEnding { en_why : StopWhy; en_frame : FrameErr; en_msg : MsgErr; en_forced : bool }.

(** [finishStop], and [drop] with it. *)
Inductive FinPc := F_LOCK | F_FLUSH | F_DB (ok : bool) | F_STOPPED.
Inductive DropPc := D_SUB | D_LOAD | D_FIN (f : FinPc) | D_OVER.

(** [acceptLoop]; from [A_COUNT] on [serveSubscribe]. *)
Inductive AccPc :=
  | A_TEST | A_ACCEPT | A_FAILED | A_TEST2 (c : nat) | A_UID (c : nat) | A_HOLD (c : nat) | A_POST (c : nat)
  | A_COUNT (c : nat) | A_SHOLD (c : nat) | A_ADD (c : nat) | A_SIZE (c : nat) | A_PEAK (c : nat) (size : Z) | A_START (c : nat) | A_CHECK (c : nat).

Inductive SubmitPc := B_INSERT | B_TEST | B_RECV | B_EDIT (r : Risk) | B_ERASE | B_CLOSE.
Inductive AdminPc :=
  | C_INSERT | C_TEST | C_RECV | C_EDIT (kind : Kind) (seq : Z) (body : string) | C_SEND (seq : Z) (res : CtlRes) | C_ERASE | C_CLOSE.
Inductive SessPc := U_LIVE | U_NOTE (e : Ending) | U_REMOVE.

(** [beginStop], [forceStop] and [stop]; [here]: called on the manager's own thread. *)
Inductive StopKind := K_BEGIN | K_FORCE | K_STOP (here : bool) | K_LAST.
Inductive StopPc :=
  | G_CAS | G_STARTED | G_TIMER | G_CLOSE | G_STOPALL | G_LOAD | G_FIN (f : FinPc) | G_AFTER
  | G_WAIT | H_CAS | H_SNAP | H_ALL | G_WAIT2 | G_END.
Inductive StartPc := S_STARTED | S_RUN | S_HOLD1 | S_HOLD2 | S_POST1 | S_POST2 | S_HOLD3 | S_POST3 | S_TIMER.

Inductive Thread :=
  | ACCEPTOR (side : Side) (pc : AccPc) | SUBMITTER (c : nat) (pc : SubmitPc) | ADMINISTRATOR (c : nat) (pc : AdminPc)
  | SESSION (c : nat) (pc : SessPc) | STOPPER (k : StopKind) (pc : StopPc) | STARTER (pc : StartPc) | TICK
  | LEAVING (d : DropPc) | DEAD.

(** A [Daemon]: its members ([d_sessions], [d_insts], [d_over]: the registry, the instances of its
    sessions and those that are CLOSED; [d_told]: the sessions told to stop; [d_closed]: the
    connections [forceStop] closed). What it is compared with: [d_last], the engine when it let go
    of the database and whether the flush before that went well; [d_forced]: a [forceStop] has been
    through everything; [d_raced]: [start] and a stop overlapped; [d_threw]: a coroutine ended by
    an exception. *)
Record Daemon := mkDaemon {
  d_opts : DaemonOpts; d_engine : Engine; d_onChange : bool;
  d_started : bool; d_running : bool; d_stopping : bool; d_stopped : bool; d_forceOnce : bool;
  d_active : Z; d_finishing : bool; d_listen : bool; d_timer : bool; d_next : nat;
  d_sessions : gset nat; d_insts : gmap nat string; d_over : gset nat; d_told : gset nat;
  d_req : gset nat; d_closed : gset nat; d_links : LinkStat; d_results : list (nat * Z * CtlRes);
  d_threads : list Thread;
  d_last : option (bool * Engine); d_forced : bool; d_raced : bool; d_threw : bool }.

Definition daemon_new (o : DaemonOpts) (random : Z) : Daemon :=
  mkDaemon o (engine_init random) false false false false false false 0 false false false 0 ∅ ∅ ∅ ∅ ∅ ∅
    (mkLinkStat 0 0 0 0 0 0 0 0 0 0 0) [] [] None false false false.

(** What the world answers to a step. *)
Inductive Reply :=
  | R_GO | R_CONN | R_FAIL (fatal : bool) | R_OK (ok : bool) | R_MSG (m : option (Kind * Z * string))
  | R_EDIT (sql sql' : nat -> bool) (now : Z) | R_ENDS (e : Ending) | R_BIND (inst : string).

(** ** Links *)

Definition noteClose (e : Ending) (l : LinkStat) : LinkStat :=
  let one (b : bool) (n : Z) := if b then n + 1 else n in
  let slot := match en_why e with W_NONE | W_LOCAL | W_PEER => 0 | W_REPLACED => 1 | _ => 2 end in
  mkLinkStat (l_accepts l) (l_closes l + 1) (one (slot =? 0) (l_link0 l)) (one (slot =? 1) (l_link1 l)) (one (slot =? 2) (l_link2 l))
    (one (negb (bool_decide (en_frame e = FrNone))) (l_frameErr l))
    (one (match en_msg e with ME_NONE => false | _ => true end) (l_msgErr l))
    (one (match en_why e with W_ACK_TIMEOUT => true | _ => false end) (l_ackTimeout l))
    (one (match en_why e with W_PONG_TIMEOUT => true | _ => false end) (l_pongTimeout l))
    (one (en_forced e) (l_forced l)) (l_peak l).

(** [SessionRegistry::bind]: the other sessions of the same instance. *)
Definition bind_sess (c : nat) (inst : string) (s : Daemon) : gset nat :=
  filter (fun old => old <> c /\ inst <> ""%string /\ d_insts s !! old = Some inst /\ old ∉ d_over s) (d_sessions s).

Definition is_starter (t : Thread) : bool := match t with STARTER _ => true | _ => false end.

Section daemon.
Context {IN : Inet} {JL : JsonLib} {SS : StdSort}.

(** ** [hold], [drop], [finishStop] *)

Definition hold (s : Daemon) : Daemon := s <| d_active := d_active s + 1 |>.

Definition fin_step (f : FinPc) (a : Reply) (s : Daemon) : option (option FinPc * Daemon) :=
  match f, a with
  | F_LOCK, R_GO =>
      if d_finishing s then None
      else if d_stopped s then Some (None, s)
      else Some (Some F_FLUSH, (s <| d_finishing := true |>) <| d_onChange := false |>)
  | F_FLUSH, R_EDIT sql _ _ =>
      let e := d_engine s in
      let '(ok, p) := flushPersistence sql (e_pers e) in
      Some (Some (F_DB ok), s <| d_engine := mkEngine (e_core e) (e_seen e) p (e_epoch e) |>)
  | F_DB ok, R_GO =>
      Some (Some F_STOPPED, (s <| d_last := Some (ok, d_engine s) |>) <| d_engine := setDb None 300000 (d_engine s) |>)
  | F_STOPPED, R_GO => Some (None, (s <| d_stopped := true |>) <| d_finishing := false |>)
  | _, _ => None
  end.

Definition drop_step (d : DropPc) (a : Reply) (s : Daemon) : option (DropPc * Daemon) :=
  match d, a with
  | D_SUB, R_GO =>
      let s' := s <| d_active := d_active s - 1 |> in
      Some (if d_active s =? 1 then (D_LOAD, s' <| d_raced := d_raced s' || existsb is_starter (d_threads s') |>)
            else (D_OVER, s'))
  | D_LOAD, R_GO => Some (if d_stopping s then D_FIN F_LOCK else D_OVER, s)
  | D_FIN f, a => match fin_step f a s with Some (Some f, s) => Some (D_FIN f, s) | Some (None, s) => Some (D_OVER, s) | None => None end
  | _, _ => None
  end.

(** ** [start] *)

Definition good_config (iom : bool) (s : Daemon) : bool :=
  let o := d_opts s in
  iom && negb (do_expiryTickMs o =? 0) && negb (do_helloTimeoutMs o =? 0) && negb (do_ackTimeoutMs o =? 0) && negb (do_stopTimeoutMs o =? 0)
  && negb (String.eqb (do_submitPath o) "") && negb (String.eqb (do_subscribePath o) "")
  && negb (String.eqb (do_submitPath o) (do_subscribePath o))
  && (String.eqb (do_adminPath o) "" || negb (String.eqb (do_submitPath o) (do_adminPath o) || String.eqb (do_subscribePath o) (do_adminPath o)))
  && negb (d_started s).

(** What [open], [restore] and the three [listenUds] gave. *)
Record Opening := mkOpening { op_db : option DbState; op_sql : bool; op_now : Z; op_submit : bool; op_sub : bool; op_admin : bool }.

(** Up to the sockets: whether [start] goes on. *)
Definition start_open (iom : bool) (w : Opening) (s : Daemon) : bool * Daemon :=
  let o := d_opts s in
  if negb (good_config iom s) then (false, s)
  else
    let '(ok, e) :=
      if String.eqb (do_dbPath o) "" then (true, d_engine s)
      else
        match op_db w with
        | None => (false, d_engine s)
        | Some db =>
            let '(ok, e) := restore (op_sql w) (op_now w) (setDb (Some db) (do_persistMinTtlMs o) (d_engine s)) in
            (ok, if ok then e else setDb None 300000 e)
        end in
    let s := s <| d_engine := e |> in
    if negb ok then (false, s)
    else if negb (op_submit w && op_sub w && (String.eqb (do_adminPath o) "" || op_admin w)) then (false, s <| d_engine := setDb None 300000 e |>)
    else (true, (s <| d_onChange := true |>) <| d_listen := true |>).

Definition has_admin (s : Daemon) : bool := negb (String.eqb (do_adminPath (d_opts s)) "").

Definition starter_step (pc : StartPc) (s : Daemon) : Thread * Daemon * list Thread :=
  match pc with
  | S_STARTED => (STARTER S_RUN, s <| d_started := true |>, [])
  | S_RUN => (STARTER S_HOLD1, s <| d_running := true |>, [])
  | S_HOLD1 => (STARTER S_HOLD2, hold s, [])
  | S_HOLD2 => (STARTER S_POST1, hold s, [])
  | S_POST1 => (STARTER S_POST2, s, [ACCEPTOR SIDE_SUBMIT A_TEST])
  | S_POST2 => (STARTER (if has_admin s then S_HOLD3 else S_TIMER), s, [ACCEPTOR SIDE_SUB A_TEST])
  | S_HOLD3 => (STARTER S_POST3, hold s, [])
  | S_POST3 => (STARTER S_TIMER, s, [ACCEPTOR SIDE_ADMIN A_TEST])
  | S_TIMER => (LEAVING D_OVER, s <| d_timer := true |>, [])
  end.

(** ** Accepting *)

(** After the checks: a session, or a coroutine for one request after another. *)
Definition serve (side : Side) (c : nat) : AccPc := match side with SIDE_SUB => A_COUNT c | _ => A_HOLD c end.

Definition acceptor_step (side : Side) (pc : AccPc) (a : Reply) (s : Daemon) : option (Thread * Daemon * list Thread) :=
  let stay pc s := Some (ACCEPTOR side pc, s, []) in
  let leave s := Some (LEAVING D_SUB, s, []) in
  match pc, a with
  | A_TEST, R_GO => if d_running s then stay A_ACCEPT s else leave s
  | A_ACCEPT, R_CONN => stay (A_TEST2 (d_next s)) (s <| d_next := S (d_next s) |>)
  | A_ACCEPT, R_FAIL fatal => if fatal : bool then leave s else stay A_FAILED s
  | A_FAILED, R_GO => if d_running s then stay A_TEST s else leave s
  | A_TEST2 c, R_GO => if d_running s then stay (if do_sameUidOnly (d_opts s) then A_UID c else serve side c) s else leave s
  | A_UID c, R_OK ok => stay (if ok : bool then serve side c else A_TEST) s
  | A_HOLD c, R_GO => stay (A_POST c) (hold s)
  | A_POST c, R_GO =>
      Some (ACCEPTOR side A_TEST, s, [match side with SIDE_ADMIN => ADMINISTRATOR c C_INSERT | _ => SUBMITTER c B_INSERT end])
  | A_COUNT c, R_GO => stay (A_SHOLD c) (s <| d_links := (d_links s) <| l_accepts := l_accepts (d_links s) + 1 |> |>)
  | A_SHOLD c, R_GO => stay (A_ADD c) (hold s)
  | A_ADD c, R_GO => stay (A_SIZE c) (s <| d_sessions := {[c]} ∪ d_sessions s |>)
  | A_SIZE c, R_GO => stay (A_PEAK c (Z.of_nat (size (d_sessions s)))) s
  | A_PEAK c n, R_GO => stay (A_START c) (s <| d_links := (d_links s) <| l_peak := Z.max (l_peak (d_links s)) n |> |>)
  | A_START c, R_GO => Some (ACCEPTOR side (A_CHECK c), s, [SESSION c U_LIVE])
  | A_CHECK c, R_GO => stay A_TEST (if d_running s then s else s <| d_told := {[c]} ∪ d_told s |>)
  | _, _ => None
  end.

(** ** Requests *)

(** A message is read off a connection that was not closed under it. *)
Definition may_read (c : nat) (m : option (Kind * Z * string)) (s : Daemon) : bool :=
  match m with Some _ => negb (bool_decide (c ∈ d_closed s)) | None => true end.

Definition submit_step (c : nat) (pc : SubmitPc) (a : Reply) (s : Daemon) : option (Thread * Daemon) :=
  let stay pc s := Some (SUBMITTER c pc, s) in
  match pc, a with
  | B_INSERT, R_GO => stay B_TEST (s <| d_req := {[c]} ∪ d_req s |>)
  | B_TEST, R_GO => stay (if d_running s then B_RECV else B_ERASE) s
  | B_RECV, R_MSG m =>
      if negb (may_read c m s) then None
      else
        match m with
        | Some (kind, _, body) =>
            if bool_decide (kind = RISK) then
              match riskFromJson body with
              | Parsed r => stay (B_EDIT r) s
              | Rejected => stay B_ERASE s
              | Threw => Some (DEAD, s <| d_threw := true |>)
              end
            else stay B_ERASE s
        | None => stay B_ERASE s
        end
  | B_EDIT r, R_EDIT sql _ now =>
      if d_running s then stay B_TEST (s <| d_engine := (onRisk sql now r (d_engine s)).2 |>) else stay B_ERASE s
  | B_ERASE, R_GO => stay B_CLOSE (s <| d_req := d_req s ∖ {[c]} |>)
  | B_CLOSE, R_GO => Some (LEAVING D_SUB, s)
  | _, _ => None
  end.

Definition no_res : CtlRes := mkCtlRes false false 0 "" "" [].
Definition res_error_only (t : string) : CtlRes := mkCtlRes false false 0 "" t [].
Definition res_of_edit (r : EditRes) : CtlRes :=
  mkCtlRes (String.eqb (er_error r) "" && er_durable r) (er_changed r) (er_version r) (er_id r) (er_error r) [].

Definition id_lt (a b : Rule) : bool := String.ltb (rule_id a) (rule_id b).

(** What an administrator's message does, under the lock. *)
Definition admin_edit (sql : nat -> bool) (now : Z) (kind : Kind) (body : string) (s : Daemon) : parsed (CtlRes * Engine) :=
  let e := d_engine s in
  if negb (d_running s) then Parsed (res_error_only "stopping", e)
  else if bool_decide (kind = PUT) then
    match ctlPutFromJson body with
    | Parsed put => let '(r, _, e) := setAdmin sql now (put_ip put) (put_action put) (put_ttlMs put) (put_reason put) e in Parsed (res_of_edit r, e)
    | Rejected => Parsed (res_error_only "bad_put", e)
    | Threw => Threw
    end
  else if bool_decide (kind = DEL) then
    match ctlDelFromJson body with
    | Parsed id => let '(r, _, e) := remove sql id e in Parsed (res_of_edit r, e)
    | Rejected => Parsed (res_error_only "bad_del", e)
    | Threw => Threw
    end
  else if bool_decide (kind = LIST) && String.eqb body "" then
    Parsed (mkCtlRes true false (c_ver (e_core e)) "" "" (std_sort id_lt (rules e)), e)
  else Parsed (res_error_only "bad_kind", e).

Definition admin_step (c : nat) (pc : AdminPc) (a : Reply) (s : Daemon) : option (Thread * Daemon) :=
  let stay pc s := Some (ADMINISTRATOR c pc, s) in
  match pc, a with
  | C_INSERT, R_GO => stay C_TEST (s <| d_req := {[c]} ∪ d_req s |>)
  | C_TEST, R_GO => stay (if d_running s then C_RECV else C_ERASE) s
  | C_RECV, R_MSG m =>
      if negb (may_read c m s) then None
      else match m with Some (kind, seq, body) => stay (C_EDIT kind seq body) s | None => stay C_ERASE s end
  | C_EDIT kind seq body, R_EDIT sql _ now =>
      match admin_edit sql now kind body s with
      | Parsed (res, e) => stay (C_SEND seq res) (s <| d_engine := e |>)
      | _ => Some (DEAD, s <| d_threw := true |>)
      end
  | C_SEND seq res, R_GO => stay C_ERASE (s <| d_results := d_results s ++ [(c, seq, res)] |>)
  | C_ERASE, R_GO => stay C_CLOSE (s <| d_req := d_req s ∖ {[c]} |>)
  | C_CLOSE, R_GO => Some (LEAVING D_SUB, s)
  | _, _ => None
  end.

(** [readyFn] and [doneFn] of a session. *)
Definition session_step (c : nat) (pc : SessPc) (a : Reply) (s : Daemon) : option (Thread * Daemon) :=
  match pc, a with
  | U_LIVE, R_BIND inst =>
      match d_insts s !! c with
      | Some _ => None
      | None =>
          let s := s <| d_insts := <[c := inst]> (d_insts s) |> in
          Some (SESSION c U_LIVE, s <| d_told := bind_sess c inst s ∪ d_told s |>)
      end
  | U_LIVE, R_ENDS e => Some (SESSION c (U_NOTE e), s <| d_over := {[c]} ∪ d_over s |>)
  | U_NOTE e, R_GO => Some (SESSION c U_REMOVE, s <| d_links := noteClose e (d_links s) |>)
  | U_REMOVE, R_GO => Some (LEAVING D_SUB, s <| d_sessions := d_sessions s ∖ {[c]} |>)
  | _, _ => None
  end.

(** ** Stopping *)

(** Where a call goes on after [beginStop]. *)
Definition after_begin (k : StopKind) : StopPc :=
  match k with K_BEGIN => G_END | K_FORCE | K_LAST => H_CAS | K_STOP here => if here then G_END else G_WAIT end.

Definition after_force (k : StopKind) : StopPc := match k with K_LAST => G_WAIT2 | _ => G_END end.

Definition stopper_step (k : StopKind) (pc : StopPc) (a : Reply) (s : Daemon) : option (Thread * Daemon) :=
  let stay pc s := Some (STOPPER k pc, s) in
  match pc, a with
  | G_CAS, R_GO =>
      if d_stopping s then stay G_AFTER s
      else stay G_STARTED (((s <| d_stopping := true |>) <| d_running := false |>) <| d_raced := d_raced s || existsb is_starter (d_threads s) |>)
  | G_STARTED, R_GO => if d_started s then stay G_TIMER s else stay G_AFTER (s <| d_stopped := true |>)
  | G_TIMER, R_GO => stay G_CLOSE (s <| d_timer := false |>)
  | G_CLOSE, R_GO => stay G_STOPALL (s <| d_listen := false |>)
  | G_STOPALL, R_GO => stay G_LOAD (s <| d_told := d_sessions s ∪ d_told s |>)
  | G_LOAD, R_GO => stay (if d_active s =? 0 then G_FIN F_LOCK else G_AFTER) s
  | G_FIN f, a => match fin_step f a s with Some (Some f, s) => stay (G_FIN f) s | Some (None, s) => stay G_AFTER s | None => None end
  | G_AFTER, R_GO => stay (after_begin k) s
  | G_WAIT, R_OK ok => if (ok : bool) && negb (d_stopped s) then None else if ok then stay G_END s else Some (STOPPER K_LAST G_CAS, s)
  | H_CAS, R_GO => if d_forceOnce s then stay (after_force k) s else stay H_SNAP (s <| d_forceOnce := true |>)
  | H_SNAP, R_GO =>
      stay H_ALL ((s <| d_closed := d_req s ∪ d_closed s |>)
                    <| d_links := (d_links s) <| l_forced := l_forced (d_links s) + Z.of_nat (size (d_req s)) |> |>)
  | H_ALL, R_GO => stay (after_force k) ((s <| d_told := d_sessions s ∪ d_told s |>) <| d_forced := true |>)
  | G_WAIT2, R_OK ok => if (ok : bool) && negb (d_stopped s) then None else stay G_END s
  | _, _ => None
  end.

(** ** All together *)

Definition alone (r : option (Thread * Daemon)) : option (Thread * Daemon * list Thread) :=
  match r with Some (t, s) => Some (t, s, []) | None => None end.

Definition thread_step (t : Thread) (a : Reply) (s : Daemon) : option (Thread * Daemon * list Thread) :=
  match t with
  | ACCEPTOR side pc => acceptor_step side pc a s
  | SUBMITTER c pc => alone (submit_step c pc a s)
  | ADMINISTRATOR c pc => alone (admin_step c pc a s)
  | SESSION c pc => alone (session_step c pc a s)
  | STOPPER k pc => alone (stopper_step k pc a s)
  | STARTER pc => match a with R_GO => Some (starter_step pc s) | _ => None end
  | TICK =>
      match a with
      | R_EDIT sql sql' now =>
          Some (LEAVING D_OVER, if d_running s then s <| d_engine := (tickExpiry sql sql' now (d_engine s)).2 |> else s, [])
      | _ => None
      end
  | LEAVING d => match drop_step d a s with Some (d, s) => Some (LEAVING d, s, []) | None => None end
  | DEAD => None
  end.

(** [L_START]: a thread calls [start]; one does at a time. [L_FIRE]: the timer fires. *)
Inductive Label := L_START (iom : bool) (w : Opening) | L_STOP (k : StopKind) | L_FIRE | L_STEP (i : nat) (a : Reply).

Definition spawn (t : list Thread) (s : Daemon) : Daemon := s <| d_threads := d_threads s ++ t |>.

Definition step (l : Label) (s : Daemon) : option Daemon :=
  match l with
  | L_START iom w =>
      if existsb is_starter (d_threads s) then None
      else
        let '(ok, s) := start_open iom w s in
        Some (if ok : bool then spawn [STARTER S_STARTED] (s <| d_raced := d_raced s || d_stopping s |>) else s)
  | L_STOP k => Some (spawn [STOPPER k G_CAS] s)
  | L_FIRE => if d_timer s then Some (spawn [TICK] s) else None
  | L_STEP i a =>
      match d_threads s !! i with
      | None => None
      | Some t =>
          match thread_step t a s with
          | Some (t, s, new) => Some (s <| d_threads := <[i := t]> (d_threads s) ++ new |>)
          | None => None
          end
      end
  end.

Fixpoint run (ls : list Label) (s : Daemon) : option Daemon :=
  match ls with [] => Some s | l :: ls => match step l s with Some s => run ls s | None => None end end.

End daemon.

(** ** Who holds the daemon *)

Fixpoint zsum {A} (f : A -> Z) (l : list A) : Z := match l with [] => 0 | x :: l => f x + zsum f l end.

Definition holds (t : Thread) : Z :=
  match t with
  | ACCEPTOR _ (A_POST _ | A_ADD _ | A_SIZE _ | A_PEAK _ _ | A_START _) => 2
  | ACCEPTOR _ _ | SUBMITTER _ _ | ADMINISTRATOR _ _ | SESSION _ _ | LEAVING D_SUB | DEAD => 1
  | STARTER S_POST1 => 2
  | STARTER (S_HOLD2 | S_POST2 | S_POST3) => 1
  | _ => 0
  end.

Definition fin_of (t : Thread) : option FinPc :=
  match t with LEAVING (D_FIN f) => Some f | STOPPER _ (G_FIN f) => Some f | _ => None end.

(** It has the lock of [finishStop]. *)
Definition finishes (t : Thread) : Z := match fin_of t with Some (F_FLUSH | F_DB _ | F_STOPPED) => 1 | _ => 0 end.

(** It saw nobody hold the daemon. *)
Definition saw_none (t : Thread) : bool := match t with LEAVING D_LOAD => true | _ => match fin_of t with Some _ => true | None => false end end.

(** It runs only when [start] has set [m_started]; after the exchange of [beginStop]. *)
Definition needs_started (t : Thread) : bool :=
  match t with
  | STARTER S_STARTED | TICK | LEAVING D_OVER => false
  | STOPPER _ (G_TIMER | G_CLOSE | G_STOPALL | G_LOAD | G_FIN _) => true
  | STOPPER _ _ => false
  | _ => true
  end.

Definition past_cas (t : Thread) : bool :=
  match t with
  | LEAVING (D_FIN _) | STOPPER _ (G_STARTED | G_TIMER | G_CLOSE | G_STOPALL | G_LOAD | G_FIN _) => true
  | _ => false
  end.

(** It will see whether [finishStop] is to be run. *)
Definition on_way (t : Thread) : bool := match t with LEAVING D_LOAD => true | _ => past_cas t end.

(** How many steps a thread, and those it starts, have left once [m_running] is false. *)
Definition fin_left (f : FinPc) : Z := match f with F_LOCK => 4 | F_FLUSH => 3 | F_DB _ => 2 | F_STOPPED => 1 end.

Definition stop_left (k : StopKind) (pc : StopPc) : Z :=
  match pc with
  | G_END => 0
  | G_WAIT => 16
  | _ =>
      match k with K_LAST => 0 | _ => 16 end +
      match pc with
      | G_CAS => 15 | G_STARTED => 14 | G_TIMER => 13 | G_CLOSE => 12 | G_STOPALL => 11 | G_LOAD => 10
      | G_FIN f => 5 + fin_left f | G_AFTER => 5 | H_CAS => 4 | H_SNAP => 3 | H_ALL => 2 | _ => 1
      end
  end.

Definition left_of (insts : gmap nat string) (t : Thread) : Z :=
  match t with
  | LEAVING d => match d with D_SUB => 6 | D_LOAD => 5 | D_FIN f => fin_left f | D_OVER => 0 end
  | ACCEPTOR _ pc =>
      match pc with
      | A_TEST | A_FAILED | A_TEST2 _ => 7 | A_ACCEPT | A_CHECK _ => 8 | A_POST _ => 18 | A_HOLD _ | A_START _ => 19
      | A_PEAK _ _ => 20 | A_SIZE _ => 21 | A_ADD _ => 22 | A_SHOLD _ => 23 | A_COUNT _ => 24 | A_UID _ => 25
      end
  | SUBMITTER _ pc => match pc with B_CLOSE => 7 | B_ERASE => 8 | B_EDIT _ | B_TEST => 9 | B_RECV | B_INSERT => 10 end
  | ADMINISTRATOR _ pc =>
      match pc with C_CLOSE => 7 | C_ERASE => 8 | C_SEND _ _ | C_TEST => 9 | C_EDIT _ _ _ | C_INSERT => 10 | C_RECV => 11 end
  | SESSION c pc => match pc with U_REMOVE => 7 | U_NOTE _ => 8 | U_LIVE => match insts !! c with None => 10 | Some _ => 9 end end
  | STOPPER k pc => stop_left k pc
  | STARTER _ | DEAD => 0
  | TICK => 1
  end.

Definition steps_left (s : Daemon) : Z := zsum (left_of (d_insts s)) (d_threads s).

(** It waits for a peer, for the kernel or for its session; or it is gone without letting go. *)
Definition waits (t : Thread) : bool :=
  match t with
  | ACCEPTOR _ A_ACCEPT | SUBMITTER _ B_RECV | ADMINISTRATOR _ C_RECV | SESSION _ U_LIVE | DEAD => true
  | _ => false
  end.

Definition own (a : Reply) : bool := match a with R_GO | R_OK _ | R_EDIT _ _ _ => true | _ => false end.

Definition is_step (l : Label) : bool := match l with L_STEP _ _ => true | _ => false end.

Definition starting (s : Daemon) : bool := existsb is_starter (d_threads s).

(** Nobody holds the daemon, and nobody will. *)
Definition idle (s : Daemon) : Prop := d_started s = true /\ starting s = false /\ d_active s = 0.

Definition t_good (s : Daemon) (t : Thread) : Prop :=
  (needs_started t = true -> d_started s = true) /\ (past_cas t = true -> d_stopping s = true) /\
  (saw_none t = true -> idle s) /\
  match fin_of t with
  | Some (F_FLUSH | F_DB _) => d_finishing s = true /\ d_stopped s = false /\ d_last s = None
  | Some F_STOPPED => d_finishing s = true /\ d_stopped s = false /\ d_last s <> None
  | _ => True
  end.

Record calm (s : Daemon) : Prop := {
  cm_stop : d_stopping s = true -> d_running s = false /\ starting s = false;
  cm_fin : d_finishing s = true -> d_stopping s = true /\ idle s;
  cm_last : d_last s <> None -> d_stopping s = true /\ idle s /\ (d_finishing s = true \/ d_stopped s = true);
  cm_stopped : d_stopped s = true -> d_stopping s = true /\ (d_started s = true -> d_last s <> None) }.

Lemma zsum_app {A} (f : A -> Z) l k : zsum f (l ++ k) = zsum f l + zsum f k.
Proof. induction l as [|x l IH]; cbn; [done|]. lia. Qed.

Lemma zsum_insert {A} (f : A -> Z) l i x y : l !! i = Some x -> zsum f (<[i := y]> l) = zsum f l - f x + f y.
Proof.
  intros H. rewrite insert_take_drop by (by eapply lookup_lt_Some). rewrite <- (take_drop_middle l i x H) at 3.
  rewrite !zsum_app. cbn [zsum]. lia.
Qed.

Lemma zsum_nonneg {A} (f : A -> Z) l : (forall x, 0 <= f x) -> 0 <= zsum f l.
Proof. intros H. induction l as [|x l IH]; cbn; [lia|]. specialize (H x). lia. Qed.

Lemma zsum_zero {A} (f : A -> Z) l : (forall x, 0 <= f x) -> zsum f l = 0 -> forall x, x ∈ l -> f x = 0.
Proof.
  intros H. induction l as [|y l IH]; cbn; intros E x Hx; [by apply elem_of_nil in Hx|].
  pose proof (H y). pose proof (zsum_nonneg f l H). apply elem_of_cons in Hx as [->|Hx]; [lia|apply IH; [lia|done]].
Qed.

Lemma zsum_two {A} (f : A -> Z) l i j x y : (forall x, 0 <= f x) -> i <> j -> l !! i = Some x -> l !! j = Some y -> f x + f y <= zsum f l.
Proof.
  intros H Hij Hx Hy. assert (E : <[i := x]> l !! j = Some y) by by rewrite list_lookup_insert_ne.
  revert i j Hij Hx Hy E. induction l as [|z l IH]; intros [|i] [|j] Hij Hx Hy _; simplify_eq/=.
  - clear IH Hij. apply list_elem_of_lookup_2 in Hy. induction l as [|u l IH]; [by apply elem_of_nil in Hy|].
    cbn. pose proof (H u). pose proof (zsum_nonneg f l H). apply elem_of_cons in Hy as [->|Hy]; [lia|specialize (IH Hy); lia].
  - clear IH Hij. apply list_elem_of_lookup_2 in Hx. induction l as [|u l IH]; [by apply elem_of_nil in Hx|].
    cbn. pose proof (H u). pose proof (zsum_nonneg f l H). apply elem_of_cons in Hx as [->|Hx]; [lia|specialize (IH Hx); lia].
  - pose proof (H z). assert (f x + f y <= zsum f l); [|lia]. apply (IH i j); [congruence|done..|]. rewrite list_lookup_insert_ne; [done|congruence].
Qed.

Lemma zsum_le_but {A} (f g : A -> Z) l i x : (forall x, f x <= g x) -> l !! i = Some x -> zsum f l - f x <= zsum g l - g x.
Proof.
  intros H. assert (L : forall l, zsum f l <= zsum g l).
  { intros k. induction k as [|y k IH]; cbn; [lia|]. specialize (H y). lia. }
  revert i. induction l as [|y l IH]; intros [|i] Hx; simplify_eq/=; [specialize (L l); lia|].
  specialize (IH _ Hx). specialize (H y). lia.
Qed.

Lemma zsum_some {A} (f : A -> Z) l : zsum f l <> 0 -> exists i x, l !! i = Some x /\ f x <> 0.
Proof.
  induction l as [|x l IH]; cbn; [done|]. intros H. destruct (decide (f x = 0)) as [E|E].
  - destruct IH as (i & y & Hi & Hy); [lia|]. by exists (S i), y.
  - by exists 0%nat, x.
Qed.

Lemma holds_nonneg t : 0 <= holds t.
Proof. destruct t as [? []| | | | |[]| |[]|]; cbn; lia. Qed.

Lemma finishes_nonneg t : 0 <= finishes t.
Proof. unfold finishes. destruct (fin_of t) as [[]|]; lia. Qed.

#[local] Arguments onRisk : simpl never.
#[local] Arguments setAdmin : simpl never.
#[local] Arguments remove : simpl never.
#[local] Arguments tickExpiry : simpl never.
#[local] Arguments flushPersistence : simpl never.
#[local] Arguments riskFromJson : simpl never.
#[local] Arguments admin_edit : simpl never.
#[local] Arguments bind_sess : simpl never.
#[local] Arguments noteClose : simpl never.
#[local] Arguments setDb : simpl never.

(** Case analysis on a step of a thread. *)
Ltac step_cases t a H :=
  destruct t as [? []|? []|? []|? []|? [| | | | | |[]| | | | | | |]|[]| |[| |[]|]|];
  destruct a; cbn in H; try discriminate H; unfold alone, hold, serve, after_begin, after_force in H;
  repeat first [case_match | progress simplify_eq/=]; try discriminate.

(** Uses the facts whose premise is at hand, splits the goal. *)
Ltac forward_facts :=
  repeat match goal with
  | H : ?x = ?x -> _ |- _ => specialize (H eq_refl)
  | H : false = true -> _ |- _ => clear H
  | H : true = false -> _ |- _ => clear H
  | H : _ /\ _ |- _ => destruct H
  | H : ?P -> _, H' : ?P |- _ => specialize (H H')
  | H : _ || _ = false |- _ => apply orb_false_iff in H
  end.

Section stepping.
Context {IN : Inet} {JL : JsonLib} {SS : StdSort}.

Lemma thread_step_threads t a s t' s' new : thread_step t a s = Some (t', s', new) -> d_threads s' = d_threads s.
Proof. intros H. step_cases t a H; done. Qed.

(** Who holds the daemon is counted. *)
Lemma thread_step_active t a s t' s' new : thread_step t a s = Some (t', s', new) ->
  d_active s' = d_active s - holds t + holds t' + zsum holds new.
Proof. intros H. step_cases t a H; lia. Qed.

Definition b2Z (b : bool) : Z := if b then 1 else 0.

Lemma thread_step_finishes t a s t' s' new :
  thread_step t a s = Some (t', s', new) -> (finishes t = 1 -> d_finishing s = true) ->
  b2Z (d_finishing s') = b2Z (d_finishing s) - finishes t + finishes t' + zsum finishes new.
Proof.
  intros H Hf. step_cases t a H; try lia; unfold finishes in *; cbn in *; 
    try (rewrite Hf by done); unfold b2Z; repeat match goal with E : d_finishing _ = _ |- _ => rewrite E end; lia.
Qed.

(** What is set stays set. *)
Lemma thread_step_forward t a s t' s' new : thread_step t a s = Some (t', s', new) ->
  (d_started s = true -> d_started s' = true) /\ (d_stopping s = true -> d_stopping s' = true) /\
  (d_stopped s = true -> d_stopped s' = true) /\ (d_raced s' = false -> d_raced s = false) /\
  (d_last s <> None -> d_last s' <> None) /\ (is_starter t = false -> is_starter t' = false) /\
  existsb is_starter new = false /\ (d_running s = false -> is_starter t = false -> d_running s' = false).
Proof. intros H. step_cases t a H; split_and!; try done; by destruct (d_raced s). Qed.
Lemma no_last s : calm s -> d_finishing s = false -> d_stopped s = false -> d_last s = None.
Proof. intros [_ _ C _] ??. destruct (d_last s); [|done]. destruct C as (_ & _ & [?|?]); congruence. Qed.

(** What a thread does is good for itself and what it starts. *)
Lemma thread_step_good t a s t' s' new : thread_step t a s = Some (t', s', new) ->
  d_raced s' = false -> calm s -> t_good s t -> t_good s' t' /\ Forall (t_good s') new.
Proof.
  intros H. step_cases t a H; intros Hr C (G1 & G2 & G3 & G4); pose proof (no_last _ C); destruct C as [C1 C2 C3 C4];
    unfold idle, starting in *; cbn in Hr, G1, G2, G3, G4;
    (split; [|repeat (apply List.Forall_cons || apply List.Forall_nil)]); unfold t_good, idle, starting; cbn;
    forward_facts; split_and!; intros; try (done || congruence || lia || (split_and!; done || lia)).
Qed.

(** When nobody holds the daemon, whoever takes a step still does not. *)
Lemma thread_step_idle t a s t' s' new : thread_step t a s = Some (t', s', new) ->
  holds t = 0 -> is_starter t = false -> holds t' = 0 /\ new = [].
Proof. intros H. step_cases t a H; intros; lia || done. Qed.

(** Only who has the lock, or takes it, changes what it protects. *)
Lemma thread_step_lock t a s t' s' new : thread_step t a s = Some (t', s', new) ->
  finishes t = 1 \/ (d_finishing s' = d_finishing s \/ d_finishing s = false) /\ d_last s' = d_last s /\
    (d_stopped s' = d_stopped s \/ d_finishing s = d_finishing s' /\ needs_started t = false /\ past_cas t = true /\ d_started s = false).
Proof. intros H. step_cases t a H; first [by left|right; by split_and!; auto]. Qed.
Lemma thread_step_calm t a s t' s' new : thread_step t a s = Some (t', s', new) ->
  (idle s -> holds t = 0) -> (starting s = false -> is_starter t = false) ->
  d_raced s' = false -> calm s -> t_good s t -> calm s'.
Proof.
  intros H. step_cases t a H; intros Hh Hs Hr [C1 C2 C3 C4] (G1 & G2 & G3 & G4);
    unfold idle, starting in *; cbn in Hr, Hh, Hs, G1, G2, G3, G4; first [by constructor|constructor]; unfold idle, starting; cbn; intros;
    forward_facts; try (done || congruence || (split_and!; (done || auto)));
    exfalso; match type of Hh with _ -> ?E => enough E by lia end; apply Hh; (tauto || done).
Qed.
(** ** The invariant *)

Record d_inv (s : Daemon) : Prop := {
  iv_active : d_active s = zsum holds (d_threads s);
  iv_lock : b2Z (d_finishing s) = zsum finishes (d_threads s);
  iv_calm : d_raced s = false -> calm s /\ Forall (t_good s) (d_threads s) }.

Lemma d_inv_new o random : d_inv (daemon_new o random).
Proof. constructor; [done|done|]. intros _. split; [|done]. by constructor. Qed.

Lemma idle_nobody s : d_inv s -> idle s -> forall t, t ∈ d_threads s -> holds t = 0.
Proof. intros [Ha _ _] (_ & _ & H0) t Ht. eapply zsum_zero; [apply holds_nonneg| |exact Ht]. lia. Qed.

Lemma not_starting s t : starting s = false -> t ∈ d_threads s -> is_starter t = false.
Proof.
  unfold starting. intros E Ht. destruct (is_starter t) eqn:Et; [|done].
  assert (X : existsb is_starter (d_threads s) = true); [|congruence]. apply existsb_exists. exists t. split; [by apply list_elem_of_In|done].
Qed.

Lemma starting_insert l i t t' new :
  existsb is_starter l = false -> is_starter t = false -> l !! i = Some t -> (is_starter t = false -> is_starter t' = false) ->
  existsb is_starter new = false -> existsb is_starter (<[i := t']> l ++ new) = false.
Proof.
  intros Hl Ht Hi Hs Hn. rewrite existsb_app, Hn, orb_false_r. apply not_true_is_false. intros (x & Hx & Ex)%existsb_exists.
  apply list_elem_of_In, list_elem_of_lookup in Hx as (j & Hx). rewrite list_lookup_insert in Hx.
  repeat case_decide; simplify_eq.
  - specialize (Hs Ht). congruence.
  - assert (X : existsb is_starter l = true); [|congruence]. apply existsb_exists. exists x. split; [|done].
    apply list_elem_of_In. by eapply list_elem_of_lookup_2.
Qed.

(** [t_good] and [calm] only look at flags. *)
Lemma t_good_more s s' t : t_good s t ->
  d_started s' = d_started s -> d_stopping s' = d_stopping s -> (idle s -> idle s') ->
  d_finishing s' = d_finishing s -> d_stopped s' = d_stopped s -> d_last s' = d_last s -> t_good s' t.
Proof. unfold t_good. intros (H1 & H2 & H3 & H4) -> -> Hi -> -> ->. split_and!; auto. Qed.

Lemma calm_more s s' : calm s ->
  d_started s' = d_started s -> d_stopping s' = d_stopping s -> d_running s' = d_running s -> (idle s -> idle s') ->
  d_finishing s' = d_finishing s -> d_stopped s' = d_stopped s -> d_last s' = d_last s ->
  (d_stopping s = true -> starting s' = false) -> calm s'.
Proof.
  intros [C1 C2 C3 C4] E1 E2 E3 Hi E4 E5 E6 Hs. constructor; rewrite ?E1, ?E2, ?E3, ?E4, ?E5, ?E6; try done.
  - intros E. split; [apply (C1 E)|by apply Hs].
  - intros E. destruct (C2 E). auto.
  - intros E. destruct (C3 E) as (? & ? & ?). auto.
Qed.

Lemma spawn_inv s s' t : d_inv s -> holds t = 0 -> finishes t = 0 -> (forall s, t_good s t) ->
  d_threads s' = d_threads s ++ [t] -> d_active s' = d_active s ->
  d_started s' = d_started s -> d_stopping s' = d_stopping s -> d_running s' = d_running s ->
  d_finishing s' = d_finishing s -> d_stopped s' = d_stopped s -> d_last s' = d_last s ->
  (d_raced s' = false -> d_raced s = false /\ (is_starter t = true -> d_stopping s = false /\ d_started s = false)) -> d_inv s'.
Proof.
  intros [Ha Hl Hc] H1 H2 H3 Et E1 E2 E3 E4 E5 E6 E7 Hr. constructor.
  - rewrite Et, E1, Ha, zsum_app. cbn. lia.
  - rewrite Et, E5, Hl, zsum_app. cbn. lia.
  - intros E. destruct (Hr E) as (E0 & Hs). destruct (Hc E0) as (C & G).
    assert (Es : starting s' = starting s || is_starter t).
    { unfold starting. by rewrite Et, existsb_app; cbn; rewrite orb_false_r. }
    assert (Hi : idle s -> idle s').
    { unfold idle. rewrite E1, E2, Es. intros (X & -> & ?). destruct (is_starter t); [|done]. destruct Hs; [done|congruence]. }
    split.
    + apply (calm_more s); try done. intros X. rewrite Es. destruct (cm_stop _ C X) as (_ & ->).
      destruct (is_starter t); [|done]. destruct Hs; [done|congruence].
    + rewrite Et. apply Forall_app. split; [|apply List.Forall_cons; [apply H3|done]].
      eapply Forall_impl; [exact G|]. intros x Hx. by eapply t_good_more.
Qed.
(** A step leaves the others as good as they were. *)
Lemma t_good_other t a s t' s' new i j u : thread_step t a s = Some (t', s', new) -> d_inv s ->
  d_threads s !! i = Some t -> d_threads s !! j = Some u -> i <> j -> (idle s -> idle s') -> t_good s u -> t_good s' u.
Proof.
  intros H Hv Hi Hj Hij Hid (G1 & G2 & G3 & G4).
  destruct (thread_step_forward _ _ _ _ _ _ H) as (F1 & F2 & F3 & _ & F5 & _).
  split_and!; auto. assert (Hu : finishes u = 1 -> d_finishing s' = d_finishing s /\ d_last s' = d_last s /\ d_stopped s' = d_stopped s).
  { intros Eu. assert (Eg : needs_started u = true /\ d_finishing s = true).
    { unfold finishes in Eu. destruct u; repeat case_match; simplify_eq/=; try (repeat case_match; simplify_eq/=); tauto. }
    destruct Eg as (Eg & Ef). destruct (thread_step_lock _ _ _ _ _ _ H) as [Et|(L1 & L2 & L3)].
    - pose proof (zsum_two finishes _ _ _ _ _ finishes_nonneg Hij Hi Hj). rewrite <- (iv_lock _ Hv), Et, Eu in H0.
      unfold b2Z in H0. case_match; lia.
    - split_and!; [destruct L1; congruence|done|]. destruct L3 as [?|(_ & _ & _ & L)]; [done|]. specialize (G1 Eg). congruence. }
  unfold finishes in Hu. destruct (fin_of u) as [[]|]; try done; destruct (Hu eq_refl) as (-> & -> & ->); done.
Qed.

Lemma thread_inv t a s t' s1 new i : thread_step t a s = Some (t', s1, new) -> d_threads s !! i = Some t -> d_inv s ->
  d_inv (s1 <| d_threads := <[i := t']> (d_threads s1) ++ new |>).
Proof.
  intros H Hi Hv. pose proof (thread_step_threads _ _ _ _ _ _ H) as Et.
  destruct (thread_step_forward _ _ _ _ _ _ H) as (F1 & F2 & F3 & F4 & F5 & F6 & F7 & F8).
  assert (Hin : t ∈ d_threads s) by by eapply list_elem_of_lookup_2.
  assert (Hs' : starting s = false -> starting (s1 <| d_threads := <[i := t']> (d_threads s1) ++ new |>) = false).
  { intros E. unfold starting. cbn. rewrite Et. by apply (starting_insert _ _ t); [|by apply (not_starting s)| | |]. }
  assert (Hid : idle s -> idle (s1 <| d_threads := <[i := t']> (d_threads s1) ++ new |>) /\ idle s1).
  { intros Hd. pose proof (idle_nobody _ Hv Hd _ Hin) as H0. destruct Hd as (D1 & D2 & D3).
    destruct (thread_step_idle _ _ _ _ _ _ H H0) as (E1 & ->); [by apply (not_starting s)|].
    pose proof (thread_step_active _ _ _ _ _ _ H) as Ha. cbn in Ha. unfold idle. rewrite Hs' by done. cbn.
    unfold starting. rewrite Et. split_and!; auto; lia. }
  pose proof Hv as [Ha Hl Hc]. constructor; cbn.
  - rewrite Et, zsum_app, (zsum_insert _ _ _ t) by done. pose proof (thread_step_active _ _ _ _ _ _ H). lia.
  - rewrite Et, zsum_app, (zsum_insert _ _ _ t) by done. rewrite (thread_step_finishes _ _ _ _ _ _ H); [lia|].
    intros E. unfold b2Z in Hl. destruct (d_finishing s); [done|].
    exfalso. pose proof (zsum_zero finishes _ finishes_nonneg (eq_sym Hl) _ Hin). lia.
  - intros Hr. destruct (Hc (F4 Hr)) as (C & G). rewrite Forall_forall in G.
    destruct (thread_step_good _ _ _ _ _ _ H Hr C (G _ Hin)) as (G1 & G2).
    assert (C1 : calm s1).
    { eapply thread_step_calm; try done; [|by intros; apply (not_starting s)|by apply G]. intros X. by eapply idle_nobody. }
    assert (Hw : starting s1 = starting s) by (unfold starting; by rewrite Et).
    assert (Hi1 : idle s1 -> idle (s1 <| d_threads := <[i := t']> (d_threads s1) ++ new |>)).
    { intros (X & Y & Z). rewrite Hw in Y. by split_and!; [|apply Hs'|]. }
    assert (Hg : forall x, t_good s1 x -> t_good (s1 <| d_threads := <[i := t']> (d_threads s1) ++ new |>) x).
    { intros x Hx. eapply (t_good_more s1); (exact Hi1 || done). }
    split.
    + apply (calm_more s1); try (exact Hi1 || done). intros X. apply Hs'. rewrite <- Hw. by apply (cm_stop _ C1).
    + apply Forall_forall. intros x Hx. rewrite Et in Hx. apply elem_of_app in Hx as [Hx|Hx].
      * apply list_elem_of_lookup in Hx as (j & Hx). rewrite list_lookup_insert in Hx. repeat case_decide; simplify_eq.
        -- exact (Hg _ G1).
        -- refine (Hg _ _). eapply (t_good_other t a s _ _ _ i j); try done.
           { intros ->. apply lookup_lt_Some in Hi. tauto. } { by intros [_ ?]%Hid. } apply G. by eapply list_elem_of_lookup_2.
      * rewrite Forall_forall in G2. exact (Hg _ (G2 _ Hx)).
Qed.

Lemma start_open_flags iom w s :
  let '(ok, s') := start_open iom w s in
  d_threads s' = d_threads s /\ d_active s' = d_active s /\ d_started s' = d_started s /\ d_stopping s' = d_stopping s /\
  d_running s' = d_running s /\ d_finishing s' = d_finishing s /\ d_stopped s' = d_stopped s /\ d_last s' = d_last s /\
  d_raced s' = d_raced s /\ d_opts s' = d_opts s /\ (ok = true -> d_started s = false).
Proof.
  unfold start_open. destruct (good_config iom s) eqn:G; cbn [negb].
  2: { by split_and!. }
  assert (E : d_started s = false) by (unfold good_config in G; b2p; done).
  repeat case_match; simplify_eq/=; by split_and!.
Qed.

Lemma step_inv l s s' : d_inv s -> step l s = Some s' -> d_inv s'.
Proof.
  intros Hv H. destruct l as [iom w|k| |i a]; cbn in H.
  - destruct (existsb _ _) eqn:Es; [done|]. pose proof (start_open_flags iom w s) as F.
    destruct (start_open iom w s) as [ok s1]. destruct F as (E1 & E2 & E3 & E4 & E5 & E6 & E7 & E8 & E9 & _ & E10). simplify_eq.
    destruct ok.
    + eapply (spawn_inv s _ (STARTER S_STARTED)); try done; cbn; try congruence.
      rewrite E9, E4. intros (X & Y)%orb_false_iff. split; [done|]. intros _. split; [done|by apply E10].
    + destruct Hv as [Ha Hl Hc]. assert (Hi : idle s -> idle s1).
      { unfold idle, starting. by rewrite E1, E2, E3. }
      constructor; [congruence|congruence|]. rewrite E9. intros X. destruct (Hc X) as (C & G). split.
      * apply (calm_more s); try done. intros Y. unfold starting. rewrite E1. by apply (cm_stop _ C).
      * rewrite E1. eapply Forall_impl; [exact G|]. intros x Hx. by eapply t_good_more.
  - simplify_eq. by eapply (spawn_inv s _ (STOPPER k G_CAS)).
  - case_match; [|done]. simplify_eq. by eapply (spawn_inv s _ TICK).
  - destruct (d_threads s !! i) as [t|] eqn:Ei; [|done]. destruct (thread_step t a s) as [[[t' s1] new]|] eqn:Et; [|done].
    simplify_eq. by eapply thread_inv.
Qed.

Lemma run_inv ls s s' : d_inv s -> run ls s = Some s' -> d_inv s'.
Proof.
  revert s. induction ls as [|l ls IH]; intros s Hv H; cbn in H; [by simplify_eq|].
  destruct (step l s) as [s1|] eqn:E; [|done]. eapply IH; [|exact H]. by eapply step_inv.
Qed.
(** ** A stop ends *)

Lemma left_nonneg m t : 0 <= left_of m t.
Proof. destruct t as [? []|? []|? []|? []|? [| | | | | |[]| | | | | | |]|[]| |[| |[]|]|]; cbn; repeat case_match; lia. Qed.

Lemma thread_step_left t a s t' s' new : thread_step t a s = Some (t', s', new) ->
  d_running s = false -> d_stopping s = true -> is_starter t = false ->
  left_of (d_insts s') t' + zsum (left_of (d_insts s')) new < left_of (d_insts s) t.
Proof.
  intros H. step_cases t a H; intros; try congruence; unfold stop_left; repeat case_match; try lia.
  by simplify_map_eq.
Qed.

Lemma thread_step_insts t a s t' s' new u : thread_step t a s = Some (t', s', new) ->
  left_of (d_insts s') u <= left_of (d_insts s) u.
Proof.
  intros H. assert (E : d_insts s' = d_insts s \/ exists c inst, d_insts s' = <[c := inst]> (d_insts s)).
  { step_cases t a H; eauto. }
  destruct E as [->|(c & inst & ->)]; [lia|]. destruct u as [| | |c' []| | | | |]; cbn; try lia.
  rewrite lookup_insert. case_decide; [|lia]. case_match; lia.
Qed.

Lemma thread_step_unraced t a s t' s' new : thread_step t a s = Some (t', s', new) ->
  d_raced s = false -> starting s = false -> d_raced s' = false.
Proof. intros H. unfold starting. step_cases t a H; intros Hr Hs; cbn; rewrite ?Hr, ?Hs; done. Qed.

Lemma stop_step_left l s s' : d_inv s -> d_raced s = false -> d_stopping s = true -> is_step l = true -> step l s = Some s' ->
  steps_left s' < steps_left s /\ d_stopping s' = true /\ d_raced s' = false.
Proof.
  intros Hv Hr Hs Hl H. destruct (iv_calm _ Hv Hr) as (C & _). destruct (cm_stop _ C Hs) as (Hrun & Hst).
  destruct l as [| | |i a]; try done. cbn in H.
  destruct (d_threads s !! i) as [t|] eqn:Ei; [|done]. destruct (thread_step t a s) as [[[t' s1] new]|] eqn:Et; [|done].
  simplify_eq. unfold steps_left; cbn. rewrite (thread_step_threads _ _ _ _ _ _ Et), zsum_app, (zsum_insert _ _ _ t) by done.
  pose proof (zsum_le_but _ _ _ _ _ (fun u => thread_step_insts _ _ _ _ _ _ u Et) Ei) as Ho.
  assert (Hn : is_starter t = false) by (apply (not_starting s); [done|by eapply list_elem_of_lookup_2]).
  pose proof (thread_step_left _ _ _ _ _ _ Et Hrun Hs Hn).
  destruct (thread_step_forward _ _ _ _ _ _ Et) as (_ & F & _). split_and!; [lia|auto|].
  by eapply thread_step_unraced.
Qed.

(** Whoever holds the daemon, or is on the way to finish it, can go on by itself, if it does not
    wait for the outside or for the lock. *)
Lemma can_go t s : holds t <> 0 \/ on_way t = true -> waits t = false -> is_starter t = false ->
  fin_of t <> Some F_LOCK \/ d_finishing s = false -> exists a r, own a = true /\ thread_step t a s = Some r.
Proof.
  intros Ht Hw Hs Hf.
  destruct t as [side []|? []|? []|? []|? [| | | | | |[]| | | | | | |]|[]| |[| |[]|]|]; cbn in Ht, Hs, Hw; try done; try (destruct Ht; done).
  all: try (exists R_GO; cbn; unfold alone; repeat (case_match; simplify_eq/=); (eexists; by split) || (destruct Hf; congruence)).
  all: try (exists (R_OK true); eexists; by split).
  all: exists (R_EDIT (fun _ => true) (fun _ => true) 0); cbn; unfold alone; repeat (case_match; simplify_eq/=); eexists; by split.
Qed.

(** A stop is never lost: with nobody left, somebody is on the way to finish. *)
Definition d_way (s : Daemon) : Prop :=
  d_stopping s = true -> d_started s = true -> d_stopped s = false -> d_active s = 0 ->
  exists j u, d_threads s !! j = Some u /\ on_way u = true.

Lemma thread_step_way t a s t' s' new : thread_step t a s = Some (t', s', new) ->
  0 <= d_active s -> (d_stopping s = true -> is_starter t = false) ->
  d_stopping s' = true -> d_started s' = true -> d_stopped s' = false -> d_active s' = 0 ->
  on_way t' = true \/ (d_stopping s = true /\ d_started s = true /\ d_stopped s = false /\ d_active s = 0 /\ on_way t = false).
Proof.
  intros H. step_cases t a H; intros ? Hs; intros; first [by left|right; split_and!; (done || lia)|exfalso; (congruence || lia || (specialize (Hs ltac:(done)); done))].
Qed.

Lemma step_way l s s' : d_inv s -> (d_raced s = false -> d_way s) -> step l s = Some s' -> d_raced s' = false -> d_way s'.
Proof.
  intros Hv Hw H Hr. destruct l as [iom w|k| |i a]; cbn in H.
  - destruct (existsb _ _) eqn:Es; [done|]. pose proof (start_open_flags iom w s) as F.
    destruct (start_open iom w s) as [ok s1]. destruct F as (E1 & E2 & E3 & E4 & E5 & E6 & E7 & E8 & E9 & _ & _). simplify_eq.
    destruct ok; [|unfold d_way; rewrite E1, E2, E3, E4, E7; apply Hw; congruence].
    cbn in Hr. rewrite E9 in Hr. apply orb_false_iff in Hr as (Hr & _).
    intros S1 S2 S3 S4. cbn in *. destruct (Hw Hr) as (j & u & Hj & Hu); [congruence..|].
    exists j, u. split; [|done]. rewrite E1. by apply lookup_app_l_Some.
  - simplify_eq. intros S1 S2 S3 S4. destruct (Hw Hr S1 S2 S3 S4) as (j & u & Hj & Hu).
    exists j, u. split; [|done]. cbn. by apply lookup_app_l_Some.
  - case_match; [|done]. simplify_eq. intros S1 S2 S3 S4. destruct (Hw Hr S1 S2 S3 S4) as (j & u & Hj & Hu).
    exists j, u. split; [|done]. cbn. by apply lookup_app_l_Some.
  - destruct (d_threads s !! i) as [t|] eqn:Ei; [|done]. destruct (thread_step t a s) as [[[t' s1] new]|] eqn:Et; [|done].
    simplify_eq. intros S1 S2 S3 S4. cbn in *. pose proof (thread_step_threads _ _ _ _ _ _ Et) as Eth.
    destruct (thread_step_forward _ _ _ _ _ _ Et) as (_ & _ & _ & F & _). destruct (iv_calm _ Hv (F Hr)) as (C & _).
    assert (Hlen := lookup_lt_Some _ _ _ Ei).
    destruct (thread_step_way _ _ _ _ _ _ Et) as [Ho|(P1 & P2 & P3 & P4 & Ho)]; try done.
    + rewrite (iv_active _ Hv). apply zsum_nonneg, holds_nonneg.
    + intros X. destruct (cm_stop _ C X) as (_ & Hst). apply (not_starting s); [done|by eapply list_elem_of_lookup_2].
    + exists i, t'. split; [|done]. rewrite Eth. apply lookup_app_l_Some. by rewrite list_lookup_insert_eq.
    + destruct (Hw (F Hr) P1 P2 P3 P4) as (j & u & Hj & Hu). exists j, u. split; [|done]. rewrite Eth.
      apply lookup_app_l_Some. rewrite list_lookup_insert_ne; [done|]. intros ->. congruence.
Qed.

(** All of it, along a run. *)
Record d_ok (s : Daemon) : Prop := { ok_inv : d_inv s; ok_way : d_raced s = false -> d_way s }.

Lemma run_ok ls s s' : d_ok s -> run ls s = Some s' -> d_ok s'.
Proof.
  revert s. induction ls as [|l ls IH]; intros s [Hv Hw] H; cbn in H; [by simplify_eq|].
  destruct (step l s) as [s1|] eqn:E; [|done]. eapply IH; [|exact H].
  split; [by eapply step_inv|by eapply step_way].
Qed.

Lemma d_ok_new o random : d_ok (daemon_new o random).
Proof. split; [apply d_inv_new|]. by intros _ ?. Qed.

Lemma stop_run_left ls s s' : d_inv s -> d_raced s = false -> d_stopping s = true -> forallb is_step ls = true ->
  run ls s = Some s' -> Z.of_nat (length ls) <= steps_left s.
Proof.
  revert s. induction ls as [|l ls IH]; intros s Hv Hr Hs Hl H; cbn in H.
  - unfold steps_left. cbn. apply zsum_nonneg, left_nonneg.
  - destruct (step l s) as [s1|] eqn:E; [|done]. cbn in Hl. apply andb_true_iff in Hl as (Hl1 & Hl).
    destruct (stop_step_left _ _ _ Hv Hr Hs Hl1 E) as (L & S & R).
    pose proof (IH s1 (step_inv _ _ _ Hv E) R S Hl H). cbn [length]. lia.
Qed.

(** Somebody can go on by itself, or the outside is waited for. *)
Lemma stop_progress s : d_ok s -> d_raced s = false -> d_stopping s = true -> d_started s = true -> d_stopped s = false ->
  (exists i a s', own a = true /\ step (L_STEP i a) s = Some s') \/ (exists t, t ∈ d_threads s /\ waits t = true).
Proof.
  intros [Hv Hw] Hr Hs Hst Hsp. destruct (iv_calm _ Hv Hr) as (C & _). destruct (cm_stop _ C Hs) as (_ & Hn).
  assert (Hg : forall i t, d_threads s !! i = Some t -> holds t <> 0 \/ on_way t = true -> fin_of t <> Some F_LOCK \/ d_finishing s = false ->
    (exists i a s', own a = true /\ step (L_STEP i a) s = Some s') \/ (exists t, t ∈ d_threads s /\ waits t = true)).
  { intros i t Hi Ht Hf. destruct (waits t) eqn:E; [right; exists t; split; [by eapply list_elem_of_lookup_2|done]|left].
    destruct (can_go t s Ht E) as (a & [[t' s1] new] & Ho & Hr'); [apply (not_starting s); [done|by eapply list_elem_of_lookup_2]|done|].
    eexists i, a, _. split; [done|]. cbn. by rewrite Hi, Hr'. }
  destruct (d_finishing s) eqn:Ef.
  - pose proof (iv_lock _ Hv) as Hl. rewrite Ef in Hl. destruct (zsum_some finishes (d_threads s)) as (i & t & Hi & Ht); [cbn in Hl; lia|].
    apply (Hg i t Hi).
    + right. unfold finishes in Ht. destruct t; cbn in *; repeat case_match; done.
    + left. intros E. unfold finishes in Ht. by rewrite E in Ht.
  - destruct (decide (d_active s = 0)) as [Ha|Ha].
    + destruct (Hw Hr Hs Hst Hsp Ha) as (j & u & Hj & Hu). apply (Hg j u Hj); auto.
    + rewrite (iv_active _ Hv) in Ha. destruct (zsum_some holds _ Ha) as (i & t & Hi & Ht). apply (Hg i t Hi); auto.
Qed.
End stepping.

(** ** The engine under the daemon *)

Section saving.
Context {IN : Inet} {IL : InetLaws} {JL : JsonLib} {JW : JsonLaws} {SS : StdSort}.

(** [start] opens an empty database, the clock is one SQLite can store and the version counter is
    not about to leave the range of the database (as [eng_op_ok]). *)
Definition sane (l : Label) (s : Daemon) : Prop :=
  match l with
  | L_START _ w => op_db w = None \/ op_db w = Some db_init
  | L_STEP _ (R_EDIT _ _ now) =>
      0 <= now <= kDbIntMax /\ c_ver (e_core (d_engine s)) + 1 + Z.of_nat (length (c_expiry (e_core (d_engine s)))) <= kDbIntMax
  | _ => True
  end.

Fixpoint sane_run (ls : list Label) (s : Daemon) : Prop :=
  match ls with
  | [] => True
  | l :: ls => sane l s /\ match step l s with Some s' => sane_run ls s' | None => True end
  end.

(** What a thread carries to the engine is well-formed. *)
Definition t_wf (t : Thread) : Prop := match t with SUBMITTER _ (B_EDIT r) => wf_risk r | _ => True end.

Lemma thread_step_wf t a s t' s' new : thread_step t a s = Some (t', s', new) -> t_wf t' /\ Forall t_wf new.
Proof.
  intros H. step_cases t a H; (split; [|repeat (apply List.Forall_cons || apply List.Forall_nil)]); try done.
  cbn. by eapply (riskFromJson_no_forgery _ _ 0).
Qed.

Lemma admin_edit_do sql now kind body s res e : admin_edit sql now kind body s = Parsed (res, e) ->
  e = d_engine s \/ d_running s = true /\ exists op, e = eng_do sql sql now op (d_engine s) /\
    match op with OAdmin ip _ ttl _ => canonical ip /\ is_u64 ttl | ORemove _ => True | _ => False end.
Proof.
  unfold admin_edit. intros H. destruct (d_running s); cbn [negb] in H; [|simplify_eq; by left].
  repeat case_decide || case_bool_decide; simplify_eq.
  - destruct (ctlPutFromJson body) as [p| |] eqn:E; [|simplify_eq; by left|done]. destruct (ctlPut_wf _ _ E).
    destruct (setAdmin _ _ _ _ _ _ _) as [[r ?] e1] eqn:Es. simplify_eq. right. split; [done|].
    exists (OAdmin (put_ip p) (put_action p) (put_ttlMs p) (put_reason p)). cbn. by rewrite Es.
  - destruct (ctlDelFromJson body) as [id| |]; [|simplify_eq; by left|done].
    destruct (remove _ _ _) as [[r ?] e1] eqn:Es. simplify_eq. right. split; [done|]. exists (ORemove id). cbn. by rewrite Es.
  - repeat case_match; simplify_eq; by left.
  - repeat case_match; simplify_eq; by left.
Qed.

(** What a step does to the engine. *)
Inductive eng_change (t : Thread) (a : Reply) (s s' : Daemon) (t' : Thread) : Prop :=
  | ec_same : d_engine s' = d_engine s -> d_last s' = d_last s -> (forall ok, fin_of t' <> Some (F_DB ok)) -> eng_change t a s s' t'
  | ec_edit sql sql' sql1 sql2 now op :
    a = R_EDIT sql1 sql2 now -> d_running s = true -> d_engine s' = eng_do sql sql' now op (d_engine s) -> d_last s' = d_last s ->
    (forall ok, fin_of t' <> Some (F_DB ok)) ->
    match op with ORisk r => wf_risk r | OAdmin ip _ ttl _ => canonical ip /\ is_u64 ttl | _ => True end -> eng_change t a s s' t'
  | ec_flush sql sql' now :
    fin_of t = Some F_FLUSH -> a = R_EDIT sql sql' now -> d_engine s' = eng_do sql sql' now OFlush (d_engine s) ->
    d_last s' = d_last s -> fin_of t' = Some (F_DB (flushPersistence sql (e_pers (d_engine s))).1) -> eng_change t a s s' t'
  | ec_db ok :
    fin_of t = Some (F_DB ok) -> d_last s' = Some (ok, d_engine s) -> d_engine s' = setDb None 300000 (d_engine s) ->
    fin_of t' = Some F_STOPPED -> eng_change t a s s' t'.

Lemma thread_step_engine t a s t' s' new : thread_step t a s = Some (t', s', new) -> t_wf t -> eng_change t a s s' t'.
Proof.
  intros H Hw. step_cases t a H; try (apply ec_same; done).
  1: by eapply (ec_edit _ _ _ _ _ sql sql _ _ now (ORisk r)).
  1: match goal with E : admin_edit _ _ _ _ _ = _ |- _ => destruct (admin_edit_do _ _ _ _ _ _ _ E) as [->|(Hr & op & -> & Ho)] end;
       [by apply ec_same|eapply (ec_edit _ _ _ _ _ sql sql _ _ now op); try done; by destruct op].
  3: by eapply (ec_edit _ _ _ _ _ sql sql' _ _ now OTick).
  1, 3: eapply (ec_flush _ _ _ _ _ sql sql' now); try done; cbn; by match goal with E : flushPersistence _ _ = _ |- _ => rewrite E end.
  all: by eapply ec_db.
Qed.

Lemma thread_step_rest t a s t' s' new : thread_step t a s = Some (t', s', new) ->
  d_opts s' = d_opts s /\ (d_running s' = true -> d_running s = true \/ needs_started t = true) /\
  (d_started s' = true -> d_started s = true \/ is_starter t = true) /\
  (is_starter t = true -> is_starter t' = true \/ needs_started t = true) /\ Forall (fun u => fin_of u = None) new.
Proof. intros H. step_cases t a H; split_and!; intros; first [done|by left|by right|congruence|by repeat (apply List.Forall_cons || apply List.Forall_nil)]. Qed.

Lemma existsb_keep l i t' (new : list Thread) : existsb is_starter l = true -> (forall t, l !! i = Some t -> is_starter t = true -> is_starter t' = true) ->
  existsb is_starter (<[i := t']> l ++ new) = true.
Proof.
  intros (x & Hx & Ex)%existsb_exists H. apply existsb_exists.
  apply list_elem_of_In, list_elem_of_lookup in Hx as (j & Hx). pose proof (lookup_lt_Some _ _ _ Hx).
  destruct (decide (i = j)) as [->|Hn].
  - exists t'. split; [|by eapply H]. apply list_elem_of_In, elem_of_app. left. eapply (list_elem_of_lookup_2 _ j). by rewrite list_lookup_insert_eq.
  - exists x. split; [|done]. apply list_elem_of_In, elem_of_app. left. eapply (list_elem_of_lookup_2 _ j). by rewrite list_lookup_insert_ne.
Qed.

Lemma restore_empty ok now random ttl :
  let '(ok', e) := restore ok now (setDb (Some db_init) ttl (engine_init random)) in
  ok' = ok /\ (ok = true -> e = fresh_hub random ttl) /\ setDb None 300000 e = engine_init random.
Proof.
  assert (E : purge now ∅ = ∅) by apply map_filter_empty.
  unfold restore, db_load, fresh_hub, setDb. destruct ok; cbn; rewrite ?E, ?map_to_list_empty; by split_and!.
Qed.

Record e_inv (o : DaemonOpts) (random : Z) (s : Daemon) : Prop := {
  ev_opts : d_opts s = o;
  ev_wf : Forall t_wf (d_threads s);
  ev_run : d_raced s = false -> d_running s = true -> d_started s = true;
  ev_open : d_raced s = false -> d_last s = None -> d_started s = true \/ starting s = true ->
    eng_steps (fresh_hub random (do_persistMinTtlMs o)) (d_engine s);
  ev_closed : d_raced s = false -> d_started s = false -> starting s = false -> d_engine s = engine_init random;
  ev_last : d_raced s = false -> forall ok e, d_last s = Some (ok, e) ->
    eng_steps (fresh_hub random (do_persistMinTtlMs o)) e /\ d_engine s = setDb None 300000 e /\ (ok = true -> p_pending (e_pers e) = []);
  ev_flushed : d_raced s = false -> forall t, t ∈ d_threads s -> fin_of t = Some (F_DB true) -> p_pending (e_pers (d_engine s)) = [] }.

Lemma e_inv_new o random : e_inv o random (daemon_new o random).
Proof. constructor; try done; cbn; intros; try done; try naive_solver. Qed.

(** Flushing succeeds only when nothing is pending. *)
Lemma flushed random ttl e sql : eng_steps (fresh_hub random ttl) e ->
  (flushPersistence sql (e_pers e)).1 = true -> p_pending (flushPersistence sql (e_pers e)).2 = [].
Proof.
  intros Hs. destruct (fresh_hub_inv random ttl) as [Hi0 Hp0]. destruct (eng_steps_pers _ _ Hs Hi0 Hp0) as [Hp _].
  pose proof (flush_loop_spec (length (p_pending (e_pers e))) sql 0 _ _ _ Hp) as H. unfold flushPersistence.
  destruct (flush_loop _ _ _ _). cbn. intros E. by apply H.
Qed.

(** Threads that only join leave the engine as it is. *)
Lemma e_inv_spawn o random s s' t : e_inv o random s -> (d_raced s' = false -> d_raced s = false) ->
  d_threads s' = d_threads s ++ [t] -> t_wf t -> fin_of t = None -> is_starter t = false ->
  d_opts s' = d_opts s -> d_running s' = d_running s -> d_started s' = d_started s -> d_engine s' = d_engine s -> d_last s' = d_last s ->
  e_inv o random s'.
Proof.
  intros [E1 E2 E3 E4 E5 E6 E7] Hr Ht Hw Hf Hs F1 F2 F3 F4 F5.
  assert (X : starting s' = starting s) by (unfold starting; rewrite Ht, existsb_app; cbn; by rewrite Hs, !orb_false_r).
  constructor; rewrite ?F1, ?F2, ?F3, ?F4, ?F5, ?X; auto.
  - rewrite Ht. apply Forall_app. split; [done|]. by apply List.Forall_cons.
  - intros R u Hu. rewrite Ht in Hu. apply elem_of_app in Hu as [Hu|Hu%list_elem_of_singleton]; [by apply E7; auto|].
    subst. by rewrite Hf.
Qed.
(** A start over an empty database, and one that fails. *)
Lemma e_inv_start o random iom w s s' : d_inv s -> e_inv o random s -> do_dbPath o <> ""%string -> sane (L_START iom w) s ->
  step (L_START iom w) s = Some s' -> e_inv o random s'.
Proof.
  intros Hd Hv Hdb Hw H. cbn in H. destruct (existsb _ _) eqn:Es; [done|]. unfold start_open in H.
  destruct (good_config iom s) eqn:G; cbn [negb] in H; [|by simplify_eq].
  pose proof Hv as [E1 E2 E3 E4 E5 E6 E7]. rewrite E1 in H. destruct (String.eqb (do_dbPath o) "") eqn:Ed; [by apply String.eqb_eq in Ed|].
  assert (Hst : d_started s = false) by (unfold good_config in G; b2p; done).
  assert (Hsame : forall s1, d_opts s1 = o -> d_threads s1 = d_threads s -> d_running s1 = d_running s -> d_started s1 = d_started s ->
    d_last s1 = d_last s -> d_raced s1 = d_raced s -> (d_raced s = false -> d_engine s1 = d_engine s) -> e_inv o random s1).
  { intros s1 F1 F2 F3 F4 F5 F6 F7. assert (X : starting s1 = starting s) by (unfold starting; by rewrite F2).
    constructor; rewrite ?F2, ?F3, ?F4, ?F5, ?F6, ?X; try done; intros R; rewrite (F7 R);
      [exact (E4 R)|exact (E5 R)|exact (E6 R)|exact (E7 R)]. }
  destruct Hw as [Hw|Hw]; rewrite Hw in H; [cbn in H; injection H as <-; by apply Hsame|].
  assert (Hone : d_raced s = false -> d_engine s = engine_init random) by auto.
  destruct (restore (op_sql w) (op_now w) (setDb (Some db_init) (do_persistMinTtlMs o) (d_engine s))) as [ok e] eqn:Er.
  assert (Hr : d_raced s = false -> (ok = true -> e = fresh_hub random (do_persistMinTtlMs o)) /\ setDb None 300000 e = engine_init random).
  { intros R. rewrite (Hone R) in Er. pose proof (restore_empty (op_sql w) (op_now w) random (do_persistMinTtlMs o)) as X.
    rewrite Er in X. destruct X as (-> & X). done. }
  assert (Hback : d_raced s = false -> setDb None 300000 e = d_engine s).
  { intros R. rewrite (Hone R). by apply (Hr R). }
  destruct ok; cbn [negb] in H; [|injection H as <-; by apply Hsame].
  destruct (op_submit w && op_sub w && _); cbn [negb] in H; injection H as <-; [|by apply Hsame].
  constructor; cbn; try done.
  - apply Forall_app. split; [done|]. by apply List.Forall_cons.
  - intros (R & _)%orb_false_iff. auto.
  - intros (R & _)%orb_false_iff Hl _. destruct (Hr R) as (X & _). rewrite (X eq_refl). apply es_refl.
  - intros _ _. unfold starting. cbn. rewrite existsb_app. cbn. by rewrite orb_true_r.
  - intros (R & _)%orb_false_iff ok e' Hl. destruct (iv_calm _ Hd R) as (C & _). destruct (cm_last _ C) as (_ & (X & _) & _); congruence.
  - intros (R & _)%orb_false_iff u Hu Hf. destruct (iv_calm _ Hd R) as (_ & C). rewrite Forall_forall in C.
    apply elem_of_app in Hu as [Hu|Hu%list_elem_of_singleton]; [|by subst]. destruct (C _ Hu) as (X & _).
    destruct u as [| | | |k pc| | |d|]; try done; [destruct pc; try done|destruct d; try done]; specialize (X eq_refl); congruence.
Qed.
Lemma fin_needs t f : fin_of t = Some f -> needs_started t = true /\ past_cas t = true.
Proof. destruct t as [| | | |k []| | |[]|]; done. Qed.

(** Who has the lock is alone with it. *)
Lemma lock_alone s i j t u : d_inv s -> i <> j -> d_threads s !! i = Some t -> d_threads s !! j = Some u ->
  finishes t = 1 -> finishes u = 1 -> False.
Proof.
  intros Hv Hij Hi Hj Ht Hu. pose proof (zsum_two finishes _ _ _ _ _ finishes_nonneg Hij Hi Hj) as H.
  rewrite <- (iv_lock _ Hv), Ht, Hu in H. unfold b2Z in H. case_match; lia.
Qed.

(** What is recorded when the database is let go. *)
Lemma engine_last o random t a s s1 t' : e_inv o random s -> d_raced s = false -> calm s -> (forall u, u ∈ d_threads s -> t_good s u) ->
  t ∈ d_threads s -> eng_change t a s s1 t' -> forall ok e, d_last s1 = Some (ok, e) ->
  eng_steps (fresh_hub random (do_persistMinTtlMs o)) e /\ d_engine s1 = setDb None 300000 e /\ (ok = true -> p_pending (e_pers e) = []).
Proof.
  intros [E1 E2 E3 E4 E5 E6 E7] R0 C G Hin Hc ok e Hl.
  destruct Hc as [-> Y _|sql sql' sql1 sql2 now op _ Hrun _ Y _ _|sql sql' now Hf _ _ Y _|ok' Hf Y -> _]; rewrite Y in Hl; [auto| | |].
  - destruct (cm_last _ C) as (S & _); [congruence|]. destruct (cm_stop _ C S). congruence.
  - destruct (G t Hin) as (_ & _ & _ & X). rewrite Hf in X. destruct X as (_ & _ & X). congruence.
  - injection Hl as -> <-. destruct (G t Hin) as (X1 & _ & _ & X). rewrite Hf in X. destruct X as (_ & _ & X).
    destruct (fin_needs _ _ Hf) as (Z & _). split_and!; [by apply E4; auto|done|]. intros ->. by apply (E7 R0 t).
Qed.

(** Between a flush that went well and the end of the database nothing becomes pending. *)
Lemma engine_flushed o random i t a s s1 t' u : d_inv s -> e_inv o random s -> d_raced s = false -> calm s ->
  (forall u, u ∈ d_threads s -> t_good s u) -> d_threads s !! i = Some t -> eng_change t a s s1 t' ->
  u ∈ <[i := t']> (d_threads s) -> fin_of u = Some (F_DB true) -> p_pending (e_pers (d_engine s1)) = [].
Proof.
  intros Hd [E1 E2 E3 E4 E5 E6 E7] R0 C G Ei Hc Hu Hf. assert (Hin : t ∈ d_threads s) by by eapply list_elem_of_lookup_2.
  apply list_elem_of_lookup in Hu as (j & Hu). destruct (decide (i = j)) as [<-|Hij].
  - rewrite list_lookup_insert_eq in Hu by by eapply lookup_lt_Some. injection Hu as <-.
    destruct Hc as [_ _ X|? ? ? ? ? ? _ _ _ _ X _|sql sql' now Hf' _ -> _ X|? _ _ _ X]; try congruence; [by destruct (X true)..|].
    destruct (G t Hin) as (X1 & _ & _ & X2). rewrite Hf' in X2. destruct X2 as (_ & _ & X2). destruct (fin_needs _ _ Hf') as (Z & _).
    cbn. eapply flushed; [apply E4; auto|]. congruence.
  - rewrite list_lookup_insert_ne in Hu by done. assert (Hui : u ∈ d_threads s) by by eapply list_elem_of_lookup_2.
    assert (Hfu : finishes u = 1) by (unfold finishes; by rewrite Hf).
    destruct Hc as [-> _ _|? ? ? ? ? ? _ Hrun|? ? ? Hft|? Hft].
    + by apply (E7 R0 u).
    + destruct (G u Hui) as (_ & X & _). destruct (fin_needs _ _ Hf) as (_ & Z). destruct (cm_stop _ C (X Z)). congruence.
    + destruct (lock_alone s i j t u); try done. unfold finishes. by rewrite Hft.
    + destruct (lock_alone s i j t u); try done. unfold finishes. by rewrite Hft.
Qed.

Lemma e_inv_thread o random i a s s' : d_inv s -> e_inv o random s -> sane (L_STEP i a) s -> step (L_STEP i a) s = Some s' -> e_inv o random s'.
Proof.
  intros Hd He Hw H. pose proof He as [E1 E2 E3 E4 E5 E6 E7]. cbn in H.
  destruct (d_threads s !! i) as [t|] eqn:Ei; [|done]. destruct (thread_step t a s) as [[[t' s1] new]|] eqn:Et; [|done].
  injection H as <-. assert (Hin : t ∈ d_threads s) by by eapply list_elem_of_lookup_2.
  pose proof (thread_step_threads _ _ _ _ _ _ Et) as Eth. rewrite Forall_forall in E2.
  destruct (thread_step_wf _ _ _ _ _ _ Et) as (W1 & W2). pose proof (thread_step_engine _ _ _ _ _ _ Et (E2 _ Hin)) as Hc.
  destruct (thread_step_forward _ _ _ _ _ _ Et) as (F1 & F2 & F3 & F4 & F5 & F6 & F7 & F8).
  destruct (thread_step_rest _ _ _ _ _ _ Et) as (R1 & R2 & R3 & R4 & R5).
  assert (Hall : d_raced s1 = false -> d_raced s = false /\ calm s /\ forall u, u ∈ d_threads s -> t_good s u).
  { intros R. destruct (iv_calm _ Hd (F4 R)) as (C & G). rewrite Forall_forall in G. auto. }
  assert (Hop : d_raced s1 = false -> d_started s1 = true \/ existsb is_starter (<[i := t']> (d_threads s1) ++ new) = true ->
    d_started s = true \/ starting s = true).
  { intros R [X|X].
    - destruct (R3 X) as [?|Y]; [by left|right]. destruct (starting s) eqn:Z; [done|]. by rewrite (not_starting s t Z Hin) in Y.
    - right. destruct (starting s) eqn:Z; [done|]. rewrite Eth in X.
      pose proof (starting_insert (d_threads s) i t t' new Z (not_starting s t Z Hin) Ei F6 F7). congruence. }
  constructor; cbn.
  - congruence.
  - rewrite Eth. apply Forall_app. split; [|done]. apply Forall_insert; [by apply Forall_forall|done].
  - intros R X. destruct (Hall R) as (R0 & C & G). apply F1. destruct (R2 X) as [Y|Y]; [auto|destruct (G t Hin); auto].
  - intros R Hl X. destruct (Hall R) as (R0 & C & G). specialize (Hop R X).
    destruct Hc as [-> Y _|sql sql' sql1 sql2 now op -> Hrun -> Y _ Ho|sql sql' now _ -> -> Y _|ok _ Y]; rewrite Y in Hl; [auto| | |done].
    + apply es_step; [by apply E4|]. destruct Hw, op; unfold eng_op_ok; tauto.
    + apply es_step; [by apply E4|]. destruct Hw; unfold eng_op_ok; tauto.
  - intros R Hs Hn. destruct (Hall R) as (R0 & C & G).
    assert (Hs0 : d_started s = false) by (destruct (d_started s); [by rewrite F1 in Hs|done]).
    assert (Hneed : needs_started t = false) by (destruct (needs_started t) eqn:X; [|done]; destruct (G t Hin) as (Y & _); specialize (Y X); congruence).
    assert (Hn0 : starting s = false).
    { destruct (starting s) eqn:X; [|done]. unfold starting in Hn. cbn in Hn. rewrite Eth in Hn. rewrite existsb_keep in Hn; [done|done|].
      intros u Hu Z. simplify_eq. destruct (R4 Z); [done|congruence]. }
    rewrite <- (E5 R0 Hs0 Hn0). destruct Hc as [Y _ _|? ? ? ? ? ? _ Hrun|? ? ? Hf|? Hf]; [done| | |].
    + specialize (E3 R0 Hrun). congruence.
    + destruct (fin_needs _ _ Hf). congruence.
    + destruct (fin_needs _ _ Hf). congruence.
  - intros R ok e Hl. destruct (Hall R) as (R0 & C & G). by apply (engine_last o random t a s s1 t').
  - intros R u Hu Hf. destruct (Hall R) as (R0 & C & G). rewrite Eth in Hu.
    apply elem_of_app in Hu as [Hu|Hu]; [|by rewrite Forall_forall in R5; rewrite (R5 u Hu) in Hf].
    by eapply (engine_flushed o random i t a s s1 t').
Qed.
Lemma run_engine o random ls s s' : d_inv s -> e_inv o random s -> do_dbPath o <> ""%string ->
  run ls s = Some s' -> sane_run ls s -> e_inv o random s'.
Proof.
  revert s. induction ls as [|l ls IH]; intros s Hd Hv Hp H Hw; cbn in H; [by simplify_eq|].
  destruct Hw as (Hw & Hr). destruct (step l s) as [s1|] eqn:E; [|done].
  apply (IH s1); try done; [by eapply step_inv|]. destruct l as [iom w|k| |i a].
  - by eapply e_inv_start.
  - cbn in E. injection E as <-. by eapply (e_inv_spawn _ _ s _ (STOPPER k G_CAS)).
  - cbn in E. destruct (d_timer s); [|done]. injection E as <-. by eapply (e_inv_spawn _ _ s _ TICK).
  - by eapply e_inv_thread.
Qed.

(** Once it has stopped, nothing moves the engine. *)
Lemma stopped_still s l s' : d_inv s -> Forall t_wf (d_threads s) -> d_raced s = false -> d_started s = true -> d_stopped s = true ->
  step l s = Some s' -> d_engine s' = d_engine s.
Proof.
  intros Hd Hw Hr Hst Hsp H. destruct (iv_calm _ Hd Hr) as (C & G). destruct l as [iom w|k| |i a]; cbn in H.
  - destruct (existsb _ _); [done|]. unfold start_open, good_config in H. rewrite Hst, andb_false_r in H. by injection H as <-.
  - by injection H as <-.
  - destruct (d_timer s); [|done]. by injection H as <-.
  - destruct (d_threads s !! i) as [t|] eqn:Ei; [|done]. destruct (thread_step t a s) as [[[t' s1] new]|] eqn:Et; [|done]. injection H as <-. cbn.
    rewrite Forall_forall in Hw, G. assert (Hin : t ∈ d_threads s) by by eapply list_elem_of_lookup_2.
    destruct (G t Hin) as (_ & _ & _ & X). destruct (cm_stopped _ C Hsp) as (S & _). destruct (cm_stop _ C S).
    destruct (thread_step_engine _ _ _ _ _ _ Et (Hw _ Hin)) as [Y _ _|? ? ? ? ? ? _ Hrun|? ? ? Hf|? Hf]; [done|congruence|..];
      rewrite Hf in X; destruct X as (_ & X & _); congruence.
Qed.

End saving.

(** ** Stops end *)

(** C11: a stop is bounded and never lost: from the moment [beginStop] has begun (and no start
    overlapped it), whatever peers, kernel and sessions do, the threads there are take at most
    [steps_left] steps; and until the daemon says it has stopped, some thread can take one by
    itself, or one waits for a peer, the kernel or its session, or was ended by an exception. *)
Theorem stop_finishes {IN : Inet} {JL : JsonLib} {SS : StdSort} o random ls s :
  run ls (daemon_new o random) = Some s -> d_raced s = false -> d_started s = true -> d_stopping s = true ->
  (forall ls' s', forallb is_step ls' = true -> run ls' s = Some s' -> Z.of_nat (length ls') <= steps_left s) /\
  (d_stopped s = true \/ (exists i a s', own a = true /\ step (L_STEP i a) s = Some s') \/
   exists t, t ∈ d_threads s /\ waits t = true).
Proof.
  intros H Hr Hst Hs. destruct (run_ok _ _ _ (d_ok_new o random) H) as [Hd Hw]. split.
  - intros ls' s' Hl H'. by eapply stop_run_left.
  - destruct (d_stopped s) eqn:E; [by left|right]. by apply stop_progress.
Qed.

(** ** On runs *)

Import DocJson.
#[local] Existing Instance insertion_StdSort.

Section daemon_runs.
Definition hub_opts : DaemonOpts := mkDaemonOpts "submit" "subscribe" "" 500 5000 60000 3000 false "db" 300000.
Definition opening : Opening := mkOpening (Some db_init) true 0 true true true.
Definition gos (i n : nat) : list Label := replicate n (L_STEP i R_GO).
Definition hub_new : Daemon := daemon_new hub_opts 77.

(** Thread 0 starts; 1 and 2 accept. *)
Definition up : list Label := L_START true opening :: gos 0 7.

(** 1 takes a connection; 3 serves it up to its first read. *)
Definition submitter : list Label := gos 1 1 ++ [L_STEP 1 R_CONN] ++ gos 1 3 ++ gos 3 2.

Definition says (body : string) : Label := L_STEP 3 (R_MSG (Some (RISK, 1, body))).

(** A report that the database refuses to write at first. *)
Definition reported : list Label := [says (riskToJson risk_long); L_STEP 3 (R_EDIT sql_bad sql_bad 1000); L_STEP 3 R_GO].

(** 4 stops; the acceptors leave. *)
Definition stops : list Label := L_STOP K_BEGIN :: gos 4 7 ++ gos 1 2 ++ gos 2 2.

(** The connection ends, and 3 finishes for all. *)
Definition finishes_all : list Label := L_STEP 3 (R_MSG None) :: gos 3 5 ++ [L_STEP 3 (R_EDIT sql_ok sql_ok 0)] ++ gos 3 2.

Definition stop_run : list Label := up ++ submitter ++ reported ++ stops ++ finishes_all.
Definition shows (r : option Daemon) : option (bool * bool * bool * bool * Z) :=
  match r with Some s => Some (d_running s, d_stopped s, d_raced s, d_threw s, d_active s) | None => None end.

(** It stops, with the rule written. *)
Example stop_run_ends :
  shows (run stop_run hub_new) = Some (false, true, false, false, 0) /\
  match run stop_run hub_new with
  | Some s => option_map (fun p => (fst p, pendingPersistence (e_pers (snd p)))) (d_last s) = Some (true, 0%nat)
  | None => False
  end.
Proof. vm_compute. split; reflexivity. Qed.

(** A report with an [id] that is no string: the decoder throws, the coroutine is ended by the
    exception and never lets go. Nobody is left to take a step, and the stop does not finish: the
    database is neither flushed nor closed. *)
Definition ill_typed : string := dump (DObj [("id"%string, DArr [])]).

Example malformed_report :
  let r := run (up ++ submitter ++ [says ill_typed] ++ stops) hub_new in
  shows r = Some (false, false, false, true, 1) /\
  match r with Some s => d_threads s = [LEAVING D_OVER; LEAVING D_OVER; LEAVING D_OVER; DEAD; STOPPER K_BEGIN G_END] | None => False end.
Proof. vm_compute. split; reflexivity. Qed.

(** [stop] before [start]: [start] succeeds, and a later stop does nothing. *)
Definition stop_first : list Label := L_STOP K_BEGIN :: gos 0 3.

Example start_after_stop :
  let r := run (stop_first ++ L_START true opening :: gos 1 7 ++ L_STOP K_BEGIN :: gos 4 2) hub_new in
  shows r = Some (true, true, true, false, 2) /\
  match r with Some s => d_threads s !! 4%nat = Some (STOPPER K_BEGIN G_END) | None => False end.
Proof. vm_compute. split; reflexivity. Qed.

(** A graceful stop does not close the connections that submit: one that is idle keeps it waiting. *)
Example idle_submitter :
  let r := run (up ++ submitter ++ stops) hub_new in
  shows r = Some (false, false, false, false, 1) /\
  match r with Some s => d_threads s !! 3%nat = Some (SUBMITTER 0 B_RECV) /\ d_closed s = ∅ | None => False end.
Proof. vm_compute. repeat split; reflexivity. Qed.
End daemon_runs.

Lemma stop_run_sane : sane_run stop_run hub_new.
Proof. vm_compute. repeat (split || (right; reflexivity) || (intros; discriminate)). Qed.


Lemma stop_finishes_witness :
  exists s, run (up ++ submitter ++ reported ++ L_STOP K_BEGIN :: gos 4 1) hub_new = Some s /\ d_stopped s = false /\ steps_left s = 54 /\
    exists i a s', own a = true /\ step (L_STEP i a) s = Some s'.
Proof.
  destruct (run (up ++ submitter ++ reported ++ L_STOP K_BEGIN :: gos 4 1) hub_new) as [s|] eqn:E; [|by vm_compute in E].
  assert (F : d_raced s = false /\ d_started s = true /\ d_stopping s = true /\ d_stopped s = false /\ steps_left s = 54)
    by (vm_compute in E; injection E as <-; split_and!; vm_compute; reflexivity).
  exists s. destruct F as (F1 & F2 & F3 & F4 & F5). split_and!; [done..|].
  destruct (stop_finishes hub_opts 77 _ s E F1 F2 F3) as (_ & [F|[F|F]]); [congruence|exact F|].
  exists 4%nat, R_GO. vm_compute in E. injection E as <-. by eexists.
Defined.
