(* ===== verification/Conf.v ===== *)
(** * Configurations (src/gateway/conf.cpp)

    From a YAML document to what a request needs: groups of endpoints, routes, lists, tokens,
    limits. The document and its conversions are a class, as the YAML library is not part of
    the program; a conversion that throws is [None] there and [Threw] here, and a
    configuration that is refused is [Rejected]. Warnings are left out. What a loaded
    configuration promises is the record [snapshot_ok]. *)

From S2P Require Import Prelude Records Str HttpMsg Body Ip InetText Rule Snap Guard Router RouteCache Breaker ConnPool Lb UpsGroup Heads Forward RateLimit Ctx Mw Waf Auth Limits Ws Chain Json.
From Stdlib Require Import SpecFloat.

Open Scope parsed_scope.

(** ** The document *)

(** [y_ok]: whether a node is defined, as its conversion to [bool] says. *)
Class YamlLib := {
  YNode : Type;
  y_ok : YNode -> bool;
  y_get : YNode -> string -> option YNode;
  y_seq : YNode -> bool;
  y_map : YNode -> bool;
  y_scalar : YNode -> bool;
  y_items : YNode -> list YNode;
  y_pairs : YNode -> list (YNode * YNode);
  as_string : YNode -> option string;
  as_bool : YNode -> option bool;
  as_int : YNode -> option Z;
  as_i64 : YNode -> option Z;
  as_u32 : YNode -> option Z;
  as_u64 : YNode -> option Z;
  as_double : YNode -> option spec_float }.

(** A conversion to an integer gives one of its type. *)
Class YamlLaws `{YamlLib} := {
  as_u32_range : forall n z, as_u32 n = Some z -> is_u32 z;
  as_u64_range : forall n z, as_u64 n = Some z -> is_u64 z }.

(** ** What is built *)

Record HealthCheckConfig := mkHc {
  hc_enabled : bool; hc_path : string; hc_intervalMs : Z; hc_timeoutMs : Z; hc_healthyThreshold : Z; hc_unhealthyThreshold : Z }.

Record EndpointCfg := mkEpCfg {
  ec_host : string; ec_port : Z; ec_weight : Z; ec_cb : CbCfg; ec_pool : ConnPoolConfig; ec_maxInflight : Z }.

Record Group := mkUps {
  ug_name : string; ug_lb : LoadBalancer; ug_totalMs : Z; ug_connectMs : Z; ug_readMs : Z; ug_health : HealthCheckConfig;
  ug_endpoints : list EndpointCfg }.

(** [sn_cache]: the capacity of the cache of routes, when it is given; [sn_policy]: what the
    ledger is to be told, when there is one. *)
Record ConfigSnapshot := mkSnapshot {
  sn_upstreams : gmap string Group; sn_table : RouteTable RuleCfg; sn_cache : option Z; sn_trusted : list Ip;
  sn_cors : CorsOptions; sn_ipFilter : IPFilterConfig; sn_waf : WafCfg; sn_rateBan : RateBanCfg;
  sn_jwt : option JwtAuthConfig; sn_auth : RouteAuthConfig; sn_timers : list (string * Z); sn_policy : option StaticPolicy }.

(** The defaults. *)
Definition cb_default : CbCfg := mkCbCfg 5 10000 10 20 50 1000 50 10000 60000 1 1 [500; 502; 503; 504].
Definition pool_default : ConnPoolConfig := mkPoolCfg 32 30000.
Definition health_default : HealthCheckConfig := mkHc false "/healthz" 5000 1000 1 2.
Definition cors_default : CorsOptions :=
  mkCors true "*" [] "GET, POST, PUT, DELETE, OPTIONS" "Content-Type, Authorization" false 86400 true.
Definition auth_default : RouteAuthConfig := mkAuthCfg false "X-API-Key" [] [] false true true "X-User-".

Section conf.
Context {IN : Inet} {YL : YamlLib} {ST : StableSort} (resolves : string -> bool).
#[local] Existing Instance double.

(** ** Reading *)

(** [n[k] ? n[k].as<T>() : dflt]. *)
Definition field {A} (read : YNode -> option A) (n : YNode) (k : string) (dflt : A) : parsed A :=
  c <- conv (y_get n k) ;; if y_ok c then conv (read c) else Parsed dflt.

(** [if(n[k]) { ... }]. *)
Definition section {A} (n : YNode) (k : string) (f : YNode -> parsed A) (dflt : A) : parsed A :=
  c <- conv (y_get n k) ;; if y_ok c then f c else Parsed dflt.

(** A loop that adds to what it has, or skips. *)
Fixpoint pfold {A B} (f : B -> A -> parsed B) (b : B) (l : list A) : parsed B :=
  match l with [] => Parsed b | x :: l => b <- f b x ;; pfold f b l end.

Definition clampPositiveU32 (parent : YNode) (key : string) (current minValue maxValue : Z) : parsed Z :=
  if negb (y_ok parent) then Parsed current
  else
    c <- conv (y_get parent key) ;;
    if negb (y_ok c) then Parsed current
    else
      raw <- conv (as_i64 c) ;;
      Parsed (if raw <? minValue then minValue else if raw >? maxValue then maxValue else wrap32 raw).

Definition lower_ascii (s : string) : string := lower s.

Definition norm_jwt_algo (raw : string) : string :=
  let algo := lower_ascii (trim_ascii raw) in
  (if String.eqb algo "hs256" then "HS256" else if String.eqb algo "rs256" then "RS256"
   else if String.eqb algo "es256" then "ES256" else "")%string.

(** [None]: it returned false, also for a conversion that throws. *)
Fixpoint read_vals (items : list YNode) : option (list string) :=
  match items with
  | [] => Some []
  | item :: items =>
      if negb (y_scalar item) then None
      else match as_string item with
           | Some val => if String.eqb val "" then None else match read_vals items with Some l => Some (val :: l) | None => None end
           | None => None
           end
  end.

Definition read_needs (node : YNode) : option (list string) :=
  if negb (y_ok node) then Some [] else if negb (y_seq node) then None else read_vals (y_items node).

(** The elements of a sequence as strings; any other node has none. *)
Definition strings (n : YNode) : parsed (list string) :=
  if y_ok n && y_seq n then pmap (fun x => conv (as_string x)) (y_items n) else Parsed [].

Definition parse_cors (root : YNode) : parsed CorsOptions :=
  section root "cors" (fun c =>
    enabled <- field as_bool c "enabled" true ;;
    origin <- field as_string c "allow_origin" "*"%string ;;
    os <- conv (y_get c "allow_origins") ;;
    origins <- (if y_ok os && y_seq os
                then pfold (fun l o => if y_scalar o then v <- conv (as_string o) ;;
                                         Parsed (if String.eqb (trim_ascii v) "" then l else l ++ [trim_ascii v]) else Parsed l)
                       [] (y_items os)
                else Parsed []) ;;
    methods <- field as_string c "allow_methods" (co_allowMethods cors_default) ;;
    headers <- field as_string c "allow_headers" (co_allowHeaders cors_default) ;;
    creds <- field as_bool c "allow_credentials" false ;;
    age <- clampPositiveU32 c "max_age" 86400 0 INT32_MAX ;;
    short <- field as_bool c "short_circuit_preflight" true ;;
    Parsed (mkCors enabled origin origins methods headers creds age short)) cors_default.

(** ** Upstreams *)

Definition parse_statuses (n : YNode) (dflt : list Z) : parsed (list Z) :=
  if y_ok n && y_seq n
  then pfold (fun l s => status <- conv (as_int s) ;;
                Parsed (if (100 <=? status) && (status <=? 599) then l ++ [status] else l)) [] (y_items n)
  else Parsed dflt.

Definition parse_breaker (cb : YNode) : parsed CbCfg :=
  let d := cb_default in
  failures <- clampPositiveU32 cb "failure_threshold" (failureThreshold d) 1 UINT32_MAX ;;
  window <- clampPositiveU32 cb "window_ms" (windowMs d) 1 UINT32_MAX ;;
  buckets <- clampPositiveU32 cb "buckets" (nbuckets d) 1 1024 ;;
  minReq <- clampPositiveU32 cb "min_requests" (minRequests d) 1 UINT32_MAX ;;
  rate <- clampPositiveU32 cb "failure_rate" (cf_failureRate d) 0 100 ;;
  slow <- clampPositiveU32 cb "slow_ms" (slowMs d) 1 UINT32_MAX ;;
  slowR <- clampPositiveU32 cb "slow_rate" (cf_slowRate d) 0 100 ;;
  openT <- clampPositiveU32 cb "open_timeout_ms" (openTimeoutMs d) 1 UINT32_MAX ;;
  maxOpen <- clampPositiveU32 cb "max_open_timeout_ms" (maxOpenTimeoutMs d) openT UINT32_MAX ;;
  half <- clampPositiveU32 cb "half_open_max_requests" (halfOpenMaxRequests d) 1 UINT32_MAX ;;
  succ <- clampPositiveU32 cb "half_open_successes" (halfOpenSuccesses d) 1 half ;;
  fs <- conv (y_get cb "failure_statuses") ;;
  statuses <- parse_statuses fs (failureStatuses d) ;;
  Parsed (mkCbCfg failures window buckets minReq rate slow slowR openT maxOpen half succ statuses).

Definition parse_pool (p : YNode) : parsed ConnPoolConfig :=
  idle <- clampPositiveU32 p "max_idle" (maxIdle pool_default) 0 UINT32_MAX ;;
  timeout <- clampPositiveU32 p "idle_timeout_ms" (idleTimeoutMs pool_default) 1 UINT32_MAX ;;
  Parsed (mkPoolCfg idle timeout).

Definition parse_health (h : YNode) : parsed HealthCheckConfig :=
  let d := health_default in
  enabled <- field as_bool h "enabled" false ;;
  path <- field as_string h "path" "/healthz"%string ;;
  interval <- clampPositiveU32 h "interval_ms" (hc_intervalMs d) 1 UINT32_MAX ;;
  timeout <- clampPositiveU32 h "timeout_ms" (hc_timeoutMs d) 1 UINT32_MAX ;;
  up <- clampPositiveU32 h "healthy_threshold" (hc_healthyThreshold d) 1 UINT32_MAX ;;
  down <- clampPositiveU32 h "unhealthy_threshold" (hc_unhealthyThreshold d) 1 UINT32_MAX ;;
  Parsed (mkHc enabled path interval timeout up down).

Definition parse_weight (e : YNode) : parsed Z :=
  section e "weight" (fun w =>
    raw <- conv (as_i64 w) ;;
    Parsed (if raw <=? 0 then 1 else if raw >? kMaxLoadBalancerWeight then kMaxLoadBalancerWeight else wrap32 raw)) 1.

Definition parse_endpoint (cb : CbCfg) (pool : ConnPoolConfig) (maxInflight : Z) (eps : list EndpointCfg) (e : YNode) : parsed (list EndpointCfg) :=
  host <- field as_string e "host" ""%string ;;
  port <- field as_u32 e "port" 80 ;;
  weight <- parse_weight e ;;
  Parsed (if String.eqb host "" || negb (resolves host) then eps else eps ++ [mkEpCfg host port weight cb pool maxInflight]).

Definition parse_timeouts (t : YNode) : parsed (Z * Z * Z) :=
  total <- clampPositiveU32 t "total_ms" 30000 1 UINT32_MAX ;;
  connect <- clampPositiveU32 t "connect_ms" 3000 1 UINT32_MAX ;;
  read <- clampPositiveU32 t "read_ms" 30000 1 UINT32_MAX ;;
  Parsed (total, connect, read).

(** One entry of the list; a later one of the same name replaces an earlier one. *)
Definition parse_upstream (reg : gmap string Group) (u : YNode) : parsed (gmap string Group) :=
  name <- field as_string u "name" ""%string ;;
  if String.eqb name "" then Parsed reg
  else
    lb <- field as_string u "lb" "round_robin"%string ;;
    let lb := if IsSupportedLoadBalancer lb then lb else "round_robin"%string in
    timeouts <- section u "timeout" parse_timeouts (30000, 3000, 30000) ;;
    maxInflight <- section u "limits" (fun l => clampPositiveU32 l "max_inflight" 0 0 INT32_MAX) 0 ;;
    cb <- section u "circuit_breaker" parse_breaker cb_default ;;
    pool <- section u "connection_pool" parse_pool pool_default ;;
    health <- section u "health_check" parse_health health_default ;;
    es <- conv (y_get u "endpoints") ;;
    endpoints <- (if y_ok es && y_seq es then pfold (parse_endpoint cb pool maxInflight) [] (y_items es) else Parsed []) ;;
    let '(total, connect, read) := timeouts in
    Parsed (<[name := mkUps name (MakeLoadBalancer lb) total connect read health endpoints]> reg).

Definition parse_upstreams (node : YNode) : parsed (gmap string Group) :=
  if negb (y_ok node) || negb (y_seq node) then Parsed ∅ else pfold parse_upstream ∅ (y_items node).

(** ** Routes *)

(** With a leading slash. *)
Definition slashed (path : string) : string :=
  match path with EmptyString => "/" | String c _ => if Ascii.eqb c "/" then path else String "/" path end.

(** [std::map]: ordered by key, a key set again takes the new value. *)
Fixpoint map_set (k v : string) (m : list (string * string)) : list (string * string) :=
  match m with
  | [] => [(k, v)]
  | (k', v') :: m' => if String.eqb k k' then (k, v) :: m' else if String.ltb k k' then (k, v) :: m else (k', v') :: map_set k v m'
  end.

Definition parse_req_headers (rh : YNode) : parsed (list (string * string) * list string) :=
  set_ <- conv (y_get rh "set") ;;
  pairs <- (if y_ok set_ && y_map set_
            then pfold (fun m kv => k <- conv (as_string kv.1) ;; v <- conv (as_string kv.2) ;; Parsed (map_set k v m)) [] (y_pairs set_)
            else Parsed []) ;;
  rm <- conv (y_get rh "remove") ;;
  removed <- strings rm ;;
  Parsed (pairs, removed).

(** Whether there is a limit, its key, its capacity and its rate. *)
Definition parse_rate_limit (rl : YNode) : parsed (bool * string * spec_float * spec_float) :=
  on <- field as_bool rl "enabled" false ;;
  capacity <- field as_double rl "capacity" (n_of 0) ;;
  refill <- field as_double rl "refill_per_sec" (n_of 0) ;;
  key <- field as_string rl "key" "ip"%string ;;
  let capacity := if n_lt capacity (n_of 0) then n_of 0 else capacity in
  let refill := if n_lt refill (n_of 0) then n_of 0 else refill in
  Parsed (on, if String.eqb key "ip" || String.eqb key "user" then key else "ip"%string, capacity, refill).

Definition parse_auth_policy (auth : YNode) : parsed string :=
  raw <- (if y_scalar auth then conv (as_string auth)
          else field as_string auth "policy" "inherit"%string) ;;
  let policy := lower_ascii (trim_ascii raw) in
  Parsed (if String.eqb policy "" then "inherit"%string else policy).

(** The type of a match: [None] for one that is not supported. *)
Definition parse_match_type (r : YNode) : parsed (option MatchType) :=
  raw <- field as_string r "match_type" "prefix"%string ;;
  let mt := lower_ascii (trim_ascii raw) in
  Parsed (if String.eqb mt "exact" then Some EXACT else if String.eqb mt "prefix" then Some PREFIX else None).

Definition parse_rule (reg : gmap string Group) (rules : list (RouteRule RuleCfg)) (r : YNode) : parsed (list (RouteRule RuleCfg)) :=
  name <- field as_string r "name" ""%string ;;
  mt <- parse_match_type r ;;
  match mt with
  | None => Parsed rules
  | Some mt =>
      path <- field as_string r "path" "/"%string ;;
      let path := slashed path in
      upstream <- field as_string r "upstream" ""%string ;;
      strip <- field as_bool r "strip_prefix" false ;;
      rewrite <- field as_string r "rewrite_prefix" ""%string ;;
      let rewrite := if String.eqb rewrite "" then ""%string else slashed rewrite in
      host <- field as_string r "host" ""%string ;;
      priority <- field as_int r "priority" 0 ;;
      ms <- conv (y_get r "methods") ;;
      methods <- strings ms ;;
      headers <- section r "request_headers" parse_req_headers ([], []) ;;
      limit <- section r "rate_limit" parse_rate_limit (false, ""%string, n_of 0, n_of 0) ;;
      policy <- section r "auth" parse_auth_policy "inherit"%string ;;
      scopes <- conv (y_get r "require_scopes") ;;
      match read_needs scopes with
      | None => Parsed rules
      | Some scopes =>
          roles <- conv (y_get r "require_roles") ;;
          match read_needs roles with
          | None => Parsed rules
          | Some roles =>
              if String.eqb upstream "" || negb (bool_decide (is_Some (reg !! upstream))) then Parsed rules
              else
                let '(on, key, capacity, refill) := limit in
                Parsed (rules ++ [mkRule name mt path methods host upstream priority 0
                  (mkRuleCfg policy scopes roles on key capacity refill (mkRewrite path strip rewrite headers.1 headers.2))])
          end
      end
  end.

Definition parse_router (node : YNode) (reg : gmap string Group) : parsed (RouteTable RuleCfg) :=
  if negb (y_ok node) || negb (y_seq node) then Parsed table_init
  else rules <- pfold (parse_rule reg) [] (y_items node) ;; Parsed (table_of rules).

(** ** The rest *)

Definition parse_cache (rt : YNode) : parsed (option Z) :=
  cap <- field as_u64 rt "cap" 1024 ;;
  if cap =? 0 then Threw else Parsed (Some cap).

Definition parse_trusted (node : YNode) : parsed (list Ip) :=
  if y_ok node && y_seq node
  then pfold (fun l c => s <- conv (as_string c) ;; Parsed (match parseCidr s with Some ip => l ++ [ip] | None => l end)) [] (y_items node)
  else Parsed [].

Definition parse_ip_filter (f : YNode) : parsed IPFilterConfig :=
  en <- field as_bool f "enabled" false ;;
  mode <- field as_string f "mode" "denylist"%string ;;
  let mode := if String.eqb mode "allowlist" || String.eqb mode "denylist" then mode else "denylist"%string in
  cs <- conv (y_get f "cidrs") ;;
  cidrs <- strings cs ;;
  Parsed (mkIpFilter en mode cidrs).

Definition parse_waf (w : YNode) : parsed WafCfg :=
  on <- field as_bool w "enabled" false ;;
  ban <- field as_u64 w "ban_ms" 600000 ;;
  Parsed (mkWaf on ban).

Definition parse_rate_report (rr : YNode) : parsed RateBanCfg :=
  on <- field as_bool rr "enabled" false ;;
  hits <- field as_u32 rr "hits" 20 ;;
  window <- field as_u64 rr "window_ms" 60000 ;;
  ban <- field as_u64 rr "ban_ms" 300000 ;;
  Parsed (mkRateBan on hits window ban).

Definition parse_policy (p : YNode) : parsed (WafCfg * RateBanCfg) :=
  waf <- section p "waf" parse_waf (mkWaf false 600000) ;;
  ban <- section p "rate_report" parse_rate_report (mkRateBan false 20 60000 300000) ;;
  Parsed (waf, ban).

Definition parse_jwt_key (algo pubKey : string) (keys : list JwtKey) (item : YNode) : parsed (list JwtKey) :=
  if negb (y_map item) then Parsed keys
  else
    kid <- field as_string item "kid" ""%string ;;
    a <- section item "algo" (fun x => s <- conv (as_string x) ;; Parsed (norm_jwt_algo s)) algo ;;
    pub <- field as_string item "public_key" ""%string ;;
    Parsed (if String.eqb kid "" || String.eqb pub "" || negb (String.eqb a algo) || bool_decide (kid ∈ map jk_kid keys)
            then keys else keys ++ [mkJwtKey kid a pub]).

(** Whether it is on, and the configuration. *)
Definition parse_jwt (j : YNode) : parsed (bool * JwtAuthConfig) :=
  on <- field as_bool j "enabled" false ;;
  algo <- field as_string j "algo" "HS256"%string ;;
  let algo := norm_jwt_algo algo in
  secret <- field as_string j "secret" ""%string ;;
  pub <- field as_string j "public_key" ""%string ;;
  issuer <- field as_string j "issuer" ""%string ;;
  aud <- field as_string j "audience" ""%string ;;
  leeway <- field as_u32 j "leeway_sec" 0 ;;
  ks <- conv (y_get j "keys") ;;
  keys <- (if y_ok ks && y_seq ks then pfold (parse_jwt_key algo pub) [] (y_items ks) else Parsed []) ;;
  Parsed (on, mkJwtCfg algo secret pub issuer aud leeway keys).

(** The keys in clear, and those by their hash. *)
Definition parse_api_entry (l : list string * list ApiKey) (k : YNode) : parsed (list string * list ApiKey) :=
  let '(plain, keys) := l in
  if y_scalar k then s <- conv (as_string k) ;; Parsed (plain ++ [s], keys)
  else
    key <- conv (y_get k "key") ;;
    if y_ok key then s <- conv (as_string key) ;; Parsed (plain ++ [s], keys)
    else
      id <- field as_string k "id" ""%string ;;
      hash <- section k "hash" (fun x => s <- conv (as_string x) ;; Parsed (lower_ascii s)) ""%string ;;
      enabled <- field as_bool k "enabled" true ;;
      sc <- conv (y_get k "scopes") ;;
      Parsed (match read_needs sc with
              | None => (plain, keys)
              | Some scopes =>
                  if String.eqb id "" || negb (String.length hash =? 64)%nat || bool_decide (id ∈ map ak_id keys)
                  then (plain, keys) else (plain, keys ++ [mkApiKey id hash enabled scopes])
              end).

Definition parse_api_key (ak : YNode) : parsed (string * list string * list ApiKey) :=
  header <- field as_string ak "header" (au_apiKeyHeader auth_default) ;;
  ks <- conv (y_get ak "keys") ;;
  l <- (if y_ok ks && y_seq ks then pfold parse_api_entry ([], []) (y_items ks) else Parsed ([], [])) ;;
  Parsed (header, l.1, l.2).

Definition parse_forward (fw : YNode) : parsed (bool * bool * bool * string) :=
  on <- field as_bool fw "enabled" false ;;
  bearer <- field as_bool fw "strip_bearer" true ;;
  key <- field as_bool fw "strip_api_key" true ;;
  prefix <- field as_string fw "prefix" (au_fwdPrefix auth_default) ;;
  Parsed (on, bearer, key, prefix).

(** [root["auth"] && root["auth"][k]]. *)
Definition auth_section {A} (root : YNode) (k : string) (f : YNode -> parsed A) (dflt : A) : parsed A :=
  section root "auth" (fun a => section a k f dflt) dflt.

Definition parse_auth (root : YNode) : parsed (option JwtAuthConfig * RouteAuthConfig) :=
  jwt <- auth_section root "jwt" (fun j => x <- parse_jwt j ;; Parsed (Some x)) None ;;
  api <- auth_section root "api_key" parse_api_key (au_apiKeyHeader auth_default, [], []) ;;
  fw <- auth_section root "forward" parse_forward (false, true, true, au_fwdPrefix auth_default) ;;
  let '(header, plain, keys) := api in
  let '(on, bearer, key, prefix) := fw in
  let enabled := match jwt with Some (on, _) => on | None => false end in
  Parsed (if enabled then snd <$> jwt else None, mkAuthCfg enabled header plain keys on bearer key prefix).

(** The timers of the groups with a health check, in the order of the registry. *)
Definition health_timers (reg : gmap string Group) : list (string * Z) :=
  omap (fun kv : string * Group =>
          let hc := ug_health kv.2 in
          if hc_enabled hc then Some (kv.1, if hc_intervalMs hc =? 0 then 5000 else hc_intervalMs hc) else None)
       (map_to_list reg).

Definition static_cfg (f : IPFilterConfig) : StaticFilterCfg := mkStaticFilterCfg (if_enabled f) (if_mode f) (if_cidrs f).

(** Networks that do not parse. *)
Definition bad_cidrs (cidrs : list string) : nat :=
  length (List.filter (fun c => match parseCidr c with Some _ => false | None => true end) cidrs).

(** [guard]: there is a ledger; [iom]: there is an I/O manager for the timers. *)
Definition BuildSnapshotFromYaml (root : YNode) (iom guard : bool) : parsed ConfigSnapshot :=
  us <- conv (y_get root "upstreams") ;;
  reg <- parse_upstreams us ;;
  rs <- conv (y_get root "routes") ;;
  table <- parse_router rs reg ;;
  cache <- section root "rt_cache" parse_cache None ;;
  tp <- conv (y_get root "trusted_proxies") ;;
  trusted <- parse_trusted tp ;;
  cors <- parse_cors root ;;
  ipCfg <- section root "ip_filter" parse_ip_filter (mkIpFilter false "denylist" []) ;;
  need (bad_cidrs (if_cidrs ipCfg) =? 0)%nat (
  let '(rules, def, _) := staticRulesFromCfg (static_cfg ipCfg) in
  policy <- section root "ip_policy" parse_policy (mkWaf false 600000, mkRateBan false 20 60000 300000) ;;
  auth <- parse_auth root ;;
  Parsed (mkSnapshot reg table cache trusted cors ipCfg policy.1 policy.2 auth.1 auth.2
            (if iom then health_timers reg else []) (if guard then Some (mkStaticPolicy (if_enabled ipCfg) def rules) else None))).

(** ** The chain of a snapshot *)

(** What forwarding reads of a group. *)
Definition group_cfg (g : Group) : GroupCfg :=
  mkGroup (ug_totalMs g) (ug_connectMs g) (ug_readMs g)
    (norm_cfg (match ug_endpoints g with e :: _ => ec_cb e | [] => cb_default end))
    (fun i => match ug_endpoints g !! i with Some e => (ec_host e, ec_port e) | None => (""%string, 0) end).

(** The endpoints of a group, as the search begins with them. *)
Definition group_endpoints (g : Group) : list Endpoint :=
  map (fun e => endpoint_init (ec_weight e) (ec_cb e) (ec_maxInflight e)) (ug_endpoints g).

Definition route_match (sn : ConfigSnapshot) (req : GwRequest) : @RouteResult RuleCfg GroupCfg :=
  compute (fun name => group_cfg <$> sn_upstreams sn !! name) (Some (sn_table sn)) (req_method_name req) (req_host req)
    (route_path (Some default_extractor) req).

(** [guard]: the switch and the decisions of the ledger; the rest is found outside. *)
Definition chain_cfg (sn : ConfigSnapshot) (mix : Z) (guard : option (bool * (Ip -> Verdict))) (gate reporter : bool)
    (ws : WsOutside) (out : Outside) : ChainCfg :=
  mkChain mix (sn_cors sn) guard (sn_ipFilter sn) gate (sn_waf sn) reporter (route_match sn) (sn_jwt sn) (sn_auth sn)
    (sn_rateBan sn) ws out.
End conf.

(** ** What a loaded configuration promises *)

Definition positive32 (z : Z) : Prop := 1 <= z <= UINT32_MAX.

(** The constructor of a breaker has nothing to correct but a longest pause below the first. *)
Definition cb_ok (c : CbCfg) : Prop :=
  norm_cfg c = mkCbCfg (failureThreshold c) (windowMs c) (nbuckets c) (minRequests c) (cf_failureRate c) (slowMs c) (cf_slowRate c)
    (openTimeoutMs c) (Z.max (openTimeoutMs c) (maxOpenTimeoutMs c)) (halfOpenMaxRequests c) (halfOpenSuccesses c) (failureStatuses c) /\
  nbuckets c <= 1024 /\ 0 <= cf_failureRate c /\ 0 <= cf_slowRate c /\ Forall (fun s => 100 <= s <= 599) (failureStatuses c).

Record endpoint_ok (e : EndpointCfg) : Prop := {
  eo_host : ec_host e <> ""%string; eo_port : is_u32 (ec_port e); eo_weight : 1 <= ec_weight e <= kMaxLoadBalancerWeight;
  eo_cb : cb_ok (ec_cb e); eo_pool : 0 <= maxIdle (ec_pool e) <= UINT32_MAX /\ positive32 (idleTimeoutMs (ec_pool e));
  eo_max : 0 <= ec_maxInflight e <= INT32_MAX }.

Record group_ok (name : string) (g : Group) : Prop := {
  go_name : ug_name g = name /\ name <> ""%string;
  go_lb : exists type, IsSupportedLoadBalancer type = true /\ ug_lb g = MakeLoadBalancer type;
  go_times : positive32 (ug_totalMs g) /\ positive32 (ug_connectMs g) /\ positive32 (ug_readMs g);
  go_health : let h := ug_health g in positive32 (hc_intervalMs h) /\ positive32 (hc_timeoutMs h) /\
    positive32 (hc_healthyThreshold h) /\ positive32 (hc_unhealthyThreshold h);
  go_endpoints : Forall endpoint_ok (ug_endpoints g) }.

Definition with_slash (p : string) : Prop := exists p', p = String "/" p'.

Record route_ok (reg : gmap string Group) (r : RouteRule RuleCfg) : Prop := {
  ro_path : with_slash (rr_pathPattern r) /\ w_pathPattern (rc_rewrite (rr_rest r)) = rr_pathPattern r;
  ro_rewrite : w_rewritePrefix (rc_rewrite (rr_rest r)) = ""%string \/ with_slash (w_rewritePrefix (rc_rewrite (rr_rest r)));
  ro_upstream : is_Some (reg !! rr_upstream r);
  ro_limit : rc_rateLimitKey (rr_rest r) = "ip"%string \/ rc_rateLimitKey (rr_rest r) = "user"%string \/
    rc_rateLimitEnabled (rr_rest r) = false;
  ro_bucket : n_lt (Arith := double) (rc_rateLimitCapacity (rr_rest r)) (n_of (Arith := double) 0) = false /\
    n_lt (Arith := double) (rc_rateLimitRefillPerSec (rr_rest r)) (n_of (Arith := double) 0) = false;
  ro_policy : rc_authPolicy (rr_rest r) <> ""%string;
  ro_needs : Forall (fun s => s <> ""%string) (rc_reqScopes (rr_rest r)) /\ Forall (fun s => s <> ""%string) (rc_reqRoles (rr_rest r)) }.

Record keys_ok (jwt : option JwtAuthConfig) (auth : RouteAuthConfig) : Prop := {
  ko_jwt : forall j, jwt = Some j ->
    NoDup (map jk_kid (jc_keys j)) /\
    Forall (fun k => jk_kid k <> ""%string /\ jk_pubKey k <> ""%string /\ jk_algo k = jc_algo j) (jc_keys j);
  ko_global : au_globalJwtEnabled auth = match jwt with Some _ => true | None => false end;
  ko_api : NoDup (map ak_id (au_keys auth)) /\ Forall (fun k => ak_id k <> ""%string /\ String.length (ak_hash k) = 64%nat) (au_keys auth) }.

Record snapshot_ok `{Inet} (iom guard : bool) (sn : ConfigSnapshot) : Prop := {
  so_groups : map_Forall group_ok (sn_upstreams sn);
  so_routes : Forall (route_ok (sn_upstreams sn)) (t_rules (sn_table sn));
  so_cache : forall c, sn_cache sn = Some c -> 0 < c <= UINT64_MAX;
  so_trusted : Forall canonical (sn_trusted sn);
  so_age : 0 <= co_maxAge (sn_cors sn) <= INT32_MAX;
  so_filter : Forall (fun c => is_Some (parseCidr c)) (if_cidrs (sn_ipFilter sn));
  so_waf : is_u64 (wc_banMs (sn_waf sn)) /\ is_u32 (rb_hits (sn_rateBan sn)) /\ is_u64 (rb_windowMs (sn_rateBan sn)) /\ is_u64 (rb_banMs (sn_rateBan sn));
  so_keys : keys_ok (sn_jwt sn) (sn_auth sn);
  so_timers : forall n i, (n, i) ∈ sn_timers sn <-> iom = true /\ exists g, sn_upstreams sn !! n = Some g /\
    hc_enabled (ug_health g) = true /\ i = hc_intervalMs (ug_health g);
  so_policy : sn_policy sn = if guard then
    let '(rules, def, _) := staticRulesFromCfg (static_cfg (sn_ipFilter sn)) in Some (mkStaticPolicy (if_enabled (sn_ipFilter sn)) def rules)
    else None }.

(** Takes a successful reading apart. *)
Ltac unread :=
  repeat (match goal with
  | H : need ?b _ = Parsed _ |- _ => destruct b eqn:?; cbn [need] in H; [|discriminate H]
  | H : pbind ?m _ = Parsed _ |- _ => destruct m eqn:?; cbn [pbind] in H; [|discriminate H|discriminate H]
  | H : conv ?o = Parsed _ |- _ => destruct o eqn:?; cbn [conv] in H; [|discriminate H]
  | H : Parsed _ = Parsed _ |- _ => injection H as H
  end; simplify_eq).

Section sound.
Context {IN : Inet} {IL : InetLaws} {YL : YamlLib} {YW : YamlLaws} {ST : StableSort} (resolves : string -> bool).
#[local] Existing Instance double.

Lemma field_inv {A} (read : YNode -> option A) n k d v : field read n k d = Parsed v -> v = d \/ exists c, read c = Some v.
Proof. unfold field. intros H. unread. case_match; unread; eauto. Qed.

Lemma section_inv {A} n k (f : YNode -> parsed A) d v : section n k f d = Parsed v -> v = d \/ exists c, f c = Parsed v.
Proof. unfold section. intros H. unread. case_match; unread; eauto. Qed.

Lemma pfold_inv {A B} (P : B -> Prop) (f : B -> A -> parsed B) l b r :
  (forall b x b', P b -> f b x = Parsed b' -> P b') -> P b -> pfold f b l = Parsed r -> P r.
Proof.
  intros Hf. revert b. induction l as [|x l IH]; intros b Hb H; cbn in H; unread; [done|]. eapply IH; [|done]. by eapply Hf.
Qed.

Lemma clamp_inv p k cur lo hi z : 0 <= lo -> lo <= hi -> hi <= UINT32_MAX ->
  clampPositiveU32 p k cur lo hi = Parsed z -> z = cur \/ lo <= z <= hi.
Proof.
  unfold clampPositiveU32. intros Hl Hlh Hh H. destruct (negb (y_ok p)); unread; [by left|].
  destruct (negb _); unread; [by left|]. right.
  destruct (_ <? lo) eqn:E1; b2p; [lia|]. destruct (_ >? hi) eqn:E2; b2p; [lia|].
  rewrite wrap32_id; [lia|]. unfold is_u32, UINT32_MAX in *. lia.
Qed.

Lemma clamp_between l h p k cur lo hi z : 0 <= lo <= hi -> hi <= UINT32_MAX -> l <= cur <= h -> l <= lo -> hi <= h ->
  clampPositiveU32 p k cur lo hi = Parsed z -> l <= z <= h.
Proof. intros H1 H2 H3 H4 H5 H. apply clamp_inv in H; lia. Qed.

(** The readings of numbers, one after another: within the bounds given, or of the type. *)
Ltac clamped :=
  repeat match goal with
  | H : clampPositiveU32 _ _ _ ?lo ?hi = Parsed _ |- _ =>
      first [apply (clamp_between lo hi) in H; [|cbn; unfold UINT32_MAX, INT32_MAX in *; lia..]
            |apply (clamp_between 1 UINT32_MAX) in H; [|cbn; unfold UINT32_MAX, INT32_MAX in *; lia..]]
  end.

Lemma parse_statuses_ok n d l : Forall (fun s => 100 <= s <= 599) d -> parse_statuses n d = Parsed l -> Forall (fun s => 100 <= s <= 599) l.
Proof.
  intros Hd. unfold parse_statuses. destruct (y_ok n && y_seq n); [|intros H; by unread].
  apply pfold_inv; [|constructor]. intros l0 x l' Hl Hx. unread.
  destruct (_ && _) eqn:E; [|done]. b2p. apply Forall_app. split; [done|]. by constructor.
Qed.

Lemma parse_breaker_ok n c : parse_breaker n = Parsed c -> cb_ok c.
Proof.
  unfold parse_breaker. intros H. unread. clamped.
  match goal with H : parse_statuses _ _ = Parsed _ |- _ => apply parse_statuses_ok in H; [|by repeat constructor] end.
  unfold cb_ok, norm_cfg; cbn in *. unfold UINT32_MAX in *. split_and!; try (done || lia). f_equal; lia.
Qed.

Lemma cb_default_ok : cb_ok cb_default.
Proof. unfold cb_ok. split_and!; by repeat constructor. Qed.

Lemma parse_pool_ok n c : parse_pool n = Parsed c -> 0 <= maxIdle c <= UINT32_MAX /\ positive32 (idleTimeoutMs c).
Proof. unfold parse_pool, positive32. intros H. unread. clamped. cbn in *. unfold UINT32_MAX in *. lia. Qed.

Lemma parse_health_ok n h : parse_health n = Parsed h -> positive32 (hc_intervalMs h) /\ positive32 (hc_timeoutMs h) /\
  positive32 (hc_healthyThreshold h) /\ positive32 (hc_unhealthyThreshold h).
Proof. unfold parse_health, positive32. intros H. unread. clamped. cbn in *. unfold UINT32_MAX in *. lia. Qed.

Lemma parse_weight_ok e w : parse_weight e = Parsed w -> 1 <= w <= kMaxLoadBalancerWeight.
Proof.
  intros H. unfold kMaxLoadBalancerWeight in *. apply section_inv in H as [->|(c & H)]; [lia|]. unread.
  destruct (_ <=? 0) eqn:E1; b2p; [lia|]. destruct (_ >? _) eqn:E2; b2p; [unfold kMaxLoadBalancerWeight in *; lia|].
  unfold kMaxLoadBalancerWeight in *. rewrite wrap32_id; [lia|]. unfold is_u32. lia.
Qed.

Lemma parse_endpoint_ok cb pool max eps e eps' : cb_ok cb -> 0 <= maxIdle pool <= UINT32_MAX /\ positive32 (idleTimeoutMs pool) ->
  0 <= max <= INT32_MAX -> Forall endpoint_ok eps -> parse_endpoint resolves cb pool max eps e = Parsed eps' -> Forall endpoint_ok eps'.
Proof.
  intros Hc Hp Hm He. unfold parse_endpoint. intros H. unread.
  destruct (String.eqb _ _ || _) eqn:E; [done|]. b2p. apply Forall_app. split; [done|]. constructor; [|constructor].
  constructor; cbn; try done; [by apply String.eqb_neq| |by eapply parse_weight_ok].
  match goal with H : field as_u32 _ _ _ = Parsed _ |- _ => apply field_inv in H as [->|(c & H)]; [done|by eapply as_u32_range] end.
Qed.

Lemma section_keep {A} (P : A -> Prop) n k (f : YNode -> parsed A) d v :
  P d -> (forall c w, f c = Parsed w -> P w) -> section n k f d = Parsed v -> P v.
Proof. intros Hd Hf H. apply section_inv in H as [->|(c & H)]; eauto. Qed.

Lemma parse_timeouts_ok t r : parse_timeouts t = Parsed r ->
  positive32 r.1.1 /\ positive32 r.1.2 /\ positive32 r.2.
Proof. unfold parse_timeouts, positive32. intros H. unread. clamped. cbn. lia. Qed.

Lemma lb_supported lb : exists type, IsSupportedLoadBalancer type = true /\
  MakeLoadBalancer (if IsSupportedLoadBalancer lb then lb else "round_robin"%string) = MakeLoadBalancer type.
Proof. destruct (IsSupportedLoadBalancer lb) eqn:E; eauto. by exists "round_robin"%string. Qed.

Lemma parse_upstream_ok reg u reg' : map_Forall group_ok reg -> parse_upstream resolves reg u = Parsed reg' -> map_Forall group_ok reg'.
Proof.
  intros Hr. unfold parse_upstream. intros H. unread. destruct (String.eqb _ "") eqn:En; [by unread|]. unread.
  match goal with H : section _ "timeout" _ _ = _ |- _ => eapply (section_keep (fun r => positive32 r.1.1 /\ positive32 r.1.2 /\ positive32 r.2)) in H;
    [|by unfold positive32|exact parse_timeouts_ok]; rename H into Ht end.
  match goal with H : section _ "limits" _ _ = _ |- _ => eapply (section_keep (fun r => 0 <= r <= INT32_MAX)) in H;
    [|done|intros c w X; by clamped]; rename H into Hm end.
  match goal with H : section _ "circuit_breaker" _ _ = _ |- _ => eapply section_keep in H; [|exact cb_default_ok|exact parse_breaker_ok]; rename H into Hb end.
  match goal with H : section _ "connection_pool" _ _ = _ |- _ => eapply section_keep in H; [| |exact parse_pool_ok]; [rename H into Hp|done] end.
  match goal with H : section _ "health_check" _ _ = _ |- _ => eapply section_keep in H; [| |exact parse_health_ok]; [rename H into Hh|by split_and!] end.
  destruct a1 as [[total connect] read]. unread. cbn in Ht. apply map_Forall_insert_2; [|done].
  constructor; cbn; [split; [done|by apply String.eqb_neq]|apply lb_supported|done|exact Hh|].
  match goal with H : (if _ then pfold _ _ _ else _) = Parsed _ |- _ => destruct (_ && _); [eapply (pfold_inv (Forall endpoint_ok)) in H; [exact H| |constructor]|unread; constructor] end.
  intros eps e eps' He. by eapply parse_endpoint_ok.
Qed.

Lemma parse_upstreams_ok n reg : parse_upstreams resolves n = Parsed reg -> map_Forall group_ok reg.
Proof.
  unfold parse_upstreams. destruct (_ || _); intros H; [unread; apply map_Forall_empty|].
  eapply (pfold_inv (map_Forall group_ok)); [|apply map_Forall_empty|exact H]. intros ???. by apply parse_upstream_ok.
Qed.

(** ** Routes *)

Lemma slashed_ok p : with_slash (slashed p).
Proof. destruct p as [|c p]; cbn; [by eexists|]. destruct (Ascii.eqb c "/") eqn:E; [apply Ascii.eqb_eq in E as ->|]; by eexists. Qed.

Lemma read_vals_ok l r : read_vals l = Some r -> Forall (fun s => s <> ""%string) r.
Proof.
  revert r. induction l as [|x l IH]; cbn; intros r H; [simplify_eq; constructor|].
  repeat case_match; simplify_eq. constructor; [by apply String.eqb_neq|by apply IH].
Qed.

Lemma read_needs_ok n r : read_needs n = Some r -> Forall (fun s => s <> ""%string) r.
Proof. unfold read_needs. intros H. repeat case_match; simplify_eq; [constructor|]. by eapply read_vals_ok. Qed.

Definition limit_ok (r : bool * string * spec_float * spec_float) : Prop :=
  (r.1.1.2 = "ip"%string \/ r.1.1.2 = "user"%string \/ r.1.1.1 = false) /\ n_lt r.1.2 (n_of 0) = false /\ n_lt r.2 (n_of 0) = false.

Lemma parse_rate_limit_ok rl r : parse_rate_limit rl = Parsed r -> limit_ok r.
Proof.
  unfold parse_rate_limit. intros H. unread. unfold limit_ok; cbn [fst snd]. split_and!.
  - destruct (String.eqb _ _ || _) eqn:E; [|by left]. apply orb_true_iff in E as [E|E]; apply String.eqb_eq in E; auto.
  - case_match; [by vm_compute|done].
  - case_match; [by vm_compute|done].
Qed.

Lemma parse_auth_policy_ok n p : parse_auth_policy n = Parsed p -> p <> ""%string.
Proof. unfold parse_auth_policy. intros H. unread. destruct (String.eqb _ "") eqn:E; [done|]. by apply String.eqb_neq. Qed.

Lemma parse_rule_ok reg rules r rules' : Forall (route_ok reg) rules -> parse_rule reg rules r = Parsed rules' -> Forall (route_ok reg) rules'.
Proof.
  intros Hr. unfold parse_rule. intros H. unread. destruct a0 as [mt|]; [|by unread]. unread.
  destruct (read_needs a11) as [scopes|] eqn:Es; [|by unread]. unread.
  match goal with H : context [read_needs ?n] |- _ => destruct (read_needs n) as [roles|] eqn:Er end; [|by unread].
  destruct (String.eqb a1 "" || _) eqn:Eu; [by unread|]. b2p.
  match goal with H : section _ "rate_limit" _ _ = _ |- _ => eapply section_keep in H; [| |exact parse_rate_limit_ok];
    [|split_and!; try done; by right; right]; rename H into Hl end.
  match goal with H : section _ "auth" _ _ = _ |- _ => eapply (section_keep (fun p => p <> ""%string)) in H; [|done|exact parse_auth_policy_ok] end.
  destruct a9 as [[[on key] capacity] refill]. unread. destruct Hl as (L1 & L2 & L3). apply Forall_app. split; [done|]. constructor; [|constructor].
  constructor; cbn; try done.
  - split; [apply slashed_ok|done].
  - destruct (String.eqb a3 "") eqn:E; [by left|right; apply slashed_ok].
  - split; by eapply read_needs_ok.
Qed.

Lemma route_ok_idx reg i r : route_ok reg r -> route_ok reg (with_idx i r).
Proof. by intros [H1 H2 H3 H4 H5 H6 H7]. Qed.

Lemma parse_router_ok n reg t : parse_router n reg = Parsed t -> Forall (route_ok reg) (t_rules t).
Proof.
  unfold parse_router. destruct (_ || _); intros H; unread; [constructor|].
  match goal with H : pfold _ _ _ = _ |- _ => eapply (pfold_inv (Forall (route_ok reg))) in H; [rename H into Hr| |constructor] end.
  - unfold table_of, build. cbn [t_rules]. rewrite addRules_rules. cbn. apply Forall_forall. intros r Hin.
    apply list_elem_of_lookup in Hin as (i & Hi). rewrite list_lookup_imap in Hi.
    destruct (a !! i) as [r0|] eqn:E; [|done]. injection Hi as <-. apply route_ok_idx.
    rewrite Forall_forall in Hr. apply Hr. by eapply list_elem_of_lookup_2.
  - intros ???. by apply parse_rule_ok.
Qed.

(** ** The rest *)

Lemma parse_jwt_key_ok algo pub keys item keys' :
  NoDup (map jk_kid keys) /\ Forall (fun k => jk_kid k <> ""%string /\ jk_pubKey k <> ""%string /\ jk_algo k = algo) keys ->
  parse_jwt_key algo pub keys item = Parsed keys' ->
  NoDup (map jk_kid keys') /\ Forall (fun k => jk_kid k <> ""%string /\ jk_pubKey k <> ""%string /\ jk_algo k = algo) keys'.
Proof.
  intros (Hn & Hf). unfold parse_jwt_key. destruct (negb _); intros H; unread; [done|].
  destruct (_ || bool_decide _) eqn:E; [done|]. b2p. split.
  - rewrite map_app. apply NoDup_app. split_and!; [done| |apply NoDup_singleton].
    intros k Hk ->%list_elem_of_singleton. done.
  - apply Forall_app. split; [done|]. constructor; [|constructor]. split_and!; (by apply String.eqb_neq) || by apply String.eqb_eq.
Qed.

Lemma parse_jwt_ok j r : parse_jwt j = Parsed r ->
  NoDup (map jk_kid (jc_keys r.2)) /\
  Forall (fun k => jk_kid k <> ""%string /\ jk_pubKey k <> ""%string /\ jk_algo k = jc_algo r.2) (jc_keys r.2).
Proof.
  unfold parse_jwt. intros H. unread. cbn.
  match goal with H : (if _ then pfold _ _ _ else _) = Parsed _ |- _ => destruct (_ && _) in H; [|unread; by split; constructor] end.
  match goal with H : pfold _ _ _ = Parsed _ |- _ => eapply (pfold_inv (fun keys => NoDup (map jk_kid keys) /\ Forall _ keys)) in H; [exact H| |by split; constructor] end.
  intros ???. apply parse_jwt_key_ok.
Qed.

Definition api_ok (keys : list ApiKey) : Prop :=
  NoDup (map ak_id keys) /\ Forall (fun k => ak_id k <> ""%string /\ String.length (ak_hash k) = 64%nat) keys.

Lemma parse_api_entry_ok l k l' : api_ok l.2 -> parse_api_entry l k = Parsed l' -> api_ok l'.2.
Proof.
  destruct l as [plain keys]. cbn. intros Hk. unfold parse_api_entry. destruct (y_scalar k); intros H; unread; [done|].
  destruct (y_ok _); unread; [done|]. destruct (read_needs _); [|done]. destruct (_ || bool_decide _) eqn:E; [done|]. b2p.
  destruct Hk as (Hn & Hf). split; cbn.
  - rewrite map_app. apply NoDup_app. split_and!; [done| |apply NoDup_singleton]. intros x Hx ->%list_elem_of_singleton. done.
  - apply Forall_app. split; [done|]. constructor; [|constructor]. split; [by apply String.eqb_neq|done].
Qed.

Lemma parse_api_key_ok ak r : parse_api_key ak = Parsed r -> api_ok r.2.
Proof.
  unfold parse_api_key. intros H. unread. cbn.
  match goal with H : (if _ then pfold _ _ _ else _) = Parsed _ |- _ => destruct (_ && _) in H; [|unread; by split; constructor] end.
  match goal with H : pfold _ _ _ = Parsed _ |- _ => eapply (pfold_inv (fun l => api_ok l.2)) in H; [exact H| |by split; constructor] end.
  intros ???. apply parse_api_entry_ok.
Qed.

Lemma auth_section_keep {A} (P : A -> Prop) root k (f : YNode -> parsed A) d v :
  P d -> (forall c w, f c = Parsed w -> P w) -> auth_section root k f d = Parsed v -> P v.
Proof. intros Hd Hf. apply section_keep; [done|]. intros c w. by apply section_keep. Qed.

Definition jwt_ok (r : option (bool * JwtAuthConfig)) : Prop :=
  match r with
  | Some (_, j) => NoDup (map jk_kid (jc_keys j)) /\
      Forall (fun k => jk_kid k <> ""%string /\ jk_pubKey k <> ""%string /\ jk_algo k = jc_algo j) (jc_keys j)
  | None => True
  end.

Lemma parse_auth_ok root r : parse_auth root = Parsed r -> keys_ok r.1 r.2.
Proof.
  unfold parse_auth. intros H. unread.
  match goal with H : auth_section _ "jwt" _ _ = _ |- _ => apply (auth_section_keep jwt_ok) in H;
    [rename H into Hj|done|intros c w X; unread; match goal with H : parse_jwt _ = Parsed ?y |- _ => apply parse_jwt_ok in H; by destruct y end] end.
  match goal with H : auth_section _ "api_key" _ _ = _ |- _ => apply (auth_section_keep (fun r => api_ok r.2)) in H;
    [rename H into Hk|by split; constructor|exact parse_api_key_ok] end.
  destruct a0 as [[header plain] keys], a1 as [[[on bearer] key] prefix]. unread. cbn in Hk |- *. constructor; cbn; [| |exact Hk].
  - intros j. destruct a as [[[] x]|]; cbn; try done. by intros [= <-].
  - by destruct a as [[[] x]|].
Qed.

Lemma parse_trusted_ok n l : parse_trusted n = Parsed l -> Forall canonical l.
Proof.
  unfold parse_trusted. destruct (_ && _); intros H; [|unread; constructor].
  eapply (pfold_inv (Forall canonical)); [|constructor|exact H]. intros l0 c l' Hl X. cbv beta in X. unread.
  destruct (parseCidr _) as [ip|] eqn:E; [|done]. apply Forall_app. split; [done|]. constructor; [by eapply parseCidr_ok|constructor].
Qed.

Lemma parse_cors_ok root c : parse_cors root = Parsed c -> 0 <= co_maxAge c <= INT32_MAX.
Proof.
  apply (section_keep (fun c => 0 <= co_maxAge c <= INT32_MAX)); [by unfold INT32_MAX|]. intros n w H. unread. clamped. done.
Qed.

Lemma parse_cache_ok n o : parse_cache n = Parsed o -> forall c, o = Some c -> 0 < c <= UINT64_MAX.
Proof.
  unfold parse_cache. intros H. unread. destruct (a =? 0) eqn:E; [done|]. unread. b2p. intros c [= <-].
  assert (X : is_u64 a) by (match goal with H : field _ _ _ _ = _ |- _ => apply field_inv in H as [->|(d & H)]; [done|by eapply as_u64_range] end).
  unfold is_u64, UINT64_MAX in *. lia.
Qed.

Definition ban_ok (r : WafCfg * RateBanCfg) : Prop :=
  is_u64 (wc_banMs r.1) /\ is_u32 (rb_hits r.2) /\ is_u64 (rb_windowMs r.2) /\ is_u64 (rb_banMs r.2).

Lemma parse_policy_ok n r : parse_policy n = Parsed r -> ban_ok r.
Proof.
  assert (F64 : forall n k d v, is_u64 d -> field as_u64 n k d = Parsed v -> is_u64 v).
  { intros ???? Hd H. apply field_inv in H as [->|(c & H)]; [done|by eapply as_u64_range]. }
  assert (F32 : forall n k d v, is_u32 d -> field as_u32 n k d = Parsed v -> is_u32 v).
  { intros ???? Hd H. apply field_inv in H as [->|(c & H)]; [done|by eapply as_u32_range]. }
  unfold parse_policy. intros H. unread.
  match goal with H : section _ "waf" _ _ = _ |- _ => apply (section_keep (fun w => is_u64 (wc_banMs w))) in H;
    [rename H into Hw|done|intros c w X; unfold parse_waf in X; unread; cbn; by eapply F64; [|eassumption]] end.
  match goal with H : section _ "rate_report" _ _ = _ |- _ => apply (section_keep (fun b => is_u32 (rb_hits b) /\ is_u64 (rb_windowMs b) /\ is_u64 (rb_banMs b))) in H;
    [rename H into Hb|done|intros c w X; unfold parse_rate_report in X; unread; cbn; split_and!; (by eapply F32; [|eassumption]) || by eapply F64; [|eassumption]] end.
  by destruct Hb.
Qed.

Lemma bad_cidrs_none l : bad_cidrs l = 0%nat -> Forall (fun c => is_Some (parseCidr c)) l.
Proof.
  unfold bad_cidrs. induction l as [|c l IH]; [constructor|]. cbn. destruct (parseCidr c) eqn:E; cbn; [|done].
  intros H. constructor; [by rewrite E|by apply IH].
Qed.

Lemma health_timers_ok reg n i : map_Forall group_ok reg ->
  ((n, i) ∈ health_timers reg <-> exists g, reg !! n = Some g /\ hc_enabled (ug_health g) = true /\ i = hc_intervalMs (ug_health g)).
Proof.
  intros Hg. unfold health_timers. rewrite list_elem_of_omap. split.
  - intros ([m g] & Hin & H). apply elem_of_map_to_list in Hin. destruct (hc_enabled _) eqn:E; [|done]. injection H as <- <-.
    exists g. split_and!; [done|done|]. cbn. destruct (go_health _ _ (Hg _ _ Hin)) as ([X _] & _). btest (hc_intervalMs (ug_health g) =? 0); lia.
  - intros (g & Hin & E & ->). exists (n, g). split; [by apply elem_of_map_to_list|]. cbn. rewrite E.
    destruct (go_health _ _ (Hg _ _ Hin)) as ([X _] & _). btest (hc_intervalMs (ug_health g) =? 0); [lia|done].
Qed.

Lemma build_ok root iom guard sn : BuildSnapshotFromYaml resolves root iom guard = Parsed sn -> snapshot_ok iom guard sn.
Proof.
  unfold BuildSnapshotFromYaml. intros H. unread.
  destruct (staticRulesFromCfg (static_cfg a7)) as [[rules def] skipped] eqn:Es. unread.
  assert (Hg : map_Forall group_ok a0) by by eapply parse_upstreams_ok.
  assert (Hb : ban_ok a8).
  { match goal with H : section _ "ip_policy" _ _ = _ |- _ => apply (section_keep ban_ok) in H; [done|done|exact parse_policy_ok] end. }
  constructor; cbn.
  - exact Hg.
  - by eapply parse_router_ok.
  - match goal with H : section _ "rt_cache" _ _ = _ |- _ => apply section_inv in H as [->|(c & H)]; [done|by eapply parse_cache_ok] end.
  - by eapply parse_trusted_ok.
  - by eapply parse_cors_ok.
  - apply bad_cidrs_none. by apply Nat.eqb_eq.
  - exact Hb.
  - by eapply parse_auth_ok.
  - intros n i. destruct iom.
    + rewrite health_timers_ok by done. split; [by intros|by intros [_ ?]].
    + split; [by intros ?%elem_of_nil|by intros [? _]].
  - rewrite Es. by destruct guard.
Qed.

Lemma first_match_in {R} (rules : list (RouteRule R)) method host path idxs r :
  first_match rules method host path idxs = Some r -> r ∈ rules /\ ruleMatches r method host path = true.
Proof.
  induction idxs as [|i idxs IH]; cbn; [done|]. destruct (rules !! i) as [x|] eqn:E; [|by apply IH].
  destruct (ruleMatches x method host path) eqn:M; [|by apply IH]. intros [= <-]. split; [by eapply list_elem_of_lookup_2|done].
Qed.

Lemma table_match_in {R} (t : RouteTable R) method host path r :
  table_match method host path t = Some r -> r ∈ t_rules t /\ ruleMatches r method host path = true.
Proof.
  unfold table_match. destruct (first_match _ _ _ _ (default [] _)) eqn:E; [|apply first_match_in].
  intros [= <-]. by eapply first_match_in.
Qed.

End sound.

(** ** On documents *)

(** Documents as they are written. *)
Module DocYaml.
Inductive Yaml := YS (s : string) | YI (z : Z) | YB (b : bool) | YD (d : spec_float) | YL (l : list Yaml) | YM (l : list (string * Yaml)).

Definition int_in (lo hi : Z) (n : option Yaml) : option Z :=
  match n with Some (YI z) => if (lo <=? z) && (z <=? hi) then Some z else None | _ => None end.

#[export] Instance lib : YamlLib := {|
  YNode := option Yaml;
  y_ok := fun n => match n with Some _ => true | None => false end;
  y_get := fun n k => match n with Some (YM l) => Some (assoc k l) | Some (YL _) => Some None | _ => None end;
  y_seq := fun n => match n with Some (YL _) => true | _ => false end;
  y_map := fun n => match n with Some (YM _) => true | _ => false end;
  y_scalar := fun n => match n with Some (YL _ | YM _) | None => false | _ => true end;
  y_items := fun n => match n with Some (YL l) => map Some l | _ => [] end;
  y_pairs := fun n => match n with Some (YM l) => map (fun kv => (Some (YS kv.1), Some kv.2)) l | _ => [] end;
  as_string := fun n => match n with Some (YS s) => Some s | Some (YI z) => Some (to_string z) | _ => None end;
  as_bool := fun n => match n with Some (YB b) => Some b | _ => None end;
  as_int := int_in (- 2 ^ 31) INT32_MAX;
  as_i64 := int_in (- 2 ^ 63) INT64_MAX;
  as_u32 := int_in 0 UINT32_MAX;
  as_u64 := int_in 0 UINT64_MAX;
  as_double := fun n => match n with Some (YD d) => Some d | Some (YI z) => Some (n_of (Arith := double) z) | _ => None end |}.

#[export] Instance laws : YamlLaws.
Proof.
  split; intros [[]|] w; cbn; try done; intros H; destruct (_ && _) eqn:E; try done; injection H as <-; b2p;
    unfold is_u32, is_u64, UINT32_MAX, UINT64_MAX in *; lia.
Qed.
End DocYaml.
Import DocYaml.
#[local] Existing Instance insertion_StableSort.

Definition endpoint_doc (port : Z) : Yaml := YM [("host", YS "10.0.0.1"); ("port", YI port); ("weight", YI 5000000)]%string.

Definition sample_doc (port : Z) : Yaml := YM [
  ("upstreams", YL [
     YM [("name", YS "api"); ("lb", YS "weighted"); ("timeout", YM [("total_ms", YI 0)]);
         ("circuit_breaker", YM [("open_timeout_ms", YI 90000); ("failure_statuses", YL [YI 503; YI 900])]);
         ("health_check", YM [("enabled", YB true); ("interval_ms", YI 2000)]); ("endpoints", YL [endpoint_doc port])];
     YM [("lb", YS "weighted")]]);
  ("routes", YL [
     YM [("name", YS "r"); ("path", YS "api"); ("upstream", YS "api"); ("auth", YM [("policy", YS " JWT ")])];
     YM [("name", YS "lost"); ("upstream", YS "nowhere")]]);
  ("ip_filter", YM [("enabled", YB true); ("cidrs", YL [YS "10.1.2.3"])]);
  ("auth", YM [("jwt", YM [("enabled", YB true); ("algo", YS "rs256");
     ("keys", YL [YM [("kid", YS "a"); ("public_key", YS "p")]; YM [("kid", YS "a"); ("public_key", YS "q")]])])])]%string.

Definition load_sample (port : Z) : parsed ConfigSnapshot :=
  BuildSnapshotFromYaml (IN := TextInet) (fun _ => true) (Some (sample_doc port)) true true.

(** What is clamped, dropped and completed. *)
Example sample_loads :
  match load_sample 8080 with
  | Parsed sn =>
      match sn_upstreams sn !! "api"%string with
      | Some g => (ug_totalMs g, map ec_weight (ug_endpoints g), map (fun e => failureStatuses (ec_cb e)) (ug_endpoints g)) = (1, [1000000], [[503]])
      | None => False
      end /\
      map (fun r => (rr_pathPattern r, rc_authPolicy (rr_rest r))) (t_rules (sn_table sn)) = [("/api", "jwt")]%string /\
      sn_timers sn = [("api"%string, 2000)] /\ option_map (fun j => map jk_pubKey (jc_keys j)) (sn_jwt sn) = Some ["p"%string]
  | _ => False
  end.
Proof. vm_compute. by split_and!. Qed.

(** A port is not bounded by 65535: the address keeps its low sixteen bits ([setPort]). *)
Example port_not_bounded :
  match load_sample 65616 with
  | Parsed sn => match sn_upstreams sn !! "api"%string with
                 | Some g => map (fun e => (ec_port e, wrap16 (ec_port e))) (ug_endpoints g) = [(65616, 80)]
                 | None => False
                 end
  | _ => False
  end.
Proof. by vm_compute. Qed.

(** A network that does not parse refuses the whole configuration, also when the filter is off; a
    cache without room and a value of the wrong type throw. *)
Example refused_documents :
  let load l := match BuildSnapshotFromYaml (IN := TextInet) (fun _ => true) (Some (YM l)) true true with Parsed _ => 0 | Rejected => 1 | Threw => 2 end in
  map load [[]; [("ip_filter", YM [("cidrs", YL [YS "10.0.0"])])]; [("rt_cache", YM [("cap", YI 0)])]; [("cors", YM [("enabled", YS "on")])]]%string
    = [0; 1; 2; 2].
Proof. by vm_compute. Qed.

