(* ===== verification/Reload.v ===== *)
(** * Reloading (src/gateway/gateway.cpp, src/gateway/include/gateway.h)

    The server and the reloads that run in it, from the administration port or any thread: a
    reload reads what is in force under the mutex, loads a document without it, swaps under it,
    and then starts and stops the services it changed. Every critical section and every call
    of [start] and [stop] on a service is a step, and steps interleave freely; what a file held
    is the label of a step. A service is the flags by which [start] and [stop] know it (what
    they do inside is [Report] and [Pull]). Log lines are left out. [setConfig] and
    [setReporter], which only tests call, are no part of the runs. *)

From S2P Require Import Prelude Records Ip InetText Rule Snap Guard Limits Router RouteCache Auth Json Conf.

Open Scope parsed_scope.

(** ** Data *)

Record IpCfg := mkIpCfg { ic_submit : string; ic_subscribe : string; ic_instance : string }.

(** A [Reporter]: [m_opts.submitPath], [m_started], [m_accepting]. *)
Record ReporterObj := mkReporterObj { rp_submit : string; rp_started : bool; rp_accepting : bool }.

(** A [SyncClient]: its options, [m_started], [m_running]. *)
Record SyncObj := mkSyncObj { sy_subscribe : string; sy_instance : string; sy_started : bool; sy_running : bool }.

(** The snapshot with the reporter its chain reports to. *)
Record Loaded := mkLoaded { ld_cfg : ConfigSnapshot; ld_ip : IpCfg; ld_reporter : option nat }.

(** What a reload starts and stops after its swap. *)
Record Swap := mkSwap { sw_startRep : option nat; sw_startSync : option nat; sw_stopRep : option nat; sw_stopSync : option nat }.

Inductive ReloadPc :=
  | E_LOCK | E_GUARD (path oldSubmit : string) (old : option nat) | E_LOAD (path oldSubmit : string) (old : option nat)
  | E_SWAP (path : string) (ld : Loaded) | E_START (w : Swap) | E_SYNC (w : Swap) | E_STOP (w : Swap) | E_STOPSYNC (w : Swap)
  | E_RET (ok : bool).

(** A call of [reload]: its argument and whether it has an I/O manager. *)
Record Reload := mkReload { rl_cfgPath : string; rl_iom : bool; rl_pc : ReloadPc }.

Inductive Op := SET_PATH (p : string) | GET_GUARD | RELOAD (cfgPath : string) (iom : bool) | STEP (i : nat).

Section server.
Context {IN : Inet} {YL : YamlLib} {ST : StableSort} {SS : StdSort} (resolves : string -> bool).

(** A [GatewayServer]: its members, then the services it ever made and its reloads.
    [gs_read]: the documents that were read, with their paths. *)
Record Server := mkServer {
  gs_cfg : option (ConfigSnapshot * option nat); gs_cfgPath : string; gs_guard : option Guard; gs_reporter : option nat;
  gs_sync : option nat; gs_submit : string; gs_subscribe : string; gs_instance : string;
  gs_reps : list ReporterObj; gs_syncs : list SyncObj; gs_reloads : list Reload; gs_read : list (string * YNode) }.

Definition server_new : Server := mkServer None "" None None None "" "" "" [] [] [] [].

Definition ipGuard (s : Server) : Guard := default guard_init (gs_guard s).

(** ** Services *)

Definition reporter_start (iom : bool) (o : ReporterObj) : ReporterObj :=
  if iom && negb (String.eqb (rp_submit o) "") && negb (rp_started o) then o <| rp_started := true |> else o.

(** Also one that was not started accepts no more. *)
Definition reporter_stop (o : ReporterObj) : ReporterObj := o <| rp_accepting := false |>.

Definition can_start (iom : bool) (o : SyncObj) : bool := iom && negb (String.eqb (sy_subscribe o) "") && negb (sy_started o).

Definition sync_start (iom : bool) (o : SyncObj) : SyncObj :=
  if can_start iom o then (o <| sy_started := true |>) <| sy_running := true |> else o.

Definition sync_stop (o : SyncObj) : SyncObj := if sy_started o then o <| sy_running := false |> else o.

Definition on_rep (f : ReporterObj -> ReporterObj) (i : option nat) (s : Server) : Server :=
  match i with Some i => s <| gs_reps := alter f i (gs_reps s) |> | None => s end.

Definition on_sync (f : SyncObj -> SyncObj) (i : option nat) (s : Server) : Server :=
  match i with Some i => s <| gs_syncs := alter f i (gs_syncs s) |> | None => s end.

(** A client that starts turns the mirrored rules on. *)
Definition start_sync (iom : bool) (i : option nat) (s : Server) : Server :=
  let starts := match i ≫= fun i => gs_syncs s !! i with Some o => can_start iom o | None => false end in
  on_sync (sync_start iom) i (if starts then s <| gs_guard := (fun g => setRemoteEnabled g true) <$> gs_guard s |> else s).

(** ** [reload] *)

Definition readIpCfg (root : YNode) : parsed IpCfg :=
  section root "ip_policy" (fun p =>
    submit <- field as_string p "submit_sock" ""%string ;;
    subscribe <- field as_string p "subscribe_sock" ""%string ;;
    instance <- field as_string p "instance_id" "gw-1"%string ;;
    Parsed (mkIpCfg submit subscribe instance)) (mkIpCfg "" "" "gw-1").

(** Outside the mutex: [None] for a file that does not load; a reload that fails here has changed
    nothing but that a reporter was made. *)
Definition load (iom : bool) (path oldSubmit : string) (old : option nat) (root : option YNode) (s : Server) : ReloadPc * Server :=
  match root with
  | None => (E_RET false, s)
  | Some root =>
      let s := s <| gs_read := (path, root) :: gs_read s |> in
      match readIpCfg root with
      | Parsed ip =>
          let reuse := String.eqb (ic_submit ip) oldSubmit && bool_decide (is_Some old) in
          let '(rep, s) :=
            if String.eqb (ic_submit ip) "" then (None, s)
            else if reuse then (old, s)
            else (Some (length (gs_reps s)), s <| gs_reps := gs_reps s ++ [mkReporterObj (ic_submit ip) false true] |>) in
          match BuildSnapshotFromYaml resolves root iom true with
          | Parsed cfg => (E_SWAP path (mkLoaded cfg ip rep), s)
          | _ => (E_RET false, s)
          end
      | _ => (E_RET false, s)
      end
  end.

Definition static_policy (cfg : ConfigSnapshot) : StaticPolicy := default (mkStaticPolicy false ALLOW []) (sn_policy cfg).

(** Under the mutex. *)
Definition swap (r : Reload) (path : string) (ld : Loaded) (now : Z) (s : Server) : ReloadPc * Server :=
  let ip := ld_ip ld in
  if String.eqb (rl_cfgPath r) "" && negb (String.eqb path (gs_cfgPath s)) then (E_RET false, s)
  else
    let swapReporter := negb (bool_decide (ld_reporter ld = gs_reporter s)) in
    let wanted := negb (String.eqb (ic_subscribe ip) "") in
    let hasSync := wanted || negb (String.eqb (gs_subscribe s) "") in
    let swapSync := hasSync && (negb (String.eqb (ic_subscribe ip) (gs_subscribe s)) || negb (String.eqb (ic_instance ip) (gs_instance s))
                                || (wanted && bool_decide (gs_sync s = None))) in
    if (swapReporter || swapSync) && negb (rl_iom r) then (E_RET false, s)
    else
      let '(nextSync, syncs) :=
        if wanted then
          if swapSync then (Some (length (gs_syncs s)), gs_syncs s ++ [mkSyncObj (ic_subscribe ip) (ic_instance ip) false false])
          else (gs_sync s, gs_syncs s)
        else (None, gs_syncs s) in
      (E_START (mkSwap (if swapReporter then ld_reporter ld else None) (if swapSync then nextSync else None)
                       (if swapReporter then gs_reporter s else None) (if swapSync then gs_sync s else None)),
       mkServer (Some (ld_cfg ld, ld_reporter ld)) (if String.eqb (rl_cfgPath r) "" then gs_cfgPath s else rl_cfgPath r)
         (applyStaticPolicy now (static_policy (ld_cfg ld)) <$> gs_guard s) (ld_reporter ld) nextSync
         (ic_submit ip) (ic_subscribe ip) (ic_instance ip) (gs_reps s) syncs (gs_reloads s) (gs_read s)).

(** One step; [root]: what the file holds, [now]: the time. *)
Definition reload_step (r : Reload) (root : option YNode) (now : Z) (s : Server) : option (ReloadPc * Server) :=
  match rl_pc r with
  | E_LOCK => Some (E_GUARD (if String.eqb (rl_cfgPath r) "" then gs_cfgPath s else rl_cfgPath r) (gs_submit s) (gs_reporter s), s)
  | E_GUARD path oldSubmit old => Some (E_LOAD path oldSubmit old, s <| gs_guard := Some (ipGuard s) |>)
  | E_LOAD path oldSubmit old => Some (load (rl_iom r) path oldSubmit old root s)
  | E_SWAP path ld => Some (swap r path ld now s)
  | E_START w => Some (E_SYNC w, on_rep (reporter_start (rl_iom r)) (sw_startRep w) s)
  | E_SYNC w => Some (E_STOP w, start_sync (rl_iom r) (sw_startSync w) s)
  | E_STOP w => Some (E_STOPSYNC w, on_rep reporter_stop (sw_stopRep w) s)
  | E_STOPSYNC w => Some (E_RET true, on_sync sync_stop (sw_stopSync w) s)
  | E_RET _ => None
  end.

(** ** Runs *)

Definition server_step (o : Op * option YNode * Z) (s : Server) : option Server :=
  match o.1.1 with
  | SET_PATH p => Some (s <| gs_cfgPath := p |>)
  | GET_GUARD => Some (s <| gs_guard := Some (ipGuard s) |>)
  | RELOAD cfgPath iom => Some (s <| gs_reloads := gs_reloads s ++ [mkReload cfgPath iom E_LOCK] |>)
  | STEP i =>
      match gs_reloads s !! i with
      | Some r =>
          match reload_step r o.1.2 o.2 s with
          | Some (pc, s) => Some (s <| gs_reloads := <[i := r <| rl_pc := pc |>]> (gs_reloads s) |>)
          | None => None
          end
      | None => None
      end
  end.

Fixpoint server_run (ops : list (Op * option YNode * Z)) (s : Server) : option Server :=
  match ops with [] => Some s | o :: ops => s ← server_step o s; server_run ops s end.

Definition setConfig (cfg : option (ConfigSnapshot * option nat)) (s : Server) : Server := s <| gs_cfg := cfg |>.

Definition setReporter (r : option nat) (s : Server) : Server := s <| gs_reporter := r |>.

(** [~GatewayServer]. *)
Definition server_close (s : Server) : Server :=
  let s' := (s <| gs_reporter := None |>) <| gs_sync := None |> in
  on_sync sync_stop (gs_sync s) (on_rep reporter_stop (gs_reporter s) s').
End server.

(** ** What is in force *)

Definition over (r : Reload) : bool := match rl_pc r with E_RET _ => true | _ => false end.

Definition quiet `{Inet} `{YamlLib} (s : Server) : bool := forallb over (gs_reloads s).

(** A service that works. *)
Definition rep_on (o : ReporterObj) : bool := rp_started o && rp_accepting o.
Definition sync_on (o : SyncObj) : bool := sy_started o && sy_running o.

Section force.
Context {IN : Inet} {IL : InetLaws} {YL : YamlLib} {YW : YamlLaws} {ST : StableSort} {SS : StdSort} (resolves : string -> bool).
Implicit Types s : Server.

(** What the ledger was told by the configuration. *)
Definition statics s : bool * Act * list Rule := let g := ipGuard s in (g_staticEnabled g, g_default g, g_static g).

Definition rep_for s (rep : option nat) (path : string) : Prop :=
  match rep with
  | Some i => exists o, gs_reps s !! i = Some o /\ rp_submit o = path /\ path <> ""%string
  | None => path = ""%string
  end.

Definition sync_for s (sync : option nat) (path instance : string) : Prop :=
  match sync with
  | Some i => exists o, gs_syncs s !! i = Some o /\ sy_subscribe o = path /\ sy_instance o = instance /\ path <> ""%string
  | None => path = ""%string
  end.

(** Everything in force is of one document that was read, and the services are those it asks
    for. *)
Record in_force s : Prop := {
  nf_cfg : match gs_cfg s with
    | Some (cfg, rep) => rep = gs_reporter s /\ exists path root iom ip, (path, root) ∈ gs_read s /\
        BuildSnapshotFromYaml resolves root iom true = Parsed cfg /\ snapshot_ok iom true cfg /\ readIpCfg root = Parsed ip /\
        ip = mkIpCfg (gs_submit s) (gs_subscribe s) (gs_instance s) /\
        statics s = (sp_enabled (static_policy cfg), sp_def (static_policy cfg), sp_rules (static_policy cfg))
    | None => statics s = (false, ALLOW, []) end;
  nf_reporter : rep_for s (gs_reporter s) (gs_submit s);
  nf_sync : sync_for s (gs_sync s) (gs_subscribe s) (gs_instance s) }.

(** What a request and the services see of the server. *)
Definition visible s :=
  (gs_cfg s, gs_cfgPath s, gs_reporter s, gs_sync s, gs_submit s, gs_subscribe s, gs_instance s, statics s).

(** What a reload knows between its steps. *)
Definition knows s (r : Reload) : Prop :=
  match rl_pc r with
  | E_GUARD _ oldSubmit old => rep_for s old oldSubmit
  | E_LOAD _ oldSubmit old => rep_for s old oldSubmit /\ is_Some (gs_guard s)
  | E_SWAP path ld => is_Some (gs_guard s) /\ rep_for s (ld_reporter ld) (ic_submit (ld_ip ld)) /\
      exists root, (path, root) ∈ gs_read s /\ BuildSnapshotFromYaml resolves root (rl_iom r) true = Parsed (ld_cfg ld) /\
        readIpCfg root = Parsed (ld_ip ld)
  | _ => True
  end.

(** Documents, services and the ledger stay. *)
Record later s s' : Prop := {
  la_read : forall x, x ∈ gs_read s -> x ∈ gs_read s';
  la_reps : forall i o, gs_reps s !! i = Some o -> exists o', gs_reps s' !! i = Some o' /\ rp_submit o' = rp_submit o;
  la_syncs : forall i o, gs_syncs s !! i = Some o ->
    exists o', gs_syncs s' !! i = Some o' /\ sy_subscribe o' = sy_subscribe o /\ sy_instance o' = sy_instance o;
  la_guard : is_Some (gs_guard s) -> is_Some (gs_guard s') }.

Lemma later_rep_for s s' rep path : later s s' -> rep_for s rep path -> rep_for s' rep path.
Proof. intros H. destruct rep as [i|]; cbn; [|done]. intros (o & Ho & <- & Hp). destruct (la_reps _ _ H _ _ Ho) as (o' & Ho' & E). exists o'. by rewrite E. Qed.

Lemma later_sync_for s s' sync path instance : later s s' -> sync_for s sync path instance -> sync_for s' sync path instance.
Proof.
  intros H. destruct sync as [i|]; cbn; [|done]. intros (o & Ho & <- & <- & Hp). destruct (la_syncs _ _ H _ _ Ho) as (o' & Ho' & E1 & E2).
  exists o'. by rewrite E1, E2.
Qed.

Lemma later_knows s s' r : later s s' -> knows s r -> knows s' r.
Proof.
  intros H. pose proof (la_guard _ _ H). unfold knows. destruct (rl_pc r); eauto using later_rep_for.
  - intros []; eauto using later_rep_for.
  - intros (? & ? & root & Hr & ?). split_and!; eauto using later_rep_for. exists root. split; [by apply (la_read _ _ H)|done].
Qed.

Lemma later_refl s : later s s.
Proof. split; eauto. Qed.

Lemma later_trans s1 s2 s3 : later s1 s2 -> later s2 s3 -> later s1 s3.
Proof.
  intros H1 H2. split.
  - intros x Hx. by apply (la_read _ _ H2), (la_read _ _ H1).
  - intros i o Ho. destruct (la_reps _ _ H1 _ _ Ho) as (o1 & Ho1 & E1). destruct (la_reps _ _ H2 _ _ Ho1) as (o2 & Ho2 & E2). exists o2. split; congruence.
  - intros i o Ho. destruct (la_syncs _ _ H1 _ _ Ho) as (o1 & Ho1 & E1 & F1). destruct (la_syncs _ _ H2 _ _ Ho1) as (o2 & Ho2 & E2 & F2).
    exists o2. split_and!; congruence.
  - intros Hg. by apply (la_guard _ _ H2), (la_guard _ _ H1).
Qed.

Lemma alter_some {A} (f : A -> A) (l : list A) i j x : l !! j = Some x -> exists x', alter f i l !! j = Some x' /\ (x' = x \/ x' = f x).
Proof.
  intros H. destruct (decide (i = j)) as [->|]; [rewrite list_lookup_alter_eq, H|rewrite list_lookup_alter_ne by done]; cbn; eauto.
Qed.

Lemma later_on_rep f i s : (forall o, rp_submit (f o) = rp_submit o) -> later s (on_rep f i s).
Proof.
  intros Hf. destruct i as [i|]; [|apply later_refl]. split; cbn; eauto. intros j o Ho.
  destruct (alter_some f _ i _ _ Ho) as (o' & Ho' & [->| ->]); eauto.
Qed.

Lemma later_on_sync f i s : (forall o, sy_subscribe (f o) = sy_subscribe o /\ sy_instance (f o) = sy_instance o) -> later s (on_sync f i s).
Proof.
  intros Hf. destruct i as [i|]; [|apply later_refl]. split; cbn; eauto. intros j o Ho.
  destruct (alter_some f _ i _ _ Ho) as (o' & Ho' & [->| ->]); eauto.
Qed.

Lemma load_later iom path oldSubmit old root s pc s' : load resolves iom path oldSubmit old root s = (pc, s') -> later s s'.
Proof.
  unfold load. intros H. repeat (case_match; simplify_eq); try apply later_refl; split; cbn; try (by right); eauto;
    intros i o Ho; exists o; by rewrite (lookup_app_l_Some _ _ _ _ Ho).
Qed.

Lemma reload_later r root now s pc s' : reload_step resolves r root now s = Some (pc, s') -> later s s'.
Proof.
  unfold reload_step. intros H. destruct (rl_pc r); simplify_eq; try apply later_refl.
  - split; cbn; eauto.
  - by eapply load_later.
  - unfold swap in H. cbv zeta in H. repeat (case_match; simplify_eq); try apply later_refl;
      
      (split; cbn; eauto; try (intros ?; by apply fmap_is_Some); intros i o Ho; exists o; by rewrite ?(lookup_app_l_Some _ _ _ _ Ho)).
  - apply later_on_rep. intros o. unfold reporter_start. by case_match.
  - unfold start_sync. cbv zeta. eapply later_trans; [|apply later_on_sync; intros o; unfold sync_start; by case_match].
    case_match; [split; cbn; eauto; intros ?; by apply fmap_is_Some|apply later_refl].
  - by apply later_on_rep.
  - apply later_on_sync. intros o. unfold sync_stop. by case_match.
Qed.

Lemma in_force_keep s s' : later s s' -> visible s' = visible s -> in_force s -> in_force s'.
Proof.
  intros L E H. unfold visible in E. injection E as E1 E2 E3 E4 E5 E6 E7 E8 E9 E10.
  assert (Es : statics s' = statics s) by (unfold statics in *; congruence).
  destruct H as [Hc Hr Hy]. split.
  - rewrite E1, E3, E5, E6, E7, Es. destruct (gs_cfg s) as [[cfg rep]|]; [|done].
    destruct Hc as (Hrep & path & root & iom & ip & Hin & Hrest). split; [done|]. exists path, root, iom, ip. split; [by apply (la_read _ _ L)|done].
  - rewrite E3, E5. by eapply later_rep_for.
  - rewrite E4, E6, E7. by eapply later_sync_for.
Qed.

(** Only the swap shows. *)
Lemma reload_visible r root now s pc s' : reload_step resolves r root now s = Some (pc, s') ->
  visible s' = visible s \/ exists path ld w, rl_pc r = E_SWAP path ld /\ pc = E_START w.
Proof.
  unfold reload_step. intros H. destruct (rl_pc r) eqn:Ep; simplify_eq; try by left.
  - left. unfold load in H. repeat (case_match; simplify_eq); done.
  - unfold swap in H. cbv zeta in H. repeat (case_match; simplify_eq); eauto 6.
  - left. by destruct (sw_startRep w).
  - left. unfold start_sync, visible, statics, ipGuard. cbv zeta. destruct (sw_startSync w); cbn; [|done]. case_match; [|done]. by destruct (gs_guard s).
  - left. by destruct (sw_stopRep w).
  - left. by destruct (sw_stopSync w).
Qed.

Lemma load_knows r path oldSubmit old root s pc s' : is_Some (gs_guard s) -> rep_for s old oldSubmit ->
  load resolves (rl_iom r) path oldSubmit old root s = (pc, s') -> knows s' (r <| rl_pc := pc |>).
Proof.
  intros Hg Ho. unfold load. intros H. destruct root as [root|]; [|by simplify_eq].
  destruct (readIpCfg root) as [ip| |] eqn:Ei; [|by simplify_eq..].
  destruct (String.eqb (ic_submit ip) "") eqn:E0; [|destruct (_ && _) eqn:E1];
    (destruct (BuildSnapshotFromYaml _ _ _ _) as [cfg| |] eqn:Ec; [|by simplify_eq..]); simplify_eq; unfold knows; cbn;
    (split_and!; [done| |exists root; split_and!; [by left|done|done]]).
  - by apply String.eqb_eq.
  - apply andb_true_iff in E1 as [->%String.eqb_eq _]. exact Ho.
  - exists (mkReporterObj (ic_submit ip) false true). split_and!; [by rewrite lookup_app_r, Nat.sub_diag by done|done|by apply String.eqb_neq].
Qed.

Lemma swap_force r path ld now s w s' : rl_pc r = E_SWAP path ld -> knows s r -> in_force s ->
  swap r path ld now s = (E_START w, s') -> in_force s'.
Proof.
  unfold knows. intros Ep. rewrite Ep. intros ((g & Hg) & Hrep & root & Hroot & Hb & Hi) HF. unfold swap. cbv zeta.
  case_match; [done|]. case_match; [done|].
  set (ip := ld_ip ld) in *. set (hs := _ || negb _). set (ss := hs && _). intros HS.
  assert (Hs : exists next syncs, s' = mkServer (Some (ld_cfg ld, ld_reporter ld)) (if String.eqb (rl_cfgPath r) "" then gs_cfgPath s else rl_cfgPath r)
         (applyStaticPolicy now (static_policy (ld_cfg ld)) <$> gs_guard s) (ld_reporter ld) next
         (ic_submit ip) (ic_subscribe ip) (ic_instance ip) (gs_reps s) syncs (gs_reloads s) (gs_read s) /\
       sync_for s' next (ic_subscribe ip) (ic_instance ip)).
  { destruct (String.eqb (ic_subscribe ip) "") eqn:E0; cbn [negb] in *; [|destruct ss eqn:Ess].
    - simplify_eq. do 2 eexists. split; [done|]. by apply String.eqb_eq.
    - simplify_eq. do 2 eexists. split; [done|]. cbn. eexists. split; [by rewrite lookup_app_r, Nat.sub_diag by done|].
      split_and!; [done|done|by apply String.eqb_neq].
    - simplify_eq. do 2 eexists. split; [done|]. apply andb_false_iff in Ess as [|Ess]; [done|].
      apply orb_false_iff in Ess as [[E1 E2]%orb_false_iff _]. apply negb_false_iff, String.eqb_eq in E1, E2.
      pose proof (nf_sync _ HF) as X. by rewrite <- E1, <- E2 in X. }
  destruct Hs as (next & syncs & -> & Hs). split; cbn; [|exact Hrep|exact Hs].
  split; [done|]. exists path, root, (rl_iom r), ip. split_and!; try done.
  - by eapply build_ok.
  - by destruct ip.
  - unfold statics, ipGuard. cbn. by rewrite Hg.
Qed.

Lemma reload_force r root now s pc s' : in_force s -> knows s r -> reload_step resolves r root now s = Some (pc, s') ->
  in_force s' /\ knows s' (r <| rl_pc := pc |>).
Proof.
  intros HF HK H. pose proof (reload_later _ _ _ _ _ _ H) as L. split.
  - destruct (reload_visible _ _ _ _ _ _ H) as [E|(path & ld & w & Ep & ->)]; [by eapply in_force_keep|].
    unfold reload_step in H. rewrite Ep in H. injection H as H. by eapply swap_force.
  - unfold reload_step, knows in *. destruct (rl_pc r) eqn:Ep; simplify_eq; cbn; try done.
    + apply nf_reporter, HF.
    + change (knows s' (r <| rl_pc := pc |>)). destruct HK. by eapply load_knows.
    + unfold swap in H. cbv zeta in H. repeat (case_match; simplify_eq); done.
Qed.

Lemma server_step_reload i root now s s1 : server_step resolves (STEP i, root, now) s = Some s1 ->
  exists r pc s', gs_reloads s !! i = Some r /\ reload_step resolves r root now s = Some (pc, s') /\
    s1 = s' <| gs_reloads := <[i := r <| rl_pc := pc |>]> (gs_reloads s') |>.
Proof. unfold server_step. cbn. intros H. repeat (case_match; simplify_eq). eauto 6. Qed.

Lemma reload_reloads r root now s pc s' : reload_step resolves r root now s = Some (pc, s') -> gs_reloads s' = gs_reloads s.
Proof.
  unfold reload_step. intros H. destruct (rl_pc r); simplify_eq; try done.
  - unfold load in H. repeat (case_match; simplify_eq); done.
  - unfold swap in H. cbv zeta in H. repeat (case_match; simplify_eq); done.
  - by destruct (sw_startRep w).
  - unfold start_sync. cbv zeta. destruct (sw_startSync w); cbn; [|done]. by case_match.
  - by destruct (sw_stopRep w).
  - by destruct (sw_stopSync w).
Qed.

Definition force_inv s : Prop := in_force s /\ Forall (knows s) (gs_reloads s).

Lemma force_inv_step o s s' : force_inv s -> server_step resolves o s = Some s' -> force_inv s'.
Proof.
  intros [HF HK] H. destruct o as [[o root] now]. destruct o as [p| |cfgPath iom|i]; cbn in H; simplify_eq.
  - split; [|exact HK]. destruct HF as [Hc Hr Hy]. by split.
  - assert (L : later s (s <| gs_guard := Some (ipGuard s) |>)) by (split; cbn; eauto).
    split; [|eapply Forall_impl; [exact HK|intros r; by apply later_knows]]. by eapply in_force_keep.
  - split; [destruct HF as [Hc Hr Hy]; by split|]. apply Forall_app. split; [exact HK|by repeat constructor].
  - apply server_step_reload in H as (r & pc & s1 & Hr & H & ->). pose proof (reload_later _ _ _ _ _ _ H) as L.
    rewrite Forall_forall in HK. assert (HKr : knows s r) by by eapply HK, list_elem_of_lookup_2.
    destruct (reload_force _ _ _ _ _ _ HF HKr H) as [HF1 HK1]. split; [destruct HF1 as [Hc Hr1 Hy]; by split|].
    cbn. rewrite (reload_reloads _ _ _ _ _ _ H). apply Forall_insert; [|done]. apply Forall_forall. intros x Hx. eapply later_knows; [|by apply HK]. eapply later_trans; [exact L|by split; eauto].
Qed.

Lemma force_inv_run ops s s' : force_inv s -> server_run resolves ops s = Some s' -> force_inv s'.
Proof.
  revert s. induction ops as [|o ops IH]; cbn; intros s HI H; [by simplify_eq|].
  apply bind_Some in H as (s1 & H1 & H). eapply IH; [|exact H]. by eapply force_inv_step.
Qed.

Lemma force_inv_new : force_inv server_new.
Proof. split; [by split|constructor]. Qed.

(** C0: reloads are atomic. However reloads from several threads interleave with each other, with
    changes of the path and with first uses of the ledger: what is in force is always of one
    document that was read - the snapshot is what that document gives and sound, its chain reports
    to the reporter of the server, that reporter and the client of the hub are connected where the
    document says, and there is none where it names no socket, and the static side of the ledger is
    the document's. A step of a reload shows in nothing of that, the swap of a reload that succeeds
    excepted; so one that fails changes nothing. *)
Theorem reload_atomic ops s : server_run resolves ops server_new = Some s ->
  in_force s /\
  forall i root now s', server_step resolves (STEP i, root, now) s = Some s' ->
    visible s' = visible s \/
    exists r path ld w, gs_reloads s !! i = Some r /\ rl_pc r = E_SWAP path ld /\ gs_reloads s' !! i = Some (r <| rl_pc := E_START w |>).
Proof.
  intros H. split; [exact (proj1 (force_inv_run _ _ _ force_inv_new H))|].
  intros i root now s' Hs. apply server_step_reload in Hs as (r & pc & s1 & Hr & Hs & ->).
  destruct (reload_visible _ _ _ _ _ _ Hs) as [E|(path & ld & w & Ep & ->)]; [by left|right].
  exists r, path, ld, w. split_and!; [done|done|]. cbn. rewrite (reload_reloads _ _ _ _ _ _ Hs).
  apply list_lookup_insert_eq. by eapply lookup_lt_Some.
Qed.
End force.

(** ** Services *)

Section services.
Context {IN : Inet} {IL : InetLaws} {YL : YamlLib} {YW : YamlLaws} {ST : StableSort} {SS : StdSort} (resolves : string -> bool).
Implicit Types s : Server.

(** Every call of [reload] begins when the ones before are over. *)
Fixpoint serial (ops : list (Op * option YNode * Z)) s : bool :=
  match ops with
  | [] => true
  | o :: ops =>
      match o.1.1 with RELOAD _ _ => quiet s | _ => true end &&
      match server_step resolves o s with Some s => serial ops s | None => true end
  end.

(** The services that work are those in force. *)
Definition calm s : Prop :=
  (forall i o, gs_reps s !! i = Some o -> rep_on o = true <-> gs_reporter s = Some i) /\
  (forall i o, gs_syncs s !! i = Some o -> sync_on o = true <-> gs_sync s = Some i).

(** What is left of a reload after its swap, at once. *)
Definition settle (r : Reload) s : Server :=
  let start_rep w s := on_rep (reporter_start (rl_iom r)) (sw_startRep w) s in
  let start_syn w s := start_sync (rl_iom r) (sw_startSync w) s in
  let stop_rep w s := on_rep reporter_stop (sw_stopRep w) s in
  let stop_syn w s := on_sync sync_stop (sw_stopSync w) s in
  match rl_pc r with
  | E_START w => stop_syn w (stop_rep w (start_syn w (start_rep w s)))
  | E_SYNC w => stop_syn w (stop_rep w (start_syn w s))
  | E_STOP w => stop_syn w (stop_rep w s)
  | E_STOPSYNC w => stop_syn w s
  | _ => s
  end.

(** What the one reload that runs knows: what it read is still in force. *)
Definition current s (r : Reload) : Prop :=
  match rl_pc r with
  | E_GUARD _ oldSubmit old | E_LOAD _ oldSubmit old => oldSubmit = gs_submit s /\ old = gs_reporter s
  | E_SWAP _ ld => ld_reporter ld = gs_reporter s \/
      match ld_reporter ld with Some i => exists path, gs_reps s !! i = Some (mkReporterObj path false true) /\ path <> ""%string | None => True end
  | _ => True
  end.

Record serial_inv s : Prop := {
  sv_calm : quiet s = true -> calm s;
  sv_one : forall i r, gs_reloads s !! i = Some r -> over r = false ->
    (forall j r', gs_reloads s !! j = Some r' -> j <> i -> over r' = true) /\ calm (settle r s) /\ current s r }.

Lemma calm_same s s' : gs_reps s' = gs_reps s -> gs_syncs s' = gs_syncs s -> gs_reporter s' = gs_reporter s -> gs_sync s' = gs_sync s ->
  calm s -> calm s'.
Proof. unfold calm. by intros -> -> -> ->. Qed.

(** What a swap does to the services, and what it leaves to start and stop. *)
Record swapped (iom : bool) (rep : option nat) s (w : Swap) s' : Prop := {
  wd_reporter : gs_reporter s' = rep /\ gs_reps s' = gs_reps s;
  wd_rep : sw_startRep w = None /\ sw_stopRep w = None /\ gs_reporter s = rep \/
    iom = true /\ sw_startRep w = rep /\ sw_stopRep w = gs_reporter s /\ gs_reporter s <> rep;
  wd_sync : sw_startSync w = None /\ sw_stopSync w = None /\ gs_sync s' = gs_sync s /\ gs_syncs s' = gs_syncs s \/
    iom = true /\ sw_startSync w = gs_sync s' /\ sw_stopSync w = gs_sync s /\
    (gs_sync s' = None /\ gs_syncs s' = gs_syncs s \/
     gs_sync s' = Some (length (gs_syncs s)) /\ exists path instance, path <> ""%string /\
       gs_syncs s' = gs_syncs s ++ [mkSyncObj path instance false false]) }.

Lemma swap_swapped r path ld now s w s' : in_force resolves s -> swap r path ld now s = (E_START w, s') ->
  swapped (rl_iom r) (ld_reporter ld) s w s'.
Proof.
  intros HF. pose proof (nf_sync _ _ HF) as Hy. unfold swap. cbv zeta. case_match; [done|].
  set (wanted := negb (String.eqb (ic_subscribe (ld_ip ld)) "")).
  set (ss := (wanted || _) && _). destruct ((_ || ss) && negb (rl_iom r)) eqn:Ei; [done|].
  assert (Hi : negb (bool_decide (ld_reporter ld = gs_reporter s)) || ss = true -> rl_iom r = true) by (intros E; rewrite E in Ei; by apply negb_false_iff in Ei).
  assert (Hn : wanted = false -> ss = false -> gs_sync s = None).
  { subst ss. intros Hw. rewrite Hw. intros Hss. destruct (gs_sync s) as [k|]; [|done]. destruct Hy as (o & _ & _ & _ & Hne).
    apply String.eqb_neq in Hne. rewrite Hne in Hss. cbn [negb andb orb] in Hss.
    unfold wanted in Hw. apply negb_false_iff, String.eqb_eq in Hw. rewrite Hw, String.eqb_sym, Hne in Hss. done. }
  destruct wanted eqn:Hw, ss eqn:Hss; intros [= <- <-]; (split; cbn; [done| |]).
  all: try (case_bool_decide; [by left|right; split_and!; [by apply Hi|done|done|congruence]]).
  - right. split_and!; [apply Hi; by rewrite orb_true_r|done|done|]. right. split; [done|]. do 2 eexists. split; [|done].
    by apply String.eqb_neq, negb_true_iff.
  - by left.
  - right. split_and!; [apply Hi; by rewrite orb_true_r|done|done|by left].
  - left. split_and!; try done. symmetry. by apply Hn.
Qed.

Definition on_list {A} (f : A -> A) (i : option nat) (l : list A) : list A := match i with Some i => alter f i l | None => l end.

Lemma on_list_lookup {A} (f : A -> A) i l j : on_list f i l !! j = (if decide (i = Some j) then f else id) <$> l !! j.
Proof.
  destruct i as [i|]; cbn.
  - destruct (decide (i = j)) as [->|Hn]; [rewrite list_lookup_alter_eq, decide_True by done; done|].
    rewrite list_lookup_alter_ne, decide_False by congruence. by destruct (l !! j).
  - rewrite decide_False by done. by destruct (l !! j).
Qed.

Lemma on_rep_reps f i s : gs_reps (on_rep f i s) = on_list f i (gs_reps s).
Proof. by destruct i. Qed.
Lemma on_sync_syncs f i s : gs_syncs (on_sync f i s) = on_list f i (gs_syncs s).
Proof. by destruct i. Qed.
Lemma start_sync_syncs iom i s : gs_syncs (start_sync iom i s) = on_list (sync_start iom) i (gs_syncs s).
Proof. unfold start_sync. cbv zeta. rewrite on_sync_syncs. by case_match. Qed.

Lemma on_rep_rest f i s : gs_syncs (on_rep f i s) = gs_syncs s /\ gs_reporter (on_rep f i s) = gs_reporter s /\ gs_sync (on_rep f i s) = gs_sync s.
Proof. by destruct i. Qed.
Lemma on_sync_rest f i s : gs_reps (on_sync f i s) = gs_reps s /\ gs_reporter (on_sync f i s) = gs_reporter s /\ gs_sync (on_sync f i s) = gs_sync s.
Proof. by destruct i. Qed.
Lemma start_sync_rest iom i s : gs_reps (start_sync iom i s) = gs_reps s /\ gs_reporter (start_sync iom i s) = gs_reporter s /\ gs_sync (start_sync iom i s) = gs_sync s.
Proof. unfold start_sync. cbv zeta. destruct (on_sync_rest (sync_start iom) i (if match i ≫= fun i => gs_syncs s !! i with Some o => can_start iom o | None => false end
  then s <| gs_guard := (fun g => setRemoteEnabled g true) <$> gs_guard s |> else s)) as (-> & -> & ->). by case_match. Qed.

Ltac services := repeat first [rewrite on_rep_reps|rewrite on_sync_syncs|rewrite start_sync_syncs
  |rewrite (proj1 (on_rep_rest _ _ _))|rewrite (proj1 (proj2 (on_rep_rest _ _ _)))|rewrite (proj2 (proj2 (on_rep_rest _ _ _)))
  |rewrite (proj1 (on_sync_rest _ _ _))|rewrite (proj1 (proj2 (on_sync_rest _ _ _)))|rewrite (proj2 (proj2 (on_sync_rest _ _ _)))
  |rewrite (proj1 (start_sync_rest _ _ _))|rewrite (proj1 (proj2 (start_sync_rest _ _ _)))|rewrite (proj2 (proj2 (start_sync_rest _ _ _)))].

(** The services after all four calls. *)
Lemma swapped_reps iom rep s w s' : swapped iom rep s w s' -> calm s ->
  rep = gs_reporter s \/ match rep with Some i => exists path, gs_reps s !! i = Some (mkReporterObj path false true) /\ path <> ""%string | None => True end ->
  forall i o, on_list reporter_stop (sw_stopRep w) (on_list (reporter_start iom) (sw_startRep w) (gs_reps s')) !! i = Some o ->
    rep_on o = true <-> gs_reporter s' = Some i.
Proof.
  intros [[Hrep Hreps] Hr _] [Hc _] Hl i o'. rewrite !on_list_lookup, Hreps, Hrep. intros H. apply fmap_Some in H as (o & Ho & ->).
  apply fmap_Some in Ho as (o1 & Ho & ->). pose proof (Hc _ _ Ho) as Hi.
  destruct Hr as [(-> & -> & E)|(-> & -> & -> & Hne)]; [by rewrite !decide_False, <- E by done|].
  destruct Hl as [Hl|Hl]; [congruence|]. destruct (decide (rep = Some i)) as [->|Hni].
  - rewrite decide_False by done. destruct Hl as (path & Hp & Hpath). rewrite Hp in Ho. injection Ho as <-. cbn.
    apply String.eqb_neq in Hpath. unfold reporter_start. cbn. by rewrite Hpath.
  - destruct (decide (gs_reporter s = Some i)); cbn; [|naive_solver]. unfold rep_on. cbn. rewrite andb_false_r. naive_solver.
Qed.

Lemma swapped_syncs iom rep s w s' : swapped iom rep s w s' -> calm s -> sync_for s (gs_sync s) (gs_subscribe s) (gs_instance s) ->
  forall i o, on_list sync_stop (sw_stopSync w) (on_list (sync_start iom) (sw_startSync w) (gs_syncs s')) !! i = Some o ->
    sync_on o = true <-> gs_sync s' = Some i.
Proof.
  intros [_ _ Hy] [_ Hc] Hf i o'. rewrite !on_list_lookup. intros H. apply fmap_Some in H as (o & Ho & ->).
  apply fmap_Some in Ho as (o1 & Ho & ->).
  destruct Hy as [(-> & -> & E & Es)|(-> & -> & -> & [[E Es]|(E & path & ins & Hp & Es)])]; rewrite Es in Ho.
  - rewrite !decide_False, E by done. cbn. by apply Hc.
  - rewrite E. rewrite (decide_False (P := None = Some i)) by done. cbn. pose proof (Hc _ _ Ho) as Hi.
    destruct (decide (gs_sync s = Some i)) as [X|X]; [|naive_solver]. unfold sync_stop. apply Hi in X. unfold sync_on in *.
    apply andb_true_iff in X as [-> _]. cbn. rewrite andb_false_r. naive_solver.
  - rewrite E. apply lookup_app_Some in Ho as [Ho|[Hlen Ho]].
    + pose proof (lookup_lt_Some _ _ _ Ho) as Hlt. rewrite (decide_False (P := Some _ = Some i)) by (intros [= ]; lia). cbn. pose proof (Hc _ _ Ho) as Hi.
      assert (Some (length (gs_syncs s)) <> Some i) by (intros [= ]; lia).
      destruct (decide (gs_sync s = Some i)) as [X|X]; [|naive_solver]. unfold sync_stop. apply Hi in X. unfold sync_on in *.
      apply andb_true_iff in X as [-> _]. cbn. rewrite andb_false_r. naive_solver.
    + apply list_lookup_singleton_Some in Ho as [Hz <-]. assert (i = length (gs_syncs s)) as -> by lia. rewrite (decide_True (P := Some _ = _)) by done.
      rewrite decide_False.
      2: { intros X. rewrite X in Hf. destruct Hf as (o & Ho & _). apply lookup_lt_Some in Ho. lia. }
      unfold sync_start, can_start. cbn. apply String.eqb_neq in Hp. by rewrite Hp.
Qed.

Lemma swap_calm r path ld now s w s' : in_force resolves s -> calm s -> current s (r <| rl_pc := E_SWAP path ld |>) ->
  swap r path ld now s = (E_START w, s') -> calm (settle (r <| rl_pc := E_START w |>) s').
Proof.
  intros HF Hc Hl H. pose proof (swap_swapped _ _ _ _ _ _ _ HF H) as W. split; cbn -[on_rep on_sync start_sync]; services; intros i o.
  - by eapply swapped_reps.
  - by eapply swapped_syncs, (nf_sync _ _ HF).
Qed.

Lemma calm_settle_same r s s' : gs_reps s' = gs_reps s -> gs_syncs s' = gs_syncs s -> gs_reporter s' = gs_reporter s -> gs_sync s' = gs_sync s ->
  calm (settle r s) -> calm (settle r s').
Proof.
  intros E1 E2 E3 E4. unfold settle. cbv zeta. destruct (rl_pc r); apply calm_same; services; congruence.
Qed.

Lemma load_calm r path oldSubmit old root s pc s' : in_force resolves s -> calm s -> oldSubmit = gs_submit s /\ old = gs_reporter s ->
  load resolves (rl_iom r) path oldSubmit old root s = (pc, s') -> calm (settle (r <| rl_pc := pc |>) s') /\ current s' (r <| rl_pc := pc |>).
Proof.
  intros HF Hc [-> ->]. unfold load. intros H. destruct root as [root|]; [|by simplify_eq].
  destruct (readIpCfg root) as [ip| |] eqn:Ei; [|by simplify_eq..].
  assert (Hn : forall l, calm (s <| gs_reps := gs_reps s ++ [mkReporterObj (ic_submit ip) false true] |> <| gs_read := l |>)).
  { destruct Hc as [Hr Hs]. split; [|exact Hs]. cbn. intros i o [Ho|[Hlen Ho]]%lookup_app_Some; [by apply Hr|].
    apply list_lookup_singleton_Some in Ho as [Hz <-]. split; [done|]. intros E. pose proof (nf_reporter _ _ HF) as X. rewrite E in X.
    destruct X as (o & Ho & _). apply lookup_lt_Some in Ho. lia. }
  destruct (String.eqb (ic_submit ip) "") eqn:E0; [|destruct (_ && _) eqn:E1];
    (destruct (BuildSnapshotFromYaml _ _ _ _) as [cfg| |]); simplify_eq; unfold current; cbn; split; try done; try apply Hn; auto.
  right. exists (ic_submit ip). split; [by rewrite lookup_app_r, Nat.sub_diag by done|by apply String.eqb_neq].
Qed.

Lemma reload_settles r root now s pc s' : in_force resolves s -> calm (settle r s) -> current s r ->
  reload_step resolves r root now s = Some (pc, s') -> calm (settle (r <| rl_pc := pc |>) s') /\ current s' (r <| rl_pc := pc |>).
Proof.
  intros HF Hc Hl H. unfold reload_step in H. destruct r as [cp iom pc0]; destruct pc0; cbn -[swap load on_rep on_sync start_sync] in H; simplify_eq.
  - by split.
  - split; [|exact Hl]. by eapply calm_settle_same; [..|exact Hc].
  - eapply (load_calm (mkReload cp iom (E_LOAD path oldSubmit old))); [done|exact Hc|exact Hl|done].
  - destruct pc; try (unfold swap in H; cbv zeta in H; repeat (case_match; simplify_eq); by split).
    split; [|done]. eapply (swap_calm (mkReload cp iom (E_SWAP path ld))); [done|exact Hc|exact Hl|done].
  - split; [exact Hc|done].
  - split; [exact Hc|done].
  - split; [exact Hc|done].
  - split; [exact Hc|done].
Qed.

Lemma quiet_over s : quiet s = true <-> forall i r, gs_reloads s !! i = Some r -> over r = true.
Proof.
  unfold quiet. rewrite forallb_forall. split.
  - intros H i r Hr. apply H, list_elem_of_In. by eapply list_elem_of_lookup_2.
  - intros H r Hr. apply list_elem_of_In, list_elem_of_lookup in Hr as [i Hr]. by eapply H.
Qed.

Lemma serial_inv_step o s s' : in_force resolves s -> serial_inv s -> (match o.1.1 with RELOAD _ _ => quiet s = true | _ => True end) ->
  server_step resolves o s = Some s' -> serial_inv s'.
Proof.
  intros HF [Hc Ho] Hq H. destruct o as [[o root] now]. destruct o as [p| |cfgPath iom|i]; cbn in H, Hq; simplify_eq.
  - split; [exact Hc|]. intros i r Hr Hn. destruct (Ho _ _ Hr Hn) as (? & Hset & ?). split_and!; [done| |done]. by eapply calm_settle_same; [..|exact Hset].
  - split; [exact Hc|]. intros i r Hr Hn. destruct (Ho _ _ Hr Hn) as (? & Hset & ?). split_and!; [done| |done]. by eapply calm_settle_same; [..|exact Hset].
  - pose proof (proj1 (quiet_over s) Hq) as Hall. split; cbn; [intros _; exact (Hc Hq)|].
    intros i r Hr Hn. apply lookup_app_Some in Hr as [Hr|[Hlen Hr]]; [by rewrite (Hall _ _ Hr) in Hn|].
    apply list_lookup_singleton_Some in Hr as [Hz <-]. split_and!; [|exact (Hc Hq)|done].
    intros j r' Hj Hne. apply lookup_app_Some in Hj as [Hj|[Hlen' Hj]]; [by eapply Hall|].
    apply list_lookup_singleton_Some in Hj as [Hz' _]. lia.
  - apply server_step_reload in H as (r & pc & s1 & Hr & H & ->).
    assert (Hn : over r = false) by (unfold reload_step in H; unfold over; by destruct (rl_pc r)).
    destruct (Ho _ _ Hr Hn) as (Hothers & Hset & Hcur). destruct (reload_settles _ _ _ _ _ _ HF Hset Hcur H) as [Hset' Hcur'].
    pose proof (reload_reloads _ _ _ _ _ _ _ H) as El. pose proof (lookup_lt_Some _ _ _ Hr) as Hlt. split.
    + rewrite quiet_over. cbn. rewrite El. intros Hall. specialize (Hall i (r <| rl_pc := pc |>)). rewrite list_lookup_insert_eq in Hall by done.
      specialize (Hall eq_refl). unfold over in Hall. unfold settle in Hset'. cbn in Hall, Hset'. by destruct pc.
    + cbn. rewrite El. intros j r' Hj Hn'. destruct (decide (j = i)) as [->|Hne].
      * rewrite list_lookup_insert_eq in Hj by done. injection Hj as <-. split_and!; [|by eapply calm_settle_same; [..|exact Hset']|exact Hcur'].
        intros k r' Hk Hki. rewrite list_lookup_insert_ne in Hk by done. by eapply Hothers.
      * rewrite list_lookup_insert_ne in Hj by done. by rewrite (Hothers _ _ Hj Hne) in Hn'.
Qed.

Lemma serial_inv_run ops s s' : force_inv resolves s -> serial_inv s -> serial ops s = true -> server_run resolves ops s = Some s' -> serial_inv s'.
Proof.
  revert s. induction ops as [|o ops IH]; cbn; intros s HF HI Hs H; [by simplify_eq|].
  apply bind_Some in H as (s1 & H1 & H). rewrite H1 in Hs. apply andb_true_iff in Hs as [Hq Hs].
  eapply IH; [by eapply force_inv_step| |exact Hs|exact H]. eapply serial_inv_step; [exact (proj1 HF)|done| |exact H1]. by destruct o.1.1.
Qed.

(** ** However reloads interleave *)

(** The calls that a reload has still to make. *)
Definition starts_rep (r : Reload) : option nat := match rl_pc r with E_START w => if rl_iom r then sw_startRep w else None | _ => None end.
Definition starts_sync (r : Reload) : option nat := match rl_pc r with E_START w | E_SYNC w => if rl_iom r then sw_startSync w else None | _ => None end.
Definition stops_rep (r : Reload) : option nat := match rl_pc r with E_START w | E_SYNC w | E_STOP w => sw_stopRep w | _ => None end.
Definition stops_sync (r : Reload) : option nat := match rl_pc r with E_START w | E_SYNC w | E_STOP w | E_STOPSYNC w => sw_stopSync w | _ => None end.

Definition pending (f : Reload -> option nat) (i : nat) s : Prop := Exists (fun r => f r = Some i) (gs_reloads s).

Record mixed_inv s : Prop := {
  mx_old : forall i o, gs_reps s !! i = Some o -> rp_started o = true \/ pending starts_rep i s ->
    gs_reporter s = Some i \/ rp_accepting o = false \/ pending stops_rep i s;
  mx_rep : forall i o, gs_reps s !! i = Some o -> gs_reporter s = Some i -> rp_started o = true \/ pending starts_rep i s;
  mx_sync : forall i o, gs_syncs s !! i = Some o -> gs_sync s = Some i -> sync_on o = true \/ sy_started o = false /\ pending starts_sync i s;
  mx_kept : forall i, gs_sync s = Some i -> ~ pending stops_sync i s;
  mx_made : forall i, pending stops_sync i s -> (i < length (gs_syncs s))%nat;
  mx_made_rep : forall i, pending starts_rep i s -> (i < length (gs_reps s))%nat }.

(** A reload moves from [r] to [r']: what pends afterwards. *)
Lemma pending_in f i s k r : gs_reloads s !! k = Some r -> f r = Some i -> pending f i s.
Proof. intros Hr Hf. apply Exists_exists. exists r. split; [by eapply list_elem_of_lookup_2|done]. Qed.

Lemma pending_step f i s s' k r r' : gs_reloads s !! k = Some r -> gs_reloads s' = <[k := r']> (gs_reloads s) ->
  pending f i s' <-> f r' = Some i \/ exists j rj, j <> k /\ gs_reloads s !! j = Some rj /\ f rj = Some i.
Proof.
  intros Hr E. pose proof (lookup_lt_Some _ _ _ Hr) as Hlt. unfold pending. rewrite E, Exists_exists. split.
  - intros (x & Hx & Hf). apply list_elem_of_lookup in Hx as [j Hj]. destruct (decide (j = k)) as [->|Hne].
    + rewrite list_lookup_insert_eq in Hj by done. simplify_eq. by left.
    + rewrite list_lookup_insert_ne in Hj by done. right. eauto.
  - intros [Hf|(j & rj & Hne & Hj & Hf)].
    + exists r'. split; [|done]. apply list_elem_of_lookup. exists k. by apply list_lookup_insert_eq.
    + exists rj. split; [|done]. apply list_elem_of_lookup. exists j. by rewrite list_lookup_insert_ne.
Qed.

Lemma pending_before f i s k r : gs_reloads s !! k = Some r ->
  pending f i s <-> f r = Some i \/ exists j rj, j <> k /\ gs_reloads s !! j = Some rj /\ f rj = Some i.
Proof. intros Hr. apply (pending_step f i s s k r r Hr). by rewrite list_insert_id. Qed.

(** A step that makes no call and no swap. *)
Lemma mixed_idle k r r' s s' : gs_reloads s !! k = Some r -> gs_reloads s' = <[k := r']> (gs_reloads s) ->
  (starts_rep r', starts_sync r', stops_rep r', stops_sync r') = (starts_rep r, starts_sync r, stops_rep r, stops_sync r) ->
  gs_reporter s' = gs_reporter s -> gs_sync s' = gs_sync s -> gs_syncs s' = gs_syncs s -> (length (gs_reps s) <= length (gs_reps s'))%nat ->
  (forall i o, gs_reps s' !! i = Some o -> gs_reps s !! i = Some o \/ rp_started o = false /\ (length (gs_reps s) <= i)%nat /\ gs_reporter s <> Some i) ->
  mixed_inv s -> mixed_inv s'.
Proof.
  intros Hr El Ep E1 E2 E3 Hlen Hn [M1 M2 M3 M4 M5 M6]. injection Ep as P1 P2 P3 P4.
  assert (X : forall (f : Reload -> option nat) i, f r' = f r -> pending f i s' <-> pending f i s).
  { intros f i Hf. by rewrite (pending_step f i s s' k r r' Hr El), (pending_before f i s k r Hr), Hf. }
  pose proof (fun i => X starts_rep i P1) as X1. pose proof (fun i => X starts_sync i P2) as X2.
  pose proof (fun i => X stops_rep i P3) as X3. pose proof (fun i => X stops_sync i P4) as X4.
  split; intros i; [intros o Ho|intros o Ho|intros o Ho| | |]; rewrite ?X1, ?X2, ?X3, ?X4, ?E1, ?E2, ?E3.
  - intros H. destruct (Hn _ _ Ho) as [Ho'|(Hs & Hp & Hc)]; [by eapply M1|]. rewrite Hs in H. destruct H as [|H%M6]; [done|lia].
  - intros H. destruct (Hn _ _ Ho) as [Ho'|(Hs & Hp & Hc)]; [by eapply M2|done].
  - rewrite E3 in Ho. by apply M3.
  - by apply M4.
  - by apply M5.
  - intros H%M6. lia.
Qed.

Lemma load_pends iom path oldSubmit old root s pc s' r : load resolves iom path oldSubmit old root s = (pc, s') ->
  (starts_rep (r <| rl_pc := pc |>), starts_sync (r <| rl_pc := pc |>), stops_rep (r <| rl_pc := pc |>), stops_sync (r <| rl_pc := pc |>)) = (None, None, None, None).
Proof. unfold load. intros H. repeat (case_match; simplify_eq); done. Qed.

Lemma load_services iom path oldSubmit old root s pc s' : load resolves iom path oldSubmit old root s = (pc, s') ->
  gs_reporter s' = gs_reporter s /\ gs_sync s' = gs_sync s /\ gs_syncs s' = gs_syncs s /\
  (gs_reps s' = gs_reps s \/ exists path, gs_reps s' = gs_reps s ++ [mkReporterObj path false true]).
Proof. unfold load. intros H. repeat (case_match; simplify_eq); cbn; eauto 8. Qed.

Lemma mixed_load k r path oldSubmit old root s pc s' : in_force resolves s -> mixed_inv s -> gs_reloads s !! k = Some r ->
  rl_pc r = E_LOAD path oldSubmit old -> load resolves (rl_iom r) path oldSubmit old root s = (pc, s') -> gs_reloads s' = gs_reloads s ->
  mixed_inv (s' <| gs_reloads := <[k := r <| rl_pc := pc |>]> (gs_reloads s') |>).
Proof.
  intros HF HM Hr Ep H El. pose proof (load_pends _ _ _ _ _ _ _ _ r H) as P.
  destruct (load_services _ _ _ _ _ _ _ _ H) as (E1 & E2 & E3 & E4).
  eapply (mixed_idle k r (r <| rl_pc := pc |>) s); [exact Hr|cbn; by rewrite El| |exact E1|exact E2|exact E3|cbn|cbn|exact HM].
  - rewrite P. unfold starts_rep, starts_sync, stops_rep, stops_sync. by rewrite Ep.
  - destruct E4 as [->|[? ->]]; [done|]. rewrite length_app. lia.
  - destruct E4 as [->|[? ->]]; [by left|]. intros i o [Ho|[Hlen Ho]]%lookup_app_Some; [by left|right].
    apply list_lookup_singleton_Some in Ho as [Hz <-]. split_and!; [done|done|]. intros E. pose proof (nf_reporter _ _ HF) as X. rewrite E in X.
    destruct X as (o & Ho & _). apply lookup_lt_Some in Ho. lia.
Qed.

(** The swap, with what its reload has to do from then on. *)
Lemma mixed_swap k r path ld now s w s' : in_force resolves s -> rep_for s (ld_reporter ld) (ic_submit (ld_ip ld)) -> mixed_inv s ->
  gs_reloads s !! k = Some r -> rl_pc r = E_SWAP path ld -> swap r path ld now s = (E_START w, s') ->
  gs_reloads s' = gs_reloads s -> mixed_inv (s' <| gs_reloads := <[k := r <| rl_pc := E_START w |>]> (gs_reloads s') |>).
Proof.
  intros HF HL [M1 M2 M3 M4 M5 M6] Hr Ep H El. pose proof (swap_swapped _ _ _ _ _ _ _ HF H) as [[Hrep Hreps] HR HY].
  set (s1 := s' <| gs_reloads := _ |>). set (r1 := r <| rl_pc := E_START w |>) in *.
  assert (X : forall (f : Reload -> option nat) i, f r = None -> pending f i s1 <-> f r1 = Some i \/ pending f i s).
  { intros f i Hf. rewrite (pending_step f i s s1 k r r1 Hr) by (cbn; by rewrite El). rewrite (pending_before f i s k r Hr), Hf. naive_solver. }
  assert (P : starts_rep r = None /\ starts_sync r = None /\ stops_rep r = None /\ stops_sync r = None)
    by (unfold starts_rep, starts_sync, stops_rep, stops_sync; by rewrite Ep).
  destruct P as (P1 & P2 & P3 & P4).
  pose proof (fun i => X starts_rep i P1) as X1. pose proof (fun i => X starts_sync i P2) as X2.
  pose proof (fun i => X stops_rep i P3) as X3. pose proof (fun i => X stops_sync i P4) as X4.
  unfold starts_rep at 1 in X1. unfold starts_sync at 1 in X2. unfold stops_rep at 1 in X3. unfold stops_sync at 1 in X4.
  cbn [r1 rl_pc rl_iom set] in X1, X2, X3, X4.
  assert (Hlt : forall i, gs_sync s = Some i -> (i < length (gs_syncs s))%nat).
  { intros i E. pose proof (nf_sync _ _ HF) as F. rewrite E in F. destruct F as (o & Ho & _). by apply lookup_lt_Some in Ho. }
  assert (Hsyncs : (length (gs_syncs s) <= length (gs_syncs s'))%nat).
  { destruct HY as [(_ & _ & _ & ->)|(_ & _ & _ & [[_ ->]|[_ (p & ins & _ & ->)]])]; rewrite ?length_app; lia. }
  split; intros i; [intros o Ho|intros o Ho|intros o Ho| | |]; rewrite ?X1, ?X2, ?X3, ?X4; cbn in *;
    clear X X1 X2 X3 X4 P1 P2 P3 P4.
  - rewrite Hreps in Ho. rewrite Hrep. pose proof (M1 _ _ Ho) as M. clear - M HR.
    destruct HR as [(-> & -> & <-)|(-> & -> & -> & _)]; [|naive_solver]. destruct (rl_iom r); naive_solver.
  - rewrite Hreps in Ho. rewrite Hrep. pose proof (M2 _ _ Ho) as M. clear - M HR. destruct HR as [(-> & _ & <-)|(-> & -> & _)]; naive_solver.
  - destruct HY as [(_ & _ & E1 & E2)|(-> & -> & _ & [[-> _]|[-> (p & ins & _ & E2)]])]; [|done|].
    + rewrite E2 in Ho. rewrite E1. intros E. destruct (M3 _ _ Ho E) as [|[]]; [by left|right]. split; [done|by right].
    + intros [= <-]. rewrite E2, lookup_app_r, Nat.sub_diag in Ho by done. injection Ho as <-. right. by split; [|left].
  - destruct HY as [(_ & -> & -> & _)|(_ & _ & -> & [[-> _]|[-> _]])]; [|done|].
    + intros E [|Hp]; [done|]. by apply (M4 _ E).
    + intros [= <-] [E|Hp%M5]; [apply Hlt in E|]; lia.
  - intros [E|Hp%M5]; [|lia]. destruct HY as [(_ & Y & _)|(_ & _ & Y & _)]; rewrite Y in E; [done|apply Hlt in E; lia].
  - rewrite Hreps. intros [E|Hp%M6]; [|lia]. destruct HR as [(E1 & _)|(E1 & E2 & _)]; rewrite E1 in E; [by destruct (rl_iom r)|].
    rewrite E2 in E. rewrite E in HL. destruct HL as (o & Ho & _). by apply lookup_lt_Some in Ho.
Qed.

(** The calls. *)
Lemma on_list_Some {A} (f : A -> A) i l j x' : on_list f i l !! j = Some x' ->
  exists x, l !! j = Some x /\ x' = (if decide (i = Some j) then f x else x).
Proof. rewrite on_list_lookup. intros H. apply fmap_Some in H as (x & Hx & ->). exists x. split; [done|]. by case_decide. Qed.

Lemma length_on_list {A} (f : A -> A) i l : length (on_list f i l) = length l.
Proof. destruct i; [|done]. apply length_alter. Qed.

Lemma mixed_call k r r1 s s1 freps fsyncs irep isync : gs_reloads s !! k = Some r -> gs_reloads s1 = <[k := r1]> (gs_reloads s) ->
  gs_reporter s1 = gs_reporter s -> gs_sync s1 = gs_sync s ->
  gs_reps s1 = on_list freps irep (gs_reps s) -> gs_syncs s1 = on_list fsyncs isync (gs_syncs s) ->
  (forall f, In f [starts_rep; starts_sync; stops_rep; stops_sync] -> f r1 = f r \/ f r1 = None) ->
  (forall i o, gs_reps s !! i = Some o -> let o' := if decide (irep = Some i) then freps o else o in
     (rp_started o' = true -> rp_started o = true \/ starts_rep r = Some i) /\
     (rp_started o = true -> rp_started o' = true) /\ (rp_accepting o = false -> rp_accepting o' = false) /\
     (stops_rep r = Some i -> stops_rep r1 = Some i \/ rp_accepting o' = false) /\
     (gs_reporter s = Some i -> starts_rep r = Some i -> starts_rep r1 = Some i \/ rp_started o' = true)) ->
  (forall i o, gs_syncs s !! i = Some o -> gs_sync s = Some i -> let o' := if decide (isync = Some i) then fsyncs o else o in
     (sync_on o = true -> sync_on o' = true) /\
     (sy_started o = false -> sync_on o' = true \/ sy_started o' = false /\ (starts_sync r = Some i -> starts_sync r1 = Some i))) ->
  mixed_inv s -> mixed_inv s1.
Proof.
  intros Hr El E1 E2 E3 E4 Hf Hrep Hsync [M1 M2 M3 M4 M5 M6].
  assert (X : forall f i, pending f i s1 <-> f r1 = Some i \/ exists j rj, j <> k /\ gs_reloads s !! j = Some rj /\ f rj = Some i)
    by (intros f i; by apply (pending_step f i s s1 k r r1)).
  assert (Y : forall f i, pending f i s <-> f r = Some i \/ exists j rj, j <> k /\ gs_reloads s !! j = Some rj /\ f rj = Some i)
    by (intros f i; by apply (pending_before f i s k r)).
  assert (Z : forall f i, In f [starts_rep; starts_sync; stops_rep; stops_sync] -> pending f i s1 -> pending f i s).
  { intros f i Hin. rewrite X, Y. destruct (Hf f Hin) as [->| ->]; [done|]. intros [|]; [done|by right]. }
  split; intros i.
  - intros o' Ho'. rewrite E1. rewrite E3 in Ho'. apply on_list_Some in Ho' as (o & Ho & ->).
    destruct (Hrep _ _ Ho) as (S1 & _ & A1 & T1 & _). intros H.
    assert (H' : rp_started o = true \/ pending starts_rep i s).
    { destruct H as [H|H]; [|right; apply Z; [by left|exact H]]. destruct (S1 H) as [|E]; [by left|]. right. by eapply pending_in. }
    destruct (M1 _ _ Ho H') as [|[Ha|Hp]]; [by left|right; left; by apply A1|]. rewrite Y in Hp. rewrite X.
    destruct Hp as [Hp|Hp]; [|tauto]. destruct (T1 Hp); tauto.
  - intros o' Ho'. rewrite E1. rewrite E3 in Ho'. apply on_list_Some in Ho' as (o & Ho & ->).
    destruct (Hrep _ _ Ho) as (_ & K1 & _ & _ & C1). intros E. destruct (M2 _ _ Ho E) as [Hs|Hp]; [left; by apply K1|].
    rewrite Y in Hp. rewrite X. destruct Hp as [Hp|Hp]; [|tauto]. destruct (C1 E Hp); tauto.
  - intros o' Ho'. rewrite E2. rewrite E4 in Ho'. apply on_list_Some in Ho' as (o & Ho & ->). intros E.
    destruct (Hsync _ _ Ho E) as (K1 & C1). destruct (M3 _ _ Ho E) as [Hs|[Hs Hp]]; [left; by apply K1|].
    rewrite Y in Hp. rewrite X. destruct (C1 Hs) as [|[Hn Hc]]; tauto.
  - rewrite E2. intros E Hp. apply (M4 _ E), Z; [cbn; tauto|done].
  - intros Hp%Z; [|cbn; tauto]. rewrite E4, length_on_list. by apply M5.
  - intros Hp%Z; [|by left]. rewrite E3, length_on_list. by apply M6.
Qed.

Lemma on_none {A} (l : list A) f : l = on_list f None l.
Proof. done. Qed.

(** No service of this kind is called. *)
Ltac uncalled := first [apply (on_none _ (fun x => x))|intros ? ? ?; cbn; rewrite ?decide_False by done; cbn; tauto].

Lemma mixed_calls k r s pc s' root now : in_force resolves s -> mixed_inv s -> gs_reloads s !! k = Some r ->
  match rl_pc r with E_START _ | E_SYNC _ | E_STOP _ | E_STOPSYNC _ => True | _ => False end ->
  reload_step resolves r root now s = Some (pc, s') -> mixed_inv (s' <| gs_reloads := <[k := r <| rl_pc := pc |>]> (gs_reloads s') |>).
Proof.
  intros HF HM Hr Hpc H. pose proof (reload_reloads _ _ _ _ _ _ _ H) as El. unfold reload_step in H.
  destruct r as [cp iom pc0]; cbn -[on_rep on_sync start_sync] in *. destruct pc0; try done; simplify_eq.
  - eapply (mixed_call k _ _ s _ (reporter_start iom) (fun x => x) (sw_startRep w) None Hr); try (cbn -[on_rep]; services; by rewrite ?El).
    + intros f [<-|[<-|[<-|[<-|[]]]]]; cbn; auto.
    + intros i o Ho. unfold starts_rep, stops_rep; cbn. destruct (decide _) as [E|E]; [|destruct iom; naive_solver]. unfold reporter_start. rewrite E.
      pose proof (nf_reporter _ _ HF) as F. destruct iom; cbn; [|naive_solver]. destruct (rp_started o) eqn:Es; rewrite ?andb_false_r, ?Es; [tauto|].
      destruct (String.eqb _ _) eqn:En; cbn; [|tauto]. split_and!; try tauto; [by rewrite Es|]. intros Ec _. rewrite Ec in F.
      destruct F as (o2 & Ho2 & <- & Hne). simplify_eq. by apply String.eqb_eq in En.
    + intros i o Ho Hc. cbn. unfold starts_sync; cbn. tauto.
  - eapply (mixed_call k _ _ s _ (fun x => x) (sync_start iom) None (sw_startSync w) Hr); try (cbn -[start_sync]; services; by rewrite ?El).
    + intros f [<-|[<-|[<-|[<-|[]]]]]; cbn; auto.
    + intros i o Ho. unfold starts_rep, stops_rep; cbn. tauto.
    + intros i o Ho Hc. unfold starts_sync; cbn. destruct (decide _) as [E|E]; [|destruct iom; naive_solver]. unfold sync_start, can_start.
      pose proof (nf_sync _ _ HF) as F. rewrite Hc in F. destruct F as (o2 & Ho2 & Hp & _ & Hne). simplify_eq.
      rewrite <- Hp in Hne. apply String.eqb_neq in Hne. rewrite Hne. destruct iom; cbn; [|naive_solver]. unfold sync_on. destruct (sy_started o) eqn:Es; cbn; rewrite ?Es; naive_solver.
  - eapply (mixed_call k _ _ s _ reporter_stop (fun x => x) (sw_stopRep w) None Hr); try (cbn -[on_rep]; services; by rewrite ?El).
    + intros f [<-|[<-|[<-|[<-|[]]]]]; cbn; auto.
    + intros i o Ho. unfold starts_rep, stops_rep; cbn. destruct (decide _); cbn; naive_solver.
    + intros i o Ho Hc. cbn. unfold starts_sync; cbn. tauto.
  - eapply (mixed_call k _ _ s _ (fun x => x) sync_stop None (sw_stopSync w) Hr); try (cbn -[on_sync]; services; by rewrite ?El).
    + intros f [<-|[<-|[<-|[<-|[]]]]]; cbn; auto.
    + intros i o Ho. unfold starts_rep, stops_rep; cbn. tauto.
    + intros i o Ho Hc. unfold starts_sync; cbn. destruct (decide _) as [E|E]; [|tauto]. exfalso.
      apply (mx_kept _ HM _ Hc). by eapply pending_in.
Qed.

Lemma mixed_step o s s' : force_inv resolves s -> mixed_inv s -> server_step resolves o s = Some s' -> mixed_inv s'.
Proof.
  intros [HF HK] HM H. destruct o as [[o root] now]. destruct o as [p| |cfgPath iom|i]; cbn in H; simplify_eq.
  - destruct HM. by split.
  - destruct HM. by split.
  - assert (X : forall (f : Reload -> option nat) i, f (mkReload cfgPath iom E_LOCK) = None ->
      pending f i (s <| gs_reloads := gs_reloads s ++ [mkReload cfgPath iom E_LOCK] |>) <-> pending f i s).
    { intros f i Hf. unfold pending; cbn. rewrite Exists_app, Exists_cons, Exists_nil, Hf. naive_solver. }
    destruct HM as [M1 M2 M3 M4 M5 M6]. split; intros i; [intros o Ho|intros o Ho|intros o Ho| | |]; rewrite ?X by done; eauto.
  - apply server_step_reload in H as (r & pc & s1 & Hr & H & ->). pose proof (reload_reloads _ _ _ _ _ _ _ H) as El.
    rewrite Forall_forall in HK. assert (HKr : knows resolves s r) by by eapply HK, list_elem_of_lookup_2.
    pose proof H as H0. unfold reload_step in H. destruct (rl_pc r) eqn:Ep; simplify_eq.
    + eapply (mixed_idle i r); [exact Hr|done|unfold starts_rep, starts_sync, stops_rep, stops_sync; cbn; by rewrite Ep|done|done|done|done|by left|done].
    + eapply (mixed_idle i r); [exact Hr|done|unfold starts_rep, starts_sync, stops_rep, stops_sync; cbn; by rewrite Ep|done|done|done|done|by left|done].
    + by eapply mixed_load.
    + destruct pc; try (unfold swap in H; cbv zeta in H; repeat (case_match; simplify_eq);
        (eapply (mixed_idle i r); [exact Hr|done|unfold starts_rep, starts_sync, stops_rep, stops_sync; cbn; by rewrite Ep|done|done|done|done|by left|done])).
      unfold knows in HKr. rewrite Ep in HKr. destruct HKr as (_ & HL & _). by eapply mixed_swap.
    + eapply mixed_calls; [done|done|exact Hr|by rewrite Ep|exact H0].
    + eapply mixed_calls; [done|done|exact Hr|by rewrite Ep|exact H0].
    + eapply mixed_calls; [done|done|exact Hr|by rewrite Ep|exact H0].
    + eapply mixed_calls; [done|done|exact Hr|by rewrite Ep|exact H0].
Qed.

Lemma mixed_run ops s s' : force_inv resolves s -> mixed_inv s -> server_run resolves ops s = Some s' -> mixed_inv s'.
Proof.
  revert s. induction ops as [|o ops IH]; cbn; intros s HF HI H; [by simplify_eq|].
  apply bind_Some in H as (s1 & H1 & H). eapply IH; [by eapply force_inv_step|by eapply mixed_step|exact H].
Qed.

Lemma quiet_pending f i s : quiet s = true -> (forall r, over r = true -> f r = None) -> ~ pending f i s.
Proof.
  intros Hq Hf (r & Hr & E)%Exists_exists. apply list_elem_of_lookup in Hr as [j Hj].
  rewrite quiet_over in Hq. rewrite (Hf _ (Hq _ _ Hj)) in E. done.
Qed.

Lemma mixed_inv_new : mixed_inv server_new.
Proof. split; cbn; try done. all: intros i H; by apply Exists_nil in H. Qed.

Lemma serial_inv_new : serial_inv server_new.
Proof. split; cbn; [|done]. intros _. by split. Qed.

(** Nothing that was in force works on after the server. *)
Lemma close_ends s : calm s ->
  (forall i o, gs_reps (server_close s) !! i = Some o -> rep_on o = false) /\
  (forall i o, gs_syncs (server_close s) !! i = Some o -> sync_on o = false).
Proof.
  intros [Hr Hs]. unfold server_close. cbv zeta. split; intros i o'; services; cbn; intros H; apply on_list_Some in H as (o & Ho & ->).
  - pose proof (Hr _ _ Ho) as X. destruct (decide _); [unfold rep_on; cbn; apply andb_false_r|]. destruct (rep_on o); [tauto|done].
  - pose proof (Hs _ _ Ho) as X. destruct (decide _).
    + unfold sync_stop. unfold sync_on in *. destruct (sy_started o) eqn:E; cbn; rewrite ?E; done.
    + destruct (sync_on o); [tauto|done].
Qed.

(** C0: when no reload is under way, however those before interleaved: the reporter in force has been
    started, every other that ever was has been told to stop and takes no more reports, and the
    client of the hub in force works. When no two reloads overlapped, the services that work are
    exactly those in force, the reporter included, and none is left when the server goes. *)
Theorem reload_services ops s : server_run resolves ops server_new = Some s -> quiet s = true ->
  (forall i o, gs_reps s !! i = Some o -> gs_reporter s = Some i -> rp_started o = true) /\
  (forall i o, gs_reps s !! i = Some o -> rp_started o = true -> gs_reporter s <> Some i -> rp_accepting o = false) /\
  (forall i o, gs_syncs s !! i = Some o -> gs_sync s = Some i -> sync_on o = true) /\
  (serial ops server_new = true ->
    calm s /\
    (forall i o, gs_reps (server_close s) !! i = Some o -> rep_on o = false) /\
    (forall i o, gs_syncs (server_close s) !! i = Some o -> sync_on o = false)).
Proof.
  intros H Hq. pose proof (mixed_run _ _ _ (force_inv_new resolves) mixed_inv_new H) as [M1 M2 M3 _ _ _].
  assert (Q : forall f i, In f [starts_rep; starts_sync; stops_rep; stops_sync] -> ~ pending f i s).
  { intros f i Hf. apply quiet_pending; [done|]. intros r Ho. unfold over in Ho.
    destruct Hf as [<-|[<-|[<-|[<-|[]]]]]; unfold starts_rep, starts_sync, stops_rep, stops_sync; by destruct (rl_pc r). }
  split_and!.
  - intros i o Ho E. destruct (M2 _ _ Ho E) as [|X]; [done|]. by apply Q in X; [|left].
  - intros i o Ho E Hne. destruct (M1 _ _ Ho (or_introl E)) as [|[|X]]; [done|done|]. by apply Q in X; [|cbn; tauto].
  - intros i o Ho E. destruct (M3 _ _ Ho E) as [|[_ X]]; [done|]. by apply Q in X; [|cbn; tauto].
  - intros Hs. pose proof (serial_inv_run _ _ _ (force_inv_new resolves) serial_inv_new Hs H) as [Hc _].
    split; [by apply Hc|]. apply close_ends. by apply Hc.
Qed.
End services.

(** ** On documents *)

#[local] Existing Instance insertion_StableSort.
#[local] Existing Instance insertion_StdSort.
#[local] Existing Instance TextInet.
Import DocYaml.

Definition policy_doc (submit subscribe : string) : option YNode :=
  Some (Some (YM [("ip_policy", YM [("submit_sock", YS submit); ("subscribe_sock", YS subscribe)])]))%string.

(** [n] steps of a reload, for which the file holds [doc]. *)
Definition steps (i n : nat) (doc : option YNode) : list (Op * option YNode * Z) := replicate n (STEP i, doc, 1000).

Definition begin_reload (path : string) : Op * option YNode * Z := (RELOAD path true, None, 0).

#[local] Notation reload_run := (server_run (fun _ : string => true)).

(** One after another: the second only changes the reporter, the third cannot be read. *)
Definition three_reloads : list (Op * option YNode * Z) :=
  [begin_reload "c"%string] ++ steps 0 8 (policy_doc "/a" "/h") ++
  [begin_reload ""%string] ++ steps 1 8 (policy_doc "/b" "/h") ++
  [begin_reload ""%string] ++ steps 2 3 None.

Example three_reloads_run :
  serial (fun _ => true) three_reloads server_new = true /\
  match reload_run three_reloads server_new with
  | Some s => quiet s = true /\ (gs_cfgPath s, gs_reporter s, gs_sync s, gs_submit s) = ("c", Some 1%nat, Some 0%nat, "/b")%string /\
      map rep_on (gs_reps s) = [false; true] /\ map sync_on (gs_syncs s) = [true] /\ map rl_pc (gs_reloads s) = [E_RET true; E_RET true; E_RET false]
  | None => False
  end.
Proof. vm_compute. by split_and!. Qed.

(** Two reloads that overlap: the first has chosen to go on with the reporter that the second retires. The
    reporter in force takes no report, and nothing starts another while the socket stays the same. *)
Example stopped_in_service :
  let ops := [begin_reload "c"%string] ++ steps 0 8 (policy_doc "/a" "") ++ [begin_reload ""%string; begin_reload ""%string] ++
    steps 1 3 (policy_doc "/a" "") ++ steps 2 8 (policy_doc "/b" "") ++ steps 1 5 None ++
    [begin_reload ""%string] ++ steps 3 8 (policy_doc "/a" "") in
  match reload_run ops server_new with
  | Some s => quiet s = true /\ gs_reporter s = Some 0%nat /\ map rp_accepting (gs_reps s) = [false; false] /\
      map rl_pc (gs_reloads s) = [E_RET true; E_RET true; E_RET true; E_RET true]
  | None => False
  end.
Proof. vm_compute. by split_and!. Qed.

(** A client of the hub that is retired between the swap and its start: it is stopped first, which does
    nothing yet, then started, and works on with nobody who could stop it. *)
Example started_after_stop :
  let ops := [begin_reload "c"%string; begin_reload "c"%string] ++ steps 0 4 (policy_doc "" "/h") ++
    steps 1 8 (policy_doc "" "/g") ++ steps 0 4 None in
  match reload_run ops server_new with
  | Some s => quiet s = true /\ gs_sync s = Some 1%nat /\ map sync_on (gs_syncs s) = [true; true] /\
      map sync_on (gs_syncs (server_close s)) = [true; false]
  | None => False
  end.
Proof. vm_compute. by split_and!. Qed.

Lemma reload_atomic_witness :
  exists s, reload_run three_reloads server_new = Some s /\ in_force (fun _ => true) s /\ gs_submit s = "/b"%string.
Proof.
  destruct three_reloads_run as [_ X]. destruct (reload_run three_reloads server_new) as [s|] eqn:E; [|destruct X].
  exists s. split; [reflexivity|]. split; [exact (proj1 (reload_atomic (fun _ => true) three_reloads s E))|].
  destruct X as (_ & X & _). by injection X.
Defined.

Lemma reload_services_witness :
  exists s, reload_run three_reloads server_new = Some s /\ calm s /\ map rep_on (gs_reps s) = [false; true].
Proof.
  destruct three_reloads_run as [Hs X]. destruct (reload_run three_reloads server_new) as [s|] eqn:E; [|destruct X].
  destruct X as (Hq & _ & Hm & _). exists s. split; [reflexivity|]. split; [|exact Hm].
  destruct (reload_services (fun _ => true) three_reloads s E Hq) as (_ & _ & _ & H). exact (proj1 (H Hs)).
Defined.
